(* ===== verification/_CoqProject ===== *)
-Q . S2P
Prelude.v
JsonFilter.v
JsonFilterSpec.v
JsonGrammar.v
WebSocket.v
WebSocketSpec.v
WebSocketClose.v
ChunkedDecoder.v
ChunkedDecoderSpec.v
Throttle.v
ThrottleSpec.v
BufferedOutput.v
BufferedInput.v
Promise.v
Peer.v
PeerSpec.v
ConnectionPool.v
ConnectionPoolSpec.v
Jsonrpc.v
JsonrpcSpec.v
HttpScan.v
HttpMessage.v
HttpConnection.v
HttpConnectionSpec.v
HttpConnectionLife.v
WebService.v
WebServiceSpec.v
Longpolling.v
LongpollingSpec.v
SocketStream.v
Connection.v
ConnectionSpec.v
Socket.v
SocketSpec.v
Transport.v
WebsocketServer.v
WebsocketServerSpec.v
WebDir.v
WebDirSpec.v
WebTransport.v
WebTransportSpec.v
DBusAgent.v
DBusAgentSpec.v
DBusBridge.v
DBusBridgeSpec.v
WebsocketClient.v
WebsocketClientSpec.v
JsonrpcHttp.v
JsonrpcHttpSpec.v
Reproxy.v
ReproxySpec.v
TlsDhGenerator.v
TlsDhGeneratorSpec.v
TlsCertificate.v
TlsSession.v
TlsSessionSpec.v
TlsVerify.v
TlsStream.v
