(* ===== verification/Prelude.v ===== *)
(** * EventDance: a verification of its core

    EventDance is a peer-to-peer communication library in C on top of GLib: sockets wrapped in
    connections with throttled and buffered streams, an HTTP layer with services on it, transports that
    carry messages between peers over WebSockets and long polling, JSON-RPC and a bridge to D-Bus over
    these transports, a reverse proxy, and promises.  This development models the parts of src/evd that
    carry its own logic, operation by operation, as executable functions, and proves what makes each of
    them correct.  Each component has a file with its model, and most have a second one, with the suffix
    Spec, for the theorems; each file holds one module of the same name.

    ** Parts of the program and their models

    Formats and streams:
    - [JsonFilter] (evd-json-filter.c): the push-down automaton that cuts a byte stream into JSON
      texts. [JsonFilterSpec] relates it to a byte-at-a-time specification; [JsonGrammar] relates the
      specification to a grammar of JSON in ASCII.
    - [WebSocket] (evd-websocket-protocol.c): frames, the incremental reader, both handshakes.
      [WebSocketSpec] is about frames and the reader, [WebSocketClose] about the life of a connection.
    - [ChunkedDecoder], [ChunkedDecoderSpec] (evd-http-chunked-decoder.c): the HTTP body decoder.
    - [Throttle], [ThrottleSpec] (evd-stream-throttle.c, evd-throttled-input-stream.c,
      evd-throttled-output-stream.c): bandwidth and latency limits shared by streams.
    - [BufferedOutput] (evd-buffered-output-stream.c) and [BufferedInput]
      (evd-buffered-input-stream.c): the two ends of a connection's pipeline.

    Connections:
    - [Socket], [SocketSpec] (evd-socket.c): the state machine of a socket, over the answers of the
      system, of the resolver and of the poll; [SocketStream] (evd-socket-input-stream.c,
      evd-socket-output-stream.c): the streams on it.
    - [Connection], [ConnectionSpec] (evd-connection.c): the pipeline of a socket's streams, conditions,
      closing, locking and TLS, built from [Throttle], [BufferedInput] and [BufferedOutput].
    - [ConnectionPool], [ConnectionPoolSpec] (evd-connection-pool.c, with the groups of evd-io-stream.c
      and evd-io-stream-group.c).

    HTTP and services:
    - [HttpScan] (the search for the end of the headers), [HttpMessage] (evd-http-message.c,
      evd-http-request.c), [HttpConnection] (evd-http-connection.c, over [BufferedInput] and
      [ChunkedDecoder]); [HttpConnectionSpec] is about headers and bodies, [HttpConnectionLife] about the
      end of every operation.
    - [WebService], [WebServiceSpec] (evd-service.c, evd-web-service.c, evd-web-selector.c): validation,
      origins, and the hand-over of connections between services.
    - [WebDir], [WebDirSpec] (evd-web-dir.c): files over HTTP.
    - [Reproxy], [ReproxySpec] (evd-reproxy.c): backends behind the interface [Reproxy.BackendPool],
      whose promises are the class [Reproxy.BackendPoolLaws]; [ReproxySpec] proves that [ConnectionPool]
      keeps them.

    Peers and transports:
    - [Peer], [PeerSpec] (evd-peer.c, evd-peer-manager.c): peers with their backlogs and their expiry.
    - [Transport] (evd-transport.c): what all transports share: opening, validation, acceptance,
      rejection and closing of peers.
    - [WebsocketServer], [WebsocketClient] with their Spec files (evd-websocket-server.c,
      evd-websocket-client.c): messages between peers over WebSocket connections.
    - [Longpolling], [LongpollingSpec] (evd-longpolling-server.c): messages over HTTP requests.
    - [WebTransport], [WebTransportSpec] (evd-web-transport-server.c): the handshake that offers a peer
      its transport, and the routing of its requests.

    Calls:
    - [Promise] (evd-promise.c): deferreds, promises, their listeners and the idle queue.
    - [Jsonrpc], [JsonrpcSpec] (evd-jsonrpc.c): calls and answers between two endpoints, over the models
      of the JSON filter; [JsonrpcHttp], [JsonrpcHttpSpec] (evd-jsonrpc-http-client.c,
      evd-jsonrpc-http-server.c): the same over HTTP connections and web services.
    - [DBusAgent], [DBusAgentSpec] (evd-dbus-agent.c): the tables of connections, proxies, names and
      exported objects of each peer; [DBusBridge], [DBusBridgeSpec] (evd-dbus-bridge.c,
      evd-ipc-mechanism.c): the commands of peers, over the agent.

    TLS:
    - [TlsDhGenerator], [TlsDhGeneratorSpec] (evd-tls-dh-generator.c): the cache of Diffie-Hellman
      parameters, with the threads that generate them; a region that holds a mutex is one step.
    - [TlsCertificate] (evd-tls-certificate.c, evd-tls-privkey.c): import, ownership and validity.
    - [TlsSession], [TlsSessionSpec] (evd-tls-credentials.c, evd-tls-session.c, evd-tls-common.c):
      credentials that become ready, over the generator, and the sessions that wait for them.  GnuTLS is
      the class [Gnutls]: a call that moves data is a tree of the calls it makes back, to the transport
      of the session (the class [Transport]) and to the certificate callback.
    - [TlsVerify]: the certificates and the name of the peer.
    - [TlsStream] (evd-tls-input-stream.c, evd-tls-output-stream.c): a transport built from
      [BufferedOutput].

    ** How the code is modelled

    A private structure of the C code is a [Record] with the fields of the source, an enumeration an
    [Inductive] with its constructors, an operation a definition with the name of the C function.  Objects
    that several others point to (throttles, peers, connections) live in a map by name, and the operations
    pass that world along.  What an operation does to the outside (callbacks, writes, signals) is the list
    of events it returns; what the outside answers (a base stream, the clock, the network, a user) is an
    argument or an operation of its own, over which the theorems quantify.  Work the code defers to the
    main loop (idle callbacks, timeouts, completions) is an operation too.  Machine integers are [Z], with
    their wrap-around written where the code stores them.  [None], or the constructor [Crash], stands for
    what ends the program: an assertion, a NULL or freed pointer, an access outside an array.

    Assumptions that hold throughout: handlers of signals and callbacks of the user do not call back into
    the operation that runs them; references are counted only where a property depends on them (promises,
    connections); memory does not run out; the 32-bit numbers of calls do not wrap around, where a theorem
    says so.  Libraries the sources call are parameters, classes with their operations, and what is relied
    on is stated in separate hypotheses or classes of laws: libsoup ([HttpMessage.Soup], [SoupLaws]),
    JSON-GLib ([Jsonrpc.JsonGlib], [JsonrpcSpec.wire_ok]), GnuTLS ([TlsCertificate.GnutlsPki],
    [TlsSession.Gnutls], [TlsSessionSpec.GnutlsLaws]), regular expressions ([WebService.Regex]), SHA-1 and
    base64.

    ** What is shown

    - Refinement and equivalence: the JSON filter delivers the packets of its specification for every way
      the bytes are cut; the chunked decoder is a byte-at-a-time decoder; the buffered input is one stream
      with pushback; a served file is the answer of a reference handler; the proxy chooses its backend by
      rotation.
    - Round trips: messages through frames, bodies through chunks and through two connections, the backlog
      through a server to its client, a call through JSON-RPC over HTTP and back.
    - Invariants over all executions, by induction on sequences of operations: streams are FIFOs, no second
      carries more than the bandwidth, messages are given in order, the pool answers requests in order,
      every command of the bridge and every handshake is answered once, what the proxy relays is what came,
      what goes through the TLS streams keeps its order.
    - Safety: a close frame is the last frame; the handlers of a service see a request only when it has no
      origin, or one that the code takes for its own or that is allowed; a peer is announced once; the
      answers of a server go to the connection of their call; the states of a socket follow the paths of
      its state machine; a TLS session shakes hands with credentials, parameters are generated for the length that was asked, and a peer that is found right
      has valid certificates.
    - Termination and liveness: adding a connection to services ends, a file that can be served is, the
      closing handshake completes, a hangup is not lost, a lent connection comes back, every operation of
      a socket or an HTTP connection ends once, requests for Diffie-Hellman parameters are answered and
      a handshake that waits for credentials goes on.
    - Bounds and errors: the buffers are not overrun, except where a theorem shows an input that does;
      what a failed delivery does not send is kept.  Each defect the models showed is an [Example] about
      the code as it is.

    ** Fuel

    Loops and mutual calls that are not structural take fuel, and a theorem or the definition says that
    the amount is enough: the readers of WebSocket frames and of chunks use at most a turn for each byte,
    as do [receive_all] and [convert_blocks]; the scan of the headers one for each character; the backlog
    loops one for each message; [Peer.close_fuel] covers the three ways of closing that call each other;
    [ConnectionPool.CALL_DEPTH] the calls between streams and groups; [create_loop] the connections that
    are missing; the calls of services that add a connection to each other are at most the services and
    one more; directories are answered once for each level; the search for a free backend turns once for
    each backend.  The loop over the names of a TLS client ([server_name_loop]) has no bound of its own:
    it goes on until GnuTLS has no more names.

    ** What is not modelled

    - The poll and the resolver (evd-poll.c, evd-resolver.c): a thread around epoll, and GIO's resolver;
      their answers are operations of [Socket].
    - The keys of evd-pki (evd-pki-privkey.c, evd-pki-pubkey.c), and what reads a certificate's name and
      public key: each runs one function of GnuTLS.  Loading GnuTLS and libgcrypt (evd_tls_init), and the
      free functions of user data.  [Connection] takes the answers of its TLS session as arguments: it is
      not built from [TlsSession].
    - The daemons and utilities (evd-daemon.c, evd-dbus-daemon.c, evd-utils.c, evd-error.c, the main files
      and the bindings): process control and glue.
    - Properties, finalizers and the type registration of GObject, except where another operation depends
      on what they do.

    This file is the prelude: machine integers, memory images, lemmas on lists, the shared tactics and
    the hint database [evd]. *)
From stdpp Require Export prelude list gmap strings.
From Stdlib Require Export ZArith Lia.

#[global] Open Scope Z_scope.

(** ** Machine integers

    The C sources use GLib's fixed-width types.  Values are kept in [Z] and every place
    where the C code converts or stores at a width applies the matching wrap. *)

Definition u8 (z : Z) : Z := z mod 256.
Definition u16 (z : Z) : Z := z mod 65536.
Definition u32 (z : Z) : Z := z mod 4294967296.
Definition u64 (z : Z) : Z := z mod 18446744073709551616.

(** Two's complement reading of an 8-bit ([gchar]) and of a 64-bit ([gssize]) value. *)
Definition s8 (z : Z) : Z := (z + 128) mod 256 - 128.
Definition s64 (z : Z) : Z :=
  (z + 9223372036854775808) mod 18446744073709551616 - 9223372036854775808.

Definition byte_ok (b : Z) : Prop := 0 <= b < 256.
Abbreviation bytes_ok := (Forall byte_ok).

(** Reduces the binds of the option monad whose first step is known, and nothing else: the
    operations themselves stay folded. *)
Ltac run_bind := cbn [mbind option_bind].

(** Literal byte strings. *)
Ltac solve_bytes :=
  repeat (apply Forall_cons; split; [unfold byte_ok; lia|]); try by apply Forall_nil.

(** ** Memory images of integers

    [le_bytes n z] is the memory of an [n]-byte integer on a little-endian host, [le_value] reads
    it back. *)
Fixpoint le_bytes (n : nat) (z : Z) : list Z :=
  match n with
  | O => []
  | S n => z mod 256 :: le_bytes n (z / 256)
  end.

Fixpoint le_value (l : list Z) : Z :=
  match l with
  | [] => 0
  | b :: l => b + 256 * le_value l
  end.

Lemma length_le_bytes n z : length (le_bytes n z) = n.
Proof. revert z; induction n; intros; simpl; auto. Qed.

Lemma le_bytes_ok n z : bytes_ok (le_bytes n z).
Proof.
  revert z; induction n; intros z; simpl; constructor; auto.
  apply Z.mod_pos_bound; lia.
Qed.

Lemma le_value_le_bytes n z : le_value (le_bytes n z) = z mod 256 ^ Z.of_nat n.
Proof.
  revert z; induction n as [|n IH]; intros z; simpl le_bytes; simpl le_value.
  { by rewrite Z.mod_1_r. }
  rewrite IH, Nat2Z.inj_succ, Z.pow_succ_r by lia.
  rewrite Z.rem_mul_r by lia. lia.
Qed.

Lemma le_bytes_le_value l : bytes_ok l → le_bytes (length l) (le_value l) = l.
Proof.
  induction 1 as [|b l Hb Hl IH]; simpl; [done|]. f_equal.
  - rewrite Z.mul_comm, Z.mod_add by lia. by apply Z.mod_small.
  - rewrite Z.mul_comm, Z.div_add by lia. rewrite Z.div_small by done. by rewrite Z.add_0_l.
Qed.

Lemma le_value_range l : bytes_ok l → 0 <= le_value l < 256 ^ Z.of_nat (length l).
Proof.
  induction 1 as [|b l Hb Hl IH]; simpl length; simpl le_value; [lia|].
  rewrite Nat2Z.inj_succ, Z.pow_succ_r by lia. unfold byte_ok in Hb. lia.
Qed.

(** Reversing the bytes of an [n]-byte integer. *)
Definition swap_bytes (n : nat) (z : Z) : Z := le_value (reverse (le_bytes n z)).

Lemma le_bytes_swap n z : le_bytes n (swap_bytes n z) = reverse (le_bytes n z).
Proof.
  unfold swap_bytes. rewrite <-(le_bytes_le_value (reverse (le_bytes n z))) at 2.
  - by rewrite length_reverse, length_le_bytes.
  - apply Forall_reverse, le_bytes_ok.
Qed.

Lemma swap_bytes_reverse n z :
  0 <= z < 256 ^ Z.of_nat n → swap_bytes n (le_value (reverse (le_bytes n z))) = z.
Proof.
  intros Hz. change (le_value (reverse (le_bytes n z))) with (swap_bytes n z).
  unfold swap_bytes at 1. rewrite le_bytes_swap, reverse_involutive, le_value_le_bytes.
  by apply Z.mod_small.
Qed.

Lemma le_bytes_take m n z : (m <= n)%nat → take m (le_bytes n z) = le_bytes m z.
Proof.
  revert n z; induction m as [|m IH]; intros [|n] z ?; simpl; try done; [lia|].
  f_equal. apply IH. lia.
Qed.

(** The codes of the characters of a literal. *)
Definition codes (s : string) : list Z :=
  (λ c, Z.of_N (Ascii.N_of_ascii c)) <$> String.list_ascii_of_string s.

(** The string of a list of codes. *)
Definition text (l : list Z) : string :=
  String.string_of_list_ascii ((λ z, Ascii.ascii_of_N (Z.to_N z)) <$> l).

Lemma text_codes s : text (codes s) = s.
Proof.
  unfold text, codes. induction s as [|c s IH]; [done|]. simpl. rewrite N2Z.id, Ascii.ascii_N_embedding.
  f_equal. apply IH.
Qed.

Lemma codes_text l : bytes_ok l → codes (text l) = l.
Proof.
  unfold text, codes. induction 1 as [|z l Hz Hl IH]; [done|]. simpl. unfold byte_ok in Hz.
  rewrite Ascii.N_ascii_embedding by lia. rewrite Z2N.id by lia. f_equal. apply IH.
Qed.

(** ** Lists *)

Lemma take_S_insert {A} n (x : A) l :
  (n < length l)%nat → take (S n) (<[n := x]> l) = take n l ++ [x].
Proof.
  intros H. erewrite take_S_r by (by apply list_lookup_insert_eq).
  by rewrite take_insert_ge by lia.
Qed.

(** Filters that agree on the elements of a list. *)
Lemma filter_ext_in {A} (P Q : A → Prop) `{∀ x, Decision (P x)} `{∀ x, Decision (Q x)} (l : list A) :
  (∀ x, x ∈ l → P x ↔ Q x) → filter P l = filter Q l.
Proof.
  induction l as [|x l IH]; intros HPQ; [done|].
  assert (filter P l = filter Q l) as Hl by (apply IH; intros y Hy; apply HPQ; by right).
  destruct (decide (P x)) as [Hp|Hp].
  - rewrite !filter_cons_True, Hl; [done| |done]. apply HPQ; [by left|done].
  - rewrite !filter_cons_False, Hl; [done| |done]. intros Hq. apply Hp, HPQ; [by left|done].
Qed.

(** An element is taken out of a list without duplicates. *)
Lemma filter_take_out {A} `{EqDecision A} (x : A) l : NoDup l → x ∈ l → l ≡ₚ x :: filter (.≠ x) l.
Proof.
  intros Hnd Hx. apply NoDup_Permutation; [done| |].
  - apply NoDup_cons. split; [|by apply NoDup_filter]. by intros [? _]%list_elem_of_filter.
  - intros y. rewrite elem_of_cons, list_elem_of_filter. destruct (decide (y = x)); naive_solver.
Qed.

(** ** Automation

    The side conditions that come up in every component: empty and singleton lists, filters, memory
    images. *)
Create HintDb evd.
#[export] Hint Resolve Forall_nil_2 NoDup_singleton sublist_filter le_bytes_ok : evd.
