(* ===== verification/JsonFilter.v ===== *)
(** * EvdJsonFilter (src/evd/evd-json-filter.c): model

    The JSON packet splitter: a pushdown automaton driven by two tables, with a mode stack of
    [MAX_DEPTH] cells, and the buffering code around it ([evd_json_filter_feed_len]) that cuts a
    byte stream into complete top-level JSON texts.  The C array accesses that could fall outside
    the stack return [None] here, so that memory safety is a theorem and not an assumption. *)
From S2P Require Import Prelude.

Module JsonFilter.

Definition MAX_DEPTH : Z := 128.

(** Character classes. *)
Inductive classes :=
  | C_SPACE | C_WHITE | C_LCURB | C_RCURB | C_LSQRB | C_RSQRB | C_COLON | C_COMMA
  | C_QUOTE | C_BACKS | C_SLASH | C_PLUS | C_MINUS | C_POINT | C_ZERO | C_DIGIT
  | C_LOW_A | C_LOW_B | C_LOW_C | C_LOW_D | C_LOW_E | C_LOW_F | C_LOW_L | C_LOW_N
  | C_LOW_R | C_LOW_S | C_LOW_T | C_LOW_U | C_ABCDF | C_E | C_ETC.

(** An entry of [ascii_class]: a class, or the error code. *)
Inductive class_entry := Cl (c : classes) | ClErr.

Definition ascii_class : list class_entry := [
  ClErr; ClErr; ClErr; ClErr; ClErr; ClErr; ClErr; ClErr;
  ClErr; Cl C_WHITE; Cl C_WHITE; ClErr; ClErr; Cl C_WHITE; ClErr; ClErr;
  ClErr; ClErr; ClErr; ClErr; ClErr; ClErr; ClErr; ClErr;
  ClErr; ClErr; ClErr; ClErr; ClErr; ClErr; ClErr; ClErr;
  Cl C_SPACE; Cl C_ETC; Cl C_QUOTE; Cl C_ETC; Cl C_ETC; Cl C_ETC; Cl C_ETC; Cl C_ETC;
  Cl C_ETC; Cl C_ETC; Cl C_ETC; Cl C_PLUS; Cl C_COMMA; Cl C_MINUS; Cl C_POINT; Cl C_SLASH;
  Cl C_ZERO; Cl C_DIGIT; Cl C_DIGIT; Cl C_DIGIT; Cl C_DIGIT; Cl C_DIGIT; Cl C_DIGIT; Cl C_DIGIT;
  Cl C_DIGIT; Cl C_DIGIT; Cl C_COLON; Cl C_ETC; Cl C_ETC; Cl C_ETC; Cl C_ETC; Cl C_ETC;
  Cl C_ETC; Cl C_ABCDF; Cl C_ABCDF; Cl C_ABCDF; Cl C_ABCDF; Cl C_E; Cl C_ABCDF; Cl C_ETC;
  Cl C_ETC; Cl C_ETC; Cl C_ETC; Cl C_ETC; Cl C_ETC; Cl C_ETC; Cl C_ETC; Cl C_ETC;
  Cl C_ETC; Cl C_ETC; Cl C_ETC; Cl C_ETC; Cl C_ETC; Cl C_ETC; Cl C_ETC; Cl C_ETC;
  Cl C_ETC; Cl C_ETC; Cl C_ETC; Cl C_LSQRB; Cl C_BACKS; Cl C_RSQRB; Cl C_ETC; Cl C_ETC;
  Cl C_ETC; Cl C_LOW_A; Cl C_LOW_B; Cl C_LOW_C; Cl C_LOW_D; Cl C_LOW_E; Cl C_LOW_F; Cl C_ETC;
  Cl C_ETC; Cl C_ETC; Cl C_ETC; Cl C_ETC; Cl C_LOW_L; Cl C_ETC; Cl C_LOW_N; Cl C_ETC;
  Cl C_ETC; Cl C_ETC; Cl C_LOW_R; Cl C_LOW_S; Cl C_LOW_T; Cl C_LOW_U; Cl C_ETC; Cl C_ETC;
  Cl C_ETC; Cl C_ETC; Cl C_ETC; Cl C_LCURB; Cl C_ETC; Cl C_RCURB; Cl C_ETC; Cl C_ETC ].

(** The state codes. *)
Inductive states :=
  | GO | OK | OB | KE | CO | VA | AR | ST | ES | U1
  | U2 | U3 | U4 | MI | ZE | IN | FR | E1 | E2 | E3
  | T1 | T2 | T3 | F1 | F2 | F3 | F4 | N1 | N2 | N3.

(** A cell of the transition table: a state, or a negative action code. *)
Inductive cell := St (s : states) | Ac (a : Z).

(** The universal error code of the tables. *)
Abbreviation __ := (Ac (-1)).

Definition state_transition_table : list (list cell) := [
  [St GO; St GO; Ac(-6); __; Ac(-5); __; __; __; __; __; __; __; __; __; __; __; __; __; __; __; __; __; __; __; __; __; __; __; __; __; __];
  [St OK; St OK; __; Ac(-8); __; Ac(-7); __; Ac(-3); __; __; __; __; __; __; __; __; __; __; __; __; __; __; __; __; __; __; __; __; __; __; __];
  [St OB; St OB; __; Ac(-9); __; __; __; __; St ST; __; __; __; __; __; __; __; __; __; __; __; __; __; __; __; __; __; __; __; __; __; __];
  [St KE; St KE; __; __; __; __; __; __; St ST; __; __; __; __; __; __; __; __; __; __; __; __; __; __; __; __; __; __; __; __; __; __];
  [St CO; St CO; __; __; __; __; Ac(-2); __; __; __; __; __; __; __; __; __; __; __; __; __; __; __; __; __; __; __; __; __; __; __; __];
  [St VA; St VA; Ac(-6); __; Ac(-5); __; __; __; St ST; __; __; __; St MI; __; St ZE; St IN; __; __; __; __; __; St F1; __; St N1; __; __; St T1; __; __; __; __];
  [St AR; St AR; Ac(-6); __; Ac(-5); Ac(-7); __; __; St ST; __; __; __; St MI; __; St ZE; St IN; __; __; __; __; __; St F1; __; St N1; __; __; St T1; __; __; __; __];
  [St ST; __; St ST; St ST; St ST; St ST; St ST; St ST; Ac(-4); St ES; St ST; St ST; St ST; St ST; St ST; St ST; St ST; St ST; St ST; St ST; St ST; St ST; St ST; St ST; St ST; St ST; St ST; St ST; St ST; St ST; St ST];
  [__; __; __; __; __; __; __; __; St ST; St ST; St ST; __; __; __; __; __; __; St ST; __; __; __; St ST; __; St ST; St ST; __; St ST; St U1; __; __; __];
  [__; __; __; __; __; __; __; __; __; __; __; __; __; __; St U2; St U2; St U2; St U2; St U2; St U2; St U2; St U2; __; __; __; __; __; __; St U2; St U2; __];
  [__; __; __; __; __; __; __; __; __; __; __; __; __; __; St U3; St U3; St U3; St U3; St U3; St U3; St U3; St U3; __; __; __; __; __; __; St U3; St U3; __];
  [__; __; __; __; __; __; __; __; __; __; __; __; __; __; St U4; St U4; St U4; St U4; St U4; St U4; St U4; St U4; __; __; __; __; __; __; St U4; St U4; __];
  [__; __; __; __; __; __; __; __; __; __; __; __; __; __; St ST; St ST; St ST; St ST; St ST; St ST; St ST; St ST; __; __; __; __; __; __; St ST; St ST; __];
  [__; __; __; __; __; __; __; __; __; __; __; __; __; __; St ZE; St IN; __; __; __; __; __; __; __; __; __; __; __; __; __; __; __];
  [St OK; St OK; __; Ac(-8); __; Ac(-7); __; Ac(-3); __; __; __; __; __; St FR; __; __; __; __; __; __; __; __; __; __; __; __; __; __; __; __; __];
  [St OK; St OK; __; Ac(-8); __; Ac(-7); __; Ac(-3); __; __; __; __; __; St FR; St IN; St IN; __; __; __; __; St E1; __; __; __; __; __; __; __; __; St E1; __];
  [St OK; St OK; __; Ac(-8); __; Ac(-7); __; Ac(-3); __; __; __; __; __; __; St FR; St FR; __; __; __; __; St E1; __; __; __; __; __; __; __; __; St E1; __];
  [__; __; __; __; __; __; __; __; __; __; __; St E2; St E2; __; St E3; St E3; __; __; __; __; __; __; __; __; __; __; __; __; __; __; __];
  [__; __; __; __; __; __; __; __; __; __; __; __; __; __; St E3; St E3; __; __; __; __; __; __; __; __; __; __; __; __; __; __; __];
  [St OK; St OK; __; Ac(-8); __; Ac(-7); __; Ac(-3); __; __; __; __; __; __; St E3; St E3; __; __; __; __; __; __; __; __; __; __; __; __; __; __; __];
  [__; __; __; __; __; __; __; __; __; __; __; __; __; __; __; __; __; __; __; __; __; __; __; __; St T2; __; __; __; __; __; __];
  [__; __; __; __; __; __; __; __; __; __; __; __; __; __; __; __; __; __; __; __; __; __; __; __; __; __; __; St T3; __; __; __];
  [__; __; __; __; __; __; __; __; __; __; __; __; __; __; __; __; __; __; __; __; St OK; __; __; __; __; __; __; __; __; __; __];
  [__; __; __; __; __; __; __; __; __; __; __; __; __; __; __; __; St F2; __; __; __; __; __; __; __; __; __; __; __; __; __; __];
  [__; __; __; __; __; __; __; __; __; __; __; __; __; __; __; __; __; __; __; __; __; __; St F3; __; __; __; __; __; __; __; __];
  [__; __; __; __; __; __; __; __; __; __; __; __; __; __; __; __; __; __; __; __; __; __; __; __; __; St F4; __; __; __; __; __];
  [__; __; __; __; __; __; __; __; __; __; __; __; __; __; __; __; __; __; __; __; St OK; __; __; __; __; __; __; __; __; __; __];
  [__; __; __; __; __; __; __; __; __; __; __; __; __; __; __; __; __; __; __; __; __; __; __; __; __; __; __; St N2; __; __; __];
  [__; __; __; __; __; __; __; __; __; __; __; __; __; __; __; __; __; __; __; __; __; __; St N3; __; __; __; __; __; __; __; __];
  [__; __; __; __; __; __; __; __; __; __; __; __; __; __; __; __; __; __; __; __; __; __; St OK; __; __; __; __; __; __; __; __] ].

Definition class_index (c : classes) : nat :=
  match c with
  | C_SPACE => 0%nat | C_WHITE => 1%nat | C_LCURB => 2%nat | C_RCURB => 3%nat | C_LSQRB => 4%nat
  | C_RSQRB => 5%nat | C_COLON => 6%nat | C_COMMA => 7%nat | C_QUOTE => 8%nat | C_BACKS => 9%nat
  | C_SLASH => 10%nat | C_PLUS => 11%nat | C_MINUS => 12%nat | C_POINT => 13%nat | C_ZERO => 14%nat
  | C_DIGIT => 15%nat | C_LOW_A => 16%nat | C_LOW_B => 17%nat | C_LOW_C => 18%nat | C_LOW_D => 19%nat
  | C_LOW_E => 20%nat | C_LOW_F => 21%nat | C_LOW_L => 22%nat | C_LOW_N => 23%nat | C_LOW_R => 24%nat
  | C_LOW_S => 25%nat | C_LOW_T => 26%nat | C_LOW_U => 27%nat | C_ABCDF => 28%nat | C_E => 29%nat
  | C_ETC => 30%nat
  end.

Definition state_index (s : states) : nat :=
  match s with
  | GO => 0%nat | OK => 1%nat | OB => 2%nat | KE => 3%nat | CO => 4%nat | VA => 5%nat
  | AR => 6%nat | ST => 7%nat | ES => 8%nat | U1 => 9%nat | U2 => 10%nat | U3 => 11%nat
  | U4 => 12%nat | MI => 13%nat | ZE => 14%nat | IN => 15%nat | FR => 16%nat | E1 => 17%nat
  | E2 => 18%nat | E3 => 19%nat | T1 => 20%nat | T2 => 21%nat | T3 => 22%nat | F1 => 23%nat
  | F2 => 24%nat | F3 => 25%nat | F4 => 26%nat | N1 => 27%nat | N2 => 28%nat | N3 => 29%nat
  end.
(** Modes that can be pushed on the stack, in the order of the C enum. *)
Inductive modes := MODE_ARRAY | MODE_DONE | MODE_KEY | MODE_OBJECT.

#[export] Instance states_eq_dec : EqDecision states.
Proof. solve_decision. Defined.
#[export] Instance modes_eq_dec : EqDecision modes.
Proof. solve_decision. Defined.

(** The private data.  Callbacks and user data are opaque identifiers; [NULL] is [None]. *)
Record EvdJsonFilterPrivate := mkFilter {
  state : states;
  depth : Z;
  top : Z;
  stack : list modes;
  content_start : Z;
  cache : list Z;
  packet_cb : option nat;
  user_data : option nat;
  user_data_free_func : option nat
}.

(** What the filter does to its environment. *)
Inductive event :=
  | PacketCb (cb : nat) (packet : list Z) (data : option nat)
  | FreeUserData (fn : nat) (data : nat).

Definition set_state (s : states) (p : EvdJsonFilterPrivate) : EvdJsonFilterPrivate :=
  mkFilter s (depth p) (top p) (stack p) (content_start p) (cache p)
    (packet_cb p) (user_data p) (user_data_free_func p).
Definition set_stack (t : Z) (st : list modes) (p : EvdJsonFilterPrivate) : EvdJsonFilterPrivate :=
  mkFilter (state p) (depth p) t st (content_start p) (cache p)
    (packet_cb p) (user_data p) (user_data_free_func p).
Definition set_content_start (o : Z) (p : EvdJsonFilterPrivate) : EvdJsonFilterPrivate :=
  mkFilter (state p) (depth p) (top p) (stack p) o (cache p)
    (packet_cb p) (user_data p) (user_data_free_func p).
Definition set_cache (c : list Z) (p : EvdJsonFilterPrivate) : EvdJsonFilterPrivate :=
  mkFilter (state p) (depth p) (top p) (stack p) (content_start p) c
    (packet_cb p) (user_data p) (user_data_free_func p).

(** [self->priv->stack[self->priv->top]]; [None] is a read outside the array. *)
Definition stack_top (p : EvdJsonFilterPrivate) : option modes :=
  if top p <? 0 then None else stack p !! Z.to_nat (top p).

(** A write to [stack[i]]; [None] is a write outside the array. *)
Definition stack_write (i : Z) (m : modes) (st : list modes) : option (list modes) :=
  if (i <? 0) || (Z.of_nat (length st) <=? i) then None else Some (<[Z.to_nat i := m]> st).

Definition evd_json_filter_push (p : EvdJsonFilterPrivate) (mode : modes)
  : option (EvdJsonFilterPrivate * bool) :=
  let p := set_stack (top p + 1) (stack p) p in
  if depth p <=? top p then Some (p, false)
  else st ← stack_write (top p) mode (stack p); Some (set_stack (top p) st p, true).

Definition evd_json_filter_pop (p : EvdJsonFilterPrivate) (mode : modes)
  : option (EvdJsonFilterPrivate * bool) :=
  if top p <? 0 then Some (p, false)
  else m ← stack_top p;
       if decide (m = mode) then Some (set_stack (top p - 1) (stack p) p, true)
       else Some (p, false).

Definition evd_json_filter_reset (p : EvdJsonFilterPrivate) : option EvdJsonFilterPrivate :=
  let p := mkFilter GO MAX_DEPTH (-1) (stack p) (-1) (cache p)
             (packet_cb p) (user_data p) (user_data_free_func p) in
  fst <$> evd_json_filter_push p MODE_DONE.

Definition evd_json_filter_error (p : EvdJsonFilterPrivate)
  : option (EvdJsonFilterPrivate * bool) :=
  p ← evd_json_filter_reset p; Some (p, false).

(** [g_new0] zeroes the stack, and code 0 is [MODE_ARRAY]. *)
Definition evd_json_filter_init : option EvdJsonFilterPrivate :=
  evd_json_filter_reset
    (mkFilter GO 0 0 (replicate (Z.to_nat MAX_DEPTH) MODE_ARRAY) 0 [] None None None).

(** The class of a character as [evd_json_filter_process] computes it: a negative character and
    a control character are errors, a character above 127 is [C_ETC]. *)
Definition char_class (next_char : Z) : option classes :=
  if next_char <? 0 then None
  else if 128 <=? next_char then Some C_ETC
  else match ascii_class !! Z.to_nat next_char with
       | Some (Cl c) => Some c
       | _ => None
       end.

Definition table (s : states) (c : classes) : cell :=
  default __ (state_transition_table !! state_index s ≫= λ row, row !! class_index c).

(** Pop or push [then continue], failing through [evd_json_filter_error]. *)
Definition then_state (r : option (EvdJsonFilterPrivate * bool)) (s : states)
  : option (EvdJsonFilterPrivate * bool) :=
  '(p, ok) ← r;
  if (ok : bool) then Some (set_state s p, true) else evd_json_filter_error p.

(** [! pop (a) || ! push (b)]: the second call is made only when the first one succeeds. *)
Definition flip_mode (p : EvdJsonFilterPrivate) (a b : modes)
  : option (EvdJsonFilterPrivate * bool) :=
  '(p, ok) ← evd_json_filter_pop p a;
  if (ok : bool) then evd_json_filter_push p b else Some (p, false).

(** The [switch (next_state)] of the action codes. *)
Definition perform_action (a : Z) (p : EvdJsonFilterPrivate)
  : option (EvdJsonFilterPrivate * bool) :=
  match a with
  | -9 => then_state (evd_json_filter_pop p MODE_KEY) OK
  | -8 => then_state (evd_json_filter_pop p MODE_OBJECT) OK
  | -7 => then_state (evd_json_filter_pop p MODE_ARRAY) OK
  | -6 => then_state (evd_json_filter_push p MODE_KEY) OB
  | -5 => then_state (evd_json_filter_push p MODE_ARRAY) AR
  | -4 =>
      m ← stack_top p;
      match m with
      | MODE_KEY => Some (set_state CO p, true)
      | MODE_ARRAY | MODE_OBJECT => Some (set_state OK p, true)
      | MODE_DONE => evd_json_filter_error p
      end
  | -3 =>
      m ← stack_top p;
      match m with
      | MODE_OBJECT => then_state (flip_mode p MODE_OBJECT MODE_KEY) KE
      | MODE_ARRAY => Some (set_state VA p, true)
      | _ => evd_json_filter_error p
      end
  | -2 => then_state (flip_mode p MODE_KEY MODE_OBJECT) VA
  | _ => evd_json_filter_error p
  end.

Definition evd_json_filter_process (p : EvdJsonFilterPrivate) (next_char offset : Z)
  : option (EvdJsonFilterPrivate * bool) :=
  match char_class next_char with
  | None => evd_json_filter_error p
  | Some c =>
      match table (state p) c with
      | St s => Some (set_state s p, true)
      | Ac a =>
          perform_action a
            (if content_start p =? -1 then set_content_start offset p else p)
      end
  end.

Definition evd_json_filter_notify_packet (p : EvdJsonFilterPrivate) (packet : list Z)
  : list event :=
  match packet_cb p with
  | Some cb => [PacketCb cb packet (user_data p)]
  | None => []
  end.

(** [n] bytes of [buffer] from offset [o]. *)
Definition slice (o n : Z) (buffer : list Z) : list Z :=
  take (Z.to_nat n) (drop (Z.to_nat o) buffer).

(** The body of the loop after a character was accepted: deliver the packet and reset when the
    text is complete. *)
Definition deliver_if_done (p : EvdJsonFilterPrivate) (buffer : list Z) (i : Z)
  : option (EvdJsonFilterPrivate * list event) :=
  if content_start p <? 0 then Some (p, [])
  else
    m ← stack_top p;
    if decide (m = MODE_DONE) then
      if 0 <? Z.of_nat (length (cache p)) then
        let p := set_cache (cache p ++ slice 0 (i + 1) buffer) p in
        let evs := evd_json_filter_notify_packet p (cache p) in
        p' ← evd_json_filter_reset (set_cache [] p);
        Some (p', evs)
      else
        let evs := evd_json_filter_notify_packet p
                     (slice (content_start p) (i - content_start p + 1) buffer) in
        p' ← evd_json_filter_reset p;
        Some (p', evs)
    else Some (p, []).

(** The [while (i < size)] loop; [rest] is what [buffer] holds from offset [i] on.  The result
    carries the offset of the malformed character, if any. *)
Fixpoint feed_loop (p : EvdJsonFilterPrivate) (buffer rest : list Z) (i : Z)
  : option (EvdJsonFilterPrivate * list event * option Z) :=
  match rest with
  | [] => Some (p, [], None)
  | c :: rest =>
      '(p, ok) ← evd_json_filter_process p (s8 c) i;
      if (ok : bool) then
        '(p, evs) ← deliver_if_done p buffer i;
        '(p, evs', err) ← feed_loop p buffer rest (i + 1);
        Some (p, evs ++ evs', err)
      else Some (p, [], Some i)
  end.

Definition evd_json_filter_feed_len (p : EvdJsonFilterPrivate) (buffer : list Z)
  : option (EvdJsonFilterPrivate * list event * option Z) :=
  '(p, evs, err) ← feed_loop p buffer buffer 0;
  match err with
  | Some i => Some (p, evs, Some i)
  | None =>
      if 0 <=? content_start p then
        let p := set_cache
                   (cache p ++ slice (content_start p)
                                 (Z.of_nat (length buffer) - content_start p) buffer) p in
        Some (set_content_start 0 p, evs, None)
      else Some (p, evs, None)
  end.

Definition evd_json_filter_set_packet_handler
  (p : EvdJsonFilterPrivate) (callback data free_func : option nat)
  : EvdJsonFilterPrivate * list event :=
  let evs := match packet_cb p, user_data p, user_data_free_func p with
             | Some _, Some d, Some f => [FreeUserData f d]
             | _, _, _ => []
             end in
  (mkFilter (state p) (depth p) (top p) (stack p) (content_start p) (cache p)
     callback data free_func, evs).

(** [evd_json_filter_finalize]: only the user data can be observed being released. *)
Definition evd_json_filter_finalize (p : EvdJsonFilterPrivate) : list event :=
  match user_data p, user_data_free_func p with
  | Some d, Some f => [FreeUserData f d]
  | _, _ => []
  end.

(** Feeding a sequence of buffers, stopping at the first error. *)
Fixpoint feed_all (p : EvdJsonFilterPrivate) (chunks : list (list Z))
  : option (EvdJsonFilterPrivate * list event * bool) :=
  match chunks with
  | [] => Some (p, [], true)
  | b :: chunks =>
      '(p, evs, err) ← evd_json_filter_feed_len p b;
      match err with
      | Some _ => Some (p, evs, false)
      | None => '(p, evs', ok) ← feed_all p chunks; Some (p, evs ++ evs', ok)
      end
  end.

End JsonFilter.
