(* ===== verification/JsonFilterSpec.v ===== *)
(** * EvdJsonFilter: specification and refinement

    The byte-at-a-time specification of the JSON packet splitter, the abstraction from the
    filter's private data to it, and the theorems: memory safety, refinement for any chunking of
    the input, rejection of bytes outside ASCII, and the stale cache after an error. *)
From S2P Require Import Prelude JsonFilter.
Import JsonFilter.

Module JsonFilterSpec.

(** ** Specification

    The automaton proper is a control state and a mode stack (top first); the text read so far
    is [None] between packets. *)
Definition core : Type := states * list modes.

Definition abs_push (m : modes) (s : states) (k : list modes) : option core :=
  if decide (Z.of_nat (length k) < MAX_DEPTH) then Some (s, m :: k) else None.

Definition abs_pop (m : modes) (s : states) (k : list modes) : option core :=
  match k with
  | m' :: k' => if decide (m' = m) then Some (s, k') else None
  | [] => None
  end.

Definition abs_action (a : Z) (k : list modes) : option core :=
  match a with
  | -9 => abs_pop MODE_KEY OK k
  | -8 => abs_pop MODE_OBJECT OK k
  | -7 => abs_pop MODE_ARRAY OK k
  | -6 => abs_push MODE_KEY OB k
  | -5 => abs_push MODE_ARRAY AR k
  | -4 => match k with
          | MODE_KEY :: _ => Some (CO, k)
          | MODE_ARRAY :: _ | MODE_OBJECT :: _ => Some (OK, k)
          | _ => None
          end
  | -3 => match k with
          | MODE_OBJECT :: k' => Some (KE, MODE_KEY :: k')
          | MODE_ARRAY :: _ => Some (VA, k)
          | _ => None
          end
  | -2 => match k with
          | MODE_KEY :: k' => Some (VA, MODE_OBJECT :: k')
          | _ => None
          end
  | _ => None
  end.

(** One character; the boolean says whether it started or continued a text. *)
Definition core_step (q : core) (c : Z) : option (core * bool) :=
  cl ← char_class (s8 c);
  match table q.1 cl with
  | St s => Some ((s, q.2), false)
  | Ac a => q' ← abs_action a q.2; Some (q', true)
  end.

Record spec := mkSpec { sp_core : core; sp_acc : option (list Z) }.

Definition spec_init : spec := mkSpec (GO, [MODE_DONE]) None.

Definition next_acc (acc : option (list Z)) (c : Z) (started : bool) : option (list Z) :=
  match acc with
  | Some a => Some (a ++ [c])
  | None => if started then Some [c] else None
  end.

Definition spec_step (s : spec) (c : Z) : option (spec * option (list Z)) :=
  '(q, started) ← core_step (sp_core s) c;
  match next_acc (sp_acc s) c started, q.2 with
  | Some text, MODE_DONE :: _ => Some (spec_init, Some text)
  | acc, _ => Some (mkSpec q acc, None)
  end.

(** Running the specification over a byte string: the final state, or [None] after a malformed
    character, and the packets in order. *)
Fixpoint spec_run (s : spec) (bs : list Z) : option spec * list (list Z) :=
  match bs with
  | [] => (Some s, [])
  | c :: bs =>
      match spec_step s c with
      | None => (None, [])
      | Some (s, out) => let '(r, outs) := spec_run s bs in (r, option_list out ++ outs)
      end
  end.

(** ** Abstraction *)

Definition abs_stack (p : EvdJsonFilterPrivate) : list modes :=
  reverse (take (S (Z.to_nat (top p))) (stack p)).

(** The well-formedness invariant of the private data. *)
Record wf (p : EvdJsonFilterPrivate) : Prop := mkWf {
  wf_depth : depth p = MAX_DEPTH;
  wf_len : length (stack p) = Z.to_nat MAX_DEPTH;
  wf_top : 0 <= top p < MAX_DEPTH;
  wf_bottom : stack p !! 0%nat = Some MODE_DONE
}.

Definition same_io (p p' : EvdJsonFilterPrivate) : Prop :=
  cache p' = cache p ∧ packet_cb p' = packet_cb p ∧ user_data p' = user_data p ∧
  user_data_free_func p' = user_data_free_func p.

Lemma stack_top_abs p : wf p → stack_top p = head (abs_stack p) ∧ is_Some (stack_top p).
Proof.
  intros [_ Hl Ht _]. unfold stack_top, abs_stack.
  destruct (Z.ltb_spec (top p) 0); [lia|].
  destruct (lookup_lt_is_Some_2 (stack p) (Z.to_nat (top p))) as [m Hm];
    [unfold MAX_DEPTH in *; lia|].
  rewrite Hm. erewrite take_S_r by done. rewrite reverse_snoc. eauto.
Qed.

Lemma reset_abs p :
  length (stack p) = Z.to_nat MAX_DEPTH →
  ∃ p', evd_json_filter_reset p = Some p' ∧ wf p' ∧ state p' = GO ∧
    abs_stack p' = [MODE_DONE] ∧ content_start p' = -1 ∧ same_io p p'.
Proof.
  intros Hl. unfold evd_json_filter_reset, evd_json_filter_push, stack_write; simpl.
  rewrite Hl; simpl. destruct (stack p) as [|m0 st]; [done|].
  eexists; split_and!; [done| |done..]. by constructor.
Qed.

Lemma push_abs p m :
  wf p →
  ∃ p' b, evd_json_filter_push p m = Some (p', b) ∧
    length (stack p') = Z.to_nat MAX_DEPTH ∧ content_start p' = content_start p ∧
    same_io p p' ∧ b = bool_decide (Z.of_nat (length (abs_stack p)) < MAX_DEPTH) ∧
    (b = true → wf p' ∧ abs_stack p' = m :: abs_stack p).
Proof.
  intros [Hd Hl Ht Hb]. unfold evd_json_filter_push, stack_write; simpl. rewrite Hd.
  assert (length (abs_stack p) = S (Z.to_nat (top p))) as Hlen.
  { unfold abs_stack. rewrite length_reverse, length_take. unfold MAX_DEPTH in *; lia. }
  destruct (Z.leb_spec MAX_DEPTH (top p + 1)).
  - eexists _, false; split_and!; try done.
    symmetry; apply bool_decide_eq_false; lia.
  - destruct (Z.ltb_spec (top p + 1) 0); [lia|]. simpl.
    destruct (Z.leb_spec (Z.of_nat (length (stack p))) (top p + 1)); [lia|]. simpl.
    eexists _, true; split_and!; [done|..]; simpl; try done.
    + by rewrite length_insert.
    + symmetry; apply bool_decide_eq_true; lia.
    + intros _; split.
      * constructor; simpl; [done|by rewrite length_insert|lia|].
        rewrite list_lookup_insert_ne by lia. done.
      * unfold abs_stack; simpl.
        replace (Z.to_nat (top p + 1)) with (S (Z.to_nat (top p))) by lia.
        rewrite take_S_insert by lia. by rewrite reverse_snoc.
Qed.

Lemma abs_stack_cons p :
  wf p → ∃ m k, abs_stack p = m :: k ∧ stack_top p = Some m ∧
    (top p = 0 → m = MODE_DONE) ∧
    (0 < top p → abs_stack (set_stack (top p - 1) (stack p) p) = k).
Proof.
  intros [_ Hl Ht Hb]. unfold stack_top, abs_stack.
  destruct (Z.ltb_spec (top p) 0); [lia|].
  destruct (lookup_lt_is_Some_2 (stack p) (Z.to_nat (top p))) as [m Hm];
    [unfold MAX_DEPTH in *; lia|].
  erewrite take_S_r by done. rewrite reverse_snoc.
  eexists m, _; split_and!; [done|done|..]; simpl.
  - intros E. rewrite E in Hm. change (Z.to_nat 0) with 0%nat in Hm. congruence.
  - intros ?. by replace (S (Z.to_nat (top p - 1))) with (Z.to_nat (top p)) by lia.
Qed.

Lemma pop_abs p m :
  wf p → m ≠ MODE_DONE →
  ∃ p' b, evd_json_filter_pop p m = Some (p', b) ∧
    length (stack p') = Z.to_nat MAX_DEPTH ∧ content_start p' = content_start p ∧
    same_io p p' ∧
    match abs_stack p with
    | m' :: k => b = bool_decide (m' = m) ∧ (b = true → wf p' ∧ abs_stack p' = k)
    | [] => False
    end.
Proof.
  intros Hwf Hm. destruct (abs_stack_cons p Hwf) as (m' & k & -> & Htop & H0 & Hk).
  destruct Hwf as [Hd Hl Ht Hb].
  unfold evd_json_filter_pop. destruct (Z.ltb_spec (top p) 0); [lia|].
  rewrite Htop; simpl. destruct (decide (m' = m)) as [->|Hne].
  - assert (0 < top p) by (destruct (decide (top p = 0)); [by rewrite H0 in Hm|lia]).
    eexists _, true; split_and!; try done.
    + symmetry; by apply bool_decide_eq_true.
    + intros _; split; [|by apply Hk]. constructor; simpl; done || lia.
  - eexists _, false; split_and!; try done. symmetry; by apply bool_decide_eq_false.
Qed.

(** What a call on [p] must produce when the automaton moves to [o]: the new configuration, or a
    reset filter after a malformed character.  The cache and the handler are never touched. *)
Definition simulates (p : EvdJsonFilterPrivate) (o : option core)
    (r : option (EvdJsonFilterPrivate * bool)) : Prop :=
  ∃ p' b, r = Some (p', b) ∧ wf p' ∧ same_io p p' ∧
    match o with
    | Some (s, k) =>
        b = true ∧ state p' = s ∧ abs_stack p' = k ∧ content_start p' = content_start p
    | None => b = false ∧ state p' = GO ∧ abs_stack p' = [MODE_DONE] ∧ content_start p' = -1
    end.

Lemma error_sim p p' :
  length (stack p') = Z.to_nat MAX_DEPTH → same_io p p' →
  simulates p None (evd_json_filter_error p').
Proof.
  intros Hl Hs. destruct (reset_abs p' Hl) as (p'' & Hr & ? & ? & ? & ? & Hs').
  unfold evd_json_filter_error. rewrite Hr; simpl.
  exists p'', false; split_and!; try done. unfold same_io in *; intuition congruence.
Qed.

Lemma set_state_sim p p' s k :
  wf p' → same_io p p' → abs_stack p' = k → content_start p' = content_start p →
  simulates p (Some (s, k)) (Some (set_state s p', true)).
Proof.
  intros [] ? <- ?. eexists _, true; split_and!; [done|..]; try done.
Qed.

Lemma push_sim p m s :
  wf p → simulates p (abs_push m s (abs_stack p)) (then_state (evd_json_filter_push p m) s).
Proof.
  intros Hwf. destruct (push_abs p m Hwf) as (p' & b & Hp & Hl & Hc & Hio & Hb & Hok).
  unfold then_state, abs_push. rewrite Hp; simpl. destruct b.
  - symmetry in Hb; apply bool_decide_eq_true in Hb. rewrite decide_True by done.
    destruct Hok; [done|]. by apply set_state_sim.
  - symmetry in Hb; apply bool_decide_eq_false in Hb. rewrite decide_False by done.
    by apply error_sim.
Qed.

Lemma pop_sim p m s :
  wf p → m ≠ MODE_DONE →
  simulates p (abs_pop m s (abs_stack p)) (then_state (evd_json_filter_pop p m) s).
Proof.
  intros Hwf Hm. destruct (pop_abs p m Hwf Hm) as (p' & b & Hp & Hl & Hc & Hio & Hb).
  unfold then_state, abs_pop. rewrite Hp; simpl. destruct (abs_stack p) as [|m' k]; [done|].
  destruct Hb as [-> Hok]. case_bool_decide.
  - rewrite decide_True by done. destruct Hok; [done|]. by apply set_state_sim.
  - rewrite decide_False by done. by apply error_sim.
Qed.

Lemma length_abs_stack p : wf p → length (abs_stack p) = S (Z.to_nat (top p)).
Proof.
  intros [_ Hl Ht _]. unfold abs_stack. rewrite length_reverse, length_take.
  unfold MAX_DEPTH in *; lia.
Qed.

(** Replacing the top of the stack never overflows. *)
Lemma flip_sim p a b s :
  wf p → a ≠ MODE_DONE →
  simulates p
    (match abs_stack p with
     | m :: k => if decide (m = a) then Some (s, b :: k) else None
     | [] => None
     end)
    (then_state (flip_mode p a b) s).
Proof.
  intros Hwf Ha. destruct (pop_abs p a Hwf Ha) as (p' & r & Hp & Hl & Hc & Hio & Hb).
  pose proof (length_abs_stack p Hwf) as Hlen.
  unfold flip_mode. rewrite Hp; simpl. destruct (abs_stack p) as [|m k]; [done|].
  destruct Hb as [-> Hok]. case_bool_decide.
  - rewrite decide_True by done. destruct Hok as [Hwf' Hk]; [done|].
    destruct (push_abs p' b Hwf') as (p'' & r & Hp' & Hl' & Hc' & Hio' & Hr & Hok').
    destruct Hwf as [_ _ Ht _]. simpl in Hlen.
    rewrite bool_decide_true in Hr by (rewrite Hk; lia). subst r.
    rewrite Hp'; simpl. destruct Hok'; [done|].
    apply set_state_sim; unfold same_io in *; intuition congruence.
  - rewrite decide_False by done. by apply error_sim.
Qed.

Lemma action_sim a p : wf p → simulates p (abs_action a (abs_stack p)) (perform_action a p).
Proof.
  intros Hwf.
  assert (simulates p None (evd_json_filter_error p)) by (apply error_sim; [apply Hwf|done]).
  destruct (abs_stack_cons p Hwf) as (m & k & Hk & Htop & _ & _).
  pose proof (flip_sim p MODE_OBJECT MODE_KEY KE Hwf ltac:(done)) as F1.
  pose proof (flip_sim p MODE_KEY MODE_OBJECT VA Hwf ltac:(done)) as F2.
  pose proof (λ m s, push_sim p m s Hwf) as Hpush.
  pose proof (λ m s, pop_sim p m s Hwf) as Hpop.
  assert (∀ s, simulates p (Some (s, abs_stack p)) (Some (set_state s p, true)))
    by (intros; by apply set_state_sim).
  rewrite Hk in *. unfold perform_action, abs_action. rewrite Htop. run_bind.
  destruct m; repeat (case_match; try done); auto.
Qed.

Lemma process_sim p c i :
  wf p →
  ∃ p' b, evd_json_filter_process p (s8 c) i = Some (p', b) ∧ wf p' ∧ same_io p p' ∧
    match core_step (state p, abs_stack p) c with
    | Some (q, started) =>
        b = true ∧ (state p', abs_stack p') = q ∧
        content_start p' = (if started && (content_start p =? -1) then i else content_start p)
    | None => b = false ∧ (state p', abs_stack p') = (GO, [MODE_DONE]) ∧ content_start p' = -1
    end.
Proof.
  intros Hwf. unfold evd_json_filter_process, core_step.
  destruct (char_class (s8 c)) as [cl|]; simpl.
  2:{ destruct (error_sim p p) as (p' & b & ? & ? & ? & -> & <- & <- & ?); [apply Hwf|done|].
      eauto 10. }
  destruct (table (state p) cl) as [s|a]; simpl.
  { eexists _, true; split_and!; [done|..]; try done. by destruct Hwf. }
  set (q := if content_start p =? -1 then set_content_start i p else p).
  assert (wf q ∧ same_io p q ∧ abs_stack q = abs_stack p ∧
          content_start q = if content_start p =? -1 then i else content_start p)
    as (Hwfq & Hio & Hk & Hcs).
  { subst q. destruct (_ =? _); split_and!; try done. by destruct Hwf. }
  destruct (action_sim a q Hwfq) as (p' & b & Hr & Hwf' & Hio' & Ho). rewrite Hk in Ho.
  exists p', b; split_and!; [done|done|unfold same_io in *; intuition congruence|].
  destruct (abs_action a (abs_stack p)) as [[s k]|]; simpl.
  - destruct Ho as (-> & <- & <- & ->). by rewrite Hcs.
  - destruct Ho as (-> & <- & <- & ->). done.
Qed.

(** ** The buffering around the automaton *)

(** The text accumulated when the loop is about to look at offset [i]: what earlier buffers left
    in the cache, then the part of this buffer that belongs to the text. *)
Definition acc_of (p : EvdJsonFilterPrivate) (buffer : list Z) (i : Z) : option (list Z) :=
  if content_start p <? 0 then None
  else Some (cache p ++ slice (content_start p) (i - content_start p) buffer).

Record rel (p : EvdJsonFilterPrivate) (buffer : list Z) (i : Z) (s : spec) : Prop := mkRel {
  rel_wf : wf p;
  rel_core : sp_core s = (state p, abs_stack p);
  rel_acc : sp_acc s = acc_of p buffer i;
  rel_start : content_start p = -1 ∧ cache p = [] ∨
              content_start p = 0 ∧ cache p ≠ [] ∨
              0 <= content_start p < i ∧ cache p = []
}.

Lemma slice_snoc o i c buffer :
  0 <= o <= i → buffer !! Z.to_nat i = Some c →
  slice o (i + 1 - o) buffer = slice o (i - o) buffer ++ [c].
Proof.
  intros Ho Hc. unfold slice. replace (Z.to_nat (i + 1 - o)) with (S (Z.to_nat (i - o))) by lia.
  apply take_S_r. rewrite lookup_drop. by replace (_ + _)%nat with (Z.to_nat i) by lia.
Qed.

Definition same_handler (p p' : EvdJsonFilterPrivate) : Prop :=
  packet_cb p' = packet_cb p ∧ user_data p' = user_data p ∧
  user_data_free_func p' = user_data_free_func p.

(** Between packets the filter is idle: nothing read, nothing cached. *)
Lemma rel_reset p buffer i :
  wf p → state p = GO → abs_stack p = [MODE_DONE] → content_start p = -1 → cache p = [] →
  rel p buffer i spec_init.
Proof.
  intros. constructor; [done|simpl; congruence| |by left].
  unfold acc_of. replace (content_start p) with (-1) by done. done.
Qed.

Lemma deliver_sim p buffer i s text k :
  rel p buffer (i + 1) s → 0 <= i → sp_acc s = Some text → abs_stack p = MODE_DONE :: k →
  ∃ p', deliver_if_done p buffer i = Some (p', evd_json_filter_notify_packet p text) ∧
    rel p' buffer (i + 1) spec_init ∧ same_handler p p'.
Proof.
  intros [Hwf _ Hacc Hst] Hi Htext Hk. unfold deliver_if_done. rewrite Hacc in Htext.
  unfold acc_of in Htext. destruct (Z.ltb_spec (content_start p) 0); [done|].
  injection Htext as <-. destruct (stack_top_abs p Hwf) as [-> _]. rewrite Hk; simpl.
  rewrite ?decide_True by done. pose proof (wf_len p Hwf) as Hl.
  destruct Hst as [[??]|[[Hc Hne]|[Hc He]]]; [lia|..].
  - destruct (Z.ltb_spec 0 (Z.of_nat (length (cache p)))).
    2:{ destruct (cache p); simpl in *; [done|lia]. }
    edestruct reset_abs as (p' & -> & ? & ? & ? & ? & ? & ? & ? & ?); [exact Hl|].
    rewrite Hc. replace (i + 1 - 0) with (i + 1) by lia. cbn.
    exists p'; split_and!; [done|by apply rel_reset|by split_and!].
  - rewrite He; simpl.
    edestruct reset_abs as (p' & -> & ? & ? & ? & ? & ? & ? & ? & ?); [exact Hl|].
    replace (i - content_start p + 1) with (i + 1 - content_start p) by lia. simpl.
    exists p'; split_and!; [done| |by split_and!]. apply rel_reset; congruence.
Qed.

Lemma process_rel p buffer i s c :
  rel p buffer i s → 0 <= i → buffer !! Z.to_nat i = Some c →
  match core_step (sp_core s) c with
  | Some (q, started) =>
      ∃ p', evd_json_filter_process p (s8 c) i = Some (p', true) ∧ same_handler p p' ∧
        rel p' buffer (i + 1) (mkSpec q (next_acc (sp_acc s) c started))
  | None => ∃ p', evd_json_filter_process p (s8 c) i = Some (p', false) ∧ wf p' ∧
      same_handler p p'
  end.
Proof.
  intros [Hwf Hcore Hacc Hst] Hi Hc. rewrite Hcore, Hacc.
  destruct (process_sim p c i Hwf) as (p' & b & Hp & Hwf' & (Hca & Hh) & H).
  rewrite Hp. destruct (core_step _ c) as [[q started]|].
  2:{ destruct H as (-> & _). by exists p'. }
  destruct H as (-> & <- & Hcs). exists p'; split_and!; [done|done|].
  constructor; [done|done| |]; simpl.
  - unfold acc_of. rewrite Hca, Hcs.
    destruct Hst as [[-> ->]|[[-> Hne]|[Hlt ->]]].
    + destruct started; simpl; [|done]. destruct (Z.ltb_spec i 0); [lia|].
      rewrite slice_snoc with (c := c) by (done || lia).
      by replace (i - i) with 0 by lia.
    + destruct started; simpl; by rewrite slice_snoc with (c := c), app_assoc by (done || lia).
    + replace (content_start p =? -1) with false by (symmetry; apply Z.eqb_neq; lia).
      rewrite andb_false_r. destruct (Z.ltb_spec (content_start p) 0); [lia|].
      simpl. by rewrite slice_snoc with (c := c) by (done || lia).
  - rewrite Hca, Hcs. destruct Hst as [[-> ->]|[[-> Hne]|[Hlt ->]]].
    + destruct started; simpl; [right; right; split; [lia|done]|by left].
    + rewrite andb_false_r. by right; left.
    + replace (content_start p =? -1) with false by (symmetry; apply Z.eqb_neq; lia).
      rewrite andb_false_r. right; right; split; [lia|done].
Qed.

(** The events of delivering a list of packets with the handler of [p]. *)
Definition deliveries (p : EvdJsonFilterPrivate) (outs : list (list Z)) : list event :=
  outs ≫= evd_json_filter_notify_packet p.

Lemma notify_same_handler p p' :
  same_handler p p' → evd_json_filter_notify_packet p' = evd_json_filter_notify_packet p.
Proof. unfold evd_json_filter_notify_packet. by intros (-> & -> & _). Qed.

Lemma deliveries_same_handler p p' outs :
  same_handler p p' → deliveries p' outs = deliveries p outs.
Proof. intros H. unfold deliveries. by rewrite (notify_same_handler p p' H). Qed.

Lemma deliveries_app p o1 o2 : deliveries p (o1 ++ o2) = deliveries p o1 ++ deliveries p o2.
Proof. apply bind_app. Qed.

Lemma same_handler_trans p1 p2 p3 :
  same_handler p1 p2 → same_handler p2 p3 → same_handler p1 p3.
Proof. unfold same_handler; intuition congruence. Qed.

(** One turn of the loop, when the character is accepted. *)
Lemma turn_sim p buffer i s c s' out :
  rel p buffer i s → 0 <= i → buffer !! Z.to_nat i = Some c →
  spec_step s c = Some (s', out) →
  ∃ p1 p2, evd_json_filter_process p (s8 c) i = Some (p1, true) ∧
    deliver_if_done p1 buffer i = Some (p2, deliveries p (option_list out)) ∧
    rel p2 buffer (i + 1) s' ∧ same_handler p p2.
Proof.
  intros Hrel Hi Hc. unfold spec_step. pose proof (process_rel p buffer i s c Hrel Hi Hc) as Hp.
  destruct (core_step (sp_core s) c) as [[q started]|]; [simpl|done].
  destruct Hp as (p1 & -> & Hh & Hrel1). intros Hs. exists p1.
  pose proof Hrel1 as [Hwf Hq Hacc _]. simpl in Hq, Hacc.
  destruct (next_acc (sp_acc s) c started) as [text|] eqn:Hn.
  - destruct (abs_stack_cons p1 Hwf) as (m & k & Hk & Htop & _).
    assert (q.2 = m :: k) as Hq2 by (by rewrite Hq).
    rewrite Hq2 in Hs. destruct (decide (m = MODE_DONE)) as [->|Hm].
    + injection Hs as <- <-. destruct (deliver_sim p1 buffer i _ text k Hrel1 Hi eq_refl Hk)
        as (p2 & -> & ? & Hh2).
      exists p2; split_and!; [done| |done|by eapply same_handler_trans].
      rewrite (notify_same_handler p p1 Hh). unfold deliveries; simpl. by rewrite app_nil_r.
    + assert (Some (mkSpec q (Some text), None) = Some (s', out)) as [= <- <-] by by destruct m.
      exists p1; split_and!; [done| |done|done].
      unfold deliver_if_done. rewrite Htop; simpl. rewrite decide_False by done.
      by destruct (_ <? _).
  - injection Hs as <- <-. exists p1; split_and!; [done| |done|done].
    unfold deliver_if_done. unfold acc_of in Hacc. by destruct (_ <? _).
Qed.

Lemma feed_loop_sim rest pre p s :
  rel p (pre ++ rest) (Z.of_nat (length pre)) s →
  ∃ p' err,
    feed_loop p (pre ++ rest) rest (Z.of_nat (length pre)) =
      Some (p', deliveries p (spec_run s rest).2, err) ∧
    wf p' ∧ same_handler p p' ∧
    match (spec_run s rest).1 with
    | Some s' => err = None ∧ rel p' (pre ++ rest) (Z.of_nat (length (pre ++ rest))) s'
    | None => is_Some err
    end.
Proof.
  revert pre p s. induction rest as [|c rest IH]; intros pre p s Hrel.
  { rewrite app_nil_r in *. exists p, None; split_and!; try done. apply Hrel. }
  assert ((pre ++ c :: rest) !! Z.to_nat (Z.of_nat (length pre)) = Some c) as Hc.
  { rewrite Nat2Z.id. apply list_lookup_middle; done. }
  cbn [feed_loop spec_run]. destruct (spec_step s c) as [[s1 out]|] eqn:Hs.
  - destruct (turn_sim _ _ _ _ _ _ _ Hrel ltac:(lia) Hc Hs) as (p1 & p2 & Hp1 & Hp2 & Hrel2 & Hh).
    rewrite Hp1; run_bind. rewrite Hp2; run_bind.
    specialize (IH (pre ++ [c]) p2 s1).
    rewrite <-app_assoc, length_app, Nat2Z.inj_add in IH. simpl in IH.
    change (Z.of_nat 1) with 1 in IH.
    destruct (IH Hrel2) as (p' & err & Hf & Hwf & Hh' & Hend).
    rewrite Hf; run_bind. destruct (spec_run s1 rest) as [r outs]; simpl in *.
    exists p', err; split_and!; try done; [|by eapply same_handler_trans].
    by rewrite (deliveries_same_handler p p2), <-deliveries_app.
  - unfold spec_step in Hs.
    pose proof (process_rel p _ _ s c Hrel ltac:(lia) Hc) as Hp.
    destruct (core_step (sp_core s) c) as [[q started]|]; [simpl in Hs; by repeat case_match|].
    destruct Hp as (p' & -> & Hwf & Hh). simpl. exists p'; eauto 10.
Qed.

Lemma feed_len_sim p s buffer :
  rel p [] 0 s →
  ∃ p' err,
    evd_json_filter_feed_len p buffer =
      Some (p', deliveries p (spec_run s buffer).2, err) ∧
    wf p' ∧ same_handler p p' ∧
    match (spec_run s buffer).1 with
    | Some s' => err = None ∧ rel p' [] 0 s'
    | None => is_Some err
    end.
Proof.
  intros [Hwf Hcore Hacc Hst].
  destruct (feed_loop_sim buffer [] p s) as (p' & err & Hf & Hwf' & Hh & Hend).
  { constructor; try done. rewrite Hacc. unfold acc_of.
    destruct Hst as [[-> ->]|[[-> ?]|?]]; [done| |lia]. done. }
  simpl in Hf, Hend. change (Z.of_nat 0) with 0 in Hf.
  unfold evd_json_filter_feed_len. rewrite Hf; run_bind.
  destruct (spec_run s buffer) as [[s'|] outs]; simpl in *.
  2:{ destruct Hend as [i ->]. exists p', (Some i). by split_and!. }
  destruct Hend as [-> [_ Hcore' Hacc' Hst']]. unfold acc_of in Hacc'.
  destruct (Z.leb_spec 0 (content_start p')).
  - destruct (Z.ltb_spec (content_start p') 0); [lia|].
    eexists _, None; split_and!; [done|by destruct Hwf'|done|done|].
    constructor; simpl; [by destruct Hwf'|done| |].
    + rewrite Hacc'. unfold acc_of; simpl. by rewrite app_nil_r.
    + right; left; split; [done|]. destruct Hst' as [[??]|[[-> ?]|[? ->]]]; [lia|..].
      * by destruct (cache p').
      * unfold slice. intros Hnil%(f_equal length). simpl in Hnil.
        rewrite length_take, length_drop in Hnil. lia.
  - destruct (Z.ltb_spec (content_start p') 0); [|lia].
    exists p', None; split_and!; try done. destruct Hst' as [[??]|[?|?]]; [|lia..].
    constructor; [done|done| |by left]. rewrite Hacc'. unfold acc_of.
    by destruct (Z.ltb_spec (content_start p') 0); [|lia].
Qed.

Lemma spec_run_app s b1 b2 :
  spec_run s (b1 ++ b2) =
    match spec_run s b1 with
    | (Some s', o1) => let '(r, o2) := spec_run s' b2 in (r, o1 ++ o2)
    | (None, o1) => (None, o1)
    end.
Proof.
  revert s. induction b1 as [|c b1 IH]; intros s; simpl.
  { by destruct (spec_run s b2). }
  destruct (spec_step s c) as [[s1 out]|]; [|done]. rewrite IH.
  destruct (spec_run s1 b1) as [[s2|] o1]; [|done].
  destruct (spec_run s2 b2). by rewrite app_assoc.
Qed.

Lemma feed_all_sim chunks p s :
  rel p [] 0 s →
  ∃ p', feed_all p chunks =
      Some (p', deliveries p (spec_run s (concat chunks)).2,
            bool_decide (is_Some (spec_run s (concat chunks)).1)) ∧
    wf p' ∧ same_handler p p' ∧
    (∀ s', (spec_run s (concat chunks)).1 = Some s' → rel p' [] 0 s').
Proof.
  revert p s. induction chunks as [|b chunks IH]; intros p s Hrel.
  { exists p; split_and!; try done; [apply Hrel|]. by intros s' [= <-]. }
  cbn [feed_all concat]. rewrite spec_run_app.
  destruct (feed_len_sim p s b Hrel) as (p1 & err & -> & Hwf & Hh & Hend).
  run_bind.
  destruct (spec_run s b) as [[s1|] o1]; simpl in Hend |- *.
  - destruct Hend as [-> Hrel1]. destruct (IH p1 s1 Hrel1) as (p2 & -> & Hwf2 & Hh2 & Hfin).
    simpl. destruct (spec_run s1 (concat chunks)) as [r o2]; simpl in *.
    exists p2; split_and!; [|done|by eapply same_handler_trans|done].
    by rewrite (deliveries_same_handler p p1), <-deliveries_app by done.
  - destruct Hend as [i ->]. by exists p1.
Qed.

(** A filter fresh from [evd_json_filter_new], with a packet handler installed. *)
Definition fresh (p : EvdJsonFilterPrivate) : Prop :=
  wf p ∧ state p = GO ∧ abs_stack p = [MODE_DONE] ∧ content_start p = -1 ∧ cache p = [].

Lemma fresh_rel p : fresh p → rel p [] 0 spec_init.
Proof. intros (? & ? & ? & ? & ?). by apply rel_reset. Qed.

Lemma init_fresh : ∃ p, evd_json_filter_init = Some p ∧ fresh p.
Proof.
  destruct (reset_abs (mkFilter GO 0 0 (replicate (Z.to_nat MAX_DEPTH) MODE_ARRAY) 0 []
    None None None)) as (p & ? & ? & ? & ? & ? & ? & ?); [done|]. by exists p.
Qed.

Lemma set_packet_handler_fresh p cb d f :
  fresh p → fresh (evd_json_filter_set_packet_handler p cb d f).1.
Proof. intros ([] & ? & ? & ? & ?). by split_and!. Qed.

(** Well-formedness alone is enough for memory safety, also after errors. *)
Lemma deliver_wf p buffer i :
  wf p → ∃ p' evs, deliver_if_done p buffer i = Some (p', evs) ∧ wf p'.
Proof.
  intros Hwf. unfold deliver_if_done. destruct (_ <? _); [eauto|].
  destruct (stack_top_abs p Hwf) as [_ [m ->]]; simpl. pose proof (wf_len p Hwf) as Hl.
  destruct (decide _); [|eauto]. destruct (_ <? _).
  - edestruct reset_abs as (p' & -> & ? & _); [exact Hl|]. simpl. eauto.
  - edestruct reset_abs as (p' & -> & ? & _); [exact Hl|]. simpl. eauto.
Qed.

Lemma feed_loop_wf rest p buffer i :
  wf p → ∃ p' evs err, feed_loop p buffer rest i = Some (p', evs, err) ∧ wf p'.
Proof.
  revert p i. induction rest as [|c rest IH]; intros p i Hwf; cbn [feed_loop]; [eauto|].
  destruct (process_sim p c i Hwf) as (p1 & b & -> & Hwf1 & _); run_bind.
  destruct b; [|eauto].
  destruct (deliver_wf p1 buffer i Hwf1) as (p2 & evs & -> & Hwf2); run_bind.
  destruct (IH p2 (i + 1) Hwf2) as (p3 & evs' & err & -> & ?); simpl. eauto.
Qed.

(** ** Properties *)

(** C1. Functional correctness of the packet splitter, for every way the transport may cut the
    stream into buffers: starting from a fresh filter, feeding the buffers one after the other
    never leaves the mode stack's bounds, delivers to the packet handler exactly the packets
    that the byte-at-a-time specification cuts out of the concatenated bytes, in order, and
    reports an error exactly when the specification meets a malformed character. *)
Theorem feed_all_refines_spec (p : EvdJsonFilterPrivate) (chunks : list (list Z)) :
  fresh p →
  ∃ p', feed_all p chunks =
    Some (p', deliveries p (spec_run spec_init (concat chunks)).2,
          bool_decide (is_Some (spec_run spec_init (concat chunks)).1)) ∧ wf p'.
Proof.
  intros Hf. destruct (feed_all_sim chunks p spec_init (fresh_rel p Hf)) as (p' & ? & ? & _).
  by exists p'.
Qed.

(** The texts used as examples: [[1]{}] cut at an awkward place, and fragments. *)
Definition example_chunks : list (list Z) := [[32; 91]; [49]; [93; 123; 125]].

Definition fresh_example : EvdJsonFilterPrivate :=
  default (mkFilter GO 0 0 [] 0 [] None None None)
    ((λ p, (evd_json_filter_set_packet_handler p (Some 7%nat) None None).1)
       <$> evd_json_filter_init).

Lemma fresh_example_fresh : fresh fresh_example.
Proof.
  unfold fresh_example. destruct init_fresh as (p & -> & Hf).
  by apply set_packet_handler_fresh.
Qed.

Lemma feed_all_refines_spec_witness :
  fresh fresh_example ∧
  (∃ p', feed_all fresh_example example_chunks =
     Some (p', [PacketCb 7 [91; 49; 93] None; PacketCb 7 [123; 125] None], true) ∧ wf p').
Proof.
  split; [exact fresh_example_fresh|].
  exact (feed_all_refines_spec fresh_example example_chunks fresh_example_fresh).
Defined.

(** The delivered packets and the verdict depend only on the bytes, not on how they were cut
    into buffers. *)
Example feed_chunking_irrelevant (p : EvdJsonFilterPrivate) (c1 c2 : list (list Z)) :
  fresh p → concat c1 = concat c2 →
  ∃ p1 p2 evs ok, feed_all p c1 = Some (p1, evs, ok) ∧ feed_all p c2 = Some (p2, evs, ok).
Proof.
  intros Hf Hc. destruct (feed_all_sim c1 p spec_init (fresh_rel p Hf)) as (p1 & H1 & _).
  destruct (feed_all_sim c2 p spec_init (fresh_rel p Hf)) as (p2 & H2 & _).
  rewrite Hc in H1. eauto 10.
Qed.

Lemma feed_chunking_irrelevant_witness :
  ∃ p1 p2 evs ok, feed_all fresh_example example_chunks = Some (p1, evs, ok) ∧
    feed_all fresh_example [concat example_chunks] = Some (p2, evs, ok).
Proof.
  exact (feed_chunking_irrelevant fresh_example example_chunks [concat example_chunks]
           fresh_example_fresh eq_refl).
Defined.

(** Memory safety as an invariant: from every well-formed state (the initial one, and any
    state left by earlier feeds, malformed input and resets included) a feed of any buffer stays
    inside the mode stack and leaves a well-formed state. *)
Example feed_len_safe (p : EvdJsonFilterPrivate) (buffer : list Z) :
  wf p → ∃ p' evs err, evd_json_filter_feed_len p buffer = Some (p', evs, err) ∧ wf p'.
Proof.
  intros Hwf. destruct (feed_loop_wf buffer p buffer 0 Hwf) as (p1 & evs & err & Hf & Hwf1).
  unfold evd_json_filter_feed_len. rewrite Hf; simpl. destruct err; [eauto|].
  destruct (_ <=? _); [|eauto]. eexists _, evs, None; split; [done|]. by destruct Hwf1.
Qed.

Lemma feed_len_safe_witness :
  ∃ p' evs err,
    evd_json_filter_feed_len fresh_example (replicate 200 91) = Some (p', evs, err) ∧ wf p'.
Proof. exact (feed_len_safe fresh_example _ (proj1 fresh_example_fresh)). Defined.

(** The sign of [gchar] makes every byte above 127 malformed, in every state of the filter:
    no text with a non-ASCII character is accepted, although the class table and the comments
    map such characters to [C_ETC]. *)
Example process_rejects_non_ascii (p : EvdJsonFilterPrivate) (b i : Z) :
  wf p → 128 <= b < 256 →
  ∃ p', evd_json_filter_process p (s8 b) i = Some (p', false) ∧ state p' = GO.
Proof.
  intros Hwf Hb. assert (s8 b = b - 256) as Hs.
  { unfold s8. rewrite <-(Z.mod_add _ (-1)) by lia. rewrite Z.mod_small; lia. }
  unfold evd_json_filter_process, char_class.
  destruct (Z.ltb_spec (s8 b) 0); [|lia].
  destruct (error_sim p p) as (p' & r & -> & _ & _ & -> & ? & _); [apply Hwf|done|]. eauto.
Qed.

Lemma process_rejects_non_ascii_witness :
  ∃ p', evd_json_filter_process fresh_example (s8 195) 0 = Some (p', false) ∧ state p' = GO.
Proof.
  apply (process_rejects_non_ascii fresh_example 195 0 (proj1 fresh_example_fresh)). lia.
Defined.

(** A malformed character does not clear the cache: after the buffers ["[1"] and ["}"], whose
    second one is rejected, the complete text ["[2]"] is delivered glued to the stale ["[1"]. *)
Example error_keeps_stale_cache :
  ∃ p1 p2 p3,
    evd_json_filter_feed_len fresh_example [91; 49] = Some (p1, [], None) ∧
    evd_json_filter_feed_len p1 [125] = Some (p2, [], Some 0) ∧
    evd_json_filter_feed_len p2 [91; 50; 93] =
      Some (p3, [PacketCb 7 [91; 49; 91; 50; 93] None], None).
Proof. eexists _, _, _; split_and!; vm_compute; reflexivity. Qed.

End JsonFilterSpec.
