(* ===== verification/JsonGrammar.v ===== *)
(** * EvdJsonFilter: the language of the automaton

    A grammar of the JSON texts that the automaton takes (whitespace, strings of ASCII characters and
    escapes, numbers, literals, nested arrays and objects, with a nesting bound) and the proof that the filter delivers every text of the
    grammar as exactly one packet. *)
From S2P Require Import Prelude JsonFilter JsonFilterSpec.
Import JsonFilter JsonFilterSpec.

Module JsonGrammar.

(** ** Grammar *)

Definition is_ws (c : Z) : Prop := c = 32 ∨ c = 9 ∨ c = 10 ∨ c = 13.
Abbreviation ws := (Forall is_ws).
Definition digit19 (c : Z) : Prop := 49 <= c <= 57.
Definition digit (c : Z) : Prop := 48 <= c <= 57.
Definition hex (c : Z) : Prop := digit c ∨ 65 <= c <= 70 ∨ 97 <= c <= 102.

(** Characters that stand for themselves in a string: ASCII, not a control character, not a
    quote, not a backslash. *)
Definition plain (c : Z) : Prop := 32 <= c < 128 ∧ c ≠ 34 ∧ c ≠ 92.

(** The characters after a backslash, except [u]. *)
Definition simple_escape (c : Z) : Prop := c ∈ [34; 92; 47; 98; 102; 110; 114; 116].

Inductive chars : list Z → Prop :=
  | chars_nil : chars []
  | chars_plain c w : plain c → chars w → chars (c :: w)
  | chars_escape c w : simple_escape c → chars w → chars (92 :: c :: w)
  | chars_unicode a b c d w :
      hex a → hex b → hex c → hex d → chars w → chars (92 :: 117 :: a :: b :: c :: d :: w).

Inductive str : list Z → Prop :=
  | str_quoted w : chars w → str (34 :: w ++ [34]).

Inductive exponent : list Z → Prop :=
  | exp_none : exponent []
  | exp_plain e d w : e = 101 ∨ e = 69 → digit d → Forall digit w → exponent (e :: d :: w)
  | exp_signed e s d w :
      e = 101 ∨ e = 69 → s = 43 ∨ s = 45 → digit d → Forall digit w →
      exponent (e :: s :: d :: w).

(** Unsigned numbers; as in the automaton's table, a lone zero takes no exponent and the
    fraction may have no digits. *)
Inductive unsigned : list Z → Prop :=
  | uns_zero : unsigned [48]
  | uns_zero_frac f e : Forall digit f → exponent e → unsigned (48 :: 46 :: f ++ e)
  | uns_int d w e : digit19 d → Forall digit w → exponent e → unsigned (d :: w ++ e)
  | uns_int_frac d w f e :
      digit19 d → Forall digit w → Forall digit f → exponent e →
      unsigned (d :: w ++ 46 :: f ++ e).

Inductive scalar : list Z → Prop :=
  | sc_str w : str w → scalar w
  | sc_num w : unsigned w → scalar w
  | sc_neg w : unsigned w → scalar (45 :: w)
  | sc_true : scalar [116; 114; 117; 101]
  | sc_false : scalar [102; 97; 108; 115; 101]
  | sc_null : scalar [110; 117; 108; 108].

(** [value n w]: [w] is a JSON value whose arrays and objects nest at most [n] deep. *)
Inductive value : nat → list Z → Prop :=
  | v_scalar n w : scalar w → value n w
  | v_array n w : array_inner n w → value (S n) (91 :: w ++ [93])
  | v_object n w : object_inner n w → value (S n) (123 :: w ++ [125])
with array_inner : nat → list Z → Prop :=
  | ai_empty n w : ws w → array_inner n w
  | ai_elements n w : elements n w → array_inner n w
with elements : nat → list Z → Prop :=
  | el_one n w1 v w2 : ws w1 → value n v → ws w2 → elements n (w1 ++ v ++ w2)
  | el_more n w1 v w2 rest :
      ws w1 → value n v → ws w2 → elements n rest → elements n ((w1 ++ v ++ w2) ++ 44 :: rest)
with object_inner : nat → list Z → Prop :=
  | oi_empty n w : ws w → object_inner n w
  | oi_members n w : members n w → object_inner n w
with members : nat → list Z → Prop :=
  | me_one n m : member n m → members n m
  | me_more n m rest : member n m → members n rest → members n (m ++ 44 :: rest)
with member : nat → list Z → Prop :=
  | me_pair n w1 key w2 w3 v w4 :
      ws w1 → str key → ws w2 → ws w3 → value n v → ws w4 →
      member n (w1 ++ key ++ w2 ++ 58 :: w3 ++ v ++ w4).

(** A JSON text, as the filter understands it: an array or an object. *)
Inductive json_text : nat → list Z → Prop :=
  | text_array n w : array_inner n w → json_text (S n) (91 :: w ++ [93])
  | text_object n w : object_inner n w → json_text (S n) (123 :: w ++ [125]).

Scheme value_mut := Minimality for value Sort Prop
  with array_inner_mut := Minimality for array_inner Sort Prop
  with elements_mut := Minimality for elements Sort Prop
  with object_inner_mut := Minimality for object_inner Sort Prop
  with members_mut := Minimality for members Sort Prop
  with member_mut := Minimality for member Sort Prop.
Combined Scheme grammar_mut from
  value_mut, array_inner_mut, elements_mut, object_inner_mut, members_mut, member_mut.

(** ** Runs of the automaton that stay inside the current text *)

Definition inside (k : list modes) : Prop := match k with MODE_DONE :: _ | [] => False | _ => True end.
#[local] Instance inside_dec k : Decision (inside k).
Proof. destruct k as [|[] ?]; simpl; apply _. Defined.

Fixpoint run (q : core) (w : list Z) : option core :=
  match w with
  | [] => Some q
  | c :: w => '(q, _) ← core_step q c; if decide (inside q.2) then run q w else None
  end.

Lemma run_app q w1 w2 : run q (w1 ++ w2) = run q w1 ≫= λ q, run q w2.
Proof.
  revert q. induction w1 as [|c w1 IH]; intros q; simpl; [done|].
  destruct (core_step q c) as [[q' b]|]; simpl; [|done]. by destruct (decide _).
Qed.

Lemma run_app_Some q w1 w2 q1 q2 :
  run q w1 = Some q1 → run q1 w2 = Some q2 → run q (w1 ++ w2) = Some q2.
Proof. intros H1 H2. rewrite run_app, H1. done. Qed.

(** A run keeps accumulating and delivers nothing. *)
Lemma run_spec q w q' a :
  run q w = Some q' → spec_run (mkSpec q (Some a)) w = (Some (mkSpec q' (Some (a ++ w))), []).
Proof.
  revert q a. induction w as [|c w IH]; intros q a; simpl.
  { intros [= <-]. by rewrite app_nil_r. }
  unfold spec_step; simpl. destruct (core_step q c) as [[q1 b]|]; simpl; [|done].
  destruct (decide _) as [Hi|]; [|done]. intros Hr.
  assert (∀ A (x y : A), match q1.2 with MODE_DONE :: _ => x | _ => y end = y) as Hm
    by (by destruct (q1.2) as [|[] ?]).
  rewrite Hm, (IH _ _ Hr). by rewrite <-app_assoc.
Qed.

(** ** Single steps, decided on the tables *)

Definition goes (s : states) (c : Z) (s' : states) : bool :=
  match char_class (s8 c) with
  | Some cl => match table s cl with St x => bool_decide (x = s') | Ac _ => false end
  | None => false
  end.

Definition acts (s : states) (c a : Z) : bool :=
  match char_class (s8 c) with
  | Some cl => match table s cl with St _ => false | Ac x => x =? a end
  | None => false
  end.

Lemma run_goes s k c s' w : goes s c s' = true → inside k → run (s, k) (c :: w) = run (s', k) w.
Proof.
  unfold goes; cbn [run]; unfold core_step. destruct (char_class (s8 c)) as [cl|]; [|done].
  simpl. destruct (table s cl); [|done]. intros ->%bool_decide_eq_true Hk.
  cbn [mbind option_bind fst snd]. by rewrite decide_True.
Qed.

Lemma core_step_acts s k c a q :
  acts s c a = true → abs_action a k = Some q → core_step (s, k) c = Some (q, true).
Proof.
  unfold acts, core_step. destruct (char_class (s8 c)) as [cl|]; [|done].
  simpl. destruct (table s cl); [done|]. intros ->%Z.eqb_eq Hq. by rewrite Hq.
Qed.

Lemma run_acts s k c a q w :
  acts s c a = true → abs_action a k = Some q → inside q.2 → run (s, k) (c :: w) = run q w.
Proof.
  intros Ha Hq Hi. cbn [run]. rewrite (core_step_acts _ _ _ _ _ Ha Hq).
  run_bind. by rewrite decide_True.
Qed.

(** Checking a boolean for every character of a range. *)
Lemma range_check (f : Z → bool) lo n :
  forallb f (seqZ lo n) = true → ∀ c, lo <= c < lo + n → f c = true.
Proof.
  rewrite forallb_forall. intros H c Hc. apply H, list_elem_of_In, elem_of_seqZ. lia.
Qed.

Ltac by_range lo n :=
  match goal with
  | |- goes ?s ?c ?s' = true =>
      apply (range_check (λ x, goes s x s') lo n); [vm_compute; reflexivity|lia]
  end.

(** Case analysis on memberships in literal lists. *)
Ltac by_mem :=
  repeat match goal with
    | H : _ ∈ _ :: _ |- _ => apply elem_of_cons in H as [H|H]; [try discriminate H|]
    | H : _ ∈ [] |- _ => by apply not_elem_of_nil in H
    | H : _ ∨ _ |- _ => destruct H
    end; subst; reflexivity.

Definition ok_like (s : states) : Prop := s ∈ [OK; ZE; IN; FR; E3].

(** Memberships in literal lists. *)
Ltac mem := unfold ok_like; repeat (apply elem_of_cons; first [left; reflexivity | right]).

Lemma goes_ws s c :
  is_ws c → s ∈ [GO; OK; OB; KE; CO; VA; AR] → goes s c s = true.
Proof. unfold is_ws. intros H Hs. by_mem. Qed.

Lemma goes_ok_like_ws s c : is_ws c → ok_like s → goes s c OK = true.
Proof. unfold is_ws, ok_like. intros H Hs. by_mem. Qed.

Lemma goes_plain c : plain c → goes ST c ST = true.
Proof.
  intros (H & Hq & Hb).
  assert (32 <= c < 34 ∨ 35 <= c < 92 ∨ 93 <= c < 128) as [?|[?|?]] by lia.
  - by_range 32 2.
  - by_range 35 57.
  - by_range 93 35.
Qed.

Lemma goes_escape c : simple_escape c → goes ES c ST = true.
Proof. unfold simple_escape. intros H. by_mem. Qed.

Lemma goes_hex c :
  hex c → goes U1 c U2 = true ∧ goes U2 c U3 = true ∧ goes U3 c U4 = true ∧ goes U4 c ST = true.
Proof.
  unfold hex, digit. intros [H|[H|H]]; split_and!;
    solve [by_range 48 10 | by_range 65 6 | by_range 97 6].
Qed.

Lemma goes_digit c :
  digit c → goes IN c IN = true ∧ goes FR c FR = true ∧ goes E1 c E3 = true ∧
    goes E2 c E3 = true ∧ goes E3 c E3 = true.
Proof. unfold digit. intros H; split_and!; by_range 48 10. Qed.

Lemma goes_digit19 c :
  digit19 c → goes VA c IN = true ∧ goes AR c IN = true ∧ goes MI c IN = true.
Proof. unfold digit19. intros H; split_and!; by_range 49 9. Qed.

(** ** Runs over the lexical parts *)

Lemma run_stay s k w (P : Z → Prop) :
  Forall P w → (∀ c, P c → goes s c s = true) → inside k → run (s, k) w = Some (s, k).
Proof.
  intros Hw Hg Hk. induction Hw as [|c w Hc Hw IH]; [done|].
  rewrite (run_goes s k c s); auto.
Qed.

Lemma run_ws s k w :
  ws w → s ∈ [GO; OK; OB; KE; CO; VA; AR] → inside k → run (s, k) w = Some (s, k).
Proof. intros. eapply run_stay; eauto using goes_ws. Qed.

Lemma run_ok_ws s k w :
  ws w → ok_like s → inside k → ∃ s', ok_like s' ∧ run (s, k) w = Some (s', k).
Proof.
  intros Hw Hs Hk. destruct Hw as [|c w Hc Hw]; [by exists s|].
  exists OK; split; [unfold ok_like; mem|].
  rewrite (run_goes s k c OK); [|by apply goes_ok_like_ws|done].
  apply run_ws; [done|mem|done].
Qed.

Lemma run_chars k w : chars w → inside k → run (ST, k) w = Some (ST, k).
Proof.
  intros Hw Hk. induction Hw as [|c w Hc Hw IH|c w Hc Hw IH|a b c d w Ha Hb Hc Hd Hw IH]; [done|..].
  - rewrite (run_goes _ _ _ ST); auto using goes_plain.
  - rewrite (run_goes _ _ _ ES), (run_goes _ _ _ ST); auto using goes_escape.
  - apply goes_hex in Ha as (? & _), Hb as (_ & ? & _), Hc as (_ & _ & ? & _), Hd as (_ & _ & _ & ?).
    rewrite (run_goes _ _ _ ES), (run_goes _ _ _ U1), (run_goes _ _ _ U2), (run_goes _ _ _ U3),
      (run_goes _ _ _ U4), (run_goes _ _ _ ST); auto.
Qed.

(** A string ends in the state its mode calls for. *)
Lemma run_str s k w q :
  str w → s ∈ [OB; KE; VA; AR] → inside k → abs_action (-4) k = Some q → inside q.2 →
  run (s, k) w = Some q.
Proof.
  intros [w' Hw] Hs Hk Hq Hi.
  rewrite (run_goes s k 34 ST); [|by_mem|done].
  rewrite run_app, (run_chars k w' Hw Hk). run_bind.
  by rewrite (run_acts ST k 34 (-4) q).
Qed.

Lemma run_exponent s k e :
  exponent e → s = IN ∨ s = FR → inside k → ∃ s', ok_like s' ∧ run (s, k) e = Some (s', k).
Proof.
  unfold ok_like. intros He Hs Hk. destruct He as [|e d w He Hd Hw|e sg d w He Hsg Hd Hw].
  - exists s; split; [destruct Hs as [->| ->]; mem|done].
  - exists E3; split; [mem|]. apply goes_digit in Hd as (_ & _ & ? & _).
    rewrite (run_goes s k e E1), (run_goes E1 k d E3);
      [eapply run_stay; [done|apply goes_digit|done]|auto..|by_mem|done].
  - exists E3; split; [mem|]. apply goes_digit in Hd as (_ & _ & _ & ? & _).
    rewrite (run_goes s k e E1), (run_goes E1 k sg E2), (run_goes E2 k d E3);
      [eapply run_stay; [done|apply goes_digit|done]|auto..|by_mem|done|by_mem|done].
Qed.

Lemma run_unsigned s k w :
  unsigned w → s ∈ [VA; AR; MI] → inside k → ∃ s', ok_like s' ∧ run (s, k) w = Some (s', k).
Proof.
  intros Hw Hs Hk.
  assert (goes s 48 ZE = true) as Hz by by_mem.
  assert (∀ d, digit19 d → goes s d IN = true) as Hd
    by (intros d (?&?&?)%goes_digit19; clear Hz;
        repeat (apply elem_of_cons in Hs as [->|Hs]; [done|]); by apply not_elem_of_nil in Hs).
  assert (∀ f e s0, Forall digit f → exponent e → s0 = IN ∨ s0 = FR →
            ∃ s', ok_like s' ∧ run (s0, k) (f ++ e) = Some (s', k)) as Htail.
  { intros f e s0 Hf He Hs0. destruct (run_exponent s0 k e He Hs0 Hk) as (s' & ? & ?).
    exists s'; split; [done|]. eapply run_app_Some; [|done].
    eapply run_stay; [done| |done]. intros c Hc%goes_digit. destruct Hs0 as [->| ->]; tauto. }
  destruct Hw as [|f e Hf He|d w e Hd19 Hw He|d w f e Hd19 Hw Hf He].
  - exists ZE; split; [mem|]. by rewrite (run_goes s k 48 ZE).
  - rewrite (run_goes s k 48 ZE), (run_goes ZE k 46 FR) by done. auto.
  - rewrite (run_goes s k d IN) by auto. auto.
  - rewrite (run_goes s k d IN) by auto. destruct (Htail f e FR) as (s' & ? & ?); auto.
    exists s'; split; [done|]. rewrite run_app.
    rewrite (run_stay IN k w digit) by (done || by intros c (?&_)%goes_digit).
    run_bind. by rewrite (run_goes IN k 46 FR).
Qed.

(** Stacks on which a value is expected. *)
Definition value_ctx (k : list modes) : Prop :=
  ∃ m k', k = m :: k' ∧ (m = MODE_ARRAY ∨ m = MODE_OBJECT).

Lemma value_ctx_inside k : value_ctx k → inside k ∧ abs_action (-4) k = Some (OK, k).
Proof. by intros (m & k' & -> & [->| ->]). Qed.

Ltac goes_through := repeat (rewrite run_goes; [|by_mem|done]); reflexivity.

Lemma run_scalar s k w :
  scalar w → s ∈ [VA; AR] → value_ctx k → ∃ s', ok_like s' ∧ run (s, k) w = Some (s', k).
Proof.
  intros Hw Hs Hk. destruct (value_ctx_inside k Hk) as [Hi Hq].
  assert (s ∈ [VA; AR; MI]) by (repeat (apply elem_of_cons in Hs as [->|Hs]; [mem|]);
    by apply not_elem_of_nil in Hs).
  destruct Hw as [w Hw|w Hw|w Hw| | |].
  - exists OK; split; [mem|]. eapply run_str; [done| |done|done|done].
    repeat (apply elem_of_cons in Hs as [->|Hs]; [mem|]). by apply not_elem_of_nil in Hs.
  - by apply run_unsigned.
  - rewrite (run_goes s k 45 MI) by (done || by_mem). apply run_unsigned; [done|mem|done].
  - exists OK; split; [mem|]. rewrite (run_goes s k _ T1) by (done || by_mem).
    rewrite (run_goes _ k _ T2), (run_goes _ k _ T3), (run_goes _ k _ OK) by done. done.
  - exists OK; split; [mem|]. rewrite (run_goes s k _ F1) by (done || by_mem).
    rewrite (run_goes _ k _ F2), (run_goes _ k _ F3), (run_goes _ k _ F4),
      (run_goes _ k _ OK) by done. done.
  - exists OK; split; [mem|]. rewrite (run_goes s k _ N1) by (done || by_mem).
    rewrite (run_goes _ k _ N2), (run_goes _ k _ N3), (run_goes _ k _ OK) by done. done.
Qed.

(** ** Runs over structured values *)

Definition room (k : list modes) (n : nat) : Prop := Z.of_nat (length k + n) <= MAX_DEPTH.

Definition runs_value (n : nat) (w : list Z) : Prop := ∀ s k,
  s ∈ [VA; AR] → value_ctx k → room k n → ∃ s', ok_like s' ∧ run (s, k) w = Some (s', k).
Definition runs_elements (n : nat) (w : list Z) : Prop := ∀ s k,
  s ∈ [VA; AR] → room (MODE_ARRAY :: k) n →
  ∃ s', ok_like s' ∧ run (s, MODE_ARRAY :: k) w = Some (s', MODE_ARRAY :: k).
Definition runs_array_inner (n : nat) (w : list Z) : Prop := ∀ k,
  room (MODE_ARRAY :: k) n →
  ∃ s', acts s' 93 (-7) = true ∧ run (AR, MODE_ARRAY :: k) w = Some (s', MODE_ARRAY :: k).
Definition runs_members (n : nat) (w : list Z) : Prop := ∀ s k,
  s ∈ [OB; KE] → room (MODE_OBJECT :: k) n →
  ∃ s', ok_like s' ∧ run (s, MODE_KEY :: k) w = Some (s', MODE_OBJECT :: k).
Definition runs_object_inner (n : nat) (w : list Z) : Prop := ∀ k,
  room (MODE_OBJECT :: k) n →
  ∃ s' m a, acts s' 125 a = true ∧ abs_action a (m :: k) = Some (OK, k) ∧
    run (OB, MODE_KEY :: k) w = Some (s', m :: k).

Lemma acts_ok_like s :
  ok_like s → acts s 93 (-7) = true ∧ acts s 125 (-8) = true ∧ acts s 44 (-3) = true.
Proof. unfold ok_like. intros H. split_and!; by_mem. Qed.

Lemma abs_push_room m s k n :
  room k (S n) → abs_push m s k = Some (s, m :: k) ∧ ∀ m', room (m' :: k) n.
Proof.
  unfold room, abs_push. intros H. split; [|intros m'; simpl; lia].
  rewrite decide_True by lia. done.
Qed.

Lemma runs_array s k n w :
  runs_array_inner n w → acts s 91 (-5) = true → room k (S n) →
  ∃ s', run (s, k) (91 :: w) = Some (s', MODE_ARRAY :: k) ∧ acts s' 93 (-7) = true.
Proof.
  intros Hw Hs Hr. destruct (abs_push_room MODE_ARRAY AR k n Hr) as [Hp Hr'].
  destruct (Hw k (Hr' _)) as (s' & ? & ?). exists s'; split; [|done].
  by rewrite (run_acts s k 91 (-5) (AR, MODE_ARRAY :: k)).
Qed.

Lemma runs_object s k n w :
  runs_object_inner n w → acts s 123 (-6) = true → room k (S n) →
  ∃ s' m a, run (s, k) (123 :: w) = Some (s', m :: k) ∧ acts s' 125 a = true ∧
    abs_action a (m :: k) = Some (OK, k).
Proof.
  intros Hw Hs Hr. destruct (abs_push_room MODE_KEY OB k n Hr) as [Hp Hr'].
  destruct (Hw k (Hr' _)) as (s' & m & a & ? & ? & ?). exists s', m, a; split; [|done].
  by rewrite (run_acts s k 123 (-6) (OB, MODE_KEY :: k)).
Qed.

Lemma runs_spaced_value n w1 v w2 s k :
  ws w1 → runs_value n v → ws w2 → s ∈ [VA; AR] → value_ctx k → room k n →
  ∃ s', ok_like s' ∧ run (s, k) (w1 ++ v ++ w2) = Some (s', k).
Proof.
  intros H1 Hv H2 Hs Hk Hr. destruct (value_ctx_inside k Hk) as [Hi _].
  destruct (Hv s k Hs Hk Hr) as (s1 & Hok & Hrun).
  destruct (run_ok_ws s1 k w2 H2 Hok Hi) as (s2 & Hok2 & Hrun2).
  exists s2; split; [done|].
  eapply run_app_Some; [apply run_ws; [done| |done]|by eapply run_app_Some].
  repeat (apply elem_of_cons in Hs as [->|Hs]; [mem|]). by apply not_elem_of_nil in Hs.
Qed.

Lemma runs_pair n w1 key w2 w3 v w4 :
  ws w1 → str key → ws w2 → ws w3 → runs_value n v → ws w4 →
  runs_members n (w1 ++ key ++ w2 ++ 58 :: w3 ++ v ++ w4).
Proof.
  intros H1 Hkey H2 H3 Hv H4 s k Hs Hr.
  destruct (runs_spaced_value n w3 v w4 VA (MODE_OBJECT :: k)) as (s' & Hok & Hrun);
    [done..|mem|by exists MODE_OBJECT, k; auto|done|].
  exists s'; split; [done|].
  assert (s ∈ [GO; OK; OB; KE; CO; VA; AR] ∧ s ∈ [OB; KE; VA; AR]) as [Hs1 Hs2].
  { repeat (apply elem_of_cons in Hs as [->|Hs]; [split; mem|]). by apply not_elem_of_nil in Hs. }
  eapply run_app_Some; [by apply run_ws|].
  eapply run_app_Some; [by eapply (run_str _ _ _ (CO, MODE_KEY :: k))|].
  eapply run_app_Some; [apply run_ws; [done|mem|done]|].
  by rewrite (run_acts CO _ 58 (-2) (VA, MODE_OBJECT :: k)).
Qed.

Lemma grammar_runs :
  (∀ n w, value n w → runs_value n w) ∧
  (∀ n w, array_inner n w → runs_array_inner n w) ∧
  (∀ n w, elements n w → runs_elements n w) ∧
  (∀ n w, object_inner n w → runs_object_inner n w) ∧
  (∀ n w, members n w → runs_members n w) ∧
  (∀ n w, member n w → runs_members n w).
Proof.
  apply grammar_mut.
  - intros n w Hw s k Hs Hk _. by apply run_scalar.
  - intros n w _ IH s k Hs Hk Hr. destruct (value_ctx_inside k Hk) as [Hi _].
    destruct (runs_array s k n w IH) as (s' & Hrun & Hact); [by_mem|done|].
    exists OK; split; [mem|]. eapply (run_app_Some _ (91 :: w)); [done|].
    by rewrite (run_acts s' _ 93 (-7) (OK, k)).
  - intros n w _ IH s k Hs Hk Hr. destruct (value_ctx_inside k Hk) as [Hi _].
    destruct (runs_object s k n w IH) as (s' & m & a & Hrun & Hact & Ha); [by_mem|done|].
    exists OK; split; [mem|]. eapply (run_app_Some _ (123 :: w)); [done|].
    by rewrite (run_acts s' _ 125 a (OK, k)).
  - intros n w Hw k Hr. exists AR; split; [done|]. apply run_ws; [done|mem|done].
  - intros n w _ IH k Hr. destruct (IH AR k ltac:(mem) Hr) as (s' & ? & ?).
    exists s'; split; [by apply acts_ok_like|done].
  - intros n w1 v w2 H1 _ IH H2 s k Hs Hr. eapply runs_spaced_value; try done.
    by exists MODE_ARRAY, k; auto.
  - intros n w1 v w2 rest H1 _ IH H2 _ IH2 s k Hs Hr.
    destruct (runs_spaced_value n w1 v w2 s (MODE_ARRAY :: k)) as (s1 & Hok & Hrun);
      [done..|by exists MODE_ARRAY, k; auto|done|].
    destruct (IH2 VA k ltac:(mem) Hr) as (s2 & ? & ?). exists s2; split; [done|].
    eapply run_app_Some; [done|].
    rewrite (run_acts s1 _ 44 (-3) (VA, MODE_ARRAY :: k)); [done| |done|done].
    by apply acts_ok_like.
  - intros n w Hw k Hr. exists OB, MODE_KEY, (-9); split_and!; [done|done|].
    apply run_ws; [done|mem|done].
  - intros n w _ IH k Hr. destruct (IH OB k ltac:(mem) Hr) as (s' & Hok & ?).
    exists s', MODE_OBJECT, (-8); split_and!; [by apply acts_ok_like|done|done].
  - by intros n m _ IH.
  - intros n m rest _ IH _ IH2 s k Hs Hr. destruct (IH s k Hs Hr) as (s1 & Hok & Hrun).
    destruct (IH2 KE k ltac:(mem) Hr) as (s2 & ? & ?). exists s2; split; [done|].
    eapply run_app_Some; [done|].
    rewrite (run_acts s1 _ 44 (-3) (KE, MODE_KEY :: k)); [done| |done|done].
    by apply acts_ok_like.
  - intros n w1 key w2 w3 v w4 H1 Hkey H2 H3 _ IH H4. by apply runs_pair.
Qed.

(** A text is delivered by the byte that closes it, and not before. *)
Lemma spec_run_opened q s a k c w text :
  core_step (GO, [MODE_DONE]) c = Some (q, true) → inside q.2 →
  run q w = Some (s, k) → acts s text a = true → abs_action a k = Some (OK, [MODE_DONE]) →
  spec_run spec_init (c :: w ++ [text]) = (Some spec_init, [c :: w ++ [text]]).
Proof.
  intros Hc Hi Hr Ha Hk. cbn [spec_run]. unfold spec_step at 1; simpl.
  rewrite Hc; simpl. assert (∀ A (x y : A), match q.2 with MODE_DONE :: _ => x | _ => y end = y)
    as Hm by (by destruct (q.2) as [|[] ?]).
  rewrite Hm, spec_run_app, (run_spec _ _ _ _ Hr). simpl. unfold spec_step; simpl.
  rewrite (core_step_acts _ _ _ _ _ Ha Hk). done.
Qed.

Lemma json_text_spec n t :
  json_text n t → Z.of_nat n < MAX_DEPTH → spec_run spec_init t = (Some spec_init, [t]).
Proof.
  destruct grammar_runs as (_ & Harr & _ & Hobj & _). intros [n' w Hw|n' w Hw] Hn.
  - destruct (Harr n' w Hw [MODE_DONE]) as (s' & Ha & Hr).
    { unfold room; simpl; lia. }
    by eapply (spec_run_opened (AR, [MODE_ARRAY; MODE_DONE])).
  - destruct (Hobj n' w Hw [MODE_DONE]) as (s' & m & a & Ha & Hk & Hr).
    { unfold room; simpl; lia. }
    by eapply (spec_run_opened (OB, [MODE_KEY; MODE_DONE])).
Qed.

Lemma spec_run_ws w : ws w → spec_run spec_init w = (Some spec_init, []).
Proof.
  induction 1 as [|c w Hc Hw IH]; [done|]. cbn [spec_run].
  assert (spec_step spec_init c = Some (spec_init, None)) as ->.
  { unfold is_ws in Hc. destruct_or!; subst; reflexivity. }
  by rewrite IH.
Qed.

(** Texts separated by white space. *)
Definition stream (parts : list (list Z * list Z)) (tail : list Z) : list Z :=
  concat ((λ '(w, t), w ++ t) <$> parts) ++ tail.

Definition well_formed_part (part : list Z * list Z) : Prop :=
  ws part.1 ∧ ∃ n, json_text n part.2 ∧ Z.of_nat n < MAX_DEPTH.

Lemma spec_run_stream parts tail :
  Forall well_formed_part parts → ws tail →
  spec_run spec_init (stream parts tail) = (Some spec_init, parts.*2).
Proof.
  intros Hp Ht. induction Hp as [|[w t] parts (Hw & n & Hn & Hd) _ IH].
  { by apply spec_run_ws. }
  assert (stream ((w, t) :: parts) tail = w ++ t ++ stream parts tail) as ->
    by (unfold stream; simpl; by rewrite <-!app_assoc).
  rewrite spec_run_app, spec_run_ws, spec_run_app, (json_text_spec n t) by done.
  by rewrite IH.
Qed.

Lemma feed_stream p parts tail chunks :
  fresh p → Forall well_formed_part parts → ws tail → concat chunks = stream parts tail →
  ∃ p', feed_all p chunks = Some (p', deliveries p (parts.*2), true) ∧ fresh p' ∧
        same_handler p p'.
Proof.
  intros Hf Hp Ht Hc.
  destruct (feed_all_sim chunks p spec_init (fresh_rel p Hf)) as (p' & Hfeed & _ & Hh & Hrel).
  rewrite Hc, (spec_run_stream parts tail Hp Ht) in Hfeed, Hrel.
  exists p'; split; [done|]. split; [|done]. destruct (Hrel _ eq_refl) as [Hwf Hcore Hacc Hst].
  injection Hcore as Hgo Hk. unfold acc_of in Hacc; simpl in Hacc.
  destruct (Z.ltb_spec (content_start p') 0); [|done].
  destruct Hst as [[??]|[?|?]]; [by split_and!|lia..].
Qed.

(** One text in one buffer. *)
Lemma feed_text p t :
  fresh p → well_formed_part ([], t) →
  ∃ p', evd_json_filter_feed_len p t = Some (p', deliveries p [t], None) ∧ fresh p' ∧
        same_handler p p'.
Proof.
  intros Hf Ht. destruct (feed_stream p [([], t)] [] [t]) as (p' & Hfeed & ? & ?);
    [done|by apply Forall_singleton|apply Forall_nil_2| |].
  { unfold stream; simpl. by rewrite !app_nil_r. }
  exists p'. split; [|done]. cbn [feed_all] in Hfeed.
  destruct (evd_json_filter_feed_len p t) as [[[p1 evs] [i|]]|]; cbn [mbind option_bind] in Hfeed;
    try done.
  apply (inj Some) in Hfeed. injection Hfeed as <- Hev. rewrite app_nil_r in Hev. by rewrite Hev.
Qed.

(** C3. Completeness of the splitter: a stream of JSON texts of the grammar (arrays or objects in ASCII,
    nested less than [MAX_DEPTH] deep, with no exponent after a lone zero) with any white space before,
    between and after them, cut into buffers in any way, is accepted, and the packet handler receives
    each text, exactly and in order. *)
Theorem json_stream_delivered
    (p : EvdJsonFilterPrivate) (parts : list (list Z * list Z)) (tail : list Z)
    (chunks : list (list Z)) :
  fresh p → Forall well_formed_part parts → ws tail → concat chunks = stream parts tail →
  ∃ p', feed_all p chunks = Some (p', deliveries p (parts.*2), true) ∧ fresh p'.
Proof.
  intros Hf Hp Ht Hc. destruct (feed_stream p parts tail chunks) as (p' & ? & ? & _); eauto.
Qed.

(** The text [{"a": [1]}] in three buffers. *)
Definition example_text : list Z := [123; 34; 97; 34; 58; 32; 91; 49; 93; 125].

Lemma example_text_ok : json_text 2 example_text.
Proof.
  apply (text_object 1 [34; 97; 34; 58; 32; 91; 49; 93]), oi_members, me_one.
  apply (me_pair 1 [] [34; 97; 34] [] [32] [91; 49; 93] []); try by constructor.
  - apply (str_quoted [97]). repeat constructor; lia.
  - repeat constructor.
  - apply (v_array 0 [49]), ai_elements, (el_one 0 [] [49] []); try by constructor.
    apply v_scalar, sc_num, (uns_int 49 [] []); [|constructor..]. unfold digit19; lia.
Qed.

Lemma json_stream_delivered_witness :
  ∃ p', feed_all fresh_example [[32; 123; 34]; [97; 34; 58; 32; 91; 49]; [93; 125; 10]] =
      Some (p', [PacketCb 7 example_text None], true) ∧ fresh p'.
Proof.
  apply (json_stream_delivered fresh_example [([32], example_text)] [10]).
  - exact fresh_example_fresh.
  - constructor; [|constructor]. split; [repeat constructor|].
    exists 2%nat. split; [exact example_text_ok|reflexivity].
  - constructor; [|constructor]. right; right; left; reflexivity.
  - reflexivity.
Defined.

(** The nesting bound is tight: a 128th bracket is rejected. *)
Example too_deep_rejected : (spec_run spec_init (replicate 128 91)).1 = None.
Proof. vm_compute. reflexivity. Qed.

(** Valid JSON that the table refuses: an exponent after a lone zero. *)
Example zero_exponent_rejected : (spec_run spec_init [91; 48; 101; 49; 93]).1 = None.
Proof. vm_compute. reflexivity. Qed.

End JsonGrammar.
