(* ===== verification/WebSocket.v ===== *)
(** * WebSocket protocol (src/evd/evd-websocket-protocol.c): model

    Framing, the incremental frame reader, the closing handshake and the opening handshake.
    [EvdWebsocketData] is the per-connection record; every function takes it and returns the new
    record with the list of effects on the environment.  [None] stands for a crash of the C code
    (a call through a [NULL] callback, a failed [g_assert]).  The host is little-endian. *)
From S2P Require Import Prelude.

Module WebSocket.

Definition EVD_WEBSOCKET_MAGIC_UUID : string := "258EAFA5-E914-47DA-95CA-C5AB0DC85B11".
Definition BLOCK_SIZE : Z := 4095.
Definition MAX_FRAGMENT_SIZE : Z := 268435456.

Inductive EvdWebsocketState :=
  | STATE_NONE | STATE_OPENING | STATE_OPENED | STATE_CLOSING | STATE_CLOSED.

(** The padding members of the C enum are never assigned. *)
Inductive EvdWebsocketReadingStates :=
  | READING_IDLE | READING_PAYLOAD_LEN | READING_HEADER | READING_MASKING_KEY | READING_PAYLOAD.

Inductive EvdMessageType := MESSAGE_TYPE_TEXT | MESSAGE_TYPE_BINARY.

#[export] Instance EvdWebsocketState_eq_dec : EqDecision EvdWebsocketState.
Proof. solve_decision. Defined.
#[export] Instance EvdWebsocketReadingStates_eq_dec : EqDecision EvdWebsocketReadingStates.
Proof. solve_decision. Defined.

Definition HEADER_MASK_FIN : Z := Z.shiftl 1 15.
Definition HEADER_MASK_OPCODE : Z :=
  Z.lor (Z.lor (Z.lor (Z.shiftl 1 8) (Z.shiftl 1 9)) (Z.shiftl 1 10)) (Z.shiftl 1 11).
Definition HEADER_MASK_MASKED : Z := Z.shiftl 1 7.
Definition HEADER_MASK_PAYLOAD_LEN : Z := Z.land 255 (Z.lnot (Z.shiftl 1 7)).

Definition OPCODE_CONTINUATION : Z := 0.
Definition OPCODE_TEXT_FRAME : Z := 1.
Definition OPCODE_BINARY_FRAME : Z := 2.
Definition OPCODE_CLOSE : Z := 8.
Definition OPCODE_PING : Z := 9.

Definition EVD_WEBSOCKET_CLOSE_NORMAL : Z := 1000.
Definition EVD_WEBSOCKET_CLOSE_NO_STATUS : Z := 1005.

(** ** Framing *)

Definition apply_masking (frame masking_key : list Z) : list Z :=
  imap (λ i b, Z.lxor b (nth (i mod 4) masking_key 0)) frame.

Definition GUINT16_FROM_BE (z : Z) : Z := swap_bytes 2 z.
Definition GUINT64_FROM_BE (z : Z) : Z := swap_bytes 8 z.

(** The two header bytes, the extended length, the masking key and the (masked) payload appended
    to [frame]; [random_int] is the value [g_random_int] returns.  As in the C code the header is
    stored at offsets 0 and 1. *)
Definition build_frame (frame : list Z) (fin : bool) (opcode : Z) (masked : bool)
    (payload : list Z) (random_int : Z) : list Z :=
  let payload_len := Z.of_nat (length payload) in
  let header := if fin then HEADER_MASK_FIN else 0 in
  let header := u16 (Z.lor header (Z.shiftl opcode 8)) in
  let header := Z.lor header (if masked then HEADER_MASK_MASKED else 0) in
  let '(header, payload_len_hbo, payload_len_len) :=
    if payload_len <=? 125 then (Z.lor header (u16 payload_len), 0, 0%nat)
    else if payload_len <? 65535 then
      (Z.lor header 126, GUINT16_FROM_BE (u16 payload_len), 2%nat)
    else (Z.lor header 127, GUINT64_FROM_BE (u64 payload_len), 8%nat) in
  let frame := frame ++ [0; 0] in
  let frame := <[0%nat := Z.shiftr (Z.land header 65280) 8]> frame in
  let frame := <[1%nat := Z.land header 255]> frame in
  let frame := frame ++ take payload_len_len (le_bytes 8 payload_len_hbo) in
  let masking_key := le_bytes 4 (u32 random_int) in
  if masked then frame ++ masking_key ++ apply_masking payload masking_key
  else frame ++ payload.

(** ** Connection state *)

Record EvdWebsocketData := mkData {
  server : bool;
  frame_cb : bool;               (* whether the callback is not NULL *)
  close_cb : bool;
  state : EvdWebsocketState;
  reading_state : EvdWebsocketReadingStates;
  buf : list Z;                  (* the [buf_len] bytes received and not consumed *)
  buf_alloc : Z;                 (* [buf->len], the size of the storage *)
  offset : Z;
  opcode : Z;
  payload_len : Z;
  frame_data : list Z;
  close_frame_sent : bool;
  close_frame_received : bool;
  close_code : Z;
  fin : bool;
  masked : bool;
  masking_key : list Z;
  close_timeout : bool;          (* whether [close_timeout_src_id] is set *)
  n_random : nat;                (* calls made to [g_random_int] *)
  n_writes : nat                 (* calls made to [g_output_stream_write] *)
}.

Definition buf_len (d : EvdWebsocketData) : Z := Z.of_nat (length (buf d)).

Inductive event :=
  | FrameCb (frame : list Z) (is_binary : bool)
  | CloseCb (gracefully : bool)
  | StreamWrite (bytes : list Z)
  | FlushAsync
  | IoClose
  | TimeoutAdd (msec : Z)
  | TimeoutRemove
  | ReadAsync (at_offset size : Z)
  | Warning.

Definition set_state (s : EvdWebsocketState) (d : EvdWebsocketData) : EvdWebsocketData :=
  mkData (server d) (frame_cb d) (close_cb d) s (reading_state d) (buf d) (buf_alloc d)
    (offset d) (opcode d) (payload_len d) (frame_data d) (close_frame_sent d)
    (close_frame_received d) (close_code d) (fin d) (masked d) (masking_key d)
    (close_timeout d) (n_random d) (n_writes d).
Definition set_reading_state (s : EvdWebsocketReadingStates) (d : EvdWebsocketData)
  : EvdWebsocketData :=
  mkData (server d) (frame_cb d) (close_cb d) (state d) s (buf d) (buf_alloc d)
    (offset d) (opcode d) (payload_len d) (frame_data d) (close_frame_sent d)
    (close_frame_received d) (close_code d) (fin d) (masked d) (masking_key d)
    (close_timeout d) (n_random d) (n_writes d).
Definition set_buf (b : list Z) (alloc o : Z) (d : EvdWebsocketData) : EvdWebsocketData :=
  mkData (server d) (frame_cb d) (close_cb d) (state d) (reading_state d) b alloc
    o (opcode d) (payload_len d) (frame_data d) (close_frame_sent d)
    (close_frame_received d) (close_code d) (fin d) (masked d) (masking_key d)
    (close_timeout d) (n_random d) (n_writes d).
Definition set_header (f : bool) (op : Z) (m : bool) (l : Z) (d : EvdWebsocketData)
  : EvdWebsocketData :=
  mkData (server d) (frame_cb d) (close_cb d) (state d) (reading_state d) (buf d) (buf_alloc d)
    (offset d) op l (frame_data d) (close_frame_sent d)
    (close_frame_received d) (close_code d) f m (masking_key d)
    (close_timeout d) (n_random d) (n_writes d).
Definition set_payload_len (l : Z) (d : EvdWebsocketData) : EvdWebsocketData :=
  set_header (fin d) (opcode d) (masked d) l d.
Definition set_masking_key (k : list Z) (d : EvdWebsocketData) : EvdWebsocketData :=
  mkData (server d) (frame_cb d) (close_cb d) (state d) (reading_state d) (buf d) (buf_alloc d)
    (offset d) (opcode d) (payload_len d) (frame_data d) (close_frame_sent d)
    (close_frame_received d) (close_code d) (fin d) (masked d) k
    (close_timeout d) (n_random d) (n_writes d).
Definition set_frame_data (f : list Z) (d : EvdWebsocketData) : EvdWebsocketData :=
  mkData (server d) (frame_cb d) (close_cb d) (state d) (reading_state d) (buf d) (buf_alloc d)
    (offset d) (opcode d) (payload_len d) f (close_frame_sent d)
    (close_frame_received d) (close_code d) (fin d) (masked d) (masking_key d)
    (close_timeout d) (n_random d) (n_writes d).
Definition set_close (sent received : bool) (code : Z) (timeout : bool) (d : EvdWebsocketData)
  : EvdWebsocketData :=
  mkData (server d) (frame_cb d) (close_cb d) (state d) (reading_state d) (buf d) (buf_alloc d)
    (offset d) (opcode d) (payload_len d) (frame_data d) sent received code
    (fin d) (masked d) (masking_key d) timeout (n_random d) (n_writes d).
Definition count_write (used_random : bool) (d : EvdWebsocketData) : EvdWebsocketData :=
  mkData (server d) (frame_cb d) (close_cb d) (state d) (reading_state d) (buf d) (buf_alloc d)
    (offset d) (opcode d) (payload_len d) (frame_data d) (close_frame_sent d)
    (close_frame_received d) (close_code d) (fin d) (masked d) (masking_key d)
    (close_timeout d) (n_random d + (if used_random then 1 else 0))%nat (n_writes d + 1)%nat.
Definition set_callbacks (f c : bool) (d : EvdWebsocketData) : EvdWebsocketData :=
  mkData (server d) f c (state d) (reading_state d) (buf d) (buf_alloc d)
    (offset d) (opcode d) (payload_len d) (frame_data d) (close_frame_sent d)
    (close_frame_received d) (close_code d) (fin d) (masked d) (masking_key d)
    (close_timeout d) (n_random d) (n_writes d).

Definition setup_connection (is_server : bool) (s : EvdWebsocketState) : EvdWebsocketData :=
  mkData is_server false false s READING_IDLE [] 0 0 0 0 [] false false 0 false false
    [0; 0; 0; 0] false 0 0.

Section Protocol.

(** The environment: the successive results of [g_random_int] and of
    [g_output_stream_write] (negative on error). *)
Context (g_random_int : nat → Z) (write_result : nat → Z).

Definition send_close_frame (d : EvdWebsocketData) : EvdWebsocketData * list event * bool :=
  let d := set_frame_data [] d in
  let frame := build_frame [] true OPCODE_CLOSE (negb (server d)) (frame_data d)
                 (g_random_int (n_random d)) in
  let result := negb (write_result (n_writes d) <? 0) in
  (count_write (negb (server d)) d, [StreamWrite frame], result).

(** The loop of [send_data_frame]; [sent] is [bytes_sent].  The C test
    [! g_output_stream_write (...) < 0] parses as [(! w) < 0]. *)
Fixpoint send_fragments (fuel : nat) (d : EvdWebsocketData) (frame : list Z) (sent : Z)
    (frame_type : EvdMessageType) : option (EvdWebsocketData * list event * bool) :=
  let left := Z.of_nat (length frame) - sent in
  if left <=? 0 then Some (d, [], true)
  else
    match fuel with
    | O => None
    | S fuel =>
        let frag_len := Z.min MAX_FRAGMENT_SIZE left in
        let fin := left <=? frag_len in
        let op := if sent =? 0 then
                    match frame_type with
                    | MESSAGE_TYPE_TEXT => OPCODE_TEXT_FRAME
                    | MESSAGE_TYPE_BINARY => OPCODE_BINARY_FRAME
                    end
                  else OPCODE_CONTINUATION in
        let masked := negb (server d) in
        let frag := build_frame [] fin op masked
                      (take (Z.to_nat frag_len) (drop (Z.to_nat sent) frame))
                      (g_random_int (n_random d)) in
        let w := write_result (n_writes d) in
        let d := count_write masked d in
        if Z.b2z (w =? 0) <? 0 then Some (d, [StreamWrite frag], false)
        else
          '(d, evs, ok) ← send_fragments fuel d frame (sent + frag_len) frame_type;
          Some (d, StreamWrite frag :: evs, ok)
    end.

(** Every fragment takes at least one byte of the message. *)
Definition send_data_frame (d : EvdWebsocketData) (frame : list Z) (frame_type : EvdMessageType)
  : option (EvdWebsocketData * list event * bool) :=
  send_fragments (length frame) d frame 0 frame_type.

(** ** Closing handshake *)

Definition finish_close_handshake (d : EvdWebsocketData) (code : Z)
  : EvdWebsocketData * list event :=
  let d := set_state STATE_CLOSED d in
  let gracefully :=
    (code =? EVD_WEBSOCKET_CLOSE_NORMAL) || (code =? EVD_WEBSOCKET_CLOSE_NO_STATUS) in
  let evs := (if close_cb d then [CloseCb gracefully] else []) ++ [IoClose] in
  if close_timeout d then
    (set_close (close_frame_sent d) (close_frame_received d) (close_code d) false d,
     evs ++ [TimeoutRemove])
  else (d, evs).

Definition evd_websocket_protocol_close (d : EvdWebsocketData) (code : Z)
  : option (EvdWebsocketData * list event * bool) :=
  match state d with
  | STATE_CLOSING | STATE_CLOSED => Some (d, [], true)
  | _ =>
      let d := set_state STATE_CLOSING d in
      if close_frame_sent d then None (* g_assert *)
      else
        let '(d, evs, result) := send_close_frame d in
        if close_frame_received d then
          Some (set_close true true code (close_timeout d) d, evs ++ [FlushAsync], result)
        else
          Some (set_close true false (close_code d) true d, evs ++ [TimeoutAdd 3000], result)
  end.

Definition on_close_frame_received (d : EvdWebsocketData) (code : Z)
  : option (EvdWebsocketData * list event) :=
  let d := set_close (close_frame_sent d) true (close_code d) (close_timeout d) d in
  if decide (state d = STATE_CLOSING) then Some (finish_close_handshake d code)
  else '(d, evs, _) ← evd_websocket_protocol_close d code; Some (d, evs).

(** The timeout source calls [close_cb] without testing it. *)
Definition close_timeout_cb (d : EvdWebsocketData) : option (EvdWebsocketData * list event) :=
  let d := set_close (close_frame_sent d) (close_frame_received d) (close_code d) false d in
  let d := set_state STATE_CLOSED d in
  if close_cb d then Some (d, [CloseCb false; IoClose]) else None.

Definition on_connection_flushed (d : EvdWebsocketData) : EvdWebsocketData * list event :=
  finish_close_handshake d (close_code d).

(** ** Reading *)

Definition handle_control_frame (d : EvdWebsocketData)
  : option (EvdWebsocketData * list event) :=
  if opcode d =? OPCODE_CLOSE then on_close_frame_received d EVD_WEBSOCKET_CLOSE_NO_STATUS
  else Some (set_state STATE_CLOSED d, [IoClose; Warning]).

Definition read_payload (d : EvdWebsocketData)
  : option (EvdWebsocketData * list event * bool) :=
  if buf_len d - offset d <? payload_len d then Some (d, [], false)
  else
    let payload := take (Z.to_nat (payload_len d)) (drop (Z.to_nat (offset d)) (buf d)) in
    let d := set_frame_data (if masked d then apply_masking payload (masking_key d)
                             else payload) d in
    '(d, evs) ←
      (if OPCODE_CLOSE <=? opcode d then handle_control_frame d
       else if fin d then
         if frame_cb d then
           Some (d, [FrameCb (frame_data d) (opcode d =? OPCODE_BINARY_FRAME)])
         else None
       else Some (set_state STATE_CLOSED d, [Warning; IoClose]));
    let consumed := offset d + payload_len d in
    let d := set_reading_state READING_IDLE d in
    let d := set_buf (drop (Z.to_nat consumed) (buf d)) (buf_alloc d - consumed) 0 d in
    Some (d, evs, true).

Definition read_masking_key (d : EvdWebsocketData)
  : option (EvdWebsocketData * list event * bool) :=
  if buf_len d - offset d <? 4 then Some (d, [], false)
  else
    let d := set_masking_key (take 4 (drop (Z.to_nat (offset d)) (buf d))) d in
    let d := set_buf (buf d) (buf_alloc d) (offset d + 4) d in
    let d := set_reading_state READING_PAYLOAD d in
    if payload_len d =? 0 then read_payload d else Some (d, [], true).

Definition read_payload_len (d : EvdWebsocketData) : EvdWebsocketData * bool :=
  let after d :=
    set_reading_state (if masked d then READING_MASKING_KEY else READING_PAYLOAD) d in
  let at_offset n := le_value (take n (drop (Z.to_nat (offset d)) (buf d))) in
  if payload_len d =? 126 then
    if buf_len d - offset d <? 2 then (d, false)
    else
      let len := at_offset 2%nat in
      (after (set_payload_len (GUINT16_FROM_BE len)
                (set_buf (buf d) (buf_alloc d) (offset d + 2) d)), true)
  else
    if buf_len d - offset d <? 8 then (d, false)
    else
      let len := at_offset 8%nat in
      (after (set_payload_len (GUINT64_FROM_BE len)
                (set_buf (buf d) (buf_alloc d) (offset d + 8) d)), true).

Definition read_header (d : EvdWebsocketData) : EvdWebsocketData * bool :=
  if buf_len d - offset d <? 2 then (d, false)
  else
    let at_offset i := nth (Z.to_nat (offset d) + i) (buf d) 0 in
    let header := u16 (Z.shiftl (at_offset 0%nat) 8 + at_offset 1%nat) in
    let d := set_buf (buf d) (buf_alloc d) (offset d + 2) d in
    let d := set_header
               (negb (Z.land header HEADER_MASK_FIN =? 0))
               (u8 (Z.shiftr (Z.land header HEADER_MASK_OPCODE) 8))
               (negb (Z.land header HEADER_MASK_MASKED =? 0))
               (Z.land header HEADER_MASK_PAYLOAD_LEN) d in
    (set_reading_state
       (if 125 <? payload_len d then READING_PAYLOAD_LEN
        else if masked d then READING_MASKING_KEY
        else READING_PAYLOAD) d, true).

(** The [switch] of [process_data]. *)
Definition read_part (d : EvdWebsocketData)
  : option (EvdWebsocketData * list event * bool) :=
  match reading_state d with
  | READING_PAYLOAD_LEN => let '(d, ok) := read_payload_len d in Some (d, [], ok)
  | READING_MASKING_KEY => read_masking_key d
  | READING_PAYLOAD => read_payload d
  | _ => Some (d, [], true)
  end.

(** One turn of the loop of [process_data]; [false] when there is not enough data. *)
Definition process_turn (d : EvdWebsocketData)
  : option (EvdWebsocketData * list event * bool) :=
  if decide (reading_state d = READING_IDLE) then
    let '(d, ok) := read_header d in
    if ok then read_part d else Some (d, [], false)
  else read_part d.

(** The outcomes of the loop: a crash, no fuel left, or the final state with the effects and the
    value returned. *)
Inductive loop_result :=
  | Crash
  | NoFuel
  | Done (d : EvdWebsocketData) (evs : list event) (result : bool).

Definition add_events (evs : list event) (r : loop_result) : loop_result :=
  match r with Done d evs' b => Done d (evs ++ evs') b | _ => r end.

Definition loop_continues (d : EvdWebsocketData) : bool :=
  (offset d <? buf_len d) && negb (bool_decide (state d = STATE_CLOSED)).

Fixpoint process_loop (fuel : nat) (d : EvdWebsocketData) : loop_result :=
  if loop_continues d then
    match fuel with
    | O => NoFuel
    | S fuel =>
        match process_turn d with
        | None => Crash
        | Some (d, evs, false) => Done d evs true
        | Some (d, evs, true) => add_events evs (process_loop fuel d)
        end
    end
  else Done d [] (negb (bool_decide (state d = STATE_CLOSED))).

(** Every turn consumes a byte, except the one that completes an empty payload. *)
Definition process_fuel (d : EvdWebsocketData) : nat :=
  (2 * Z.to_nat (buf_len d - offset d) +
   if decide (reading_state d = READING_IDLE) then 0 else 1)%nat.

Definition process_data (d : EvdWebsocketData) : loop_result := process_loop (process_fuel d) d.

Definition read_from_connection (d : EvdWebsocketData) : EvdWebsocketData * list event :=
  let d := if buf_alloc d <=? buf_len d + BLOCK_SIZE
           then set_buf (buf d) (buf_len d + BLOCK_SIZE) (offset d) d else d in
  (d, [ReadAsync (buf_len d) BLOCK_SIZE]).

(** What [g_input_stream_read_finish] yields. *)
Inductive read_outcome :=
  | ReadError (closed : bool)
  | ReadBytes (bytes : list Z).

Definition on_connection_read (d : EvdWebsocketData) (r : read_outcome) : loop_result :=
  match r with
  | ReadError closed => Done d (if closed then [] else [IoClose]) true
  | ReadBytes [] => Done d [] true
  | ReadBytes bytes =>
      let d := set_buf (buf d ++ bytes) (buf_alloc d) (offset d) d in
      if decide (state d = STATE_CLOSED) then Done d [] true
      else match process_data d with
           | Done d evs true =>
               let '(d, evs') := read_from_connection d in Done d (evs ++ evs') true
           | r => r
           end
  end.

(** [g_string_new_len ("", BLOCK_SIZE)] gives a storage of [BLOCK_SIZE] bytes. *)
Definition evd_websocket_protocol_bind (d : EvdWebsocketData) : EvdWebsocketData * list event :=
  read_from_connection (set_buf (buf d) BLOCK_SIZE (offset d) (set_callbacks true true d)).

Definition evd_websocket_protocol_unbind (d : EvdWebsocketData) : EvdWebsocketData :=
  set_callbacks false false d.

Definition evd_websocket_protocol_send (d : EvdWebsocketData) (frame : list Z)
    (frame_type : EvdMessageType) : option (EvdWebsocketData * list event * bool) :=
  match state d with
  | STATE_CLOSING | STATE_CLOSED => Some (d, [], false)
  | _ => send_data_frame d frame frame_type
  end.

End Protocol.

(** ** Opening handshake *)

(** The GLib, libsoup and EvdHttp functions the handshake calls: case-insensitive header access,
    SHA-1, base64, decimal parsing, substring search. *)
Class HandshakeEnv := {
  headers : Type;
  no_headers : headers;
  headers_get_one : headers → string → option string;
  headers_replace : headers → string → string → headers;
  sha1 : string → list Z;
  base64_encode : list Z → string;
  ascii_strtoull : string → Z;
  contains : string → string → bool
}.

Section Handshake.
Context `{HandshakeEnv}.

Definition get_version_from_request (request : headers) : Z :=
  match headers_get_one request "Sec-Websocket-Version" with
  | None => 0
  | Some version_str => u8 (ascii_strtoull version_str)
  end.

Definition get_accept_key (key : string) : string :=
  base64_encode (sha1 (key +:+ EVD_WEBSOCKET_MAGIC_UUID)).

Inductive handshake_error :=
  | VersionNot13 | InvalidRequest | MissingKey | WriteFailed
  | InvalidHttpVersion | InvalidStatusCode | InvalidAcceptHeader | InvalidAcceptKey.

Definition string_eqb (a b : string) : bool := bool_decide (a = b).

(** The server side: the response headers written (with status 101 over HTTP/1.1) and the data
    installed on the connection. [written] is the outcome of writing the response headers. *)
Definition evd_websocket_protocol_handle_handshake_request (request : headers) (written : bool)
  : (headers * EvdWebsocketData) + handshake_error :=
  let version := get_version_from_request request in
  if negb (version =? 13) then inr VersionNot13
  else
    let conn_header := headers_get_one request "Connection" in
    let upgrade_ok := match headers_get_one request "Upgrade" with
                      | Some v => string_eqb v "websocket"
                      | None => false
                      end in
    match conn_header with
    | Some conn_header =>
        if negb upgrade_ok || negb (contains conn_header "Upgrade") then inr InvalidRequest
        else
          match headers_get_one request "Sec-WebSocket-Key" with
          | None => inr MissingKey
          | Some key =>
              let accept_key := get_accept_key key in
              let res_headers := headers_replace no_headers "Connection" "Upgrade" in
              let res_headers := headers_replace res_headers "Upgrade" "websocket" in
              let res_headers := headers_replace res_headers "Sec-WebSocket-Accept" accept_key in
              if written then inl (res_headers, setup_connection true STATE_OPENED)
              else inr WriteFailed
          end
    | None => inr InvalidRequest
    end.

(** Sixteen key bytes from four calls to [g_random_int]. *)
Definition key_bytes (rnd : Z) : list Z :=
  [ Z.land (Z.shiftr rnd 24) 255; Z.land (Z.shiftr rnd 16) 255;
    Z.land (Z.shiftr rnd 8) 255; Z.land rnd 255 ].

Definition evd_websocket_protocol_create_handshake_request
    (initial : headers) (sub_protocol origin : option string) (rnd : list Z)
  : headers * string :=
  let h := headers_replace initial "Upgrade" "websocket" in
  let h := headers_replace h "Connection" "Upgrade" in
  let h := headers_replace h "Sec-WebSocket-Version" "13" in
  let h := match sub_protocol with
           | Some s => headers_replace h "Sec-WebSocket-Protocol" s | None => h end in
  let h := match origin with
           | Some s => headers_replace h "Sec-WebSocket-Origin" s | None => h end in
  let key_b64 := base64_encode (concat (key_bytes <$> take 4 rnd)) in
  (headers_replace h "Sec-WebSocket-Key" key_b64, key_b64).

Definition SOUP_STATUS_SWITCHING_PROTOCOLS : Z := 101.

Definition evd_websocket_protocol_handle_handshake_response
    (http_1_1 : bool) (status_code : Z) (response : headers) (handshake_key : string)
  : EvdWebsocketData + handshake_error :=
  if negb http_1_1 then inr InvalidHttpVersion
  else if negb (status_code =? SOUP_STATUS_SWITCHING_PROTOCOLS) then inr InvalidStatusCode
  else
    match headers_get_one response "Sec-WebSocket-Accept" with
    | None | Some EmptyString => inr InvalidAcceptHeader
    | Some accept_key =>
        if negb (string_eqb accept_key (get_accept_key handshake_key)) then inr InvalidAcceptKey
        else inl (setup_connection false STATE_OPENED)
    end.

End Handshake.

End WebSocket.
