(* ===== verification/WebSocketSpec.v ===== *)
(** * WebSocket protocol: theorems

    Termination and chunk-independence of the frame reader, the round trip between the frame
    writer and the reader, and the closing and opening handshakes. *)
From S2P Require Import Prelude WebSocket.
Import WebSocket.

Module WebSocketSpec.

(** ** Invariant of the reader *)

Record reader_ok (d : EvdWebsocketData) : Prop := mkReaderOk {
  ro_offset : 0 <= offset d <= buf_len d;
  ro_payload : 0 <= payload_len d;
  ro_bytes : bytes_ok (buf d);
  ro_state : reading_state d ≠ READING_HEADER
}.

(** What is left to read, and a connection with more bytes received. *)
Definition rest (d : EvdWebsocketData) : list Z := drop (Z.to_nat (offset d)) (buf d).
Definition receive (d : EvdWebsocketData) (bytes : list Z) : EvdWebsocketData :=
  set_buf (buf d ++ bytes) (buf_alloc d) (offset d) d.

Lemma length_rest d : reader_ok d → Z.of_nat (length (rest d)) = buf_len d - offset d.
Proof. intros [??]. unfold rest, buf_len in *. rewrite length_drop. lia. Qed.

Lemma receive_nil d : receive d [] = d.
Proof. unfold receive, set_buf. rewrite app_nil_r. by destruct d. Qed.

Lemma receive_receive d b1 b2 : receive (receive d b1) b2 = receive d (b1 ++ b2).
Proof. unfold receive, set_buf; simpl. by rewrite app_assoc. Qed.

Lemma receive_ok d b : reader_ok d → bytes_ok b → reader_ok (receive d b).
Proof.
  intros [Ho Hp Hb Hs] ?. constructor; simpl; try done.
  - unfold buf_len in *; simpl. rewrite length_app. lia.
  - by apply Forall_app.
Qed.

Lemma le_value_nonneg l : bytes_ok l → 0 <= le_value l.
Proof. intros H. pose proof (le_value_range l H). lia. Qed.

Lemma swap_bytes_nonneg n z : 0 <= swap_bytes n z.
Proof. apply le_value_nonneg, Forall_reverse, le_bytes_ok. Qed.

Lemma land_nonneg a b : 0 <= b → 0 <= Z.land a b.
Proof. intros. apply Z.land_nonneg. auto. Qed.

(** ** One turn makes progress *)

Definition advances (d d' : EvdWebsocketData) : Prop :=
  reader_ok d' ∧ (process_fuel d' < process_fuel d)%nat.

Ltac open_ok H := destruct H as [Hoff Hpay Hbytes Hrs]; unfold buf_len in *.

Lemma read_header_progress d d' :
  reader_ok d → read_header d = (d', true) →
  reader_ok d' ∧ reading_state d' ≠ READING_IDLE ∧ buf d' = buf d ∧ offset d' = offset d + 2 ∧
  offset d + 2 <= buf_len d ∧ state d' = state d.
Proof.
  intros Hok. unfold read_header. destruct (Z.ltb_spec (buf_len d - offset d) 2); [done|].
  intros [= <-]. open_ok Hok. split_and!; simpl; try done; try lia.
  - constructor; simpl; try done; unfold buf_len; simpl; try lia.
    + by apply land_nonneg.
    + repeat case_match; done.
  - repeat case_match; done.
Qed.

Lemma read_payload_len_progress d d' :
  reader_ok d → read_payload_len d = (d', true) →
  reader_ok d' ∧ reading_state d' ≠ READING_IDLE ∧ buf d' = buf d ∧
  offset d + 2 <= offset d' <= buf_len d.
Proof.
  intros Hok. unfold read_payload_len.
  destruct (payload_len d =? 126).
  - destruct (Z.ltb_spec (buf_len d - offset d) 2); [done|]. intros [= <-]. open_ok Hok.
    split_and!; simpl; try done; try lia; [|by repeat case_match].
    constructor; simpl; try done; unfold buf_len; simpl; try lia.
    + apply swap_bytes_nonneg.
    + repeat case_match; done.
  - destruct (Z.ltb_spec (buf_len d - offset d) 8); [done|]. intros [= <-]. open_ok Hok.
    split_and!; simpl; try done; try lia; [|by repeat case_match].
    constructor; simpl; try done; unfold buf_len; simpl; try lia.
    + apply swap_bytes_nonneg.
    + repeat case_match; done.
Qed.

(** The closing code touches neither the buffer nor the reader's fields. *)
Definition same_reader (d d' : EvdWebsocketData) : Prop :=
  buf d' = buf d ∧ buf_alloc d' = buf_alloc d ∧ offset d' = offset d ∧
  payload_len d' = payload_len d ∧ reading_state d' = reading_state d.

Section Env.
Context (g_random_int : nat → Z) (write_result : nat → Z).

Local Abbreviation protocol_close := (evd_websocket_protocol_close g_random_int write_result).
Local Abbreviation on_close := (on_close_frame_received g_random_int write_result).
Local Abbreviation control := (handle_control_frame g_random_int write_result).
Local Abbreviation payload := (read_payload g_random_int write_result).
Local Abbreviation masking := (read_masking_key g_random_int write_result).
Local Abbreviation part := (read_part g_random_int write_result).
Local Abbreviation turn := (process_turn g_random_int write_result).
Local Abbreviation loop := (process_loop g_random_int write_result).
Local Abbreviation process := (process_data g_random_int write_result).

Lemma protocol_close_same d code d' evs b :
  protocol_close d code = Some (d', evs, b) → same_reader d d'.
Proof.
  unfold evd_websocket_protocol_close, send_close_frame.
  repeat (case_match; try done); intros [= <- <- <-]; by split_and!.
Qed.

Lemma control_same d d' evs : control d = Some (d', evs) → same_reader d d'.
Proof.
  unfold handle_control_frame, on_close_frame_received, finish_close_handshake.
  destruct (opcode d =? OPCODE_CLOSE); [|intros [= <- <-]; by split_and!].
  destruct (decide _).
  - repeat case_match; intros [= <- <-]; by split_and!.
  - destruct (protocol_close _ _) as [[[d1 evs1] b]|] eqn:E; [|done].
    intros [= <- <-]. apply protocol_close_same in E. by destruct E as (?&?&?&?&?); split_and!.
Qed.

(** The three ways a complete frame is handled. *)
Definition frame_action (d : EvdWebsocketData) : option (EvdWebsocketData * list event) :=
  if OPCODE_CLOSE <=? opcode d then control d
  else if fin d then
    if frame_cb d then Some (d, [FrameCb (frame_data d) (opcode d =? OPCODE_BINARY_FRAME)])
    else None
  else Some (set_state STATE_CLOSED d, [Warning; IoClose]).

Lemma frame_action_same d d' evs : frame_action d = Some (d', evs) → same_reader d d'.
Proof.
  unfold frame_action. destruct (_ <=? _); [apply control_same|].
  repeat case_match; try done; intros [= <- <-]; by split_and!.
Qed.

(** The payload of the frame as the callback sees it. *)
Definition unmasked (d : EvdWebsocketData) : list Z :=
  let p := take (Z.to_nat (payload_len d)) (rest d) in
  if masked d then apply_masking p (masking_key d) else p.

Definition consume (d : EvdWebsocketData) : EvdWebsocketData :=
  let n := offset d + payload_len d in
  set_buf (drop (Z.to_nat n) (buf d)) (buf_alloc d - n) 0 (set_reading_state READING_IDLE d).

Lemma read_payload_unfold d :
  payload d =
    if buf_len d - offset d <? payload_len d then Some (d, [], false)
    else '(d, evs) ← frame_action (set_frame_data (unmasked d) d); Some (consume d, evs, true).
Proof. done. Qed.

Lemma read_payload_progress d d' evs :
  reader_ok d → payload d = Some (d', evs, true) →
  reader_ok d' ∧ reading_state d' = READING_IDLE ∧ buf_len d' - offset d' <= buf_len d - offset d.
Proof.
  intros Hok. rewrite read_payload_unfold.
  destruct (Z.ltb_spec (buf_len d - offset d) (payload_len d)); [done|].
  destruct (frame_action _) as [[d1 evs1]|] eqn:E; [|done].
  apply frame_action_same in E as (Hb & _ & Ho & Hp & _). simpl in *.
  intros [= <- <-]. open_ok Hok. split_and!; simpl; try done.
  - constructor; simpl; try done; unfold buf_len; simpl.
    + lia.
    + by rewrite Hp.
    + rewrite Hb. by apply Forall_drop.
  - rewrite length_drop, Hb, Ho, Hp. lia.
Qed.

Lemma read_masking_key_progress d d' evs :
  reader_ok d → masking d = Some (d', evs, true) →
  reader_ok d' ∧ buf_len d' - offset d' + 4 <= buf_len d - offset d.
Proof.
  intros Hok. unfold read_masking_key.
  destruct (Z.ltb_spec (buf_len d - offset d) 4); [done|].
  match goal with |- context [payload ?x] => set (d1 := x) end.
  assert (reader_ok d1) as Hok1.
  { open_ok Hok. constructor; simpl; try done. unfold buf_len; simpl. lia. }
  destruct (payload_len _ =? 0).
  - intros (? & _ & Hle)%read_payload_progress; [|done]. split; [done|].
    unfold buf_len in *; simpl in *. lia.
  - intros [= <- <-]. split; [done|]. unfold buf_len in *; simpl in *. lia.
Qed.

Lemma fuel_idle d : reading_state d = READING_IDLE →
  process_fuel d = (2 * Z.to_nat (buf_len d - offset d))%nat.
Proof. intros H. unfold process_fuel. rewrite decide_True by done. lia. Qed.

Lemma fuel_le d :
  (process_fuel d <= 2 * Z.to_nat (buf_len d - offset d) + 1)%nat.
Proof. unfold process_fuel. case_decide; lia. Qed.

Lemma read_part_progress d d' evs :
  reader_ok d → reading_state d ≠ READING_IDLE → part d = Some (d', evs, true) → advances d d'.
Proof.
  intros Hok Hni. unfold read_part, advances.
  assert (process_fuel d = 2 * Z.to_nat (buf_len d - offset d) + 1)%nat as ->
    by (unfold process_fuel; by rewrite decide_False).
  pose proof (ro_state d Hok) as Hh. pose proof (fuel_le d') as Hle.
  destruct (reading_state d) eqn:Hr; try done.
  - destruct (read_payload_len d) as [d1 ok] eqn:E. intros [= <- <- ->].
    destruct (read_payload_len_progress d d1 Hok E) as (Hok1 & ? & Hb & Ho).
    split; [done|]. destruct Hok. unfold buf_len in *. rewrite Hb in *. lia.
  - intros H. destruct (read_masking_key_progress d d' evs Hok H) as [Hok' ?].
    split; [done|]. destruct Hok'. lia.
  - intros H. destruct (read_payload_progress d d' evs Hok H) as (Hok' & Hi & ?).
    split; [done|]. rewrite (fuel_idle d' Hi). destruct Hok'. lia.
Qed.

Lemma turn_progress d d' evs :
  reader_ok d → turn d = Some (d', evs, true) → advances d d'.
Proof.
  intros Hok. unfold process_turn. destruct (decide _) as [Hi|Hi]; [|by apply read_part_progress].
  destruct (read_header d) as [d1 ok] eqn:E. destruct ok; [|done].
  destruct (read_header_progress d d1 Hok E) as (Hok1 & Hn & Hb & Ho & Hle & _).
  intros Hp. destruct (read_part_progress d1 d' evs Hok1 Hn Hp) as [? Hlt]. split; [done|].
  rewrite (fuel_idle d Hi). pose proof (fuel_le d1). destruct Hok1 as [Ho1 _ _ _].
  unfold buf_len in *. rewrite Hb, Ho in *. lia.
Qed.

(** ** The loop, without its fuel *)

Lemma loop_enough_fuel f1 f2 d :
  reader_ok d → (process_fuel d <= f1)%nat → (process_fuel d <= f2)%nat → loop f1 d = loop f2 d.
Proof.
  revert f2 d. induction f1 as [|f1 IH]; intros f2 d Hok H1 H2.
  - assert (loop_continues d = false) as Hc.
    { unfold loop_continues. destruct (Z.ltb_spec (offset d) (buf_len d)); [|done].
      unfold process_fuel in H1. lia. }
    destruct f2; simpl; by rewrite Hc.
  - destruct f2 as [|f2].
    { assert (loop_continues d = false) as Hc.
      { unfold loop_continues. destruct (Z.ltb_spec (offset d) (buf_len d)); [|done].
        unfold process_fuel in H2. lia. }
      simpl; by rewrite Hc. }
    cbn [process_loop]. destruct (loop_continues d); [|done].
    destruct (turn d) as [[[d' evs] [|]]|] eqn:E; [|done..].
    destruct (turn_progress d d' evs Hok E) as [Hok' Hlt]. f_equal. apply IH; [done|lia..].
Qed.

Lemma process_unfold d :
  reader_ok d →
  process d =
    if loop_continues d then
      match turn d with
      | None => Crash
      | Some (d', evs, false) => Done d' evs true
      | Some (d', evs, true) => add_events evs (process d')
      end
    else Done d [] (negb (bool_decide (state d = STATE_CLOSED))).
Proof.
  intros Hok. unfold process_data at 1.
  rewrite (loop_enough_fuel _ (S (process_fuel d))) by (done || lia).
  cbn [process_loop]. destruct (loop_continues d); [|done].
  destruct (turn d) as [[[d' evs] [|]]|] eqn:E; [|done..].
  destruct (turn_progress d d' evs Hok E) as [Hok' Hlt]. f_equal.
  unfold process_data. apply loop_enough_fuel; [done|lia..].
Qed.

(** ** More data does not change what a turn did *)

Lemma take_drop_receive d b n :
  0 <= offset d → (Z.to_nat (offset d) + n <= length (buf d))%nat →
  take n (drop (Z.to_nat (offset d)) (buf d ++ b)) = take n (drop (Z.to_nat (offset d)) (buf d)).
Proof.
  intros Ho Hn. rewrite drop_app_le by lia. rewrite take_app_le; [done|].
  rewrite length_drop. lia.
Qed.

Lemma buf_len_receive d b : buf_len (receive d b) = buf_len d + Z.of_nat (length b).
Proof. unfold buf_len; simpl. rewrite length_app. lia. Qed.

Lemma read_header_receive d d' b :
  reader_ok d → read_header d = (d', true) → read_header (receive d b) = (receive d' b, true).
Proof.
  intros Hok. unfold read_header. rewrite buf_len_receive.
  destruct (Z.ltb_spec (buf_len d - offset d) 2); [done|].
  destruct (Z.ltb_spec (buf_len d + Z.of_nat (length b) - offset (receive d b)) 2);
    [simpl in *; lia|].
  intros [= <-]. open_ok Hok. simpl. rewrite !app_nth1 by lia. done.
Qed.

Lemma read_payload_len_receive d d' b :
  reader_ok d → read_payload_len d = (d', true) →
  read_payload_len (receive d b) = (receive d' b, true).
Proof.
  intros Hok. unfold read_payload_len. rewrite buf_len_receive.
  change (payload_len (receive d b)) with (payload_len d).
  change (offset (receive d b)) with (offset d).
  destruct (payload_len d =? 126).
  - destruct (Z.ltb_spec (buf_len d - offset d) 2); [done|].
    destruct (Z.ltb_spec (buf_len d + Z.of_nat (length b) - offset d) 2); [lia|].
    intros [= <-]. open_ok Hok. simpl. by rewrite take_drop_receive by lia.
  - destruct (Z.ltb_spec (buf_len d - offset d) 8); [done|].
    destruct (Z.ltb_spec (buf_len d + Z.of_nat (length b) - offset d) 8); [lia|].
    intros [= <-]. open_ok Hok. simpl. by rewrite take_drop_receive by lia.
Qed.

Lemma frame_action_receive d b :
  frame_action (receive d b) = (λ '(d, evs), (receive d b, evs)) <$> frame_action d.
Proof.
  unfold frame_action, handle_control_frame, on_close_frame_received, finish_close_handshake,
    evd_websocket_protocol_close, send_close_frame. simpl.
  repeat (case_match; simplify_eq/=; try done).
Qed.

Lemma read_payload_receive d d' evs b :
  reader_ok d → payload d = Some (d', evs, true) →
  payload (receive d b) = Some (receive d' b, evs, true).
Proof.
  intros Hok. rewrite !read_payload_unfold, buf_len_receive.
  change (payload_len (receive d b)) with (payload_len d).
  change (offset (receive d b)) with (offset d).
  destruct (Z.ltb_spec (buf_len d - offset d) (payload_len d)); [done|].
  destruct (Z.ltb_spec (buf_len d + Z.of_nat (length b) - offset d) (payload_len d)); [lia|].
  assert (unmasked (receive d b) = unmasked d) as Hu.
  { open_ok Hok. unfold unmasked, rest; simpl. by rewrite take_drop_receive by lia. }
  rewrite Hu.
  change (set_frame_data (unmasked d) (receive d b))
    with (receive (set_frame_data (unmasked d) d) b).
  rewrite frame_action_receive.
  destruct (frame_action _) as [[d1 evs1]|] eqn:E; [|done].
  apply frame_action_same in E as (Hb & _ & Ho & Hp & _). simpl in *.
  intros [= <- <-]. unfold consume, receive, set_buf; simpl.
  rewrite drop_app_le; [done|]. open_ok Hok. rewrite Hb, Ho, Hp. lia.
Qed.

Lemma read_masking_key_receive d d' evs b :
  reader_ok d → masking d = Some (d', evs, true) →
  masking (receive d b) = Some (receive d' b, evs, true).
Proof.
  intros Hok. unfold read_masking_key. rewrite buf_len_receive.
  change (offset (receive d b)) with (offset d).
  destruct (Z.ltb_spec (buf_len d - offset d) 4); [done|].
  destruct (Z.ltb_spec (buf_len d + Z.of_nat (length b) - offset d) 4); [lia|].
  match goal with |- context [payload ?x] => set (d1 := x) end.
  assert (reader_ok d1) as Hok1.
  { open_ok Hok. constructor; simpl; try done. unfold buf_len; simpl. lia. }
  assert (take 4 (drop (Z.to_nat (offset d)) (buf (receive d b))) =
          take 4 (drop (Z.to_nat (offset d)) (buf d))) as ->.
  { open_ok Hok. simpl. apply take_drop_receive; lia. }
  simpl. destruct (payload_len d =? 0).
  - intros Hp. apply (read_payload_receive d1 d' evs b Hok1 Hp).
  - by intros [= <- <-].
Qed.

Lemma read_part_receive d d' evs b :
  reader_ok d → part d = Some (d', evs, true) → part (receive d b) = Some (receive d' b, evs, true).
Proof.
  intros Hok. unfold read_part. simpl. destruct (reading_state d) eqn:E.
  - by intros [= <- <-].
  - destruct (read_payload_len d) as [d1 ok] eqn:E1. intros [= <- <- ->].
    by rewrite (read_payload_len_receive d d1 b Hok E1).
  - by intros [= <- <-].
  - by apply read_masking_key_receive.
  - by apply read_payload_receive.
Qed.

Lemma turn_receive d d' evs b :
  reader_ok d → turn d = Some (d', evs, true) → turn (receive d b) = Some (receive d' b, evs, true).
Proof.
  intros Hok. unfold process_turn. simpl. destruct (decide _); [|by apply read_part_receive].
  destruct (read_header d) as [d1 ok] eqn:E. destruct ok; [|done].
  rewrite (read_header_receive d d1 b Hok E).
  apply read_part_receive. by apply (read_header_progress d d1).
Qed.

(** When a turn stops for lack of data, nothing happened but the reading of a header. *)
Lemma read_payload_stops d d' evs :
  payload d = Some (d', evs, false) → d' = d ∧ evs = [] ∧ buf_len d - offset d < payload_len d.
Proof.
  rewrite read_payload_unfold. destruct (Z.ltb_spec (buf_len d - offset d) (payload_len d)).
  - intros [= <- <-]; auto.
  - by destruct (frame_action _) as [[]|].
Qed.

Lemma read_part_stops d d' evs :
  reader_ok d → part d = Some (d', evs, false) → d' = d ∧ evs = [].
Proof.
  intros Hok. unfold read_part. destruct (reading_state d); try done.
  - unfold read_payload_len. repeat (case_match; simplify_eq; try done); intros; by simplify_eq.
  - unfold read_masking_key. destruct (Z.ltb_spec (buf_len d - offset d) 4);
      [intros [= <- <-]; auto|].
    simpl. destruct (Z.eqb_spec (payload_len d) 0); [|done].
    intros (_ & _ & Hlt)%read_payload_stops. unfold buf_len in *; simpl in Hlt. lia.
  - by intros (-> & -> & _)%read_payload_stops.
Qed.

Lemma turn_stops d d' evs :
  reader_ok d → turn d = Some (d', evs, false) →
  evs = [] ∧ reader_ok d' ∧ state d' = state d ∧ turn d' = Some (d', [], false) ∧
  ∀ b, turn (receive d b) = turn (receive d' b).
Proof.
  intros Hok. unfold process_turn at 1. destruct (decide (reading_state d = READING_IDLE)) as [Hi|Hi].
  - destruct (read_header d) as [d1 [|]] eqn:E.
    + destruct (read_header_progress d d1 Hok E) as (Hok1 & Hn & _ & _ & _ & Hst).
      intros Hp. destruct (read_part_stops d1 d' evs Hok1 Hp) as [-> ->].
      split_and!; try done.
      * unfold process_turn. by rewrite decide_False.
      * intros b. unfold process_turn; simpl. rewrite decide_True, decide_False by done.
        by rewrite (read_header_receive d d1 b Hok E).
    + intros [= <- <-]. unfold read_header in E. destruct (_ <? _) eqn:El; [|done].
      injection E as <-. split_and!; try done.
      unfold process_turn, read_header. rewrite decide_True by done. by rewrite El.
  - intros Hp. destruct (read_part_stops d d' evs Hok Hp) as [-> ->].
    split_and!; try done. unfold process_turn. by rewrite decide_False.
Qed.

(** A crash does not depend on later data either. *)
Lemma read_payload_crash_receive d b : reader_ok d → payload d = None → payload (receive d b) = None.
Proof.
  intros Hok. rewrite !read_payload_unfold, buf_len_receive.
  change (payload_len (receive d b)) with (payload_len d).
  change (offset (receive d b)) with (offset d).
  destruct (Z.ltb_spec (buf_len d - offset d) (payload_len d)); [done|].
  destruct (Z.ltb_spec (buf_len d + Z.of_nat (length b) - offset d) (payload_len d)); [lia|].
  assert (unmasked (receive d b) = unmasked d) as ->.
  { open_ok Hok. unfold unmasked, rest; simpl. by rewrite take_drop_receive by lia. }
  change (set_frame_data (unmasked d) (receive d b))
    with (receive (set_frame_data (unmasked d) d) b).
  rewrite frame_action_receive. by destruct (frame_action _) as [[]|].
Qed.

Lemma read_part_crash_receive d b : reader_ok d → part d = None → part (receive d b) = None.
Proof.
  intros Hok. unfold read_part. simpl. destruct (reading_state d) eqn:E; try done.
  - by destruct (read_payload_len d).
  - unfold read_masking_key. rewrite buf_len_receive.
    change (offset (receive d b)) with (offset d).
    destruct (Z.ltb_spec (buf_len d - offset d) 4); [done|].
    destruct (Z.ltb_spec (buf_len d + Z.of_nat (length b) - offset d) 4); [lia|].
    match goal with |- context [payload ?x] => set (d1 := x) end.
    assert (reader_ok d1) as Hok1.
    { open_ok Hok. constructor; simpl; try done. unfold buf_len; simpl. lia. }
    assert (take 4 (drop (Z.to_nat (offset d)) (buf (receive d b))) =
            take 4 (drop (Z.to_nat (offset d)) (buf d))) as ->.
    { open_ok Hok. simpl. apply take_drop_receive; lia. }
    simpl. destruct (payload_len d =? 0); [|done].
    apply (read_payload_crash_receive d1 b Hok1).
  - by apply read_payload_crash_receive.
Qed.

Lemma turn_crash_receive d b : reader_ok d → turn d = None → turn (receive d b) = None.
Proof.
  intros Hok. unfold process_turn. simpl. destruct (decide _); [|by apply read_part_crash_receive].
  destruct (read_header d) as [d1 [|]] eqn:E; [|done].
  rewrite (read_header_receive d d1 b Hok E).
  apply read_part_crash_receive. by apply (read_header_progress d d1).
Qed.

Lemma add_events_app e1 e2 r : add_events e1 (add_events e2 r) = add_events (e1 ++ e2) r.
Proof. destruct r; simpl; by rewrite ?app_assoc. Qed.
Lemma add_events_nil r : add_events [] r = r.
Proof. by destruct r. Qed.

(** What the loop does with the bytes [b] that arrive after it has stopped. *)
Definition resume (r : loop_result) (b : list Z) : loop_result :=
  match r with
  | Done d evs true => add_events evs (process (receive d b))
  | Done d evs false => Done (receive d b) evs false
  | _ => r
  end.

Lemma resume_add_events evs r b : resume (add_events evs r) b = add_events evs (resume r b).
Proof. destruct r as [| |d evs' []]; simpl; by rewrite ?add_events_app. Qed.

Lemma loop_continues_receive d b : loop_continues d = true → loop_continues (receive d b) = true.
Proof.
  unfold loop_continues. rewrite buf_len_receive. simpl.
  destruct (Z.ltb_spec (offset d) (buf_len d)); [|done].
  destruct (Z.ltb_spec (offset d) (buf_len d + Z.of_nat (length b))); [done|lia].
Qed.

(** Reading in two portions is reading at once. *)
Lemma process_receive n d b :
  (process_fuel d <= n)%nat → reader_ok d → bytes_ok b →
  process (receive d b) = resume (process d) b.
Proof.
  revert d. induction n as [n IH] using lt_wf_ind. intros d Hn Hok Hb.
  rewrite (process_unfold d Hok). destruct (loop_continues d) eqn:Hc.
  2:{ simpl. destruct (bool_decide_reflect (state d = STATE_CLOSED)) as [Hs|Hs]; simpl.
      - rewrite process_unfold by by apply receive_ok. unfold loop_continues; simpl.
        rewrite bool_decide_true by done. by rewrite andb_false_r.
      - by rewrite add_events_nil. }
  destruct (decide (b = [])) as [->|Hne].
  { rewrite receive_nil. rewrite (process_unfold d Hok) at 1. rewrite Hc.
    destruct (turn d) as [[[d' evs] [|]]|] eqn:E; [| |done].
    - destruct (turn_progress d d' evs Hok E) as [Hok' Hlt].
      rewrite resume_add_events, <-(IH (process_fuel d')); [|lia..|done|done].
      by rewrite receive_nil.
    - destruct (turn_stops d d' evs Hok E) as (-> & Hok' & Hst & Ht & _). simpl.
      rewrite receive_nil, add_events_nil, (process_unfold d' Hok').
      destruct (loop_continues d') eqn:Hc'; [by rewrite Ht|].
      unfold loop_continues in Hc. rewrite Hst.
      destruct (bool_decide_reflect (state d = STATE_CLOSED)); [by rewrite andb_false_r in Hc|done]. }
  rewrite (process_unfold (receive d b)) by by apply receive_ok.
  rewrite (loop_continues_receive d b Hc).
  destruct (turn d) as [[[d' evs] [|]]|] eqn:E.
  - destruct (turn_progress d d' evs Hok E) as [Hok' Hlt].
    rewrite (turn_receive d d' evs b Hok E), resume_add_events. f_equal.
    apply (IH (process_fuel d')); [lia..|done|done].
  - destruct (turn_stops d d' evs Hok E) as (-> & Hok' & Hst & _ & Hr). simpl.
    rewrite add_events_nil, (process_unfold (receive d' b)) by by apply receive_ok.
    assert (loop_continues (receive d' b) = true) as ->.
    { unfold loop_continues in *. rewrite buf_len_receive. simpl. rewrite Hst.
      destruct Hok' as [Ho _ _ _].
      destruct (Z.ltb_spec (offset d') (buf_len d' + Z.of_nat (length b))).
      - by destruct (offset d <? buf_len d).
      - destruct b; [done|simpl in *; lia]. }
    by rewrite Hr.
  - by rewrite (turn_crash_receive d b Hok E).
Qed.

Lemma loop_terminates f d : reader_ok d → (process_fuel d <= f)%nat → loop f d ≠ NoFuel.
Proof.
  revert d. induction f as [|f IH]; intros d Hok Hf; cbn [process_loop].
  - destruct (loop_continues d) eqn:Hc; [|done]. unfold loop_continues in Hc.
    destruct (Z.ltb_spec (offset d) (buf_len d)); [|done]. unfold process_fuel in Hf. lia.
  - destruct (loop_continues d); [|done].
    destruct (turn d) as [[[d' evs] [|]]|] eqn:E; [|done..].
    destruct (turn_progress d d' evs Hok E) as [Hok' Hlt].
    specialize (IH d' Hok' ltac:(lia)). by destruct (loop f d').
Qed.

(** ** The frame writer, read back *)

Definition len7 (n : Z) : Z := if n <=? 125 then n else if n <? 65535 then 126 else 127.

Definition header_of (fin : bool) (opcode : Z) (masked : bool) (l : Z) : Z :=
  Z.lor (Z.lor (u16 (Z.lor (if fin then HEADER_MASK_FIN else 0) (Z.shiftl opcode 8)))
           (if masked then HEADER_MASK_MASKED else 0)) l.

Definition extended (n : Z) : list Z :=
  if n <=? 125 then [] else if n <? 65535 then reverse (le_bytes 2 n) else reverse (le_bytes 8 n).

Definition mask_part (masked : bool) (key : list Z) : list Z := if masked then key else [].
Definition masked_payload (masked : bool) (key payload : list Z) : list Z :=
  if masked then apply_masking payload key else payload.

Lemma build_frame_layout fin op masked payload rnd :
  Z.of_nat (length payload) < 256 ^ 8 →
  let n := Z.of_nat (length payload) in
  let h := header_of fin op masked (len7 n) in
  let key := le_bytes 4 (u32 rnd) in
  build_frame [] fin op masked payload rnd =
    Z.shiftr (Z.land h 65280) 8 :: Z.land h 255 ::
    extended n ++ mask_part masked key ++ masked_payload masked key payload.
Proof.
  intros Hn n h key. subst n h key. unfold build_frame, header_of, len7, extended.
  set (n := Z.of_nat (length payload)) in *.
  assert (∀ l, GUINT16_FROM_BE l = swap_bytes 2 l) as E16 by done.
  assert (∀ l, GUINT64_FROM_BE l = swap_bytes 8 l) as E64 by done.
  destruct (Z.leb_spec n 125).
  - replace (u16 n) with n by (symmetry; apply Z.mod_small; lia). by destruct masked.
  - destruct (Z.ltb_spec n 65535).
    + rewrite E16, le_bytes_take, le_bytes_swap by lia.
      replace (u16 n) with n by (symmetry; apply Z.mod_small; lia). by destruct masked.
    + rewrite E64, le_bytes_take, le_bytes_swap by lia.
      replace (u64 n) with n by (symmetry; apply Z.mod_small; lia). by destruct masked.
Qed.

(** The decoding of the two header bytes, checked on all their values. *)
Definition header_decodes (fin : bool) (op : Z) (masked : bool) (l : Z) : bool :=
  let h := header_of fin op masked l in
  let h' := u16 (Z.shiftl (Z.shiftr (Z.land h 65280) 8) 8 + Z.land h 255) in
  Bool.eqb (negb (Z.land h' HEADER_MASK_FIN =? 0)) fin &&
  (u8 (Z.shiftr (Z.land h' HEADER_MASK_OPCODE) 8) =? op) &&
  Bool.eqb (negb (Z.land h' HEADER_MASK_MASKED =? 0)) masked &&
  (Z.land h' HEADER_MASK_PAYLOAD_LEN =? l).

Lemma header_decodes_all fin op masked l :
  0 <= op < 16 → 0 <= l < 128 → header_decodes fin op masked l = true.
Proof.
  intros Ho Hl.
  assert (forallb (λ f, forallb (λ m, forallb (λ o, forallb (λ x, header_decodes f o m x)
            (seqZ 0 128)) (seqZ 0 16)) [true; false]) [true; false] = true) as H
    by (vm_compute; reflexivity).
  rewrite forallb_forall in H. specialize (H fin ltac:(destruct fin; simpl; auto)).
  rewrite forallb_forall in H. specialize (H masked ltac:(destruct masked; simpl; auto)).
  rewrite forallb_forall in H.
  specialize (H op ltac:(apply list_elem_of_In, elem_of_seqZ; lia)).
  rewrite forallb_forall in H.
  apply H, list_elem_of_In, elem_of_seqZ. lia.
Qed.

Lemma apply_masking_involutive payload key :
  apply_masking (apply_masking payload key) key = payload.
Proof.
  unfold apply_masking. apply list_eq. intros i. rewrite !list_lookup_imap.
  destruct (payload !! i) as [b|]; simpl; [|done].
  by rewrite Z.lxor_assoc, Z.lxor_nilpotent, Z.lxor_0_r.
Qed.

Lemma length_apply_masking p key : length (apply_masking p key) = length p.
Proof. apply length_imap. Qed.

Lemma unmask_masked (m : bool) (key payload : list Z) :
  (if m then apply_masking (masked_payload m key payload) key else masked_payload m key payload)
    = payload.
Proof. destruct m; simpl; [apply apply_masking_involutive|done]. Qed.

(** The connection-level fields, which reading a data frame leaves alone. *)
Definition same_conn (d d' : EvdWebsocketData) : Prop :=
  server d' = server d ∧ frame_cb d' = frame_cb d ∧ close_cb d' = close_cb d ∧
  state d' = state d ∧ close_frame_sent d' = close_frame_sent d ∧
  close_frame_received d' = close_frame_received d ∧ close_code d' = close_code d ∧
  close_timeout d' = close_timeout d ∧ n_random d' = n_random d ∧ n_writes d' = n_writes d.

(** Between two frames, with [b] received and not yet read. *)
Definition idle_with (d : EvdWebsocketData) (b : list Z) : Prop :=
  reading_state d = READING_IDLE ∧ offset d = 0 ∧ buf d = b ∧ 0 <= payload_len d.

Lemma idle_reader_ok d b : idle_with d b → bytes_ok b → reader_ok d.
Proof.
  intros (Hr & Ho & Hb & Hp) Hok. constructor; try done; [|by rewrite Hb|by rewrite Hr].
  unfold buf_len. rewrite Ho. lia.
Qed.

(** The continuation of the loop after a turn. *)
Definition continue (o : option (EvdWebsocketData * list event * bool)) : loop_result :=
  match o with
  | None => Crash
  | Some (d, evs, false) => Done d evs true
  | Some (d, evs, true) => add_events evs (process d)
  end.

Lemma continues_rest d :
  reader_ok d → state d ≠ STATE_CLOSED → rest d ≠ [] → loop_continues d = true.
Proof.
  intros Hok Hs Hr. unfold loop_continues. rewrite bool_decide_false by done.
  pose proof (length_rest d Hok). destruct (rest d); [done|]. simpl in *.
  destruct (Z.ltb_spec (offset d) (buf_len d)); [done|lia].
Qed.

Lemma process_part d :
  reader_ok d → state d ≠ STATE_CLOSED → rest d ≠ [] → reading_state d ≠ READING_IDLE →
  process d = continue (part d).
Proof.
  intros Hok Hs Hr Hi. rewrite process_unfold by done.
  rewrite continues_rest by done. unfold process_turn. by rewrite decide_False.
Qed.

Lemma rest_advance d n a d' :
  0 <= offset d → 0 <= n → buf d' = buf d → offset d' = offset d + n → a = drop (Z.to_nat n) (rest d) →
  rest d' = a.
Proof.
  intros Ho Hn Hb Ho' ->. unfold rest. rewrite Hb, Ho', drop_drop. f_equal. lia.
Qed.

Lemma rest_cons_ok d l1 l2 : reader_ok d → rest d = l1 ++ l2 →
  Z.of_nat (length l1) <= buf_len d - offset d.
Proof. intros Hok E. rewrite <-(length_rest d Hok), E, length_app. lia. Qed.

(** The state after the extended length, the masking key and the header have been read. *)
Definition after_len (n k : Z) (d : EvdWebsocketData) : EvdWebsocketData :=
  set_reading_state (if masked d then READING_MASKING_KEY else READING_PAYLOAD)
    (set_payload_len n (set_buf (buf d) (buf_alloc d) (offset d + k) d)).
Definition after_key (key : list Z) (d : EvdWebsocketData) : EvdWebsocketData :=
  set_reading_state READING_PAYLOAD
    (set_buf (buf d) (buf_alloc d) (offset d + 4) (set_masking_key key d)).
Definition after_header (f : bool) (op : Z) (m : bool) (l : Z) (d : EvdWebsocketData)
  : EvdWebsocketData :=
  set_reading_state
    (if 125 <? l then READING_PAYLOAD_LEN else if m then READING_MASKING_KEY else READING_PAYLOAD)
    (set_header f op m l (set_buf (buf d) (buf_alloc d) (offset d + 2) d)).

Lemma stage_len d n r :
  reader_ok d → reading_state d = READING_PAYLOAD_LEN → payload_len d = len7 n →
  125 < n < 256 ^ 8 → rest d = extended n ++ r →
  part d = Some (after_len n (Z.of_nat (length (extended n))) d, [], true).
Proof.
  intros Hok Hr Hp Hn He. unfold read_part, read_payload_len. rewrite Hr, Hp.
  pose proof (rest_cons_ok d _ _ Hok He) as Hlen.
  unfold rest in He. rewrite He. unfold len7, extended in *.
  destruct (Z.leb_spec n 125); [lia|]. destruct (Z.ltb_spec n 65535).
  - rewrite length_reverse, length_le_bytes in *. change (126 =? 126) with true. cbv iota.
    destruct (Z.ltb_spec (buf_len d - offset d) 2); [lia|].
    rewrite take_app_le by (rewrite length_reverse, length_le_bytes; lia).
    rewrite take_ge by (rewrite length_reverse, length_le_bytes; lia).
    unfold GUINT16_FROM_BE. by rewrite swap_bytes_reverse by lia.
  - rewrite length_reverse, length_le_bytes in *. change (127 =? 126) with false. cbv iota.
    destruct (Z.ltb_spec (buf_len d - offset d) 8); [lia|].
    rewrite take_app_le by (rewrite length_reverse, length_le_bytes; lia).
    rewrite take_ge by (rewrite length_reverse, length_le_bytes; lia).
    unfold GUINT64_FROM_BE. by rewrite swap_bytes_reverse by lia.
Qed.

Lemma stage_key d key r :
  reader_ok d → reading_state d = READING_MASKING_KEY → state d ≠ STATE_CLOSED →
  rest d = key ++ r → length key = 4%nat → (payload_len d ≠ 0 → r ≠ []) →
  continue (part d) = continue (payload (after_key key d)).
Proof.
  intros Hok Hr Hs Hk Hl Hne. unfold read_part, read_masking_key. rewrite Hr.
  pose proof (rest_cons_ok d _ _ Hok Hk) as Hlen.
  destruct (Z.ltb_spec (buf_len d - offset d) 4); [lia|].
  pose proof Hk as Hk'. unfold rest in Hk'. rewrite Hk'.
  rewrite take_app_le by lia. rewrite take_ge by lia. simpl.
  fold (after_key key d). destruct (Z.eqb_spec (payload_len d) 0); [done|].
  cbn [continue]. rewrite add_events_nil.
  assert (reader_ok (after_key key d)).
  { open_ok Hok. constructor; simpl; try done. unfold buf_len; simpl. lia. }
  rewrite process_part; [done|done|done| |done].
  rewrite (rest_advance d 4 r); [auto|apply Hok|lia|done|done|].
  rewrite Hk. by rewrite drop_app_length'.
Qed.

(** What the loop does with a complete frame, then with the bytes that follow it. *)
Definition finish (d : EvdWebsocketData) : loop_result :=
  match frame_action d with
  | None => Crash
  | Some (d', evs) => add_events evs (process (consume d'))
  end.

Lemma stage_payload d mp r :
  reader_ok d → rest d = mp ++ r → Z.of_nat (length mp) = payload_len d →
  continue (payload d) =
    finish (set_frame_data (if masked d then apply_masking mp (masking_key d) else mp) d).
Proof.
  intros Hok Hr Hl. rewrite read_payload_unfold.
  pose proof (rest_cons_ok d _ _ Hok Hr).
  destruct (Z.ltb_spec (buf_len d - offset d) (payload_len d)); [lia|].
  unfold unmasked. rewrite Hr, <-Hl, Nat2Z.id, take_app_length. unfold finish, continue.
  by destruct (frame_action _) as [[]|].
Qed.

(** The fields a frame's payload stage inherits from the stages before it. *)
Definition same_frame (d d' : EvdWebsocketData) : Prop :=
  same_conn d d' ∧ opcode d' = opcode d ∧ fin d' = fin d ∧ buf d' = buf d.

Lemma stage_tail d (m : bool) (key pl r : list Z) :
  reader_ok d → state d ≠ STATE_CLOSED →
  reading_state d = (if m then READING_MASKING_KEY else READING_PAYLOAD) → masked d = m →
  payload_len d = Z.of_nat (length pl) → length key = 4%nat →
  rest d = mask_part m key ++ masked_payload m key pl ++ r →
  ∃ d', continue (part d) = finish (set_frame_data pl d') ∧ same_frame d d' ∧
    payload_len d' = payload_len d ∧ rest d' = masked_payload m key pl ++ r ∧ 0 <= offset d'.
Proof.
  intros Hok Hs Hr Hm Hp Hl Hrest. destruct m; cbn [mask_part masked_payload] in Hrest.
  - assert (rest (after_key key d) = apply_masking pl key ++ r) as Hr'.
    { eapply (rest_advance d 4); [apply Hok|lia|done|done|].
      rewrite Hrest. by rewrite drop_app_length'. }
    assert (reader_ok (after_key key d)) as Hok'.
    { pose proof (rest_cons_ok d _ _ Hok Hrest). open_ok Hok.
      constructor; simpl; try done. unfold buf_len; simpl. lia. }
    exists (after_key key d); split_and!; try done; [|apply Hok'].
    rewrite (stage_key d key _ Hok Hr Hs Hrest Hl).
    + rewrite (stage_payload _ (apply_masking pl key) r Hok' Hr').
      * simpl. rewrite Hm. by rewrite apply_masking_involutive.
      * simpl. by rewrite length_apply_masking.
    + rewrite Hp. intros Hne Hnil. apply app_eq_nil in Hnil as [Hnil _].
      apply (f_equal length) in Hnil. rewrite length_apply_masking in Hnil. simpl in Hnil. lia.
  - exists d; split_and!; try done; [|apply Hok]. unfold read_part. rewrite Hr.
    rewrite (stage_payload d pl r Hok Hrest) by done. by rewrite Hm.
Qed.

Lemma stage_header d f op m l r :
  let h := header_of f op m l in
  idle_with d (Z.shiftr (Z.land h 65280) 8 :: Z.land h 255 :: r) → bytes_ok (buf d) →
  state d ≠ STATE_CLOSED → 0 <= op < 16 → 0 <= l < 128 →
  process d = continue (part (after_header f op m l d)) ∧ reader_ok (after_header f op m l d) ∧
  rest (after_header f op m l d) = r.
Proof.
  intros h Hi Hb Hs Hop Hl. pose proof (idle_reader_ok _ _ Hi ltac:(by destruct Hi as (_&_&<-&_))) as Hok.
  pose proof (header_decodes_all f op m l Hop Hl) as Hd. unfold header_decodes in Hd. fold h in Hd.
  apply andb_prop in Hd as [Hd H4%Z.eqb_eq]. apply andb_prop in Hd as [Hd H3%eqb_prop].
  apply andb_prop in Hd as [H1%eqb_prop H2%Z.eqb_eq].
  destruct Hi as (Hri & Ho & Hbuf & Hp).
  assert (rest (after_header f op m l d) = r) as Hrest by (unfold rest; simpl; by rewrite Ho, Hbuf).
  split_and!; [|constructor; simpl; try done|done].
  - rewrite process_unfold, continues_rest by (done || (unfold rest; by rewrite Ho, Hbuf)).
    unfold process_turn. rewrite decide_True by done. unfold read_header.
    assert ((buf_len d - offset d <? 2) = false) as ->.
    { apply Z.ltb_ge. unfold buf_len. rewrite Ho, Hbuf. simpl. lia. }
    rewrite Ho, Hbuf. change (Z.to_nat 0) with 0%nat. cbn [Nat.add nth]. rewrite H1, H2, H3, H4. simpl.
    unfold after_header. by rewrite Ho, Hbuf.
  - unfold buf_len; simpl. rewrite Ho, Hbuf. simpl. lia.
  - lia.
  - repeat case_match; done.
Qed.

Lemma len7_range n : 0 <= n → 0 <= len7 n < 128.
Proof. unfold len7. destruct (Z.leb_spec n 125), (Z.ltb_spec n 65535); lia. Qed.

Lemma long_extended n : 125 < n → 2 <= Z.of_nat (length (extended n)).
Proof.
  intros. unfold extended. destruct (Z.leb_spec n 125); [lia|].
  destruct (n <? 65535); rewrite length_reverse, length_le_bytes; lia.
Qed.

(** From the header to the masking key or the payload: the extended length, if there is one. *)
Lemma stage_extended d f op m (key pl r : list Z) :
  let n := Z.of_nat (length pl) in
  let d1 := after_header f op m (len7 n) d in
  reader_ok d1 → state d1 ≠ STATE_CLOSED → n < 256 ^ 8 →
  rest d1 = extended n ++ mask_part m key ++ masked_payload m key pl ++ r →
  ∃ d2, continue (part d1) = continue (part d2) ∧ reader_ok d2 ∧ same_frame d1 d2 ∧
    reading_state d2 = (if m then READING_MASKING_KEY else READING_PAYLOAD) ∧ masked d2 = m ∧
    payload_len d2 = n ∧ rest d2 = mask_part m key ++ masked_payload m key pl ++ r.
Proof.
  intros n d1 Hok Hs Hn Hr1. destruct (Z.leb_spec n 125) as [Hle|Hle].
  { exists d1; split_and!; try done.
    - simpl. unfold len7. destruct (Z.leb_spec n 125); [|lia]. by destruct (Z.ltb_spec 125 n); [lia|].
    - simpl. unfold len7. by destruct (Z.leb_spec n 125); [|lia].
    - rewrite Hr1. unfold extended. by destruct (Z.leb_spec n 125); [|lia]. }
  assert (reading_state d1 = READING_PAYLOAD_LEN) as Hlen1.
  { simpl. unfold len7. destruct (Z.leb_spec n 125); [lia|]. by destruct (n <? 65535). }
  pose proof (long_extended n Hle) as Hk. set (k := Z.of_nat (length (extended n))) in *.
  assert (reader_ok (after_len n k d1)) as Hok2.
  { pose proof (rest_cons_ok d1 _ _ Hok Hr1). open_ok Hok. constructor; try done.
    - unfold buf_len in *; simpl in *. subst k. lia.
    - simpl. lia.
    - simpl. by destruct m. }
  assert (rest (after_len n k d1) = mask_part m key ++ masked_payload m key pl ++ r) as Hr2.
  { eapply (rest_advance d1 k); [apply Hok|lia|done|done|].
    rewrite Hr1. subst k. by rewrite Nat2Z.id, drop_app_length. }
  exists (after_len n k d1); split_and!; try done.
  rewrite (stage_len d1 n _ Hok Hlen1 eq_refl ltac:(lia) Hr1).
  cbn [continue]. rewrite add_events_nil. fold k. apply process_part; try done.
  - rewrite Hr2. intros [_ [Hnil _]%app_eq_nil]%app_eq_nil.
    apply (f_equal length) in Hnil. destruct m; simpl in Hnil;
      rewrite ?length_apply_masking in Hnil; subst n; lia.
  - simpl. by destruct m.
Qed.

Lemma read_frame d (f : bool) op (m : bool) (pl : list Z) rnd r :
  idle_with d (build_frame [] f op m pl rnd ++ r) → bytes_ok (buf d) → state d ≠ STATE_CLOSED →
  0 <= op < 16 → Z.of_nat (length pl) < 256 ^ 8 →
  ∃ d', process d = finish d' ∧ same_conn d d' ∧ opcode d' = op ∧ fin d' = f ∧
    frame_data d' = pl ∧ idle_with (consume d') r.
Proof.
  intros Hi Hb Hs Hop Hn. rewrite build_frame_layout in Hi by done.
  set (n := Z.of_nat (length pl)) in *. set (key := le_bytes 4 (u32 rnd)) in *.
  assert (0 <= n) by (subst n; lia). assert (length key = 4%nat) by apply length_le_bytes.
  rewrite <-!app_comm_cons, <-!app_assoc in Hi.
  destruct (stage_header d f op m (len7 n) _ Hi Hb Hs Hop (len7_range n ltac:(lia)))
    as (-> & Hok1 & Hrest1).
  destruct (stage_extended d f op m key pl r Hok1 Hs Hn Hrest1)
    as (d2 & Hcont & Hok2 & Hsame2 & Hr2 & Hm2 & Hp2 & Hrest2).
  fold n in Hcont, Hp2. rewrite Hcont.
  destruct (stage_tail d2 m key pl r) as (d3 & -> & Hsame3 & Hp3 & Hrest3 & Ho3); try done.
  { by destruct Hsame2 as [(_&_&_&->&_) _]. }
  destruct Hsame2 as (Hc2 & Hop2 & Hf2 & _), Hsame3 as (Hc3 & Hop3 & Hf3 & _).
  exists (set_frame_data pl d3); split_and!; simpl; try done.
  - unfold same_conn in *; simpl in *; intuition congruence.
  - by rewrite Hop3, Hop2.
  - by rewrite Hf3, Hf2.
  - unfold idle_with; simpl. rewrite Hp3, Hp2. split_and!; [done..| |done].
    unfold rest in Hrest3.
    replace (Z.to_nat (offset d3 + n)) with (Z.to_nat (offset d3) + Z.to_nat n)%nat by lia.
    rewrite <-drop_drop, Hrest3, drop_app_length'; [done|].
    destruct m; simpl; rewrite ?length_apply_masking; subst n; lia.
Qed.

(** ** Well-formed bytes on the wire *)

Lemma lxor_byte a b : byte_ok a → byte_ok b → byte_ok (Z.lxor a b).
Proof.
  unfold byte_ok. intros Ha Hb. split; [apply Z.lxor_nonneg; lia|].
  destruct (decide (Z.lxor a b = 0)) as [->|Hne]; [lia|].
  assert (0 <= Z.lxor a b) by (apply Z.lxor_nonneg; lia).
  apply (Z.log2_lt_pow2 _ 8); [lia|].
  eapply Z.le_lt_trans; [apply Z.log2_lxor; lia|].
  assert (∀ x, 0 <= x < 256 → Z.log2 x < 8) as Hlog; [|by apply Z.max_lub_lt; apply Hlog].
  intros x Hx. destruct (decide (x = 0)) as [->|]; [done|]. apply Z.log2_lt_pow2; lia.
Qed.

Lemma apply_masking_ok pl key : bytes_ok pl → bytes_ok key → bytes_ok (apply_masking pl key).
Proof.
  intros Hp Hk. apply Forall_lookup. intros i x. unfold apply_masking.
  rewrite list_lookup_imap. intros (b & Hb & ->)%fmap_Some.
  apply lxor_byte; [exact (Forall_lookup_1 _ _ _ _ Hp Hb)|].
  destruct (nth_in_or_default (i mod 4) key 0) as [Hin| ->]; [|done].
  eapply Forall_forall; [done|]. by apply list_elem_of_In.
Qed.

Lemma header_bytes_ok h : byte_ok (Z.shiftr (Z.land h 65280) 8) ∧ byte_ok (Z.land h 255).
Proof.
  assert (Z.land h 255 = h mod 256) as -> by (apply (Z.land_ones h 8); lia).
  rewrite Z.shiftr_land. change (Z.shiftr 65280 8) with (Z.ones 8).
  rewrite Z.land_ones by lia. split; apply Z.mod_pos_bound; lia.
Qed.

Lemma build_frame_ok f op m pl rnd :
  bytes_ok pl → Z.of_nat (length pl) < 256 ^ 8 → bytes_ok (build_frame [] f op m pl rnd).
Proof.
  intros Hp Hn. rewrite build_frame_layout by done.
  destruct (header_bytes_ok (header_of f op m (len7 (Z.of_nat (length pl))))) as [H1 H2].
  do 2 (constructor; [done|]). apply Forall_app; split; [|apply Forall_app; split].
  - unfold extended. repeat case_match; try apply Forall_reverse, le_bytes_ok. constructor.
  - destruct m; [apply le_bytes_ok|constructor].
  - destruct m; [|done]. by apply apply_masking_ok, le_bytes_ok.
Qed.

(** ** Messages *)

Definition wire (evs : list event) : list Z :=
  evs ≫= λ e, match e with StreamWrite b => b | _ => [] end.

Definition message_opcode (t : EvdMessageType) : Z :=
  match t with MESSAGE_TYPE_TEXT => OPCODE_TEXT_FRAME | MESSAGE_TYPE_BINARY => OPCODE_BINARY_FRAME end.

Definition is_binary (t : EvdMessageType) : bool :=
  match t with MESSAGE_TYPE_TEXT => false | MESSAGE_TYPE_BINARY => true end.

Definition open_receiver (d : EvdWebsocketData) : Prop :=
  frame_cb d = true ∧ state d ≠ STATE_CLOSED.

Lemma open_receiver_same d d' : same_conn d d' → open_receiver d → open_receiver d'.
Proof. unfold open_receiver. by intros (_ & -> & _ & -> & _). Qed.

Lemma same_conn_trans d1 d2 d3 : same_conn d1 d2 → same_conn d2 d3 → same_conn d1 d3.
Proof. unfold same_conn; intuition congruence. Qed.

Lemma read_data_frame d t m pl rnd r :
  idle_with d (build_frame [] true (message_opcode t) m pl rnd ++ r) → bytes_ok (buf d) →
  open_receiver d → Z.of_nat (length pl) < 256 ^ 8 →
  ∃ d', process d = add_events [FrameCb pl (is_binary t)] (process d') ∧ same_conn d d' ∧
    idle_with d' r.
Proof.
  intros Hi Hb [Hcb Hs] Hn.
  destruct (read_frame d true (message_opcode t) m pl rnd r Hi Hb Hs) as
    (d1 & -> & Hc & Hop & Hf & Hd & Hidle); [by destruct t|done|].
  exists (consume d1); split_and!; [|done|done].
  unfold finish, frame_action. rewrite Hop, Hf, Hd.
  replace (frame_cb d1) with true by (symmetry; by destruct Hc as (_ & -> & _)). by destruct t.
Qed.

(** What [send_data_frame] writes for a message that fits in one fragment. *)
Lemma send_data_frame_single d msg t :
  msg ≠ [] → Z.of_nat (length msg) <= MAX_FRAGMENT_SIZE →
  send_data_frame g_random_int write_result d msg t =
    Some (count_write (negb (server d)) d,
          [StreamWrite (build_frame [] true (message_opcode t) (negb (server d)) msg
                          (g_random_int (n_random d)))], true).
Proof.
  intros Hne Hl. unfold send_data_frame. destruct (length msg) as [|n] eqn:E.
  { by apply nil_length_inv in E. }
  cbn [send_fragments]. rewrite E, Z.sub_0_r.
  destruct (Z.leb_spec (Z.of_nat (S n)) 0); [lia|]. rewrite Z.min_r by lia.
  rewrite Z.leb_refl. rewrite drop_0, Nat2Z.id, take_ge by lia.
  assert ((Z.b2z (write_result (n_writes d) =? 0) <? 0) = false) as ->
    by (by destruct (write_result (n_writes d) =? 0)).
  assert (∀ f d', send_fragments g_random_int write_result f d' msg (0 + Z.of_nat (S n)) t =
            Some (d', [], true)) as ->; [|by destruct t].
  intros f d'. destruct f; cbn [send_fragments]; rewrite E;
    destruct (Z.leb_spec (Z.of_nat (S n) - (0 + Z.of_nat (S n))) 0); by lia || done.
Qed.

(** ** Sending *)

Lemma send_fragments_total fuel d frame sent t :
  0 <= sent → Z.of_nat (length frame) - sent <= Z.of_nat fuel →
  ∃ d' evs, send_fragments g_random_int write_result fuel d frame sent t = Some (d', evs, true).
Proof.
  revert d sent. induction fuel as [|fuel IH]; intros d sent Hs Hf; cbn [send_fragments].
  - destruct (Z.leb_spec (Z.of_nat (length frame) - sent) 0); [eauto|lia].
  - destruct (Z.leb_spec (Z.of_nat (length frame) - sent) 0); [eauto|].
    assert ((Z.b2z (write_result (n_writes d) =? 0) <? 0) = false) as ->
      by (by destruct (write_result (n_writes d) =? 0)).
    edestruct (IH (count_write (negb (server d)) d)
                 (sent + Z.min MAX_FRAGMENT_SIZE (Z.of_nat (length frame) - sent)))
      as (d' & evs & ->); [unfold MAX_FRAGMENT_SIZE; lia..|]. simpl. eauto.
Qed.

Lemma send_data_frame_total d msg t :
  ∃ d' evs, send_data_frame g_random_int write_result d msg t = Some (d', evs, true).
Proof. apply send_fragments_total; lia. Qed.

(** A message longer than a fragment starts with a frame that is not final. *)
Lemma send_data_frame_fragmented d msg t :
  MAX_FRAGMENT_SIZE < Z.of_nat (length msg) →
  ∃ d' evs, send_data_frame g_random_int write_result d msg t =
    Some (d', StreamWrite (build_frame [] false (message_opcode t) (negb (server d))
                (take (Z.to_nat MAX_FRAGMENT_SIZE) msg) (g_random_int (n_random d))) :: evs, true).
Proof.
  intros Hl. unfold send_data_frame. assert (0 < MAX_FRAGMENT_SIZE) by done.
  destruct (length msg) as [|n] eqn:E; [lia|].
  cbn [send_fragments]. rewrite E, Z.sub_0_r.
  destruct (Z.leb_spec (Z.of_nat (S n)) 0); [lia|]. rewrite Z.min_l by lia.
  destruct (Z.leb_spec (Z.of_nat (S n)) MAX_FRAGMENT_SIZE); [lia|].
  assert ((Z.b2z (write_result (n_writes d) =? 0) <? 0) = false) as ->
    by (by destruct (write_result (n_writes d) =? 0)).
  edestruct (send_fragments_total n (count_write (negb (server d)) d) msg (0 + MAX_FRAGMENT_SIZE) t)
    as (d' & evs & ->); [lia..|]. run_bind.
  change (Z.to_nat 0) with 0%nat. rewrite drop_0. exists d', evs. by destruct t.
Qed.

Fixpoint send_all (d : EvdWebsocketData) (msgs : list (list Z * EvdMessageType))
  : option (EvdWebsocketData * list event) :=
  match msgs with
  | [] => Some (d, [])
  | (msg, t) :: msgs =>
      '(d, evs, ok) ← evd_websocket_protocol_send g_random_int write_result d msg t;
      if (ok : bool) then '(d, evs') ← send_all d msgs; Some (d, evs ++ evs') else None
  end.

Definition sendable (m : list Z * EvdMessageType) : Prop :=
  m.1 ≠ [] ∧ Z.of_nat (length m.1) <= MAX_FRAGMENT_SIZE ∧ bytes_ok m.1.

Definition frame_events (msgs : list (list Z * EvdMessageType)) : list event :=
  (λ '(m, t), FrameCb m (is_binary t)) <$> msgs.

(** A message as one frame, masked or not. *)
Definition framed (m : list Z * EvdMessageType) (f : list Z) : Prop :=
  ∃ masked rnd, f = build_frame [] true (message_opcode m.2) masked m.1 rnd.

Lemma send_all_frames d msgs :
  state d = STATE_OPENED → Forall sendable msgs →
  ∃ d' evs frames, send_all d msgs = Some (d', evs) ∧ Forall2 framed msgs frames ∧ wire evs = concat frames.
Proof.
  intros Hs Hm. revert d Hs. induction Hm as [|[msg t] msgs (Hne & Hl & Hb) _ IH]; intros d Hs.
  { by exists d, [], []. }
  simpl in *. unfold evd_websocket_protocol_send. rewrite Hs.
  rewrite send_data_frame_single by done. run_bind.
  destruct (IH (count_write (negb (server d)) d) Hs) as (d' & evs & frames & -> & Hf & Hw). run_bind.
  eexists d', _, (_ :: frames). split; [done|]. split; [|cbn [wire]; simpl; by rewrite <-Hw].
  constructor; [|done]. by eexists _, _.
Qed.

(** Frames of messages are read as these messages, whatever follows. *)
Lemma read_frames msgs frames :
  Forall2 framed msgs frames → Forall sendable msgs →
  bytes_ok (concat frames) ∧
  ∀ dr r, idle_with dr (concat frames ++ r) → bytes_ok (buf dr) → open_receiver dr →
    ∃ dr', process dr = add_events (frame_events msgs) (process dr') ∧ same_conn dr dr' ∧ idle_with dr' r.
Proof.
  induction 1 as [|[msg t] f msgs frames (masked & rnd & ->) _ IH]; intros Hm.
  { split; [constructor|]. intros dr r Hi _ _. exists dr; split_and!; try done. simpl. by rewrite add_events_nil. }
  apply Forall_cons_1 in Hm as [(Hne & Hl & Hb) Hm]. destruct (IH Hm) as [Hok Hrecv]. cbn [fst snd] in *.
  assert (Z.of_nat (length msg) < 256 ^ 8) by (unfold MAX_FRAGMENT_SIZE in Hl; lia).
  split; [cbn [concat]; apply Forall_app; split; [by apply build_frame_ok|done]|].
  intros dr r Hi Hbuf Ho. cbn [concat] in Hi. rewrite <-app_assoc in Hi.
  destruct (read_data_frame dr t masked msg rnd _ Hi Hbuf Ho) as (d1 & -> & Hc1 & Hi1); [done|].
  destruct (Hrecv d1 r) as (dr' & -> & Hc & Hi'); [done| |by eapply open_receiver_same|].
  { destruct Hi1 as (_ & _ & -> & _). destruct Hi as (_ & _ & Hbd & _). rewrite Hbd in Hbuf.
    by apply Forall_app in Hbuf as [_ ?]. }
  exists dr'; split_and!; [|by eapply same_conn_trans|done]. by rewrite add_events_app.
Qed.

Lemma process_idle_nil d : idle_with d [] → state d ≠ STATE_CLOSED → process d = Done d [] true.
Proof.
  intros Hi Hs. rewrite process_unfold by (by eapply idle_reader_ok; [|constructor]).
  destruct Hi as (_ & Ho & Hb & _). unfold loop_continues, buf_len. rewrite Ho, Hb. simpl.
  by rewrite bool_decide_false.
Qed.

(** Frames that arrive at once at a receiver between two frames. *)
Lemma frames_arrive msgs frames dr :
  Forall2 framed msgs frames → Forall sendable msgs → idle_with dr [] → open_receiver dr →
  ∃ dr', process (receive dr (concat frames)) = Done dr' (frame_events msgs) true ∧
    idle_with dr' [] ∧ same_conn dr dr'.
Proof.
  intros Hf Hm (Hr & Hof & Hb & Hp) Ho. destruct (read_frames msgs frames Hf Hm) as [Hok Hrecv].
  destruct (Hrecv (receive dr (concat frames)) []) as (dr' & Hproc & Hc & Hi').
  { unfold idle_with; simpl. by rewrite Hb, app_nil_r. }
  { simpl. by rewrite Hb. }
  { done. }
  exists dr'; split_and!; [|done|done]. rewrite Hproc, process_idle_nil; [|done|].
  - simpl. by rewrite app_nil_r.
  - by destruct (open_receiver_same _ _ Hc Ho).
Qed.

(** C2. Round trip of messages: what an open endpoint writes for a sequence of non-empty messages
    of at most one fragment each (masked by a client, in the clear by a server, 7-bit, 16-bit or
    64-bit lengths), read by an open receiver, makes exactly one frame callback per message, with
    its bytes and its type, in order, and leaves the receiver between two frames. *)
Theorem messages_roundtrip (ds dr : EvdWebsocketData) (msgs : list (list Z * EvdMessageType)) :
  state ds = STATE_OPENED → Forall sendable msgs → idle_with dr [] → open_receiver dr →
  ∃ ds' evs dr', send_all ds msgs = Some (ds', evs) ∧
    process (receive dr (wire evs)) = Done dr' (frame_events msgs) true ∧
    idle_with dr' [] ∧ same_conn dr dr'.
Proof.
  intros Hs Hm Hi Ho. destruct (send_all_frames ds msgs Hs Hm) as (ds' & evs & frames & Hsend & Hf & Hw).
  destruct (frames_arrive msgs frames dr Hf Hm Hi Ho) as (dr' & Hproc & Hi' & Hc).
  exists ds', evs, dr'. by rewrite Hw.
Qed.

(** Chunk independence of the reader: processing [b1] and later [b2] does exactly what
    processing [b1 ++ b2] at once does (same callbacks and writes in the same order, same final
    state), from any state of the reader, whatever the bytes. *)
Example reader_chunking_irrelevant (d : EvdWebsocketData) (b1 b2 : list Z) :
  reader_ok d → bytes_ok b1 → bytes_ok b2 →
  process (receive d (b1 ++ b2)) = resume (process (receive d b1)) b2.
Proof.
  intros Hok H1 H2. rewrite <-receive_receive.
  apply (process_receive (process_fuel (receive d b1))); [done|by apply receive_ok|done].
Qed.

(** Termination: the loop of [process_data] stops, on any state of the reader and any
    bytes; its fuel is never exhausted. *)
Example process_data_terminates (d : EvdWebsocketData) : reader_ok d → process d ≠ NoFuel.
Proof. intros Hok. by apply loop_terminates. Qed.

(** A write error while sending a message is never reported: because of the precedence of
    [!], [send_data_frame] returns [TRUE] whatever the stream answers (and its loop ends). *)
Example send_ignores_write_errors (d : EvdWebsocketData) (msg : list Z) (t : EvdMessageType) :
  ∃ d' evs, send_data_frame g_random_int write_result d msg t = Some (d', evs, true).
Proof. apply send_data_frame_total. Qed.

(** The reader on a data frame that is not final. *)
Lemma read_nonfinal d t m pl rnd :
  idle_with d (build_frame [] false (message_opcode t) m pl rnd) → bytes_ok (buf d) →
  open_receiver d → Z.of_nat (length pl) < 256 ^ 8 →
  ∃ d', process d = Done d' [Warning; IoClose] false ∧ state d' = STATE_CLOSED.
Proof.
  intros Hi Hb [Hcb Hs] Hlen.
  destruct (read_frame d false (message_opcode t) m pl rnd [])
    as (d1 & Hproc & Hc & Hop & Hf & _ & Hi1).
  all: try done.
  { by rewrite app_nil_r. }
  { by destruct t. }
  exists (consume (set_state STATE_CLOSED d1)). split; [|done].
  rewrite Hproc. unfold finish, frame_action. rewrite Hop, Hf.
  replace (OPCODE_CLOSE <=? message_opcode t) with false by by destruct t.
  rewrite process_unfold.
  - unfold loop_continues; simpl. by rewrite andb_false_r.
  - eapply (idle_reader_ok _ []); [|constructor]. destruct Hi1 as (? & ? & ? & ?). by split_and!.
Qed.

(** A message longer than [MAX_FRAGMENT_SIZE] is sent in fragments that the library's own
    reader refuses: the receiver closes the connection, without calling any callback. *)
Example fragmented_message_closes
    (ds dr : EvdWebsocketData) (msg : list Z) (t : EvdMessageType) :
  MAX_FRAGMENT_SIZE < Z.of_nat (length msg) → bytes_ok msg → idle_with dr [] → open_receiver dr →
  ∃ ds' first evs dr',
    send_data_frame g_random_int write_result ds msg t = Some (ds', StreamWrite first :: evs, true) ∧
    process (receive dr first) = Done dr' [Warning; IoClose] false ∧ state dr' = STATE_CLOSED.
Proof.
  intros Hl Hb (Hr & Ho & Hbuf & Hp) [Hcb Hs].
  destruct (send_data_frame_fragmented ds msg t Hl) as (ds' & evs & Hsend).
  assert (bytes_ok (take (Z.to_nat MAX_FRAGMENT_SIZE) msg)) as Hpl by (by apply Forall_take).
  assert (Z.of_nat (length (take (Z.to_nat MAX_FRAGMENT_SIZE) msg)) < 256 ^ 8) as Hlen
    by (rewrite length_take; unfold MAX_FRAGMENT_SIZE; lia).
  revert Hsend Hpl Hlen. generalize (take (Z.to_nat MAX_FRAGMENT_SIZE) msg) as pl.
  intros pl Hsend Hpl Hlen.
  set (first := build_frame _ _ _ _ _ _) in Hsend.
  assert (bytes_ok first) as Hfirst by (by apply build_frame_ok).
  destruct (read_nonfinal (receive dr first) t (negb (server ds)) pl (g_random_int (n_random ds)))
    as (dr' & Hproc & Hst).
  { unfold idle_with; simpl. by rewrite Hbuf. }
  { simpl. by rewrite Hbuf. }
  { done. }
  { done. }
  exists ds', first, evs, dr'. by split_and!.
Qed.

End Env.
(** ** Concrete instances *)

Definition demo_random : nat → Z := λ n, 305419896 + Z.of_nat n.
Definition demo_write : nat → Z := λ _, 1.
Definition endpoint (is_server : bool) : EvdWebsocketData :=
  fst (evd_websocket_protocol_bind (setup_connection is_server STATE_OPENED)).

Lemma endpoint_idle b : idle_with (endpoint b) [].
Proof. by split_and!. Qed.

Lemma endpoint_ok b : reader_ok (endpoint b).
Proof. apply (idle_reader_ok _ []); [apply endpoint_idle|constructor]. Qed.

Definition demo_messages : list (list Z * EvdMessageType) :=
  [(replicate 3 97, MESSAGE_TYPE_TEXT); (replicate 300 255, MESSAGE_TYPE_BINARY)].

Lemma messages_roundtrip_witness :
  ∃ ds' evs dr', send_all demo_random demo_write (endpoint false) demo_messages = Some (ds', evs) ∧
    process_data demo_random demo_write (receive (endpoint true) (wire evs)) =
      Done dr' (frame_events demo_messages) true ∧
    idle_with dr' [] ∧ same_conn (endpoint true) dr'.
Proof.
  apply (messages_roundtrip demo_random demo_write (endpoint false) (endpoint true) demo_messages).
  - reflexivity.
  - repeat (apply Forall_cons; split);
      [split_and!; [done|simpl; unfold MAX_FRAGMENT_SIZE; lia|solve_bytes]..|apply Forall_nil; done].
  - apply endpoint_idle.
  - by split.
Defined.

Lemma reader_chunking_irrelevant_witness :
  process_data demo_random demo_write (receive (endpoint true) ([129; 3; 97] ++ [98; 99])) =
  resume demo_random demo_write
    (process_data demo_random demo_write (receive (endpoint true) [129; 3; 97])) [98; 99].
Proof.
  apply (reader_chunking_irrelevant demo_random demo_write (endpoint true) [129; 3; 97] [98; 99]).
  - apply endpoint_ok.
  - solve_bytes.
  - solve_bytes.
Defined.

Lemma process_data_terminates_witness :
  process_data demo_random demo_write (receive (endpoint true) [129; 3; 97; 98; 99; 136]) ≠ NoFuel.
Proof.
  apply (process_data_terminates demo_random demo_write
           (receive (endpoint true) [129; 3; 97; 98; 99; 136])).
  apply receive_ok; [apply endpoint_ok|solve_bytes].
Defined.

(** A message of one byte more than a fragment. *)
Definition long_message : list Z := replicate (S (Z.to_nat MAX_FRAGMENT_SIZE)) 97.

Lemma fragmented_message_closes_witness :
  ∃ ds' first evs dr',
    send_data_frame demo_random demo_write (endpoint false) long_message MESSAGE_TYPE_TEXT =
      Some (ds', StreamWrite first :: evs, true) ∧
    process_data demo_random demo_write (receive (endpoint true) first) =
      Done dr' [Warning; IoClose] false ∧ state dr' = STATE_CLOSED.
Proof.
  apply (fragmented_message_closes demo_random demo_write (endpoint false) (endpoint true)
           long_message MESSAGE_TYPE_TEXT).
  - unfold long_message. rewrite length_replicate, Nat2Z.inj_succ, Z2Nat.id; unfold MAX_FRAGMENT_SIZE; lia.
  - unfold long_message. apply Forall_replicate. unfold byte_ok. lia.
  - apply endpoint_idle.
  - by split.
Defined.

End WebSocketSpec.
