(* ===== verification/WebSocketClose.v ===== *)
(** * WebSocket protocol: the closing and opening handshakes

    The closing handshake as a step relation over the connection data: reads, sends, local closes,
    the grace-period timer, completed flushes and unbinding, in any order.  Safety of the bytes
    written over every execution, completion of the handshake between two endpoints, and what
    goes wrong around it.  The opening handshake is at the end. *)
From S2P Require Import Prelude WebSocket WebSocketSpec.
Import WebSocket WebSocketSpec.

Module WebSocketClose.

(** ** What is written around a close frame *)

Definition frame_opcode (frame : list Z) : Z := Z.land (nth 0 frame 0) 15.
Definition is_close (frame : list Z) : bool := frame_opcode frame =? OPCODE_CLOSE.

Lemma header_opcode_all fin op masked l :
  0 <= op < 16 → 0 <= l < 128 →
  Z.land (Z.shiftr (Z.land (header_of fin op masked l) 65280) 8) 15 = op.
Proof.
  intros Ho Hl.
  assert (forallb (λ f, forallb (λ m, forallb (λ o, forallb (λ x,
            Z.land (Z.shiftr (Z.land (header_of f o m x) 65280) 8) 15 =? o)
            (seqZ 0 128)) (seqZ 0 16)) [true; false]) [true; false] = true) as H
    by (vm_compute; reflexivity).
  rewrite forallb_forall in H. specialize (H fin ltac:(destruct fin; simpl; auto)).
  rewrite forallb_forall in H. specialize (H masked ltac:(destruct masked; simpl; auto)).
  rewrite forallb_forall in H.
  specialize (H op ltac:(apply list_elem_of_In, elem_of_seqZ; lia)).
  rewrite forallb_forall in H.
  apply Z.eqb_eq, H, list_elem_of_In, elem_of_seqZ. lia.
Qed.

Lemma frame_opcode_build fin op masked pl rnd :
  0 <= op < 16 → Z.of_nat (length pl) < 256 ^ 8 →
  frame_opcode (build_frame [] fin op masked pl rnd) = op.
Proof.
  intros Ho Hn. unfold frame_opcode. rewrite build_frame_layout by done. cbn [nth].
  apply header_opcode_all; [done|]. apply len7_range. lia.
Qed.

(** The bytes written so far, seen by an observer that knows whether a close frame has been
    written: a frame after a close frame is refused. *)
Fixpoint monitor (closed : bool) (evs : list event) : option bool :=
  match evs with
  | [] => Some closed
  | StreamWrite f :: evs => if closed then None else monitor (is_close f) evs
  | _ :: evs => monitor closed evs
  end.

Lemma monitor_app s e1 e2 :
  monitor s (e1 ++ e2) = s' ← monitor s e1; monitor s' e2.
Proof.
  revert s. induction e1 as [|e e1 IH]; intros s; [done|].
  destruct e; simpl; try apply IH. destruct s; [done|apply IH].
Qed.

Definition shut (d : EvdWebsocketData) : bool :=
  match state d with STATE_CLOSING | STATE_CLOSED => true | _ => false end.

(** Once a close frame has been written, the connection is closing or closed. *)
Definition good (d : EvdWebsocketData) (closed : bool) : Prop :=
  closed = true ∨ close_frame_sent d = true → shut d = true.

Definition same_cbs (d d' : EvdWebsocketData) : Prop :=
  frame_cb d' = frame_cb d ∧ close_cb d' = close_cb d.

(** An operation that keeps the observer happy, the invariant and the callbacks. *)
Definition keeps (d d' : EvdWebsocketData) (evs : list event) : Prop :=
  same_cbs d d' ∧ ∀ s, good d s → ∃ s', monitor s evs = Some s' ∧ good d' s'.

Lemma keeps_trans d1 d2 d3 e1 e2 : keeps d1 d2 e1 → keeps d2 d3 e2 → keeps d1 d3 (e1 ++ e2).
Proof.
  intros [[H1 H2] K1] [[H3 H4] K2]. split; [split; congruence|]. intros s Hs.
  destruct (K1 s Hs) as (s1 & E1 & G1), (K2 s1 G1) as (s2 & E2 & G2).
  exists s2. by rewrite monitor_app, E1.
Qed.

(** An operation that writes nothing and does not reopen the connection. *)
Lemma keeps_silent d d' evs :
  same_cbs d d' → (∀ s, monitor s evs = Some s) → close_frame_sent d' = close_frame_sent d →
  (shut d = true → shut d' = true) → keeps d d' evs.
Proof.
  intros Hc Hm Hs Hst. split; [done|]. intros s Hg. exists s. split; [done|].
  unfold good in *. rewrite Hs. auto.
Qed.

Section Env.
Context (g_random_int : nat → Z) (write_result : nat → Z).

Local Abbreviation protocol_close := (evd_websocket_protocol_close g_random_int write_result).
Local Abbreviation protocol_send := (evd_websocket_protocol_send g_random_int write_result).
Local Abbreviation on_close := (on_close_frame_received g_random_int write_result).
Local Abbreviation control := (handle_control_frame g_random_int write_result).
Local Abbreviation payload := (read_payload g_random_int write_result).
Local Abbreviation part := (read_part g_random_int write_result).
Local Abbreviation turn := (process_turn g_random_int write_result).
Local Abbreviation loop := (process_loop g_random_int write_result).
Local Abbreviation process := (process_data g_random_int write_result).
Local Abbreviation on_read := (on_connection_read g_random_int write_result).

Lemma finish_close_keeps d code d' evs :
  finish_close_handshake d code = (d', evs) → keeps d d' evs.
Proof.
  unfold finish_close_handshake. intros E.
  destruct (close_timeout _), (close_cb _) eqn:Hc; injection E as <- <-; by apply keeps_silent.
Qed.

Lemma close_frame_is_close d : is_close (build_frame [] true OPCODE_CLOSE (negb (server d)) []
  (g_random_int (n_random d))) = true.
Proof. unfold is_close. by rewrite frame_opcode_build. Qed.

Lemma protocol_close_keeps d code :
  good d false → ∃ d' evs b, protocol_close d code = Some (d', evs, b) ∧ keeps d d' evs.
Proof.
  intros Hg. unfold evd_websocket_protocol_close.
  destruct (shut d) eqn:Hs; unfold shut in Hs.
  { exists d, [], true. split; [by destruct (state d)|by apply keeps_silent]. }
  assert (close_frame_sent d = false) as Hns.
  { destruct (close_frame_sent d) eqn:E; [|done]. unfold good, shut in Hg. rewrite Hs in Hg.
    by specialize (Hg (or_intror E)). }
  pose proof (close_frame_is_close d) as Hcl.
  assert (∀ s, good d s → s = false) as Hfalse.
  { intros [] G; [|done]. unfold good, shut in G. rewrite Hs in G.
    by specialize (G (or_introl eq_refl)). }
  destruct (state d) eqn:Est; try done; simpl; rewrite Hns;
    destruct (close_frame_received d); simpl; do 3 eexists; (split; [done|]); (split; [done|]);
    intros s G; rewrite (Hfalse s G); simpl; rewrite Hcl; by exists true.
Qed.

Lemma on_close_keeps d code :
  good d false → ∃ d' evs, on_close d code = Some (d', evs) ∧ keeps d d' evs.
Proof.
  intros Hg. unfold on_close_frame_received.
  set (d0 := set_close _ true _ _ d). assert (keeps d d0 []) as K0 by (by apply keeps_silent).
  destruct (decide (state d0 = STATE_CLOSING)).
  - destruct (finish_close_handshake d0 code) as [d' evs] eqn:E. exists d', evs. split; [done|].
    apply (keeps_trans d d0 d' [] evs); [done|]. by eapply finish_close_keeps.
  - destruct (protocol_close_keeps d0 code) as (d' & evs & b & -> & K).
    { intros [|H]; [done|]. apply Hg. by right. }
    exists d', evs. split; [done|]. by apply (keeps_trans d d0 d' [] evs).
Qed.

Lemma read_payload_keeps d :
  good d false →
  match payload d with
  | None => frame_cb d = false
  | Some (d', evs, _) => keeps d d' evs
  end.
Proof.
  intros Hg. unfold read_payload. destruct (_ <? _); [by apply keeps_silent|].
  set (d0 := set_frame_data _ d). assert (keeps d d0 []) as K0 by (by apply keeps_silent).
  assert (∀ d1 d2 evs, keeps d0 d1 evs → d2 = consume d1 → keeps d d2 evs) as Hend.
  { intros d1 d2 evs K ->. apply (keeps_trans d d0 _ [] evs); [done|].
    rewrite <-(app_nil_r evs). apply (keeps_trans d0 d1); [done|]. by apply keeps_silent. }
  unfold handle_control_frame.
  destruct (OPCODE_CLOSE <=? opcode d0); [destruct (opcode d0 =? OPCODE_CLOSE)|].
  - destruct (on_close_keeps d0 EVD_WEBSOCKET_CLOSE_NO_STATUS) as (d' & evs & -> & K); [done|].
    simpl. by eapply Hend.
  - apply (Hend (set_state STATE_CLOSED d0)); [by apply keeps_silent|done].
  - destruct (fin d0); [destruct (frame_cb d0) eqn:Ef|].
    + apply (Hend d0); [by apply keeps_silent|done].
    + done.
    + apply (Hend (set_state STATE_CLOSED d0)); [by apply keeps_silent|done].
Qed.

Lemma read_part_keeps d :
  good d false →
  match part d with
  | None => frame_cb d = false
  | Some (d', evs, _) => keeps d d' evs
  end.
Proof.
  intros Hg. unfold read_part. destruct (reading_state d); try by apply keeps_silent.
  - unfold read_payload_len. repeat case_match; simplify_eq; by apply keeps_silent.
  - unfold read_masking_key. destruct (_ <? _); [by apply keeps_silent|].
    match goal with |- context [payload ?x] => set (d1 := x) end.
    destruct (payload_len _ =? 0); [|by apply keeps_silent].
    assert (keeps d d1 []) as K by (by apply keeps_silent).
    pose proof (read_payload_keeps d1 Hg). destruct (payload d1) as [[[]]|]; [|done].
    by apply (keeps_trans d d1 _ []).
  - by apply read_payload_keeps.
Qed.

Lemma turn_keeps d :
  good d false →
  match turn d with
  | None => frame_cb d = false
  | Some (d', evs, _) => keeps d d' evs
  end.
Proof.
  intros Hg. unfold process_turn. destruct (decide _); [|by apply read_part_keeps].
  destruct (read_header d) as [d1 ok] eqn:E.
  assert (keeps d d1 []) as K.
  { unfold read_header in E. destruct (_ <? _); injection E as <- <-; by apply keeps_silent. }
  destruct ok; [|done].
  assert (good d1 false) as G1 by (destruct K as [_ K]; by destruct (K false Hg) as ([] & [=] & ?)).
  pose proof (read_part_keeps d1 G1) as K1. destruct (part d1) as [[[]]|].
  - by apply (keeps_trans d d1 _ []).
  - destruct K as [[<- _] _]. done.
Qed.

Lemma keeps_good d d' evs : keeps d d' evs → good d false → good d' false.
Proof.
  intros [_ K] Hg. destruct (K false Hg) as (s & _ & G). intros [|H]; [done|]. apply G. by right.
Qed.

Lemma loop_keeps fuel d :
  good d false →
  match loop fuel d with
  | Crash => frame_cb d = false
  | NoFuel => True
  | Done d' evs _ => keeps d d' evs
  end.
Proof.
  revert d. induction fuel as [|fuel IH]; intros d Hg; simpl.
  { destruct (loop_continues d); [done|by apply keeps_silent]. }
  destruct (loop_continues d); [|by apply keeps_silent].
  pose proof (turn_keeps d Hg) as K. destruct (turn d) as [[[d1 e1] [|]]|]; [|done|done].
  pose proof (IH d1 (keeps_good _ _ _ K Hg)) as K1. unfold add_events.
  destruct (loop fuel d1); [|done|by eapply keeps_trans].
  destruct K as [[<- _] _]. done.
Qed.

Lemma send_fragments_keeps fuel d msg sent t d' evs b :
  send_fragments g_random_int write_result fuel d msg sent t = Some (d', evs, b) →
  monitor false evs = Some false ∧
  same_cbs d d' ∧ state d' = state d ∧ close_frame_sent d' = close_frame_sent d ∧ same_reader d d'.
Proof.
  revert d sent d' evs b. induction fuel as [|fuel IH]; intros d sent d' evs b; cbn [send_fragments];
    destruct (_ <=? 0); try done; [by intros [= <- <- <-]..|].
  set (frag := build_frame _ _ _ _ _ _). assert (is_close frag = false) as Hfrag.
  { unfold is_close, frag. rewrite frame_opcode_build; [by destruct (sent =? 0), t| |].
    - by destruct (sent =? 0), t.
    - rewrite length_take. unfold MAX_FRAGMENT_SIZE. lia. }
  clearbody frag. destruct (_ <? 0).
  - intros [= <- <- <-]. simpl. by rewrite Hfrag.
  - destruct (send_fragments _ _ fuel _ _ _ _) as [[[d1 e1] b1]|] eqn:E; [|done].
    intros [= <- <- <-]. apply IH in E as (Hm & Hc & Hs & Hn & Hr). simpl. rewrite Hfrag.
    by split_and!.
Qed.

Lemma send_keeps d msg t d' evs b :
  protocol_send d msg t = Some (d', evs, b) → keeps d d' evs ∧ same_reader d d'.
Proof.
  unfold evd_websocket_protocol_send. intros E. destruct (shut d) eqn:Hs.
  { assert (d' = d ∧ evs = []) as [-> ->]; [|split; [by apply keeps_silent|done]].
    unfold shut in Hs. by destruct (state d); simplify_eq. }
  assert (send_data_frame g_random_int write_result d msg t = Some (d', evs, b)) as E'.
  { unfold shut in Hs. by destruct (state d). }
  apply send_fragments_keeps in E' as (Hm & Hc & Hst & Hn & Hr). split; [|done].
  split; [done|]. intros s G.
  assert (s = false) as ->.
  { destruct s; [|done]. rewrite G in Hs by auto. done. }
  exists false. split; [done|]. unfold good, shut in *. by rewrite Hst, Hn.
Qed.

Lemma same_reader_ok d d' : same_reader d d' → reader_ok d → reader_ok d'.
Proof.
  intros (Hb & _ & Ho & Hp & Hr) [H1 H2 H3 H4]. unfold buf_len in *.
  constructor; unfold buf_len; by rewrite ?Hb, ?Ho, ?Hp, ?Hr.
Qed.

Lemma loop_reader_ok fuel d d' evs b : reader_ok d → loop fuel d = Done d' evs b → reader_ok d'.
Proof.
  revert d evs. induction fuel as [|fuel IH]; intros d evs Hok; simpl;
    destruct (loop_continues d); try done; [by intros [= <- _ _]| |by intros [= <- _ _]].
  destruct (turn d) as [[[d1 e1] [|]]|] eqn:E; [| |done].
  - destruct (turn_progress _ _ d d1 e1 Hok E) as [Hok1 _].
    destruct (loop fuel d1) as [| |d2 e2 b2] eqn:El; try done. intros [= <- _ ->]. by eapply IH.
  - intros [= <- _ _]. by destruct (turn_stops _ _ d d1 e1 Hok E) as (_ & ? & _).
Qed.

(** ** Executions *)

(** The connection data, and the flushes under way ([on_connection_flushed] runs when one
    completes).  The timer source exists when [close_timeout] is set. *)
Record conn := mkConn { data : EvdWebsocketData; flushes : nat }.

Fixpoint flush_count (evs : list event) : nat :=
  match evs with
  | [] => 0
  | FlushAsync :: evs => S (flush_count evs)
  | _ :: evs => flush_count evs
  end.

Definition outcome_ok (r : read_outcome) : Prop :=
  match r with ReadError _ => True | ReadBytes bytes => bytes_ok bytes end.

Inductive step : conn → list event → conn → Prop :=
  | step_read d n r d' evs b :
      outcome_ok r → on_read d r = Done d' evs b →
      step (mkConn d n) evs (mkConn d' (n + flush_count evs))
  | step_send d n msg t d' evs b :
      protocol_send d msg t = Some (d', evs, b) → step (mkConn d n) evs (mkConn d' n)
  | step_close d n code d' evs b :
      protocol_close d code = Some (d', evs, b) →
      step (mkConn d n) evs (mkConn d' (n + flush_count evs))
  | step_timeout d n d' evs :
      close_timeout d = true → close_timeout_cb d = Some (d', evs) →
      step (mkConn d n) evs (mkConn d' n)
  | step_flushed d n d' evs :
      on_connection_flushed d = (d', evs) → step (mkConn d (S n)) evs (mkConn d' n)
  | step_unbind d n : step (mkConn d n) [] (mkConn (evd_websocket_protocol_unbind d) n).

Inductive steps : conn → list event → conn → Prop :=
  | steps_refl c : steps c [] c
  | steps_step c1 e1 c2 e2 c3 : step c1 e1 c2 → steps c2 e2 c3 → steps c1 (e1 ++ e2) c3.

(** A connection as the opening handshake leaves it, bound by its user. *)
Definition established (c : conn) : Prop :=
  state (data c) = STATE_OPENED ∧ close_frame_sent (data c) = false ∧ reader_ok (data c).

Definition watched (d d' : EvdWebsocketData) (evs : list event) : Prop :=
  (∀ s, good d s → ∃ s', monitor s evs = Some s' ∧ good d' s') ∧ reader_ok d'.

Lemma read_watched d r d' evs b :
  good d false → reader_ok d → outcome_ok r → on_read d r = Done d' evs b → watched d d' evs.
Proof.
  intros Hg Hok Hr. unfold on_connection_read. destruct r as [cl|[|x bytes]].
  { intros [= <- <- <-]. split; [|done]. intros s ?. exists s. by destruct cl. }
  { intros [= <- <- <-]. split; [|done]. intros s ?. by exists s. }
  fold (receive d (x :: bytes)). set (d0 := receive d (x :: bytes)).
  assert (reader_ok d0) as Hok0 by (by apply receive_ok).
  destruct (decide (state d0 = STATE_CLOSED)).
  { intros [= <- <- <-]. split; [|done]. intros s ?. by exists s. }
  pose proof (loop_keeps (process_fuel d0) d0 Hg) as K. unfold process_data.
  destruct (loop (process_fuel d0) d0) as [| |d1 e1 b1] eqn:El; try done.
  pose proof (loop_reader_ok _ _ _ _ _ Hok0 El) as Hok1. destruct K as [_ K].
  destruct b1; [|intros [= <- <- <-]; by split].
  unfold read_from_connection. intros [= <- <- <-]. split.
  - intros s Gs. destruct (K s Gs) as (s' & Hm & G'). exists s'. rewrite monitor_app, Hm.
    split; [done|]. by destruct (buf_alloc d1 <=? _).
  - destruct (buf_alloc d1 <=? _); [|done]. by destruct Hok1.
Qed.

Lemma step_watched c evs c' :
  step c evs c' → good (data c) false → reader_ok (data c) → watched (data c) (data c') evs.
Proof.
  intros [d n r d' ev b Hr E|d n msg t d' ev b E|d n code d' ev b E|d n d' ev _ E|d n d' ev E|d n]
    Hg Hok; simpl in *.
  - by eapply read_watched.
  - apply send_keeps in E as [[_ K] Hr]. split; [done|by eapply same_reader_ok].
  - destruct (protocol_close_keeps d code Hg) as (d1 & e1 & b1 & E1 & [_ K]).
    rewrite E1 in E. injection E as <- <- <-. split; [done|].
    eapply same_reader_ok; [|done]. by eapply protocol_close_same.
  - unfold close_timeout_cb in E. destruct (close_cb _); [|done]. injection E as <- <-.
    split; [|by destruct Hok]. intros s _. by exists s.
  - split.
    + by apply (finish_close_keeps d (close_code d)).
    + unfold on_connection_flushed, finish_close_handshake in E.
      destruct (close_timeout _); injection E as <- <-; by destruct Hok.
  - split; [|by destruct Hok]. intros s G. by exists s.
Qed.

Lemma steps_watched c evs c' :
  steps c evs c' → reader_ok (data c) → ∀ s, good (data c) s →
  ∃ s', monitor s evs = Some s' ∧ good (data c') s' ∧ reader_ok (data c').
Proof.
  induction 1 as [c|c1 e1 c2 e2 c3 Hstep _ IH]; intros Hok s Hg; [by exists s|].
  assert (good (data c1) false) as Hf by (intros [|]; [done|by apply Hg; right]).
  destruct (step_watched _ _ _ Hstep Hf Hok) as [K Hok2].
  destruct (K s Hg) as (s2 & Hm & G2). destruct (IH Hok2 s2 G2) as (s3 & Hm3 & G3 & Hok3).
  exists s3. by rewrite monitor_app, Hm.
Qed.

Lemma established_good c : established c → good (data c) false.
Proof. intros (_ & Hs & _) [|H]; [done|]. by rewrite Hs in H. Qed.

(** The frames written, in order. *)
Definition writes (evs : list event) : list (list Z) :=
  omap (λ e, match e with StreamWrite f => Some f | _ => None end) evs.

Lemma monitor_last s evs s' pre f post :
  monitor s evs = Some s' → writes evs = pre ++ f :: post → is_close f = true → post = [].
Proof.
  assert (∀ e s', monitor true e = Some s' → writes e = []) as Htrue.
  { intros e. induction e as [|[] e IH]; intros s0; simpl; try done; apply IH. }
  revert s pre. induction evs as [|e evs IH]; intros s pre Hm Hw Hf; [by destruct pre|].
  destruct e; simpl in *; try by eapply IH.
  destruct s; [done|]. destruct pre as [|g pre]; simplify_eq/=; [|by eapply IH].
  rewrite Hf in Hm. by eapply Htrue.
Qed.

(** C6. Nothing is written after a close frame: in every execution of an established connection
    (reads of any bytes, sends, closes, timer, flushes, unbinding, in any order) a close frame is
    the last frame written, so there is at most one and no data follows it. *)
Theorem close_frame_is_last (c c' : conn) (evs : list event) pre frame post :
  established c → steps c evs c' → writes evs = pre ++ frame :: post → is_close frame = true →
  post = [].
Proof.
  intros He Hs Hw Hf. pose proof He as (_ & _ & Hok).
  destruct (steps_watched _ _ _ Hs Hok false (established_good _ He)) as (s' & Hm & _).
  by eapply monitor_last.
Qed.

(** No crash while bound: in every state an established connection can reach with its
    frame callback still set, reading any bytes completes (no NULL call, no failed assertion, no
    endless loop), and closing it never fails its assertion. *)
Example bound_connection_never_crashes (c c' : conn) (evs : list event) (r : read_outcome)
    (code : Z) :
  established c → steps c evs c' → outcome_ok r → frame_cb (data c') = true →
  (∃ d evs' b, on_read (data c') r = Done d evs' b) ∧ is_Some (protocol_close (data c') code).
Proof.
  intros He Hs Hr Hcb. pose proof He as (_ & _ & Hok).
  destruct (steps_watched _ _ _ Hs Hok false (established_good _ He)) as (s' & _ & G & Hok').
  assert (good (data c') false) as Gf by (intros [|]; [done|by apply G; right]).
  split; [|by destruct (protocol_close_keeps (data c') code Gf) as (? & ? & ? & -> & _)].
  unfold on_connection_read. destruct r as [cl|[|x bytes]]; [by eauto..|].
  fold (receive (data c') (x :: bytes)). set (d0 := receive _ _).
  destruct (decide _); [by eauto|]. assert (reader_ok d0) as Hok0 by (by apply receive_ok).
  pose proof (loop_keeps (process_fuel d0) d0 Gf) as K.
  pose proof (loop_terminates g_random_int write_result _ d0 Hok0 (le_n _)) as Hterm.
  unfold process_data. destruct (loop _ d0) as [| |d1 e1 []]; [|done|by eauto..].
  change (frame_cb d0) with (frame_cb (data c')) in K. congruence.
Qed.

(** ** The handshake between two endpoints *)

Lemma process_closed_nil d : idle_with d [] → state d = STATE_CLOSED → process d = Done d [] false.
Proof.
  intros Hi Hs. rewrite process_unfold by (by eapply idle_reader_ok; [|constructor]).
  unfold loop_continues. by rewrite Hs, andb_false_r.
Qed.

(** An endpoint that reads one close frame. *)
Lemma read_close_frame d (m : bool) rnd :
  idle_with d [] → state d ≠ STATE_CLOSED →
  ∃ d1, same_conn d d1 ∧ idle_with (consume d1) [] ∧ opcode d1 = OPCODE_CLOSE ∧
    process (receive d (build_frame [] true OPCODE_CLOSE m [] rnd)) = finish g_random_int write_result d1.
Proof.
  intros (Hr & Ho & Hb & Hp) Hs. set (f := build_frame _ _ _ _ _ _).
  destruct (read_frame g_random_int write_result (receive d f) true OPCODE_CLOSE m [] rnd [])
    as (d1 & Hproc & Hc & Hop & _ & _ & Hi); try done.
  - unfold idle_with; simpl. by rewrite Hb, app_nil_r.
  - simpl. rewrite Hb. by apply build_frame_ok.
  - exists d1. by split_and!.
Qed.

Definition quiet (d : EvdWebsocketData) : Prop :=
  idle_with d [] ∧ state d = STATE_OPENED ∧ close_cb d = true ∧ close_frame_sent d = false ∧
  close_frame_received d = false ∧ close_timeout d = false.

(** The peer of the closing endpoint answers with a close frame and asks for a flush. *)
Lemma peer_answers d m rnd :
  quiet d →
  ∃ d' wb, process (receive d (build_frame [] true OPCODE_CLOSE m [] rnd)) =
      Done d' [StreamWrite wb; FlushAsync] true ∧
    wb = build_frame [] true OPCODE_CLOSE (negb (server d)) [] (g_random_int (n_random d)) ∧
    close_cb d' = true ∧ close_code d' = EVD_WEBSOCKET_CLOSE_NO_STATUS ∧
    close_timeout d' = false.
Proof.
  intros (Hi & Hst & Hcb & Hns & Hnr & Hnt).
  destruct (read_close_frame d m rnd Hi) as (d1 & Hc & Hi1 & Hop & Hproc); [congruence|].
  destruct Hc as (C1 & C2 & C3 & C4 & C5 & C6 & C7 & C8 & C9 & C10).
  rewrite Hproc. unfold finish, frame_action, handle_control_frame. rewrite Hop. simpl.
  unfold on_close_frame_received, evd_websocket_protocol_close. simpl.
  rewrite C4, C5, Hst, Hns. simpl. rewrite process_idle_nil; [|by destruct Hi1|done].
  simpl. rewrite C1, C9. do 2 eexists. split_and!; [done|done|..]; simpl; congruence.
Qed.

(** The closing endpoint, on the answer, reports the closure and closes the stream. *)
Lemma closer_finishes d m rnd :
  idle_with d [] → state d = STATE_CLOSING → close_cb d = true → close_timeout d = true →
  ∃ d', process (receive d (build_frame [] true OPCODE_CLOSE m [] rnd)) =
      Done d' [CloseCb true; IoClose; TimeoutRemove] false ∧ state d' = STATE_CLOSED ∧
    close_timeout d' = false.
Proof.
  intros Hi Hst Hcb Hnt.
  destruct (read_close_frame d m rnd Hi) as (d1 & Hc & Hi1 & Hop & Hproc); [congruence|].
  destruct Hc as (C1 & C2 & C3 & C4 & C5 & C6 & C7 & C8 & C9 & C10).
  rewrite Hproc. unfold finish, frame_action, handle_control_frame. rewrite Hop. simpl.
  unfold on_close_frame_received, finish_close_handshake. simpl.
  rewrite decide_True by congruence. simpl. rewrite C3, C8, Hcb, Hnt. simpl.
  rewrite process_closed_nil; [|by destruct Hi1|done]. simpl. eauto.
Qed.

(** C23. The closing handshake completes: an endpoint closes, its quiet peer answers the close
    frame and, when its flush completes, reports a graceful closure and closes the stream; the
    first endpoint, on the answer, reports a graceful closure, closes the stream and removes its
    grace-period timer. Each side calls its close callback exactly once. *)
Theorem closing_handshake_completes (da db : EvdWebsocketData) (code : Z) :
  quiet da → quiet db →
  ∃ da' wa ok db' wb da'' db'',
    protocol_close da code = Some (da', [StreamWrite wa; TimeoutAdd 3000], ok) ∧
    process (receive db wa) = Done db' [StreamWrite wb; FlushAsync] true ∧
    process (receive da' wb) = Done da'' [CloseCb true; IoClose; TimeoutRemove] false ∧
    on_connection_flushed db' = (db'', [CloseCb true; IoClose]) ∧
    state da'' = STATE_CLOSED ∧ state db'' = STATE_CLOSED ∧ close_timeout da'' = false.
Proof.
  intros (Hi & Hst & Hcb & Hns & Hnr & Hnt) Hqb.
  destruct (peer_answers db (negb (server da)) (g_random_int (n_random da)) Hqb)
    as (db' & wb & Hb & -> & Hbcb & Hcode & Hbt).
  unfold evd_websocket_protocol_close. rewrite Hst. simpl. rewrite Hns, Hnr. simpl.
  match goal with |- context [Some (?x, _, _)] => set (da' := x) end.
  destruct (closer_finishes da' (negb (server db)) (g_random_int (n_random db)))
    as (da'' & Ha & Hsa & Hta); try done.
  eexists da', _, _, db', _, da'', _. split_and!; [done|exact Hb|exact Ha| |done| |done].
  - unfold on_connection_flushed, finish_close_handshake; simpl. by rewrite Hbcb, Hcode, Hbt.
  - done.
Qed.

End Env.
(** ** Concrete executions *)

Lemma opened_established b : established (mkConn (endpoint b) 0).
Proof. split_and!; [done..|apply endpoint_ok]. Qed.

Lemma opened_quiet b : quiet (endpoint b).
Proof. split_and!; [apply endpoint_idle|done..]. Qed.

(** A server that is closed by its user after a message. *)
Definition close_run_end : EvdWebsocketData :=
  match evd_websocket_protocol_close demo_random demo_write (endpoint true) 1000 with
  | Some (d, _, _) => d | None => endpoint true end.

Lemma close_run :
  steps demo_random demo_write (mkConn (endpoint true) 0) [StreamWrite [136; 0]; TimeoutAdd 3000]
    (mkConn close_run_end 0).
Proof.
  set (e := [StreamWrite [136; 0]; TimeoutAdd 3000]). rewrite <-(app_nil_r e).
  apply (steps_step _ _ _ e (mkConn close_run_end (0 + flush_count e))); [|apply steps_refl].
  apply (step_close demo_random demo_write (endpoint true) 0 1000 _ e true). vm_compute. reflexivity.
Qed.

Lemma close_frame_is_last_witness : ([] : list (list Z)) = [].
Proof.
  apply (close_frame_is_last demo_random demo_write (mkConn (endpoint true) 0) (mkConn close_run_end 0)
           [StreamWrite [136; 0]; TimeoutAdd 3000] [] [136; 0] []).
  - apply opened_established.
  - apply close_run.
  - reflexivity.
  - reflexivity.
Defined.

Lemma bound_connection_never_crashes_witness :
  (∃ d evs' b, on_connection_read demo_random demo_write (data (mkConn close_run_end 0))
                 (ReadBytes [136; 0; 129]) = Done d evs' b) ∧
  is_Some (evd_websocket_protocol_close demo_random demo_write (data (mkConn close_run_end 0)) 1000).
Proof.
  apply (bound_connection_never_crashes demo_random demo_write (mkConn (endpoint true) 0) (mkConn close_run_end 0)
           [StreamWrite [136; 0]; TimeoutAdd 3000] (ReadBytes [136; 0; 129]) 1000).
  - apply opened_established.
  - apply close_run.
  - solve_bytes.
  - reflexivity.
Defined.

Lemma closing_handshake_completes_witness :
  ∃ da' wa ok db' wb da'' db'',
    evd_websocket_protocol_close demo_random demo_write (endpoint false) 1000 =
      Some (da', [StreamWrite wa; TimeoutAdd 3000], ok) ∧
    process_data demo_random demo_write (receive (endpoint true) wa) = Done db' [StreamWrite wb; FlushAsync] true ∧
    process_data demo_random demo_write (receive da' wb) = Done da'' [CloseCb true; IoClose; TimeoutRemove] false ∧
    on_connection_flushed db' = (db'', [CloseCb true; IoClose]) ∧
    state da'' = STATE_CLOSED ∧ state db'' = STATE_CLOSED ∧ close_timeout da'' = false.
Proof.
  apply (closing_handshake_completes demo_random demo_write (endpoint false) (endpoint true) 1000).
  - apply opened_quiet.
  - apply opened_quiet.
Defined.

Fixpoint close_callbacks (evs : list event) : nat :=
  match evs with
  | [] => 0
  | CloseCb _ :: evs => S (close_callbacks evs)
  | _ :: evs => close_callbacks evs
  end.

(** The close callback can be called twice: a server that reads two close frames in one
    block answers the first and asks for a flush, finishes the handshake on the second, and
    finishes it again when the flush completes. *)
Example double_close_callback :
  ∃ c evs, established (mkConn (endpoint true) 0) ∧ steps demo_random demo_write (mkConn (endpoint true) 0) evs c ∧
    close_callbacks evs = 2%nat.
Proof.
  eexists _, _. split_and!; [apply opened_established| |].
  - eapply steps_step.
    { eapply (step_read _ _ _ _ (ReadBytes [136; 0; 136; 0])); [solve_bytes|].
      vm_compute. reflexivity. }
    eapply steps_step; [|apply steps_refl].
    eapply (step_flushed _ _ _ 0). vm_compute. reflexivity.
  - reflexivity.
Qed.

(** A data frame that arrives after [evd_websocket_protocol_unbind] (which does not cancel
    the pending read) is delivered through the callback that unbinding has set to [NULL]. *)
Example unbound_connection_crashes :
  on_connection_read demo_random demo_write (evd_websocket_protocol_unbind (endpoint true))
    (ReadBytes [129; 1; 97]) = Crash.
Proof. vm_compute. reflexivity. Qed.

(** ** Opening handshake *)

Definition lower_ascii (a : Ascii.ascii) : Ascii.ascii :=
  let n := Ascii.nat_of_ascii a in
  if (65 <=? n)%nat && (n <=? 90)%nat then Ascii.ascii_of_nat (n + 32) else a.

Fixpoint lower (s : string) : string :=
  match s with EmptyString => EmptyString | String a s => String (lower_ascii a) (lower s) end.

(** What the handshake relies on of libsoup's headers and of GLib's functions. *)
Class HandshakeLaws `{HandshakeEnv} := {
  get_case_insensitive (h : headers) (n m : string) :
    lower n = lower m → headers_get_one h n = headers_get_one h m;
  get_replaced (h : headers) (n v : string) : headers_get_one (headers_replace h n v) n = Some v;
  get_other (h : headers) (n m v : string) :
    lower n ≠ lower m → headers_get_one (headers_replace h n v) m = headers_get_one h m;
  strtoull_13 : ascii_strtoull "13" = 13;
  contains_itself (s : string) : contains s s = true;
  sha1_length (s : string) : length (sha1 s) = 20%nat;
  base64_not_empty (b : list Z) : b ≠ [] → base64_encode b ≠ EmptyString
}.

(** The two sides of the opening handshake agree: the request a client creates (whatever the
    initial headers, sub-protocol, origin and random numbers) is accepted by the server, and the
    response the server writes is accepted by that client; both connections start opened, masked
    on the client's side only. *)
Example handshake_agrees `{HandshakeLaws} (initial : headers) (sub_protocol origin : option string)
    (rnd : list Z) :
  ∃ response ds dc,
    let '(request, key) :=
      evd_websocket_protocol_create_handshake_request initial sub_protocol origin rnd in
    evd_websocket_protocol_handle_handshake_request request true = inl (response, ds) ∧
    evd_websocket_protocol_handle_handshake_response true 101 response key = inl dc ∧
    state ds = STATE_OPENED ∧ state dc = STATE_OPENED ∧ server ds = true ∧ server dc = false.
Proof.
  unfold evd_websocket_protocol_create_handshake_request.
  set (key := base64_encode _). set (h := headers_replace _ "Sec-WebSocket-Key" key).
  assert (headers_get_one h "Sec-Websocket-Version" = Some "13"%string) as Hv.
  { rewrite (get_case_insensitive h _ "Sec-WebSocket-Version") by done. unfold h.
    destruct origin, sub_protocol; by rewrite ?get_other, get_replaced by done. }
  assert (headers_get_one h "Upgrade" = Some "websocket"%string) as Hu.
  { unfold h. destruct origin, sub_protocol; by rewrite ?get_other, get_replaced by done. }
  assert (headers_get_one h "Connection" = Some "Upgrade"%string) as Hc.
  { unfold h. destruct origin, sub_protocol; by rewrite ?get_other, get_replaced by done. }
  assert (headers_get_one h "Sec-WebSocket-Key" = Some key) as Hk by apply get_replaced.
  clearbody h. unfold evd_websocket_protocol_handle_handshake_request, get_version_from_request.
  rewrite Hv, Hu, Hc, Hk, strtoull_13, contains_itself. simpl.
  eexists _, _, (setup_connection false STATE_OPENED). split_and!; [done| |done..].
  unfold evd_websocket_protocol_handle_handshake_response. simpl. rewrite get_replaced.
  destruct (get_accept_key key) eqn:E; [|unfold string_eqb; by rewrite bool_decide_true].
  destruct (base64_not_empty (sha1 (key +:+ EVD_WEBSOCKET_MAGIC_UUID))); [|done].
  intros Hn. pose proof (sha1_length (key +:+ EVD_WEBSOCKET_MAGIC_UUID)) as Hl. by rewrite Hn in Hl.
Qed.

(** An environment that satisfies the laws: headers as an association list with case-insensitive
    names, a digest of twenty bytes, and an encoding with one letter pair per byte. *)
Definition assoc_get (h : list (string * string)) (name : string) : option string :=
  snd <$> head (filter (λ p, lower p.1 = lower name) h).

Definition digit_value (a : Ascii.ascii) : Z := Z.of_nat (Ascii.nat_of_ascii a) - 48.
Fixpoint parse_decimal (acc : Z) (s : string) : Z :=
  match s with
  | EmptyString => acc
  | String a s =>
      if (0 <=? digit_value a) && (digit_value a <=? 9)
      then parse_decimal (10 * acc + digit_value a) s else acc
  end.

Definition letter (n : Z) : Ascii.ascii := Ascii.ascii_of_nat (65 + Z.to_nat (n mod 16)).
Fixpoint letters (b : list Z) : string :=
  match b with
  | [] => EmptyString
  | x :: b => String (letter (x / 16)) (String (letter x) (letters b))
  end.

Fixpoint string_bytes (s : string) : list Z :=
  match s with
  | EmptyString => []
  | String a s => Z.of_nat (Ascii.nat_of_ascii a) :: string_bytes s
  end.

#[local] Instance demo_env : HandshakeEnv := {|
  headers := list (string * string);
  no_headers := [];
  headers_get_one := assoc_get;
  headers_replace h n v := (n, v) :: h;
  sha1 s := take 20 (string_bytes s ++ replicate 20 0);
  base64_encode := letters;
  ascii_strtoull := parse_decimal 0;
  contains s t := match String.index 0 t s with Some _ => true | None => false end
|}.

Lemma index_itself s : String.index 0 s s = Some 0%nat.
Proof.
  assert (String.prefix s s = true) as Hp.
  { induction s as [|a s IH]; [done|]. simpl. by destruct (Ascii.ascii_dec a a). }
  destruct s as [|a s]; [done|]. cbn [String.index]. by rewrite Hp.
Qed.

#[local] Instance demo_laws : HandshakeLaws.
Proof.
  split; simpl.
  - intros h n m E. unfold assoc_get. by rewrite E.
  - intros h n v. unfold assoc_get. by rewrite filter_cons_True.
  - intros h n m v E. unfold assoc_get. by rewrite filter_cons_False.
  - done.
  - intros s. by rewrite index_itself.
  - intros s. change (length (take 20 (string_bytes s ++ replicate 20 0)) = 20%nat).
    rewrite length_take, length_app, length_replicate. lia.
  - intros [|x b]; done.
Qed.

Lemma handshake_agrees_witness :
  ∃ response ds dc,
    let '(request, key) :=
      evd_websocket_protocol_create_handshake_request no_headers (Some "chat"%string) None [1; 2; 3; 4] in
    evd_websocket_protocol_handle_handshake_request request true = inl (response, ds) ∧
    evd_websocket_protocol_handle_handshake_response true 101 response key = inl dc ∧
    state ds = STATE_OPENED ∧ state dc = STATE_OPENED ∧ server ds = true ∧ server dc = false.
Proof. apply (handshake_agrees (H0 := demo_laws) no_headers (Some "chat"%string) None [1; 2; 3; 4]). Defined.

(** The version is kept in a [guint8]: 269 passes for 13. *)
Example version_truncated :
  get_version_from_request (headers_replace no_headers "Sec-WebSocket-Version" "269") = 13.
Proof. vm_compute. reflexivity. Qed.

End WebSocketClose.
