(* ===== verification/ChunkedDecoderSpec.v ===== *)
(** * HTTP chunked decoder: theorems

    [convert] implements a byte-at-a-time reference for every size of the buffers; every
    well-formed body is decoded exactly, under every schedule of calls. *)
From S2P Require Import Prelude ChunkedDecoder.
Import ChunkedDecoder.

Module ChunkedDecoderSpec.

(** ** The byte-at-a-time reference *)

Definition ref_step (p : EvdHttpChunkedDecoderPrivate) (c : Z)
  : option (EvdHttpChunkedDecoderPrivate * Z * list Z * option GConverterResult) :=
  match status p with
  | READING_CHUNK_HEADER =>
      if header_char c || (hdr_buf_len p <=? 0) then turn_header p c
      else '(p, _, _, _) ← turn_header p c; Some (turn_crlf p c)
  | READING_CRLF_1 | READING_CRLF_2 => Some (turn_crlf p c)
  | READING_CONTENT => Some (turn_content p [c] 1)
  end.

Fixpoint ref_loop (p : EvdHttpChunkedDecoderPrivate) (input : list Z) (room : Z) : outcome :=
  match input with
  | [] => Converted p 0 [] CONVERTER_CONVERTED
  | c :: input =>
      if room <=? 0 then Converted p 0 [] CONVERTER_CONVERTED
      else match ref_step p c with
           | None => Overflow
           | Some (p, n, o, Some r) => Converted p n o r
           | Some (p, n, o, None) =>
               add_output n o (ref_loop p input (room - Z.of_nat (length o)))
           end
  end.

(** The whole stream, with no bound on the output. *)
Fixpoint decode (p : EvdHttpChunkedDecoderPrivate) (input : list Z) : outcome :=
  match input with
  | [] => Converted p 0 [] CONVERTER_CONVERTED
  | c :: input =>
      match ref_step p c with
      | None => Overflow
      | Some (p, n, o, Some r) => Converted p n o r
      | Some (p, n, o, None) => add_output n o (decode p input)
      end
  end.

(** ** Invariant *)

Record decoder_ok (p : EvdHttpChunkedDecoderPrivate) : Prop := mkDecoderOk {
  ok_left : 0 <= chunk_left p;
  ok_content : status p = READING_CONTENT → 0 < chunk_left p;
  ok_len : 0 <= hdr_buf_len p;
  ok_buf : length (hdr_buf p) = 10%nat
}.

Lemma hex_digit_nonneg c d : hex_digit c = Some d → 0 <= d < 16.
Proof.
  unfold hex_digit. repeat case_match; intros; simplify_eq;
    repeat match goal with H : (_ && _) = true |- _ => apply andb_prop in H as [?%Z.leb_le ?%Z.leb_le] end;
    lia.
Qed.

Lemma sscanf_nonneg s old : 0 <= old → 0 <= sscanf_x s old.
Proof.
  intros Ho. unfold sscanf_x. destruct (skip_spaces s); [done|]. destruct (bool_decide _); [|done].
  pose proof (Z.mod_pos_bound (hex_value 0 (z :: l)) 4294967296). unfold u32.
  pose proof (Z.div_pos old 4294967296). lia.
Qed.

Lemma length_hdr_store i c b b' : hdr_store i c b = Some b' → length b' = length b.
Proof. unfold hdr_store. destruct (_ <? _); intros; simplify_eq. apply length_insert. Qed.

Lemma turn_header_ok p c p' n o r :
  decoder_ok p → status p = READING_CHUNK_HEADER → turn_header p c = Some (p', n, o, r) →
  decoder_ok p'.
Proof.
  intros Hok Hs. unfold turn_header.
  destruct (header_char c); [|destruct (Z.ltb_spec 0 (hdr_buf_len p)); [|by intros; simplify_eq]].
  - destruct (hdr_store _ _ _) eqn:E; intros; simplify_eq/=. apply length_hdr_store in E.
    destruct Hok. constructor; simpl; try done; lia.
  - destruct (hdr_store _ _ _) eqn:E; intros; simplify_eq/=. apply length_hdr_store in E.
    destruct Hok. constructor; simpl; try done; try lia. by apply sscanf_nonneg.
Qed.

Lemma turn_crlf_ok p c p' n o r :
  decoder_ok p → status p ≠ READING_CONTENT → turn_crlf p c = (p', n, o, r) → decoder_ok p'.
Proof.
  intros [] Hs. unfold turn_crlf. repeat case_match; intros; simplify_eq;
    constructor; simpl in *; try done; intros; try lia.
Qed.

Lemma turn_content_ok p input room p' n o r :
  decoder_ok p → 0 < room → turn_content p input room = (p', n, o, r) → decoder_ok p'.
Proof.
  intros [] Hr. unfold turn_content. intros [= <- <- <- <-].
  constructor; simpl; try done; [lia|].
  destruct (Z.eqb_spec (chunk_left p - Z.min (Z.min (chunk_left p) (Z.of_nat (length input))) room) 0);
    [done|]. intros. lia.
Qed.

Lemma ref_step_ok p c p' n o r :
  decoder_ok p → ref_step p c = Some (p', n, o, r) → decoder_ok p'.
Proof.
  intros Hok. unfold ref_step. destruct (status p) eqn:Hs.
  - destruct (_ || _) eqn:Eh; [by apply turn_header_ok|].
    destruct (turn_header p c) as [[[[p1 n1] o1] r1]|] eqn:E; [|done]. simpl.
    intros [= Ec]. pose proof (turn_header_ok _ _ _ _ _ _ Hok Hs E) as Hok1.
    eapply turn_crlf_ok; [done| |done]. unfold turn_header in E.
    apply orb_false_elim in Eh as [Hc Hle%Z.leb_gt]. rewrite Hc in E.
    destruct (Z.ltb_spec 0 (hdr_buf_len p)); [|lia].
    destruct (hdr_store _ _ _); by simplify_eq/=.
  - intros E%(inj Some). by apply (turn_content_ok p [c] 1 p' n o r).
  - intros [= E]. eapply turn_crlf_ok; [done| |done]. congruence.
  - intros [= E]. eapply turn_crlf_ok; [done| |done]. congruence.
Qed.

(** ** The block moves *)

Definition after_move (k : Z) (p : EvdHttpChunkedDecoderPrivate) : EvdHttpChunkedDecoderPrivate :=
  let left := chunk_left p - k in
  mkDecoder left (if left =? 0 then READING_CRLF_2 else status p) (hdr_buf p) (hdr_buf_len p)
    (crlf_pos p).

Lemma add_output_add n1 o1 n2 o2 r :
  add_output n1 o1 (add_output n2 o2 r) = add_output (n1 + n2) (o1 ++ o2) r.
Proof. destruct r; simpl; [done..|]. by rewrite Z.add_assoc, app_assoc. Qed.

Lemma add_output_0 r : add_output 0 [] r = r.
Proof. by destruct r. Qed.

Lemma ref_step_content p c :
  status p = READING_CONTENT → 0 < chunk_left p →
  ref_step p c = Some (after_move 1 p, 1, [c], None).
Proof.
  intros Hs Hl. unfold ref_step, turn_content, after_move. rewrite Hs. simpl length.
  replace (Z.min (Z.min (chunk_left p) (Z.of_nat 1)) 1) with 1 by lia. done.
Qed.

Lemma ref_loop_content k p input room :
  status p = READING_CONTENT → (0 < k)%nat → Z.of_nat k <= chunk_left p →
  (k <= length input)%nat → Z.of_nat k <= room →
  ref_loop p input room =
    add_output (Z.of_nat k) (take k input)
      (ref_loop (after_move (Z.of_nat k) p) (drop k input) (room - Z.of_nat k)).
Proof.
  revert p input room. induction k as [|k IH]; intros p input room Hs Hk Hl Hi Hr; [lia|].
  destruct input as [|c input]; [simpl in Hi; lia|]. cbn [ref_loop take drop].
  destruct (Z.leb_spec room 0); [lia|]. rewrite ref_step_content by (done || lia).
  simpl length. change (Z.of_nat 1) with 1. destruct k as [|k].
  { done. }
  rewrite (IH (after_move 1 p)); try lia.
  - rewrite add_output_add. f_equal; [lia|]. f_equal; [|lia].
    unfold after_move; simpl. f_equal; [lia|].
    destruct (Z.eqb_spec (chunk_left p - 1) 0); [lia|].
    by replace (chunk_left p - 1 - Z.of_nat (S k)) with (chunk_left p - Z.of_nat (S (S k))) by lia.
  - simpl. by destruct (Z.eqb_spec (chunk_left p - 1) 0); [lia|].
  - simpl. lia.
  - simpl in Hi. lia.
Qed.

(** ** Refinement *)

Definition measure (p : EvdHttpChunkedDecoderPrivate) (input : list Z) : nat :=
  (2 * length input +
   match status p with READING_CRLF_1 | READING_CRLF_2 => 0 | _ => 1 end)%nat.

(** The turn that parses the header consumes nothing; the reference does it with the next one. *)
Lemma ref_loop_header p c input room p' :
  status p = READING_CHUNK_HEADER → 0 < room → turn_header p c = Some (p', 0, [], None) →
  ref_loop p (c :: input) room = ref_loop p' (c :: input) room ∧ status p' = READING_CRLF_1.
Proof.
  intros Hs Hr Ht. cbn [ref_loop]. destruct (Z.leb_spec room 0); [lia|].
  unfold ref_step at 1. rewrite Hs. pose proof Ht as Ht'. unfold turn_header in Ht'.
  destruct (header_char c); [by destruct (hdr_store _ _ _)|].
  destruct (Z.ltb_spec 0 (hdr_buf_len p)); [|done].
  destruct (Z.leb_spec (hdr_buf_len p) 0); [lia|]. simpl. rewrite Ht. simpl.
  destruct (hdr_store _ _ _) as [b|]; simplify_eq/=. done.
Qed.

Lemma turn_header_progress p c p' n o :
  turn_header p c = Some (p', n, o, None) →
  o = [] ∧ (n = 1 ∧ header_char c = true ∨ n = 0).
Proof. unfold turn_header. destruct (header_char c), (0 <? hdr_buf_len p); try destruct (hdr_store _ _ _);
  intros; simplify_eq/=; auto. Qed.

Lemma turn_crlf_progress p c p' n o : turn_crlf p c = (p', n, o, None) → n = 1 ∧ o = [].
Proof. unfold turn_crlf. repeat case_match; intros; by simplify_eq. Qed.

(** What one turn owes to the reference. *)
Definition turn_sound (p : EvdHttpChunkedDecoderPrivate) (input : list Z) (room : Z)
    (t : option (EvdHttpChunkedDecoderPrivate * Z * list Z * option GConverterResult)) : Prop :=
  match t with
  | None => ref_loop p input room = Overflow
  | Some (p', n, o, Some r) => ref_loop p input room = Converted p' n o r
  | Some (p', n, o, None) =>
      ref_loop p input room =
        add_output n o (ref_loop p' (drop (Z.to_nat n) input) (room - Z.of_nat (length o))) ∧
      decoder_ok p' ∧ (measure p' (drop (Z.to_nat n) input) < measure p input)%nat
  end.

Lemma measure_tail p c input p' : status p ≠ READING_CONTENT → (measure p' input < measure p (c :: input))%nat.
Proof. unfold measure. simpl. destruct (status p), (status p'); lia. Qed.

Lemma turn_header_sound p c input room :
  decoder_ok p → 0 < room → status p = READING_CHUNK_HEADER →
  turn_sound p (c :: input) room (turn_header p c).
Proof.
  intros Hok Hr Hs. assert ((room <=? 0) = false) as Hr0 by (apply Z.leb_gt; lia).
  destruct (turn_header p c) as [[[[p' n] o] [r|]]|] eqn:Et; cbn [turn_sound].
  - cbn [ref_loop]. rewrite Hr0. unfold ref_step. rewrite Hs.
    unfold turn_header in Et |- *. destruct (header_char c); [by destruct (hdr_store _ _ _)|].
    destruct (Z.ltb_spec 0 (hdr_buf_len p)); [by destruct (hdr_store _ _ _)|].
    simplify_eq. by destruct (Z.leb_spec (hdr_buf_len p') 0); [|lia].
  - pose proof (turn_header_ok _ _ _ _ _ _ Hok Hs Et) as Hok'.
    destruct (turn_header_progress _ _ _ _ _ Et) as [-> [[-> Hc]| ->]].
    + split_and!; [|done|apply measure_tail; congruence].
      cbn [ref_loop]. rewrite Hr0. unfold ref_step. rewrite Hs, Hc. simpl orb. cbv iota. by rewrite Et.
    + destruct (ref_loop_header p c input room p' Hs Hr Et) as [-> Hs'].
      rewrite add_output_0. simpl length. rewrite Z.sub_0_r. split_and!; [done..|].
      unfold measure. rewrite Hs, Hs'. simpl. lia.
  - cbn [ref_loop]. rewrite Hr0. unfold ref_step. rewrite Hs, Et. by destruct (_ || _).
Qed.

Lemma turn_crlf_sound p c input room :
  decoder_ok p → 0 < room → status p = READING_CRLF_1 ∨ status p = READING_CRLF_2 →
  turn_sound p (c :: input) room (Some (turn_crlf p c)).
Proof.
  intros Hok Hr Hs. destruct (turn_crlf p c) as [[[p' n] o] r] eqn:Et.
  assert (status p ≠ READING_CONTENT) as Hn by (by destruct Hs as [-> | ->]).
  pose proof (turn_crlf_ok _ _ _ _ _ _ Hok Hn Et) as Hok'.
  assert (ref_step p c = Some (p', n, o, r)) as Hstep.
  { unfold ref_step. destruct Hs as [-> | ->]; by rewrite Et. }
  assert ((room <=? 0) = false) as Hr0 by (apply Z.leb_gt; lia).
  destruct r as [r|]; cbn [turn_sound ref_loop]; rewrite Hr0, Hstep; [done|].
  apply turn_crlf_progress in Et as [-> ->].
  split_and!; [done|done|by apply measure_tail].
Qed.

Lemma turn_content_sound p c input room :
  decoder_ok p → 0 < room → status p = READING_CONTENT →
  turn_sound p (c :: input) room (Some (turn_content p (c :: input) room)).
Proof.
  intros Hok Hr Hs. pose proof (ok_content p Hok Hs) as Hl.
  destruct (turn_content p (c :: input) room) as [[[p' n] o] r] eqn:Et.
  pose proof (turn_content_ok _ _ _ _ _ _ _ Hok Hr Et) as Hok'.
  set (k := Z.to_nat (Z.min (Z.min (chunk_left p) (Z.of_nat (length (c :: input)))) room)).
  assert (Z.min (Z.min (chunk_left p) (Z.of_nat (length (c :: input)))) room = Z.of_nat k) as Ek
    by (subst k; simpl length; lia).
  assert (0 < k)%nat by (simpl length in Ek; lia).
  assert (k <= length (c :: input))%nat by lia.
  unfold turn_content in Et. rewrite Ek, Nat2Z.id in Et. injection Et as <- <- <- <-.
  cbn [turn_sound]. split_and!; [|done|].
  - rewrite (ref_loop_content k p (c :: input) room) by (done || lia).
    by rewrite Nat2Z.id, length_take_le by lia.
  - unfold measure. rewrite Nat2Z.id, length_drop, Hs. cbn [status]. destruct (_ =? 0); rewrite ?Hs; lia.
Qed.

Lemma convert_loop_refines fuel p input room :
  decoder_ok p → (measure p input <= fuel)%nat → convert_loop fuel p input room = ref_loop p input room.
Proof.
  revert p input room. induction fuel as [|fuel IH]; intros p input room Hok Hf;
    (destruct input as [|c input]; [done|]); [unfold measure in Hf; simpl in Hf; lia|].
  cbn [convert_loop]. destruct (Z.leb_spec room 0) as [Hr|Hr].
  { cbn [ref_loop]. by destruct (Z.leb_spec room 0); [|lia]. }
  assert (turn_sound p (c :: input) room (convert_turn p c (c :: input) room)) as Ht.
  { unfold convert_turn. destruct (status p) eqn:Hs;
      [by apply turn_header_sound|by apply turn_content_sound|apply turn_crlf_sound; auto..]. }
  destruct (convert_turn p c (c :: input) room) as [[[[p' n] o] [r|]]|]; cbn [turn_sound] in Ht; try done.
  destruct Ht as (-> & Hok' & Hm). f_equal. apply IH; [done|lia].
Qed.

Definition flagged (flush : bool) (r : outcome) : outcome :=
  match r with
  | Converted p pos out r =>
      Converted p pos out
        (if negb (bool_decide (r = CONVERTER_ERROR)) && flush then CONVERTER_FLUSHED else r)
  | r => r
  end.

Lemma convert_eq p inbuf outbuf_size flush :
  decoder_ok p → convert p inbuf outbuf_size flush = flagged flush (ref_loop p inbuf outbuf_size).
Proof.
  intros Hok. unfold convert. rewrite convert_loop_refines; [by destruct (ref_loop _ _ _)|done|].
  unfold measure, convert_fuel. destruct (status p); lia.
Qed.

(** ** Calls in sequence *)

Lemma ref_step_progress p c p' n o :
  decoder_ok p → ref_step p c = Some (p', n, o, None) → n = 1 ∧ (length o <= 1)%nat.
Proof.
  intros Hok. unfold ref_step. destruct (status p) eqn:Hs.
  - destruct (header_char c) eqn:Hc; simpl.
    + intros E. pose proof (turn_header_progress _ _ _ _ _ E) as [-> [[-> _]| ->]]; [auto|].
      unfold turn_header in E. rewrite Hc in E. by destruct (hdr_store _ _ _).
    + unfold turn_header. rewrite Hc. destruct (Z.leb_spec (hdr_buf_len p) 0).
      { by destruct (Z.ltb_spec 0 (hdr_buf_len p)); [lia|]. }
      destruct (Z.ltb_spec 0 (hdr_buf_len p)); [|lia].
      destruct (hdr_store _ _ _); simpl; [|done].
      intros E%(inj Some). apply turn_crlf_progress in E as [-> ->]. auto.
  - pose proof (ref_step_content p c Hs (ok_content p Hok Hs)) as E. unfold ref_step in E.
    rewrite Hs in E. rewrite E. intros [= <- <- <-]. auto.
  - intros E%(inj Some). apply turn_crlf_progress in E as [-> ->]. auto.
  - intros E%(inj Some). apply turn_crlf_progress in E as [-> ->]. auto.
Qed.

Lemma turn_crlf_verdict p c p' n o r :
  turn_crlf p c = (p', n, o, Some r) → r ≠ CONVERTER_CONVERTED.
Proof. unfold turn_crlf. repeat case_match; intros; by simplify_eq. Qed.

Lemma ref_step_verdict p c p' n o r :
  ref_step p c = Some (p', n, o, Some r) → r ≠ CONVERTER_CONVERTED.
Proof.
  unfold ref_step. destruct (status p); 
    [|done|intros E%(inj Some); by eapply turn_crlf_verdict..].
  destruct (turn_header p c) as [[[[p1 n1] o1] r1]|] eqn:E; [|by destruct (_ || _)].
  destruct (_ || _); simpl.
  - intros [= -> -> -> ->]. unfold turn_header in E.
    destruct (header_char c), (0 <? hdr_buf_len p); try destruct (hdr_store _ _ _); by simplify_eq/=.
  - intros E'%(inj Some). by eapply turn_crlf_verdict.
Qed.

(** One call, on a block of the stream, against the decoding of the whole stream. *)
Lemma ref_loop_decode l p n m :
  decoder_ok p →
  match ref_loop p (take n l) m with
  | Converted p' k out CONVERTER_CONVERTED =>
      decode p l = add_output k out (decode p' (drop (Z.to_nat k) l)) ∧ decoder_ok p' ∧ 0 <= k ∧
      ((0 < n)%nat → 0 < m → l ≠ [] → 0 < k)
  | r => decode p l = r
  end.
Proof.
  revert p n m. induction l as [|c l IH]; intros p n m Hok.
  { rewrite take_nil. simpl. split_and!; done. }
  destruct n as [|n]; cbn [take ref_loop].
  { rewrite add_output_0. split_and!; [done..|lia]. }
  destruct (Z.leb_spec m 0).
  { rewrite add_output_0. split_and!; [done..|lia]. }
  cbn [decode]. destruct (ref_step p c) as [[[[p1 n1] o1] r1]|] eqn:E; [|done].
  pose proof (ref_step_ok _ _ _ _ _ _ Hok E) as Hok1.
  destruct r1 as [r1|].
  { apply ref_step_verdict in E. by destruct r1. }
  destruct (ref_step_progress _ _ _ _ _ Hok E) as [-> Ho1].
  specialize (IH p1 n (m - Z.of_nat (length o1)) Hok1).
  destruct (ref_loop p1 (take n l) _) as [| |p' k out r]; simpl; [by rewrite IH..|].
  destruct r; [by rewrite IH| |by rewrite IH..].
  destruct IH as (-> & Hok' & Hk & _). split_and!; [|done|lia|lia].
  rewrite add_output_add. f_equal.
  replace (Z.to_nat (1 + k)) with (S (Z.to_nat k)) by lia. done.
Qed.

Lemma decode_not_nofuel l p : decode p l ≠ NoFuel.
Proof.
  revert p. induction l as [|c l IH]; intros p; [done|]. cbn [decode].
  destruct (ref_step p c) as [[[[p1 n1] o1] [r1|]]|]; try done.
  specialize (IH p1). by destruct (decode p1 l).
Qed.

(** A client that calls [convert] with successive buffer sizes on a stream, until the end of the
    body, an error, or no more calls. *)
Fixpoint run_calls (p : EvdHttpChunkedDecoderPrivate) (l : list Z) (calls : list (nat * Z))
  : outcome :=
  match calls with
  | [] => Converted p 0 [] CONVERTER_CONVERTED
  | (n, m) :: calls =>
      match convert p (take n l) m false with
      | Converted p k out CONVERTER_CONVERTED =>
          add_output k out (run_calls p (drop (Z.to_nat k) l) calls)
      | r => r
      end
  end.

Lemma run_calls_decode calls p l p' k out r :
  decoder_ok p → decode p l = Converted p' k out r → r ≠ CONVERTER_CONVERTED →
  Forall (λ '(n, m), (0 < n)%nat ∧ 0 < m) calls → (length l <= length calls)%nat →
  run_calls p l calls = Converted p' k out r.
Proof.
  intros Hok Hd Hr Hc Hl. revert p l k out Hok Hd Hl.
  induction Hc as [|[n m] calls [Hn Hm] _ IH]; intros p l k out Hok Hd Hl.
  { destruct l; [|simpl in Hl; lia]. simpl in *. by simplify_eq. }
  simpl. rewrite convert_eq by done.
  pose proof (ref_loop_decode l p n m Hok) as H.
  destruct (ref_loop p (take n l) m) as [| |p1 k1 o1 r1]; [congruence..|].
  cbn [flagged]. rewrite andb_false_r. destruct r1; [congruence| |congruence..].
  destruct H as (Hd1 & Hok1 & Hk1 & Hpos). rewrite Hd in Hd1.
  destruct (decode p1 (drop (Z.to_nat k1) l)) as [| |p2 k2 o2 r2] eqn:E2; try done.
  simpl in Hd1. injection Hd1 as -> -> -> ->.
  assert (l ≠ []) as Hne by (intros ->; simpl in Hd; congruence).
  rewrite (IH p1 _ k2 o2 Hok1 E2); [done|]. rewrite length_drop. specialize (Hpos Hn Hm Hne).
  simpl in Hl. destruct l; [done|]. simpl in *. lia.
Qed.

(** ** Well-formed bodies *)

(** A chunk as a sender may write it: any hexadecimal spelling of its length that fits the header
    buffer, upper or lower case, leading zeros allowed. *)
Record chunk := mkChunk { chunk_header : list Z; chunk_data : list Z }.

Definition is_hex (c : Z) : Prop := is_Some (hex_digit c).
Definition header_ok (h : list Z) (n : Z) : Prop :=
  h ≠ [] ∧ (length h <= 9)%nat ∧ Forall is_hex h ∧ hex_value 0 h = n ∧ n < 4294967296.
Definition chunk_ok (c : chunk) : Prop :=
  chunk_data c ≠ [] ∧ header_ok (chunk_header c) (Z.of_nat (length (chunk_data c))).

Definition encode_chunk (c : chunk) : list Z :=
  chunk_header c ++ [13; 10] ++ chunk_data c ++ [13; 10].
(** The last chunk is empty; the decoder finishes after its header line. *)
Definition encode (chunks : list chunk) (last : list Z) : list Z :=
  concat (encode_chunk <$> chunks) ++ last ++ [13; 10].

Lemma is_hex_facts c : is_hex c → header_char c = true ∧ c ≠ 0 ∧ c ≠ 32.
Proof.
  intros [d Hd]. unfold hex_digit in Hd. unfold header_char.
  destruct ((48 <=? c) && (c <=? 57)) eqn:E1; [apply andb_prop in E1 as [?%Z.leb_le ?%Z.leb_le]; split_and!; [done|lia..]|].
  destruct ((97 <=? c) && (c <=? 102)) eqn:E2; [apply andb_prop in E2 as [?%Z.leb_le ?%Z.leb_le]; split_and!; [done|lia..]|].
  destruct ((65 <=? c) && (c <=? 70)) eqn:E3; [apply andb_prop in E3 as [?%Z.leb_le ?%Z.leb_le]; split_and!; [done|lia..]|done].
Qed.

(** Between two chunks. *)
Definition at_header (p : EvdHttpChunkedDecoderPrivate) : Prop :=
  status p = READING_CHUNK_HEADER ∧ hdr_buf_len p = 0 ∧ crlf_pos p = 0 ∧ chunk_left p = 0 ∧
  length (hdr_buf p) = 10%nat.

(** Reading a header whose bytes [pre] are already in the buffer. *)
Definition in_header (pre : list Z) (p : EvdHttpChunkedDecoderPrivate) : Prop :=
  status p = READING_CHUNK_HEADER ∧ hdr_buf_len p = Z.of_nat (length pre) ∧ crlf_pos p = 0 ∧
  chunk_left p = 0 ∧ length (hdr_buf p) = 10%nat ∧ take (length pre) (hdr_buf p) = pre.

Lemma decode_header_chars h : ∀ pre p rest,
  Forall is_hex h → (length (pre ++ h) <= 9)%nat → in_header pre p →
  ∃ p', in_header (pre ++ h) p' ∧
    decode p (h ++ rest) = add_output (Z.of_nat (length h)) [] (decode p' rest).
Proof.
  induction h as [|c h IH]; intros pre p rest Hh Hl Hp.
  { exists p. rewrite app_nil_r. split; [done|]. by rewrite add_output_0. }
  apply Forall_cons in Hh as [Hc Hh]. destruct (is_hex_facts c Hc) as (Hch & _ & _).
  destruct Hp as (Hs & Hn & Hcr & Hcl & Hb & Ht). rewrite length_app in Hl. simpl in Hl.
  cbn [app decode]. unfold ref_step. rewrite Hs, Hch. simpl orb. cbv iota.
  unfold turn_header, hdr_store. rewrite Hch, Hn, Nat2Z.id.
  destruct (Z.ltb_spec (Z.of_nat (length pre)) 10); [|lia]. simpl.
  set (p1 := mkDecoder _ _ _ _ _).
  destruct (IH (pre ++ [c]) p1 rest Hh) as (p' & Hp' & ->).
  - rewrite !length_app. simpl. lia.
  - unfold in_header, p1; simpl. rewrite length_app, length_insert. simpl. split_and!; try done; [lia|].
    rewrite Nat.add_1_r, take_S_insert, Ht by lia. done.
  - exists p'. rewrite <-app_assoc in Hp'. split; [done|]. rewrite add_output_add. f_equal. lia.
Qed.

Lemma c_string_header h rest : Forall is_hex h → c_string (h ++ 0 :: rest) = h.
Proof.
  induction 1 as [|c h Hc _ IH]; [done|]. destruct (is_hex_facts c Hc) as (_ & Hz & _). simpl.
  destruct (Z.eqb_spec c 0); [done|]. by rewrite IH.
Qed.

Lemma sscanf_header h n : header_ok h n → 0 <= n → sscanf_x h 0 = n.
Proof.
  intros (Hne & _ & Hh & Hv & Hn) H0. destruct h as [|c h]; [done|].
  apply Forall_cons in Hh as [Hc _]. destruct (is_hex_facts c Hc) as (_ & _ & Hsp).
  unfold sscanf_x. cbn [skip_spaces]. destruct (Z.eqb_spec c 32); [done|].
  rewrite bool_decide_true by done. rewrite Hv. unfold u32. rewrite Z.mod_small by lia. done.
Qed.

Lemma decode_header_end h n p rest :
  in_header h p → header_ok h n → 0 <= n →
  ∃ p', chunk_left p' = n ∧ hdr_buf_len p' = 0 ∧ crlf_pos p' = 0 ∧ length (hdr_buf p') = 10%nat ∧
    (n = 0 → decode p (13 :: 10 :: rest) = Converted p' 2 [] CONVERTER_FINISHED) ∧
    (0 < n → status p' = READING_CONTENT ∧
      decode p (13 :: 10 :: rest) = add_output 2 [] (decode p' rest)).
Proof.
  intros (Hs & Hn & Hcr & Hcl & Hb & Ht) Hh H0. pose proof Hh as (Hne & Hl & Hhex & _ & _).
  assert (0 < length h)%nat by (destruct h; [done|simpl; lia]).
  cbn [decode]. unfold ref_step at 1 3. rewrite Hs, Hn.
  destruct (Z.leb_spec (Z.of_nat (length h)) 0); [lia|]. simpl orb. cbv iota.
  unfold turn_header, hdr_store. rewrite Hn, Hcl, Nat2Z.id, Hcr.
  destruct (Z.ltb_spec 0 (Z.of_nat (length h))); [|lia].
  destruct (Z.ltb_spec (Z.of_nat (length h)) 10); [|lia].
  change (header_char 13) with false. cbv iota. run_bind.
  assert (c_string (<[length h := 0]> (hdr_buf p)) = h) as Hcs.
  { rewrite <-(take_drop (length h) (hdr_buf p)), Ht, insert_app_r_alt by lia.
    rewrite Nat.sub_diag. destruct (drop (length h) (hdr_buf p)) as [|x t] eqn:Ed.
    - apply (f_equal length) in Ed. rewrite length_drop, Hb in Ed. simpl in Ed. lia.
    - cbn. by apply c_string_header. }
  rewrite Hcs, (sscanf_header h n Hh H0). unfold turn_crlf; simpl.
  unfold turn_crlf; simpl. set (b := <[length h := 0]> (hdr_buf p)).
  assert (length b = 10%nat) by (unfold b; by rewrite length_insert).
  destruct (Z.eqb_spec n 0) as [->|Hz].
  - exists (mkDecoder 0 READING_CRLF_1 b 0 0). by split_and!.
  - exists (mkDecoder n READING_CONTENT b 0 0). split_and!; try done. intros _. split; [done|].
    by rewrite add_output_add.
Qed.

Lemma decode_content data : ∀ p rest,
  status p = READING_CONTENT → chunk_left p = Z.of_nat (length data) → data ≠ [] →
  decode p (data ++ rest) =
    add_output (Z.of_nat (length data)) data
      (decode (after_move (Z.of_nat (length data)) p) rest).
Proof.
  induction data as [|c data IH]; intros p rest Hs Hl Hne; [done|].
  cbn [app decode]. rewrite ref_step_content by (done || (rewrite Hl; simpl; lia)).
  destruct data as [|c' data]; [done|].
  rewrite (IH (after_move 1 p)); [|..|done].
  - rewrite add_output_add. f_equal; [simpl; lia|]. f_equal. unfold after_move; simpl.
    f_equal; [lia|]. destruct (Z.eqb_spec (chunk_left p - 1) 0); [simpl in *; lia|].
    by replace (chunk_left p - 1 - Z.of_nat (S (length data)))
      with (chunk_left p - Z.of_nat (S (S (length data)))) by lia.
  - simpl. destruct (Z.eqb_spec (chunk_left p - 1) 0); [simpl in *; lia|done].
  - simpl in *. lia.
Qed.

Lemma decode_chunk c p rest :
  chunk_ok c → at_header p →
  ∃ p', at_header p' ∧
    decode p (encode_chunk c ++ rest) =
      add_output (Z.of_nat (length (encode_chunk c))) (chunk_data c) (decode p' rest).
Proof.
  intros [Hd Hh] (Hs & Hn & Hcr & Hcl & Hb). destruct c as [h d]; cbn [chunk_header chunk_data] in *.
  pose proof Hh as (Hne & Hl & Hhex & _ & _). unfold encode_chunk; cbn [chunk_header chunk_data].
  rewrite <-!app_assoc.
  destruct (decode_header_chars h [] p ([13; 10] ++ d ++ [13; 10] ++ rest) Hhex Hl)
    as (p1 & Hp1 & ->); [by split_and!|].
  destruct (decode_header_end h _ p1 (d ++ [13; 10] ++ rest) Hp1 Hh) as
    (p2 & Hcl2 & Hn2 & Hcr2 & Hb2 & _ & Hpos); [lia|].
  destruct Hpos as [Hs2 Hdec]; [destruct d; [done|simpl; lia]|].
  cbn [app] in Hdec |- *. rewrite Hdec, decode_content by done.
  unfold after_move. rewrite Hcl2, Z.sub_diag. simpl Z.eqb. cbv iota.
  cbn [decode]. unfold ref_step at 1, turn_crlf at 1; simpl. rewrite Hcr2. simpl.
  exists (mkDecoder 0 READING_CHUNK_HEADER (hdr_buf p2) 0 0). split; [by split_and!|].
  rewrite Hn2, !add_output_add. f_equal; [|by rewrite !app_nil_r].
  rewrite length_app. simpl. rewrite length_app. simpl. lia.
Qed.

Lemma at_header_ok p : at_header p → decoder_ok p.
Proof. intros (Hs & Hn & Hcr & Hcl & Hb). constructor; [lia|congruence|lia|done]. Qed.

Lemma decode_body chunks last p rest :
  Forall chunk_ok chunks → header_ok last 0 → at_header p →
  ∃ p', decode p (encode chunks last ++ rest) =
    Converted p' (Z.of_nat (length (encode chunks last))) (concat (chunk_data <$> chunks))
      CONVERTER_FINISHED.
Proof.
  intros Hc Hl Hp. unfold encode. revert p Hp. induction Hc as [|c chunks Hc _ IH]; intros p Hp.
  - destruct Hp as (Hs & Hn & Hcr & Hcl & Hb). pose proof Hl as (Hne & H9 & Hhex & _ & _).
    simpl. rewrite <-app_assoc.
    destruct (decode_header_chars last [] p ([13; 10] ++ rest) Hhex H9) as (p1 & Hp1 & ->);
      [by split_and!|].
    destruct (decode_header_end last 0 p1 rest Hp1 Hl) as (p2 & _ & _ & _ & _ & Hfin & _); [lia|].
    cbn [app]. rewrite (Hfin eq_refl). exists p2. simpl. rewrite length_app. simpl. f_equal. lia.
  - cbn [fmap list_fmap concat]. rewrite <-!app_assoc.
    destruct (decode_chunk c p (concat (encode_chunk <$> chunks) ++ last ++ [13; 10] ++ rest) Hc Hp)
      as (p1 & Hp1 & ->).
    destruct (IH p1 Hp1) as (p' & E). rewrite <-!app_assoc in E. rewrite E. exists p'. simpl.
    rewrite (length_app (encode_chunk c)). f_equal. lia.
Qed.

Lemma init_at_header : at_header evd_http_chunked_decoder_init.
Proof. by split_and!. Qed.



(** C4. Round trip under every schedule of calls: a body of non-empty chunks (each length written
    in any hexadecimal spelling of at most nine digits) and a last empty chunk, given to a fresh
    decoder in calls with any positive buffer sizes, is decoded to exactly the data of the chunks;
    the decoder finishes right after the last chunk's header line and reads nothing beyond it. *)
Theorem body_roundtrip (chunks : list chunk) (last rest : list Z) (calls : list (nat * Z)) :
  Forall chunk_ok chunks → header_ok last 0 →
  Forall (λ '(n, m), (0 < n)%nat ∧ 0 < m) calls →
  (length (encode chunks last ++ rest) <= length calls)%nat →
  ∃ p', run_calls evd_http_chunked_decoder_init (encode chunks last ++ rest) calls =
    Converted p' (Z.of_nat (length (encode chunks last))) (concat (chunk_data <$> chunks))
      CONVERTER_FINISHED.
Proof.
  intros Hc Hl Hcalls Hlen.
  destruct (decode_body chunks last evd_http_chunked_decoder_init rest Hc Hl init_at_header)
    as (p' & E).
  exists p'. by apply run_calls_decode.
Qed.

Definition demo_chunks : list chunk := [mkChunk [48; 51] [97; 98; 99]; mkChunk [65] (replicate 10 120)].

Lemma demo_chunks_ok : Forall chunk_ok demo_chunks.
Proof.
  assert (∀ c, hex_digit c ≠ None → is_hex c) as Hhex by (intros c; by apply not_eq_None_Some).
  apply Forall_cons; split; [|apply Forall_cons; split; [|by apply Forall_nil]].
  - split; [done|]. split_and!; [done|simpl; lia| |done|done].
    constructor; [by apply Hhex|]. constructor; [by apply Hhex|]. constructor.
  - split; [done|]. split_and!; [done|simpl; lia| |done|done].
    constructor; [by apply Hhex|]. constructor.
Qed.

Lemma body_roundtrip_witness :
  ∃ p', run_calls evd_http_chunked_decoder_init (encode demo_chunks [48] ++ [13; 10])
      (replicate 50 (3%nat, 2)) =
    Converted p' (Z.of_nat (length (encode demo_chunks [48]))) (concat (chunk_data <$> demo_chunks))
      CONVERTER_FINISHED.
Proof.
  apply (body_roundtrip demo_chunks [48] [13; 10] (replicate 50 (3%nat, 2))).
  - apply demo_chunks_ok.
  - split_and!; [done|simpl; lia| |done|done]. constructor; [by eexists|constructor].
  - apply Forall_replicate. lia.
  - vm_compute. lia.
Defined.

(** ** Bounds *)

Lemma ref_loop_bounds input : ∀ p room p' k out r,
  decoder_ok p → 0 <= room → ref_loop p input room = Converted p' k out r →
  0 <= k <= Z.of_nat (length input) ∧ Z.of_nat (length out) <= room ∧ decoder_ok p'.
Proof.
  induction input as [|c input IH]; intros p room p' k out r Hok Hr; cbn [ref_loop].
  { intros [= <- <- <- <-]. simpl. split_and!; [lia..|done]. }
  destruct (Z.leb_spec room 0); [intros [= <- <- <- <-]; simpl; split_and!; [lia..|done]|].
  destruct (ref_step p c) as [[[[p1 n1] o1] [r1|]]|] eqn:E; [| |done].
  - intros [= <- <- <- <-]. pose proof (ref_step_ok _ _ _ _ _ _ Hok E).
    assert (0 <= n1 <= 1 ∧ o1 = []) as [? ->]; [|simpl; split_and!; [lia..|done]].
    revert E. unfold ref_step, turn_crlf, turn_content, turn_header.
    repeat case_match; intros; repeat destruct (hdr_store _ _ _); simplify_eq/=;
      repeat case_match; simplify_eq/=; auto with lia.
  - pose proof (ref_step_ok _ _ _ _ _ _ Hok E) as Hok1.
    destruct (ref_step_progress _ _ _ _ _ Hok E) as [-> Ho].
    destruct (ref_loop p1 input _) as [| |p2 k2 o2 r2] eqn:E2; try done.
    intros [= <- <- <- <-]. apply IH in E2 as (Hk & Hl & Hok2); [|done|lia].
    rewrite length_app. simpl length. split_and!; [lia..|done].
Qed.

(** C24. Bounds of a call: on every reachable state, [convert] either overruns its header buffer
    or returns having read no more than [inbuf] holds and written no more than [outbuf] holds,
    in a state that is again fit for the next call. *)
Theorem convert_within_bounds (p : EvdHttpChunkedDecoderPrivate) (inbuf : list Z)
    (outbuf_size : Z) (flush : bool) :
  decoder_ok p → 0 <= outbuf_size →
  convert p inbuf outbuf_size flush = Overflow ∨
  ∃ p' bytes_read out r, convert p inbuf outbuf_size flush = Converted p' bytes_read out r ∧
    0 <= bytes_read <= Z.of_nat (length inbuf) ∧ Z.of_nat (length out) <= outbuf_size ∧
    decoder_ok p'.
Proof.
  intros Hok Ho. rewrite convert_eq by done.
  pose proof (ref_loop_decode inbuf p (length inbuf) outbuf_size Hok) as Hd.
  rewrite take_ge in Hd by done.
  destruct (ref_loop p inbuf outbuf_size) as [| |p' k out r] eqn:E; [|by left|right].
  - by apply decode_not_nofuel in Hd.
  - apply ref_loop_bounds in E as (Hk & Hl & Hok'); [|done..]. simpl. eauto 10.
Qed.

Lemma convert_within_bounds_witness :
  convert evd_http_chunked_decoder_init [51; 13; 10; 97; 98; 99; 13] 2 false = Overflow ∨
  ∃ p' bytes_read out r,
    convert evd_http_chunked_decoder_init [51; 13; 10; 97; 98; 99; 13] 2 false =
      Converted p' bytes_read out r ∧
    0 <= bytes_read <= Z.of_nat (length [51; 13; 10; 97; 98; 99; 13]) ∧
    Z.of_nat (length out) <= 2 ∧ decoder_ok p'.
Proof.
  apply (convert_within_bounds evd_http_chunked_decoder_init [51; 13; 10; 97; 98; 99; 13] 2 false).
  - apply at_header_ok, init_at_header.
  - lia.
Defined.

(** The header buffer has no bound check: a chunk length of ten digits, sent by the peer,
    makes the decoder write past the end of [hdr_buf]. *)
Example long_header_overflows :
  convert evd_http_chunked_decoder_init (replicate 10 48 ++ [13; 10]) 4096 false = Overflow.
Proof. vm_compute. reflexivity. Qed.

(** A header line of spaces only passes for the last chunk. *)
Example blank_header_finishes : ∃ p,
  convert evd_http_chunked_decoder_init [32; 13; 10] 4096 false =
    Converted p 3 [] CONVERTER_FINISHED.
Proof. eexists. vm_compute. reflexivity. Qed.

End ChunkedDecoderSpec.
