(* ===== verification/Throttle.v ===== *)
(** * Stream throttles and throttled streams: model

    src/evd/evd-stream-throttle.c, src/evd/evd-throttled-input-stream.c and
    src/evd/evd-throttled-output-stream.c.  A throttle is a shared object: several streams may hold
    the same one, so the throttles live in a store and the streams hold their names.  GLib's [MIN]
    is a macro that evaluates an argument again to return it, which matters because the argument
    is a call.  [gsize], [gssize] and [gulong] have 64 bits, [guint] 32. *)
From S2P Require Import Prelude.
From Stdlib Require Import QArith.QArith QArith.Qround.
#[local] Open Scope Z_scope.

Module Throttle.

Record GTimeVal := mkTime { tv_sec : Z; tv_usec : Z }.

Record EvdStreamThrottlePrivate := mkThrottle {
  bandwidth : Z;
  latency : Z;
  current_time : GTimeVal;
  bytes : Z;
  actual_bandwidth : Z;
  total : Z;
  last : GTimeVal
}.

Definition evd_stream_throttle_init : EvdStreamThrottlePrivate :=
  mkThrottle 0 0 (mkTime 0 0) 0 0 0 (mkTime 0 0).

Inductive throttle_property := PROP_BANDWIDTH (v : Q) | PROP_LATENCY (v : Q).

(** A [gfloat] is a dyadic rational and its product by 1024.0 or 1000.0 is exact in a [gdouble]. *)
Definition evd_stream_throttle_set_property (prop : throttle_property)
    (p : EvdStreamThrottlePrivate) : EvdStreamThrottlePrivate :=
  match prop with
  | PROP_BANDWIDTH v =>
      mkThrottle (Qfloor (v * 1024)) (latency p) (current_time p) (bytes p) (actual_bandwidth p)
        (total p) (last p)
  | PROP_LATENCY v =>
      mkThrottle (bandwidth p) (Qfloor (v * 1000)) (current_time p) (bytes p) (actual_bandwidth p)
        (total p) (last p)
  end.

(** [now] is what [g_get_current_time] answers. *)
Definition evd_stream_throttle_update_current_time (now : GTimeVal)
    (p : EvdStreamThrottlePrivate) : EvdStreamThrottlePrivate :=
  if negb (tv_sec now =? tv_sec (current_time p)) then
    mkThrottle (bandwidth p) (latency p) now 0 (bytes p) (total p) (last p)
  else
    mkThrottle (bandwidth p) (latency p) now (bytes p) (actual_bandwidth p) (total p) (last p).

Definition g_timeval_get_diff_micro (time1 time2 : GTimeVal) : Z :=
  u64 (u64 (Z.abs (tv_sec time2 - tv_sec time1) * 1000000)
       + Z.abs (tv_usec time2 - tv_usec time1)).

(** [wait] is the pointed value, [None] for a [NULL] pointer. *)
Definition evd_stream_throttle_request_internal (p : EvdStreamThrottlePrivate) (size : Z)
    (wait : option Z) : Z * option Z :=
  let '(actual_size, wait) :=
    if 0 <? latency p then
      let elapsed := g_timeval_get_diff_micro (current_time p) (last p) in
      if elapsed <? latency p then
        (0, (λ w, u32 (Z.max ((latency p - elapsed) / 1000 + 2) w)) <$> wait)
      else (size, wait)
    else (size, wait) in
  if (0 <? bandwidth p) && (0 <? actual_size) then
    let actual_size := Z.max (s64 (bandwidth p - bytes p)) 0 in
    let actual_size := Z.min actual_size size in
    (actual_size,
     if actual_size <? size then
       (λ w, Z.max (u32 (u32 ((1000001 - tv_usec (current_time p)) / 1000) + 1)) w) <$> wait
     else wait)
  else (actual_size, wait).

Definition evd_stream_throttle_request (now : GTimeVal) (p : EvdStreamThrottlePrivate) (size : Z)
    (wait : option Z) : EvdStreamThrottlePrivate * Z * option Z :=
  let p := evd_stream_throttle_update_current_time now p in
  let '(actual_size, wait) := evd_stream_throttle_request_internal p size wait in
  (p, actual_size, wait).

Definition evd_stream_throttle_report (now : GTimeVal) (p : EvdStreamThrottlePrivate) (size : Z)
  : EvdStreamThrottlePrivate :=
  let p := evd_stream_throttle_update_current_time now p in
  mkThrottle (bandwidth p) (latency p) (current_time p) (u64 (bytes p + size))
    (actual_bandwidth p) (u64 (total p + size)) (current_time p).

(** ** Streams over a store of throttles *)

Record world := mkWorld {
  throttles : gmap nat EvdStreamThrottlePrivate;
  clock_calls : nat       (* calls made to [g_get_current_time] *)
}.

Definition update_throttle (id : nat) (p : EvdStreamThrottlePrivate) (w : world) : world :=
  mkWorld (<[id := p]> (throttles w)) (S (clock_calls w)).

Inductive event :=
  | DelayRead (msec : Z)
  | DelayWrite (msec : Z)
  | Reported (id : nat) (sec size : Z).    (* a transfer accounted by a throttle *)

(** What the base stream answers for [size] bytes: the bytes transferred, negative on error. *)
Definition base_stream := Z → Z.

Section Streams.
Context (clock : nat → GTimeVal).

Definition request (id : nat) (size : Z) (wait : option Z) (w : world)
  : option (world * Z * option Z) :=
  p ← throttles w !! id;
  let '(p, r, wait) := evd_stream_throttle_request (clock (clock_calls w)) p size wait in
  Some (update_throttle id p w, r, wait).

(** [MIN (size, evd_stream_throttle_request (...))]: the call is made again when it is not
    larger than [size]. *)
Definition min_request (id : nat) (size : Z) (wait : option Z) (w : world)
  : option (world * Z * option Z) :=
  '(w, r, wait) ← request id size wait w;
  if size <? r then Some (w, size, wait) else request id size wait w.

(** The loop over the throttles of a stream; [None] is a dangling name. *)
Fixpoint max_over_throttles (ids : list nat) (size : Z) (wait : option Z) (w : world)
  : option (world * Z * option Z) :=
  match ids with
  | [] => Some (w, size, wait)
  | id :: ids =>
      '(w, size, wait) ← min_request id size wait w;
      max_over_throttles ids size wait w
  end.

Definition evd_throttled_input_stream_get_max_readable_priv (ids : list nat) (size : Z)
    (retry_wait : option Z) (w : world) : option (world * Z * option Z) :=
  max_over_throttles ids size retry_wait w.

Definition evd_throttled_output_stream_get_max_writable_priv (ids : list nat) (size : Z)
    (retry_wait : option Z) (w : world) : option (world * Z * option Z * list event) :=
  '(w, size, wait) ← max_over_throttles ids size (Some 0) w;
  let wait := default 0 wait in
  Some (w, size, (λ _, wait) <$> retry_wait, if 0 <? wait then [DelayWrite wait] else []).

(** [g_list_foreach] over the throttles with the size transferred. *)
Fixpoint report_all (ids : list nat) (size : Z) (w : world) : option (world * list event) :=
  match ids with
  | [] => Some (w, [])
  | id :: ids =>
      p ← throttles w !! id;
      let now := clock (clock_calls w) in
      let w := update_throttle id (evd_stream_throttle_report now p size) w in
      '(w, evs) ← report_all ids size w;
      Some (w, Reported id (tv_sec now) size :: evs)
  end.

Definition evd_throttled_input_stream_read (ids : list nat) (base : base_stream) (size : Z)
    (w : world) : option (world * Z * list event) :=
  if size =? 0 then Some (w, 0, [])
  else
    (* MIN (size, get_max_readable_priv (...)) *)
    '(w, r, wait) ← evd_throttled_input_stream_get_max_readable_priv ids size (Some 0) w;
    '(w, limited_size, wait) ←
      (if size <? r then Some (w, size, wait)
       else evd_throttled_input_stream_get_max_readable_priv ids size wait w);
    '(w, actual_size, evs) ←
      (if 0 <? limited_size then
         let actual_size := base limited_size in
         if 0 <? actual_size then
           '(w, evs) ← report_all ids actual_size w; Some (w, actual_size, evs)
         else Some (w, actual_size, [])
       else Some (w, -1, []));
    let wait := default 0 wait in
    Some (w, actual_size, evs ++ if 0 <? wait then [DelayRead wait] else []).

Definition evd_throttled_output_stream_write (ids : list nat) (base : base_stream) (size : Z)
    (w : world) : option (world * Z * list event) :=
  if size =? 0 then Some (w, 0, [])
  else
    '(w, r, wait, evs1) ← evd_throttled_output_stream_get_max_writable_priv ids size (Some 0) w;
    '(w, limited_size, evs2) ←
      (if size <? r then Some (w, size, [])
       else '(w, r, _, evs) ← evd_throttled_output_stream_get_max_writable_priv ids size wait w;
            Some (w, r, evs));
    '(w, actual_size, evs3) ←
      (if 0 <? limited_size then
         let actual_size := base limited_size in
         if 0 <? actual_size then
           '(w, evs) ← report_all ids actual_size w; Some (w, actual_size, evs)
         else Some (w, actual_size, [])
       else Some (w, -1, []));
    Some (w, actual_size, evs1 ++ evs2 ++ evs3).

Definition evd_throttled_input_stream_get_max_readable (ids : list nat) (retry_wait : option Z)
    (w : world) : option (world * Z * option Z) :=
  evd_throttled_input_stream_get_max_readable_priv ids 9223372036854775807 retry_wait w.

Definition evd_throttled_output_stream_get_max_writable (ids : list nat) (retry_wait : option Z)
    (w : world) : option (world * Z * option Z * list event) :=
  evd_throttled_output_stream_get_max_writable_priv ids 9223372036854775807 retry_wait w.

End Streams.

(** The list of throttles of a stream, each at most once. *)
Definition evd_throttled_input_stream_add_throttle (id : nat) (ids : list nat) : list nat :=
  if decide (id ∈ ids) then ids else id :: ids.
(** [g_list_remove] removes the first occurrence. *)
Fixpoint g_list_remove (id : nat) (ids : list nat) : list nat :=
  match ids with
  | [] => []
  | x :: ids => if decide (x = id) then ids else x :: g_list_remove id ids
  end.
Definition evd_throttled_input_stream_remove_throttle (id : nat) (ids : list nat) : list nat :=
  if decide (id ∈ ids) then g_list_remove id ids else ids.
Definition evd_throttled_output_stream_add_throttle (id : nat) (ids : list nat) : list nat :=
  if decide (id ∈ ids) then ids else id :: ids.
Definition evd_throttled_output_stream_remove_throttle (id : nat) (ids : list nat) : list nat :=
  if decide (id ∈ ids) then g_list_remove id ids else ids.

End Throttle.
