(* ===== verification/ThrottleSpec.v ===== *)
(** * Stream throttles: theorems

    The bandwidth of a throttle bounds the bytes its streams transfer in any second of the clock,
    whatever streams share it and however their operations interleave; the wait a refused request
    reports is long enough; the latency is not enforced across a change of second. *)
From S2P Require Import Prelude Throttle.
From Stdlib Require Import QArith.QArith.
Import Throttle.
#[local] Open Scope Z_scope.

Module ThrottleSpec.

(** ** One throttle *)

Record throttle_ok (p : EvdStreamThrottlePrivate) : Prop := mkOk {
  ok_bytes : 0 <= bytes p;
  ok_range : bytes p < 9223372036854775808;
  ok_bandwidth : bandwidth p < 9223372036854775808
}.

Lemma s64_small z : - 9223372036854775808 <= z < 9223372036854775808 → s64 z = z.
Proof. intros. unfold s64. rewrite Z.mod_small; lia. Qed.

(** Room left in the current second; only a throttle with a bandwidth limits. *)
Definition room (p : EvdStreamThrottlePrivate) (size : Z) : Prop :=
  0 < bandwidth p → bytes p + size <= bandwidth p.

Lemma request_internal_bounds p size wait r wait' :
  0 <= size → (0 < bandwidth p → throttle_ok p ∧ bytes p <= bandwidth p) →
  evd_stream_throttle_request_internal p size wait = (r, wait') → 0 <= r <= size ∧ room p r.
Proof.
  intros Hs Hb. unfold evd_stream_throttle_request_internal, room.
  destruct (if 0 <? latency p then _ else _) as [a wt] eqn:Ea.
  assert (0 <= a <= size) as Ha.
  { destruct (0 <? latency p); [destruct (_ <? latency p)|]; simplify_eq; lia. }
  destruct (Z.ltb_spec 0 (bandwidth p)), (Z.ltb_spec 0 a); simpl; intros [= <- <-].
  - destruct Hb as [[H1 H2 H3] Hb]; [done|]. rewrite s64_small by lia. lia.
  - destruct Hb as [[H1 H2 H3] Hb]; [done|]. lia.
  - lia.
  - lia.
Qed.

(** ** The log of transfers *)

(** The bytes accounted by throttle [id] in second [s]. *)
Fixpoint sent (id : nat) (s : Z) (evs : list event) : Z :=
  match evs with
  | [] => 0
  | Reported i t n :: evs => (if decide (i = id ∧ t = s) then n else 0) + sent id s evs
  | _ :: evs => sent id s evs
  end.

Lemma sent_app id s e1 e2 : sent id s (e1 ++ e2) = sent id s e1 + sent id s e2.
Proof. induction e1 as [|[] e1 IH]; simpl; lia. Qed.

(** The counter of a throttle agrees with the log, and the log respects the bandwidth. *)
Record accounted (log : list event) (id : nat) (p : EvdStreamThrottlePrivate) : Prop := mkAcc {
  acc_ok : throttle_ok p;
  acc_now : bytes p = sent id (tv_sec (current_time p)) log;
  acc_later : ∀ s, tv_sec (current_time p) < s → sent id s log = 0;
  acc_bound : ∀ s, sent id s log <= bandwidth p
}.

Lemma update_time_accounted log id now p :
  accounted log id p → tv_sec (current_time p) <= tv_sec now →
  accounted log id (evd_stream_throttle_update_current_time now p).
Proof.
  intros [[H1 H2 H3] Hn Hl Hb] Ht. unfold evd_stream_throttle_update_current_time.
  destruct (Z.eqb_spec (tv_sec now) (tv_sec (current_time p))) as [E|E]; simpl.
  - split; simpl; [done| |intros; apply Hl; lia|done]. by rewrite E.
  - split; simpl; [split; simpl; lia| |intros; apply Hl; lia|done]. rewrite Hl; lia.
Qed.

Lemma update_time_fields now p :
  bandwidth (evd_stream_throttle_update_current_time now p) = bandwidth p ∧
  current_time (evd_stream_throttle_update_current_time now p) = now.
Proof. unfold evd_stream_throttle_update_current_time. by destruct (negb _). Qed.

Lemma update_time_room now p size :
  room p size → (0 < bandwidth p → 0 <= bytes p) →
  room (evd_stream_throttle_update_current_time now p) size.
Proof.
  unfold room, evd_stream_throttle_update_current_time. destruct (negb _); simpl; intros; lia.
Qed.

(** The log entry of another throttle does not matter. *)
Lemma accounted_other log id i s n p :
  i ≠ id → accounted log id p → accounted (log ++ [Reported i s n]) id p.
Proof.
  intros Hne [Hok Hn Hl Hb].
  assert (∀ t, sent id t (log ++ [Reported i s n]) = sent id t log) as E.
  { intros t. rewrite sent_app. simpl. rewrite decide_False by (by intros [??]). lia. }
  split; [done|..]; intros; rewrite E; auto.
Qed.

Lemma report_accounted log id now p size :
  accounted log id p → tv_sec (current_time p) <= tv_sec now → 0 <= size →
  0 < bandwidth p → room p size →
  accounted (log ++ [Reported id (tv_sec now) size]) id (evd_stream_throttle_report now p size).
Proof.
  intros Hacc Ht Hs Hbw Hr.
  pose proof (update_time_accounted _ _ _ _ Hacc Ht) as Hacc'.
  pose proof (update_time_room now p size Hr (λ _, ok_bytes p (acc_ok _ _ _ Hacc))) as Hr'.
  unfold evd_stream_throttle_report. destruct (update_time_fields now p) as [Eb Et].
  set (q := evd_stream_throttle_update_current_time now p) in *. clearbody q.
  destruct Hacc' as [[H1 H2 H3] Hn Hl Hb]. rewrite Et in *. unfold room in *.
  assert (u64 (bytes q + size) = bytes q + size) as Eu by (apply Z.mod_small; lia).
  split; simpl; rewrite ?Eu.
  - split; simpl; lia.
  - rewrite sent_app. simpl. rewrite decide_True by done. lia.
  - intros s Hlt. rewrite sent_app. simpl. rewrite decide_False by lia. rewrite Hl; lia.
  - intros s. rewrite sent_app. simpl. specialize (Hb s). destruct (decide _) as [[_ <-]|]; lia.
Qed.

(** ** The store *)

Section Clock.
Context (clock : nat → GTimeVal).
Context (clock_monotone : ∀ i j, (i <= j)%nat → tv_sec (clock i) <= tv_sec (clock j)).

Definition limited_ok (log : list event) (n : nat) (id : nat) (p : EvdStreamThrottlePrivate) : Prop :=
  0 < bandwidth p → accounted log id p ∧ tv_sec (current_time p) <= tv_sec (clock n).

Definition world_ok (log : list event) (w : world) : Prop :=
  map_Forall (limited_ok log (clock_calls w)) (throttles w).

(** Every throttle of the list has room for [size] more bytes. *)
Definition granted (ids : list nat) (size : Z) (w : world) : Prop :=
  ∀ id p, id ∈ ids → throttles w !! id = Some p → room p size.

Definition same_bandwidths (w w' : world) : Prop :=
  ∀ id, bandwidth <$> throttles w' !! id = bandwidth <$> throttles w !! id.

Lemma limited_later log n n' id p : (n <= n')%nat → limited_ok log n id p → limited_ok log n' id p.
Proof. intros Hn H Hb. destruct (H Hb) as [Ha Ht]. split; [done|]. pose proof (clock_monotone n n' Hn). lia. Qed.

Lemma request_ok log ids s id size wait w w' r wait' :
  world_ok log w → 0 <= size → granted ids s w →
  request clock id size wait w = Some (w', r, wait') →
  world_ok log w' ∧ 0 <= r <= size ∧ granted [id] r w' ∧ granted ids s w' ∧ same_bandwidths w w'.
Proof.
  intros Hw Hs Hg. unfold request. destruct (throttles w !! id) as [p|] eqn:Ep; [|done]. simpl.
  unfold evd_stream_throttle_request. destruct (update_time_fields (clock (clock_calls w)) p) as [Eb Et].
  set (q := evd_stream_throttle_update_current_time (clock (clock_calls w)) p) in *.
  destruct (evd_stream_throttle_request_internal q size wait) as [r0 wt] eqn:Er.
  intros [= <- <- <-]. pose proof (map_Forall_lookup_1 _ _ _ _ Hw Ep) as Hp.
  assert (0 < bandwidth q → accounted log id q) as Hq.
  { intros Hb. rewrite Eb in Hb. destruct (Hp Hb). by apply update_time_accounted. }
  apply request_internal_bounds in Er as [Hr Hroom]; [|done|].
  2: { intros Hb. destruct (Hq Hb) as [? Hn ? Hbd]. split; [done|]. rewrite Hn. apply Hbd. }
  split_and!; try lia.
  - intros i x. simpl. destruct (decide (i = id)) as [->|Hne].
    + rewrite lookup_insert_eq. intros [= <-] Hb. split; [auto|]. rewrite Et. apply clock_monotone. lia.
    + rewrite lookup_insert_ne by done. intros Hx. eapply limited_later; [|by apply Hw]. lia.
  - intros i x Hi. apply list_elem_of_singleton in Hi as ->. simpl. rewrite lookup_insert_eq.
    by intros [= <-].
  - intros i x Hi. simpl. destruct (decide (i = id)) as [->|Hne].
    + rewrite lookup_insert_eq. intros [= <-]. apply update_time_room; [by eapply Hg|].
      intros Hb. destruct (Hp Hb) as [[[] _ _ _] _]. done.
    + rewrite lookup_insert_ne by done. by apply Hg.
  - intros i. simpl. destruct (decide (i = id)) as [->|Hne].
    + rewrite lookup_insert_eq, Ep. simpl. by rewrite Eb.
    + by rewrite lookup_insert_ne.
Qed.

Lemma granted_weaken ids s s' w : s' <= s → granted ids s w → granted ids s' w.
Proof. intros Hle H id p Hi Hp Hb. specialize (H id p Hi Hp Hb). lia. Qed.

Lemma granted_app ids1 ids2 s w : granted ids1 s w → granted ids2 s w → granted (ids1 ++ ids2) s w.
Proof. intros H1 H2 id p [Hi|Hi]%elem_of_app; eauto. Qed.

Lemma same_bandwidths_trans w1 w2 w3 :
  same_bandwidths w1 w2 → same_bandwidths w2 w3 → same_bandwidths w1 w3.
Proof. intros H1 H2 id. by rewrite H2. Qed.

Lemma min_request_ok log ids id size wait w w' r wait' :
  world_ok log w → 0 <= size → granted ids size w →
  min_request clock id size wait w = Some (w', r, wait') →
  world_ok log w' ∧ 0 <= r <= size ∧ granted (ids ++ [id]) r w' ∧ same_bandwidths w w'.
Proof.
  intros Hw Hs Hg. unfold min_request.
  destruct (request clock id size wait w) as [[[w1 r1] wt1]|] eqn:E1; [|done]. simpl.
  destruct (request_ok _ _ _ _ _ _ _ _ _ _ Hw Hs Hg E1) as (Hw1 & Hr1 & Hid1 & Hg1 & Hb1).
  destruct (Z.ltb_spec size r1); [lia|]. intros E2.
  destruct (request_ok _ _ _ _ _ _ _ _ _ _ Hw1 Hs Hg1 E2) as (Hw2 & Hr2 & Hid2 & Hg2 & Hb2).
  split_and!; [done|lia|lia| |by eapply same_bandwidths_trans].
  apply granted_app; [|done]. eapply granted_weaken; [|done]. lia.
Qed.

Lemma max_over_throttles_ok log ids : ∀ before size wait w w' r wait',
  world_ok log w → 0 <= size → granted before size w →
  max_over_throttles clock ids size wait w = Some (w', r, wait') →
  world_ok log w' ∧ 0 <= r <= size ∧ granted (before ++ ids) r w' ∧ same_bandwidths w w'.
Proof.
  induction ids as [|id ids IH]; intros before size wait w w' r wait' Hw Hs Hg; simpl.
  { intros [= <- <- <-]. rewrite app_nil_r. by split_and!. }
  destruct (min_request clock id size wait w) as [[[w1 r1] wt1]|] eqn:E1; [|done]. simpl. intros E2.
  destruct (min_request_ok _ _ _ _ _ _ _ _ _ Hw Hs Hg E1) as (Hw1 & Hr1 & Hg1 & Hb1).
  destruct (IH _ _ _ _ _ _ _ Hw1 (proj1 Hr1) Hg1 E2) as (Hw2 & Hr2 & Hg2 & Hb2).
  rewrite <-app_assoc in Hg2. split_and!; [done|lia|lia|done|by eapply same_bandwidths_trans].
Qed.

Lemma report_all_ok ids : ∀ log size w w' evs,
  world_ok log w → NoDup ids → 0 <= size → granted ids size w →
  report_all clock ids size w = Some (w', evs) →
  world_ok (log ++ evs) w' ∧ same_bandwidths w w'.
Proof.
  induction ids as [|id ids IH]; intros log size w w' evs Hw Hnd Hs Hg; simpl.
  { intros [= <- <-]. by rewrite app_nil_r. }
  apply NoDup_cons in Hnd as [Hni Hnd].
  destruct (throttles w !! id) as [p|] eqn:Ep; [|done]. simpl.
  set (now := clock (clock_calls w)). set (w1 := update_throttle _ _ w).
  destruct (report_all clock ids size w1) as [[w2 evs2]|] eqn:E2; [|done]. simpl. intros [= <- <-].
  destruct (update_time_fields now p) as [Eb Et].
  assert (world_ok (log ++ [Reported id (tv_sec now) size]) w1) as Hw1.
  { intros i x. simpl. destruct (decide (i = id)) as [->|Hne].
    - rewrite lookup_insert_eq. intros [= <-]. unfold limited_ok, evd_stream_throttle_report; simpl.
      rewrite Eb, Et. intros Hb. split; [|by apply clock_monotone; lia].
      destruct (map_Forall_lookup_1 _ _ _ _ Hw Ep Hb) as [Ha Ht].
      pose proof (report_accounted log id now p size Ha Ht Hs Hb) as Hacc.
      unfold evd_stream_throttle_report in Hacc. rewrite Eb, Et in Hacc. apply Hacc.
      eapply Hg; [|done]. by left.
    - rewrite lookup_insert_ne by done. intros Hx Hb.
      destruct (map_Forall_lookup_1 _ _ _ _ Hw Hx Hb) as [Ha Ht].
      split; [by apply accounted_other|]. pose proof (clock_monotone (clock_calls w) (S (clock_calls w))). lia. }
  assert (granted ids size w1) as Hg1.
  { intros i x Hi. simpl. rewrite lookup_insert_ne by (by intros <-). intros Hx. eapply Hg; [|done].
    by right. }
  assert (same_bandwidths w w1) as Hb1.
  { intros i. simpl. destruct (decide (i = id)) as [->|Hne]; [|by rewrite lookup_insert_ne].
    rewrite lookup_insert_eq, Ep. simpl. by rewrite Eb. }
  destruct (IH _ _ _ _ _ Hw1 Hnd Hs Hg1 E2) as [Hw2 Hb2].
  rewrite <-app_assoc in Hw2. split; [done|]. by eapply same_bandwidths_trans.
Qed.

(** Signals do not count. *)
Lemma world_ok_signals log evs w :
  (∀ id s, sent id s evs = 0) → world_ok log w → world_ok (log ++ evs) w.
Proof.
  intros He Hw id p Hp Hb. destruct (map_Forall_lookup_1 _ _ _ _ Hw Hp Hb) as [[Hok Hn Hl Hbd] Ht].
  assert (∀ s, sent id s (log ++ evs) = sent id s log) as E by (intros s; rewrite sent_app, He; lia).
  split; [|done]. split; [done|..]; intros; rewrite E; auto.
Qed.

Definition base_ok (base : base_stream) : Prop := ∀ n, base n <= n.

(** The common end of a read and of a write. *)
Definition transfer (ids : list nat) (base : base_stream) (limited_size : Z) (w : world)
  : option (world * Z * list event) :=
  if 0 <? limited_size then
    let actual_size := base limited_size in
    if 0 <? actual_size then
      '(w, evs) ← report_all clock ids actual_size w; Some (w, actual_size, evs)
    else Some (w, actual_size, [])
  else Some (w, -1, []).

Lemma transfer_ok log ids base n w w' r evs :
  world_ok log w → NoDup ids → base_ok base → granted ids n w →
  transfer ids base n w = Some (w', r, evs) → world_ok (log ++ evs) w' ∧ same_bandwidths w w' ∧ r <= Z.max n 0.
Proof.
  intros Hw Hnd Hbase Hg. unfold transfer. specialize (Hbase n).
  destruct (Z.ltb_spec 0 n); [|intros [= <- <- <-]; rewrite app_nil_r; split_and!; [done|done|lia]].
  destruct (Z.ltb_spec 0 (base n)); [|intros [= <- <- <-]; rewrite app_nil_r; split_and!; [done|done|lia]].
  destruct (report_all clock ids (base n) w) as [[w1 e1]|] eqn:E; [|done]. simpl. intros [= <- <- <-].
  eapply report_all_ok in E as [Hw1 Hb1]; [|done|done|lia|by eapply granted_weaken].
  split_and!; [done|done|lia].
Qed.

Lemma granted_nil n w : granted [] n w.
Proof. intros id p Hi. by apply not_elem_of_nil in Hi. Qed.

Lemma read_ok log ids base size w w' r evs :
  world_ok log w → NoDup ids → base_ok base → 0 <= size →
  evd_throttled_input_stream_read clock ids base size w = Some (w', r, evs) →
  world_ok (log ++ evs) w' ∧ same_bandwidths w w' ∧ r <= size.
Proof.
  intros Hw Hnd Hbase Hs. unfold evd_throttled_input_stream_read.
  destruct (Z.eqb_spec size 0) as [->|].
  { intros [= <- <- <-]. by rewrite app_nil_r. }
  unfold evd_throttled_input_stream_get_max_readable_priv.
  destruct (max_over_throttles clock ids size (Some 0) w) as [[[w1 r1] wt1]|] eqn:E1; [|done]. simpl.
  destruct (max_over_throttles_ok _ _ [] _ _ _ _ _ _ Hw Hs (granted_nil _ _) E1) as (Hw1 & Hr1 & Hg1 & Hb1).
  destruct (Z.ltb_spec size r1); [lia|].
  destruct (max_over_throttles clock ids size wt1 w1) as [[[w2 r2] wt2]|] eqn:E2; [|done]. simpl.
  destruct (max_over_throttles_ok _ _ [] _ _ _ _ _ _ Hw1 Hs (granted_nil _ _) E2) as (Hw2 & Hr2 & Hg2 & Hb2).
  fold (transfer ids base r2 w2).
  destruct (transfer ids base r2 w2) as [[[w3 a] evs3]|] eqn:E3; [|done]. simpl. intros [= <- <- <-].
  destruct (transfer_ok _ _ _ _ _ _ _ _ Hw2 Hnd Hbase Hg2 E3) as (Hw3 & Hb3 & Ha).
  split_and!; [|by do 2 (eapply same_bandwidths_trans; [done|])|lia].
  rewrite app_assoc. apply world_ok_signals; [|done]. intros id t. by destruct (0 <? default 0 wt2).
Qed.

Lemma writable_ok log ids size wt w w' r wt' evs :
  world_ok log w → 0 <= size →
  evd_throttled_output_stream_get_max_writable_priv clock ids size wt w = Some (w', r, wt', evs) →
  world_ok (log ++ evs) w' ∧ 0 <= r <= size ∧ granted ids r w' ∧ same_bandwidths w w'.
Proof.
  intros Hw Hs. unfold evd_throttled_output_stream_get_max_writable_priv.
  destruct (max_over_throttles clock ids size (Some 0) w) as [[[w1 r1] wt1]|] eqn:E1; [|done]. simpl.
  destruct (max_over_throttles_ok _ _ [] _ _ _ _ _ _ Hw Hs (granted_nil _ _) E1) as (Hw1 & Hr1 & Hg1 & Hb1).
  intros [= <- <- <- <-]. split_and!; try done; [|lia..].
  apply world_ok_signals; [|done]. intros id t. by destruct (0 <? default 0 wt1).
Qed.

Lemma write_ok log ids base size w w' r evs :
  world_ok log w → NoDup ids → base_ok base → 0 <= size →
  evd_throttled_output_stream_write clock ids base size w = Some (w', r, evs) →
  world_ok (log ++ evs) w' ∧ same_bandwidths w w' ∧ r <= size.
Proof.
  intros Hw Hnd Hbase Hs. unfold evd_throttled_output_stream_write.
  destruct (Z.eqb_spec size 0) as [->|].
  { intros [= <- <- <-]. by rewrite app_nil_r. }
  destruct (evd_throttled_output_stream_get_max_writable_priv clock ids size (Some 0) w)
    as [[[[w1 r1] wt1] e1]|] eqn:E1; [|done]. run_bind.
  destruct (writable_ok _ _ _ _ _ _ _ _ _ Hw Hs E1) as (Hw1 & Hr1 & Hg1 & Hb1).
  destruct (Z.ltb_spec size r1); [lia|].
  destruct (evd_throttled_output_stream_get_max_writable_priv clock ids size wt1 w1)
    as [[[[w2 r2] wt2] e2]|] eqn:E2; [|done]. run_bind.
  destruct (writable_ok _ _ _ _ _ _ _ _ _ Hw1 Hs E2) as (Hw2 & Hr2 & Hg2 & Hb2).
  fold (transfer ids base r2 w2).
  destruct (transfer ids base r2 w2) as [[[w3 a] e3]|] eqn:E3; [|done]. run_bind. intros [= <- <- <-].
  destruct (transfer_ok _ _ _ _ _ _ _ _ Hw2 Hnd Hbase Hg2 E3) as (Hw3 & Hb3 & Ha).
  rewrite <-!app_assoc in Hw3. split_and!; [done|by do 2 (eapply same_bandwidths_trans; [done|])|lia].
Qed.

(** ** Executions *)

(** Reads and writes of any streams over the store, in any order. *)
Inductive io_run : world → list event → world → Prop :=
  | io_nil w : io_run w [] w
  | io_read w ids base size w1 r e1 e2 w2 :
      NoDup ids → base_ok base → 0 <= size →
      evd_throttled_input_stream_read clock ids base size w = Some (w1, r, e1) →
      io_run w1 e2 w2 → io_run w (e1 ++ e2) w2
  | io_write w ids base size w1 r e1 e2 w2 :
      NoDup ids → base_ok base → 0 <= size →
      evd_throttled_output_stream_write clock ids base size w = Some (w1, r, e1) →
      io_run w1 e2 w2 → io_run w (e1 ++ e2) w2.

Lemma io_run_ok w evs w' :
  io_run w evs w' → ∀ log, world_ok log w → world_ok (log ++ evs) w' ∧ same_bandwidths w w'.
Proof.
  induction 1 as [w|w ids base size w1 r e1 e2 w2 Hnd Hb Hs E _ IH|w ids base size w1 r e1 e2 w2 Hnd Hb Hs E _ IH];
    intros log Hw; [by rewrite app_nil_r| |].
  - apply (read_ok log) in E as (Hw1 & Hb1 & _); [|done..]. destruct (IH _ Hw1) as [Hw2 Hb2].
    rewrite <-app_assoc in Hw2. split; [done|]. by eapply same_bandwidths_trans.
  - apply (write_ok log) in E as (Hw1 & Hb1 & _); [|done..]. destruct (IH _ Hw1) as [Hw2 Hb2].
    rewrite <-app_assoc in Hw2. split; [done|]. by eapply same_bandwidths_trans.
Qed.

(** Throttles that have not transferred anything in the current second. *)
Definition fresh_throttle (n : nat) (p : EvdStreamThrottlePrivate) : Prop :=
  bytes p = 0 ∧ bandwidth p < 9223372036854775808 ∧ tv_sec (current_time p) <= tv_sec (clock n).

(** C19. The bandwidth is enforced: with a clock that does not go back, over every sequence of reads
    and writes of any streams that share the throttles (whatever the base streams answer, however
    the clock advances between two calls), the bytes a throttle accounts in any one second of the
    clock never exceed its bandwidth, when it has one. *)
Theorem bandwidth_enforced (w w' : world) (evs : list event) (id : nat)
    (p : EvdStreamThrottlePrivate) (s : Z) :
  map_Forall (λ _, fresh_throttle (clock_calls w)) (throttles w) → io_run w evs w' →
  throttles w !! id = Some p → 0 < bandwidth p → sent id s evs <= bandwidth p.
Proof.
  intros Hf Hrun Hp Hb.
  assert (world_ok [] w) as Hw.
  { intros i q Hq Hbq. destruct (map_Forall_lookup_1 _ _ _ _ Hf Hq) as (H0 & H1 & H2).
    split; [|done]. split; simpl; try done; [split; lia|lia]. }
  destruct (io_run_ok _ _ _ Hrun [] Hw) as [Hw' Hsb].
  specialize (Hsb id). rewrite Hp in Hsb. simpl in Hsb.
  destruct (throttles w' !! id) as [p'|] eqn:Ep'; [|done]. simpl in Hsb. injection Hsb as Hsb.
  destruct (map_Forall_lookup_1 _ _ _ _ Hw' Ep') as [[_ _ _ Hbd] _]; [lia|].
  rewrite <-Hsb. apply (Hbd s).
Qed.

End Clock.

(** ** A concrete run: two streams share a throttle of ten bytes per second *)

Definition demo_clock : nat → GTimeVal := λ n, mkTime (Z.of_nat n / 5) 0.
Definition demo_throttle : EvdStreamThrottlePrivate :=
  mkThrottle 10 0 (mkTime 0 0) 0 0 0 (mkTime 0 0).
Definition demo_world : world := mkWorld {[ 3%nat := demo_throttle ]} 0.
Definition demo_read : option (world * Z * list event) :=
  evd_throttled_input_stream_read demo_clock [3%nat] (λ n, n) 7 demo_world.
Definition demo_end : world := from_option (λ t, t.1.1) demo_world demo_read.

Lemma demo_run : io_run demo_clock demo_world [Reported 3 0 7] demo_end.
Proof.
  rewrite <-(app_nil_r [_]).
  eapply (io_read demo_clock demo_world [3%nat] (λ n, n) 7 demo_end 7 _ [] demo_end).
  - apply NoDup_singleton.
  - intros n. lia.
  - lia.
  - vm_compute. reflexivity.
  - constructor.
Qed.

Lemma demo_clock_monotone i j : (i <= j)%nat → tv_sec (demo_clock i) <= tv_sec (demo_clock j).
Proof. intros. simpl. apply Z.div_le_mono; lia. Qed.

Lemma bandwidth_enforced_witness : sent 3 0 [Reported 3 0 7] <= bandwidth demo_throttle.
Proof.
  apply (bandwidth_enforced demo_clock demo_clock_monotone demo_world demo_end [Reported 3 0 7] 3
           demo_throttle 0).
  - apply map_Forall_singleton. by split_and!.
  - apply demo_run.
  - reflexivity.
  - reflexivity.
Defined.

(** ** Waiting *)

Definition micros (t : GTimeVal) : Z := tv_sec t * 1000000 + tv_usec t.
Definition valid_time (t : GTimeVal) : Prop := 0 <= tv_usec t < 1000000.

Lemma request_no_latency now p size wait :
  latency p = 0 → 0 < bandwidth p → 0 < size →
  let q := evd_stream_throttle_update_current_time now p in
  let r := Z.min (Z.max (s64 (bandwidth p - bytes q)) 0) size in
  evd_stream_throttle_request now p size wait =
    (q, r, if r <? size then (λ w, Z.max (u32 (u32 ((1000001 - tv_usec now) / 1000) + 1)) w) <$> wait
           else wait).
Proof.
  intros Hl Hb Hs q r. unfold evd_stream_throttle_request. fold q.
  assert (latency q = 0 ∧ bandwidth q = bandwidth p ∧ current_time q = now) as (El & Eb & Et)
    by (unfold q, evd_stream_throttle_update_current_time; by destruct (negb _)).
  unfold evd_stream_throttle_request_internal. rewrite El, Eb, Et. simpl.
  destruct (Z.ltb_spec 0 (bandwidth p)); [|lia]. destruct (Z.ltb_spec 0 size); [|lia]. done.
Qed.

(** The wait reported by a request that is cut short by the bandwidth is long enough: asking
    again for the same size after that many milliseconds (and no latency set) is granted in full,
    up to the bandwidth. *)
Example wait_is_enough (p p' : EvdStreamThrottlePrivate) (now later : GTimeVal) (size r w : Z) :
  latency p = 0 → 0 < bandwidth p < 9223372036854775808 → 0 < size → valid_time now →
  valid_time later →
  evd_stream_throttle_request now p size (Some 0) = (p', r, Some w) → r < size →
  micros now + 1000 * w <= micros later →
  ∃ p'' w', evd_stream_throttle_request later p' size (Some 0) = (p'', Z.min (bandwidth p) size, w').
Proof.
  intros Hl Hb Hs Hn Hla. rewrite request_no_latency by (done || lia).
  set (q := evd_stream_throttle_update_current_time now p).
  intros [= <- <- Hw] Hr. rewrite (proj2 (Z.ltb_lt _ _) Hr) in Hw. simpl in Hw. injection Hw as Hw.
  assert (latency q = 0 ∧ bandwidth q = bandwidth p ∧ current_time q = now) as (El & Eb & Et)
    by (unfold q, evd_stream_throttle_update_current_time; by destruct (negb _)).
  unfold valid_time in *. set (k := (1000001 - tv_usec now) / 1000) in *.
  assert (1000 * k <= 1000001 - tv_usec now < 1000 * k + 1000) as Hk
    by (pose proof (Z.mod_pos_bound (1000001 - tv_usec now) 1000);
        pose proof (Z.div_mod (1000001 - tv_usec now) 1000); lia).
  assert (u32 (u32 k + 1) = k + 1) as E by (unfold u32; rewrite (Z.mod_small k), Z.mod_small by lia; lia).
  rewrite E in Hw. unfold micros. intros Hm.
  assert (tv_sec now < tv_sec later) as Hsec by lia.
  rewrite request_no_latency by (done || lia).
  assert (bytes (evd_stream_throttle_update_current_time later q) = 0) as ->.
  { unfold evd_stream_throttle_update_current_time. rewrite Et.
    by destruct (Z.eqb_spec (tv_sec later) (tv_sec now)); [lia|]. }
  rewrite Eb, Z.sub_0_r, s64_small, Z.max_l by lia. eauto.
Qed.

Lemma wait_is_enough_witness :
  ∃ p'' w', evd_stream_throttle_request (mkTime 8 1000)
    (evd_stream_throttle_report (mkTime 7 400000) demo_throttle 8) 5 (Some 0) = (p'', Z.min 10 5, w').
Proof.
  assert (evd_stream_throttle_request (mkTime 7 400000)
            (evd_stream_throttle_report (mkTime 7 400000) demo_throttle 8) 5 (Some 0) =
          (evd_stream_throttle_report (mkTime 7 400000) demo_throttle 8, 2, Some 601)) as E
    by (vm_compute; reflexivity).
  eapply (wait_is_enough (evd_stream_throttle_report (mkTime 7 400000) demo_throttle 8) _
            (mkTime 7 400000) (mkTime 8 1000) 5 2 601); [..|exact E| |];
    first [reflexivity | unfold valid_time, micros; simpl; lia].
Defined.

(** ** What goes wrong *)

(** The latency is not enforced across a change of second: seconds and microseconds are
    subtracted and made positive separately, so 0.2 s after a transfer at 0.9 s the elapsed time
    is computed as 1.8 s, and a throttle with a latency of one second grants the request. *)
Example latency_skipped :
  let p := mkThrottle 0 1000000 (mkTime 0 900000) 0 0 0 (mkTime 0 0) in
  let p := evd_stream_throttle_report (mkTime 0 900000) p 5 in
  g_timeval_get_diff_micro (mkTime 1 100000) (mkTime 0 900000) = 1800000 ∧
  (evd_stream_throttle_request (mkTime 1 100000) p 5 (Some 0)).1.2 = 5.
Proof. split; vm_compute; reflexivity. Qed.

(** The macro [MIN] around the call makes a throttled write emit its [delay-write] signal
    twice. *)
Example delay_write_emitted_twice :
  ∃ w, evd_throttled_output_stream_write demo_clock [3%nat] (λ n, n) 15 demo_world =
    Some (w, 10, [DelayWrite 1001; DelayWrite 1001; Reported 3 0 10]).
Proof. eexists. vm_compute. reflexivity. Qed.

End ThrottleSpec.
