(* ===== verification/BufferedOutput.v ===== *)
(** * Buffered output stream (src/evd/evd-buffered-output-stream.c): model and theorems

    Every operation takes the answers of the base stream it calls; its effects are listed as
    events.  The user sees a FIFO: what the stream accepts is what reaches the base stream, in
    order, with the rest in the buffer. *)
From S2P Require Import Prelude.

Module BufferedOutput.

Definition DEFAULT_BUFFER_SIZE : Z := 8192.

(** The source tag of a pending [GSimpleAsyncResult]. *)
Inductive async_tag := TagWrite | TagFlush.

#[export] Instance async_tag_eq_dec : EqDecision async_tag.
Proof. solve_decision. Defined.

Record EvdBufferedOutputStreamPrivate := mkOut {
  buffer : list Z;
  buffer_size : Z;
  auto_grow : bool;
  auto_flush : bool;
  flushing : bool;
  async_result : option async_tag;
  actual_size : Z
}.

Definition evd_buffered_output_stream_init : EvdBufferedOutputStreamPrivate :=
  mkOut [] DEFAULT_BUFFER_SIZE true true false None 0.

(** What [g_output_stream_write] on the base stream answers. *)
Inductive base_answer :=
  | Wrote (n : Z)
  | WouldBlock
  | Failed.

Inductive io_error := ErrWouldBlock | ErrOther | ErrClosed.

Inductive event :=
  | ToBase (bytes : list Z)                            (* accepted by the base stream *)
  | BaseFlush                                          (* flush_async on the base stream *)
  | Complete (tag : async_tag) (result : Z + io_error). (* an asynchronous operation ends *)

Definition set_buffer (b : list Z) (p : EvdBufferedOutputStreamPrivate)
  : EvdBufferedOutputStreamPrivate :=
  mkOut b (buffer_size p) (auto_grow p) (auto_flush p) (flushing p) (async_result p) (actual_size p).
Definition set_async (a : option async_tag) (p : EvdBufferedOutputStreamPrivate)
  : EvdBufferedOutputStreamPrivate :=
  mkOut (buffer p) (buffer_size p) (auto_grow p) (auto_flush p) (flushing p) a (actual_size p).
Definition set_flushing (f : bool) (p : EvdBufferedOutputStreamPrivate)
  : EvdBufferedOutputStreamPrivate :=
  mkOut (buffer p) (buffer_size p) (auto_grow p) (auto_flush p) f (async_result p) (actual_size p).

Definition evd_buffered_output_stream_fill (p : EvdBufferedOutputStreamPrivate) (buf : list Z)
  : EvdBufferedOutputStreamPrivate * Z :=
  let size := Z.of_nat (length buf) in
  let len := Z.of_nat (length (buffer p)) in
  let '(p, size) :=
    if buffer_size p <? len + size then
      if auto_grow p then
        (mkOut (buffer p) (len + size) (auto_grow p) (auto_flush p) (flushing p) (async_result p)
           (actual_size p), size)
      else (p, u64 (buffer_size p - len))
    else (p, size) in
  (if 0 <? size then set_buffer (buffer p ++ take (Z.to_nat size) buf) p else p, size).

(** [a] is the answer of the base stream, when it is called. *)
Definition evd_buffered_output_stream_write (p : EvdBufferedOutputStreamPrivate) (buf : list Z)
    (a : base_answer) : EvdBufferedOutputStreamPrivate * list event * (Z + io_error) :=
  let size := Z.of_nat (length buf) in
  if negb (bool_decide (buffer p = [])) || negb (auto_flush p) then
    let '(p, n) := evd_buffered_output_stream_fill p buf in (p, [], inl n)
  else
    match a with
    | WouldBlock => let '(p, n) := evd_buffered_output_stream_fill p buf in (p, [], inl n)
    | Failed => (p, [], inr ErrOther)
    | Wrote n =>
        let evs := [ToBase (take (Z.to_nat n) buf)] in
        if n <? size then
          let '(p, m) := evd_buffered_output_stream_fill p (drop (Z.to_nat n) buf) in
          (p, evs, inl (n + m))
        else (p, evs, inl n)
    end.

Definition evd_buffered_output_stream_write_async (p : EvdBufferedOutputStreamPrivate)
    (buf : list Z) (a : base_answer) : EvdBufferedOutputStreamPrivate * list event :=
  let '(p, evs, r) := evd_buffered_output_stream_write p buf a in
  match r with
  | inr e => (p, evs ++ [Complete TagWrite (inr e)])
  | inl n =>
      if n =? Z.of_nat (length buf) then (p, evs ++ [Complete TagWrite (inl n)])
      else (set_async (Some TagWrite) p, evs)
  end.

(** [ok] is the outcome of flushing the base stream. *)
Definition evd_buffered_output_stream_on_base_stream_flushed (p : EvdBufferedOutputStreamPrivate)
    (ok : bool) : EvdBufferedOutputStreamPrivate * list event :=
  match async_result p with
  | Some tag => (set_async None p, [Complete tag (if ok then inl 0 else inr ErrOther)])
  | None => (p, [])
  end.

Definition evd_buffered_output_stream_flush (p : EvdBufferedOutputStreamPrivate) (a : base_answer)
  : EvdBufferedOutputStreamPrivate * list event * option io_error :=
  if bool_decide (buffer p = []) then (p, [], None)
  else
    let fail e :=
      match async_result p with
      | Some tag => (set_async None p, [Complete tag (inr e)], Some e)
      | None => (p, [], Some e)
      end in
    match a with
    | WouldBlock => fail ErrWouldBlock
    | Failed => fail ErrOther
    | Wrote n =>
        if 0 <? n then
          let sent := take (Z.to_nat n) (buffer p) in
          let p := mkOut (drop (Z.to_nat n) (buffer p)) (buffer_size p) (auto_grow p)
                     (auto_flush p) (flushing p) (async_result p) (actual_size p + n) in
          if decide (async_result p = Some TagFlush) then
            if bool_decide (buffer p = []) then
              (set_flushing false p, [ToBase sent; BaseFlush], None)
            else (p, [ToBase sent], None)
          else (p, [ToBase sent], None)
        else (p, [], None)
    end.

Definition evd_buffered_output_stream_flush_async (p : EvdBufferedOutputStreamPrivate)
    (a : base_answer) : EvdBufferedOutputStreamPrivate * list event :=
  match evd_buffered_output_stream_flush p a with
  | (p, evs, Some e) => (p, evs ++ [Complete TagFlush (inr e)])
  | (p, evs, None) =>
      let p := set_async (Some TagFlush) p in
      if bool_decide (buffer p = []) then (p, evs ++ [BaseFlush])
      else (set_flushing true p, evs)
  end.

Definition evd_buffered_output_stream_close (p : EvdBufferedOutputStreamPrivate)
  : EvdBufferedOutputStreamPrivate * list event :=
  match async_result p with
  | Some tag => (set_async None p, [Complete tag (inr ErrClosed)])
  | None => (p, [])
  end.

Definition evd_buffered_output_stream_notify_write (p : EvdBufferedOutputStreamPrivate)
    (a : base_answer) : EvdBufferedOutputStreamPrivate * list event :=
  if flushing p || (auto_flush p && negb (bool_decide (buffer p = []))) then
    let '(p, evs, _) := evd_buffered_output_stream_flush p a in (p, evs)
  else (p, []).

Definition evd_buffered_output_stream_set_auto_flush (p : EvdBufferedOutputStreamPrivate)
    (value : bool) (a : base_answer) : EvdBufferedOutputStreamPrivate * list event :=
  let p := mkOut (buffer p) (buffer_size p) (auto_grow p) value (flushing p) (async_result p)
             (actual_size p) in
  if auto_flush p then evd_buffered_output_stream_notify_write p a else (p, []).

(** The property setter does not flush. *)
Definition evd_buffered_output_stream_set_property (p : EvdBufferedOutputStreamPrivate)
    (value : bool) : EvdBufferedOutputStreamPrivate :=
  mkOut (buffer p) (buffer_size p) (auto_grow p) value (flushing p) (async_result p) (actual_size p).

(** ** The FIFO *)

(** The operations of a user of the stream and of the connection below it, with the answers of
    the base stream. *)
Inductive operation :=
  | OpWrite (buf : list Z) (a : base_answer)
  | OpWriteAsync (buf : list Z) (a : base_answer)
  | OpFlush (a : base_answer)
  | OpFlushAsync (a : base_answer)
  | OpBaseFlushed (ok : bool)
  | OpNotifyWrite (a : base_answer)
  | OpSetAutoFlush (v : bool) (a : base_answer)
  | OpSetProperty (v : bool)
  | OpClose.

(** The base stream never accepts more than it is given. *)
Definition answer_ok (size : nat) (a : base_answer) : Prop :=
  match a with Wrote n => 0 <= n <= Z.of_nat size | _ => True end.

Definition operation_ok (p : EvdBufferedOutputStreamPrivate) (o : operation) : Prop :=
  match o with
  | OpWrite buf a | OpWriteAsync buf a => answer_ok (length buf) a
  | OpFlush a | OpFlushAsync a | OpNotifyWrite a | OpSetAutoFlush _ a =>
      answer_ok (length (buffer p)) a
  | _ => True
  end.

(** One operation: the new state, the effects, and the bytes the stream took from its user. *)
Definition perform (p : EvdBufferedOutputStreamPrivate) (o : operation)
  : EvdBufferedOutputStreamPrivate * list event * list Z :=
  match o with
  | OpWrite buf a =>
      let '(p, evs, r) := evd_buffered_output_stream_write p buf a in
      (p, evs, match r with inl n => take (Z.to_nat n) buf | inr _ => [] end)
  | OpWriteAsync buf a =>
      let '(_, _, r) := evd_buffered_output_stream_write p buf a in
      let '(p, evs) := evd_buffered_output_stream_write_async p buf a in
      (p, evs, match r with inl n => take (Z.to_nat n) buf | inr _ => [] end)
  | OpFlush a => let '(p, evs, _) := evd_buffered_output_stream_flush p a in (p, evs, [])
  | OpFlushAsync a => (evd_buffered_output_stream_flush_async p a, [])
  | OpBaseFlushed ok => (evd_buffered_output_stream_on_base_stream_flushed p ok, [])
  | OpNotifyWrite a => (evd_buffered_output_stream_notify_write p a, [])
  | OpSetAutoFlush v a => (evd_buffered_output_stream_set_auto_flush p v a, [])
  | OpSetProperty v => (evd_buffered_output_stream_set_property p v, [], [])
  | OpClose => (evd_buffered_output_stream_close p, [])
  end.

(** Sequences of operations: the effects, and all the bytes taken. *)
Inductive runs : EvdBufferedOutputStreamPrivate → list event → list Z →
    EvdBufferedOutputStreamPrivate → Prop :=
  | runs_nil p : runs p [] [] p
  | runs_cons p o p1 e1 t1 p2 e2 t2 :
      operation_ok p o → perform p o = (p1, e1, t1) → runs p1 e2 t2 p2 →
      runs p (e1 ++ e2) (t1 ++ t2) p2.

Definition to_base (evs : list event) : list Z :=
  concat (omap (λ e, match e with ToBase b => Some b | _ => None end) evs).

Lemma to_base_app e1 e2 : to_base (e1 ++ e2) = to_base e1 ++ to_base e2.
Proof. unfold to_base. by rewrite omap_app, concat_app. Qed.

(** What an operation owes to the FIFO. *)
Definition fifo (p : EvdBufferedOutputStreamPrivate) (taken : list Z) (evs : list event)
    (p' : EvdBufferedOutputStreamPrivate) : Prop :=
  to_base evs ++ buffer p' = buffer p ++ taken ∧ auto_grow p' = auto_grow p.

(** With [auto_grow], which nothing ever clears, the buffer takes everything. *)
Lemma fill_grows p buf :
  auto_grow p = true →
  ∃ p', evd_buffered_output_stream_fill p buf = (p', Z.of_nat (length buf)) ∧
    buffer p' = buffer p ++ buf ∧ auto_grow p' = true ∧ async_result p' = async_result p.
Proof.
  intros Hg. unfold evd_buffered_output_stream_fill. rewrite Hg.
  destruct (buffer_size p <? _); destruct (Z.ltb_spec 0 (Z.of_nat (length buf)));
    (eexists; split; [done|]); simpl; rewrite ?Nat2Z.id, ?take_ge by done; try done;
    (destruct buf; [|simpl in *; lia]); by rewrite app_nil_r.
Qed.

Lemma write_fifo p buf a p' evs r :
  auto_grow p = true → answer_ok (length buf) a →
  evd_buffered_output_stream_write p buf a = (p', evs, r) →
  match r with
  | inl n => n = Z.of_nat (length buf) ∧ fifo p buf evs p'
  | inr _ => p' = p ∧ evs = []
  end.
Proof.
  intros Hg Ha. unfold evd_buffered_output_stream_write.
  destruct (fill_grows p buf Hg) as (p1 & E1 & Hb1 & Hg1 & _). rewrite E1.
  assert (fifo p buf [] p1) as Hf by (split; [done|congruence]).
  destruct (negb (bool_decide (buffer p = []))) eqn:Hb, (auto_flush p); simpl;
    try by intros; simplify_eq.
  destruct (bool_decide_reflect (buffer p = [])) as [Hnil|]; [|done].
  destruct a as [n| |]; simpl; [|by intros; simplify_eq..]. simpl in Ha.
  destruct (Z.ltb_spec n (Z.of_nat (length buf))).
  - destruct (fill_grows p (drop (Z.to_nat n) buf) Hg) as (p2 & E2 & Hb2 & Hg2 & _).
    rewrite E2, length_drop. intros [= <- <- <-]. split; [lia|]. split; [|congruence].
    unfold to_base; simpl. rewrite app_nil_r, Hb2, Hnil. simpl. apply take_drop.
  - intros [= <- <- <-]. split; [lia|]. split; [|done]. unfold to_base; simpl.
    by rewrite app_nil_r, Hnil, take_ge, app_nil_r by lia.
Qed.

Lemma flush_fifo p a p' evs r :
  answer_ok (length (buffer p)) a → evd_buffered_output_stream_flush p a = (p', evs, r) →
  fifo p [] evs p'.
Proof.
  intros Ha. unfold evd_buffered_output_stream_flush, fifo. rewrite app_nil_r.
  destruct (bool_decide _); [by intros; simplify_eq|].
  destruct a as [n| |]; [|by destruct (async_result p); intros; simplify_eq/=..].
  destruct (0 <? n); [|by intros; simplify_eq].
  set (q := mkOut (drop _ _) _ _ _ _ _ _).
  assert (∀ f p'', p'' = set_flushing f q → to_base [ToBase (take (Z.to_nat n) (buffer p))] ++ buffer p'' = buffer p)
    as Hq by (intros f p'' ->; unfold to_base; simpl; by rewrite app_nil_r, take_drop).
  destruct (decide _); [destruct (bool_decide _)|]; intros [= <- <- <-];
    (split; [by eapply Hq|done]).
Qed.

Lemma fifo_trans p1 p2 p3 t1 t2 e1 e2 :
  fifo p1 t1 e1 p2 → fifo p2 t2 e2 p3 → fifo p1 (t1 ++ t2) (e1 ++ e2) p3.
Proof.
  intros [H1 G1] [H2 G2]. split; [|congruence].
  by rewrite to_base_app, <-app_assoc, H2, (app_assoc (to_base e1)), H1, app_assoc.
Qed.

(** Completions, flushes of the base stream and the other fields do not matter to the FIFO. *)
Lemma fifo_quiet p p' evs :
  buffer p' = buffer p → auto_grow p' = auto_grow p → to_base evs = [] → fifo p [] evs p'.
Proof. intros Hb Hg He. split; [|done]. by rewrite He, Hb, app_nil_r. Qed.

Lemma notify_write_fifo p a p' evs :
  answer_ok (length (buffer p)) a → evd_buffered_output_stream_notify_write p a = (p', evs) →
  fifo p [] evs p'.
Proof.
  intros Ha. unfold evd_buffered_output_stream_notify_write. destruct (_ || _).
  - destruct (evd_buffered_output_stream_flush p a) as [[p1 e1] r] eqn:E. intros [= <- <-].
    by eapply flush_fifo.
  - intros [= <- <-]. by apply fifo_quiet.
Qed.

Lemma perform_fifo p o p' evs taken :
  auto_grow p = true → operation_ok p o → perform p o = (p', evs, taken) → fifo p taken evs p'.
Proof.
  intros Hg Ho. destruct o as [buf a|buf a|a|a|ok|a|v a|v|]; simpl in *.
  - destruct (evd_buffered_output_stream_write p buf a) as [[p1 e1] r] eqn:E.
    intros [= <- <- <-]. apply write_fifo in E; [|done..]. destruct r as [n|].
    + destruct E as [-> Hf]. by rewrite Nat2Z.id, take_ge.
    + destruct E as [-> ->]. by apply fifo_quiet.
  - unfold evd_buffered_output_stream_write_async.
    destruct (evd_buffered_output_stream_write p buf a) as [[p1 e1] r] eqn:E.
    apply write_fifo in E; [|done..]. destruct r as [n|e].
    + destruct E as [-> Hf]. rewrite Z.eqb_refl. intros [= <- <- <-].
      rewrite Nat2Z.id, take_ge by done. rewrite <-(app_nil_r buf).
      eapply fifo_trans; [done|]. by apply fifo_quiet.
    + destruct E as [-> ->]. intros [= <- <- <-]. by apply fifo_quiet.
  - destruct (evd_buffered_output_stream_flush p a) as [[p1 e1] r] eqn:E.
    intros [= <- <- <-]. by eapply flush_fifo.
  - unfold evd_buffered_output_stream_flush_async.
    destruct (evd_buffered_output_stream_flush p a) as [[p1 e1] r] eqn:E.
    apply flush_fifo in E; [|done].
    assert (∀ q e, fifo p1 [] e q → fifo p [] (e1 ++ e) q) as Hend
      by (intros q e; by apply (fifo_trans p p1 q [] [])).
    destruct r as [e|]; [intros [= <- <- <-]; apply Hend; by apply fifo_quiet|].
    destruct (bool_decide _); intros [= <- <- <-]; [apply Hend; by apply fifo_quiet|].
    rewrite <-(app_nil_r e1). apply Hend. by apply fifo_quiet.
  - unfold evd_buffered_output_stream_on_base_stream_flushed.
    destruct (async_result p); intros [= <- <- <-]; by apply fifo_quiet.
  - destruct (evd_buffered_output_stream_notify_write p a) as [p1 e1] eqn:E. intros [= <- <- <-].
    by eapply notify_write_fifo.
  - unfold evd_buffered_output_stream_set_auto_flush. set (q := mkOut _ _ _ v _ _ _).
    assert (fifo p [] [] q) as Hq by by apply fifo_quiet.
    destruct (auto_flush q); [|by intros [= <- <- <-]].
    destruct (evd_buffered_output_stream_notify_write q a) as [p1 e1] eqn:E. intros [= <- <- <-].
    apply (fifo_trans p q _ [] [] []); [done|]. by eapply notify_write_fifo.
  - intros [= <- <- <-]. by apply fifo_quiet.
  - unfold evd_buffered_output_stream_close.
    destruct (async_result p); intros [= <- <- <-]; by apply fifo_quiet.
Qed.

(** C20. The stream is a FIFO: over every sequence of writes (synchronous or not), flushes,
    notifications, property changes and closures, whatever the base stream answers (partial
    writes, would-block, errors), the bytes the base stream received followed by the bytes still
    in the buffer are exactly the bytes the stream accepted from its user, in order. *)
Theorem output_is_fifo (p : EvdBufferedOutputStreamPrivate) (evs : list event) (taken : list Z) :
  runs evd_buffered_output_stream_init evs taken p → to_base evs ++ buffer p = taken.
Proof.
  assert (∀ q, runs q evs taken p → auto_grow q = true → fifo q taken evs p) as H.
  { induction 1 as [q|q o p1 e1 t1 p2 e2 t2 Hok E _ IH]; intros Hg; [by apply fifo_quiet|].
    pose proof (perform_fifo _ _ _ _ _ Hg Hok E) as Hf. eapply fifo_trans; [done|].
    apply IH. by destruct Hf as [_ ->]. }
  intros Hr. by destruct (H _ Hr eq_refl) as [-> _].
Qed.

Definition demo_operations_end : EvdBufferedOutputStreamPrivate :=
  fst (fst (perform (fst (fst (perform evd_buffered_output_stream_init
    (OpWrite [1; 2; 3] (Wrote 1))))) (OpNotifyWrite (Wrote 1)))).

Lemma demo_operations_run :
  runs evd_buffered_output_stream_init [ToBase [1]; ToBase [2]] [1; 2; 3] demo_operations_end.
Proof.
  eapply (runs_cons _ (OpWrite [1; 2; 3] (Wrote 1)) _ [ToBase [1]] [1; 2; 3] _ [ToBase [2]] []);
    [simpl; lia|reflexivity|].
  eapply (runs_cons _ (OpNotifyWrite (Wrote 1)) _ [ToBase [2]] [] _ [] []);
    [simpl; lia|reflexivity|constructor].
Qed.

Lemma output_is_fifo_witness : to_base [ToBase [1]; ToBase [2]] ++ buffer demo_operations_end = [1; 2; 3].
Proof.
  apply (output_is_fifo demo_operations_end [ToBase [1]; ToBase [2]] [1; 2; 3]).
  apply demo_operations_run.
Defined.

(** ** Flushing *)

Fixpoint base_flushes (evs : list event) : nat :=
  match evs with
  | [] => 0
  | BaseFlush :: evs => S (base_flushes evs)
  | _ :: evs => base_flushes evs
  end.

Lemma base_flushes_app e1 e2 : base_flushes (e1 ++ e2) = (base_flushes e1 + base_flushes e2)%nat.
Proof. induction e1 as [|[] e1 IH]; simpl; congruence. Qed.

(** The connection notifies that it can be written; each time the base stream takes up to [n]
    bytes. *)
Fixpoint drain (p : EvdBufferedOutputStreamPrivate) (ns : list Z)
  : EvdBufferedOutputStreamPrivate * list event :=
  match ns with
  | [] => (p, [])
  | n :: ns =>
      let '(p, e1) := evd_buffered_output_stream_notify_write p
                        (Wrote (Z.min n (Z.of_nat (length (buffer p))))) in
      let '(p, e2) := drain p ns in (p, e1 ++ e2)
  end.

Lemma notify_empty p a :
  buffer p = [] → evd_buffered_output_stream_notify_write p a = (p, []).
Proof.
  intros Hb. unfold evd_buffered_output_stream_notify_write, evd_buffered_output_stream_flush.
  rewrite Hb. simpl. rewrite andb_false_r. by destruct (flushing p).
Qed.

Lemma drain_empty p ns : buffer p = [] → drain p ns = (p, []).
Proof. intros Hb. induction ns as [|n ns IH]; simpl; [done|]. by rewrite notify_empty, IH. Qed.

Lemma flush_pending p n :
  async_result p = Some TagFlush → 0 < n <= Z.of_nat (length (buffer p)) →
  ∃ p', evd_buffered_output_stream_flush p (Wrote n) =
      (p', ToBase (take (Z.to_nat n) (buffer p)) ::
             (if decide (drop (Z.to_nat n) (buffer p) = []) then [BaseFlush] else []), None) ∧
    buffer p' = drop (Z.to_nat n) (buffer p) ∧ async_result p' = Some TagFlush ∧
    flushing p' = (if decide (drop (Z.to_nat n) (buffer p) = []) then false else flushing p).
Proof.
  intros Ha Hn. unfold evd_buffered_output_stream_flush.
  rewrite bool_decide_false by (intros E; rewrite E in Hn; simpl in Hn; lia).
  destruct (Z.ltb_spec 0 n); [|lia]. rewrite decide_True by done. simpl.
  destruct (decide (drop (Z.to_nat n) (buffer p) = [])).
  - rewrite bool_decide_true by done. eexists. by split_and!.
  - rewrite bool_decide_false by done. eexists. by split_and!.
Qed.

Lemma drain_flushing ns : ∀ p,
  async_result p = Some TagFlush → flushing p = true → buffer p ≠ [] → Forall (Z.lt 0) ns →
  (length (buffer p) <= length ns)%nat →
  ∃ p' evs, drain p ns = (p', evs) ∧ to_base evs = buffer p ∧ buffer p' = [] ∧
    base_flushes evs = 1%nat ∧ async_result p' = Some TagFlush.
Proof.
  induction ns as [|n ns IH]; intros p Ha Hf Hne Hns Hl.
  { destruct (buffer p); [done|simpl in Hl; lia]. }
  apply Forall_cons in Hns as [Hn Hns]. cbn [drain].
  unfold evd_buffered_output_stream_notify_write. rewrite Hf. simpl orb. cbv iota.
  assert (0 < Z.of_nat (length (buffer p))) by (destruct (buffer p); [done|simpl; lia]).
  set (k := Z.min n (Z.of_nat (length (buffer p)))).
  destruct (flush_pending p k Ha) as (p1 & E & Hb1 & Ha1 & Hf1); [lia|]. rewrite E.
  destruct (decide (drop (Z.to_nat k) (buffer p) = [])) as [Hd|Hd].
  - rewrite drain_empty by congruence. eexists _, _. split_and!; [done|..]; [|congruence|done|done].
    rewrite app_nil_r. unfold to_base; simpl. rewrite app_nil_r.
    by rewrite <-(take_drop (Z.to_nat k) (buffer p)) at 2; rewrite Hd, app_nil_r.
  - destruct (IH p1) as (p' & evs & -> & Ht & Hb' & Hc & Ha'); try congruence.
    { rewrite Hb1, length_drop. simpl in Hl. lia. }
    eexists _, _. split_and!; [done|..]; [|done|done|done].
    rewrite to_base_app, Ht, Hb1. unfold to_base; simpl. rewrite app_nil_r. apply take_drop.
Qed.

Lemma flush_async_start p n :
  async_result p = None → 0 <= n <= Z.of_nat (length (buffer p)) →
  ∃ p1 e1, evd_buffered_output_stream_flush_async p (Wrote n) = (p1, e1) ∧
    async_result p1 = Some TagFlush ∧ to_base e1 ++ buffer p1 = buffer p ∧
    (length (buffer p1) <= length (buffer p))%nat ∧
    (buffer p1 = [] ∧ base_flushes e1 = 1%nat ∨
     buffer p1 ≠ [] ∧ base_flushes e1 = 0%nat ∧ flushing p1 = true).
Proof.
  intros Ha Hn. unfold evd_buffered_output_stream_flush_async.
  destruct (evd_buffered_output_stream_flush p (Wrote n)) as [[q e] r] eqn:E.
  pose proof (flush_fifo p (Wrote n) q e r Hn E) as [Hf _]. rewrite app_nil_r in Hf.
  assert (r = None ∧ base_flushes e = 0%nat) as [-> Hz].
  { unfold evd_buffered_output_stream_flush in E. cbn [async_result] in E. rewrite Ha in E.
    rewrite decide_False in E by done. repeat case_match; by simplify_eq. }
  assert (length (buffer q) <= length (buffer p))%nat by (rewrite <-Hf, length_app; lia).
  destruct (bool_decide_reflect (buffer (set_async (Some TagFlush) q) = [])) as [Hb|Hb];
    simpl in Hb; (eexists _, _; split; [done|]); (split; [done|]); split_and!; try done.
  - by rewrite to_base_app, app_nil_r.
  - left. by rewrite base_flushes_app, Hz.
  - by right.
Qed.

(** An asynchronous flush completes: when the base stream takes at least one byte at each
    notification, the whole buffer reaches it in order, the base stream is flushed exactly once,
    and its completion ends the user's operation successfully, exactly once. *)
Example flush_completes (p : EvdBufferedOutputStreamPrivate) (n : Z) (ns : list Z) :
  async_result p = None → 0 <= n <= Z.of_nat (length (buffer p)) → Forall (Z.lt 0) ns →
  (length (buffer p) <= length ns)%nat →
  ∃ p1 e1 p2 e2 p3,
    evd_buffered_output_stream_flush_async p (Wrote n) = (p1, e1) ∧ drain p1 ns = (p2, e2) ∧
    evd_buffered_output_stream_on_base_stream_flushed p2 true = (p3, [Complete TagFlush (inl 0)]) ∧
    to_base (e1 ++ e2) = buffer p ∧ buffer p2 = [] ∧ base_flushes (e1 ++ e2) = 1%nat ∧
    async_result p3 = None.
Proof.
  intros Ha Hn Hns Hl.
  destruct (flush_async_start p n Ha Hn) as (p1 & e1 & E1 & Ha1 & Hb1 & Hl1 & Hc1).
  assert (∃ p2 e2, drain p1 ns = (p2, e2) ∧ async_result p2 = Some TagFlush ∧ buffer p2 = [] ∧
    to_base e2 = buffer p1 ∧ (base_flushes e1 + base_flushes e2 = 1)%nat)
    as (p2 & e2 & E2 & Ha2 & Hb2 & Ht2 & Hc2).
  { destruct Hc1 as [[Hb Hc]|(Hb & Hc & Hf)].
    - exists p1, []. rewrite drain_empty by done. split_and!; try done. simpl. lia.
    - destruct (drain_flushing ns p1) as (p2 & e2 & E2 & Ht & Hb2 & Hc2 & Ha2); try done; [lia|].
      exists p2, e2. rewrite Hc, Hc2. by split_and!. }
  eexists p1, e1, p2, e2, _. split_and!; [done|done|..].
  - unfold evd_buffered_output_stream_on_base_stream_flushed. by rewrite Ha2.
  - by rewrite to_base_app, Ht2.
  - done.
  - by rewrite base_flushes_app.
  - done.
Qed.

Definition demo_filled : EvdBufferedOutputStreamPrivate :=
  fst (fst (evd_buffered_output_stream_write evd_buffered_output_stream_init [1; 2; 3; 4] WouldBlock)).

Lemma flush_completes_witness :
  ∃ p1 e1 p2 e2 p3,
    evd_buffered_output_stream_flush_async demo_filled (Wrote 1) = (p1, e1) ∧
    drain p1 [2; 1; 5; 1] = (p2, e2) ∧
    evd_buffered_output_stream_on_base_stream_flushed p2 true = (p3, [Complete TagFlush (inl 0)]) ∧
    to_base (e1 ++ e2) = buffer demo_filled ∧ buffer p2 = [] ∧ base_flushes (e1 ++ e2) = 1%nat ∧
    async_result p3 = None.
Proof.
  apply (flush_completes demo_filled 1 [2; 1; 5; 1]).
  - reflexivity.
  - simpl. lia.
  - repeat (constructor; [lia|]). constructor.
  - simpl. lia.
Defined.

(** A base stream that would block aborts an asynchronous flush instead of delaying it: the
    user's operation ends with the would-block error while all the data is still in the buffer,
    and [flushing] stays set. *)
Example would_block_aborts_flush (p : EvdBufferedOutputStreamPrivate) :
  buffer p ≠ [] → async_result p = Some TagFlush → flushing p = true →
  ∃ p', evd_buffered_output_stream_notify_write p WouldBlock =
      (p', [Complete TagFlush (inr ErrWouldBlock)]) ∧
    buffer p' = buffer p ∧ flushing p' = true ∧ async_result p' = None.
Proof.
  intros Hb Ha Hf. unfold evd_buffered_output_stream_notify_write, evd_buffered_output_stream_flush.
  rewrite Hf, bool_decide_false, Ha by done. simpl. eauto.
Qed.

Definition demo_flushing : EvdBufferedOutputStreamPrivate :=
  fst (evd_buffered_output_stream_flush_async demo_filled (Wrote 1)).

Lemma would_block_aborts_flush_witness :
  ∃ p', evd_buffered_output_stream_notify_write demo_flushing WouldBlock =
      (p', [Complete TagFlush (inr ErrWouldBlock)]) ∧
    buffer p' = buffer demo_flushing ∧ flushing p' = true ∧ async_result p' = None.
Proof.
  apply (would_block_aborts_flush demo_flushing).
  - done.
  - reflexivity.
  - reflexivity.
Defined.

End BufferedOutput.
