(* ===== verification/BufferedInput.v ===== *)
(** * Buffered input stream (src/evd/evd-buffered-input-stream.c): model and theorems

    An input stream with pushback ([unread]), asynchronous reads served from an idle source, and
    freezing.  The base stream is the list of the bytes it will ever give, read in pieces of
    arbitrary sizes.  The theorems: whatever the order of the operations the user sees one stream
    with pushback, and a thawed stream with data ends its pending read. *)
From S2P Require Import Prelude.

Module BufferedInput.

Inductive io_error := ErrWouldBlock | ErrOther | ErrClosed | ErrNoSpace.

#[export] Instance io_error_eq_dec : EqDecision io_error.
Proof. solve_decision. Defined.

Record EvdBufferedInputStreamPrivate := mkIn {
  buffer : list Z;
  async_result : bool;       (* an asynchronous read is pending *)
  async_buffer : list Z;     (* what has been stored in the user's buffer *)
  requested_size : Z;
  actual_size : Z;
  read_src : bool;           (* the idle source of [do_read] is attached *)
  frozen : bool;
  max_buffer : Z             (* the buffer size of the parent class *)
}.

Definition evd_buffered_input_stream_init (max_buffer : Z) : EvdBufferedInputStreamPrivate :=
  mkIn [] false [] 0 0 false false max_buffer.

(** What [g_input_stream_read] on the base stream answers. *)
Inductive base_answer :=
  | Got (data : list Z)
  | WouldBlock
  | Failed.

Inductive event :=
  | Delivered (data : list Z)                       (* bytes given to the user *)
  | Unread (data : list Z)                          (* bytes given back *)
  | AsyncDone (result : Z + io_error).              (* the pending read ends *)

Definition set_buffer (b : list Z) (p : EvdBufferedInputStreamPrivate)
  : EvdBufferedInputStreamPrivate :=
  mkIn b (async_result p) (async_buffer p) (requested_size p) (actual_size p) (read_src p)
    (frozen p) (max_buffer p).
Definition set_async (a : bool) (p : EvdBufferedInputStreamPrivate)
  : EvdBufferedInputStreamPrivate :=
  mkIn (buffer p) a (async_buffer p) (requested_size p) (actual_size p) (read_src p)
    (frozen p) (max_buffer p).
Definition set_source (s : bool) (p : EvdBufferedInputStreamPrivate)
  : EvdBufferedInputStreamPrivate :=
  mkIn (buffer p) (async_result p) (async_buffer p) (requested_size p) (actual_size p) s
    (frozen p) (max_buffer p).
Definition set_frozen (f : bool) (p : EvdBufferedInputStreamPrivate)
  : EvdBufferedInputStreamPrivate :=
  mkIn (buffer p) (async_result p) (async_buffer p) (requested_size p) (actual_size p)
    (read_src p) f (max_buffer p).

(** [a] answers the read of the base stream, made when the buffer holds less than [size]. *)
Definition evd_buffered_input_stream_read (p : EvdBufferedInputStreamPrivate) (size : Z)
    (a : base_answer) : EvdBufferedInputStreamPrivate * (list Z + io_error) :=
  if frozen p then (p, inr ErrWouldBlock)
  else
    let read_from_buf := Z.min (Z.of_nat (length (buffer p))) size in
    let from_buf := take (Z.to_nat read_from_buf) (buffer p) in
    let size := size - read_from_buf in
    let erased :=
      if 0 <? read_from_buf then set_buffer (drop (Z.to_nat read_from_buf) (buffer p)) p else p in
    if 0 <? size then
      match a with
      | Got data => (erased, inl (from_buf ++ data))
      | WouldBlock =>
          if 0 <? read_from_buf then (erased, inl from_buf) else (p, inr ErrWouldBlock)
      | Failed =>
          if 0 <? read_from_buf then (erased, inl from_buf) else (p, inr ErrOther)
      end
    else (erased, inl from_buf).

(** Whether the operation reads the base stream, and for how many bytes. *)
Definition wants (p : EvdBufferedInputStreamPrivate) (size : Z) : Z :=
  if frozen p then 0 else size - Z.min (Z.of_nat (length (buffer p))) size.

Definition do_read (p : EvdBufferedInputStreamPrivate) (a : base_answer)
  : EvdBufferedInputStreamPrivate * list event :=
  let p := set_source false p in
  if negb (async_result p) then (p, [])
  else
    match evd_buffered_input_stream_read p (requested_size p) a with
    | (p, inr ErrWouldBlock) => (p, [])
    | (p, inr e) => (set_async false p, [AsyncDone (inr e)])
    | (p, inl data) =>
        let size := Z.of_nat (length data) in
        let p := mkIn (buffer p) (async_result p) data (requested_size p)
                   (actual_size p) (read_src p) (frozen p) (max_buffer p) in
        if negb (size =? 0) then
          (mkIn (buffer p) false (async_buffer p) (requested_size p) (actual_size p + size)
             (read_src p) (frozen p) (max_buffer p),
           [Delivered data; AsyncDone (inl (actual_size p + size))])
        else (p, [])
    end.

Definition evd_buffered_input_stream_read_async (p : EvdBufferedInputStreamPrivate) (size : Z)
  : EvdBufferedInputStreamPrivate :=
  mkIn (buffer p) true [] size 0 (negb (frozen p) || read_src p) (frozen p) (max_buffer p).

Definition evd_buffered_input_stream_read_finish (p : EvdBufferedInputStreamPrivate)
    (error : option io_error) : Z + io_error :=
  match error with Some e => inr e | None => inl (actual_size p) end.

Definition evd_buffered_input_stream_close (p : EvdBufferedInputStreamPrivate)
  : EvdBufferedInputStreamPrivate * list event :=
  let p := set_source false p in
  if async_result p then (set_async false p, [AsyncDone (inr ErrClosed)]) else (p, []).

Definition evd_buffered_input_stream_thaw (p : EvdBufferedInputStreamPrivate)
  : EvdBufferedInputStreamPrivate :=
  let p := set_frozen false p in
  if async_result p && negb (read_src p) then set_source true p else p.

Definition evd_buffered_input_stream_freeze (p : EvdBufferedInputStreamPrivate)
  : EvdBufferedInputStreamPrivate := set_frozen true p.

Definition evd_buffered_input_stream_unread (p : EvdBufferedInputStreamPrivate) (data : list Z)
  : EvdBufferedInputStreamPrivate * list event * (Z + io_error) :=
  let size := Z.of_nat (length data) in
  if size =? 0 then (p, [], inl 0)
  else if max_buffer p <? Z.of_nat (length (buffer p)) + size then (p, [], inr ErrNoSpace)
  else
    let p := set_buffer (data ++ buffer p) p in
    (if frozen p then p else evd_buffered_input_stream_thaw p, [Unread data], inl size).

(** The string returned and the size stored, both empty on error. *)
Definition evd_buffered_input_stream_read_str_sync (p : EvdBufferedInputStreamPrivate) (size : Z)
    (a : base_answer) : EvdBufferedInputStreamPrivate * (list Z + io_error) :=
  if size =? 0 then (p, inl []) else evd_buffered_input_stream_read p size a.

(** ** Operations over a base stream *)

(** The stream and the bytes its base stream will give. *)
Record world := mkWorld { stream : EvdBufferedInputStreamPrivate; source : list Z }.

Inductive operation :=
  | OpRead (size : Z)
  | OpReadAsync (size : Z)
  | OpIdle                       (* the idle source runs [do_read] *)
  | OpUnread (data : list Z)
  | OpFreeze
  | OpThaw
  | OpClose.

(** The base stream gives a prefix of what it holds, no longer than asked, or an error. *)
Inductive answers (src : list Z) (size : Z) : base_answer → list Z → Prop :=
  | answers_got n :
      0 <= n <= size → (Z.to_nat n <= length src)%nat →
      answers src size (Got (take (Z.to_nat n) src)) (drop (Z.to_nat n) src)
  | answers_block : answers src size WouldBlock src
  | answers_fail : answers src size Failed src.

(** One step; a base stream that is not asked keeps its bytes. *)
Inductive step : world → operation → list event → world → Prop :=
  | step_read p src size a src' p' data :
      0 <= size → answers src (wants p size) a src' →
      evd_buffered_input_stream_read p size a = (p', inl data) →
      step (mkWorld p src) (OpRead size) [Delivered data]
        (mkWorld p' (if 0 <? wants p size then src' else src))
  | step_read_error p src size a src' p' e :
      0 <= size → answers src (wants p size) a src' →
      evd_buffered_input_stream_read p size a = (p', inr e) →
      step (mkWorld p src) (OpRead size) [] (mkWorld p' src)
  | step_read_async p src size :
      0 <= size → async_result p = false →
      step (mkWorld p src) (OpReadAsync size) []
        (mkWorld (evd_buffered_input_stream_read_async p size) src)
  | step_idle p src a src' p' evs :
      read_src p = true → answers src (wants p (requested_size p)) a src' →
      do_read p a = (p', evs) →
      step (mkWorld p src) OpIdle evs
        (mkWorld p' (if async_result p && (0 <? wants p (requested_size p)) then src' else src))
  | step_unread p src data p' evs r :
      evd_buffered_input_stream_unread p data = (p', evs, r) →
      step (mkWorld p src) (OpUnread data) evs (mkWorld p' src)
  | step_freeze p src :
      step (mkWorld p src) OpFreeze [] (mkWorld (evd_buffered_input_stream_freeze p) src)
  | step_thaw p src :
      step (mkWorld p src) OpThaw [] (mkWorld (evd_buffered_input_stream_thaw p) src)
  | step_close p src p' evs :
      evd_buffered_input_stream_close p = (p', evs) →
      step (mkWorld p src) OpClose evs (mkWorld p' src).

Inductive steps : world → list event → world → Prop :=
  | steps_nil w : steps w [] w
  | steps_cons w1 o e1 w2 e2 w3 : step w1 o e1 w2 → steps w2 e2 w3 → steps w1 (e1 ++ e2) w3.

(** ** The specification: one stream with pushback *)

Fixpoint pushback (l : list Z) (evs : list event) : option (list Z) :=
  match evs with
  | [] => Some l
  | Delivered d :: evs =>
      if decide (take (length d) l = d) then pushback (drop (length d) l) evs else None
  | Unread d :: evs => pushback (d ++ l) evs
  | AsyncDone _ :: evs => pushback l evs
  end.

Definition logical (w : world) : list Z := buffer (stream w) ++ source w.

Lemma pushback_app l e1 e2 : pushback l (e1 ++ e2) = l' ← pushback l e1; pushback l' e2.
Proof.
  revert l. induction e1 as [|[] e1 IH]; intros l; simpl; try done.
  destruct (decide _); [apply IH|done].
Qed.

Lemma pushback_delivered d l : pushback (d ++ l) [Delivered d] = Some l.
Proof. simpl. by rewrite take_app_length, decide_True, drop_app_length. Qed.

(** ** Reads *)

Lemma read_logical p size a src src' p' data :
  0 <= size → answers src (wants p size) a src' →
  evd_buffered_input_stream_read p size a = (p', inl data) →
  buffer p ++ src = data ++ buffer p' ++ (if 0 <? wants p size then src' else src).
Proof.
  intros Hs Ha. unfold evd_buffered_input_stream_read, wants in *.
  destruct (frozen p); [done|].
  set (n := Z.min (Z.of_nat (length (buffer p))) size) in *.
  assert (∀ l, l = take (Z.to_nat n) (buffer p) ++
            buffer (if 0 <? n then set_buffer (drop (Z.to_nat n) (buffer p)) p else p) → l = buffer p) as Herase.
  { intros l ->. destruct (Z.ltb_spec 0 n); simpl; [apply take_drop|].
    by replace (Z.to_nat n) with 0%nat by lia. }
  destruct (Z.ltb_spec 0 (size - n)) as [Hw|Hw].
  2: { intros [= <- <-]. rewrite app_assoc. f_equal. symmetry. by apply Herase. }
  assert (take (Z.to_nat n) (buffer p) = buffer p) as Hall by (apply take_ge; lia).
  assert (buffer (if 0 <? n then set_buffer (drop (Z.to_nat n) (buffer p)) p else p) = []) as Hnil.
  { destruct (Z.ltb_spec 0 n); simpl; [apply drop_ge; lia|]. destruct (buffer p); [done|simpl in *; lia]. }
  destruct Ha as [k Hk Hl| |].
  - intros [= <- <-]. rewrite Hall, Hnil. simpl. by rewrite <-app_assoc, take_drop.
  - destruct (Z.ltb_spec 0 n); [|done]. intros [= <- <-]. by rewrite Hall, Hnil.
  - destruct (Z.ltb_spec 0 n); [|done]. intros [= <- <-]. by rewrite Hall, Hnil.
Qed.

Lemma read_error_same p size a p' e :
  evd_buffered_input_stream_read p size a = (p', inr e) → p' = p.
Proof.
  unfold evd_buffered_input_stream_read. destruct (frozen p); [by intros; simplify_eq|].
  destruct (0 <? size - _), a, (0 <? Z.min _ _); intros; by simplify_eq.
Qed.

Lemma thaw_buffer p : buffer (evd_buffered_input_stream_thaw p) = buffer p.
Proof. unfold evd_buffered_input_stream_thaw. by destruct (_ && _). Qed.

(** An error gives no data: the base stream keeps its bytes. *)
Lemma read_error_source p size a src src' p' e :
  answers src (wants p size) a src' → evd_buffered_input_stream_read p size a = (p', inr e) →
  (if 0 <? wants p size then src' else src) = src.
Proof.
  intros Ha. unfold evd_buffered_input_stream_read, wants in *. destruct (frozen p); [done|].
  destruct (0 <? size - _); [|done]. by destruct Ha.
Qed.

Lemma idle_pushback p src a src' p' evs :
  0 <= requested_size p → answers src (wants p (requested_size p)) a src' → do_read p a = (p', evs) →
  pushback (buffer p ++ src) evs =
    Some (buffer p' ++ if async_result p && (0 <? wants p (requested_size p)) then src' else src).
Proof.
  intros Hreq Ha E. unfold do_read in E. simpl in E.
  destruct (async_result p); simpl in *; [|by simplify_eq].
  set (q := set_source false p) in *.
  destruct (evd_buffered_input_stream_read q (requested_size p) a) as [p1 [data|e]] eqn:Er.
  - pose proof (read_logical q (requested_size p) a src src' p1 data Hreq Ha Er) as Hl.
    change (buffer p ++ src) with (buffer q ++ src). rewrite Hl.
    change (wants p (requested_size p)) with (wants q (requested_size p)).
    destruct (Z.eqb_spec (Z.of_nat (length data)) 0) as [Hz|Hz]; simpl in E; simplify_eq/=.
    + by destruct data; [|simpl in Hz; lia].
    + by rewrite take_app_length, decide_True, drop_app_length.
  - change (wants p (requested_size p)) with (wants q (requested_size p)).
    rewrite (read_error_source q (requested_size p) a src src' p1 e Ha Er).
    pose proof (read_error_same _ _ _ _ _ Er) as ->. by destruct e; simplify_eq.
Qed.

Lemma read_requested p size a p' r :
  evd_buffered_input_stream_read p size a = (p', r) → requested_size p' = requested_size p.
Proof.
  unfold evd_buffered_input_stream_read. destruct (frozen p); [by intros; simplify_eq|].
  destruct (0 <? size - _), a, (0 <? Z.min _ _); intros; by simplify_eq.
Qed.

Lemma do_read_requested p a p' evs : do_read p a = (p', evs) → requested_size p' = requested_size p.
Proof.
  unfold do_read. simpl. destruct (async_result p); simpl; [|by intros; simplify_eq].
  destruct (evd_buffered_input_stream_read _ _ a) as [p1 r] eqn:E. apply read_requested in E.
  simpl in E. destruct r as [data|e]; [destruct (negb _)|destruct e]; intros; by simplify_eq.
Qed.

Lemma step_pushback w o evs w' :
  step w o evs w' → 0 <= requested_size (stream w) →
  pushback (logical w) evs = Some (logical w') ∧ 0 <= requested_size (stream w').
Proof.
  intros Hstep Hreq.
  destruct Hstep as [p src size a src' p' data Hs Ha E|p src size a src' p' e Hs Ha E|p src size Hs _
    |p src a src' p' evs Hsrc Ha E|p src data p' evs r E|p src|p src|p src p' evs E];
    unfold logical; simpl in *.
  - rewrite (read_logical p size a src src' p' data Hs Ha E). split; [apply pushback_delivered|].
    by apply read_requested in E as ->.
  - by rewrite (read_error_same _ _ _ _ _ E).
  - done.
  - split; [by apply (idle_pushback p src a)|]. by apply do_read_requested in E as ->.
  - unfold evd_buffered_input_stream_unread in E. destruct (_ =? 0); [by simplify_eq|].
    destruct (_ <? _); [by simplify_eq|]. injection E as <- <- <-. simpl.
    destruct (frozen p); simpl; [by rewrite <-app_assoc|].
    unfold evd_buffered_input_stream_thaw. by destruct (_ && _); simpl; rewrite <-app_assoc.
  - done.
  - unfold evd_buffered_input_stream_thaw. by destruct (_ && _).
  - unfold evd_buffered_input_stream_close in E. destruct (async_result _); by simplify_eq.
Qed.

(** C21. One stream with pushback: over every sequence of synchronous and asynchronous reads, idle
    callbacks, unreads, freezes, thaws and closures, with a base stream that answers short reads,
    would-block and errors as it likes, the bytes delivered to the user and the bytes given back
    are a run of a single stream with pushback: nothing is lost, duplicated or reordered. *)
Theorem input_is_pushback_stream (w w' : world) (evs : list event) :
  0 <= requested_size (stream w) → steps w evs w' → pushback (logical w) evs = Some (logical w').
Proof.
  intros Hreq Hs. revert Hreq. induction Hs as [w|w1 o e1 w2 e2 w3 Hstep _ IH]; intros Hreq; [done|].
  destruct (step_pushback _ _ _ _ Hstep Hreq) as [Hp Hr]. rewrite pushback_app, Hp. by apply IH.
Qed.

Definition demo_stream : EvdBufferedInputStreamPrivate := evd_buffered_input_stream_init 4096.
Definition demo_after_read : EvdBufferedInputStreamPrivate :=
  fst (evd_buffered_input_stream_read demo_stream 3 (Got [1; 2])).
Definition demo_after_unread : EvdBufferedInputStreamPrivate :=
  fst (fst (evd_buffered_input_stream_unread demo_after_read [2])).

Lemma demo_steps :
  steps (mkWorld demo_stream [1; 2; 3]) [Delivered [1; 2]; Unread [2]] (mkWorld demo_after_unread [3]).
Proof.
  apply (steps_cons _ (OpRead 3) [Delivered [1; 2]] (mkWorld demo_after_read [3]) [Unread [2]]).
  - apply (step_read demo_stream [1; 2; 3] 3 (Got [1; 2]) [3] demo_after_read [1; 2]); [lia| |done].
    apply (answers_got [1; 2; 3] 3 2); simpl; lia.
  - apply (steps_cons _ (OpUnread [2]) [Unread [2]] (mkWorld demo_after_unread [3]) []); [|constructor].
    by eapply (step_unread demo_after_read [3] [2]).
Qed.

Lemma input_is_pushback_stream_witness :
  pushback (logical (mkWorld demo_stream [1; 2; 3])) [Delivered [1; 2]; Unread [2]] =
    Some (logical (mkWorld demo_after_unread [3])).
Proof.
  apply (input_is_pushback_stream (mkWorld demo_stream [1; 2; 3]) (mkWorld demo_after_unread [3])
           [Delivered [1; 2]; Unread [2]]).
  - simpl. lia.
  - apply demo_steps.
Defined.

(** ** Pending reads *)

(** A pending read is served when the stream is thawed with data in its buffer: the idle
    source is attached, and when it runs, whatever the base stream answers, the read ends with at
    least one byte and the pending mark is gone. *)
Example thaw_serves_pending_read (p : EvdBufferedInputStreamPrivate) (a : base_answer) :
  async_result p = true → actual_size p = 0 → 0 < requested_size p → buffer p ≠ [] →
  read_src (evd_buffered_input_stream_thaw p) = true ∧
  ∃ p' data, do_read (evd_buffered_input_stream_thaw p) a =
      (p', [Delivered data; AsyncDone (inl (Z.of_nat (length data)))]) ∧
    data ≠ [] ∧ async_result p' = false ∧ read_src p' = false.
Proof.
  intros Ha Hz Hr Hb.
  assert (∃ q, evd_buffered_input_stream_thaw p = q ∧ read_src q = true ∧ async_result q = true ∧
    frozen q = false ∧ buffer q = buffer p ∧ requested_size q = requested_size p ∧ actual_size q = 0)
    as (q & -> & Hsrc & Hq & Hf & Hbq & Hrq & Hzq).
  { eexists; split; [done|]. unfold evd_buffered_input_stream_thaw; simpl. rewrite Ha.
    destruct (read_src p) eqn:Es; simpl; by rewrite ?Es, ?Ha. }
  split; [done|]. unfold do_read; simpl. rewrite Hq. simpl.
  unfold evd_buffered_input_stream_read; simpl. rewrite Hf, Hbq, Hrq.
  assert (0 < Z.of_nat (length (buffer p))) as Hlen by (destruct (buffer p); [done|simpl; lia]).
  set (n := Z.min (Z.of_nat (length (buffer p))) (requested_size p)).
  assert (0 < n) as Hn by lia. rewrite (proj2 (Z.ltb_lt 0 n) Hn).
  assert (∀ t, Z.of_nat (length (take (Z.to_nat n) (buffer p) ++ t)) ≠ 0) as Hne.
  { intros t. rewrite length_app, length_take. lia. }
  assert (∀ t, take (Z.to_nat n) (buffer p) ++ t ≠ []) as Hne'.
  { intros t E. specialize (Hne t). by rewrite E in Hne. }
  pose proof (Hne []) as Hne0. pose proof (Hne' []) as Hne0'. rewrite app_nil_r in Hne0, Hne0'.
  destruct (0 <? requested_size p - n); [destruct a|]; simpl;
    rewrite (proj2 (Z.eqb_neq _ _)) by done; simpl; rewrite Hzq, Z.add_0_l; eauto 10.
Qed.

Definition demo_pending : EvdBufferedInputStreamPrivate :=
  evd_buffered_input_stream_freeze
    (evd_buffered_input_stream_read_async
       (evd_buffered_input_stream_freeze demo_after_unread) 8).

Lemma thaw_serves_pending_read_witness :
  read_src (evd_buffered_input_stream_thaw demo_pending) = true ∧
  ∃ p' data, do_read (evd_buffered_input_stream_thaw demo_pending) Failed =
      (p', [Delivered data; AsyncDone (inl (Z.of_nat (length data)))]) ∧
    data ≠ [] ∧ async_result p' = false ∧ read_src p' = false.
Proof.
  apply (thaw_serves_pending_read demo_pending Failed).
  - reflexivity.
  - reflexivity.
  - reflexivity.
  - done.
Defined.

(** A pending read at the end of the base stream never ends: [do_read] treats the size 0 of
    the end of the stream like a lack of data but leaves no source to try again. *)
Example end_of_stream_hangs (p : EvdBufferedInputStreamPrivate) :
  async_result p = true → frozen p = false → buffer p = [] →
  ∃ p', do_read p (Got []) = (p', []) ∧ async_result p' = true ∧ read_src p' = false.
Proof.
  intros Ha Hf Hb. unfold do_read; simpl. rewrite Ha. simpl.
  unfold evd_buffered_input_stream_read; simpl. rewrite Hf, Hb. simpl length.
  destruct (Z.min_spec (Z.of_nat 0) (requested_size p)) as [[H ->]|[H ->]].
  - simpl. destruct (0 <? requested_size p - Z.of_nat 0); simpl; (eexists; split; [done|]); by rewrite Ha.
  - assert ((0 <? requested_size p) = false) as -> by (apply Z.ltb_ge; lia).
    rewrite Z.sub_diag, take_nil. simpl. eexists. split; [done|]. by rewrite Ha.
Qed.

Lemma end_of_stream_hangs_witness :
  ∃ p', do_read (evd_buffered_input_stream_read_async demo_stream 8) (Got []) = (p', []) ∧
    async_result p' = true ∧ read_src p' = false.
Proof.
  apply (end_of_stream_hangs (evd_buffered_input_stream_read_async demo_stream 8)).
  - reflexivity.
  - reflexivity.
  - reflexivity.
Defined.

End BufferedInput.
