(* ===== verification/Promise.v ===== *)
(** * Promises (src/evd/evd-promise.c): model and theorems

    A deferred, its promise and the main loop's idle queue.  A listener callback may itself attach
    more listeners ([reacts]).  [None] stands for the use of a deferred that has been freed. *)
From S2P Require Import Prelude.

Module Promise.

(** A result as the getters see it. *)
Record result := mkResult {
  res_pointer : Z;
  res_size : Z;
  res_boolean : bool;
  res_error : option Z
}.

Record PromiseClosure := mkClosure { callback : nat; closure_data : Z }.

Record EvdPromisePrivate := mkPromise {
  completed : bool;
  user_data : Z;
  res : result;
  resolve_funcs : bool;                  (* still held by the promise *)
  listeners : list PromiseClosure;
  cancellable : option bool              (* its cancelled state, when there is one *)
}.

(** The deferred holds its promise (kept apart in [world], since the application shares it) and
    the resolve functions it has stolen from it. *)
Record EvdDeferred := mkDeferred { ref_count : Z; deferred_completed : bool }.

(** The idle sources, in the order they were added. *)
Inductive idle_task :=
  | call_listener_in_idle (c : PromiseClosure)
  | deferred_complete_in_idle_cb.

Inductive event :=
  | Registered (c : PromiseClosure)
  | Called (c : PromiseClosure) (seen_user_data : Z) (seen : result)
  | Freed.

(** The deferred is [None] once freed. *)
Record world := mkWorld {
  deferred : option EvdDeferred;
  prom : EvdPromisePrivate;
  idle : list idle_task
}.

Definition evd_promise_init (c : option bool) : EvdPromisePrivate :=
  mkPromise false 0 (mkResult 0 0 false None) true [] c.

Definition steal_resolve_funcs (p : EvdPromisePrivate) : EvdPromisePrivate :=
  mkPromise (completed p) (user_data p) (res p) false (listeners p) (cancellable p).

Definition evd_deferred_new (c : option bool) : world :=
  mkWorld (Some (mkDeferred 1 false)) (steal_resolve_funcs (evd_promise_init c)) [].

Definition set_prom (p : EvdPromisePrivate) (w : world) : world := mkWorld (deferred w) p (idle w).

Definition evd_promise_then (w : world) (c : PromiseClosure) : world * list event :=
  let p := prom w in
  let p := mkPromise (completed p) (closure_data c) (res p) (resolve_funcs p) (listeners p)
             (cancellable p) in
  if completed p then
    (mkWorld (deferred w) p (idle w ++ [call_listener_in_idle c]), [Registered c])
  else
    (mkWorld (deferred w)
       (mkPromise (completed p) (user_data p) (res p) (resolve_funcs p) (listeners p ++ [c])
          (cancellable p)) (idle w), [Registered c]).

Section Listeners.
(** The listeners a callback attaches when it is called. *)
Context (reacts : nat → list PromiseClosure).

Fixpoint then_all (w : world) (cs : list PromiseClosure) : world * list event :=
  match cs with
  | [] => (w, [])
  | c :: cs =>
      let '(w, e1) := evd_promise_then w c in
      let '(w, e2) := then_all w cs in (w, e1 ++ e2)
  end.

(** A call: what the callback sees, then what it does. *)
Definition call_listener (w : world) (c : PromiseClosure) : world * list event :=
  let '(w', evs) := then_all w (reacts (callback c)) in
  (w', Called c (user_data (prom w)) (res (prom w)) :: evs).

(** The loop of [evd_promise_notify_completion] over [node]. *)
Fixpoint notify_loop (w : world) (node : list PromiseClosure) : world * list event :=
  match node with
  | [] => (w, [])
  | c :: node =>
      let p := prom w in
      let w := set_prom (mkPromise (completed p) (closure_data c) (res p) (resolve_funcs p)
                           (listeners p) (cancellable p)) w in
      let '(w, e1) := call_listener w c in
      let '(w, e2) := notify_loop w node in (w, e1 ++ e2)
  end.

Definition set_listeners (l : list PromiseClosure) (w : world) : world :=
  let p := prom w in
  set_prom (mkPromise (completed p) (user_data p) (res p) (resolve_funcs p) l (cancellable p)) w.

Definition evd_promise_notify_completion (w : world) : world * list event :=
  let p := prom w in
  let w := set_prom (mkPromise true (user_data p) (res p) (resolve_funcs p) (listeners p)
                       (cancellable p)) w in
  let '(w, evs) := notify_loop w (listeners p) in
  (set_listeners [] w, evs).

(** The setters write through [g_return_if_fail (! completed)]. *)
Definition resolve (f : result → result) (p : EvdPromisePrivate) : EvdPromisePrivate :=
  if completed p then p
  else mkPromise (completed p) (user_data p) (f (res p)) (resolve_funcs p) (listeners p)
         (cancellable p).

Definition resolve_pointer_real (v : Z) : EvdPromisePrivate → EvdPromisePrivate :=
  resolve (λ r, mkResult v (res_size r) (res_boolean r) (res_error r)).
Definition resolve_size_real (v : Z) : EvdPromisePrivate → EvdPromisePrivate :=
  resolve (λ r, mkResult (res_pointer r) v (res_boolean r) (res_error r)).
Definition resolve_boolean_real (v : bool) : EvdPromisePrivate → EvdPromisePrivate :=
  resolve (λ r, mkResult (res_pointer r) (res_size r) v (res_error r)).
Definition reject_real (v : Z) : EvdPromisePrivate → EvdPromisePrivate :=
  resolve (λ r, mkResult (res_pointer r) (res_size r) (res_boolean r) (Some v)).

(** Operations on the deferred; [None] when it has been freed. *)
Definition with_deferred (w : world) (f : Z → bool → world * list event)
  : option (world * list event) :=
  d ← deferred w; Some (f (ref_count d) (deferred_completed d)).

Definition evd_deferred_set_result_pointer (w : world) (v : Z) : option (world * list event) :=
  with_deferred w (λ _ _, (set_prom (resolve_pointer_real v (prom w)) w, [])).
Definition evd_deferred_set_result_size (w : world) (v : Z) : option (world * list event) :=
  with_deferred w (λ _ _, (set_prom (resolve_size_real v (prom w)) w, [])).
Definition evd_deferred_set_result_boolean (w : world) (v : bool) : option (world * list event) :=
  with_deferred w (λ _ _, (set_prom (resolve_boolean_real v (prom w)) w, [])).
Definition evd_deferred_take_result_error (w : world) (v : Z) : option (world * list event) :=
  with_deferred w (λ _ _, (set_prom (reject_real v (prom w)) w, [])).

Definition evd_deferred_complete (w : world) : option (world * list event) :=
  with_deferred w (λ n c,
    if c then (w, [])
    else evd_promise_notify_completion (mkWorld (Some (mkDeferred n true)) (prom w) (idle w))).

(** No reference is taken for the idle source. *)
Definition evd_deferred_complete_in_idle (w : world) : option (world * list event) :=
  with_deferred w (λ n c,
    if c then (w, [])
    else (mkWorld (Some (mkDeferred n true)) (prom w) (idle w ++ [deferred_complete_in_idle_cb]), [])).

Definition evd_deferred_ref (w : world) : option (world * list event) :=
  with_deferred w (λ n c, (mkWorld (Some (mkDeferred (n + 1) c)) (prom w) (idle w), [])).

(** Without contention the compare-and-exchange succeeds. *)
Definition evd_deferred_unref (w : world) : option (world * list event) :=
  with_deferred w (λ n c,
    if 1 <? n then (mkWorld (Some (mkDeferred (n - 1) c)) (prom w) (idle w), [])
    else (mkWorld None (prom w) (idle w), [Freed])).

Definition evd_promise_cancel (w : world) : world :=
  let p := prom w in
  set_prom (mkPromise (completed p) (user_data p) (res p) (resolve_funcs p) (listeners p)
              ((λ _, true) <$> cancellable p)) w.

(** The main loop dispatches the first idle source. *)
Definition run_idle (w : world) : option (world * list event) :=
  match idle w with
  | [] => Some (w, [])
  | call_listener_in_idle c :: tasks =>
      Some (call_listener (mkWorld (deferred w) (prom w) tasks) c)
  | deferred_complete_in_idle_cb :: tasks =>
      with_deferred w (λ n c,
        evd_promise_notify_completion (mkWorld (Some (mkDeferred n c)) (prom w) tasks))
  end.

Inductive operation :=
  | OpThen (c : PromiseClosure)
  | OpSetPointer (v : Z) | OpSetSize (v : Z) | OpSetBoolean (v : bool) | OpTakeError (v : Z)
  | OpComplete | OpCompleteInIdle | OpRef | OpUnref | OpCancel | OpIdle.

Definition perform (w : world) (o : operation) : option (world * list event) :=
  match o with
  | OpThen c => Some (evd_promise_then w c)
  | OpSetPointer v => evd_deferred_set_result_pointer w v
  | OpSetSize v => evd_deferred_set_result_size w v
  | OpSetBoolean v => evd_deferred_set_result_boolean w v
  | OpTakeError v => evd_deferred_take_result_error w v
  | OpComplete => evd_deferred_complete w
  | OpCompleteInIdle => evd_deferred_complete_in_idle w
  | OpRef => evd_deferred_ref w
  | OpUnref => evd_deferred_unref w
  | OpCancel => Some (evd_promise_cancel w, [])
  | OpIdle => run_idle w
  end.

Fixpoint perform_all (w : world) (os : list operation) : option (world * list event) :=
  match os with
  | [] => Some (w, [])
  | o :: os =>
      '(w, e1) ← perform w o; '(w, e2) ← perform_all w os; Some (w, e1 ++ e2)
  end.

End Listeners.

(** ** The specification: every listener once, in order *)

Definition called (evs : list event) : list PromiseClosure :=
  omap (λ e, match e with Called c _ _ => Some c | _ => None end) evs.
Definition registered (evs : list event) : list PromiseClosure :=
  omap (λ e, match e with Registered c => Some c | _ => None end) evs.
Definition idle_listeners (tasks : list idle_task) : list PromiseClosure :=
  omap (λ t, match t with call_listener_in_idle c => Some c | _ => None end) tasks.

(** The listeners that have not been called yet. *)
Definition pending (w : world) : list PromiseClosure :=
  listeners (prom w) ++ idle_listeners (idle w).

Lemma called_app e1 e2 : called (e1 ++ e2) = called e1 ++ called e2.
Proof. apply omap_app. Qed.
Lemma registered_app e1 e2 : registered (e1 ++ e2) = registered e1 ++ registered e2.
Proof. apply omap_app. Qed.
Lemma idle_listeners_app t1 t2 : idle_listeners (t1 ++ t2) = idle_listeners t1 ++ idle_listeners t2.
Proof. apply omap_app. Qed.

(** A promise is either unresolved, with no listener in the idle queue, or resolved, with all its
    listeners there. *)
Definition promise_ok (w : world) : Prop :=
  if completed (prom w) then listeners (prom w) = [] else idle_listeners (idle w) = [].

(** What an operation owes to the specification. *)
Definition serves (w w' : world) (evs : list event) : Prop :=
  called evs ++ pending w' = pending w ++ registered evs.

Lemma then_serves w c w' evs :
  promise_ok w → evd_promise_then w c = (w', evs) → promise_ok w' ∧ serves w w' evs.
Proof.
  unfold promise_ok, serves, pending, evd_promise_then. simpl.
  destruct (completed (prom w)) eqn:Ec; intros Hok [= <- <-]; simpl.
  - rewrite Hok. split; [done|]. by rewrite idle_listeners_app.
  - split; [done|]. by rewrite Hok, !app_nil_r.
Qed.

(** While the promise notifies, new listeners go to the idle queue and the result stays. *)
Record grows (cs : list PromiseClosure) (w w' : world) : Prop := mkGrows {
  grows_idle : idle_listeners (idle w') = idle_listeners (idle w) ++ cs;
  grows_listeners : listeners (prom w') = listeners (prom w);
  grows_completed : completed (prom w') = true;
  grows_res : res (prom w') = res (prom w);
  grows_deferred : deferred w' = deferred w
}.

Lemma grows_trans cs1 cs2 w1 w2 w3 : grows cs1 w1 w2 → grows cs2 w2 w3 → grows (cs1 ++ cs2) w1 w3.
Proof. intros [] []. split; try congruence. rewrite app_assoc. congruence. Qed.

Lemma then_all_grows cs : ∀ w w' evs,
  completed (prom w) = true → then_all w cs = (w', evs) →
  grows cs w w' ∧ called evs = [] ∧ registered evs = cs.
Proof.
  induction cs as [|c cs IH]; intros w w' evs Hc; simpl.
  { intros [= <- <-]. split; [|done]. split; try done. by rewrite app_nil_r. }
  unfold evd_promise_then. simpl. rewrite Hc.
  match goal with |- context [then_all ?x cs] => set (w1 := x) end.
  assert (grows [c] w w1) as Hg by (split; try done; simpl; by rewrite idle_listeners_app).
  destruct (then_all w1 cs) as [w2 e2] eqn:E2. intros [= <- <-].
  destruct (IH w1 w2 e2 eq_refl E2) as (Hg2 & Hcl & Hreg).
  split; [by apply (grows_trans [c] cs w w1)|]. simpl. by rewrite Hcl, Hreg.
Qed.

Section Spec.
Context (reacts : nat → list PromiseClosure).

Lemma call_listener_grows w c w' evs :
  completed (prom w) = true → call_listener reacts w c = (w', evs) →
  grows (registered evs) w w' ∧ called evs = [c] ∧
  ∀ x u r, Called x u r ∈ evs → r = res (prom w).
Proof.
  intros Hc. unfold call_listener.
  destruct (then_all w (reacts (callback c))) as [w1 e1] eqn:E. intros [= <- <-].
  destruct (then_all_grows _ _ _ _ Hc E) as (Hg & Hcl & Hreg). simpl.
  split_and!; [by rewrite Hreg|by rewrite Hcl|]. intros x u r [Hx|Hx]%elem_of_cons; [congruence|].
  exfalso. assert (x ∈ called e1) as Hin by (apply list_elem_of_omap; eauto).
  rewrite Hcl in Hin. by apply not_elem_of_nil in Hin.
Qed.

Lemma notify_loop_grows node : ∀ w w' evs,
  completed (prom w) = true → notify_loop reacts w node = (w', evs) →
  grows (registered evs) w w' ∧ called evs = node ∧ ∀ x u r, Called x u r ∈ evs → r = res (prom w).
Proof.
  induction node as [|c node IH]; intros w w' evs Hc; cbn [notify_loop].
  { intros [= <- <-]. split_and!; [split; try done; by rewrite app_nil_r|done|].
    intros x u r Hx. by apply not_elem_of_nil in Hx. }
  set (w0 := set_prom _ w). assert (grows [] w w0) as Hg0 by (split; try done; by rewrite app_nil_r).
  destruct (call_listener reacts w0 c) as [w1 e1] eqn:E1.
  destruct (notify_loop reacts w1 node) as [w2 e2] eqn:E2. intros [= <- <-].
  destruct (call_listener_grows w0 c w1 e1 Hc E1) as (Hg1 & Hc1 & Hs1).
  destruct (IH w1 w2 e2 (grows_completed _ _ _ Hg1) E2) as (Hg2 & Hc2 & Hs2).
  split_and!.
  - rewrite registered_app. apply (grows_trans [] _ w w0); [done|]. by eapply grows_trans.
  - by rewrite called_app, Hc1, Hc2.
  - intros x u r [Hx|Hx]%elem_of_app; [by eapply Hs1|].
    rewrite (Hs2 x u r Hx). apply (grows_res _ _ _ Hg1).
Qed.

Lemma notify_serves w w' evs :
  promise_ok w → evd_promise_notify_completion reacts w = (w', evs) →
  promise_ok w' ∧ serves w w' evs ∧ completed (prom w') = true ∧ res (prom w') = res (prom w) ∧
  ∀ x u r, Called x u r ∈ evs → r = res (prom w).
Proof.
  intros Hok. unfold evd_promise_notify_completion.
  set (w0 := set_prom _ w). destruct (notify_loop reacts w0 (listeners (prom w))) as [w1 e1] eqn:E.
  intros [= <- <-]. destruct (notify_loop_grows _ w0 w1 e1 eq_refl E) as ([Hi Hl Hc Hr _] & Hcl & Hs).
  simpl in *. unfold promise_ok, serves, pending; simpl. rewrite Hc.
  split_and!; [done| |done|done|done]. by rewrite Hi, Hcl, app_assoc.
Qed.

(** One operation: the specification is served, and a resolved promise keeps its result. *)
Record sound (w w' : world) (evs : list event) : Prop := mkSound {
  sound_ok : promise_ok w';
  sound_serves : serves w w' evs;
  sound_final : completed (prom w) = true → completed (prom w') = true ∧ res (prom w') = res (prom w);
  sound_seen : ∀ x u r, Called x u r ∈ evs → completed (prom w') = true ∧ r = res (prom w')
}.

Lemma sound_silent w w' evs :
  promise_ok w' → pending w' = pending w → called evs = [] → registered evs = [] →
  (completed (prom w) = true → completed (prom w') = true ∧ res (prom w') = res (prom w)) →
  sound w w' evs.
Proof.
  intros Hok Hp Hc Hr Hf. split; [done| |done|].
  - unfold serves. by rewrite Hc, Hr, Hp, app_nil_r.
  - intros x u r Hx. exfalso. assert (x ∈ called evs) as Hin by (apply list_elem_of_omap; eauto).
    rewrite Hc in Hin. by apply not_elem_of_nil in Hin.
Qed.

Lemma resolve_sound w f :
  promise_ok w → sound w (set_prom (resolve f (prom w)) w) [].
Proof.
  intros Hok. unfold resolve. destruct (completed (prom w)) eqn:Ec.
  - by apply sound_silent.
  - apply sound_silent; try done; [|by rewrite Ec]. unfold promise_ok in *; simpl. by rewrite Ec in *.
Qed.

Lemma notify_sound w w' evs :
  promise_ok w → evd_promise_notify_completion reacts w = (w', evs) → sound w w' evs.
Proof.
  intros Hok E. apply notify_serves in E as (Hok' & Hs & Hc & Hr & Hseen); [|done].
  split; try done. intros x u r Hx. split; [done|]. rewrite Hr. by eapply Hseen.
Qed.

Lemma run_idle_sound w w' evs :
  promise_ok w → run_idle reacts w = Some (w', evs) → sound w w' evs.
Proof.
  intros Hok. unfold run_idle. destruct (idle w) as [|[c|] tasks] eqn:Ei.
  - intros [= <- <-]. by apply sound_silent.
  - unfold promise_ok in Hok. rewrite Ei in Hok. simpl in Hok.
    destruct (completed (prom w)) eqn:Ec; [|done]. set (w0 := mkWorld _ _ tasks).
    destruct (call_listener reacts w0 c) as [w1 e1] eqn:E. intros [= <- <-].
    destruct (call_listener_grows w0 c w1 e1 Ec E) as ([Hi Hl Hc Hr _] & Hcl & Hs). simpl in *.
    split.
    + unfold promise_ok. by rewrite Hc, Hl.
    + unfold serves, pending. rewrite Hcl, Hl, Hok, Hi, Ei. by simpl.
    + by rewrite Hr.
    + intros x u r Hx. split; [done|]. rewrite Hr. by eapply Hs.
  - unfold with_deferred. destruct (deferred w) as [d|]; [|done]. simpl.
    set (w0 := mkWorld _ _ tasks). intros [= E].
    assert (pending w0 = pending w) as Hp by (unfold pending; simpl; by rewrite Ei).
    assert (promise_ok w0) as Hok0 by (unfold promise_ok in *; simpl; by rewrite Ei in Hok).
    destruct (notify_sound w0 w' evs Hok0 E) as [H1 H2 H3 H4]. split; try done.
    unfold serves in *. by rewrite <-Hp.
Qed.

Lemma perform_sound w o w' evs :
  promise_ok w → perform reacts w o = Some (w', evs) → sound w w' evs.
Proof.
  intros Hok. destruct o as [c|v|v|v|v| | | | | |]; simpl;
    unfold evd_deferred_set_result_pointer, evd_deferred_set_result_size,
      evd_deferred_set_result_boolean, evd_deferred_take_result_error, evd_deferred_complete,
      evd_deferred_complete_in_idle, evd_deferred_ref, evd_deferred_unref, with_deferred;
    try (destruct (deferred w) as [d|] eqn:Ed; [|done]); run_bind.
  all: try by (intros [= <- <-]; apply resolve_sound).
  - intros [= E]. destruct (then_serves w c w' evs Hok E) as [Hok' Hs].
    unfold evd_promise_then in E. simpl in E. destruct (completed (prom w)) eqn:Ec; simplify_eq.
    + split; try done. intros x u r Hx. apply list_elem_of_singleton in Hx. done.
    + split; try done; [by rewrite Ec|]. intros x u r Hx. apply list_elem_of_singleton in Hx. done.
  - destruct (deferred_completed d); [intros [= <- <-]; by apply sound_silent|]. intros [= E].
    set (w0 := mkWorld _ (prom w) (idle w)) in E.
    destruct (notify_sound w0 w' evs Hok E) as [H1 H2 H3 H4]. by split.
  - destruct (deferred_completed d); intros [= <- <-]; apply sound_silent; try done.
    + unfold promise_ok in *; simpl. rewrite idle_listeners_app. simpl. by rewrite app_nil_r.
    + unfold pending; simpl. rewrite idle_listeners_app. simpl. by rewrite app_nil_r.
  - intros [= <- <-]. by apply sound_silent.
  - destruct (1 <? ref_count d); intros [= <- <-]; by apply sound_silent.
  - intros [= <- <-]. by apply sound_silent.
  - by apply run_idle_sound.
Qed.

Lemma perform_all_sound os : ∀ w w' evs,
  promise_ok w → perform_all reacts w os = Some (w', evs) → sound w w' evs.
Proof.
  induction os as [|o os IH]; intros w w' evs Hok; simpl.
  { intros [= <- <-]. by apply sound_silent. }
  destruct (perform reacts w o) as [[w1 e1]|] eqn:E1; [|done]. simpl.
  destruct (perform_all reacts w1 os) as [[w2 e2]|] eqn:E2; [|done]. simpl. intros [= <- <-].
  destruct (perform_sound w o w1 e1 Hok E1) as [Hok1 Hs1 Hf1 Hseen1].
  destruct (IH w1 w2 e2 Hok1 E2) as [Hok2 Hs2 Hf2 Hseen2]. split; [done|..].
  - unfold serves in *. rewrite called_app, registered_app, <-app_assoc, Hs2, app_assoc, Hs1.
    by rewrite app_assoc.
  - intros Hc. destruct (Hf1 Hc) as [Hc1 <-]. by apply Hf2.
  - intros x u r [Hx|Hx]%elem_of_app; [|by eapply Hseen2].
    destruct (Hseen1 x u r Hx) as [Hc1 ->]. by destruct (Hf2 Hc1) as [-> ->].
Qed.

(** C22. Every listener is called exactly once, in order: over every sequence of attachments, result
    settings, completions (direct or idle), reference changes, cancellations and turns of the main
    loop, with listeners that attach others when they run, the listeners called so far followed
    by those still waiting are the listeners attached, in the order they were attached; and once
    the promise is resolved those that wait are in the idle queue. *)
Theorem listeners_called_once_in_order (c : option bool) (os : list operation) (w : world)
    (evs : list event) :
  perform_all reacts (evd_deferred_new c) os = Some (w, evs) →
  called evs ++ pending w = registered evs ∧
  (completed (prom w) = true → pending w = idle_listeners (idle w)).
Proof.
  intros E. apply perform_all_sound in E as [Hok Hs _ _]; [|done]. split; [done|].
  intros Hc. unfold promise_ok in Hok. rewrite Hc in Hok. unfold pending. by rewrite Hok.
Qed.

(** The result of a resolved promise is immutable: every listener that has been called, early
    or late, has seen the same result, which is the one the promise still holds, whatever the
    deferred tries to set afterwards. *)
Example result_is_immutable (c : option bool) (os : list operation) (w : world) (evs : list event)
    (x : PromiseClosure) (u : Z) (r : result) :
  perform_all reacts (evd_deferred_new c) os = Some (w, evs) → Called x u r ∈ evs →
  completed (prom w) = true ∧ r = res (prom w).
Proof. intros E Hx. apply perform_all_sound in E as [_ _ _ Hseen]; [|done]. by eapply Hseen. Qed.

End Spec.

(** ** Concrete runs *)

Definition demo_reacts (callback : nat) : list PromiseClosure :=
  if decide (callback = 1%nat) then [mkClosure 9 90] else [].
Definition demo_operations : list operation :=
  [OpThen (mkClosure 1 10); OpThen (mkClosure 2 20); OpSetSize 42; OpComplete;
   OpThen (mkClosure 3 30); OpSetSize 43; OpIdle].
Definition demo_run : option (world * list event) :=
  perform_all demo_reacts (evd_deferred_new None) demo_operations.
Definition demo_end : world := from_option fst (evd_deferred_new None) demo_run.
Definition demo_events : list event := from_option snd [] demo_run.

Lemma listeners_called_once_in_order_witness :
  called demo_events ++ pending demo_end = registered demo_events ∧
  (completed (prom demo_end) = true → pending demo_end = idle_listeners (idle demo_end)).
Proof.
  apply (listeners_called_once_in_order demo_reacts None demo_operations demo_end demo_events).
  vm_compute. reflexivity.
Defined.

Lemma result_is_immutable_witness :
  completed (prom demo_end) = true ∧ mkResult 0 42 false None = res (prom demo_end).
Proof.
  apply (result_is_immutable demo_reacts None demo_operations demo_end demo_events
           (mkClosure 1 10) 10 (mkResult 0 42 false None)).
  - vm_compute. reflexivity.
  - vm_compute. apply elem_of_cons. right. apply elem_of_cons. right. apply elem_of_cons. by left.
Defined.

(** ** What goes wrong *)

(** A listener called from the idle queue may see the user data of another one. *)
Example late_listener_sees_wrong_user_data :
  ∃ w e, perform_all (λ _, []) (evd_deferred_new None)
           [OpComplete; OpThen (mkClosure 1 10); OpThen (mkClosure 2 20); OpIdle] =
         Some (w, e ++ [Called (mkClosure 1 10) 20 (mkResult 0 0 false None)]).
Proof. eexists _, [_; _]. vm_compute. reflexivity. Qed.

(** [evd_deferred_complete_in_idle] takes no reference for its idle source: a deferred that is
    released after it, its only reference, is used after it has been freed. *)
Example complete_in_idle_uses_freed_deferred (reacts : nat → list PromiseClosure) (c : option bool) :
  perform_all reacts (evd_deferred_new c) [OpCompleteInIdle; OpUnref; OpIdle] = None.
Proof. reflexivity. Qed.

(** ** Two threads that release a reference *)

(** A thread in [evd_deferred_unref]: before the atomic read, holding the value read, or done. *)
Inductive unref_pc := Start | Holds (old_ref : Z) | Done.

Inductive unref_step : Z * unref_pc → Z * unref_pc → Prop :=
  | unref_read n : unref_step (n, Start) (n, Holds n)
  | unref_cas_ok n : 1 < n → unref_step (n, Holds n) (n - 1, Done)
  | unref_cas_fails n old : 1 < old → n ≠ old → unref_step (n, Holds old) (n, Done).

(** Two threads over the same counter. *)
Inductive threads_step : Z * unref_pc * unref_pc → Z * unref_pc * unref_pc → Prop :=
  | threads_left n n' a a' b : unref_step (n, a) (n', a') → threads_step (n, a, b) (n', a', b)
  | threads_right n n' a b b' : unref_step (n, b) (n', b') → threads_step (n, a, b) (n', a, b').

(** The failed exchange is not retried: two concurrent releases may count for one. *)
Example lost_unref : rtc threads_step (3, Start, Start) (2, Done, Done).
Proof.
  eapply rtc_l; [apply threads_left, unref_read|].
  eapply rtc_l; [apply threads_right, unref_read|].
  eapply rtc_l; [apply threads_left, (unref_cas_ok 3); lia|].
  eapply rtc_l; [apply threads_right, (unref_cas_fails 2 3); lia|]. apply rtc_refl.
Qed.


End Promise.
