(* ===== verification/Peer.v ===== *)
(** * Peers, the peer manager and the transport's peer handling: model

    src/evd/evd-peer.c, src/evd/evd-peer-manager.c, the peer part of src/evd/evd-transport.c and
    the backlog flush of src/evd/evd-websocket-server.c.  Peers are shared objects: they live in a
    heap, and the manager's table holds names.  The three ways of closing a peer call each other;
    fuel bounds the recursion, and a theorem says how much is enough.  [None] stands for the lack
    of fuel or a dangling name.  Signal handlers are effects that do not call back. *)
From S2P Require Import Prelude.

Module Peer.

Inductive EvdMessageType := MESSAGE_TYPE_TEXT | MESSAGE_TYPE_BINARY.

Record BacklogFrame := mkFrame { frame_type : EvdMessageType; frame_buf : list Z }.

Definition DEFAULT_TIMEOUT_INTERVAL : Z := 15.

(** The private data of a peer, and the [PEER_CLOSING_KEY] datum the transport attaches to it. *)
Record EvdPeerPrivate := mkPeer {
  closed : bool;
  backlog : list BacklogFrame;
  idle_timer : Z;                  (* the time of its last start *)
  timeout_interval : Z;
  closing_key : bool
}.

Definition evd_peer_init (now : Z) : EvdPeerPrivate :=
  mkPeer false [] now DEFAULT_TIMEOUT_INTERVAL false.

Definition set_backlog (b : list BacklogFrame) (p : EvdPeerPrivate) : EvdPeerPrivate :=
  mkPeer (closed p) b (idle_timer p) (timeout_interval p) (closing_key p).
Definition set_closed (p : EvdPeerPrivate) : EvdPeerPrivate :=
  mkPeer true (backlog p) (idle_timer p) (timeout_interval p) (closing_key p).
Definition set_closing (k : bool) (p : EvdPeerPrivate) : EvdPeerPrivate :=
  mkPeer (closed p) (backlog p) (idle_timer p) (timeout_interval p) k.

(** ** The backlog *)

Definition create_new_backlog_frame (message : list Z) (t : EvdMessageType) : BacklogFrame :=
  mkFrame t message.

Definition evd_peer_push_message (p : EvdPeerPrivate) (message : list Z) (t : EvdMessageType)
  : EvdPeerPrivate * bool :=
  (set_backlog (backlog p ++ [create_new_backlog_frame message t]) p, true).

Definition evd_peer_unshift_message (p : EvdPeerPrivate) (message : list Z) (t : EvdMessageType)
  : EvdPeerPrivate * bool :=
  if Z.of_nat (length message) =? 0 then (p, true)
  else (set_backlog (create_new_backlog_frame message t :: backlog p) p, true).

Definition evd_peer_pop_message (p : EvdPeerPrivate)
  : EvdPeerPrivate * option (list Z * EvdMessageType) :=
  match backlog p with
  | [] => (p, None)
  | f :: b => (set_backlog b p, Some (frame_buf f, frame_type f))
  end.

Definition evd_peer_backlog_get_length (p : EvdPeerPrivate) : nat := length (backlog p).

Definition evd_peer_backlog_push_frame (p : EvdPeerPrivate) (frame : list Z) :=
  evd_peer_push_message p frame MESSAGE_TYPE_TEXT.
Definition evd_peer_backlog_unshift_frame (p : EvdPeerPrivate) (frame : list Z) :=
  evd_peer_unshift_message p frame MESSAGE_TYPE_TEXT.

(** [send_frame] of the transport: [sent] is what the transport's own [send] answers. *)
Definition send_frame (p : EvdPeerPrivate) (buffer : list Z) (t : EvdMessageType) (sent : bool)
  : EvdPeerPrivate * bool * list BacklogFrame :=
  if sent then (p, true, [mkFrame t buffer])
  else let '(p, ok) := evd_peer_push_message p buffer t in (p, ok, []).

(** The loop of [on_websocket_connection_ready] over the backlog; [answers] are the successive
    answers of [evd_websocket_server_send]. The frames that went out are returned. *)
Fixpoint flush_backlog (fuel : nat) (p : EvdPeerPrivate) (answers : list bool)
  : option (EvdPeerPrivate * list BacklogFrame) :=
  if (evd_peer_backlog_get_length p =? 0)%nat then Some (p, [])
  else
    match fuel with
    | O => None
    | S fuel =>
        match evd_peer_pop_message p with
        | (p, None) => None
        | (p, Some (frame, t)) =>
            match answers with
            | true :: answers =>
                '(p, out) ← flush_backlog fuel p answers; Some (p, mkFrame t frame :: out)
            | _ => Some ((evd_peer_unshift_message p frame t).1, [])
            end
        end
    end.

(** ** Liveness *)

Definition evd_peer_touch (now : Z) (p : EvdPeerPrivate) : EvdPeerPrivate :=
  mkPeer (closed p) (backlog p) now (timeout_interval p) (closing_key p).

(** [connected] is what the transport's [peer_is_connected] answers. *)
Definition evd_transport_peer_is_connected (now : Z) (connected : bool) (p : EvdPeerPrivate)
  : EvdPeerPrivate * bool :=
  if connected then (evd_peer_touch now p, true) else (p, false).

(** [&&] and [||] evaluate from left to right: a peer is asked for its connection only when its
    timer has expired. *)
Definition evd_peer_is_alive (now : Z) (connected : bool) (p : EvdPeerPrivate)
  : EvdPeerPrivate * bool :=
  if closed p then (p, false)
  else if now - idle_timer p <=? timeout_interval p then (p, true)
  else evd_transport_peer_is_connected now connected p.

(** ** The manager *)

Definition DEFAULT_PEER_CLEANUP_INTERVAL : Z := 5.

Record EvdPeerManagerPrivate := mkManager {
  peers : gset string;
  peer_cleanup_timer : Z;
  peer_cleanup_interval : Z;
  peer_cleanup_src_id : Z;
  removal_list : list string
}.

Definition evd_peer_manager_init (now : Z) : EvdPeerManagerPrivate :=
  mkManager ∅ now DEFAULT_PEER_CLEANUP_INTERVAL 0 [].

Record world := mkWorld {
  heap : gmap string EvdPeerPrivate;
  manager : EvdPeerManagerPrivate;
  sources : list Z;               (* the attached cleanup sources *)
  next_src : Z
}.

Inductive event :=
  | ManagerPeerClosed (id : string) (gracefully : bool)
  | IfacePeerClosed (id : string) (gracefully : bool)
  | TransportPeerClosed (id : string) (gracefully : bool)
  | NotifyNewPeer (id : string).

Definition set_peer (id : string) (p : EvdPeerPrivate) (w : world) : world :=
  mkWorld (<[id := p]> (heap w)) (manager w) (sources w) (next_src w).
Definition set_peers (s : gset string) (w : world) : world :=
  let m := manager w in
  mkWorld (heap w)
    (mkManager s (peer_cleanup_timer m) (peer_cleanup_interval m) (peer_cleanup_src_id m)
       (removal_list m)) (sources w) (next_src w).

(** [evd_peer_close], [evd_transport_close_peer] and [evd_peer_manager_close_peer] (with
    [evd_peer_manager_close_peer_internal] inside). *)
Fixpoint evd_peer_close (fuel : nat) (w : world) (id : string) (gracefully : bool) {struct fuel}
  : option (world * list event) :=
  match fuel with
  | O => None
  | S fuel =>
      p ← heap w !! id;
      if closed p then Some (w, [])
      else evd_transport_close_peer fuel (set_peer id (set_closed p) w) id gracefully
  end
with evd_transport_close_peer (fuel : nat) (w : world) (id : string) (gracefully : bool)
    {struct fuel} : option (world * list event) :=
  match fuel with
  | O => None
  | S fuel =>
      p ← heap w !! id;
      if closing_key p then Some (w, [])
      else
        let w := set_peer id (set_closing true p) w in
        '(w, e1) ← evd_peer_manager_close_peer fuel w id gracefully;
        '(w, e2) ← evd_peer_close fuel w id gracefully;
        p ← heap w !! id;
        Some (set_peer id (set_closing false p) w,
              e1 ++ e2 ++ [IfacePeerClosed id gracefully; TransportPeerClosed id gracefully])
  end
with evd_peer_manager_close_peer (fuel : nat) (w : world) (id : string) (gracefully : bool)
    {struct fuel} : option (world * list event) :=
  match fuel with
  | O => None
  | S fuel =>
      if decide (id ∈ peers (manager w)) then
        let w := set_peers (peers (manager w) ∖ {[id]}) w in
        '(w, e) ← evd_peer_close fuel w id gracefully;
        Some (w, e ++ [ManagerPeerClosed id gracefully])
      else Some (w, [])
  end.

(** Two calls of each function deep at most. *)
Definition close_fuel : nat := 6.

Definition evd_peer_manager_close_peer_internal (w : world) (id : string) (gracefully : bool)
  : option (world * list event) :=
  '(w, e) ← evd_peer_close close_fuel w id gracefully;
  Some (w, e ++ [ManagerPeerClosed id gracefully]).

(** The body of [g_hash_table_foreach_remove]: asks a peer whether it is alive, and queues a
    dead one. *)
Definition evd_peer_manager_check_peer (now : Z) (connected : string → bool) (id : string)
    (w : world) : option (world * bool) :=
  p ← heap w !! id;
  let '(p, alive) := evd_peer_is_alive now (connected id) p in
  let w := set_peer id p w in
  if alive then Some (w, false)
  else
    let m := manager w in
    Some (mkWorld (heap w)
            (mkManager (peers m) (peer_cleanup_timer m) (peer_cleanup_interval m)
               (peer_cleanup_src_id m) (removal_list m ++ [id])) (sources w) (next_src w), true).

(** [order] is the order in which the hash table is traversed. *)
Fixpoint foreach_remove (now : Z) (connected : string → bool) (order : list string) (w : world)
  : option world :=
  match order with
  | [] => Some w
  | id :: order =>
      '(w, dead) ← evd_peer_manager_check_peer now connected id w;
      foreach_remove now connected order
        (if (dead : bool) then set_peers (peers (manager w) ∖ {[id]}) w else w)
  end.

Definition pop_removal (w : world) : option (string * world) :=
  let m := manager w in
  match removal_list m with
  | [] => None
  | id :: l =>
      Some (id, mkWorld (heap w)
                  (mkManager (peers m) (peer_cleanup_timer m) (peer_cleanup_interval m)
                     (peer_cleanup_src_id m) l) (sources w) (next_src w))
  end.

(** The loop over [removal_list]. *)
Fixpoint close_removed (fuel : nat) (w : world) : option (world * list event) :=
  match pop_removal w with
  | None => Some (w, [])
  | Some (id, w) =>
      match fuel with
      | O => None
      | S fuel =>
          '(w, e1) ← evd_peer_manager_close_peer_internal w id false;
          '(w, e2) ← close_removed fuel w;
          Some (w, e1 ++ e2)
      end
  end.

Definition evd_peer_manager_cleanup_peers (now : Z) (connected : string → bool)
    (order : list string) (w : world) : option (world * list event) :=
  let m := manager w in
  if now - peer_cleanup_timer m <=? peer_cleanup_interval m then Some (w, [])
  else
    let w := mkWorld (heap w)
               (mkManager (peers m) now (peer_cleanup_interval m) (peer_cleanup_src_id m)
                  (removal_list m)) (sources w) (next_src w) in
    w ← foreach_remove now connected order w;
    close_removed (length (removal_list (manager w))) w.

Definition evd_peer_manager_add_peer (now : Z) (connected : string → bool) (order : list string)
    (w : world) (id : string) : option (world * list event) :=
  let w := set_peers ({[id]} ∪ peers (manager w)) w in
  '(w, e) ← evd_peer_manager_cleanup_peers now connected order w;
  Some (w, NotifyNewPeer id :: e).

(** Each lookup attaches a cleanup source and keeps only the last identifier. *)
Definition evd_peer_manager_lookup_peer (w : world) (id : string) : world * option string :=
  let m := manager w in
  (mkWorld (heap w)
     (mkManager (peers m) (peer_cleanup_timer m) (peer_cleanup_interval m) (next_src w)
        (removal_list m)) (sources w ++ [next_src w]) (next_src w + 1),
   if decide (id ∈ peers m) then Some id else None).

Definition evd_peer_manager_cleanup_peers_cb (now : Z) (connected : string → bool)
    (order : list string) (w : world) : option (world * list event) :=
  let m := manager w in
  evd_peer_manager_cleanup_peers now connected order
    (mkWorld (heap w) (mkManager (peers m) (peer_cleanup_timer m) (peer_cleanup_interval m) 0
                         (removal_list m)) (tail (sources w)) (next_src w)).

Definition evd_peer_manager_get_all_peers (now : Z) (connected : string → bool)
    (order : list string) (w : world) : option (world * list event * gset string) :=
  '(w, e) ← evd_peer_manager_cleanup_peers now connected order w;
  Some (w, e, peers (manager w)).

Definition evd_peer_manager_dispose (w : world) : option (world * list event) :=
  '(w, e) ← close_removed (length (removal_list (manager w))) w;
  Some (set_peers ∅ w, e).

(** The sources left attached when the manager is finalized. *)
Definition evd_peer_manager_finalize (w : world) : list Z :=
  if peer_cleanup_src_id (manager w) =? 0 then sources w
  else filter (λ s, s ≠ peer_cleanup_src_id (manager w)) (sources w).

End Peer.
