(* ===== verification/PeerSpec.v ===== *)
(** * Peers: theorems

    Whichever of the three mutually recursive functions starts it, a peer is closed once, with one
    notification of each kind; a cleanup removes exactly the dead peers; the backlog flush neither
    loses nor reorders messages. *)
From S2P Require Import Prelude Peer.
Import Peer.

Module PeerSpec.

(** ** Closing *)

(** An open peer, and the world after it has been closed. *)
Definition open_peer (w : world) (id : string) (p : EvdPeerPrivate) : Prop :=
  heap w !! id = Some p ∧ closed p = false ∧ closing_key p = false.

Definition after_close (w : world) (id : string) (p : EvdPeerPrivate) : world :=
  set_peers (peers (manager w) ∖ {[id]}) (set_peer id (set_closed p) w).

Lemma reopen p : closing_key p = false → set_closing false (set_closed (set_closing true p)) = set_closed p.
Proof. destruct p; simpl. by intros ->. Qed.

Lemma reopen' p : closing_key p = false → set_closing false (set_closing true (set_closed p)) = set_closed p.
Proof. destruct p; simpl. by intros ->. Qed.

Lemma set_peers_same w : set_peers (peers (manager w)) w = w.
Proof. by destruct w as [h [] s n]. Qed.

Definition manager_event (w : world) (id : string) (g : bool) : list event :=
  if decide (id ∈ peers (manager w)) then [ManagerPeerClosed id g] else [].

Lemma not_in_table w id : id ∉ peers (manager w) → peers (manager w) ∖ {[id]} = peers (manager w).
Proof. intros. set_solver. Qed.

Lemma peer_close_spec n w id p g :
  open_peer w id p →
  evd_peer_close (4 + n) w id g =
    Some (after_close w id p, manager_event w id g ++ [IfacePeerClosed id g; TransportPeerClosed id g]).
Proof.
  intros (Hp & Hc & Hk). unfold after_close, manager_event.
  simpl. rewrite Hp. simpl. rewrite Hc, lookup_insert_eq. simpl. rewrite Hk.
  destruct (decide (id ∈ peers (manager w))) as [Hin|Hin]; simpl.
  - repeat (rewrite lookup_insert_eq; simpl). do 2 f_equal.
    unfold set_peer, set_peers; simpl. rewrite !insert_insert_eq. by rewrite reopen'.
  - repeat (rewrite lookup_insert_eq; simpl). do 2 f_equal.
    unfold set_peer, set_peers; simpl. rewrite !insert_insert_eq, not_in_table, reopen' by done.
    by destruct (manager w).
Qed.

Lemma transport_close_spec n w id p g :
  open_peer w id p →
  evd_transport_close_peer (4 + n) w id g =
    Some (after_close w id p, manager_event w id g ++ [IfacePeerClosed id g; TransportPeerClosed id g]).
Proof.
  intros (Hp & Hc & Hk). unfold after_close, manager_event.
  simpl. rewrite Hp. simpl. rewrite Hk.
  destruct (decide (id ∈ peers (manager w))) as [Hin|Hin]; simpl.
  - rewrite lookup_insert_eq. simpl. rewrite Hc, lookup_insert_eq. simpl.
    repeat (rewrite lookup_insert_eq; simpl). do 2 f_equal.
    unfold set_peer, set_peers; simpl. rewrite !insert_insert_eq. by rewrite reopen.
  - repeat (rewrite ?lookup_insert_eq, ?Hc; simpl). do 2 f_equal.
    unfold set_peer, set_peers; simpl. rewrite !insert_insert_eq, not_in_table, reopen by done.
    by destruct (manager w).
Qed.

Lemma manager_close_spec n w id p g :
  open_peer w id p → id ∈ peers (manager w) →
  evd_peer_manager_close_peer (5 + n) w id g =
    Some (after_close w id p,
          [IfacePeerClosed id g; TransportPeerClosed id g; ManagerPeerClosed id g]).
Proof.
  intros Hp Hin. change (5 + n)%nat with (S (4 + n)). cbn [evd_peer_manager_close_peer].
  rewrite decide_True by done. set (w0 := set_peers _ w).
  rewrite (peer_close_spec n w0 id p g) by done. run_bind.
  unfold manager_event, w0; simpl. rewrite decide_False by set_solver. do 2 f_equal.
  unfold after_close, set_peer, set_peers; simpl. do 2 f_equal. set_solver.
Qed.

(** However the closing of an open peer starts (from the peer, from its transport, or from the
    manager that holds it), the mutual calls end (fuel [close_fuel] is enough) and the peer is
    closed, out of the table, with no closing mark left; the transport's interface and signal are
    notified exactly once, and the manager's signal exactly once when the manager held it. *)
Example closing_notifies_once (w : world) (id : string) (p : EvdPeerPrivate) (g : bool) :
  open_peer w id p →
  let notified := manager_event w id g ++ [IfacePeerClosed id g; TransportPeerClosed id g] in
  evd_peer_close close_fuel w id g = Some (after_close w id p, notified) ∧
  evd_transport_close_peer close_fuel w id g = Some (after_close w id p, notified) ∧
  (id ∈ peers (manager w) →
   evd_peer_manager_close_peer close_fuel w id g =
     Some (after_close w id p,
           [IfacePeerClosed id g; TransportPeerClosed id g; ManagerPeerClosed id g])).
Proof.
  intros Hp notified. split_and!.
  - by apply (peer_close_spec 2).
  - by apply (transport_close_spec 2).
  - by apply (manager_close_spec 1).
Qed.

(** ** Cleanup *)

Section Cleanup.
Context (now : Z) (connected : string → bool).

Definition alive (w : world) (id : string) : bool :=
  match heap w !! id with
  | Some p => (evd_peer_is_alive now (connected id) p).2
  | None => true
  end.

Definition dead (w : world) (order : list string) : list string :=
  filter (λ id, alive w id = false) order.

(** The state of a peer after it has been asked. *)
Definition asked (w : world) (id : string) : option EvdPeerPrivate :=
  (λ p, (evd_peer_is_alive now (connected id) p).1) <$> heap w !! id.

Lemma is_alive_fields p c :
  let q := (evd_peer_is_alive now c p).1 in closed q = closed p ∧ closing_key q = closing_key p.
Proof.
  unfold evd_peer_is_alive, evd_transport_peer_is_connected.
  destruct (closed p) eqn:E; [by simpl; rewrite E|].
  destruct (now - idle_timer p <=? timeout_interval p), c; simpl; by rewrite ?E.
Qed.

(** Asking the first peer of the traversal does not change the answers of the others. *)
Lemma ask_first w w' id q order :
  id ∉ order → asked w id = Some q → (∀ i, heap w' !! i = heap (set_peer id q w) !! i) →
  (∀ i, i ∈ order → heap w' !! i = heap w !! i) ∧ dead w' order = dead w order ∧
  ∀ i, (if decide (i ∈ order) then asked w' i else heap w' !! i) =
       if decide (i ∈ id :: order) then asked w i else heap w !! i.
Proof.
  intros Hni Hq Hw'.
  assert (∀ i, i ≠ id → heap w' !! i = heap w !! i) as Hne
    by (intros i Hi; rewrite Hw'; simpl; by rewrite lookup_insert_ne).
  split_and!.
  - intros i Hi. apply Hne. by intros ->.
  - apply filter_ext_in. intros i Hi. unfold alive. by rewrite Hne by (by intros ->).
  - intros i. destruct (decide (i = id)) as [->|Hi].
    + rewrite decide_False, decide_True by (done || by left). rewrite Hw'. simpl.
      by rewrite lookup_insert_eq.
    + unfold asked. rewrite Hne by done. destruct (decide (i ∈ order)).
      * by rewrite decide_True by (by right).
      * rewrite decide_False; [done|]. by intros [|]%elem_of_cons.
Qed.

Lemma foreach_remove_spec order : ∀ w,
  NoDup order → (∀ id, id ∈ order → is_Some (heap w !! id)) →
  ∃ w1, foreach_remove now connected order w = Some w1 ∧
    peers (manager w1) = peers (manager w) ∖ list_to_set (dead w order) ∧
    removal_list (manager w1) = removal_list (manager w) ++ dead w order ∧
    (∀ id, heap w1 !! id = if decide (id ∈ order) then asked w id else heap w !! id).
Proof.
  induction order as [|id order IH]; intros w Hnd Hheap; cbn [foreach_remove].
  { exists w. split_and!; [done|set_solver|by rewrite app_nil_r|]. intros id.
    by rewrite decide_False by set_solver. }
  apply NoDup_cons in Hnd as [Hni Hnd]. destruct (Hheap id) as [p Hp]; [by left|].
  unfold evd_peer_manager_check_peer. rewrite Hp. run_bind.
  destruct (evd_peer_is_alive now (connected id) p) as [q a] eqn:Ea.
  assert (alive w id = a ∧ asked w id = Some q) as [Ha Hq]
    by (unfold alive, asked; rewrite Hp; simpl; by rewrite Ea).
  destruct a; run_bind.
  - set (w' := set_peer id q w).
    destruct (ask_first w w' id q order Hni Hq (λ _, eq_refl)) as (Hh & Hd & Hk).
    destruct (IH w' Hnd) as (w1 & -> & Hp1 & Hr1 & Hh1).
    { intros i Hi. rewrite Hh by done. apply Hheap. by right. }
    assert (dead w (id :: order) = dead w order) as -> by (unfold dead; by rewrite filter_cons_False by congruence).
    rewrite Hd in *. exists w1. split_and!; try done. intros i. by rewrite Hh1, Hk.
  - match goal with |- context [foreach_remove now connected order ?x] => set (w' := x) end.
    destruct (ask_first w w' id q order Hni Hq (λ _, eq_refl)) as (Hh & Hd & Hk).
    destruct (IH w' Hnd) as (w1 & -> & Hp1 & Hr1 & Hh1).
    { intros i Hi. rewrite Hh by done. apply Hheap. by right. }
    assert (dead w (id :: order) = id :: dead w order) as -> by (unfold dead; by rewrite filter_cons_True by congruence).
    rewrite Hd in *. exists w1. split_and!; [done|..].
    + rewrite Hp1. simpl. set_solver.
    + rewrite Hr1. simpl. by rewrite <-app_assoc.
    + intros i. by rewrite Hh1, Hk.
Qed.

End Cleanup.

Definition closing_events (id : string) : list event :=
  [IfacePeerClosed id false; TransportPeerClosed id false; ManagerPeerClosed id false].

Lemma close_removed_spec l : ∀ w,
  removal_list (manager w) = l → NoDup l →
  (∀ id, id ∈ l → (id ∉ peers (manager w)) ∧ (∃ p, open_peer w id p)) →
  ∃ w', close_removed (length l) w = Some (w', concat (closing_events <$> l)) ∧
    peers (manager w') = peers (manager w) ∧ removal_list (manager w') = [] ∧
    ∀ id, heap w' !! id = if decide (id ∈ l) then set_closed <$> heap w !! id else heap w !! id.
Proof.
  induction l as [|id l IH]; intros w Hl Hnd Hopen; cbn [close_removed length]; unfold pop_removal;
    rewrite Hl.
  { exists w. by split_and!. }
  apply NoDup_cons in Hnd as [Hni Hnd]. destruct (Hopen id) as [Hnp (p & Hp)]; [by left|].
  set (w0 := mkWorld _ _ _ _). unfold evd_peer_manager_close_peer_internal.
  change close_fuel with (4 + 2)%nat. rewrite (peer_close_spec 2 w0 id p false) by done. run_bind.
  assert (manager_event w0 id false = []) as -> by (unfold manager_event; simpl; by rewrite decide_False).
  set (w1 := after_close w0 id p).
  assert (peers (manager w1) = peers (manager w)) as Hp1 by (simpl; set_solver).
  assert (∀ i, i ≠ id → heap w1 !! i = heap w !! i) as Hne by (intros; simpl; by rewrite lookup_insert_ne).
  destruct (IH w1) as (w' & -> & Hp' & Hr' & Hh'); [done|done|..].
  { intros i Hi. rewrite Hp1. destruct (Hopen i) as [Hi1 (q & Hq & Hqc & Hqk)]; [by right|].
    split; [done|]. exists q. unfold open_peer. by rewrite Hne by (by intros ->). }
  exists w'. split_and!; [done|congruence|done|]. intros i. rewrite Hh'.
  destruct (decide (i = id)) as [->|Hi].
  - rewrite decide_False, decide_True by (done || by left). simpl. rewrite lookup_insert_eq.
    destruct Hp as (-> & _). done.
  - rewrite Hne by done. destruct (decide (i ∈ l)).
    + by rewrite decide_True by (by right).
    + rewrite decide_False; [done|]. by intros [|]%elem_of_cons.
Qed.

(** The manager between two operations: nothing queued for removal, and the peers of its table
    are open. *)
Definition manager_ok (w : world) : Prop :=
  removal_list (manager w) = [] ∧ ∀ id, id ∈ peers (manager w) → ∃ p, open_peer w id p.

(** A cleanup removes exactly the dead peers: when the interval has passed, whatever the order
    in which the table is traversed, the peers removed are those that are neither recently active
    nor connected; each is closed and notified once, in that order; the others stay, open; and the
    manager is ready for the next operation. *)
Example cleanup_removes_dead_peers (now : Z) (connected : string → bool) (order : list string)
    (w : world) :
  manager_ok w → NoDup order → (∀ id, id ∈ order ↔ id ∈ peers (manager w)) →
  peer_cleanup_interval (manager w) < now - peer_cleanup_timer (manager w) →
  ∃ w', evd_peer_manager_cleanup_peers now connected order w =
      Some (w', concat (closing_events <$> dead now connected w order)) ∧
    peers (manager w') = peers (manager w) ∖ list_to_set (dead now connected w order) ∧
    manager_ok w' ∧
    ∀ id p, id ∈ dead now connected w order → heap w' !! id = Some p → closed p = true.
Proof.
  intros [Hr Hopen] Hnd Horder Hint. unfold evd_peer_manager_cleanup_peers.
  destruct (Z.leb_spec (now - peer_cleanup_timer (manager w)) (peer_cleanup_interval (manager w))); [lia|].
  set (w0 := mkWorld _ _ _ _). set (d := dead now connected w order).
  destruct (foreach_remove_spec now connected order w0 Hnd) as (w1 & -> & Hp1 & Hr1 & Hh1).
  { intros id Hid. apply Horder, Hopen in Hid as (p & Hp & _). by exists p. }
  fold d in Hp1, Hr1. change (dead now connected w0 order) with d in *. simpl in Hp1, Hr1.
  rewrite Hr in Hr1. simpl in Hr1. run_bind. rewrite Hr1.
  assert (∀ id, id ∈ d → id ∈ order) as Hd by (intros id [_ ?]%list_elem_of_filter; done).
  assert (∀ id, id ∈ order → ∃ p, open_peer w1 id p) as Hopen1.
  { intros id Hid. pose proof Hid as (p & Hp & Hc & Hk)%Horder%Hopen.
    pose proof (is_alive_fields now p (connected id)) as [Ec Ek].
    eexists. split_and!; [rewrite Hh1, decide_True by done; unfold asked; simpl; by rewrite Hp|congruence..]. }
  destruct (close_removed_spec d w1 Hr1) as (w' & -> & Hp' & Hr' & Hh').
  { by apply NoDup_filter. }
  { intros id Hid. split; [rewrite Hp1; set_solver|auto]. }
  exists w'. split_and!; [done|congruence|split; [done|]|].
  - intros id. rewrite Hp', Hp1. intros [Hin Hnd']%elem_of_difference.
    destruct (Hopen1 id) as (p & Hp); [by apply Horder|]. exists p.
    unfold open_peer in *. rewrite Hh', decide_False by (by rewrite elem_of_list_to_set in Hnd'). done.
  - intros id p Hid. rewrite Hh', decide_True by done.
    destruct (heap w1 !! id); simpl; [|done]. by intros [= <-].
Qed.

(** ** The backlog *)

Lemma pop_unshift p m t p' :
  m ≠ [] → evd_peer_pop_message p = (p', Some (m, t)) → (evd_peer_unshift_message p' m t).1 = p.
Proof.
  intros Hm. unfold evd_peer_pop_message, evd_peer_unshift_message.
  destruct (backlog p) as [|[t' m'] b] eqn:E; [done|]. intros [= <- <- <-]. simpl in *.
  destruct (Z.eqb_spec (Z.of_nat (length m')) 0); [destruct m'; [done|simpl in *; lia]|].
  unfold set_backlog, create_new_backlog_frame; simpl. rewrite <-E. by destruct p.
Qed.

(** Flushing the backlog to a new connection neither loses nor reorders messages: the loop
    ends, and the frames sent followed by the backlog it leaves are the backlog it found, whatever
    sends succeed, when no queued message is empty. *)
Example backlog_flush_keeps_messages (p : EvdPeerPrivate) (answers : list bool) :
  Forall (λ f, frame_buf f ≠ []) (backlog p) →
  ∃ p' out, flush_backlog (length (backlog p)) p answers = Some (p', out) ∧
    out ++ backlog p' = backlog p.
Proof.
  remember (backlog p) as b eqn:Eb. intros Hne. revert p answers Eb.
  induction Hne as [|f b Hf _ IH]; intros p answers Eb;
    cbn [flush_backlog length]; unfold evd_peer_backlog_get_length; rewrite <-Eb.
  { exists p, []. by rewrite <-Eb. }
  assert (evd_peer_pop_message p = (set_backlog b p, Some (frame_buf f, frame_type f))) as Hpop
    by (unfold evd_peer_pop_message; by rewrite <-Eb).
  cbn [length Nat.eqb]. rewrite Hpop. destruct answers as [|[] answers].
  - rewrite (pop_unshift p (frame_buf f) (frame_type f) _ Hf Hpop). exists p, []. by rewrite <-Eb.
  - destruct (IH (set_backlog b p) answers eq_refl) as (p' & out & -> & Ho).
    exists p', (f :: out). simpl. rewrite Ho. by destruct f.
  - rewrite (pop_unshift p (frame_buf f) (frame_type f) _ Hf Hpop). exists p, []. by rewrite <-Eb.
Qed.

(** ** Concrete instances *)

Definition demo_peer : EvdPeerPrivate := evd_peer_init 0.
Definition demo_world : world :=
  mkWorld {[ "a"%string := demo_peer; "b"%string := evd_peer_touch 90 demo_peer ]}
    (mkManager {[ "a"%string; "b"%string ]} 0 5 0 []) [] 1.

Lemma demo_open_a : open_peer demo_world "a" demo_peer.
Proof. by split_and!. Qed.

Lemma demo_manager_ok : manager_ok demo_world.
Proof.
  split; [done|]. intros id. simpl. intros [->%elem_of_singleton| ->%elem_of_singleton]%elem_of_union.
  - exists demo_peer. apply demo_open_a.
  - exists (evd_peer_touch 90 demo_peer). by split_and!.
Qed.

Lemma closing_notifies_once_witness :
  let notified := manager_event demo_world "a" true ++
                  [IfacePeerClosed "a" true; TransportPeerClosed "a" true] in
  evd_peer_close close_fuel demo_world "a" true =
    Some (after_close demo_world "a" demo_peer, notified) ∧
  evd_transport_close_peer close_fuel demo_world "a" true =
    Some (after_close demo_world "a" demo_peer, notified) ∧
  (("a"%string ∈ peers (manager demo_world)) →
   evd_peer_manager_close_peer close_fuel demo_world "a" true =
     Some (after_close demo_world "a" demo_peer,
           [IfacePeerClosed "a" true; TransportPeerClosed "a" true; ManagerPeerClosed "a" true])).
Proof. apply (closing_notifies_once demo_world "a" demo_peer true). apply demo_open_a. Defined.

Lemma cleanup_removes_dead_peers_witness :
  ∃ w', evd_peer_manager_cleanup_peers 100 (λ _, false) ["b"; "a"]%string demo_world =
      Some (w', concat (closing_events <$> dead 100 (λ _, false) demo_world ["b"; "a"]%string)) ∧
    peers (manager w') = peers (manager demo_world) ∖
      list_to_set (dead 100 (λ _, false) demo_world ["b"; "a"]%string) ∧
    manager_ok w' ∧
    ∀ id p, id ∈ dead 100 (λ _, false) demo_world ["b"; "a"]%string →
      heap w' !! id = Some p → closed p = true.
Proof.
  apply (cleanup_removes_dead_peers 100 (λ _, false) ["b"; "a"]%string demo_world).
  - apply demo_manager_ok.
  - apply NoDup_cons; split; [|apply NoDup_singleton]. by intros [=]%list_elem_of_singleton.
  - intros id. simpl. rewrite !elem_of_cons, elem_of_nil, elem_of_union, !elem_of_singleton. tauto.
  - reflexivity.
Defined.

Definition demo_backlog : EvdPeerPrivate :=
  set_backlog [mkFrame MESSAGE_TYPE_TEXT [1]; mkFrame MESSAGE_TYPE_BINARY [2; 3]] demo_peer.

Lemma backlog_flush_keeps_messages_witness :
  ∃ p' out, flush_backlog (length (backlog demo_backlog)) demo_backlog [true; false] = Some (p', out) ∧
    out ++ backlog p' = backlog demo_backlog.
Proof.
  apply (backlog_flush_keeps_messages demo_backlog [true; false]).
  repeat (constructor; [done|]). constructor.
Defined.

(** ** What goes wrong *)

(** An empty message put back at the head of the backlog is dropped. *)
Example empty_message_lost :
  let p := set_backlog [mkFrame MESSAGE_TYPE_TEXT []; mkFrame MESSAGE_TYPE_TEXT [1]] demo_peer in
  flush_backlog 2 p [false] = Some (set_backlog [mkFrame MESSAGE_TYPE_TEXT [1]] demo_peer, []).
Proof. reflexivity. Qed.

(** A message sent while others wait in the backlog overtakes them. *)
Example send_overtakes_backlog :
  let '(p, _, out1) := send_frame demo_peer [1] MESSAGE_TYPE_TEXT false in
  let '(p, _, out2) := send_frame p [2] MESSAGE_TYPE_TEXT true in
  out1 ++ out2 = [mkFrame MESSAGE_TYPE_TEXT [2]] ∧ backlog p = [mkFrame MESSAGE_TYPE_TEXT [1]].
Proof. done. Qed.

(** A second call of [evd_transport_close_peer] notifies again. *)
Example transport_close_repeats :
  evd_transport_close_peer close_fuel (after_close demo_world "a" demo_peer) "a" true =
    Some (after_close demo_world "a" demo_peer,
          [IfacePeerClosed "a" true; TransportPeerClosed "a" true]).
Proof. vm_compute. reflexivity. Qed.

(** Two lookups before the main loop runs leave a cleanup source behind the finalized manager. *)
Example cleanup_source_leaks :
  let '(w, _) := evd_peer_manager_lookup_peer demo_world "a" in
  let '(w, _) := evd_peer_manager_lookup_peer w "b" in
  evd_peer_manager_finalize w = [1].
Proof. vm_compute. reflexivity. Qed.

(** ** What closing leaves alone

    Nothing in the handling of peers but sending touches a backlog, and no peer is lost. *)
Definition same_peers (w w' : world) : Prop := ∀ id, backlog <$> heap w' !! id = backlog <$> heap w !! id.

Lemma same_peers_trans w1 w2 w3 : same_peers w1 w2 → same_peers w2 w3 → same_peers w1 w3.
Proof. intros H1 H2 id. by rewrite H2, H1. Qed.

Lemma set_peer_same w id p q :
  heap w !! id = Some p → backlog q = backlog p → same_peers w (set_peer id q w).
Proof.
  intros Hp Hq id'. unfold set_peer. cbn [heap]. destruct (decide (id' = id)) as [->|];
    [by rewrite lookup_insert_eq, Hp; cbn; rewrite Hq|by rewrite lookup_insert_ne].
Qed.

Lemma same_heap w w' : heap w' = heap w → same_peers w w'.
Proof. intros E id. by rewrite E. Qed.

Lemma closing_same fuel : ∀ w id g w' evs,
  (evd_peer_close fuel w id g = Some (w', evs) → same_peers w w') ∧
  (evd_transport_close_peer fuel w id g = Some (w', evs) → same_peers w w') ∧
  (evd_peer_manager_close_peer fuel w id g = Some (w', evs) → same_peers w w').
Proof.
  induction fuel as [|fuel IH]; intros w id g w' evs; [done|]. split_and!; simpl.
  - destruct (heap w !! id) as [p|] eqn:Hp; [|done]. run_bind. destruct (closed p); [by intros [= <- <-]|].
    intros E%(proj1 (proj2 (IH _ _ _ _ _))). eapply same_peers_trans; [|done]. by eapply set_peer_same.
  - destruct (heap w !! id) as [p|] eqn:Hp; [|done]. run_bind. destruct (closing_key p); [by intros [= <- <-]|].
    destruct (evd_peer_manager_close_peer _ _ _ _) as [[w1 e1]|] eqn:E1; [|done]. run_bind.
    destruct (evd_peer_close _ _ _ _) as [[w2 e2]|] eqn:E2; [|done]. run_bind.
    destruct (heap w2 !! id) as [p2|] eqn:Hp2; [|done]. run_bind. intros [= <- <-].
    apply IH in E1, E2. apply (same_peers_trans _ _ _ (set_peer_same w id p (set_closing true p) Hp eq_refl)).
    apply (same_peers_trans _ _ _ E1), (same_peers_trans _ _ _ E2). by eapply set_peer_same.
  - case_decide; [|by intros [= <- <-]].
    destruct (evd_peer_close _ _ _ _) as [[w1 e1]|] eqn:E1; [|done]. run_bind. intros [= <- <-].
    apply IH in E1. eapply same_peers_trans; [|done]. by apply same_heap.
Qed.

Lemma check_peer_same now connected id w w' dead :
  evd_peer_manager_check_peer now connected id w = Some (w', dead) → same_peers w w'.
Proof.
  unfold evd_peer_manager_check_peer. destruct (heap w !! id) as [p|] eqn:Hp; [|done]. run_bind.
  destruct (evd_peer_is_alive now (connected id) p) as [q alive] eqn:Ea.
  assert (backlog q = backlog p) as Hq.
  { revert Ea. unfold evd_peer_is_alive, evd_transport_peer_is_connected. by repeat case_match; intros [= <- _]. }
  pose proof (set_peer_same w id p q Hp Hq). destruct alive; intros; by simplify_eq.
Qed.

Lemma foreach_remove_same now connected order : ∀ w w',
  foreach_remove now connected order w = Some w' → same_peers w w'.
Proof.
  induction order as [|id order IH]; intros w w'; simpl; [by intros [= <-]|].
  destruct (evd_peer_manager_check_peer _ _ _ _) as [[w1 dead]|] eqn:E; [|done]. run_bind.
  apply check_peer_same in E. intros Hr%IH. eapply same_peers_trans; [done|]. by destruct dead.
Qed.

Lemma close_removed_same fuel : ∀ w w' evs, close_removed fuel w = Some (w', evs) → same_peers w w'.
Proof.
  induction fuel as [|fuel IH]; intros w w' evs; simpl;
    destruct (pop_removal w) as [[id w1]|] eqn:Epop; try done; try by intros [= <- <-].
  assert (same_peers w w1) as H1.
  { revert Epop. unfold pop_removal. destruct (removal_list _); [done|]. intros; simplify_eq. by apply same_heap. }
  unfold evd_peer_manager_close_peer_internal.
  destruct (evd_peer_close _ _ _ _) as [[w2 e2]|] eqn:E2; [|done]. run_bind. apply closing_same in E2.
  destruct (close_removed fuel w2) as [[w3 e3]|] eqn:E3; [|done]. run_bind. intros [= <- <-].
  apply IH in E3. by do 2 (eapply same_peers_trans; [done|]).
Qed.

Lemma add_peer_same now connected order w id w' evs :
  evd_peer_manager_add_peer now connected order w id = Some (w', evs) → same_peers w w'.
Proof.
  unfold evd_peer_manager_add_peer, evd_peer_manager_cleanup_peers.
  destruct (_ <=? _); [run_bind; intros [= <- <-]; by apply same_heap|].
  destruct (foreach_remove _ _ _ _) as [w1|] eqn:E1; [|done]. run_bind. apply foreach_remove_same in E1.
  destruct (close_removed _ _) as [[w2 e2]|] eqn:E2; [|done]. run_bind. apply close_removed_same in E2.
  intros [= <- <-]. eapply same_peers_trans; [|done]. eapply same_peers_trans; [|done]. by apply same_heap.
Qed.

End PeerSpec.
