(* ===== verification/ConnectionPool.v ===== *)
(** * The connection pool: model

    src/evd/evd-connection-pool.c with the part of src/evd/evd-io-stream.c and
    src/evd/evd-io-stream-group.c it works through: a pool is a group of streams, a stream knows
    its group, and each side calls the other back under the guard [recursed].  Connections are
    shared objects, kept in a table by name.  One pool is modelled, so the group of a stream is
    either that pool or none.  The calls between streams and groups are bounded by fuel;
    [CALL_DEPTH] is enough, and [None] stands for the lack of it or for a dangling name.

    The world records what the outside owes the pool: the sockets that are connecting, the
    handshakes under way and the armed timeouts; and what the pool has done: the answers given to
    the requests, in order.  The queue of connections is never NULL here: after [dispose] nothing
    runs. *)
From S2P Require Import Prelude.

Module ConnectionPool.

Definition DEFAULT_MIN_CONNS : Z := 1.
Definition DEFAULT_MAX_CONNS : Z := 5.

(** The part of [EvdConnection] and [EvdIoStream] the pool depends on. [close_handlers] counts the
    connections of [connection_on_close] to the signal "close". *)
Record EvdConnection := mkConnection {
  group : bool;
  tls_active : bool;
  closed : bool;
  close_handlers : nat
}.

Record EvdConnectionPoolPrivate := mkPool {
  min_conns : Z;
  max_conns : Z;
  conns : list nat;
  requests : list nat;
  connecting_sockets : Z;
  tls_autostart : bool;
  retry_src_id : Z;
  recursed : bool                  (* of the parent class, EvdIoStreamGroup *)
}.

Record world := mkWorld {
  pool : EvdConnectionPoolPrivate;
  streams : gmap nat EvdConnection;
  dialing : nat;                   (* calls of [evd_socket_connect_to] not answered yet *)
  handshakes : list (nat * bool);  (* calls of [starttls] not answered yet; refused ones *)
  sources : list Z;                (* armed timeouts *)
  next_source : Z;
  answers : list (nat * option nat)  (* requests completed, with a connection or an error *)
}.

(** ** Updates *)

Definition set_conns (l : list nat) (p : EvdConnectionPoolPrivate) :=
  mkPool (min_conns p) (max_conns p) l (requests p) (connecting_sockets p) (tls_autostart p)
         (retry_src_id p) (recursed p).
Definition set_requests (l : list nat) (p : EvdConnectionPoolPrivate) :=
  mkPool (min_conns p) (max_conns p) (conns p) l (connecting_sockets p) (tls_autostart p)
         (retry_src_id p) (recursed p).
Definition set_connecting (n : Z) (p : EvdConnectionPoolPrivate) :=
  mkPool (min_conns p) (max_conns p) (conns p) (requests p) n (tls_autostart p)
         (retry_src_id p) (recursed p).
Definition set_autostart (b : bool) (p : EvdConnectionPoolPrivate) :=
  mkPool (min_conns p) (max_conns p) (conns p) (requests p) (connecting_sockets p) b
         (retry_src_id p) (recursed p).
Definition set_retry (n : Z) (p : EvdConnectionPoolPrivate) :=
  mkPool (min_conns p) (max_conns p) (conns p) (requests p) (connecting_sockets p)
         (tls_autostart p) n (recursed p).
Definition set_recursed (b : bool) (p : EvdConnectionPoolPrivate) :=
  mkPool (min_conns p) (max_conns p) (conns p) (requests p) (connecting_sockets p)
         (tls_autostart p) (retry_src_id p) b.

Definition with_pool (f : EvdConnectionPoolPrivate → EvdConnectionPoolPrivate) (w : world) :=
  mkWorld (f (pool w)) (streams w) (dialing w) (handshakes w) (sources w) (next_source w)
          (answers w).
Definition with_streams (f : gmap nat EvdConnection → gmap nat EvdConnection) (w : world) :=
  mkWorld (pool w) (f (streams w)) (dialing w) (handshakes w) (sources w) (next_source w)
          (answers w).
Definition with_dialing (f : nat → nat) (w : world) :=
  mkWorld (pool w) (streams w) (f (dialing w)) (handshakes w) (sources w) (next_source w)
          (answers w).
Definition with_handshakes (f : list (nat * bool) → list (nat * bool)) (w : world) :=
  mkWorld (pool w) (streams w) (dialing w) (f (handshakes w)) (sources w) (next_source w)
          (answers w).
Definition with_sources (f : list Z → list Z) (w : world) :=
  mkWorld (pool w) (streams w) (dialing w) (handshakes w) (f (sources w)) (next_source w)
          (answers w).
Definition with_answers (f : list (nat * option nat) → list (nat * option nat)) (w : world) :=
  mkWorld (pool w) (streams w) (dialing w) (handshakes w) (sources w) (next_source w)
          (f (answers w)).

Definition set_group (g : bool) (s : EvdConnection) :=
  mkConnection g (tls_active s) (closed s) (close_handlers s).
Definition set_tls_active (b : bool) (s : EvdConnection) :=
  mkConnection (group s) b (closed s) (close_handlers s).
Definition set_closed (s : EvdConnection) :=
  mkConnection (group s) (tls_active s) true (close_handlers s).
Definition set_handlers (n : nat) (s : EvdConnection) :=
  mkConnection (group s) (tls_active s) (closed s) n.

(** ** The pool *)

Definition evd_connection_pool_init : EvdConnectionPoolPrivate :=
  mkPool DEFAULT_MIN_CONNS DEFAULT_MAX_CONNS [] [] 0 false 0 false.

Definition TOTAL_SOCKETS (p : EvdConnectionPoolPrivate) : Z :=
  connecting_sockets p + Z.of_nat (length (conns p)).
Definition HAS_REQUESTS (p : EvdConnectionPoolPrivate) : bool :=
  0 <? Z.of_nat (length (requests p)).

Definition evd_connection_pool_create_new_socket (w : world) : world :=
  with_dialing S (with_pool (λ p, set_connecting (connecting_sockets p + 1) p) w).

Fixpoint create_loop (fuel : nat) (w : world) : option world :=
  if TOTAL_SOCKETS (pool w) <? min_conns (pool w) then
    match fuel with
    | O => None
    | S fuel => create_loop fuel (evd_connection_pool_create_new_socket w)
    end
  else Some w.

Definition evd_connection_pool_create_min_conns (w : world) : option world :=
  let w := with_pool (set_retry 0) w in
  create_loop (Z.to_nat (min_conns (pool w) - TOTAL_SOCKETS (pool w))) w.

(** [evd_connection_starttls]: a connection that is closed, or has its TLS active already, gets an
    error in idle; the other ones start a handshake. *)
Definition evd_connection_starttls (w : world) (conn : nat) : option world :=
  s ← streams w !! conn;
  if closed s || tls_active s then Some (with_handshakes (λ l, l ++ [(conn, false)]) w)
  else Some (with_handshakes (λ l, l ++ [(conn, true)])
              (with_streams <[conn := set_tls_active true s]> w)).

Definition connection_starttls (w : world) (conn : nat) : option world :=
  evd_connection_starttls w conn.

(** [g_queue_remove] takes out the first element with that datum. *)
Fixpoint g_queue_remove (conn : nat) (q : list nat) : list nat :=
  match q with
  | [] => []
  | c :: q => if decide (c = conn) then q else c :: g_queue_remove conn q
  end.

(** Streams and groups call each other. *)
Fixpoint evd_io_stream_set_group (fuel : nat) (w : world) (conn : nat) (g : bool)
  : option (world * bool) :=
  match fuel with
  | O => None
  | S fuel =>
      s ← streams w !! conn;
      if Bool.eqb g (group s) then Some (w, false)
      else
        w ← (if group s then
               let w := with_streams <[conn := set_group false s]> w in
               '(w, _) ← evd_io_stream_group_remove fuel w conn; Some w
             else Some w);
        s ← streams w !! conn;
        let w := with_streams <[conn := set_group g s]> w in
        w ← (if g then '(w, _) ← evd_io_stream_group_add fuel w conn; Some w else Some w);
        Some (w, true)
  end
with evd_io_stream_group_add (fuel : nat) (w : world) (conn : nat) : option (world * bool) :=
  match fuel with
  | O => None
  | S fuel =>
      if recursed (pool w) then Some (w, true)
      else
        '(w, result) ← group_add_stream fuel (with_pool (set_recursed true) w) conn;
        Some (with_pool (set_recursed false) w, result)
  end
with evd_io_stream_group_remove (fuel : nat) (w : world) (conn : nat) : option (world * bool) :=
  match fuel with
  | O => None
  | S fuel =>
      if recursed (pool w) then Some (w, true)
      else
        '(w, result) ← group_remove_stream fuel (with_pool (set_recursed true) w) conn;
        Some (with_pool (set_recursed false) w, result)
  end
with group_add_stream (fuel : nat) (w : world) (conn : nat) : option (world * bool) :=
  match fuel with
  | O => None
  | S fuel =>
      '(w, added) ← evd_io_stream_set_group fuel w conn true;
      if negb added then Some (w, false)
      else
        s ← streams w !! conn;
        w ← (if tls_autostart (pool w) && negb (tls_active s) then connection_starttls w conn
             else connection_available fuel w conn);
        Some (w, true)
  end
with group_remove_stream (fuel : nat) (w : world) (conn : nat) : option (world * bool) :=
  match fuel with
  | O => None
  | S fuel =>
      '(w, removed) ← evd_io_stream_set_group fuel w conn false;
      if negb removed then Some (w, false)
      else
        s ← streams w !! conn;
        let w := with_streams <[conn := set_handlers 0 s]> w in
        Some (with_pool (λ p, set_conns (g_queue_remove conn (conns p)) p) w, true)
  end
with connection_available (fuel : nat) (w : world) (conn : nat) : option world :=
  match fuel with
  | O => None
  | S fuel =>
      match requests (pool w) with
      | res :: rest =>
          let w := with_pool (set_requests rest) w in
          w ← evd_connection_pool_finish_request fuel w conn res;
          evd_connection_pool_create_min_conns w
      | [] =>
          s ← streams w !! conn;
          let w := with_streams <[conn := set_handlers (S (close_handlers s)) s]> w in
          Some (with_pool (λ p, set_conns (conns p ++ [conn]) p) w)
      end
  end
with evd_connection_pool_finish_request (fuel : nat) (w : world) (conn res : nat) : option world :=
  match fuel with
  | O => None
  | S fuel =>
      let w := with_answers (λ l, l ++ [(res, Some conn)]) w in
      '(w, _) ← evd_io_stream_group_remove fuel w conn; Some w
  end.

Definition CALL_DEPTH : nat := 6.

(** [connection_on_close]. *)
Definition connection_on_close (w : world) (conn : nat) : option world :=
  '(w, _) ← evd_io_stream_group_remove CALL_DEPTH w conn;
  evd_connection_pool_create_min_conns w.

(** The part of [evd_connection_close_internal] on the TLS state: a handshake under way is answered
    with an error, whose handler finds the stream closing. *)
Definition drop_tls (w : world) (conn : nat) : option world :=
  s ← streams w !! conn;
  Some (with_handshakes (filter (.≠ (conn, true)))
         (with_streams <[conn := set_tls_active false s]> w)).

Definition io_stream_on_close (w : world) (conn : nat) : option world :=
  s ← streams w !! conn;
  w ← (if (0 <? close_handlers s)%nat then connection_on_close w conn else Some w);
  '(w, _) ← evd_io_stream_set_group CALL_DEPTH w conn false; Some w.

(** [g_io_stream_close] runs the class's [close_fn] once and marks the stream closed. *)
Definition g_io_stream_close (w : world) (conn : nat) : option world :=
  s ← streams w !! conn;
  if closed s then Some w
  else
    w ← drop_tls w conn;
    w ← io_stream_on_close w conn;
    s ← streams w !! conn;
    Some (with_streams <[conn := set_closed s]> w).

(** [ok] is what [evd_connection_starttls_finish] answers. *)
Definition connection_on_tls_started (w : world) (conn : nat) (ok : bool) : option world :=
  if ok then connection_available CALL_DEPTH w conn else g_io_stream_close w conn.

(** [io_stream] is the new stream, or [None] for an error. *)
Definition evd_connection_pool_socket_on_connect (w : world) (io_stream : option nat)
  : option world :=
  let w := with_pool (λ p, set_connecting (connecting_sockets p - 1) p) w in
  match io_stream with
  | Some conn =>
      let w := if negb (retry_src_id (pool w) =? 0) then
                 with_pool (set_retry 0)
                   (with_sources (filter (.≠ retry_src_id (pool w))) w)
               else w in
      '(w, _) ← evd_io_stream_group_add CALL_DEPTH w conn; Some w
  | None =>
      let id := next_source w in
      let w := mkWorld (pool w) (streams w) (dialing w) (handshakes w) (sources w ++ [id]) (id + 1)
                 (answers w) in
      Some (with_pool (set_retry id) w)
  end.

Definition evd_connection_pool_constructed (w : world) : option world :=
  evd_connection_pool_create_min_conns w.

Definition evd_connection_pool_has_free_connections (w : world) : bool :=
  0 <? Z.of_nat (length (conns (pool w))).

Definition evd_connection_pool_get_connection (w : world) (res : nat) : option world :=
  match conns (pool w) with
  | conn :: rest =>
      let w := with_pool (set_conns rest) w in
      w ← evd_connection_pool_finish_request CALL_DEPTH w conn res;
      evd_connection_pool_create_min_conns w
  | [] =>
      let w := with_pool (λ p, set_requests (requests p ++ [res]) p) w in
      evd_connection_pool_create_min_conns w
  end.

Definition evd_connection_pool_recycle (w : world) (conn : nat) : option (world * bool) :=
  s ← streams w !! conn;
  if closed s then Some (w, false)
  else if TOTAL_SOCKETS (pool w) >=? max_conns (pool w) then Some (w, false)
  else evd_io_stream_group_add CALL_DEPTH w conn.

Fixpoint starttls_all (w : world) (l : list nat) : option world :=
  match l with
  | [] => Some w
  | conn :: l =>
      w ← connection_starttls (with_pool (set_conns l) w) conn;
      starttls_all w l
  end.

Definition evd_connection_pool_set_tls_autostart (w : world) (autostart : bool) : option world :=
  let w := with_pool (set_autostart autostart) w in
  if autostart then starttls_all w (conns (pool w)) else Some w.

(** [evd_connection_pool_unref_request]: a request left in the queue gets an error. *)
Definition evd_connection_pool_unref_request (w : world) (res : nat) : world :=
  with_answers (λ l, l ++ [(res, None)]) w.

Definition free_connection_in_queue (w : world) (conn : nat) : world :=
  with_streams (alter (set_handlers 0) conn) w.

Definition evd_connection_pool_dispose (w : world) : world :=
  let w := with_pool (set_conns []) (fold_left free_connection_in_queue (conns (pool w)) w) in
  with_pool (set_requests [])
    (fold_left evd_connection_pool_unref_request (requests (pool w)) w).

Definition evd_connection_pool_finalize (w : world) : world :=
  if negb (retry_src_id (pool w) =? 0) then
    with_pool (set_retry 0) (with_sources (filter (.≠ retry_src_id (pool w))) w)
  else w.

(** ** Executions

    What the main loop and the clients do. A socket that connects makes a new stream; an event
    that cannot happen leaves the world as it is. *)
Inductive event :=
| GetConnection (res : nat)
| Recycle (conn : nat)
| Connected
| ConnectFailed
| RetryTimeout (id : Z)
| TlsStarted (conn : nat) (ok : bool)
| Close (conn : nat)
| SetTlsAutostart (b : bool).

Definition new_stream (w : world) : nat := fresh (dom (streams w)).

Definition step (w : world) (e : event) : option world :=
  match e with
  | GetConnection res => evd_connection_pool_get_connection w res
  | Recycle conn =>
      if decide (conn ∈ dom (streams w)) then fst <$> evd_connection_pool_recycle w conn
      else Some w
  | Connected =>
      match dialing w with
      | O => Some w
      | S n =>
          let conn := new_stream w in
          evd_connection_pool_socket_on_connect
            (with_streams <[conn := mkConnection false false false 0]> (with_dialing (λ _, n) w))
            (Some conn)
      end
  | ConnectFailed =>
      match dialing w with
      | O => Some w
      | S n => evd_connection_pool_socket_on_connect (with_dialing (λ _, n) w) None
      end
  | RetryTimeout id =>
      if decide (id ∈ sources w) then
        evd_connection_pool_create_min_conns (with_sources (filter (.≠ id)) w)
      else Some w
  | TlsStarted conn ok =>
      if decide ((conn, true) ∈ handshakes w) then
        connection_on_tls_started (with_handshakes (filter (.≠ (conn, true))) w) conn ok
      else if decide ((conn, false) ∈ handshakes w) then
        connection_on_tls_started (with_handshakes (filter (.≠ (conn, false))) w) conn false
      else Some w
  | Close conn => if decide (conn ∈ dom (streams w)) then g_io_stream_close w conn else Some w
  | SetTlsAutostart b => evd_connection_pool_set_tls_autostart w b
  end.

Fixpoint run (w : world) (evs : list event) : option world :=
  match evs with
  | [] => Some w
  | e :: evs => w ← step w e; run w evs
  end.

(** A pool just constructed. *)
Definition start (p : EvdConnectionPoolPrivate) : option world :=
  evd_connection_pool_constructed (mkWorld p ∅ 0 [] [] 1 []).

End ConnectionPool.
