(* ===== verification/ConnectionPoolSpec.v ===== *)
(** * The connection pool: properties

    Each call of the pool from a client or from the main loop is first given in closed form (the
    calls between streams and groups unfolded once and for all); the invariant of the pool is then
    proved on these forms, for every execution. *)
From S2P Require Import Prelude ConnectionPool.

Module ConnectionPoolSpec.
Import ConnectionPool.

(** ** Closed forms *)

(** Opens the records of a world and of its pool. *)
Ltac open_updates :=
  unfold with_dialing, with_pool, with_streams, with_handshakes, with_sources, with_answers,
    set_connecting, set_retry, set_conns, set_requests, set_recursed, set_autostart, set_group,
    set_handlers, set_closed, set_tls_active, TOTAL_SOCKETS,
    evd_connection_pool_create_new_socket in *; cbn -[Z.of_nat] in *.
Ltac open_world w := destruct w as [[] ????]; open_updates.

(** The pool with the sockets [create_min_conns] adds. *)
Definition topped_up (w : world) : world :=
  let k := Z.to_nat (min_conns (pool w) - TOTAL_SOCKETS (pool w)) in
  with_dialing (Nat.add k)
    (with_pool (λ p, set_connecting (connecting_sockets p + Z.of_nat k) (set_retry 0 p)) w).

Lemma create_loop_eq n w :
  Z.to_nat (min_conns (pool w) - TOTAL_SOCKETS (pool w)) = n →
  create_loop n w =
  Some (with_dialing (Nat.add n)
          (with_pool (λ p, set_connecting (connecting_sockets p + Z.of_nat n) p) w)).
Proof.
  revert w; induction n as [|n IH]; intros w Hn; simpl.
  - destruct (Z.ltb_spec (TOTAL_SOCKETS (pool w)) (min_conns (pool w))); [lia|].
    open_world w. by rewrite Z.add_0_r.
  - destruct (Z.ltb_spec (TOTAL_SOCKETS (pool w)) (min_conns (pool w))); [|lia].
    rewrite IH.
    + open_world w. do 2 f_equal; [f_equal|]; lia.
    + open_world w. lia.
Qed.

Lemma create_min_eq w : evd_connection_pool_create_min_conns w = Some (topped_up w).
Proof. apply create_loop_eq. by destruct w as [[] ????]. Qed.

(** A stream leaves the group: out of the queue, its close handlers disconnected. *)
Definition left_group (w : world) (conn : nat) (s : EvdConnection) : world :=
  with_pool (λ p, set_conns (g_queue_remove conn (conns p)) p)
    (with_streams <[conn := mkConnection false (tls_active s) (closed s) 0]> w).

(** A stream has come into the group and is ready for use. *)
Definition offered (w : world) (conn : nat) (s : EvdConnection) : world :=
  match requests (pool w) with
  | res :: rest =>
      topped_up (with_answers (λ l, l ++ [(res, Some conn)]) (with_pool (set_requests rest) w))
  | [] =>
      with_pool (λ p, set_conns (conns p ++ [conn]) p)
        (with_streams <[conn := set_handlers (S (close_handlers s)) s]> w)
  end.

(** A stream whose TLS is to be started. *)
Definition negotiating (w : world) (conn : nat) (s : EvdConnection) : world :=
  if closed s || tls_active s then with_handshakes (λ l, l ++ [(conn, false)]) w
  else with_handshakes (λ l, l ++ [(conn, true)])
         (with_streams <[conn := set_tls_active true s]> w).

(** A stream added to the group from outside. *)
Definition joined (w : world) (conn : nat) (s : EvdConnection) : world :=
  let w1 := with_streams <[conn := set_group true s]> w in
  if tls_autostart (pool w) && negb (tls_active s) then negotiating w1 conn (set_group true s)
  else offered w1 conn (set_group true s).

(** One call of each function. *)
Lemma group_add_S f w c :
  evd_io_stream_group_add (S f) w c =
  if recursed (pool w) then Some (w, true)
  else '(w, result) ← group_add_stream f (with_pool (set_recursed true) w) c;
       Some (with_pool (set_recursed false) w, result).
Proof. done. Qed.

Lemma group_remove_S f w c :
  evd_io_stream_group_remove (S f) w c =
  if recursed (pool w) then Some (w, true)
  else '(w, result) ← group_remove_stream f (with_pool (set_recursed true) w) c;
       Some (with_pool (set_recursed false) w, result).
Proof. done. Qed.

Lemma set_group_same f w c s :
  streams w !! c = Some s → evd_io_stream_set_group (S f) w c (group s) = Some (w, false).
Proof.
  intros Hs. cbn [evd_io_stream_set_group]. rewrite Hs. run_bind.
  by rewrite Bool.eqb_reflx.
Qed.

Lemma set_group_in f w c s :
  streams w !! c = Some s → group s = false → recursed (pool w) = true →
  evd_io_stream_set_group (S (S f)) w c true =
  Some (with_streams <[c := set_group true s]> w, true).
Proof.
  intros Hs Hg Hr. cbn [evd_io_stream_set_group]. rewrite Hs. run_bind.
  rewrite Hg. cbn [Bool.eqb mbind option_bind]. rewrite Hs. run_bind.
  rewrite group_add_S. cbn [pool with_streams]. by rewrite Hr.
Qed.

Lemma with_streams_twice w c s1 s2 :
  with_streams <[c := s2]> (with_streams <[c := s1]> w) = with_streams <[c := s2]> w.
Proof. unfold with_streams; simpl. by rewrite insert_insert_eq. Qed.

Lemma lookup_with_streams w c s : streams (with_streams <[c := s]> w) !! c = Some s.
Proof. apply lookup_insert_eq. Qed.

Lemma set_group_out f w c s :
  streams w !! c = Some s → group s = true → recursed (pool w) = true →
  evd_io_stream_set_group (S (S f)) w c false =
  Some (with_streams <[c := set_group false s]> w, true).
Proof.
  intros Hs Hg Hr. cbn [evd_io_stream_set_group]. rewrite Hs. run_bind.
  rewrite Hg. cbn [Bool.eqb]. rewrite group_remove_S. cbn [pool with_streams]. rewrite Hr.
  run_bind. rewrite lookup_with_streams. run_bind.
  by rewrite with_streams_twice.
Qed.

Lemma remove_stream_eq f w c s :
  streams w !! c = Some s → recursed (pool w) = true →
  group_remove_stream (S (S (S f))) w c =
  Some (if group s then (left_group w c s, true) else (w, false)).
Proof.
  intros Hs Hr. cbn [group_remove_stream]. destruct (group s) eqn:Hg.
  - rewrite (set_group_out _ _ _ _ Hs Hg Hr). cbn [mbind option_bind negb].
    rewrite lookup_with_streams. run_bind. rewrite with_streams_twice. done.
  - rewrite <-Hg, (set_group_same _ _ _ _ Hs). done.
Qed.

Lemma recursed_off w : recursed (pool w) = false → with_pool (set_recursed false) w = w.
Proof. destruct w as [[] ????]; simpl. by intros ->. Qed.

Section Calls.
Context (w : world) (conn : nat) (s : EvdConnection).
Context (Hconn : streams w !! conn = Some s) (Hrec : recursed (pool w) = false).

Lemma group_remove_eq f :
  evd_io_stream_group_remove (S (S (S (S f)))) w conn =
  Some (if group s then (left_group w conn s, true) else (w, false)).
Proof using Hconn Hrec.
  rewrite group_remove_S, Hrec, (remove_stream_eq _ _ _ s) by done.
  destruct (group s); run_bind; do 2 f_equal.
  - by rewrite <-(recursed_off w Hrec) at 2.
  - by rewrite <-(recursed_off w Hrec) at 2.
Qed.

Lemma starttls_eq : connection_starttls w conn = Some (negotiating w conn s).
Proof using Hconn.
  unfold connection_starttls, evd_connection_starttls, negotiating. rewrite Hconn; cbn.
  by destruct (closed s || tls_active s).
Qed.

(** While the group is being called, a stream that is ready is handed out without leaving it. *)
Lemma available_recursed f :
  connection_available (S (S (S f))) (with_pool (set_recursed true) w) conn =
  Some (with_pool (set_recursed true) (offered w conn s)).
Proof using Hconn.
  cbn [connection_available]. unfold offered. cbn [pool with_pool requests set_recursed].
  destruct (requests (pool w)) as [|res rest].
  - cbn [streams with_pool]. by rewrite Hconn.
  - cbn [evd_connection_pool_finish_request]. rewrite group_remove_S.
    cbn [pool with_pool with_answers set_requests set_recursed recursed mbind option_bind].
    rewrite create_min_eq. clear. by destruct w as [[] ????].
Qed.
End Calls.

Lemma group_add_eq w conn s :
  streams w !! conn = Some s → recursed (pool w) = false →
  evd_io_stream_group_add CALL_DEPTH w conn =
  Some (if group s then (w, false) else (joined w conn s, true)).
Proof.
  intros Hconn Hrec. unfold CALL_DEPTH. rewrite group_add_S, Hrec.
  cbn [group_add_stream]. destruct (group s) eqn:Hg.
  - rewrite <-Hg, (set_group_same _ _ _ s) by done. cbn [mbind option_bind negb].
    do 2 f_equal. by rewrite <-(recursed_off w Hrec) at 2.
  - rewrite (set_group_in _ _ _ s) by done. cbn [mbind option_bind negb].
    unfold joined. set (w1 := with_streams <[conn := set_group true s]> w).
    change (with_streams _ (with_pool _ w)) with (with_pool (set_recursed true) w1).
    assert (streams w1 !! conn = Some (set_group true s)) as Hw1 by apply lookup_insert_eq.
    cbn [streams with_pool]. rewrite Hw1. run_bind.
    cbn [pool with_pool set_recursed tls_autostart set_group tls_active].
    change (tls_autostart (pool w1)) with (tls_autostart (pool w)).
    destruct (tls_autostart (pool w) && negb (tls_active s)).
    + rewrite (starttls_eq _ _ (set_group true s)) by done. run_bind.
      do 2 f_equal. unfold negotiating. simpl. subst w1.
      destruct w as [[] ????]; simpl in *; subst. by destruct (closed s || tls_active s).
    + rewrite (available_recursed _ _ (set_group true s)) by done. run_bind.
      do 2 f_equal. unfold offered. simpl. subst w1.
      destruct w as [[] ????]; simpl in *; subst. by destruct requests0.
Qed.

(** From the main loop, a stream that is ready leaves the group when it is handed out. *)
Lemma finish_request_eq f w conn res s :
  streams w !! conn = Some s → recursed (pool w) = false →
  evd_connection_pool_finish_request (S (S (S (S (S f))))) w conn res =
  let w1 := with_answers (λ l, l ++ [(res, Some conn)]) w in
  Some (if group s then left_group w1 conn s else w1).
Proof.
  intros Hconn Hrec. cbn [evd_connection_pool_finish_request].
  rewrite (group_remove_eq _ _ s) by done. by destruct (group s).
Qed.

Lemma connection_available_eq w conn s :
  streams w !! conn = Some s → recursed (pool w) = false →
  connection_available CALL_DEPTH w conn =
  Some (match requests (pool w) with
        | res :: rest =>
            let w1 := with_answers (λ l, l ++ [(res, Some conn)])
                        (with_pool (set_requests rest) w) in
            topped_up (if group s then left_group w1 conn s else w1)
        | [] => offered w conn s
        end).
Proof.
  intros Hconn Hrec. unfold CALL_DEPTH, offered. cbn [connection_available].
  destruct (requests (pool w)) as [|res rest].
  - by rewrite Hconn.
  - rewrite (finish_request_eq _ _ _ _ s) by done. run_bind. apply create_min_eq.
Qed.

(** ** The invariant *)

(** The connections the pool holds for itself: the idle ones and those negotiating. *)
Definition tracked (w : world) : list nat := conns (pool w) ++ (handshakes w).*1.

Record pool_inv (issued : list nat) (w : world) : Prop := mkInv {
  inv_fifo : (answers w).*1 ++ requests (pool w) = issued;
  inv_served : Forall (λ a, is_Some a.2) (answers w);
  inv_excl : conns (pool w) = [] ∨ requests (pool w) = [];
  inv_nodup : NoDup (tracked w);
  inv_idle : ∀ c, c ∈ conns (pool w) → ∃ s, streams w !! c = Some s ∧
               group s = true ∧ closed s = false ∧ (0 < close_handlers s)%nat;
  inv_hs : ∀ c b, (c, b) ∈ handshakes w → ∃ s, streams w !! c = Some s ∧
             (group s = true ∧ closed s = false ∨ b = false ∧ closed s = true);
  inv_count : connecting_sockets (pool w) = Z.of_nat (dialing w);
  inv_rec : recursed (pool w) = false
}.

Lemma topped_up_inv issued w : pool_inv issued w → pool_inv issued (topped_up w).
Proof. intros []; split; try done. simpl. lia. Qed.

Lemma topped_up_total w : min_conns (pool w) <= TOTAL_SOCKETS (pool (topped_up w)).
Proof. unfold topped_up, TOTAL_SOCKETS; simpl. lia. Qed.

(** An open stream outside the group is not tracked. *)
Lemma outside_untracked issued w c s :
  pool_inv issued w → streams w !! c = Some s → group s = false → closed s = false →
  c ∉ tracked w.
Proof.
  intros [] Hs Hg Hc. unfold tracked. rewrite elem_of_app. intros [Hin|Hin].
  - destruct (inv_idle0 c Hin) as (s' & ? & ? & ?). congruence.
  - apply list_elem_of_fmap in Hin as ([c' b] & -> & Hin). simpl in *.
    destruct (inv_hs0 c' b Hin) as (s' & ? & [[]|[]]); congruence.
Qed.

(** A stream that is not tracked may change freely. *)
Lemma stream_update_inv issued w c s :
  c ∉ tracked w → pool_inv issued w → pool_inv issued (with_streams <[c := s]> w).
Proof.
  unfold tracked. rewrite elem_of_app. intros Hc []. split; try done; simpl.
  - intros c' Hc'. rewrite lookup_insert_ne; [by apply inv_idle0|]. intros ->. tauto.
  - intros c' b Hc'. rewrite lookup_insert_ne; [by eapply inv_hs0|]. intros ->. apply Hc. right.
    apply list_elem_of_fmap. by exists (c', b).
Qed.

Lemma g_queue_remove_notin c l : c ∉ l → g_queue_remove c l = l.
Proof.
  induction l as [|x l IH]; simpl; [done|]. rewrite not_elem_of_cons. intros [Hx Hl].
  rewrite decide_False by congruence. by rewrite IH.
Qed.

Lemma queue_remove_idle w c :
  c ∉ conns (pool w) → with_pool (λ p, set_conns (g_queue_remove c (conns p)) p) w = w.
Proof. destruct w as [[] ????]; simpl. intros. open_updates. by rewrite g_queue_remove_notin. Qed.

Lemma untracked_idle w c : c ∉ tracked w → c ∉ conns (pool w).
Proof. unfold tracked. rewrite elem_of_app. tauto. Qed.

Lemma left_group_inv issued w c s :
  c ∉ tracked w → pool_inv issued w → pool_inv issued (left_group w c s).
Proof.
  intros Hc Hw. unfold left_group. rewrite queue_remove_idle; [by apply stream_update_inv|].
  simpl. by apply untracked_idle.
Qed.

(** The request at the head of the queue is answered with a stream. *)
Lemma answer_head_inv issued w res rest c :
  requests (pool w) = res :: rest → pool_inv issued w →
  pool_inv issued (with_answers (λ l, l ++ [(res, Some c)]) (with_pool (set_requests rest) w)).
Proof.
  intros Hr []. split; try done; simpl.
  - rewrite fmap_app, <-app_assoc; simpl. by rewrite <-Hr.
  - apply Forall_app; split; [done|]. apply Forall_singleton. by eexists.
  - rewrite Hr in inv_excl0. left. by destruct inv_excl0.
Qed.

Lemma offered_inv issued w c s :
  streams w !! c = Some s → group s = true → closed s = false → c ∉ tracked w →
  pool_inv issued w → pool_inv issued (offered w c s).
Proof.
  intros Hs Hg Hc Ht Hw. unfold offered. destruct (requests (pool w)) as [|res rest] eqn:Hr.
  - apply (stream_update_inv _ _ c (set_handlers (S (close_handlers s)) s)) in Hw; [|done].
    destruct Hw; split; try done; simpl in *; [by right| |].
    + unfold tracked in *; simpl. rewrite <-app_assoc. simpl.
      rewrite <-Permutation_middle. by apply NoDup_cons.
    + intros c' [Hc'| ->%list_elem_of_singleton]%elem_of_app; [by apply inv_idle0|].
      rewrite lookup_insert_eq. eexists; split; [done|]. simpl. repeat split; try done. lia.
  - by apply topped_up_inv, answer_head_inv.
Qed.

Lemma handshake_inv issued w c b s :
  streams w !! c = Some s → group s = true → closed s = false → c ∉ tracked w →
  pool_inv issued w → pool_inv issued (with_handshakes (λ l, l ++ [(c, b)]) w).
Proof.
  intros Hs Hg Hc Ht []. split; try done; simpl.
  - unfold tracked in *; simpl. rewrite fmap_app, app_assoc. simpl.
    rewrite <-Permutation_cons_append. by apply NoDup_cons.
  - intros c' b' [?|Heq%list_elem_of_singleton]%elem_of_app; [by eapply inv_hs0|].
    injection Heq as -> ->. eexists; split; [done|]. by left.
Qed.

Lemma negotiating_inv issued w c s :
  streams w !! c = Some s → group s = true → closed s = false → c ∉ tracked w →
  pool_inv issued w → pool_inv issued (negotiating w c s).
Proof.
  intros Hs Hg Hc Ht Hw. unfold negotiating. rewrite Hc. simpl.
  destruct (tls_active s); [by eapply handshake_inv|].
  apply (handshake_inv _ _ _ _ (set_tls_active true s)); try done.
  - apply lookup_with_streams.
  - by apply stream_update_inv.
Qed.

Lemma joined_inv issued w c s :
  streams w !! c = Some s → group s = false → closed s = false →
  pool_inv issued w → pool_inv issued (joined w c s).
Proof.
  intros Hs Hg Hc Hw. unfold joined.
  pose proof (outside_untracked _ _ _ _ Hw Hs Hg Hc) as Ht.
  pose proof (stream_update_inv _ _ c (set_group true s) Ht Hw) as Hw1.
  destruct (_ && _); [apply negotiating_inv|apply offered_inv]; try done; apply lookup_with_streams.
Qed.

(** The pool loses track of a stream. *)
Lemma forget_inv issued w q h :
  q `sublist_of` conns (pool w) → h `sublist_of` handshakes w →
  pool_inv issued w → pool_inv issued (with_handshakes (λ _, h) (with_pool (set_conns q) w)).
Proof.
  intros Hq Hh []. split; try done; simpl.
  - destruct inv_excl0 as [Hc|]; [left|by right]. rewrite Hc in Hq. by apply sublist_nil_r in Hq.
  - eapply sublist_NoDup; [exact inv_nodup0|]. unfold tracked; simpl.
    apply sublist_app; [done|]. by f_equiv.
  - intros c Hc. apply inv_idle0. by eapply elem_of_sublist.
  - intros c b Hc. eapply inv_hs0. by eapply elem_of_sublist.
Qed.

Lemma g_queue_remove_sublist c l : g_queue_remove c l `sublist_of` l.
Proof.
  induction l as [|x l IH]; simpl; [done|].
  destruct (decide (x = c)); [by apply sublist_cons|by apply sublist_skip].
Qed.

Lemma g_queue_remove_elem c l : NoDup l → c ∉ g_queue_remove c l.
Proof.
  induction 1 as [|x l Hx Hl IH]; simpl; [apply not_elem_of_nil|].
  destruct (decide (x = c)) as [->|]; [done|]. apply not_elem_of_cons. by split.
Qed.

(** ** Closing a stream *)

(** From outside, leaving the group does not take the stream out of the queue: the group finds it
    gone already. *)
Lemma set_group_null w c s :
  streams w !! c = Some s → recursed (pool w) = false →
  evd_io_stream_set_group CALL_DEPTH w c false =
  Some (if group s then (with_streams <[c := set_group false s]> w, true) else (w, false)).
Proof.
  intros Hs Hr. unfold CALL_DEPTH. destruct (group s) eqn:Hg.
  - cbn [evd_io_stream_set_group]. rewrite Hs. run_bind. rewrite Hg. cbn [Bool.eqb].
    rewrite (group_remove_eq _ _ (set_group false s)); [|apply lookup_with_streams|done].
    cbn [group set_group mbind option_bind]. rewrite lookup_with_streams. run_bind.
    by rewrite with_streams_twice.
  - rewrite <-Hg at 1. by rewrite (set_group_same _ _ _ s).
Qed.

Definition closed_stream (h : nat) : EvdConnection := mkConnection false false true h.

(** What closing does: the stream ends up closed and outside the group, its handshake is over; a
    stream with a close handler is taken out of the queue and the pool is topped up. *)
Lemma close_eq w c s :
  streams w !! c = Some s → recursed (pool w) = false → closed s = false →
  g_io_stream_close w c =
  let w1 := with_handshakes (filter (.≠ (c, true))) w in
  Some (if (0 <? close_handlers s)%nat then
          if group s then
            with_streams <[c := closed_stream 0]>
              (topped_up (with_pool (λ p, set_conns (g_queue_remove c (conns p)) p) w1))
          else with_streams <[c := closed_stream (close_handlers s)]> (topped_up w1)
        else with_streams <[c := closed_stream (close_handlers s)]> w1).
Proof.
  intros Hs Hr Hc. unfold g_io_stream_close, drop_tls, io_stream_on_close, connection_on_close.
  rewrite Hs. run_bind. rewrite Hc. run_bind.
  set (s1 := set_tls_active false s).
  set (w1 := with_handshakes _ (with_streams _ w)).
  assert (streams w1 !! c = Some s1) as Hs1 by apply lookup_insert_eq.
  rewrite Hs1. run_bind. change (close_handlers s1) with (close_handlers s).
  destruct (0 <? close_handlers s)%nat.
  - rewrite (group_remove_eq _ _ s1 Hs1 Hr 2 : evd_io_stream_group_remove CALL_DEPTH w1 c = _).
    change (group s1) with (group s). destruct (group s) eqn:Hg; run_bind.
    + rewrite create_min_eq. run_bind.
      rewrite (set_group_null _ _ (mkConnection false false (closed s1) 0));
        [|apply lookup_insert_eq|done].
      cbn [group mbind option_bind].
      change (streams (topped_up (left_group w1 c s1)))
        with (<[c := mkConnection false false (closed s1) 0]> (streams w1)).
      rewrite lookup_insert_eq. run_bind.
      f_equal. destruct w as [[] ????]. open_updates. by rewrite !insert_insert_eq.
    + rewrite create_min_eq. run_bind.
      rewrite (set_group_null _ _ s1) by done.
      change (group s1) with (group s). rewrite Hg; run_bind.
      change (streams (topped_up w1)) with (streams w1). rewrite Hs1. run_bind.
      f_equal. destruct w as [[] ????], s; simpl in *; subst. open_updates.
      by rewrite !insert_insert_eq.
  - run_bind. rewrite (set_group_null _ _ s1) by done.
    change (group s1) with (group s). destruct (group s) eqn:Hg; run_bind.
    + rewrite lookup_with_streams. run_bind. f_equal.
      destruct w as [[] ????], s; simpl in *; subst. open_updates. by rewrite !insert_insert_eq.
    + rewrite Hs1. run_bind. f_equal.
      destruct w as [[] ????], s; simpl in *; subst. open_updates. by rewrite !insert_insert_eq.
Qed.

(** A stream that left the queue can be closed. *)
Lemma closing_inv issued w c h :
  c ∉ conns (pool w) → (c, true) ∉ handshakes w →
  pool_inv issued w → pool_inv issued (with_streams <[c := closed_stream h]> w).
Proof.
  intros Hc Hh []. split; try done; simpl.
  - intros c' Hc'. rewrite lookup_insert_ne by (by intros ->). by apply inv_idle0.
  - intros c' b Hb. destruct (decide (c = c')) as [->|Hne].
    + rewrite lookup_insert_eq. eexists; split; [done|]. right. destruct b; naive_solver.
    + rewrite lookup_insert_ne by done. by eapply inv_hs0.
Qed.

(** The steps that lead to closing: out of the queue, out of the handshakes. *)
Lemma uninvolved_inv issued w c :
  pool_inv issued w →
  pool_inv issued (with_pool (λ p, set_conns (g_queue_remove c (conns p)) p)
                     (with_handshakes (filter (.≠ (c, true))) w)).
Proof.
  intros Hw. apply (forget_inv _ _ (g_queue_remove c (conns (pool w)))
                               (filter (.≠ (c, true)) (handshakes w))) in Hw; [done| |].
  - apply g_queue_remove_sublist.
  - auto with evd.
Qed.

Lemma close_inv issued w c s :
  pool_inv issued w → streams w !! c = Some s →
  ∃ w', g_io_stream_close w c = Some w' ∧ pool_inv issued w'.
Proof.
  intros Hw Hs. destruct (closed s) eqn:Hc.
  { exists w. unfold g_io_stream_close. rewrite Hs. run_bind. by rewrite Hc. }
  eexists; split; [apply (close_eq _ _ s); [done|apply Hw|done]|].
  pose proof (uninvolved_inv _ _ c Hw) as Hu.
  assert ((c, true) ∉ filter (.≠ (c, true)) (handshakes w)) as Hh.
  { rewrite list_elem_of_filter. tauto. }
  assert (c ∉ g_queue_remove c (conns (pool w))) as Hq.
  { apply g_queue_remove_elem. pose proof (inv_nodup _ _ Hw) as Hn. unfold tracked in Hn.
    by apply NoDup_app in Hn as [? _]. }
  destruct (0 <? close_handlers s)%nat eqn:Hhd; [destruct (group s) eqn:Hg|]; cbv zeta.
  1: apply closing_inv; [done|done|by apply topped_up_inv].
  all: assert (c ∉ conns (pool w)) as Hi.
  1,3: intros Hin; destruct (inv_idle _ _ Hw c Hin) as (s' & ? & ? & ? & ?%Nat.ltb_lt); congruence.
  all: rewrite queue_remove_idle in Hu by done.
  - apply closing_inv; [done|done|by apply topped_up_inv].
  - by apply closing_inv.
Qed.

(** ** The other operations *)

Lemma get_connection_inv issued w res :
  pool_inv issued w →
  ∃ w', evd_connection_pool_get_connection w res = Some (topped_up w') ∧
        pool_inv (issued ++ [res]) w' ∧ min_conns (pool w') = min_conns (pool w) ∧
        tls_autostart (pool w') = tls_autostart (pool w) ∧ handshakes w' = handshakes w.
Proof.
  intros Hw. unfold evd_connection_pool_get_connection.
  destruct (conns (pool w)) as [|c rest] eqn:Hq.
  - rewrite create_min_eq. eexists; split; [done|]. split; [|done].
    destruct Hw; split; try done; simpl; [|by left]. by rewrite app_assoc, inv_fifo0.
  - destruct (inv_idle _ _ Hw c) as (s & Hs & Hg & _); [rewrite Hq; by left|].
    unfold CALL_DEPTH. rewrite (finish_request_eq _ _ _ _ s); [|done|apply Hw].
    run_bind. rewrite Hg, create_min_eq. eexists; split; [done|]. split; [|done].
    assert (c ∉ rest ++ (handshakes w).*1) as Hc.
    { pose proof (inv_nodup _ _ Hw) as Hn. unfold tracked in Hn. rewrite Hq in Hn.
      by apply NoDup_cons in Hn as [? _]. }
    apply left_group_inv; [done|].
    assert (requests (pool w) = []) as Hr.
    { destruct (inv_excl _ _ Hw) as [He|]; [congruence|done]. }
    apply (forget_inv _ _ rest (handshakes w)) in Hw; [|rewrite Hq; by apply sublist_cons|done].
    destruct Hw; split; try done; simpl in *.
    + rewrite fmap_app, <-inv_fifo0, Hr, !app_nil_r. done.
    + apply Forall_app; split; [done|]. apply Forall_singleton. by eexists.
Qed.

Lemma starttls_all_inv issued l : ∀ w,
  conns (pool w) = l → pool_inv issued w →
  ∃ w', starttls_all w l = Some w' ∧ pool_inv issued w' ∧ min_conns (pool w') = min_conns (pool w).
Proof.
  induction l as [|c l IH]; intros w Hl Hw; simpl; [by exists w|].
  destruct (inv_idle _ _ Hw c) as (s & Hs & Hg & Hc & _); [rewrite Hl; by left|].
  rewrite (starttls_eq _ _ s) by done. run_bind.
  assert (c ∉ l ++ (handshakes w).*1) as Ht.
  { pose proof (inv_nodup _ _ Hw) as Hn. unfold tracked in Hn. rewrite Hl in Hn.
    by apply NoDup_cons in Hn as [? _]. }
  apply (forget_inv _ _ l (handshakes w)) in Hw; [|rewrite Hl; by apply sublist_cons|done].
  destruct (IH (negotiating (with_pool (set_conns l) w) c s)) as (w' & Hw' & Hi & Hm).
  - unfold negotiating. by destruct (_ || _).
  - by apply negotiating_inv.
  - exists w'. split; [done|]. split; [done|]. rewrite Hm. unfold negotiating.
    by destruct (_ || _).
Qed.

(** The stream of a handshake that is over. *)
Lemma handshake_over_inv issued w c b :
  (c, b) ∈ handshakes w → pool_inv issued w →
  let w1 := with_handshakes (filter (.≠ (c, b))) w in
  pool_inv issued w1 ∧ (c ∉ tracked w1) ∧
  ∃ s, streams w1 !! c = Some s ∧ (b = true → group s = true ∧ closed s = false).
Proof.
  intros Hin Hw. split; [|split].
  - apply (forget_inv _ _ (conns (pool w)) (filter (.≠ (c, b)) (handshakes w))) in Hw;
      [|done|auto with evd]. by destruct w as [[] ????].
  - pose proof (inv_nodup _ _ Hw) as Hn. unfold tracked in *; simpl.
    apply NoDup_app in Hn as (_ & Hd & Hn). apply list_elem_of_split in Hin as (h1 & h2 & Hh).
    rewrite Hh, fmap_app, fmap_cons in Hn, Hd; simpl in Hn, Hd.
    rewrite elem_of_app, list_elem_of_fmap. intros [Hc|([c' b'] & Hc & Hf)].
    + apply (Hd c Hc). apply elem_of_app; right. by left.
    + simpl in Hc; subst c'. apply list_elem_of_filter in Hf as [Hne Hf].
      rewrite Hh in Hf. apply NoDup_app in Hn as (_ & Hd1 & [Hn _]%NoDup_cons).
      apply elem_of_app in Hf as [Hf|[Hf|Hf]%elem_of_cons]; [|naive_solver|].
      * apply (Hd1 c); [|by left]. apply list_elem_of_fmap. by exists (c, b').
      * apply Hn. apply list_elem_of_fmap. by exists (c, b').
  - destruct (inv_hs _ _ Hw c b Hin) as (s & Hs & Hor). exists s. split; [done|].
    intros ->. naive_solver.
Qed.

(** ** Waiting requests

    [tls] says whether TLS has ever been switched on. *)
Definition being_served (w : world) : Prop :=
  requests (pool w) ≠ [] → 0 < connecting_sockets (pool w) ∨ sources w ≠ [].

Definition no_tls (w : world) : Prop := tls_autostart (pool w) = false ∧ handshakes w = [].

Record good (tls : bool) (issued : list nat) (w : world) : Prop := mkGood {
  good_inv : pool_inv issued w;
  good_min : 1 <= min_conns (pool w);
  good_tls : tls = false → no_tls w;
  good_served : tls = false → being_served w
}.

Lemma topped_up_served issued w :
  pool_inv issued w → 1 <= min_conns (pool w) → being_served (topped_up w).
Proof.
  intros Hw Hm Hr. left. pose proof (topped_up_total w) as Ht.
  destruct (inv_excl _ _ Hw) as [Hc|]; [|done]. revert Ht. unfold TOTAL_SOCKETS at 1.
  change (conns (pool (topped_up w))) with (conns (pool w)). rewrite Hc; simpl length. lia.
Qed.

Lemma topped_up_good tls issued w :
  pool_inv issued w → 1 <= min_conns (pool w) → (tls = false → no_tls w) →
  good tls issued (topped_up w).
Proof.
  intros Hw Hm Ht. split; [by apply topped_up_inv|done|done|].
  intros _. by eapply topped_up_served.
Qed.

Lemma offered_good tls issued w c s :
  streams w !! c = Some s → group s = true → closed s = false → c ∉ tracked w →
  pool_inv issued w → 1 <= min_conns (pool w) → (tls = false → no_tls w) →
  good tls issued (offered w c s).
Proof.
  intros Hs Hg Hc Ht Hw Hm Hn. pose proof (offered_inv _ _ _ _ Hs Hg Hc Ht Hw) as Hi.
  revert Hi. unfold offered. destruct (requests (pool w)) as [|r rest] eqn:Hr; intros Hi.
  - split; [done|done|done|]. intros _ Hne. by destruct Hne.
  - apply topped_up_good; [by apply answer_head_inv|done|done].
Qed.

Lemma joined_good tls issued w c s :
  streams w !! c = Some s → group s = false → closed s = false →
  pool_inv issued w → 1 <= min_conns (pool w) → (tls = false → no_tls w) →
  good tls issued (joined w c s).
Proof.
  intros Hs Hg Hc Hw Hm Hn. pose proof (joined_inv _ _ _ _ Hs Hg Hc Hw) as Hi.
  pose proof (outside_untracked _ _ _ _ Hw Hs Hg Hc) as Ht.
  revert Hi. unfold joined. destruct (tls_autostart (pool w) && _) eqn:Ha; intros Hi.
  - apply andb_true_iff in Ha as [Ha _]. assert (tls = false → False) as Hf.
    { intros E. destruct (Hn E). congruence. }
    split; [done| |tauto|tauto]. unfold negotiating. by destruct (_ || _).
  - apply offered_good; try done; [apply lookup_with_streams|by apply stream_update_inv].
Qed.

Lemma recycle_good tls issued w c :
  c ∈ dom (streams w) → good tls issued w →
  ∃ w' b, evd_connection_pool_recycle w c = Some (w', b) ∧ good tls issued w'.
Proof.
  intros [s Hs]%elem_of_dom Hw. unfold evd_connection_pool_recycle. rewrite Hs.
  run_bind. destruct (closed s) eqn:Hc; [by exists w, false|].
  destruct (_ >=? _); [by exists w, false|].
  rewrite (group_add_eq _ _ s) by (done || apply Hw).
  destruct (group s) eqn:Hg; [by exists w, false|].
  eexists _, true; split; [done|]. destruct Hw. by apply joined_good.
Qed.

Lemma close_good tls issued w c :
  c ∈ dom (streams w) → good tls issued w →
  ∃ w', g_io_stream_close w c = Some w' ∧ good tls issued w'.
Proof.
  intros [s Hs]%elem_of_dom Hw. destruct (close_inv _ _ _ _ (good_inv _ _ _ Hw) Hs) as (w' & Hw' & Hi).
  exists w'. split; [done|]. destruct (closed s) eqn:Hc.
  { revert Hw'. unfold g_io_stream_close. rewrite Hs. run_bind. rewrite Hc.
    by intros [= <-]. }
  rewrite (close_eq _ _ s) in Hw' by (done || apply Hw). apply (inj Some) in Hw' as <-.
  destruct Hw as [Hinv Hmin Htls Hsrv].
  split; [done| | |].
  - by destruct (0 <? close_handlers s)%nat, (group s).
  - intros E. destruct (Htls E) as [Ha Hh].
    destruct (0 <? close_handlers s)%nat, (group s); split; try done; simpl; by rewrite Hh.
  - intros E. pose proof (uninvolved_inv _ _ c Hinv) as Hu.
    assert (pool_inv issued (with_handshakes (filter (.≠ (c, true))) w)) as Hv.
    { eapply (forget_inv _ _ (conns (pool w)) (filter (.≠ (c, true)) (handshakes w))) in Hinv;
        [|done|auto with evd]. by destruct w as [[] ????]. }
    destruct (0 <? close_handlers s)%nat, (group s); try by apply Hsrv.
    + by apply (topped_up_served _ _ Hu).
    + by apply (topped_up_served _ _ Hv).
Qed.

Lemma new_stream_fresh w : streams w !! new_stream w = None.
Proof.
  unfold new_stream. apply (not_elem_of_dom (D := gset nat)).
  apply (is_fresh (C := gset nat) (dom (streams w))).
Qed.

Lemma connected_good tls issued w n :
  dialing w = S n → good tls issued w →
  ∃ w', step w Connected = Some w' ∧ good tls issued w'.
Proof.
  intros Hd [Hi Hm Ht Hs]. unfold step. rewrite Hd. unfold evd_connection_pool_socket_on_connect.
  set (c := new_stream w). set (s0 := mkConnection false false false 0).
  set (w1 := if negb _ then _ else _).
  pose proof (new_stream_fresh w : streams w !! c = None) as Hc.
  assert (streams w1 !! c = Some s0) as Hs1.
  { subst w1. destruct (negb _); apply lookup_insert_eq. }
  assert (c ∉ tracked w) as Hu.
  { unfold tracked. rewrite elem_of_app, list_elem_of_fmap. intros [Hin|([c' b] & -> & Hin)].
    - destruct (inv_idle _ _ Hi c Hin) as (s & ? & _). congruence.
    - destruct (inv_hs _ _ Hi c' b Hin) as (s & ? & _). simpl in *. congruence. }
  assert (pool_inv issued w1 ∧ 1 <= min_conns (pool w1) ∧ (tls = false → no_tls w1)) as (Hi1 & Hm1 & Ht1).
  { apply (stream_update_inv _ _ c s0 Hu) in Hi as [].
    subst w1. destruct (negb _); (split; [|done]); split; try done; simpl in *; lia. }
  rewrite (group_add_eq w1 c s0 Hs1 (inv_rec _ _ Hi1)). cbn [group s0 mbind option_bind].
  eexists; split; [done|]. by apply joined_good.
Qed.

Lemma connect_failed_good tls issued w n :
  dialing w = S n → good tls issued w →
  ∃ w', step w ConnectFailed = Some w' ∧ good tls issued w'.
Proof.
  intros Hd [Hi Hm Ht Hs]. unfold step. rewrite Hd. eexists; split; [reflexivity|].
  split; [|done|done|].
  - destruct Hi; split; try done; simpl. lia.
  - intros _ _. right. simpl. by destruct (sources w).
Qed.

Lemma tls_started_good tls issued w c b ok :
  (c, b) ∈ handshakes w → (ok = true → b = true) → good tls issued w →
  ∃ w', connection_on_tls_started (with_handshakes (filter (.≠ (c, b))) w) c ok = Some w' ∧
        good tls issued w'.
Proof.
  intros Hin Hok [Hi Hm Ht Hsv].
  assert (tls = true) as ->.
  { destruct tls; [done|]. destruct (Ht eq_refl) as [_ Hh]. rewrite Hh in Hin.
    by apply not_elem_of_nil in Hin. }
  destruct (handshake_over_inv _ _ _ _ Hin Hi) as (Hi1 & Hu & s & Hs & Hb).
  set (w1 := with_handshakes (filter (.≠ (c, b))) w) in *.
  assert (good true issued w1) as Hg1 by by split.
  unfold connection_on_tls_started. destruct ok; [|by apply close_good; [eapply elem_of_dom_2|]].
  destruct (Hb (Hok eq_refl)) as [Hg Hc].
  rewrite (connection_available_eq _ _ s Hs (inv_rec _ _ Hi1)). eexists; split; [done|].
  destruct (requests (pool w1)) as [|r rest] eqn:Hr; [by apply offered_good|].
  cbv zeta. rewrite Hg. apply topped_up_good; [|done|done].
  apply left_group_inv; [done|]. by apply answer_head_inv.
Qed.

(** The requests an event makes. *)
Definition issued_by (e : event) : list nat :=
  match e with GetConnection res => [res] | _ => [] end.

Lemma retry_good tls issued w id :
  good tls issued w →
  ∃ w', evd_connection_pool_create_min_conns (with_sources (filter (.≠ id)) w) = Some w' ∧
        good tls issued w'.
Proof.
  intros [Hi Hm Ht Hs]. rewrite create_min_eq. eexists; split; [done|].
  apply topped_up_good; [|done|done]. by destruct Hi.
Qed.

Lemma step_good tls issued w e :
  (tls = false → e ≠ SetTlsAutostart true) → good tls issued w →
  ∃ w', step w e = Some w' ∧ good tls (issued ++ issued_by e) w'.
Proof.
  intros He Hw. destruct e as [res|c| | |id|c ok|c|b]; cbn [issued_by]; rewrite ?app_nil_r.
  - destruct Hw as [Hi Hm Ht Hs]. destruct (get_connection_inv _ _ res Hi) as (w' & Hw' & Hi' & Hm' & Ha' & Hh').
    exists (topped_up w'). split; [done|]. apply topped_up_good; [done|lia|].
    intros E. destruct (Ht E). split; congruence.
  - cbn [step]. destruct (decide _) as [Hin|]; [|by exists w].
    destruct (recycle_good _ _ _ _ Hin Hw) as (w' & b & -> & ?). by exists w'.
  - destruct (dialing w) eqn:Hd; [|by eapply connected_good].
    exists w. split; [|done]. unfold step. by rewrite Hd.
  - destruct (dialing w) eqn:Hd; [|by eapply connect_failed_good].
    exists w. split; [|done]. unfold step. by rewrite Hd.
  - cbn [step]. destruct (decide _); [by apply retry_good|by exists w].
  - cbn [step]. destruct (decide _); [by apply tls_started_good|].
    destruct (decide _); [by apply tls_started_good|by exists w].
  - cbn [step]. destruct (decide _); [by apply close_good|by exists w].
  - cbn [step]. unfold evd_connection_pool_set_tls_autostart. destruct Hw as [Hi Hm Ht Hs].
    assert (pool_inv issued (with_pool (set_autostart b) w)) as Hi1 by by destruct Hi.
    destruct b.
    + destruct tls; [|by destruct He].
      destruct (starttls_all_inv _ _ _ eq_refl Hi1) as (w' & Hw' & Hi' & Hm').
      exists w'. split; [done|]. split; try done. rewrite Hm'. done.
    + exists (with_pool (set_autostart false) w). split; [done|]. split; try done.
      intros E. by destruct (Ht E).
Qed.

Lemma run_good tls evs : ∀ issued w,
  (tls = false → SetTlsAutostart true ∉ evs) → good tls issued w →
  ∃ w', run w evs = Some w' ∧ good tls (issued ++ (evs ≫= issued_by)) w'.
Proof.
  induction evs as [|e evs IH]; intros issued w He Hw; simpl; [rewrite app_nil_r; by exists w|].
  destruct (step_good tls issued w e) as (w1 & -> & Hw1); [|done|].
  { intros E ->. apply (He E). by left. }
  run_bind. rewrite app_assoc. apply IH; [|done].
  intros E Hin. apply (He E). by right.
Qed.

(** An execution of a pool from its construction. *)
Definition execution (evs : list event) : option world :=
  w ← start evd_connection_pool_init; run w evs.

Lemma execution_good tls evs :
  (tls = false → SetTlsAutostart true ∉ evs) →
  ∃ w, execution evs = Some w ∧ good tls (evs ≫= issued_by) w.
Proof.
  intros He. unfold execution, start, evd_connection_pool_constructed. rewrite create_min_eq.
  run_bind. apply (run_good tls evs []); [done|]. apply topped_up_good; [|done|done].
  split; try done; [by left|constructor| |]; intros ? **; by apply not_elem_of_nil in H.
Qed.

Lemma free_all_same l : ∀ w,
  let w' := fold_left free_connection_in_queue l w in pool w' = pool w ∧ answers w' = answers w.
Proof. induction l as [|c l IH]; intros w; simpl; [done|]. apply (IH (free_connection_in_queue w c)). Qed.

Lemma unref_all_answers l : ∀ w,
  answers (fold_left evd_connection_pool_unref_request l w) = answers w ++ ((λ r, (r, None)) <$> l).
Proof.
  induction l as [|r l IH]; intros w; simpl; [by rewrite app_nil_r|].
  rewrite IH; simpl. by rewrite <-app_assoc.
Qed.

Lemma dispose_answers w :
  answers (evd_connection_pool_dispose w) = answers w ++ ((λ r, (r, None)) <$> requests (pool w)).
Proof.
  unfold evd_connection_pool_dispose. simpl. rewrite unref_all_answers. simpl.
  destruct (free_all_same (conns (pool w)) w) as [Hp Ha]. by rewrite Ha, Hp.
Qed.

(** ** The properties *)

(** C10. In every execution, requests are answered in the order they were made, each at most once
    and with a connection; the ones left when the pool is disposed of are answered then, with an
    error, so that every request gets exactly one answer. *)
Theorem requests_answered_in_order (evs : list event) :
  ∃ w, execution evs = Some w ∧
       (answers w).*1 ++ requests (pool w) = (evs ≫= issued_by) ∧
       Forall (λ a, is_Some a.2) (answers w) ∧
       (answers (evd_connection_pool_dispose w)).*1 = (evs ≫= issued_by).
Proof.
  destruct (execution_good true evs) as (w & Hw & [Hi _ _ _]); [done|].
  exists w. split; [done|]. destruct Hi. split; [done|]. split; [done|].
  rewrite dispose_answers, fmap_app, <-list_fmap_compose, <-inv_fifo0. f_equal.
  simpl. apply list_fmap_id.
Qed.

(** In every execution the idle connections of the pool are distinct, open, members of the
    group and watched for their closing; no connection is idle while a request waits; and the
    count of connecting sockets is exact, so that it never wraps around. *)
Example idle_connections_are_usable (evs : list event) :
  ∃ w, execution evs = Some w ∧
       NoDup (conns (pool w)) ∧
       (∀ c, c ∈ conns (pool w) → ∃ s, streams w !! c = Some s ∧ group s = true ∧
               closed s = false ∧ (0 < close_handlers s)%nat) ∧
       (conns (pool w) = [] ∨ requests (pool w) = []) ∧
       connecting_sockets (pool w) = Z.of_nat (dialing w).
Proof.
  destruct (execution_good true evs) as (w & Hw & [Hi _ _ _]); [done|].
  exists w. split; [done|]. destruct Hi. split; [|done].
  by apply NoDup_app in inv_nodup0 as [? _].
Qed.

(** When a socket connects while a request waits, the request gets the new stream. *)
Lemma connected_answers tls issued w n r rest :
  good tls issued w → tls = false → dialing w = S n → requests (pool w) = r :: rest →
  ∃ w', step w Connected = Some w' ∧ answers w' = answers w ++ [(r, Some (new_stream w))] ∧
        streams w' !! new_stream w = Some (mkConnection true false false 0) ∧
        recursed (pool w') = false.
Proof.
  intros [Hi _ Ht _] E Hd Hr. destruct (Ht E) as [Ha _]. pose proof (inv_rec _ _ Hi) as Hrec.
  unfold step. rewrite Hd. unfold evd_connection_pool_socket_on_connect.
  set (c := new_stream w). set (s0 := mkConnection false false false 0).
  set (w1 := if negb _ then _ else _).
  assert (streams w1 = <[c := s0]> (streams w) ∧ recursed (pool w1) = false ∧
          requests (pool w1) = r :: rest ∧ answers w1 = answers w ∧ tls_autostart (pool w1) = false)
    as (Hs1 & Hr1 & Hq1 & Ha1 & Ht1) by (subst w1; by destruct (negb _)).
  rewrite (group_add_eq w1 c s0); [|by rewrite Hs1, lookup_insert_eq|done].
  cbn [group s0 mbind option_bind]. eexists; split; [done|].
  unfold joined, offered. rewrite Ht1. cbn [andb]. cbn [pool with_streams]. rewrite Hq1. simpl.
  rewrite Ha1. split; [done|]. by rewrite lookup_insert_eq.
Qed.

(** As long as TLS is not switched on, a request that waits is always being taken care of: either
    a socket is connecting, and when it is connected the request at the head gets it; or a retry is
    armed, and when it fires a socket is connecting. *)
Example waiting_requests_are_served (evs : list event) (w : world) (r : nat) (rest : list nat) :
  SetTlsAutostart true ∉ evs → execution evs = Some w → requests (pool w) = r :: rest →
  (∃ w', step w Connected = Some w' ∧ answers w' = answers w ++ [(r, Some (new_stream w))]) ∨
  (∃ id w', id ∈ sources w ∧ step w (RetryTimeout id) = Some w' ∧ (0 < dialing w')%nat ∧
            requests (pool w') = requests (pool w)).
Proof.
  intros He Hw Hr. destruct (execution_good false evs) as (w' & Hw' & Hg); [done|].
  assert (w' = w) as -> by congruence.
  destruct (good_served _ _ _ Hg eq_refl) as [Hd|Hs]; [by rewrite Hr| |].
  - left. rewrite (inv_count _ _ (good_inv _ _ _ Hg)) in Hd.
    destruct (dialing w) as [|n] eqn:Hn; [lia|].
    destruct (connected_answers _ _ _ _ _ _ Hg eq_refl Hn Hr) as (w' & ? & ? & _). by exists w'.
  - right. destruct (sources w) as [|id l] eqn:Hl; [done|].
    destruct (retry_good _ _ _ id Hg) as (w' & Hstep & Hg').
    exists id, w'. split; [by left|]. cbn [step].
    rewrite decide_True by (rewrite Hl; by left). split; [done|].
    rewrite create_min_eq in Hstep. apply (inj Some) in Hstep as <-. split; [|done].
    pose proof (topped_up_total (with_sources (filter (.≠ id)) w)) as Ht.
    pose proof (good_min _ _ _ Hg'). pose proof (inv_count _ _ (good_inv _ _ _ Hg')) as Hc.
    destruct (inv_excl _ _ (good_inv _ _ _ Hg')) as [He'|He']; [|simpl in He'; congruence].
    revert Ht. unfold TOTAL_SOCKETS at 1. rewrite He', Hc. simpl length. simpl min_conns in *. lia.
Qed.

Lemma waiting_requests_are_served_witness :
  ∃ w, execution [GetConnection 7; ConnectFailed] = Some w ∧
  ((∃ w', step w Connected = Some w' ∧ answers w' = answers w ++ [(7%nat, Some (new_stream w))]) ∨
   (∃ id w', id ∈ sources w ∧ step w (RetryTimeout id) = Some w' ∧ (0 < dialing w')%nat ∧
            requests (pool w') = requests (pool w))).
Proof.
  eexists; split; [vm_compute; reflexivity|].
  apply (waiting_requests_are_served [GetConnection 7; ConnectFailed] _ 7 []).
  - apply not_elem_of_cons; split; [done|]. apply not_elem_of_cons; split; [done|]. apply not_elem_of_nil.
  - vm_compute. reflexivity.
  - reflexivity.
Defined.

(** A connection handed to a request that was waiting stays in the group, because the pool is
    being called as a group when it hands it out: giving it back later is refused, however few
    connections the pool has and although the connection is open. *)
Example handed_to_waiter_cannot_be_recycled
  (evs : list event) (w : world) (n r : nat) (rest : list nat) :
  SetTlsAutostart true ∉ evs → execution evs = Some w → dialing w = S n →
  requests (pool w) = r :: rest →
  ∃ w', step w Connected = Some w' ∧ answers w' = answers w ++ [(r, Some (new_stream w))] ∧
        (closed <$> streams w' !! new_stream w) = Some false ∧
        evd_connection_pool_recycle w' (new_stream w) = Some (w', false).
Proof.
  intros He Hw Hd Hr. destruct (execution_good false evs) as (w0 & Hw0 & Hg); [done|].
  assert (w0 = w) as -> by congruence.
  destruct (connected_answers _ _ _ _ _ _ Hg eq_refl Hd Hr) as (w' & Hstep & Ha & Hs & Hrec).
  exists w'. split; [done|]. split; [done|]. rewrite Hs. split; [done|].
  unfold evd_connection_pool_recycle. rewrite Hs. cbn [mbind option_bind closed].
  destruct (_ >=? _); [done|]. by rewrite (group_add_eq _ _ _ Hs Hrec).
Qed.

Lemma handed_to_waiter_cannot_be_recycled_witness :
  ∃ w w', execution [GetConnection 7] = Some w ∧ step w Connected = Some w' ∧
        answers w' = answers w ++ [(7%nat, Some (new_stream w))] ∧
        (closed <$> streams w' !! new_stream w) = Some false ∧
        evd_connection_pool_recycle w' (new_stream w) = Some (w', false).
Proof.
  eexists. edestruct (handed_to_waiter_cannot_be_recycled [GetConnection 7]) as (w' & H).
  - apply not_elem_of_cons; split; [done|]. apply not_elem_of_nil.
  - vm_compute. reflexivity.
  - reflexivity.
  - reflexivity.
  - exists w'. split; [vm_compute; reflexivity|exact H].
Defined.

(** A failed TLS handshake closes the connection without topping the pool up: the request that
    waits for it is left with nothing under way. *)
Example tls_failure_starves :
  (λ w, (requests (pool w), conns (pool w), dialing w, sources w, handshakes w)) <$>
    execution [SetTlsAutostart true; GetConnection 7; Connected; TlsStarted 0 false]
  = Some ([7%nat], [], 0%nat, [], []).
Proof. vm_compute. reflexivity. Qed.

(** Switching TLS on again closes the idle connections, whose TLS is active. *)
Example autostart_again_closes_idle :
  (λ w, (conns (pool w), closed <$> streams w !! 0%nat)) <$>
    execution [SetTlsAutostart true; Connected; TlsStarted 0 true; SetTlsAutostart true; TlsStarted 0 true]
  = Some ([], Some true).
Proof. vm_compute. reflexivity. Qed.

(** A request made while a retry is armed forgets the armed source; the next failure arms another,
    and destroying the pool removes only that one. *)
Example retry_source_outlives_pool :
  (λ w, sources (evd_connection_pool_finalize (evd_connection_pool_dispose w))) <$>
    execution [ConnectFailed; GetConnection 7; ConnectFailed]
  = Some [1].
Proof. vm_compute. reflexivity. Qed.

(** Taking an idle stream out of the group from the outside leaves it in the queue. *)
Example set_group_leaves_idle :
  (λ w, (λ '(w, r), (conns (pool w), group <$> streams w !! 0%nat, r)) <$>
          evd_io_stream_set_group CALL_DEPTH w 0 false) <$> execution [Connected]
  = Some (Some ([0%nat], Some false, true)).
Proof. vm_compute. reflexivity. Qed.

End ConnectionPoolSpec.
