(* ===== verification/Jsonrpc.v ===== *)
(** * JSON-RPC: model

    src/evd/evd-jsonrpc.c on top of the JSON filter: one endpoint, with its table of invocations,
    the messages it builds and the ones it dispatches.  JSON-GLib is not part of the sources: its
    parser and generator are the two operations of the class [JsonGlib]; a node is a value of
    [JsonNode].  Callbacks of the user are effects that do not call back.  [None] stands for the
    end of the process, by a failed assertion or by hashing a NULL string. *)
From stdpp Require Import pretty.
From S2P Require Import Prelude JsonFilter.

Module Jsonrpc.

#[local] Set Warnings "-register-all".

(** JSON-GLib's nodes: [JsonValue] holds a value that is not a string (a number or a boolean). *)
Inductive JsonNode :=
| JsonNull
| JsonString (s : string)
| JsonValue (v : list Z)
| JsonArray (l : list JsonNode)
| JsonObject (members : list (string * JsonNode)).

Class JsonGlib := {
  json_generator_to_data : JsonNode → list Z;
  json_parser_load_from_data : list Z → option JsonNode
}.

Definition is_null {A} (o : option A) : bool := match o with None => true | Some _ => false end.

Fixpoint json_object_get_member (members : list (string * JsonNode)) (name : string)
  : option JsonNode :=
  match members with
  | [] => None
  | (k, n) :: members =>
      if decide (k = name) then Some n else json_object_get_member members name
  end.
Definition json_object_has_member (members : list (string * JsonNode)) (name : string) : bool :=
  negb (is_null (json_object_get_member members name)).

Definition json_node_get_string (n : JsonNode) : option string :=
  match n with JsonString s => Some s | _ => None end.
Definition json_node_is_null (n : JsonNode) : bool :=
  match n with JsonNull => true | _ => false end.
Definition JSON_NODE_HOLDS_VALUE (n : JsonNode) : bool :=
  match n with JsonString _ | JsonValue _ => true | _ => false end.
Definition JSON_NODE_HOLDS_ARRAY (n : JsonNode) : bool :=
  match n with JsonArray _ => true | _ => false end.

(** A context is a peer or some other object of the caller. *)
Inductive context_t := Peer (p : nat) | Other (o : nat).

(** [result] names the pending call of an invocation made here; it is NULL for an invocation that
    came from the remote side. *)
Record InvocationData := mkInvocation {
  result : option nat;
  remote_id : option JsonNode;
  inv_context : option context_t
}.

Record EvdJsonrpcPrivate := mkRpc {
  invocation_counter : Z;
  send_cb : option nat;
  invocations : gmap string InvocationData;
  json_filter : JsonFilter.EvdJsonFilterPrivate;
  context : option context_t;
  method_call_cb : option nat;
  notification_cb : option nat
}.

Inductive GIOError := IO_ERROR_CLOSED | IO_ERROR_INVALID_DATA | IO_ERROR_INVALID_ARGUMENT.

(** How a call ends: with the nodes of a response or with an error. *)
Inductive completion :=
| MethodResponse (result error : option JsonNode)
| CallFailed.

Inductive effect :=
| SendText (p : nat) (msg : list Z)
| SendCb (cb : nat) (msg : list Z) (ctx : option context_t) (id : Z)
| MethodCall (cb : nat) (name : string) (args : JsonNode) (id : Z) (ctx : option context_t)
| Notification (cb : nat) (name : option string) (params : option JsonNode)
    (ctx : option context_t)
| CallDone (call : nat) (how : completion).

Definition set_invocations (m : gmap string InvocationData) (r : EvdJsonrpcPrivate) :=
  mkRpc (invocation_counter r) (send_cb r) m (json_filter r) (context r) (method_call_cb r)
        (notification_cb r).
Definition set_counter (n : Z) (r : EvdJsonrpcPrivate) :=
  mkRpc n (send_cb r) (invocations r) (json_filter r) (context r) (method_call_cb r)
        (notification_cb r).
Definition set_filter (f : JsonFilter.EvdJsonFilterPrivate) (r : EvdJsonrpcPrivate) :=
  mkRpc (invocation_counter r) (send_cb r) (invocations r) f (context r) (method_call_cb r)
        (notification_cb r).
Definition set_context (c : option context_t) (r : EvdJsonrpcPrivate) :=
  mkRpc (invocation_counter r) (send_cb r) (invocations r) (json_filter r) c (method_call_cb r)
        (notification_cb r).

(** [g_strdup_printf ("%u", id)]. *)
Definition id_string (id : Z) : string := pretty (Z.to_N id).

(** The handler [evd_jsonrpc_on_json_packet] is callback 0 of the filter. *)
Definition evd_jsonrpc_init : option EvdJsonrpcPrivate :=
  f ← JsonFilter.evd_json_filter_init;
  let f := (JsonFilter.evd_json_filter_set_packet_handler f (Some 0%nat) (Some 0%nat) None).1 in
  Some (mkRpc 0 None ∅ f None None None).

Definition evd_jsonrpc_transport_set_send_callback (r : EvdJsonrpcPrivate) (cb : option nat) :=
  mkRpc (invocation_counter r) cb (invocations r) (json_filter r) (context r) (method_call_cb r)
        (notification_cb r).
Definition evd_jsonrpc_set_callbacks (r : EvdJsonrpcPrivate) (call_cb notify_cb : option nat) :=
  mkRpc (invocation_counter r) (send_cb r) (invocations r) (json_filter r) (context r) call_cb
        notify_cb.

(** ** Messages *)

Section WithJson.
Context `{JsonGlib}.

Definition message_node (request : bool) (method_name : string)
  (id params error : option JsonNode) : JsonNode :=
  let id_node := default JsonNull id in
  if request then
    JsonObject [("id", id_node); ("method", JsonString method_name);
                ("params", default (JsonArray []) params)]
  else
    JsonObject [("id", id_node); ("error", default JsonNull error);
                ("result", default JsonNull params)].

Definition evd_jsonrpc_build_message (request : bool) (method_name : string)
  (id params error : option JsonNode) : list Z :=
  json_generator_to_data (message_node request method_name id params error).

(** ** Sending *)

Definition evd_jsonrpc_transport_error (r : EvdJsonrpcPrivate) (invocation_id : Z)
  : EvdJsonrpcPrivate * list effect :=
  let id_st := id_string invocation_id in
  match invocations r !! id_st with
  | None => (r, [])
  | Some inv_data =>
      (set_invocations (delete id_st (invocations r)) r,
       match result inv_data with Some res => [CallDone res CallFailed] | None => [] end)
  end.

(** [sent] is what [evd_peer_send_text] answers. *)
Definition evd_jsonrpc_transport_write (r : EvdJsonrpcPrivate) (msg : list Z)
  (user_context : option context_t) (invocation_id : Z) (sent : bool)
  : EvdJsonrpcPrivate * list effect :=
  match user_context with
  | Some (Peer p) =>
      if sent then (r, [SendText p msg]) else evd_jsonrpc_transport_error r invocation_id
  | _ =>
      match send_cb r with
      | Some cb => (r, [SendCb cb msg user_context invocation_id])
      | None => evd_jsonrpc_transport_error r invocation_id
      end
  end.

Definition is_peer (c : option context_t) : bool :=
  match c with Some (Peer _) => true | _ => false end.

Definition evd_jsonrpc_call_method (r : EvdJsonrpcPrivate) (method_name : string)
  (params : option JsonNode) (ctx : option context_t) (res : nat) (sent : bool)
  : EvdJsonrpcPrivate * list effect :=
  if negb (is_peer ctx) && is_null (send_cb r) then
    (r, [CallDone res CallFailed])
  else
    let r := set_counter (u32 (invocation_counter r + 1)) r in
    let id := invocation_counter r in
    let id_st := id_string id in
    let r := set_invocations
               (<[id_st := mkInvocation (Some res) None ctx]> (invocations r)) r in
    let msg := evd_jsonrpc_build_message true method_name (Some (JsonString id_st)) params None in
    evd_jsonrpc_transport_write r msg ctx id sent.

Definition evd_jsonrpc_respond_full (r : EvdJsonrpcPrivate) (invocation_id : Z)
  (result_node error_node : option JsonNode) (sent : bool)
  : EvdJsonrpcPrivate * list effect * (bool * option GIOError) :=
  if negb (0 <? invocation_id) then (r, [], (false, None))
  else
    let id_st := id_string invocation_id in
    match invocations r !! id_st with
    | None => (r, [], (false, Some IO_ERROR_INVALID_ARGUMENT))
    | Some inv_data =>
        match inv_context inv_data with
        | None => (r, [], (false, Some IO_ERROR_CLOSED))
        | Some ctx =>
            let r := set_invocations (delete id_st (invocations r)) r in
            let msg := evd_jsonrpc_build_message false "" (remote_id inv_data)
                         result_node error_node in
            let '(r, effs) := evd_jsonrpc_transport_write r msg (Some ctx) invocation_id sent in
            (r, effs, (true, None))
        end
    end.

Definition evd_jsonrpc_respond (r : EvdJsonrpcPrivate) (id : Z) (res : option JsonNode) (sent : bool) :=
  evd_jsonrpc_respond_full r id res None sent.
Definition evd_jsonrpc_respond_error (r : EvdJsonrpcPrivate) (id : Z) (err : option JsonNode)
  (sent : bool) := evd_jsonrpc_respond_full r id None err sent.

(** [code] is the text of the error's code. *)
Definition evd_jsonrpc_respond_from_error (r : EvdJsonrpcPrivate) (id : Z) (code : list Z)
  (message : string) (sent : bool) :=
  evd_jsonrpc_respond_error r id
    (Some (JsonObject [("code", JsonValue code); ("message", JsonString message)])) sent.

Definition evd_jsonrpc_send_notification (r : EvdJsonrpcPrivate) (name : string)
  (params : option JsonNode) (ctx : option context_t) (sent : bool)
  : EvdJsonrpcPrivate * list effect * (bool * option GIOError) :=
  if negb (is_peer ctx) && is_null (send_cb r) then
    (r, [], (false, Some IO_ERROR_CLOSED))
  else
    let msg := evd_jsonrpc_build_message true name None params None in
    let '(r, effs) := evd_jsonrpc_transport_write r msg ctx 0 sent in
    (r, effs, (true, None)).

(** ** Receiving *)

Definition evd_jsonrpc_on_method_called (r : EvdJsonrpcPrivate) (msg : list (string * JsonNode))
  (ctx : option context_t) : EvdJsonrpcPrivate * list effect * option GIOError :=
  match json_object_get_member msg "method", json_object_get_member msg "params" with
  | Some node, Some args =>
      match json_node_get_string node with
      | None => (r, [], Some IO_ERROR_INVALID_DATA)
      | Some method_name =>
          if negb (JSON_NODE_HOLDS_VALUE node) then (r, [], Some IO_ERROR_INVALID_DATA)
          else if negb (JSON_NODE_HOLDS_ARRAY args) then (r, [], Some IO_ERROR_INVALID_DATA)
          else
            let r := set_counter (u32 (invocation_counter r + 1)) r in
            let id := invocation_counter r in
            let inv_data := mkInvocation None (json_object_get_member msg "id") ctx in
            let r := set_invocations (<[id_string id := inv_data]> (invocations r)) r in
            (r, match method_call_cb r with
                | Some cb => [MethodCall cb method_name args id ctx]
                | None => []
                end, None)
      end
  | _, _ => (r, [], Some IO_ERROR_INVALID_DATA)
  end.

(** What becomes of a pending call when its response arrives. *)
Definition method_response (result_node error_node : JsonNode) : completion :=
  if negb (json_node_is_null result_node || json_node_is_null error_node) then CallFailed
  else if negb (json_node_is_null result_node) then MethodResponse (Some result_node) None
  else MethodResponse None (Some error_node).

(** An id that is not a string is NULL for [g_hash_table_lookup], whose hash function reads it.
    An invocation with no [result] makes GLib complain and is dropped. *)
Definition evd_jsonrpc_on_method_result (r : EvdJsonrpcPrivate) (msg : list (string * JsonNode))
  : option (EvdJsonrpcPrivate * list effect) :=
  id ← json_object_get_member msg "id" ≫= json_node_get_string;
  match invocations r !! id with
  | None => Some (r, [])
  | Some inv_data =>
      let r := set_invocations (delete id (invocations r)) r in
      result_node ← json_object_get_member msg "result";
      error_node ← json_object_get_member msg "error";
      Some (r, match result inv_data with
               | Some res => [CallDone res (method_response result_node error_node)]
               | None => []
               end)
  end.

Definition evd_jsonrpc_on_notification (r : EvdJsonrpcPrivate) (msg : list (string * JsonNode))
  (ctx : option context_t) : list effect :=
  match notification_cb r with
  | None => []
  | Some cb =>
      [Notification cb (json_object_get_member msg "method" ≫= json_node_get_string)
         (json_object_get_member msg "params") ctx]
  end.

(** The errors of a message are printed and dropped. *)
Definition evd_jsonrpc_on_json_packet (r : EvdJsonrpcPrivate) (buffer : list Z)
  : option (EvdJsonrpcPrivate * list effect) :=
  root ← json_parser_load_from_data buffer;
  match root with
  | JsonObject obj =>
      match json_object_get_member obj "id" with
      | None => Some (r, [])
      | Some id_node =>
          if json_object_has_member obj "result" && json_object_has_member obj "error" then
            evd_jsonrpc_on_method_result r obj
          else if json_object_has_member obj "method" && json_object_has_member obj "params" then
            if negb (json_node_is_null id_node) then
              Some (evd_jsonrpc_on_method_called r obj (context r)).1
            else Some (r, evd_jsonrpc_on_notification r obj (context r))
          else Some (r, [])
      end
  | _ => Some (r, [])
  end.

(** The packets the filter hands over, one after the other. *)
Fixpoint on_packets (r : EvdJsonrpcPrivate) (evs : list JsonFilter.event)
  : option (EvdJsonrpcPrivate * list effect) :=
  match evs with
  | [] => Some (r, [])
  | JsonFilter.PacketCb _ packet _ :: evs =>
      '(r, effs) ← evd_jsonrpc_on_json_packet r packet;
      '(r, effs') ← on_packets r evs;
      Some (r, effs ++ effs')
  | JsonFilter.FreeUserData _ _ :: evs => on_packets r evs
  end.

(** The bytes of a C string. *)
Fixpoint c_string (message : list Z) : list Z :=
  match message with
  | [] => []
  | c :: message => if c =? 0 then [] else c :: c_string message
  end.

Definition evd_jsonrpc_transport_receive (r : EvdJsonrpcPrivate) (message : list Z)
  (ctx : option context_t) (invocation_id : Z)
  : option (EvdJsonrpcPrivate * list effect * bool) :=
  let buffer := c_string message in
  if Z.of_nat (length buffer) =? 0 then Some (r, [], true)
  else
    let r := set_context ctx r in
    '(f, evs, err) ← JsonFilter.evd_json_filter_feed_len (json_filter r) buffer;
    '(r, effs) ← on_packets r evs;
    let r := set_filter f r in
    let '(r, effs', ok) :=
      match err with
      | Some _ => let '(r, e) := evd_jsonrpc_transport_error r invocation_id in (r, e, false)
      | None => (r, [], true)
      end in
    Some (set_context None r, effs ++ effs', ok).

(** [transport_on_receive]: the size of the data is not used. *)
Definition transport_on_receive (r : EvdJsonrpcPrivate) (peer : nat) (data : list Z)
  : option (EvdJsonrpcPrivate * list effect) :=
  fst <$> evd_jsonrpc_transport_receive r data (Some (Peer peer)) 0.

End WithJson.
End Jsonrpc.
