(* ===== verification/JsonrpcSpec.v ===== *)
(** * JSON-RPC: properties

    A call goes round between two endpoints, through the JSON filter of each; a call is completed at
    most once, whatever the remote side sends. *)
From stdpp Require Import pretty.
From S2P Require Import Prelude JsonFilter JsonFilterSpec JsonGrammar Jsonrpc.

Module JsonrpcSpec.
Import Jsonrpc.

(** ** Messages through the filter *)

(** An endpoint between two messages. *)
Definition ready (r : EvdJsonrpcPrivate) : Prop :=
  JsonFilterSpec.fresh (json_filter r) ∧ JsonFilter.packet_cb (json_filter r) = Some 0%nat.

Section Wire.
Context `{JsonGlib}.

(** What is relied on of JSON-GLib for one message: the generated text is a JSON text without NUL
    that the filter's depth allows, and parsing it gives the message back. *)
Definition wire_ok (n : JsonNode) : Prop :=
  JsonGrammar.well_formed_part ([], json_generator_to_data n) ∧
  (0 ∉ json_generator_to_data n) ∧
  json_parser_load_from_data (json_generator_to_data n) = Some n.

Lemma c_string_id msg : 0 ∉ msg → c_string msg = msg.
Proof.
  induction msg as [|c msg IH]; simpl; [done|]. rewrite not_elem_of_cons. intros [Hc Hm].
  destruct (Z.eqb_spec c 0); [congruence|]. by rewrite IH.
Qed.

Lemma text_nonempty w : JsonGrammar.well_formed_part ([], w) → w ≠ [].
Proof. intros [_ (n & Ht & _)] ->. inversion Ht. Qed.

Lemma receive_message_eq r n ctx id :
  ready r → wire_ok n →
  ∃ f, JsonFilterSpec.fresh f ∧ JsonFilter.packet_cb f = Some 0%nat ∧
    evd_jsonrpc_transport_receive r (json_generator_to_data n) ctx id =
    '(r', effs) ← evd_jsonrpc_on_json_packet (set_context ctx r) (json_generator_to_data n);
    Some (set_context None (set_filter f r'), effs, true).
Proof.
  intros [Hf Hcb] (Hw & Hz & _).
  destruct (JsonGrammar.feed_text _ _ Hf Hw) as (f & Hfeed & Hf' & Hh).
  exists f. split; [done|]. split; [destruct Hh as (Hh & _); congruence|].
  unfold evd_jsonrpc_transport_receive. rewrite c_string_id by done.
  destruct (Z.eqb_spec (Z.of_nat (length (json_generator_to_data n))) 0) as [E|_].
  { destruct (json_generator_to_data n) eqn:Hg; [|done]. by apply text_nonempty in Hw. }
  cbn [json_filter set_context]. rewrite Hfeed. run_bind.
  unfold JsonFilterSpec.deliveries, JsonFilter.evd_json_filter_notify_packet.
  rewrite Hcb. cbn [mbind list_bind app on_packets].
  replace (mkRpc _ _ _ _ _ _ _) with (set_context ctx r) by done.
  destruct (evd_jsonrpc_on_json_packet _ _) as [[r' effs]|]; [|done].
  run_bind. by rewrite !app_nil_r.
Qed.

Lemma receive_message r n ctx r' effs :
  ready r → wire_ok n →
  evd_jsonrpc_on_json_packet (set_context ctx r) (json_generator_to_data n) = Some (r', effs) →
  ∃ f, evd_jsonrpc_transport_receive r (json_generator_to_data n) ctx 0 =
       Some (set_context None (set_filter f r'), effs, true) ∧ ready (set_filter f r').
Proof.
  intros Hr Hn Hp. destruct (receive_message_eq r n ctx 0 Hr Hn) as (f & Hf & Hcb & Heq).
  exists f. split; [|done]. by rewrite Heq, Hp.
Qed.

(** A well-formed message ends the process in exactly one case: it looks like a response, and
    its id is not a string. *)
Example receive_crashes_iff (r : EvdJsonrpcPrivate) (members : list (string * JsonNode))
    (ctx : option context_t) (id : Z) :
  ready r → wire_ok (JsonObject members) →
  evd_jsonrpc_transport_receive r (json_generator_to_data (JsonObject members)) ctx id = None ↔
  json_object_has_member members "result" = true ∧ json_object_has_member members "error" = true ∧
  ∃ n, json_object_get_member members "id" = Some n ∧ json_node_get_string n = None.
Proof.
  intros Hr Hn. destruct (receive_message_eq r _ ctx id Hr Hn) as (f & _ & _ & ->).
  unfold evd_jsonrpc_on_json_packet. destruct Hn as (_ & _ & ->). run_bind.
  unfold json_object_has_member, evd_jsonrpc_on_method_result.
  destruct (json_object_get_member members "id") as [n|]; [|split; [done|naive_solver]].
  destruct (json_object_get_member members "result") as [rn|]; simpl.
  2:{ split; [|naive_solver]. destruct (evd_jsonrpc_on_method_called _ _ _) as [[r1 e1] o].
      by repeat case_match. }
  destruct (json_object_get_member members "error") as [en|]; simpl.
  2:{ split; [|naive_solver]. destruct (evd_jsonrpc_on_method_called _ _ _) as [[r1 e1] o].
      by repeat case_match. }
  destruct (json_node_get_string n) as [s|] eqn:Hs; simpl.
  - split; [by case_match|naive_solver].
  - split; [|done]. intros _. do 2 (split; [done|]). by exists n.
Qed.

(** The answer of the callee: a result or an error. *)
Definition reply (r : EvdJsonrpcPrivate) (id : Z) (answer : JsonNode + JsonNode) (sent : bool) :=
  match answer with
  | inl v => evd_jsonrpc_respond r id (Some v) sent
  | inr e => evd_jsonrpc_respond_error r id (Some e) sent
  end.

Definition response_node (id : string) (answer : JsonNode + JsonNode) : JsonNode :=
  match answer with
  | inl v => message_node false "" (Some (JsonString id)) (Some v) None
  | inr e => message_node false "" (Some (JsonString id)) None (Some e)
  end.

Definition completion_of (answer : JsonNode + JsonNode) : completion :=
  match answer with
  | inl v => MethodResponse (Some v) None
  | inr e => MethodResponse None (Some e)
  end.

(** The id the next invocation of an endpoint gets. *)
Definition next_id (r : EvdJsonrpcPrivate) : Z := u32 (invocation_counter r + 1).

(** Calling: the invocation is recorded and its message goes out. *)
Lemma call_method_eq a name params p call :
  evd_jsonrpc_call_method a name params (Some (Peer p)) call true =
  (set_invocations (<[id_string (next_id a) := mkInvocation (Some call) None (Some (Peer p))]> (invocations a))
     (set_counter (next_id a) a),
   [SendText p (json_generator_to_data
      (message_node true name (Some (JsonString (id_string (next_id a)))) params None))]).
Proof. done. Qed.

(** A request is dispatched to the callback under a new invocation. *)
Lemma dispatch_request b name id params ctx cb :
  wire_ok (message_node true name (Some (JsonString id)) params None) →
  JSON_NODE_HOLDS_ARRAY (default (JsonArray []) params) = true → method_call_cb b = Some cb →
  evd_jsonrpc_on_json_packet (set_context ctx b)
    (json_generator_to_data (message_node true name (Some (JsonString id)) params None)) =
  Some (set_invocations
          (<[id_string (next_id b) := mkInvocation None (Some (JsonString id)) ctx]> (invocations b))
          (set_counter (next_id b) (set_context ctx b)),
        [MethodCall cb name (default (JsonArray []) params) (next_id b) ctx]).
Proof.
  intros (_ & _ & Hp) Ha Hcb. unfold evd_jsonrpc_on_json_packet. rewrite Hp. run_bind.
  cbn [message_node json_object_get_member json_object_has_member is_null].
  unfold evd_jsonrpc_on_method_called; simpl. rewrite Ha; simpl. by rewrite Hcb.
Qed.

(** A response completes the call it names. *)
Lemma dispatch_response a id call d ctx answer :
  wire_ok (response_node id answer) → (∀ v, answer = inl v → v ≠ JsonNull) →
  invocations a !! id = Some d → result d = Some call →
  evd_jsonrpc_on_json_packet (set_context ctx a) (json_generator_to_data (response_node id answer)) =
  Some (set_invocations (delete id (invocations a)) (set_context ctx a),
        [CallDone call (completion_of answer)]).
Proof.
  intros (_ & _ & Hp) Hv Hd Hc. unfold evd_jsonrpc_on_json_packet. rewrite Hp.
  destruct answer as [v|e]; simpl; unfold evd_jsonrpc_on_method_result; simpl; rewrite Hd; simpl;
    rewrite Hc; [|done].
  by destruct v; [destruct (Hv JsonNull)|..].
Qed.

(** A call goes round: the caller's message, received by an endpoint between two messages, calls
    its method callback with the method and the parameters; the answer to that invocation, received
    by the caller, completes that very call with the result or the error that was given; and both
    endpoints are left as they were, with no invocation pending. *)
Example call_roundtrip (a b : EvdJsonrpcPrivate) (name : string) (params : option JsonNode)
    (call pa pb cb : nat) (answer : JsonNode + JsonNode) :
  ready a → ready b → method_call_cb b = Some cb →
  JSON_NODE_HOLDS_ARRAY (default (JsonArray []) params) = true →
  (∀ v, answer = inl v → v ≠ JsonNull) →
  invocations a !! id_string (next_id a) = None →
  invocations b !! id_string (next_id b) = None → 0 < next_id b →
  wire_ok (message_node true name (Some (JsonString (id_string (next_id a)))) params None) →
  wire_ok (response_node (id_string (next_id a)) answer) →
  ∃ a1 a2 b1 b2 request response,
    evd_jsonrpc_call_method a name params (Some (Peer pa)) call true = (a1, [SendText pa request]) ∧
    transport_on_receive b pb request =
      Some (b1, [MethodCall cb name (default (JsonArray []) params) (next_id b) (Some (Peer pb))]) ∧
    reply b1 (next_id b) answer true = (b2, [SendText pb response], (true, None)) ∧
    transport_on_receive a1 pa response = Some (a2, [CallDone call (completion_of answer)]) ∧
    invocations a2 = invocations a ∧ invocations b2 = invocations b ∧ ready a2 ∧ ready b2.
Proof.
  intros Ha Hb Hcb Hp Hv Hia Hib Hid Hw1 Hw2.
  destruct (receive_message b _ (Some (Peer pb)) _ _ Hb Hw1
              (dispatch_request b _ _ _ _ _ Hw1 Hp Hcb)) as (fb & Hrb & Hb1).
  set (a1 := (evd_jsonrpc_call_method a name params (Some (Peer pa)) call true).1).
  assert (invocations a1 !! id_string (next_id a) =
          Some (mkInvocation (Some call) None (Some (Peer pa)))) as Hl by apply lookup_insert_eq.
  destruct (receive_message a1 _ (Some (Peer pa)) _ _ Ha Hw2
              (dispatch_response a1 _ _ _ _ _ Hw2 Hv Hl eq_refl)) as (fa & Hra & Ha1).
  assert ((0 <? next_id b) = true) as Hpos by by apply Z.ltb_lt.
  destruct answer as [v|e]; do 6 eexists.
  all: split; [apply call_method_eq|].
  all: split; [unfold transport_on_receive; by rewrite Hrb|].
  all: split; [unfold reply, evd_jsonrpc_respond, evd_jsonrpc_respond_error, evd_jsonrpc_respond_full;
               rewrite Hpos; simpl; by rewrite lookup_insert_eq|].
  all: split; [exact (f_equal (fmap fst) Hra)|].
  all: split; [simpl; by apply delete_insert_id|].
  all: split; [simpl; by apply delete_insert_id|].
  all: by split.
Qed.

End Wire.

(** ** Completions *)

Section Once.
Context `{JsonGlib}.

(** What the users and the transports of an endpoint do, in any order. *)
Inductive op :=
| OpCall (name : string) (params : option JsonNode) (ctx : option context_t) (call : nat) (sent : bool)
| OpRespond (id : Z) (res err : option JsonNode) (sent : bool)
| OpNotify (name : string) (params : option JsonNode) (ctx : option context_t) (sent : bool)
| OpReceive (message : list Z) (ctx : option context_t) (id : Z)
| OpTransportError (id : Z).

Definition exec (r : EvdJsonrpcPrivate) (o : op) : option (EvdJsonrpcPrivate * list effect) :=
  match o with
  | OpCall name params ctx call sent =>
      Some (evd_jsonrpc_call_method r name params ctx call sent)
  | OpRespond id res err sent => Some (evd_jsonrpc_respond_full r id res err sent).1
  | OpNotify name params ctx sent => Some (evd_jsonrpc_send_notification r name params ctx sent).1
  | OpReceive message ctx id => fst <$> evd_jsonrpc_transport_receive r message ctx id
  | OpTransportError id => Some (evd_jsonrpc_transport_error r id)
  end.

Fixpoint exec_all (r : EvdJsonrpcPrivate) (ops : list op) : option (EvdJsonrpcPrivate * list effect) :=
  match ops with
  | [] => Some (r, [])
  | o :: ops => '(r, e1) ← exec r o; '(r, e2) ← exec_all r ops; Some (r, e1 ++ e2)
  end.

Definition calls_of (o : op) : list nat := match o with OpCall _ _ _ call _ => [call] | _ => [] end.
Definition completed (e : effect) : list nat := match e with CallDone call _ => [call] | _ => [] end.
Definition completions (effs : list effect) : list nat := effs ≫= completed.

Lemma completions_app e1 e2 : completions (e1 ++ e2) = completions e1 ++ completions e2.
Proof. apply bind_app. Qed.

(** A pending call has been issued, is not completed, and has one entry in the table. *)
Record once (issued done : list nat) (m : gmap string InvocationData) : Prop := mkOnce {
  once_nodup : NoDup done;
  once_issued : ∀ c, c ∈ done → c ∈ issued;
  once_pending : ∀ k d c, m !! k = Some d → result d = Some c → c ∈ issued ∧ (c ∉ done);
  once_inj : ∀ k1 k2 d1 d2 c, m !! k1 = Some d1 → m !! k2 = Some d2 →
               result d1 = Some c → result d2 = Some c → k1 = k2
}.

Lemma once_delete issued done m k : once issued done m → once issued done (delete k m).
Proof.
  intros []. split; try done.
  - intros k' d c [_ Hk]%lookup_delete_Some. eauto.
  - intros k1 k2 d1 d2 c [_ H1]%lookup_delete_Some [_ H2]%lookup_delete_Some. eauto.
Qed.

Lemma once_complete issued done m k d :
  once issued done m → m !! k = Some d →
  once issued (done ++ option_list (result d)) (delete k m).
Proof.
  intros Ho Hd. destruct (result d) as [c|] eqn:Hc; simpl; [|rewrite app_nil_r; by apply once_delete].
  destruct Ho. destruct (once_pending0 k d c Hd Hc) as [Hi Hn]. split.
  - apply NoDup_app. split; [done|]. split; [|auto with evd].
    intros x Hx ->%list_elem_of_singleton. done.
  - intros x [Hx| ->%list_elem_of_singleton]%elem_of_app; [by apply once_issued0|done].
  - intros k' d' c' [Hne Hk']%lookup_delete_Some Hc'. destruct (once_pending0 _ _ _ Hk' Hc') as [? Hn'].
    split; [done|]. rewrite not_elem_of_app, list_elem_of_singleton. split; [done|]. intros ->.
    apply Hne. eauto.
  - intros k1 k2 d1 d2 c' [_ H1]%lookup_delete_Some [_ H2]%lookup_delete_Some. eauto.
Qed.

Lemma once_insert_remote issued done m k rid ctx :
  once issued done m → once issued done (<[k := mkInvocation None rid ctx]> m).
Proof.
  intros []. split; try done.
  - intros k' d c [[<- <-]|[_ Hk]]%lookup_insert_Some; [done|]. eauto.
  - intros k1 k2 d1 d2 c [[<- <-]|[_ H1]]%lookup_insert_Some; [done|].
    intros [[<- <-]|[_ H2]]%lookup_insert_Some; [done|]. eauto.
Qed.

Lemma once_insert_call issued done m k call ctx :
  call ∉ issued → once issued done m →
  once (issued ++ [call]) done (<[k := mkInvocation (Some call) None ctx]> m).
Proof.
  intros Hn []. split; try done.
  - intros c Hc. apply elem_of_app; left. by apply once_issued0.
  - intros k' d c [[<- <-]|[_ Hk]]%lookup_insert_Some Hc; rewrite elem_of_app.
    + injection Hc as <-. split; [right; by left|]. intros Hd. by apply Hn, once_issued0.
    + destruct (once_pending0 _ _ _ Hk Hc). split; [by left|done].
  - intros k1 k2 d1 d2 c [[<- <-]|[_ H1]]%lookup_insert_Some; intros [[<- <-]|[_ H2]]%lookup_insert_Some;
      simpl; intros Hc1 Hc2; [done| | |by eauto]; exfalso; apply Hn.
    + injection Hc1 as ->. by destruct (once_pending0 _ _ _ H2 Hc2).
    + injection Hc2 as ->. by destruct (once_pending0 _ _ _ H1 Hc1).
Qed.

Lemma once_weaken issued done m c : once issued done m → once (issued ++ [c]) done m.
Proof.
  intros []. split; try done.
  - intros x Hx. apply elem_of_app; left. by apply once_issued0.
  - intros k d x Hk Hx. destruct (once_pending0 _ _ _ Hk Hx). split; [|done].
    apply elem_of_app. by left.
Qed.

(** A call that fails at once. *)
Lemma once_refuse issued done m call :
  call ∉ issued → once issued done m → once (issued ++ [call]) (done ++ [call]) m.
Proof.
  intros Hn []. split; [| | |done].
  - apply NoDup_app. split; [done|]. split; [|auto with evd].
    intros x Hx ->%list_elem_of_singleton. by apply Hn, once_issued0.
  - intros c [Hc|Hc]%elem_of_app; apply elem_of_app; [left; by apply once_issued0|by right].
  - intros k d c Hk Hc. destruct (once_pending0 _ _ _ Hk Hc) as [Hi Hd].
    split; [apply elem_of_app; by left|]. rewrite not_elem_of_app, list_elem_of_singleton.
    split; [done|]. by intros ->.
Qed.

(** What every operation must keep. *)
Definition keeps (issued issued' done : list nat) (r : EvdJsonrpcPrivate)
    (out : EvdJsonrpcPrivate * list effect) : Prop :=
  once issued done (invocations r) →
  once issued' (done ++ completions out.2) (invocations out.1).

Lemma keeps_nothing issued done r r' effs :
  completions effs = [] → invocations r' = invocations r → keeps issued issued done r (r', effs).
Proof. intros He Hr Ho. simpl. by rewrite He, Hr, app_nil_r. Qed.

Lemma transport_error_keeps issued done r id :
  keeps issued issued done r (evd_jsonrpc_transport_error r id).
Proof.
  unfold evd_jsonrpc_transport_error. destruct (_ !! _) as [d|] eqn:Hd; [|by apply keeps_nothing].
  intros Ho. pose proof (once_complete _ _ _ _ _ Ho Hd) as Hc. by destruct (result d).
Qed.

Lemma transport_write_keeps issued done r msg ctx id sent :
  keeps issued issued done r (evd_jsonrpc_transport_write r msg ctx id sent).
Proof.
  unfold evd_jsonrpc_transport_write.
  destruct ctx as [[p|o]|]; [destruct sent|destruct (send_cb r)..];
    (by apply keeps_nothing) || apply transport_error_keeps.
Qed.

Lemma call_method_keeps issued done r name params ctx call sent :
  call ∉ issued →
  keeps issued (issued ++ [call]) done r (evd_jsonrpc_call_method r name params ctx call sent).
Proof.
  intros Hn Ho. unfold evd_jsonrpc_call_method. destruct (_ && _); [by apply once_refuse|].
  apply transport_write_keeps. simpl. by apply once_insert_call.
Qed.

Lemma respond_full_keeps issued done r id res err sent :
  keeps issued issued done r (evd_jsonrpc_respond_full r id res err sent).1.
Proof.
  unfold evd_jsonrpc_respond_full. destruct (negb _); [by apply keeps_nothing|].
  destruct (_ !! _) as [d|]; [|by apply keeps_nothing].
  destruct (inv_context d) as [ctx|]; [|by apply keeps_nothing]. intros Ho.
  pose proof (transport_write_keeps issued done
    (set_invocations (delete (id_string id) (invocations r)) r)
    (evd_jsonrpc_build_message false "" (remote_id d) res err) (Some ctx) id sent
    (once_delete _ _ _ _ Ho)) as Hk.
  by destruct (evd_jsonrpc_transport_write _ _ _ _ _).
Qed.

Lemma send_notification_keeps issued done r name params ctx sent :
  keeps issued issued done r (evd_jsonrpc_send_notification r name params ctx sent).1.
Proof.
  unfold evd_jsonrpc_send_notification. destruct (_ && _); [by apply keeps_nothing|].
  pose proof (transport_write_keeps issued done r
    (evd_jsonrpc_build_message true name None params None) ctx 0 sent) as Hk.
  by destruct (evd_jsonrpc_transport_write _ _ _ _ _).
Qed.

Lemma on_method_called_keeps issued done r msg ctx :
  keeps issued issued done r (evd_jsonrpc_on_method_called r msg ctx).1.
Proof.
  unfold evd_jsonrpc_on_method_called.
  destruct (json_object_get_member msg "method") as [node|]; [|by apply keeps_nothing].
  destruct (json_object_get_member msg "params") as [args|]; [|by apply keeps_nothing].
  destruct (json_node_get_string node); [|by apply keeps_nothing].
  do 2 (destruct (negb _); [by apply keeps_nothing|]).
  intros Ho. simpl. destruct (method_call_cb r); simpl; rewrite app_nil_r; by apply once_insert_remote.
Qed.

Lemma on_method_result_keeps issued done r msg out :
  evd_jsonrpc_on_method_result r msg = Some out → keeps issued issued done r out.
Proof.
  unfold evd_jsonrpc_on_method_result.
  destruct (json_object_get_member msg "id" ≫= json_node_get_string) as [id|]; [|done]. run_bind.
  destruct (invocations r !! id) as [d|] eqn:Hd; [|intros [= <-]; by apply keeps_nothing].
  destruct (json_object_get_member msg "result") as [rn|]; [|done].
  destruct (json_object_get_member msg "error") as [en|]; [|done].
  intros [= <-] Ho. pose proof (once_complete _ _ _ _ _ Ho Hd) as Hc. by destruct (result d).
Qed.

Lemma on_json_packet_keeps issued done r packet out :
  evd_jsonrpc_on_json_packet r packet = Some out → keeps issued issued done r out.
Proof.
  unfold evd_jsonrpc_on_json_packet. destruct (json_parser_load_from_data packet) as [root|]; [|done].
  run_bind. destruct root; try (intros [= <-]; by apply keeps_nothing).
  destruct (json_object_get_member _ _) as [id|]; [|intros [= <-]; by apply keeps_nothing].
  destruct (_ && _); [by apply on_method_result_keeps|].
  destruct (_ && _); [|intros [= <-]; by apply keeps_nothing].
  destruct (negb _); intros E%(inj Some); subst out; [by apply on_method_called_keeps|].
  apply keeps_nothing; [|done]. unfold evd_jsonrpc_on_notification. by destruct (notification_cb r).
Qed.

Lemma on_packets_keeps issued evs : ∀ done r out,
  on_packets r evs = Some out → keeps issued issued done r out.
Proof.
  induction evs as [|[cb packet d|f d] evs IH]; intros done r out; cbn [on_packets].
  - intros [= <-]. by apply keeps_nothing.
  - destruct (evd_jsonrpc_on_json_packet r packet) as [[r1 e1]|] eqn:H1; [|done]. run_bind.
    destruct (on_packets r1 evs) as [[r2 e2]|] eqn:H2; [|done]. intros [= <-] Ho. simpl.
    rewrite completions_app, app_assoc. apply (IH _ _ _ H2). by apply (on_json_packet_keeps _ _ _ _ _ H1).
  - apply IH.
Qed.

Lemma transport_receive_keeps issued done r msg ctx id out :
  evd_jsonrpc_transport_receive r msg ctx id = Some out → keeps issued issued done r out.1.
Proof.
  unfold evd_jsonrpc_transport_receive. destruct (_ =? 0); [intros [= <-]; by apply keeps_nothing|].
  destruct (JsonFilter.evd_json_filter_feed_len _ _) as [[[f evs] err]|]; [|done]. run_bind.
  destruct (on_packets _ evs) as [[r1 e1]|] eqn:Hp; [|done]. run_bind.
  intros E Ho. pose proof (on_packets_keeps issued _ done _ _ Hp Ho) as H1.
  destruct err as [i|];
    [|apply (inj Some) in E as <-; cbn [fst snd]; by rewrite completions_app, app_nil_r].
  pose proof (transport_error_keeps issued (done ++ completions e1) (set_filter f r1) id H1) as H2.
  destruct (evd_jsonrpc_transport_error (set_filter f r1) id) as [r2 e2].
  apply (inj Some) in E as <-. cbn [fst snd]. by rewrite completions_app, app_assoc.
Qed.

Lemma exec_keeps issued done r o out :
  Forall (.∉ issued) (calls_of o) → exec r o = Some out →
  keeps issued (issued ++ calls_of o) done r out.
Proof.
  intros Hc. destruct o as [name params ctx call sent|id res err sent|name params ctx sent|msg ctx id|id];
    cbn [exec calls_of]; rewrite ?app_nil_r.
  - intros E%(inj Some); subst out. apply call_method_keeps. by inversion Hc.
  - intros E%(inj Some); subst out. apply respond_full_keeps.
  - intros E%(inj Some); subst out. apply send_notification_keeps.
  - destruct (evd_jsonrpc_transport_receive r msg ctx id) as [[out' ok]|] eqn:Hr; [|done].
    intros E%(inj Some); subst out. by apply (transport_receive_keeps _ _ _ _ _ _ _ Hr).
  - intros E%(inj Some); subst out. apply transport_error_keeps.
Qed.

Lemma calls_fresh (issued cs rest : list nat) : NoDup ((issued ++ cs) ++ rest) → Forall (.∉ issued) cs.
Proof.
  intros [Hn _]%NoDup_app. apply NoDup_app in Hn as (_ & Hd & _). apply Forall_forall.
  intros c Hc Hi. by apply (Hd c).
Qed.

Lemma exec_all_keeps ops : ∀ issued done r out,
  NoDup (issued ++ (ops ≫= calls_of)) → exec_all r ops = Some out →
  keeps issued (issued ++ (ops ≫= calls_of)) done r out.
Proof.
  induction ops as [|o ops IH]; intros issued done r out Hn; cbn [exec_all mbind list_bind].
  { intros [= <-]. rewrite app_nil_r. by apply keeps_nothing. }
  destruct (exec r o) as [[r1 e1]|] eqn:H1; [|done]. run_bind.
  destruct (exec_all r1 ops) as [[r2 e2]|] eqn:H2; [|done]. intros [= <-] Ho. simpl.
  rewrite completions_app, !app_assoc. cbn [mbind list_bind] in Hn. rewrite app_assoc in Hn.
  apply (IH _ _ _ _ Hn H2). apply (exec_keeps _ _ _ _ _ (calls_fresh _ _ _ Hn) H1 Ho).
Qed.

(** Whatever the remote side sends and in whatever order an endpoint is used, each call is
    completed at most once, and only calls that were made are completed. *)
Example call_completes_at_most_once (r r' : EvdJsonrpcPrivate) (ops : list op) (effs : list effect) :
  evd_jsonrpc_init = Some r → NoDup (ops ≫= calls_of) → exec_all r ops = Some (r', effs) →
  NoDup (completions effs) ∧ (∀ c, c ∈ completions effs → c ∈ (ops ≫= calls_of)) ∧
  (∀ k d c, invocations r' !! k = Some d → result d = Some c → c ∉ completions effs).
Proof.
  intros Hi Hn He. assert (invocations r = ∅) as Hr.
  { revert Hi. unfold evd_jsonrpc_init. destruct JsonFilter.evd_json_filter_init; [|done].
    run_bind. by intros [= <-]. }
  destruct (exec_all_keeps ops [] [] r _ Hn He) as [H1 H2 H3 H4]; simpl in *.
  - rewrite Hr. split; try (intros; set_solver). constructor.
  - split; [done|]. split; [done|]. intros k d c Hk Hc. by destruct (H3 _ _ _ Hk Hc).
Qed.

End Once.

(** ** A concrete JSON library

    A generator for nodes whose strings need no escape, and a parser that knows three messages. *)
Definition quoted (s : string) : list Z := 34 :: codes s ++ [34].

Fixpoint commas (l : list (list Z)) : list Z :=
  match l with
  | [] => []
  | [w] => w
  | w :: l => w ++ 44 :: commas l
  end.

Fixpoint print (n : JsonNode) : list Z :=
  match n with
  | JsonNull => [110; 117; 108; 108]
  | JsonString s => quoted s
  | JsonValue v => v
  | JsonArray l => 91 :: commas (map print l) ++ [93]
  | JsonObject members =>
      123 :: commas (map (λ '(k, v), quoted k ++ 58 :: print v) members) ++ [125]
  end.

Definition ping : JsonNode :=
  message_node true "ping" (Some (JsonString "1")) (Some (JsonArray [JsonNull])) None.
Definition pong : JsonNode := response_node "1" (inl (JsonString "pong")).

Definition stray_members : list (string * JsonNode) :=
  [("id", JsonNull); ("error", JsonNull); ("result", JsonNull)].

#[local] Instance tiny_json : JsonGlib := {|
  json_generator_to_data := print;
  json_parser_load_from_data :=
    λ bs, if decide (bs = print ping) then Some ping
          else if decide (bs = print pong) then Some pong
          else if decide (bs = print (JsonObject stray_members)) then Some (JsonObject stray_members)
          else None
|}.

Lemma quoted_ok s : Forall JsonGrammar.plain (codes s) → JsonGrammar.str (quoted s).
Proof. intros Hs. apply JsonGrammar.str_quoted. induction Hs; by constructor. Qed.

Lemma tight_member n k v :
  JsonGrammar.str k → JsonGrammar.value n v → JsonGrammar.member n (k ++ 58 :: v).
Proof.
  intros Hk Hv. pose proof (JsonGrammar.me_pair n [] k [] [] v []) as Hm. simpl in Hm.
  rewrite app_nil_r in Hm. by apply Hm; auto with evd.
Qed.

(** Objects of three members without white space. *)
Lemma object3_text n k1 v1 k2 v2 k3 v3 :
  JsonGrammar.str k1 → JsonGrammar.value n v1 → JsonGrammar.str k2 → JsonGrammar.value n v2 →
  JsonGrammar.str k3 → JsonGrammar.value n v3 → Z.of_nat (S n) < JsonFilter.MAX_DEPTH →
  JsonGrammar.well_formed_part ([], 123 :: commas [k1 ++ 58 :: v1; k2 ++ 58 :: v2; k3 ++ 58 :: v3] ++ [125]).
Proof.
  intros. split; [apply Forall_nil_2|]. exists (S n). split; [|done].
  apply JsonGrammar.text_object, JsonGrammar.oi_members, JsonGrammar.me_more;
    [by apply tight_member|].
  apply JsonGrammar.me_more; [by apply tight_member|]. by apply JsonGrammar.me_one, tight_member.
Qed.

#[local] Instance plain_dec c : Decision (JsonGrammar.plain c).
Proof. unfold JsonGrammar.plain. apply _. Defined.

Ltac quoted_string := apply quoted_ok; refine (bool_decide_unpack _ _); vm_compute; exact I.
Ltac no_nul := vm_compute; repeat (apply not_elem_of_cons; split; [done|]); apply not_elem_of_nil.

Lemma ping_ok : wire_ok ping.
Proof.
  split; [|split; [no_nul|reflexivity]].
  apply (object3_text 1 (quoted "id") (quoted "1") (quoted "method") (quoted "ping")
           (quoted "params") (print (JsonArray [JsonNull]))); try quoted_string; try done.
  all: try (apply JsonGrammar.v_scalar, JsonGrammar.sc_str; quoted_string).
  apply (JsonGrammar.v_array 0 [110; 117; 108; 108]), JsonGrammar.ai_elements.
  apply (JsonGrammar.el_one 0 [] [110; 117; 108; 108] []); auto with evd.
  apply JsonGrammar.v_scalar, JsonGrammar.sc_null.
Qed.

Lemma pong_ok : wire_ok pong.
Proof.
  split; [|split; [no_nul|reflexivity]].
  apply (object3_text 0 (quoted "id") (quoted "1") (quoted "error") (print JsonNull)
           (quoted "result") (quoted "pong")); try quoted_string; try done.
  all: try (apply JsonGrammar.v_scalar, JsonGrammar.sc_str; quoted_string).
  apply JsonGrammar.v_scalar, JsonGrammar.sc_null.
Qed.

(** An endpoint as [evd_jsonrpc_init] leaves it, with callback 5 for the method calls. *)
Definition endpoint : EvdJsonrpcPrivate :=
  match evd_jsonrpc_init with
  | Some r => evd_jsonrpc_set_callbacks r (Some 5%nat) None
  | None => mkRpc 0 None ∅ (JsonFilter.mkFilter JsonFilter.GO 0 0 [] 0 [] None None None) None None None
  end.

Lemma init_ready : ∃ r, evd_jsonrpc_init = Some r ∧ ready r ∧ invocations r = ∅.
Proof.
  destruct JsonFilterSpec.init_fresh as (f & Hf & Hr). unfold evd_jsonrpc_init. rewrite Hf.
  eexists; split; [done|]. split; [|done]. split; [|done].
  by apply JsonFilterSpec.set_packet_handler_fresh.
Qed.

Lemma endpoint_ready : ready endpoint.
Proof. unfold endpoint. by destruct init_ready as (r & -> & [] & _). Qed.

Lemma call_roundtrip_witness :
  ∃ a1 a2 b1 b2 request response,
    evd_jsonrpc_call_method endpoint "ping" (Some (JsonArray [JsonNull])) (Some (Peer 1)) 9 true =
      (a1, [SendText 1 request]) ∧
    transport_on_receive endpoint 2 request =
      Some (b1, [MethodCall 5 "ping" (JsonArray [JsonNull]) 1 (Some (Peer 2))]) ∧
    reply b1 1 (inl (JsonString "pong")) true = (b2, [SendText 2 response], (true, None)) ∧
    transport_on_receive a1 1 response =
      Some (a2, [CallDone 9 (MethodResponse (Some (JsonString "pong")) None)]) ∧
    invocations a2 = invocations endpoint ∧ invocations b2 = invocations endpoint ∧
    ready a2 ∧ ready b2.
Proof.
  apply (call_roundtrip endpoint endpoint "ping" (Some (JsonArray [JsonNull])) 9 1 2 5
           (inl (JsonString "pong")) endpoint_ready endpoint_ready).
  - reflexivity.
  - reflexivity.
  - intros v [= <-]. discriminate.
  - vm_compute. reflexivity.
  - vm_compute. reflexivity.
  - vm_compute. reflexivity.
  - exact ping_ok.
  - exact pong_ok.
Defined.

Lemma stray_ok : wire_ok (JsonObject stray_members).
Proof.
  split; [|split; [no_nul|reflexivity]].
  apply (object3_text 0 (quoted "id") (print JsonNull) (quoted "error") (print JsonNull)
           (quoted "result") (print JsonNull)); try quoted_string; try done.
  all: apply JsonGrammar.v_scalar, JsonGrammar.sc_null.
Qed.

Lemma receive_crashes_iff_witness :
  evd_jsonrpc_transport_receive endpoint (json_generator_to_data (JsonObject stray_members))
    (Some (Peer 1)) 0 = None ↔
  json_object_has_member stray_members "result" = true ∧
  json_object_has_member stray_members "error" = true ∧
  ∃ n, json_object_get_member stray_members "id" = Some n ∧ json_node_get_string n = None.
Proof. apply (receive_crashes_iff endpoint stray_members (Some (Peer 1)) 0 endpoint_ready stray_ok). Defined.

(** A call, its response, and the same response again. *)
Definition example_ops : list op :=
  [OpCall "ping" (Some (JsonArray [JsonNull])) (Some (Peer 1)) 9 true;
   OpReceive (print pong) (Some (Peer 1)) 0; OpReceive (print pong) (Some (Peer 1)) 0].

Definition new_endpoint : EvdJsonrpcPrivate := default endpoint evd_jsonrpc_init.

Lemma call_completes_at_most_once_witness :
  ∃ r' effs, exec_all new_endpoint example_ops = Some (r', effs) ∧ completions effs = [9%nat] ∧
  NoDup (completions effs) ∧ (∀ c, c ∈ completions effs → c ∈ (example_ops ≫= calls_of)) ∧
  (∀ k d c, invocations r' !! k = Some d → result d = Some c → c ∉ completions effs).
Proof.
  destruct (exec_all new_endpoint example_ops) as [[r' effs]|] eqn:He; [|vm_compute in He; discriminate He].
  exists r', effs. split; [reflexivity|]. split.
  - vm_compute in He. injection He as _ <-. reflexivity.
  - apply (call_completes_at_most_once new_endpoint r' example_ops effs).
    + vm_compute. reflexivity.
    + apply NoDup_singleton.
    + exact He.
Defined.

(** ** The shared table

    Invocations made here and invocations received share one table and one counter. *)

(** Answering the id of a call made here sends a response nobody asked for and loses the call. *)
Example respond_drops_pending_call :
  let r := (evd_jsonrpc_call_method new_endpoint "ping" None (Some (Peer 1)) 9 true).1 in
  let '(r', effs, ok) := evd_jsonrpc_respond r 1 (Some JsonNull) true in
  invocations r !! "1" = Some (mkInvocation (Some 9%nat) None (Some (Peer 1))) ∧
  invocations r' = ∅ ∧ ok = (true, None) ∧ completions effs = [].
Proof. vm_compute. repeat split. Qed.

(** A response that names an invocation received from the remote side erases it: it cannot be
    answered any more. *)
Example stray_response_erases_invocation :
  (λ '(r, _), (evd_jsonrpc_respond r 1 (Some JsonNull) true).2) <$>
    exec_all new_endpoint [OpReceive (print ping) (Some (Peer 1)) 0;
                           OpReceive (print pong) (Some (Peer 1)) 0]
  = Some (false, Some IO_ERROR_INVALID_ARGUMENT).
Proof. vm_compute. reflexivity. Qed.

End JsonrpcSpec.
