(* ===== verification/HttpScan.v ===== *)
(** * The end of the HTTP headers

    [evd_http_connection_find_end_headers_mark] of src/evd/evd-http-connection.c looks for an empty
    line with jumps of four characters forward and short steps back.  The file gives the loop, shows
    how much fuel decides whether it stops at all, that on well-formed headers it agrees with the
    plain search for the first mark, and a text on which it never stops. *)
From S2P Require Import Prelude.

Module HttpScan.

Definition CR : Z := 13.
Definition LF : Z := 10.

(** [buf->str[i]]: a [GString] has a NUL after its [len] characters. *)
Definition str_at (buf : list Z) (i : Z) : Z := default 0 (buf !! Z.to_nat i).

Definition is_crlf (c : Z) : bool := (c =? CR) || (c =? LF).

Inductive scan_result := Goes (i : Z) | Found (pos : Z).

(** The body of the loop, for [i < buf->len]. *)
Definition scan_step (buf : list Z) (i : Z) : scan_result :=
  if negb (is_crlf (str_at buf i)) then Goes (i + 4)
  else if negb (is_crlf (str_at buf (i + 1))) then Goes (i - 3)
  else if (str_at buf (i + 2) =? CR) && (str_at buf (i + 3) =? LF) then
    if (str_at buf i =? CR) && (str_at buf (i + 1) =? LF) then Found (i + 4) else Goes (i + 4)
  else Goes (i - 1).

(** [i < buf->len] compares a [gint] with a [gsize]: a negative [i] is not less. *)
Definition in_buf (buf : list Z) (i : Z) : bool := (0 <=? i) && (i <? Z.of_nat (length buf)).

Fixpoint scan_loop (fuel : nat) (buf : list Z) (i : Z) : option Z :=
  if in_buf buf i then
    match fuel with
    | O => None
    | S fuel =>
        match scan_step buf i with
        | Found pos => Some pos
        | Goes i => scan_loop fuel buf i
        end
    end
  else Some (-1).

(** [None] means that the loop does not stop: one turn per character decides it. *)
Definition evd_http_connection_find_end_headers_mark (buf : list Z) (last_pos : Z) : option Z :=
  scan_loop (length buf) buf last_pos.

(** ** Fuel *)

Lemma in_buf_spec buf i : in_buf buf i = true ↔ 0 <= i < Z.of_nat (length buf).
Proof. unfold in_buf. rewrite andb_true_iff, Z.leb_le, Z.ltb_lt. lia. Qed.

Lemma scan_loop_more fuel fuel' buf i r :
  scan_loop fuel buf i = Some r → (fuel <= fuel')%nat → scan_loop fuel' buf i = Some r.
Proof.
  revert fuel' i. induction fuel as [|fuel IH]; intros [|fuel'] i; simpl; try done.
  - by destruct (in_buf buf i).
  - lia.
  - destruct (in_buf buf i); [|done]. destruct (scan_step buf i); [|done]. intros. apply IH; [done|lia].
Qed.

(** The positions a run goes through. *)
Fixpoint visited (fuel : nat) (buf : list Z) (i : Z) : list Z :=
  match fuel with
  | O => []
  | S fuel =>
      if in_buf buf i then
        i :: match scan_step buf i with Goes i => visited fuel buf i | Found _ => [] end
      else []
  end.

(** From a position a stopping run meets again, it would meet it for ever. *)
Lemma visited_stops fuel buf i j r :
  scan_loop fuel buf i = Some r → j ∈ visited fuel buf i → ∃ fuel', (fuel' <= fuel)%nat ∧
    scan_loop fuel' buf j = Some r.
Proof.
  revert i. induction fuel as [|fuel IH]; intros i; simpl; [intros _ ?; by apply not_elem_of_nil in H|].
  destruct (in_buf buf i) eqn:Hi; [|intros _ ?; by apply not_elem_of_nil in H].
  destruct (scan_step buf i) as [i'|pos] eqn:Hs; intros Hr; rewrite elem_of_cons.
  - intros [->|Hj].
    + exists (S fuel). split; [lia|]. simpl. by rewrite Hi, Hs.
    + destruct (IH i' Hr Hj) as (f & ? & ?). exists f. split; [lia|done].
  - intros [->|?]; [|by apply not_elem_of_nil in H].
    exists (S fuel). split; [lia|]. simpl. by rewrite Hi, Hs.
Qed.

Lemma scan_loop_minimal fuel buf i r :
  scan_loop fuel buf i = Some r →
  ∃ n, (n <= fuel)%nat ∧ scan_loop n buf i = Some r ∧ (∀ m, (m < n)%nat → scan_loop m buf i = None).
Proof.
  induction fuel as [|fuel IH]; intros Hr; [exists O; split; [lia|]; split; [done|]; lia|].
  destruct (scan_loop fuel buf i) as [r'|] eqn:Hf.
  - pose proof (scan_loop_more _ (S fuel) _ _ _ Hf) as Hm.
    rewrite Hm in Hr by lia. apply (inj Some) in Hr as ->.
    destruct (IH eq_refl) as (n & ? & ? & ?). exists n. split; [lia|done].
  - exists (S fuel). split; [lia|]. split; [done|]. intros m Hm.
    destruct (scan_loop m buf i) as [r'|] eqn:E; [|done].
    rewrite (scan_loop_more m fuel buf i r' E) in Hf by lia. done.
Qed.

(** [n] is the least fuel with which the run stops. *)
Definition least (n : nat) (buf : list Z) (i r : Z) : Prop :=
  scan_loop n buf i = Some r ∧ ∀ m, (m < n)%nat → scan_loop m buf i = None.

Lemma least_S n buf i r :
  least (S n) buf i r →
  in_buf buf i = true ∧
  ((∃ i', scan_step buf i = Goes i' ∧ least n buf i' r) ∨ (scan_step buf i = Found r ∧ n = O)).
Proof.
  intros [Hr Hm]. destruct (in_buf buf i) eqn:Hi.
  2:{ specialize (Hm O ltac:(lia)). simpl in Hm. by rewrite Hi in Hm. }
  split; [done|]. simpl in Hr. rewrite Hi in Hr. destruct (scan_step buf i) as [i'|pos] eqn:Hs.
  - left. exists i'. split; [done|]. split; [done|]. intros m Hlt.
    specialize (Hm (S m) ltac:(lia)). simpl in Hm. by rewrite Hi, Hs in Hm.
  - right. apply (inj Some) in Hr as ->. split; [done|]. destruct n; [done|].
    specialize (Hm 1%nat ltac:(lia)). simpl in Hm. by rewrite Hi, Hs in Hm.
Qed.

Lemma least_visited n : ∀ buf i r,
  least n buf i r →
  length (visited n buf i) = n ∧ NoDup (visited n buf i) ∧
  Forall (λ j, 0 <= j < Z.of_nat (length buf)) (visited n buf i).
Proof.
  induction n as [|n IH]; intros buf i r Hl; [simpl; split_and!; [done|constructor|constructor]|].
  pose proof Hl as [Hr Hm]. apply least_S in Hl as [Hi Hs]. pose proof Hi as Hin.
  apply in_buf_spec in Hin. simpl. rewrite Hi.
  destruct Hs as [(i' & Hs & Hl')|[Hs ->]]; rewrite Hs.
  - destruct (IH _ _ _ Hl') as (Hlen & Hn & Hf). split_and!; [simpl; lia| |by constructor].
    constructor; [|done]. intros Hv. destruct Hl' as [Hr' _].
    destruct (visited_stops _ _ _ _ _ Hr' Hv) as (f & Hle & Hf').
    rewrite Hm in Hf' by lia. done.
  - split_and!; [done|apply NoDup_singleton|by constructor].
Qed.

Lemma bounded_nodup_length (l : list Z) (n : nat) :
  NoDup l → Forall (λ j, 0 <= j < Z.of_nat n) l → (length l <= n)%nat.
Proof.
  intros Hn Hf. rewrite <-(length_fmap Z.to_nat l), <-(length_seq n 0) at 1.
  apply submseteq_length, NoDup_submseteq.
  - apply NoDup_fmap_2_strong; [|done]. intros x y Hx Hy E.
    rewrite Forall_forall in Hf. pose proof (Hf x Hx). pose proof (Hf y Hy). lia.
  - intros k Hk. apply list_elem_of_fmap in Hk as (j & -> & Hj). apply elem_of_seq.
    rewrite Forall_forall in Hf. pose proof (Hf j Hj). lia.
Qed.

(** One turn per character is enough: a run that does not stop with that fuel never stops. *)
Lemma scan_fuel_enough fuel buf i r :
  scan_loop fuel buf i = Some r → evd_http_connection_find_end_headers_mark buf i = Some r.
Proof.
  intros Hr. destruct (scan_loop_minimal _ _ _ _ Hr) as (n & _ & Hl).
  destruct (least_visited n buf i r Hl) as (Hlen & Hn & Hf).
  apply (scan_loop_more n); [apply Hl|]. rewrite <-Hlen. by apply bounded_nodup_length.
Qed.

(** ** Well-formed headers *)

Definition stops (buf : list Z) (i r : Z) : Prop := ∃ fuel, scan_loop fuel buf i = Some r.

Definition mark_at (buf : list Z) (p : Z) : Prop :=
  0 <= p ∧ str_at buf p = CR ∧ str_at buf (p + 1) = LF ∧ str_at buf (p + 2) = CR ∧ str_at buf (p + 3) = LF.

(** A character that belongs to a line. *)
Definition plain (c : Z) : Prop := c ≠ CR ∧ c ≠ LF.

Lemma is_crlf_spec c : is_crlf c = true ↔ c = CR ∨ c = LF.
Proof. unfold is_crlf. by rewrite orb_true_iff, !Z.eqb_eq. Qed.
Lemma is_crlf_plain c : is_crlf c = false ↔ plain c.
Proof. unfold is_crlf, plain. by rewrite orb_false_iff, !Z.eqb_neq. Qed.

(** Up to [n], lines end with both characters and have two characters at least, empty lines apart. *)
Record clean (buf : list Z) (n : Z) : Prop := mkClean {
  clean_cr : ∀ j, 0 <= j → j + 1 < n → str_at buf j = CR → str_at buf (j + 1) = LF;
  clean_lf : ∀ j, 0 <= j < n → str_at buf j = LF → 1 <= j ∧ str_at buf (j - 1) = CR;
  clean_line : ∀ j, 0 <= j < n → str_at buf j = CR → 2 <= j ∧
    (str_at buf (j - 1) = LF ∨ plain (str_at buf (j - 1)) ∧ plain (str_at buf (j - 2)))
}.

Section Steps.
Context (buf : list Z) (r : Z).
Implicit Types i : Z.

Lemma stops_out i : ¬ (0 <= i < Z.of_nat (length buf)) → stops buf i (-1).
Proof. intros Hi. exists O. simpl. destruct (in_buf buf i) eqn:E; [|done]. by apply in_buf_spec in E. Qed.

Lemma stops_step i i' :
  0 <= i < Z.of_nat (length buf) → scan_step buf i = Goes i' → stops buf i' r → stops buf i r.
Proof. intros Hi Hs [f Hf]. exists (S f). simpl. by rewrite (proj2 (in_buf_spec _ _) Hi), Hs. Qed.

Lemma stops_plain i :
  0 <= i < Z.of_nat (length buf) → plain (str_at buf i) → stops buf (i + 4) r → stops buf i r.
Proof.
  intros Hi Hp. apply stops_step; [done|]. unfold scan_step. by rewrite (proj2 (is_crlf_plain _) Hp).
Qed.

Lemma stops_alone i :
  0 <= i < Z.of_nat (length buf) → str_at buf i = CR ∨ str_at buf i = LF →
  plain (str_at buf (i + 1)) → stops buf (i - 3) r → stops buf i r.
Proof.
  intros Hi Hc%is_crlf_spec Hp%is_crlf_plain. apply stops_step; [done|]. unfold scan_step.
  by rewrite Hc, Hp.
Qed.

Lemma stops_back i :
  0 <= i < Z.of_nat (length buf) → str_at buf i = CR ∨ str_at buf i = LF →
  str_at buf (i + 1) = CR ∨ str_at buf (i + 1) = LF →
  ¬ (str_at buf (i + 2) = CR ∧ str_at buf (i + 3) = LF) → stops buf (i - 1) r → stops buf i r.
Proof.
  intros Hi Hc%is_crlf_spec Hp%is_crlf_spec Hn. apply stops_step; [done|]. unfold scan_step.
  rewrite Hc, Hp. simpl. destruct (_ && _) eqn:E; [|done].
  by rewrite andb_true_iff, !Z.eqb_eq in E.
Qed.

Lemma str_at_bound i : str_at buf i ≠ 0 → 0 <= i → i < Z.of_nat (length buf).
Proof.
  unfold str_at. destruct (buf !! Z.to_nat i) eqn:E; [|done]. apply lookup_lt_Some in E. lia.
Qed.

Lemma stops_found i : mark_at buf i → stops buf i (i + 4).
Proof.
  intros (Hi & H0 & H1 & H2 & H3). exists 1%nat. simpl.
  rewrite (proj2 (in_buf_spec _ _)); [|split; [done|apply str_at_bound; [by rewrite H0|done]]].
  unfold scan_step. by rewrite H0, H1, H2, H3.
Qed.

End Steps.

(** The jumps out of the end of a line, when the line is not empty. *)
Lemma stops_line_end buf n i r :
  clean buf n → n <= Z.of_nat (length buf) → 0 <= i < n → str_at buf i = LF →
  plain (str_at buf (i + 1)) → ¬ mark_at buf (i - 3) → stops buf (i + 1) r → stops buf i r.
Proof.
  intros [Hcr Hlf Hline] Hn Hi Hc Hp Hm Hs. destruct (Hlf i Hi Hc) as [H1 Hprev].
  destruct (Hline (i - 1) ltac:(lia) Hprev) as [H2 Hl].
  apply stops_alone; [lia|by right|done|].
  replace (i - 1 - 1) with (i - 2) in Hl by lia. replace (i - 1 - 2) with (i - 3) in Hl by lia.
  destruct Hl as [Hl|[Ha Hb]].
  - destruct (Hlf (i - 2) ltac:(lia) Hl) as [_ Hq]. replace (i - 2 - 1) with (i - 3) in Hq by lia.
    exfalso. apply Hm. split; [lia|]. replace (i - 3 + 1) with (i - 2) by lia.
    replace (i - 3 + 2) with (i - 1) by lia. by replace (i - 3 + 3) with i by lia.
  - apply stops_plain; [lia|done|]. by replace (i - 3 + 4) with (i + 1) by lia.
Qed.

Lemma stops_line_cr buf n i r :
  clean buf n → n <= Z.of_nat (length buf) → 0 <= i → i + 1 < n → str_at buf i = CR →
  ¬ mark_at buf i → ¬ mark_at buf (i - 2) → stops buf (i + 3) r → stops buf i r.
Proof.
  intros [Hcr Hlf Hline] Hn Hi Hi' Hc Hm Hm2 Hs. pose proof (Hcr i Hi Hi' Hc) as Hnext.
  destruct (Hline i ltac:(lia) Hc) as [H2 Hl].
  apply stops_back; [lia|by left|by right|intros []; by apply Hm; split_and!|].
  destruct Hl as [Hl|[Ha Hb]].
  - destruct (Hlf (i - 1) ltac:(lia) Hl) as [_ Hq]. replace (i - 1 - 1) with (i - 2) in Hq by lia.
    exfalso. apply Hm2. split; [lia|]. replace (i - 2 + 1) with (i - 1) by lia.
    replace (i - 2 + 2) with i by lia. by replace (i - 2 + 3) with (i + 1) by lia.
  - apply stops_plain; [lia|done|]. by replace (i - 1 + 4) with (i + 3) by lia.
Qed.

Lemma crlf_cases c : c = CR ∨ c = LF ∨ plain c.
Proof. unfold plain. destruct (decide (c = CR)), (decide (c = LF)); tauto. Qed.

(** A line feed before the end of the clean part is followed by a character or by the mark's end. *)
Lemma after_lf buf n i :
  clean buf n → 0 <= i → i + 1 < n → str_at buf i = LF →
  plain (str_at buf (i + 1)) ∨ str_at buf (i + 1) = CR.
Proof.
  intros [Hcr Hlf _] Hi Hn Hc. destruct (crlf_cases (str_at buf (i + 1))) as [|[Hx|]]; [by right| |by left].
  destruct (Hlf (i + 1) ltac:(lia) Hx) as [_ Hy]. replace (i + 1 - 1) with i in Hy by lia.
  rewrite Hc in Hy. done.
Qed.

(** The first mark is found from any start that is not beyond it. *)
Lemma first_mark_found buf p :
  mark_at buf p → clean buf (p + 4) → plain (str_at buf (p + 4)) →
  (∀ q, q < p → ¬ mark_at buf q) →
  ∀ k i, Z.to_nat (p + 4 - i) = k → 0 <= i <= p + 3 → stops buf i (p + 4).
Proof.
  intros Hm Hc Hend Hfirst. pose proof (stops_found _ _ Hm) as Hat.
  pose proof Hm as (Hp & H0 & H1 & H2 & H3).
  assert (p + 4 <= Z.of_nat (length buf)) as Hlen.
  { pose proof (str_at_bound buf (p + 3)) as Hb. rewrite H3 in Hb. specialize (Hb ltac:(done)). lia. }
  assert (stops buf (p + 1) (p + 4)) as Hat1.
  { apply stops_back; [lia|by right| | |].
    - left. by replace (p + 1 + 1) with (p + 2) by lia.
    - replace (p + 1 + 2) with (p + 3) by lia. rewrite H3. by intros [? _].
    - by replace (p + 1 - 1) with p by lia. }
  induction k as [k IH] using lt_wf_ind. intros i Hk Hi.
  destruct (decide (i < p)) as [Hlt|Hge].
  - destruct (crlf_cases (str_at buf i)) as [Hx|[Hx|Hx]].
    + apply (stops_line_cr buf (p + 4)); try done; [lia..|by apply Hfirst|apply Hfirst; lia|].
      apply (IH (Z.to_nat (p + 4 - (i + 3)))); lia.
    + destruct (after_lf buf (p + 4) i Hc) as [Hn|Hn]; [lia..|done| |].
      * apply (stops_line_end buf (p + 4)); try done; [lia..|apply Hfirst; lia|].
        apply (IH (Z.to_nat (p + 4 - (i + 1)))); lia.
      * exfalso. apply (Hfirst (i - 1)); [lia|]. destruct (clean_lf _ _ Hc i) as [? Hq]; [lia|done|].
        split; [lia|]. replace (i - 1 + 1) with i by lia. replace (i - 1 + 2) with (i + 1) by lia.
        replace (i - 1 + 3) with (i + 1 + 1) by lia.
        split_and!; try done. apply (clean_cr _ _ Hc); [lia..|done].
    + apply stops_plain; [lia|done|]. apply (IH (Z.to_nat (p + 4 - (i + 4)))); lia.
  - assert (i = p ∨ i = p + 1 ∨ i = p + 2 ∨ i = p + 3) as [->|[->|[->| ->]]] by lia; [done|done| |].
    + apply stops_back; [lia|by left| | |].
      * right. by replace (p + 2 + 1) with (p + 3) by lia.
      * replace (p + 2 + 2) with (p + 4) by lia. intros [E _]. by destruct Hend.
      * by replace (p + 2 - 1) with (p + 1) by lia.
    + apply stops_alone; [lia|by right|by replace (p + 3 + 1) with (p + 4) by lia|].
      by replace (p + 3 - 3) with p by lia.
Qed.

(** Without a mark the search ends, with nothing found, wherever the text is cut. *)
Lemma cut_line_end buf i :
  clean buf (i + 1) → Z.of_nat (length buf) = i + 1 → 0 <= i → str_at buf i = CR →
  (∀ q, ¬ mark_at buf q) → stops buf i (-1).
Proof.
  intros Hc Hn Hi Hx Hno. pose proof Hc as [Hcr Hlf Hline].
  assert (str_at buf (i + 1) = 0) as Hnul.
  { unfold str_at. rewrite lookup_ge_None_2; [done|lia]. }
  destruct (Hline i ltac:(lia) Hx) as [H2 Hl].
  apply stops_alone; [lia|by left|by rewrite Hnul|]. destruct (decide (i - 3 < 0)).
  { apply stops_out. lia. }
  assert (∀ j, 0 <= j < i → plain (str_at buf j) → i <= j + 3 → stops buf j (-1)) as Hout.
  { intros j Hj Hpl Hle. apply stops_plain; [lia|done|]. apply stops_out. lia. }
  destruct Hl as [Hl|[Ha Hb]].
  - destruct (Hlf (i - 1) ltac:(lia) Hl) as [? Hq]. replace (i - 1 - 1) with (i - 2) in Hq by lia.
    destruct (Hline (i - 2) ltac:(lia) Hq) as [? Hl2].
    replace (i - 2 - 1) with (i - 3) in Hl2 by lia. destruct Hl2 as [Hl2|[Ha _]]; [|apply Hout; [lia|done|lia]].
    destruct (Hlf (i - 3) ltac:(lia) Hl2) as [? Hq2]. exfalso. apply (Hno (i - 4)).
    split; [lia|]. replace (i - 4 + 1) with (i - 3) by lia. replace (i - 4 + 2) with (i - 2) by lia.
    replace (i - 4 + 3) with (i - 1) by lia. by replace (i - 3 - 1) with (i - 4) in Hq2 by lia.
  - destruct (crlf_cases (str_at buf (i - 3))) as [Hy|[Hy|Hy]]; [| |apply Hout; [lia|done|lia]].
    + apply Hcr in Hy; [|lia..]. replace (i - 3 + 1) with (i - 2) in Hy by lia. by destruct Hb.
    + apply stops_alone; [lia|by right|by replace (i - 3 + 1) with (i - 2) by lia|].
      replace (i - 3 - 3) with (i - 6) by lia. destruct (Hlf (i - 3) ltac:(lia) Hy) as [? Hq].
      replace (i - 3 - 1) with (i - 4) in Hq by lia.
      destruct (Hline (i - 4) ltac:(lia) Hq) as [? [Hl2|[_ Hl2]]].
      * replace (i - 4 - 1) with (i - 5) in Hl2 by lia.
        destruct (Hlf (i - 5) ltac:(lia) Hl2) as [? Hq2]. exfalso. apply (Hno (i - 6)).
        split; [lia|]. replace (i - 6 + 1) with (i - 5) by lia. replace (i - 6 + 2) with (i - 4) by lia.
        replace (i - 6 + 3) with (i - 3) by lia. by replace (i - 5 - 1) with (i - 6) in Hq2 by lia.
      * replace (i - 4 - 2) with (i - 6) in Hl2 by lia. destruct (decide (i - 6 < 0)).
        { apply stops_out. lia. }
        apply stops_plain; [lia|done|]. replace (i - 6 + 4) with (i - 2) by lia.
        apply Hout; [lia|done|lia].
Qed.

Lemma str_at_end buf : str_at buf (Z.of_nat (length buf)) = 0.
Proof. unfold str_at. rewrite lookup_ge_None_2; [done|lia]. Qed.

Lemma cut_second_line_end buf i :
  clean buf (i + 2) → Z.of_nat (length buf) = i + 2 → 0 <= i → str_at buf i = LF →
  str_at buf (i + 1) = CR → (∀ q, ¬ mark_at buf q) → stops buf i (-1).
Proof.
  intros [Hcr Hlf Hline] Hn Hi Hx Hy Hno. pose proof (str_at_end buf) as Hnul. rewrite Hn in Hnul.
  destruct (Hlf i ltac:(lia) Hx) as [? Hp]. destruct (Hline (i - 1) ltac:(lia) Hp) as [? Hl].
  replace (i - 1 - 1) with (i - 2) in Hl by lia.
  apply stops_back; [lia|by right|by left|by rewrite Hnul; intros []|].
  apply stops_back; [lia|by left|right; by replace (i - 1 + 1) with i by lia| |].
  { replace (i - 1 + 3) with (i + 2) by lia. rewrite Hnul. by intros []. }
  replace (i - 1 - 1) with (i - 2) by lia. destruct Hl as [Hl|[Ha _]].
  - destruct (Hlf (i - 2) ltac:(lia) Hl) as [? Hq]. exfalso. apply (Hno (i - 3)).
    replace (i - 2 - 1) with (i - 3) in Hq by lia. split; [lia|].
    replace (i - 3 + 1) with (i - 2) by lia. replace (i - 3 + 2) with (i - 1) by lia.
    by replace (i - 3 + 3) with i by lia.
  - apply stops_plain; [lia|done|]. apply stops_out. lia.
Qed.

Lemma no_mark_not_found buf :
  clean buf (Z.of_nat (length buf)) → (∀ q, ¬ mark_at buf q) →
  ∀ k i, Z.to_nat (Z.of_nat (length buf) - i) = k → 0 <= i → stops buf i (-1).
Proof.
  intros Hc Hno. induction k as [k IH] using lt_wf_ind. intros i Hk Hi.
  pose proof (str_at_end buf) as Hnul. set (n := Z.of_nat (length buf)) in *.
  destruct (decide (i < n)) as [Hin|]; [|apply stops_out; lia].
  assert (∀ j, i < j → stops buf j (-1)) as Hnext.
  { intros j Hj. destruct (decide (j < n)); [|apply stops_out; lia].
    apply (IH (Z.to_nat (n - j))); lia. }
  destruct (crlf_cases (str_at buf i)) as [Hx|[Hx|Hx]].
  - destruct (decide (i + 1 = n)) as [E|].
    + rewrite <-E in Hc. by apply cut_line_end.
    + apply (stops_line_cr buf n); try done; [lia|]. apply Hnext. lia.
  - destruct (decide (i + 1 = n)) as [E|].
    + apply (stops_line_end buf n); try done; [by rewrite E, Hnul|]. apply Hnext. lia.
    + destruct (after_lf buf n i Hc) as [Hn|Hn]; [lia..|done| |].
      * apply (stops_line_end buf n); try done. apply Hnext. lia.
      * destruct (decide (i + 2 = n)) as [E|].
        { rewrite <-E in Hc. by apply cut_second_line_end. }
        exfalso. apply (Hno (i - 1)). destruct (clean_lf _ _ Hc i) as [? Hq]; [lia|done|].
        split; [lia|]. replace (i - 1 + 1) with i by lia. replace (i - 1 + 2) with (i + 1) by lia.
        replace (i - 1 + 3) with (i + 1 + 1) by lia. split_and!; try done.
        apply (clean_cr _ _ Hc); [lia..|done].
  - apply stops_plain; [lia|done|]. apply Hnext. lia.
Qed.

(** ** Header texts *)

Definition line_ok (l : list Z) : Prop := Forall plain l ∧ (2 <= length l)%nat.

(** The status line and the headers, then the empty line. *)
Fixpoint header_text (lines : list (list Z)) : list Z :=
  match lines with
  | [] => [CR; LF]
  | l :: lines => l ++ CR :: LF :: header_text lines
  end.

Record wf_text (t : list Z) : Prop := mkWfText {
  text_cr : ∀ j, t !! j = Some CR → t !! S j = Some LF;
  text_lf : ∀ j, t !! j = Some LF → ∃ k, j = S k ∧ t !! k = Some CR;
  text_line : ∀ j, t !! j = Some CR → j = O ∨ (∃ k, j = S k ∧ t !! k = Some LF) ∨
    ∃ k a b, j = S (S k) ∧ t !! k = Some a ∧ t !! S k = Some b ∧ plain a ∧ plain b;
  text_mark : ∀ j, t !! j = Some CR → t !! S (S j) = Some CR → (j + 4)%nat = length t
}.

Section Line.
Context (l t : list Z).
Hypothesis Hl : line_ok l.

Lemma line_lookup_cr : (l ++ CR :: LF :: t) !! length l = Some CR.
Proof. rewrite lookup_app_r by lia. by rewrite Nat.sub_diag. Qed.
Lemma line_lookup_lf : (l ++ CR :: LF :: t) !! S (length l) = Some LF.
Proof. rewrite lookup_app_r by lia. by replace (S (length l) - length l)%nat with 1%nat by lia. Qed.
Lemma line_lookup_text k : (l ++ CR :: LF :: t) !! S (S (length l + k)) = t !! k.
Proof. rewrite lookup_app_r by lia. by replace (S (S (length l + k)) - length l)%nat with (S (S k)) by lia. Qed.

Lemma line_lookup_inv j c :
  (l ++ CR :: LF :: t) !! j = Some c →
  plain c ∧ (j < length l)%nat ∨ c = CR ∧ j = length l ∨ c = LF ∧ j = S (length l) ∨
  ∃ k, j = S (S (length l + k)) ∧ t !! k = Some c.
Proof.
  intros H. destruct (decide (j < length l)%nat) as [Hj|Hj].
  - left. rewrite lookup_app_l in H by done. split; [|done]. destruct Hl as [Hf _].
    by eapply Forall_lookup_1.
  - right. destruct (decide (j = length l)) as [->|]; [rewrite line_lookup_cr in H; left; by simplify_eq|].
    right. destruct (decide (j = S (length l))) as [->|]; [rewrite line_lookup_lf in H; left; by simplify_eq|].
    right. exists (j - length l - 2)%nat. split; [lia|]. rewrite <-H, <-line_lookup_text.
    f_equal. lia.
Qed.

Lemma wf_text_line :
  wf_text t → t = [CR; LF] ∨ (∃ c, t !! O = Some c ∧ plain c) → wf_text (l ++ CR :: LF :: t).
Proof.
  intros [Hcr Hlf Hline Hmark] Hstart. pose proof Hl as [Hf Hlen]. constructor.
  - intros j [[[? _] _]|[[_ ->]|[[? _]|(k & -> & Hk)]]]%line_lookup_inv; [done|apply line_lookup_lf|done|].
    replace (S (S (S (length l + k)))) with (S (S (length l + S k))) by lia.
    rewrite line_lookup_text. by apply Hcr.
  - intros j [[[_ ?] _]|[[? _]|[[_ ->]|(k & -> & Hk)]]]%line_lookup_inv; [done|done| |].
    + exists (length l). split; [done|]. apply line_lookup_cr.
    + destruct (Hlf _ Hk) as (k' & -> & Hk'). exists (S (S (length l + k'))). split; [lia|].
      by rewrite line_lookup_text.
  - intros j [[[? _] _]|[[_ ->]|[[? _]|(k & -> & Hk)]]]%line_lookup_inv; [done| |done|]; right.
    + right. destruct (lookup_lt_is_Some_2 l (length l - 2)) as [a Ha]; [lia|].
      destruct (lookup_lt_is_Some_2 l (length l - 1)) as [b Hb]; [lia|].
      exists (length l - 2)%nat, a, b.
      replace (S (length l - 2)) with (length l - 1)%nat by lia. split; [lia|].
      rewrite !lookup_app_l by lia. split_and!; try done; by eapply Forall_lookup_1.
    + destruct (Hline k Hk) as [->|[(k' & -> & Hk')|(k' & a & b & -> & Ha & Hb & Hp)]].
      * left. exists (S (length l)). split; [lia|]. apply line_lookup_lf.
      * left. exists (S (S (length l + k'))). split; [lia|]. by rewrite line_lookup_text.
      * right. exists (S (S (length l + k'))), a, b.
        replace (S (S (S (length l + k')))) with (S (S (length l + S k'))) by lia.
        rewrite !line_lookup_text. split_and!; [lia|done|done|apply Hp|apply Hp].
  - intros j H0 H2. rewrite length_app. cbn [length].
    apply line_lookup_inv in H0 as [[[? _] _]|[[_ ->]|[[? _]|(k & -> & Hk)]]]; [done| |done|].
    + replace (S (S (length l))) with (S (S (length l + 0))) in H2 by lia. rewrite line_lookup_text in H2.
      destruct Hstart as [->|(c & Hc & [Hp _])]; [simpl; lia|]. by rewrite H2 in Hc; simplify_eq.
    + replace (S (S (S (S (length l + k))))) with (S (S (length l + S (S k)))) in H2 by lia.
      rewrite line_lookup_text in H2. pose proof (Hmark k Hk H2). lia.
Qed.

End Line.

Lemma header_text_start lines :
  Forall line_ok lines → header_text lines = [CR; LF] ∨ ∃ c, header_text lines !! O = Some c ∧ plain c.
Proof.
  destruct lines as [|l lines]; [by left|]. intros Hf. apply Forall_cons_1 in Hf as [[Hp Hlen] _].
  destruct l as [|c l]; [simpl in Hlen; lia|]. right. exists c. by apply Forall_cons_1 in Hp as [? _].
Qed.

Lemma header_text_wf lines : Forall line_ok lines → wf_text (header_text lines).
Proof.
  induction lines as [|l lines IH]; intros Hf.
  - constructor; simpl.
    + intros [|[|[|j]]]; simpl; intros; simplify_eq; done.
    + intros [|[|[|j]]]; simpl; intros; simplify_eq; try done. by exists O.
    + intros [|[|[|j]]]; simpl; intros; simplify_eq; try done. by left.
    + intros [|[|[|j]]]; simpl; intros; simplify_eq; done.
  - apply Forall_cons_1 in Hf as [Hl Hf]. simpl. apply wf_text_line; [done|by apply IH|].
    by apply header_text_start.
Qed.

Lemma header_text_ends l lines : ∃ pre, header_text (l :: lines) = pre ++ [CR; LF; CR; LF].
Proof.
  revert l. induction lines as [|l' lines IH]; intros l; [by exists l|].
  destruct (IH l') as [pre Hpre]. exists (l ++ CR :: LF :: pre).
  change (header_text (l :: l' :: lines)) with (l ++ CR :: LF :: header_text (l' :: lines)).
  rewrite Hpre. by rewrite <-app_assoc.
Qed.

(** The buffer holds the first [n] characters of the text. *)
Definition agrees (buf t : list Z) (n : nat) : Prop :=
  (n <= length buf)%nat ∧ (n <= length t)%nat ∧ ∀ j, (j < n)%nat → buf !! j = t !! j.

Section Agrees.
Context (buf t : list Z) (n : nat).
Hypotheses (Hwf : wf_text t) (Hstart : ∃ c, t !! O = Some c ∧ plain c) (Hagree : agrees buf t n).

Lemma str_at_agrees j c :
  0 <= j < Z.of_nat n → str_at buf j = c ↔ t !! Z.to_nat j = Some c.
Proof using Hagree.
  intros Hj. destruct Hagree as (Hb & Ht & H). unfold str_at. rewrite H by lia.
  destruct (lookup_lt_is_Some_2 t (Z.to_nat j)) as [x Hx]; [lia|]. rewrite Hx. simpl.
  split; [by intros ->|by intros ?%(inj Some)].
Qed.

Lemma clean_agrees : clean buf (Z.of_nat n).
Proof using All.
  destruct Hwf as [Hcr Hlf Hline _]. destruct Hstart as (c0 & Hc0 & [Hc1 Hc2]). constructor.
  - intros j Hj Hn Hc%str_at_agrees; [|lia]. apply str_at_agrees; [lia|].
    replace (Z.to_nat (j + 1)) with (S (Z.to_nat j)) by lia. by apply Hcr.
  - intros j Hj Hc%str_at_agrees; [|lia]. destruct (Hlf _ Hc) as (k & Hk & Hkc). split; [lia|].
    apply str_at_agrees; [lia|]. by replace (Z.to_nat (j - 1)) with k by lia.
  - intros j Hj Hc%str_at_agrees; [|lia].
    destruct (Hline _ Hc) as [E|[(k & Hk & Hkc)|(k & a & b & Hk & Ha & Hb & Pa & Pb)]].
    + rewrite E in Hc. congruence.
    + destruct (Hlf _ Hkc) as (k' & Hk' & _). split; [lia|]. left. apply str_at_agrees; [lia|].
      by replace (Z.to_nat (j - 1)) with k by lia.
    + split; [lia|]. right.
      rewrite (proj2 (str_at_agrees (j - 1) b ltac:(lia))) by (by replace (Z.to_nat (j - 1)) with (S k) by lia).
      by rewrite (proj2 (str_at_agrees (j - 2) a ltac:(lia))) by (by replace (Z.to_nat (j - 2)) with k by lia).
Qed.

Lemma mark_agrees q : mark_at buf q → q + 3 < Z.of_nat n → q + 4 = Z.of_nat (length t).
Proof using Hwf Hagree.
  intros (Hq & H0 & _ & H2 & _) Hn. apply str_at_agrees in H0; [|lia]. apply str_at_agrees in H2; [|lia].
  replace (Z.to_nat (q + 2)) with (S (S (Z.to_nat q))) in H2 by lia.
  pose proof (text_mark _ Hwf _ H0 H2). lia.
Qed.

End Agrees.

Lemma mark_in_buf buf q : mark_at buf q → q + 3 < Z.of_nat (length buf).
Proof. intros (Hq & _ & _ & _ & H3). apply str_at_bound; [by rewrite H3|lia]. Qed.

Lemma str_at_app_l a b i : 0 <= i < Z.of_nat (length a) → str_at (a ++ b) i = str_at a i.
Proof. intros Hi. unfold str_at. by rewrite lookup_app_l by lia. Qed.
Lemma str_at_app_r a b i : Z.of_nat (length a) <= i → str_at (a ++ b) i = str_at b (i - Z.of_nat (length a)).
Proof. intros Hi. unfold str_at. rewrite lookup_app_r by lia. do 2 f_equal. lia. Qed.

Section Headers.
Context (l : list Z) (lines : list (list Z)).
Hypothesis Hok : Forall line_ok (l :: lines).
Abbreviation text := (header_text (l :: lines)).

Lemma header_text_plain_start : ∃ c, text !! O = Some c ∧ plain c.
Proof using Hok.
  destruct (header_text_start _ Hok) as [E|?]; [|done]. apply (f_equal length) in E. simpl in E.
  rewrite length_app in E. simpl in E. apply Forall_cons_1 in Hok as [[_ Hl] _]. lia.
Qed.

Lemma header_mark_found rest i :
  plain (str_at rest 0) → 0 <= i < Z.of_nat (length text) →
  evd_http_connection_find_end_headers_mark (text ++ rest) i = Some (Z.of_nat (length text)).
Proof using Hok.
  intros Hrest Hi. destruct (header_text_ends l lines) as [pre Hpre].
  set (p := Z.of_nat (length pre)).
  assert (Z.of_nat (length text) = p + 4) as Hlen by (rewrite Hpre, length_app; simpl; lia).
  assert (agrees (text ++ rest) text (length text)) as Hag.
  { split_and!; [rewrite length_app; lia|done|]. intros j Hj. by apply lookup_app_l. }
  assert (mark_at (text ++ rest) p) as Hm.
  { split; [lia|]. rewrite Hpre, <-app_assoc. 
    split_and!; rewrite str_at_app_r by lia; unfold str_at.
    - by replace (Z.to_nat (p - _)) with 0%nat by lia.
    - by replace (Z.to_nat (p + 1 - _)) with 1%nat by lia.
    - by replace (Z.to_nat (p + 2 - _)) with 2%nat by lia.
    - by replace (Z.to_nat (p + 3 - _)) with 3%nat by lia. }
  pose proof (clean_agrees _ _ _ (header_text_wf _ Hok) header_text_plain_start Hag) as Hc.
  rewrite Hlen in Hc. rewrite Hlen in Hi |- *.
  assert (stops (text ++ rest) i (p + 4)) as [f Hf]; [|by eapply scan_fuel_enough].
  apply (first_mark_found (text ++ rest) p Hm Hc) with (k := Z.to_nat (p + 4 - i)); [| |done|lia].
  - rewrite str_at_app_r by lia. by replace (p + 4 - Z.of_nat (length text)) with 0 by lia.
  - intros q Hq Hmq. pose proof (mark_agrees _ _ _ (header_text_wf _ Hok) Hag q Hmq). lia.
Qed.

Lemma header_cut_not_found n i :
  (n < length text)%nat → 0 <= i →
  evd_http_connection_find_end_headers_mark (take n text) i = Some (-1).
Proof using Hok.
  intros Hn Hi.
  assert (agrees (take n text) text n) as Hag.
  { split_and!; [rewrite length_take; lia|lia|]. intros j Hj. by apply lookup_take_lt. }
  pose proof (clean_agrees _ _ _ (header_text_wf _ Hok) header_text_plain_start Hag) as Hc.
  assert (length (take n text) = n) as Hlen by (rewrite length_take; lia).
  assert (stops (take n text) i (-1)) as [f Hf]; [|by eapply scan_fuel_enough].
  eapply no_mark_not_found; [by rewrite Hlen| |reflexivity|done].
  intros q Hmq. pose proof (mark_in_buf _ _ Hmq) as Hq. rewrite Hlen in Hq.
  pose proof (mark_agrees _ _ _ (header_text_wf _ Hok) Hag q Hmq). lia.
Qed.

End Headers.

(** On headers whose lines have two characters at least and end with CR LF, the search, from any
    start inside them, returns the position after the empty line once the whole text is there
    (provided the body does not start with CR or LF), and [-1] for every shorter prefix: cutting the
    stream never makes it stop early or run for ever. *)
Example header_scan_exact l lines rest i n :
  Forall line_ok (l :: lines) → plain (str_at rest 0) →
  0 <= i < Z.of_nat (length (header_text (l :: lines))) →
  (n < length (header_text (l :: lines)))%nat →
  evd_http_connection_find_end_headers_mark (header_text (l :: lines) ++ rest) i =
    Some (Z.of_nat (length (header_text (l :: lines)))) ∧
  evd_http_connection_find_end_headers_mark (take n (header_text (l :: lines))) i = Some (-1).
Proof. intros Hok Hr Hi Hn. split; [by apply header_mark_found|by apply header_cut_not_found; [|lia..]]. Qed.

Definition request_lines : list (list Z) := [codes "GET /abc HTTP/1.0"; codes "Host: x"].

Lemma header_scan_exact_witness :
  evd_http_connection_find_end_headers_mark (header_text request_lines ++ codes "body") 12 = Some 30 ∧
  evd_http_connection_find_end_headers_mark (take 29 (header_text request_lines)) 12 = Some (-1).
Proof.
  refine (header_scan_exact (codes "GET /abc HTTP/1.0") [codes "Host: x"] (codes "body") 12 29 _ _ _ _).
  - repeat constructor; done.
  - done.
  - vm_compute. split; done.
  - vm_compute. lia.
Defined.

(** A line of one character ended by a bare line feed: the search comes back to it from each side. *)
Definition looping_request : list Z := codes "GET /abc HTTP/1.0" ++ [CR; LF] ++ codes "b" ++ [LF] ++ codes "c".

(** No number of turns ends the search on this text: the process hangs on 22 characters. *)
Example scan_never_stops fuel : scan_loop fuel looping_request 12 = None.
Proof.
  destruct (scan_loop fuel looping_request 12) as [r|] eqn:E; [|done]. exfalso.
  apply scan_fuel_enough in E. assert (evd_http_connection_find_end_headers_mark looping_request 12 = None) as E'
    by (vm_compute; reflexivity). congruence.
Qed.

End HttpScan.
