(* ===== verification/HttpMessage.v ===== *)
(** * HTTP messages (src/evd/evd-http-message.c, src/evd/evd-http-request.c)

    Requests over libsoup's header tables and URIs, which are a parameter ([Soup]): printing a request,
    its cookies, its credentials and its origin.  Strings are lists of character codes without NUL. *)
From stdpp Require Import pretty.
From S2P Require Import Prelude.

Module HttpMessage.

Inductive SoupEncoding :=
  | SOUP_ENCODING_UNRECOGNIZED | SOUP_ENCODING_NONE | SOUP_ENCODING_CONTENT_LENGTH
  | SOUP_ENCODING_EOF | SOUP_ENCODING_CHUNKED | SOUP_ENCODING_BYTERANGES.

#[export] Instance SoupEncoding_eq_dec : EqDecision SoupEncoding.
Proof. solve_decision. Defined.

(** ** What the sources use of libsoup and of GLib's base 64 *)
Class Soup := {
  SoupMessageHeaders : Type;
  soup_message_headers_new : SoupMessageHeaders;
  soup_message_headers_get_one : SoupMessageHeaders → list Z → option (list Z);
  soup_message_headers_replace : SoupMessageHeaders → list Z → list Z → SoupMessageHeaders;
  soup_message_headers_iter : SoupMessageHeaders → list (list Z * list Z);
  soup_message_headers_get_encoding : SoupMessageHeaders → SoupEncoding;
  soup_message_headers_get_content_length : SoupMessageHeaders → Z;
  soup_message_headers_set_content_length : SoupMessageHeaders → Z → SoupMessageHeaders;
  SoupURI : Type;
  soup_uri_new : list Z → option SoupURI;
  soup_uri_to_string : SoupURI → bool → list Z;
  uri_scheme : SoupURI → list Z;
  uri_host : SoupURI → list Z;
  uri_port : SoupURI → Z;
  uri_path : SoupURI → list Z;
  uri_query : SoupURI → option (list Z);
  (* a status code, and the headers, the method, the path and the version stored *)
  soup_headers_parse_request : list Z → Z * (SoupMessageHeaders * option (list Z) * list Z * Z);
  (* the headers, the version, the status code and the reason phrase *)
  soup_headers_parse_response : list Z → option (SoupMessageHeaders * Z * Z * list Z);
  soup_status_get_phrase : Z → list Z;
  g_base64_encode : list Z → list Z;
  g_base64_decode : list Z → list Z
}.

(** What libsoup documents of its header tables, for two names that differ beyond their case. *)
Class SoupLaws `{Soup} := {
  get_one_replace h n v :
    soup_message_headers_get_one (soup_message_headers_replace h n v) n = Some v;
  base64_roundtrip s : g_base64_decode (g_base64_encode s) = s;
  base64_nonempty s : s ≠ [] → g_base64_encode s ≠ [];
  set_content_length_encoding h n :
    soup_message_headers_get_encoding (soup_message_headers_set_content_length h n) =
    SOUP_ENCODING_CONTENT_LENGTH;
  chunked_encoding h :
    soup_message_headers_get_encoding
      (soup_message_headers_replace h (codes "Transfer-Encoding") (codes "chunked")) = SOUP_ENCODING_CHUNKED;
  other_encoding h n v :
    n = codes "Connection" ∨ n = codes "Access-Control-Allow-Origin" →
    soup_message_headers_get_encoding (soup_message_headers_replace h n v) =
    soup_message_headers_get_encoding h
}.

(** ** GLib strings *)

Fixpoint starts_with (s p : list Z) : bool :=
  match p, s with
  | [], _ => true
  | c :: p, d :: s => (c =? d) && starts_with s p
  | _ :: _, [] => false
  end.

(** [g_strstr_len] from the position [pos], on the characters left; [len] is how many of them the
    needle may use. *)
Fixpoint strstr_from (pos : nat) (hay : list Z) (len : nat) (needle : list Z) : option nat :=
  if (length needle <=? len)%nat then
    match hay with
    | [] => None
    | _ :: hay' =>
        if starts_with hay needle then Some pos
        else match len with O => None | S len => strstr_from (S pos) hay' len needle end
    end
  else None.

(** A [len] of [None] is -1: the whole string. *)
Definition g_strstr_len (hay : list Z) (len : option nat) (needle : list Z) : option nat :=
  match needle with
  | [] => Some O
  | _ => strstr_from O hay (default (length hay) len) needle
  end.

(** The characters before the first [c], and those after it if there is one. *)
Fixpoint cut_at (c : Z) (s : list Z) : list Z * option (list Z) :=
  match s with
  | [] => ([], None)
  | d :: s => if d =? c then ([], Some s) else let '(a, b) := cut_at c s in (d :: a, b)
  end.

(** [g_strsplit] with [max] tokens ([fuel] of them when there is no limit). *)
Fixpoint split_tokens (max : nat) (c : Z) (s : list Z) : list (list Z) :=
  match max with
  | O | 1%nat => [s]
  | S max =>
      match cut_at c s with
      | (a, None) => [a]
      | (a, Some b) => a :: split_tokens max c b
      end
  end.

Definition g_strsplit (s : list Z) (c : Z) (max : option nat) : list (list Z) :=
  match s with [] => [] | _ => split_tokens (default (S (length s)) max) c s end.

(** [%d] *)
Definition print_d (z : Z) : list Z := codes (pretty z).

Definition CRLF : list Z := [13; 10].

Section Message.
Context `{Soup}.

Record EvdHttpRequest := mkRequest {
  version : Z;
  headers : option SoupMessageHeaders;
  method : list Z;
  uri : option SoupURI
}.

Definition set_headers (h : SoupMessageHeaders) (r : EvdHttpRequest) : EvdHttpRequest :=
  mkRequest (version r) (Some h) (method r) (uri r).

(** The version of a message that is not given one is [SOUP_HTTP_1_1]. *)
Definition evd_http_request_new (method : list Z) (url : list Z) : EvdHttpRequest :=
  mkRequest 1 None method (soup_uri_new url).

(** Headers are created when they are first asked for. *)
Definition evd_http_message_get_headers (r : EvdHttpRequest) : EvdHttpRequest * SoupMessageHeaders :=
  match headers r with
  | Some h => (r, h)
  | None => (set_headers soup_message_headers_new r, soup_message_headers_new)
  end.

Definition header_line (nv : list Z * list Z) : list Z := nv.1 ++ codes ": " ++ nv.2 ++ CRLF.

Definition print_headers (h : SoupMessageHeaders) : list Z :=
  concat (header_line <$> soup_message_headers_iter h).

Definition evd_http_message_headers_to_string (r : EvdHttpRequest) : EvdHttpRequest * list Z :=
  let '(r, h) := evd_http_message_get_headers r in (r, print_headers h).

(** [None]: the path of a request that has no URI. *)
Definition evd_http_request_get_path (r : EvdHttpRequest) : option (list Z) :=
  (λ u, soup_uri_to_string u true) <$> uri r.

Definition evd_http_request_to_string (r : EvdHttpRequest) : option (EvdHttpRequest * list Z) :=
  u ← uri r;
  let buf := method r ++ codes " " ++ soup_uri_to_string u true ++ codes " HTTP/1."
             ++ print_d (version r) ++ CRLF in
  let '(r, h) := evd_http_message_get_headers r in
  let h :=
    if soup_message_headers_get_one h (codes "Host") is None then
      soup_message_headers_replace h (codes "Host")
        (if uri_port u =? 80 then uri_host u else uri_host u ++ codes ":" ++ print_d (uri_port u))
    else h in
  let h :=
    if soup_message_headers_get_one h (codes "User-Agent") is None then
      soup_message_headers_replace h (codes "User-Agent") (codes "evd")
    else h in
  Some (set_headers h r, buf ++ print_headers h ++ CRLF).

Definition evd_http_request_set_basic_auth_credentials (r : EvdHttpRequest)
    (user passw : option (list Z)) : EvdHttpRequest :=
  let st := default [] user ++ codes ":" ++ default [] passw in
  let '(r, h) := evd_http_message_get_headers r in
  set_headers (soup_message_headers_replace h (codes "Authorization")
                 (codes "Basic " ++ g_base64_encode st)) r.

(** Whether there are credentials, and what is stored through [user] and [password]. *)
Definition evd_http_request_get_basic_auth_credentials (r : EvdHttpRequest)
  : bool * option (list Z) * option (list Z) :=
  let '(_, h) := evd_http_message_get_headers r in
  match soup_message_headers_get_one h (codes "Authorization") with
  | None => (false, None, None)
  | Some auth_st =>
      if (length auth_st <? 7)%nat then (false, None, None)
      else
        let tokens := g_strsplit (g_base64_decode (drop 6 auth_st)) 58 (Some 2%nat) in
        (true, tokens !! 0%nat, tokens !! 1%nat)
  end.

Definition cookie_matches (cookie cookie_name : list Z) : option nat :=
  match g_strstr_len cookie (Some (S (length cookie_name))) cookie_name with
  | Some O => Some O
  | Some 1%nat => if bool_decide (head cookie = Some 32) then Some 1%nat else None
  | _ => None
  end.

Fixpoint find_cookie (cookies : list (list Z)) (cookie_name : list Z) : option (list Z) :=
  match cookies with
  | [] => None
  | c :: cookies =>
      match cookie_matches c cookie_name with
      | Some k => g_strsplit (drop k c) 61 (Some 2%nat) !! 1%nat
      | None => find_cookie cookies cookie_name
      end
  end.

Definition evd_http_request_get_cookie_value (r : EvdHttpRequest) (cookie_name : list Z)
  : option (list Z) :=
  let '(_, h) := evd_http_message_get_headers r in
  cookie_str ← soup_message_headers_get_one h (codes "Cookie");
  find_cookie (g_strsplit cookie_str 59 None) cookie_name.

Definition evd_http_request_get_origin (r : EvdHttpRequest) : option (list Z) :=
  let '(_, h) := evd_http_message_get_headers r in
  match soup_message_headers_get_one h (codes "Origin") with
  | Some origin => Some origin
  | None => soup_message_headers_get_one h (codes "Sec-WebSocket-Origin")
  end.

(** [None]: the URI of a request that has none is read. *)
Definition evd_http_request_is_cross_origin (r : EvdHttpRequest) : option bool :=
  match evd_http_request_get_origin r with
  | None => Some false
  | Some origin =>
      u ← uri r;
      let host := uri_scheme u ++ codes "://" ++ uri_host u ++ codes ":" ++ print_d (uri_port u) in
      Some (negb (bool_decide (g_strstr_len host None origin = Some O)))
  end.

Definition evd_http_request_is_cors_preflight (r : EvdHttpRequest) : bool :=
  let '(_, h) := evd_http_message_get_headers r in
  bool_decide (method r = codes "OPTIONS") &&
  bool_decide (is_Some (soup_message_headers_get_one h (codes "Origin"))) &&
  (bool_decide (is_Some (soup_message_headers_get_one h (codes "Access-Control-Request-Headers"))) ||
   bool_decide (is_Some (soup_message_headers_get_one h (codes "Access-Control-Request-Method")))).

End Message.

(** ** Splitting *)

Lemma cut_at_none c s : c ∉ s → cut_at c s = (s, None).
Proof.
  induction s as [|d s IH]; intros Hc; [done|]. apply not_elem_of_cons in Hc as [Hd Hc]. simpl.
  destruct (Z.eqb_spec d c); [congruence|]. by rewrite IH.
Qed.

Lemma cut_at_some c a b : c ∉ a → cut_at c (a ++ c :: b) = (a, Some b).
Proof.
  induction a as [|d a IH]; intros Hc; simpl; [by rewrite Z.eqb_refl|].
  apply not_elem_of_cons in Hc as [Hd Hc]. destruct (Z.eqb_spec d c); [congruence|]. by rewrite IH.
Qed.

(** Two tokens: a name and a value, a user and a password. *)
Lemma strsplit_pair c a b : c ∉ a → g_strsplit (a ++ c :: b) c (Some 2%nat) = [a; b].
Proof.
  intros Hc. unfold g_strsplit. destruct (a ++ c :: b) eqn:E; [by destruct a|].
  cbn [default from_option id split_tokens]. by rewrite <-E, cut_at_some.
Qed.

(** ** Cookies *)

Definition cookie_ok (nv : list Z * list Z) : Prop :=
  nv.1 ≠ [] ∧ head nv.1 ≠ Some 32 ∧ (59 ∉ nv.1) ∧ (61 ∉ nv.1) ∧ (59 ∉ nv.2).

Definition cookie_pair (nv : list Z * list Z) : list Z := nv.1 ++ 61 :: nv.2.

(** The header a browser sends. *)
Fixpoint cookie_text (cs : list (list Z * list Z)) : list Z :=
  match cs with
  | [] => []
  | [c] => cookie_pair c
  | c :: cs => cookie_pair c ++ 59 :: 32 :: cookie_text cs
  end.

Definition cookie_tokens (cs : list (list Z * list Z)) : list (list Z) :=
  match cs with
  | [] => []
  | c :: cs => cookie_pair c :: ((λ c, 32 :: cookie_pair c) <$> cs)
  end.

Lemma cookie_pair_free nv : cookie_ok nv → 59 ∉ cookie_pair nv.
Proof. intros (_ & _ & H1 & _ & H2). unfold cookie_pair. rewrite elem_of_app, elem_of_cons. naive_solver. Qed.

Lemma split_cookies c cs pre max :
  59 ∉ pre → Forall cookie_ok (c :: cs) → (length (c :: cs) < max)%nat →
  split_tokens max 59 (pre ++ cookie_text (c :: cs)) =
  (pre ++ cookie_pair c) :: ((λ c, 32 :: cookie_pair c) <$> cs).
Proof.
  revert c pre max. induction cs as [|c' cs IH]; intros c pre max Hpre Hok Hmax.
  - apply Forall_cons_1 in Hok as [Hc _]. simpl in Hmax. destruct max as [|[|max]]; [lia..|].
    cbn [split_tokens cookie_text fmap list_fmap]. rewrite cut_at_none; [done|].
    pose proof (cookie_pair_free c Hc). rewrite elem_of_app. tauto.
  - apply Forall_cons_1 in Hok as [Hc Hok]. simpl in Hmax. destruct max as [|[|max]]; [lia..|].
    change (cookie_text (c :: c' :: cs)) with (cookie_pair c ++ 59 :: 32 :: cookie_text (c' :: cs)).
    rewrite app_assoc. cbn [split_tokens]. rewrite cut_at_some.
    2:{ pose proof (cookie_pair_free c Hc). rewrite elem_of_app. tauto. }
    f_equal. apply (IH c' [32] (S max)); [set_solver|done|simpl in *; lia].
Qed.

Lemma cookie_text_length cs : Forall cookie_ok cs → (length cs <= length (cookie_text cs))%nat.
Proof.
  intros Hok. induction Hok as [|c cs Hc Hok IH]; [done|].
  assert (1 <= length (cookie_pair c))%nat by (unfold cookie_pair; rewrite length_app; simpl; lia).
  destruct cs as [|c' cs]; [simpl; lia|].
  change (cookie_text (c :: c' :: cs)) with (cookie_pair c ++ 59 :: 32 :: cookie_text (c' :: cs)).
  rewrite length_app. cbn [length] in *. lia.
Qed.

Lemma strsplit_cookies cs :
  Forall cookie_ok cs → g_strsplit (cookie_text cs) 59 None = cookie_tokens cs.
Proof.
  destruct cs as [|c cs]; [done|]. intros Hok. pose proof (cookie_text_length _ Hok) as Hl.
  unfold g_strsplit. destruct (cookie_text (c :: cs)) eqn:E; [simpl in Hl; lia|]. rewrite <-E in *.
  apply (split_cookies c cs [] (S (length (cookie_text (c :: cs))))); [set_solver|done|lia].
Qed.

Lemma strstr_two hay name :
  name ≠ [] →
  g_strstr_len hay (Some (S (length name))) name =
  if starts_with hay name then Some O
  else match hay with _ :: hay => if starts_with hay name then Some 1%nat else None | [] => None end.
Proof.
  intros Hn. unfold g_strstr_len. destruct name as [|c name]; [done|]. set (nm := c :: name).
  assert (starts_with [] nm = false) as Hnil by done. cbn [default from_option id].
  destruct hay as [|d hay]; cbn [strstr_from].
  { rewrite Hnil. by destruct (_ <=? _)%nat. }
  destruct (Nat.leb_spec (length nm) (S (length nm))); [|lia].
  destruct (starts_with (d :: hay) nm); [done|].
  destruct hay as [|e hay]; cbn [strstr_from]; rewrite Nat.leb_refl; [by rewrite Hnil|].
  destruct (starts_with (e :: hay) nm); [done|]. simpl.
  assert ((length nm <=? length name)%nat = false) as Hle by (apply Nat.leb_gt; simpl; lia).
  destruct hay; cbn [strstr_from]; by rewrite Hle.
Qed.

Lemma strstr_from_later p hay : ∀ n len, strstr_from (S n) hay len p ≠ Some O.
Proof.
  induction hay as [|c hay IH]; intros n len; cbn [strstr_from]; destruct (_ <=? _)%nat; try done.
  destruct (starts_with (c :: hay) p); [done|]. destruct len; [done|apply IH].
Qed.

(** Whether a string begins with another. *)
Lemma strstr_prefix hay p : p ≠ [] → (g_strstr_len hay None p = Some O ↔ starts_with hay p = true).
Proof.
  intros Hp. unfold g_strstr_len. destruct p as [|d p']; [done|]. set (p := d :: p'). cbn [default from_option id].
  destruct hay as [|c hay]; [by cbn|]. cbn [strstr_from].
  destruct (Nat.leb_spec (length p) (length (c :: hay))) as [Hl|Hl].
  - destruct (starts_with (c :: hay) p); [done|]. split; [|done]. cbn [length].
    intros E. by apply strstr_from_later in E.
  - split; [done|]. intros Hs. exfalso.
    assert (∀ q h, starts_with h q = true → (length q <= length h)%nat) as Hlen.
    { clear. induction q as [|x q IH]; intros h Hh; [simpl; lia|]. destruct h as [|y h]; [done|]. simpl in *.
      apply andb_prop in Hh as [_ Hh]. apply IH in Hh. lia. }
    apply Hlen in Hs. lia.
Qed.

Lemma starts_with_prefix s p : starts_with s p = true ↔ p `prefix_of` s.
Proof.
  revert s; induction p as [|c p IH]; intros s; [by split; [exists s|destruct s]|]. destruct s as [|d s]; cbn [starts_with].
  { split; [done|]. by intros [x [=]]. }
  rewrite andb_true_iff, Z.eqb_eq, IH. split; [intros [-> Hp]; by apply prefix_cons|].
  intros Hp. split; [by eapply prefix_cons_inv_1|by eapply prefix_cons_inv_2].
Qed.

Lemma strstr_start hay p : g_strstr_len hay None p = Some O ↔ p `prefix_of` hay.
Proof.
  destruct p as [|c p]; [split; [intros _; apply prefix_nil|done]|]. by rewrite strstr_prefix, starts_with_prefix.
Qed.

(** The name cannot run into the value: it has no equals sign. *)
Lemma starts_with_pair nv name : 61 ∉ name → starts_with (cookie_pair nv) name = starts_with nv.1 name.
Proof.
  destruct nv as [n v]. unfold cookie_pair. simpl. revert n. induction name as [|c name IH]; intros n Hn; [by destruct n|].
  apply not_elem_of_cons in Hn as [Hc Hn]. destruct n as [|d n]; simpl; [|by rewrite IH].
  by destruct (Z.eqb_spec c 61); [congruence|].
Qed.

Lemma cookie_matches_first nv name :
  cookie_ok nv → name ≠ [] → 61 ∉ name →
  cookie_matches (cookie_pair nv) name = if starts_with nv.1 name then Some O else None.
Proof.
  intros (Hne & Hh & _) Hn Heq. unfold cookie_matches. rewrite strstr_two by done.
  rewrite starts_with_pair by done. destruct (starts_with nv.1 name); [done|].
  destruct nv as [[|c n] v]; [done|]. unfold cookie_pair. simpl in *.
  destruct (starts_with _ _); [|done]. by rewrite bool_decide_eq_false_2.
Qed.

Lemma cookie_matches_next nv name :
  name ≠ [] → head name ≠ Some 32 → 61 ∉ name →
  cookie_matches (32 :: cookie_pair nv) name = if starts_with nv.1 name then Some 1%nat else None.
Proof.
  intros Hn Hh Heq. unfold cookie_matches. rewrite strstr_two by done.
  replace (starts_with (32 :: cookie_pair nv) name) with false.
  - rewrite starts_with_pair by done. by destruct (starts_with nv.1 name).
  - destruct name as [|c name]; [done|]. simpl in *. by destruct (Z.eqb_spec c 32); [congruence|].
Qed.

Definition first_with_prefix (cs : list (list Z * list Z)) (name : list Z) : option (list Z) :=
  snd <$> head (filter (λ nv, starts_with nv.1 name = true) cs).

Lemma find_cookie_next cs name :
  Forall cookie_ok cs → name ≠ [] → head name ≠ Some 32 → 61 ∉ name →
  find_cookie ((λ c, 32 :: cookie_pair c) <$> cs) name = first_with_prefix cs name.
Proof.
  intros Hok Hn Hh Heq. induction Hok as [|c cs Hc _ IH]; [done|].
  cbn [fmap list_fmap find_cookie]. rewrite cookie_matches_next by done. unfold first_with_prefix.
  destruct (starts_with c.1 name) eqn:E.
  - rewrite filter_cons_True by done. cbn [skipn head fmap option_fmap option_map].
    rewrite ?drop_0. unfold cookie_pair. destruct Hc as (_ & _ & _ & ? & _). by rewrite strsplit_pair.
  - rewrite filter_cons_False by congruence. apply IH.
Qed.

Lemma find_cookie_tokens cs name :
  Forall cookie_ok cs → name ≠ [] → head name ≠ Some 32 → 61 ∉ name →
  find_cookie (cookie_tokens cs) name = first_with_prefix cs name.
Proof.
  intros Hok Hn Hh Heq. destruct Hok as [|c cs Hc Hok]; [done|].
  cbn [cookie_tokens find_cookie]. rewrite cookie_matches_first by done.
  destruct (starts_with c.1 name) eqn:E; [|rewrite find_cookie_next by done]; unfold first_with_prefix.
  - rewrite filter_cons_True by done. cbn [skipn head fmap option_fmap option_map].
    rewrite ?drop_0. unfold cookie_pair. destruct Hc as (_ & _ & _ & ? & _). by rewrite strsplit_pair.
  - by rewrite filter_cons_False by congruence.
Qed.

(** ** Theorems *)

Section Theorems.
Context `{SoupLaws}.

(** On a header of any number of cookies as browsers write it, the value returned is that of the
    first cookie whose name starts with the name asked for, and NULL when there is none. *)
Example cookie_value_first_prefix r h cs name :
  headers r = Some h → soup_message_headers_get_one h (codes "Cookie") = Some (cookie_text cs) →
  Forall cookie_ok cs → name ≠ [] → head name ≠ Some 32 → 61 ∉ name →
  evd_http_request_get_cookie_value r name = first_with_prefix cs name.
Proof.
  intros Hr Hc Hok Hn Hh Heq. unfold evd_http_request_get_cookie_value, evd_http_message_get_headers.
  rewrite Hr, Hc. run_bind. rewrite strsplit_cookies by done. by apply find_cookie_tokens.
Qed.

(** Credentials come back: a user name without a colon and any password, set on a request and
    read from it, are what was set; a missing one comes back empty. *)
Example basic_auth_roundtrip r user passw :
  58 ∉ default [] user →
  evd_http_request_get_basic_auth_credentials
    (evd_http_request_set_basic_auth_credentials r user passw) =
  (true, Some (default [] user), Some (default [] passw)).
Proof.
  intros Hu. unfold evd_http_request_set_basic_auth_credentials.
  destruct (evd_http_message_get_headers r) as [r' h].
  unfold evd_http_request_get_basic_auth_credentials, evd_http_message_get_headers.
  cbn [headers set_headers]. rewrite get_one_replace. set (st := default [] user ++ _).
  assert (g_base64_encode st ≠ []) as Hne by (apply base64_nonempty; subst st; by destruct user as [[]|]).
  destruct (Nat.ltb_spec (length (codes "Basic " ++ g_base64_encode st)) 7) as [Hlt|_].
  { rewrite length_app in Hlt. destruct (g_base64_encode st); [done|]. simpl in Hlt. lia. }
  rewrite drop_app_length' by done. rewrite base64_roundtrip. subst st.
  change (codes ":" ++ default [] passw) with (58 :: default [] passw). by rewrite strsplit_pair.
Qed.

End Theorems.

(** ** A libsoup of association lists *)

Definition lower (c : Z) : Z := if (65 <=? c) && (c <=? 90) then c + 32 else c.
Definition same_name (a b : list Z) : bool := bool_decide (lower <$> a = lower <$> b).

Record table := mkTable { entries : list (list Z * list Z); table_encoding : SoupEncoding; table_length : Z }.

Definition table_get (t : table) (n : list Z) : option (list Z) :=
  snd <$> head (filter (λ nv, same_name nv.1 n = true) (entries t)).

Definition table_replace (t : table) (n v : list Z) : table :=
  mkTable ((n, v) :: filter (λ nv, same_name nv.1 n = false) (entries t))
    (if same_name n (codes "Transfer-Encoding") && bool_decide (v = codes "chunked")
     then SOUP_ENCODING_CHUNKED else table_encoding t) (table_length t).

Record demo_uri := mkUri { d_scheme : list Z; d_host : list Z; d_port : Z; d_path : list Z; d_query : option (list Z) }.

#[export] Instance demo_soup : Soup := {|
  SoupMessageHeaders := table;
  soup_message_headers_new := mkTable [] SOUP_ENCODING_EOF 0;
  soup_message_headers_get_one := table_get;
  soup_message_headers_replace := table_replace;
  soup_message_headers_iter := entries;
  soup_message_headers_get_encoding := table_encoding;
  soup_message_headers_get_content_length := table_length;
  soup_message_headers_set_content_length t n :=
    mkTable (entries (table_replace t (codes "Content-Length") (print_d n))) SOUP_ENCODING_CONTENT_LENGTH n;
  SoupURI := demo_uri;
  soup_uri_new s :=
    let '(path, query) := cut_at 63 s in Some (mkUri (codes "http") (codes "example.com") 80 path query);
  soup_uri_to_string u _ := d_path u;
  uri_scheme := d_scheme;
  uri_host := d_host;
  uri_port := d_port;
  uri_path := d_path;
  uri_query := d_query;
  soup_headers_parse_request s :=
    (200, (mkTable [(codes "Host", codes "example.com")] SOUP_ENCODING_CONTENT_LENGTH (Z.of_nat (length s)),
           Some (take 3 s), codes "/", 1));
  soup_headers_parse_response s := Some (mkTable [] SOUP_ENCODING_CHUNKED 0, 1, 200, s);
  soup_status_get_phrase _ := codes "OK";
  g_base64_encode s := s;
  g_base64_decode s := s
|}.

#[export] Instance demo_soup_laws : SoupLaws.
Proof.
  constructor; try done.
  - intros h n v. cbn. unfold table_get, table_replace. cbn [entries].
    rewrite filter_cons_True; [done|]. by apply bool_decide_eq_true_2.
  - intros h n v [-> | ->]; reflexivity.
Qed.

Definition cookie_request (s : list Z) : EvdHttpRequest :=
  mkRequest 1 (Some (mkTable [(codes "Cookie", s)] SOUP_ENCODING_EOF 0)) (codes "GET")
    (soup_uri_new (codes "/")).

Definition demo_cookies : list (list Z * list Z) :=
  [(codes "lang", codes "en"); (codes "id", codes "42"); (codes "id2", codes "a=b")].

Lemma cookie_value_first_prefix_witness :
  evd_http_request_get_cookie_value (cookie_request (codes "lang=en; id=42; id2=a=b")) (codes "id") =
  first_with_prefix demo_cookies (codes "id").
Proof.
  apply (cookie_value_first_prefix (cookie_request (codes "lang=en; id=42; id2=a=b"))
           (mkTable [(codes "Cookie", codes "lang=en; id=42; id2=a=b")] SOUP_ENCODING_EOF 0)
           demo_cookies (codes "id")).
  - reflexivity.
  - vm_compute. reflexivity.
  - repeat (apply Forall_cons; split); [..|by apply Forall_nil];
      (split_and!; [discriminate|discriminate|apply (bool_decide_unpack _); vm_compute; exact I..]).
  - discriminate.
  - discriminate.
  - apply (bool_decide_unpack _). vm_compute. exact I.
Defined.

Lemma basic_auth_roundtrip_witness :
  evd_http_request_get_basic_auth_credentials
    (evd_http_request_set_basic_auth_credentials (cookie_request []) (Some (codes "joe")) None) =
  (true, Some (codes "joe"), Some []).
Proof.
  apply (basic_auth_roundtrip (cookie_request []) (Some (codes "joe")) None).
  apply (bool_decide_unpack _). vm_compute. exact I.
Defined.

(** A cookie with a longer name that comes first answers for a shorter one. *)
Example cookie_of_another_name :
  evd_http_request_get_cookie_value (cookie_request (codes "idle=1; id=42")) (codes "id") =
  Some (codes "1").
Proof. vm_compute. reflexivity. Qed.

(** An origin that is a prefix of the host is taken for the same origin. *)
Example prefix_origin_accepted :
  evd_http_request_is_cross_origin
    (mkRequest 1 (Some (mkTable [(codes "Origin", codes "http://example.co")] SOUP_ENCODING_EOF 0))
       (codes "GET") (soup_uri_new (codes "/"))) = Some false.
Proof. vm_compute. reflexivity. Qed.

End HttpMessage.
