(* ===== verification/HttpConnection.v ===== *)
(** * HTTP connections (src/evd/evd-http-connection.c): model

    A connection reads headers and bodies from its buffered input stream (BufferedInput.v), decodes
    chunked bodies (ChunkedDecoder.v), finds the end of headers (HttpScan.v) and writes to its output
    stream.  libsoup is a parameter (HttpMessage.v).  The operations are asynchronous: a call starts
    one, the main loop runs the input stream's source with an answer of the base stream, and the end
    of the operation is an event.  The pending and closed flags of GIOStream are part of the state. *)
From S2P Require Import Prelude HttpScan HttpMessage BufferedInput ChunkedDecoder.
Import HttpScan HttpMessage.

Module HttpConnection.

Definition HEADER_BLOCK_SIZE : Z := 256.
Definition MAX_HEADERS_SIZE : Z := 16 * 1024.
Definition CONTENT_BLOCK_SIZE : Z := 4096.

(** The function an asynchronous result was created for. *)
Inductive source_tag :=
  | read_request_headers_tag | read_response_headers_tag | read_content_tag | read_all_content_tag
  | write_request_headers_tag.

#[export] Instance source_tag_eq_dec : EqDecision source_tag.
Proof. solve_decision. Defined.

Inductive http_error :=
  | ErrPending | ErrClosed | ErrInvalidData | ErrFailed | ErrAgain
  | ErrInput (e : BufferedInput.io_error) | ErrWrite.

(** Where the bytes of an asynchronous read are stored. *)
Inductive destination := AtBuf (offset : nat) | AtBlock | AtUser.

Inductive read_handler := OnReadHeadersBlock | OnReadContentBlock.

(** [%x] of a 32-bit number. *)
Definition hex_char (d : Z) : Z := if d <? 10 then 48 + d else 87 + d.
Fixpoint print_x_from (fuel : nat) (z : Z) (acc : list Z) : list Z :=
  let acc := hex_char (z mod 16) :: acc in
  match fuel with
  | O => acc
  | S fuel => if z / 16 =? 0 then acc else print_x_from fuel (z / 16) acc
  end.
Definition print_x (z : Z) : list Z := print_x_from 7 z [].

(** [g_string_set_size]: what is added is not initialised, zero here. *)
Definition set_size (n : Z) (b : list Z) : list Z :=
  take (Z.to_nat n) b ++ replicate (Z.to_nat n - length b) 0.

(** [g_string_truncate] with a [gsize]. *)
Definition truncate (n : Z) (b : list Z) : list Z := take (Z.to_nat (Z.min (u64 n) (Z.of_nat (length b)))) b.

Definition len (b : list Z) : Z := Z.of_nat (length b).

(** Bytes stored over others, from a position on. *)
Definition overwrite (offset : nat) (data b : list Z) : list Z :=
  take offset b ++ data ++ drop (offset + length data) b.

Section Connection.
Context `{Soup}.

Inductive op_res :=
  | ResNone
  | ResRequest (r : EvdHttpRequest)
  | ResResponse (h : SoupMessageHeaders) (version status_code : Z) (reason_phrase : list Z)
  | ResContent (size : Z) (more : bool).

(** A [GSimpleAsyncResult]. *)
Record async := mkAsync { tag : source_tag; error : option http_error; res : op_res }.

Definition set_error (e : http_error) (a : async) : async := mkAsync (tag a) (Some e) (res a).
Definition set_res (r : op_res) (a : async) : async := mkAsync (tag a) (error a) r.

Record EvdHttpConnection := mkConn {
  async_result : option async;
  buf : list Z;
  last_buf_block : option (list Z);
  last_headers_pos : Z;
  content_len : Z;
  encoding : SoupEncoding;
  content_read : Z;
  current_request : option EvdHttpRequest;
  keepalive : bool;
  chunked_decoder : ChunkedDecoder.EvdHttpChunkedDecoderPrivate;
  (* GIOStream and EvdConnection *)
  pending : bool;
  closed : bool;
  connected : bool;
  tls_active : bool;
  (* the streams: the read under way, what the output stream took and what it will answer *)
  input : BufferedInput.EvdBufferedInputStreamPrivate;
  reading : option (destination * read_handler);
  writing : option (list Z);
  out : list Z;
  answers : list (option Z)
}.

Inductive event :=
  | Completed (a : async) (in_idle : bool)
  | Critical.      (* a GLib function is given NULL: a warning, nothing is done *)

Implicit Type c : EvdHttpConnection.

Definition evd_http_connection_init (tls : bool) (inp : BufferedInput.EvdBufferedInputStreamPrivate)
    (answers : list (option Z)) : EvdHttpConnection :=
  mkConn None [] None 0 0 SOUP_ENCODING_UNRECOGNIZED 0 None false
    ChunkedDecoder.evd_http_chunked_decoder_init false false true tls inp None None [] answers.

(** ** Field updates *)

Definition with_async a c := mkConn a (buf c) (last_buf_block c) (last_headers_pos c) (content_len c)
  (encoding c) (content_read c) (current_request c) (keepalive c) (chunked_decoder c) (pending c)
  (closed c) (connected c) (tls_active c) (input c) (reading c) (writing c) (out c) (answers c).
Definition with_buf b c := mkConn (async_result c) b (last_buf_block c) (last_headers_pos c) (content_len c)
  (encoding c) (content_read c) (current_request c) (keepalive c) (chunked_decoder c) (pending c)
  (closed c) (connected c) (tls_active c) (input c) (reading c) (writing c) (out c) (answers c).
Definition with_block b c := mkConn (async_result c) (buf c) b (last_headers_pos c) (content_len c)
  (encoding c) (content_read c) (current_request c) (keepalive c) (chunked_decoder c) (pending c)
  (closed c) (connected c) (tls_active c) (input c) (reading c) (writing c) (out c) (answers c).
Definition with_pos p c := mkConn (async_result c) (buf c) (last_buf_block c) p (content_len c)
  (encoding c) (content_read c) (current_request c) (keepalive c) (chunked_decoder c) (pending c)
  (closed c) (connected c) (tls_active c) (input c) (reading c) (writing c) (out c) (answers c).
Definition with_body e l c := mkConn (async_result c) (buf c) (last_buf_block c) (last_headers_pos c) l
  e (content_read c) (current_request c) (keepalive c) (chunked_decoder c) (pending c)
  (closed c) (connected c) (tls_active c) (input c) (reading c) (writing c) (out c) (answers c).
Definition with_content_read n c := mkConn (async_result c) (buf c) (last_buf_block c) (last_headers_pos c)
  (content_len c) (encoding c) n (current_request c) (keepalive c) (chunked_decoder c) (pending c)
  (closed c) (connected c) (tls_active c) (input c) (reading c) (writing c) (out c) (answers c).
Definition with_request r c := mkConn (async_result c) (buf c) (last_buf_block c) (last_headers_pos c)
  (content_len c) (encoding c) (content_read c) r (keepalive c) (chunked_decoder c) (pending c)
  (closed c) (connected c) (tls_active c) (input c) (reading c) (writing c) (out c) (answers c).
Definition with_keepalive k c := mkConn (async_result c) (buf c) (last_buf_block c) (last_headers_pos c)
  (content_len c) (encoding c) (content_read c) (current_request c) k (chunked_decoder c) (pending c)
  (closed c) (connected c) (tls_active c) (input c) (reading c) (writing c) (out c) (answers c).
Definition with_decoder d c := mkConn (async_result c) (buf c) (last_buf_block c) (last_headers_pos c)
  (content_len c) (encoding c) (content_read c) (current_request c) (keepalive c) d (pending c)
  (closed c) (connected c) (tls_active c) (input c) (reading c) (writing c) (out c) (answers c).
Definition with_flags p cl co c := mkConn (async_result c) (buf c) (last_buf_block c) (last_headers_pos c)
  (content_len c) (encoding c) (content_read c) (current_request c) (keepalive c) (chunked_decoder c) p
  cl co (tls_active c) (input c) (reading c) (writing c) (out c) (answers c).
Definition with_input i r c := mkConn (async_result c) (buf c) (last_buf_block c) (last_headers_pos c)
  (content_len c) (encoding c) (content_read c) (current_request c) (keepalive c) (chunked_decoder c)
  (pending c) (closed c) (connected c) (tls_active c) i r (writing c) (out c) (answers c).
Definition with_output w o a c := mkConn (async_result c) (buf c) (last_buf_block c) (last_headers_pos c)
  (content_len c) (encoding c) (content_read c) (current_request c) (keepalive c) (chunked_decoder c)
  (pending c) (closed c) (connected c) (tls_active c) (input c) (reading c) w o a.

Definition with_tls_active t c := mkConn (async_result c) (buf c) (last_buf_block c) (last_headers_pos c)
  (content_len c) (encoding c) (content_read c) (current_request c) (keepalive c) (chunked_decoder c)
  (pending c) (closed c) (connected c) t (input c) (reading c) (writing c) (out c) (answers c).

(** ** GIOStream *)

Definition g_io_stream_set_pending c : EvdHttpConnection + http_error :=
  if closed c then inr ErrClosed
  else if pending c then inr ErrPending
  else inl (with_flags true (closed c) (connected c) c).

Definition g_io_stream_clear_pending c : EvdHttpConnection := with_flags false (closed c) (connected c) c.

(** [g_input_stream_read_async] on the connection's input stream. *)
Definition read_async (d : destination) (h : read_handler) (size : Z) c : EvdHttpConnection :=
  with_input (BufferedInput.evd_buffered_input_stream_read_async (input c) size) (Some (d, h)) c.

(** ** Headers *)

(** [g_strconcat] stops at its first NULL argument. *)
Definition evd_http_connection_build_uri c (path : list Z) (h : SoupMessageHeaders) : option SoupURI :=
  let scheme := if tls_active c then codes "https" else codes "http" in
  soup_uri_new (scheme ++ codes "://" ++
    match soup_message_headers_get_one h (codes "host") with Some host => host ++ path | None => [] end).

Definition evd_http_connection_set_current_request c (r : option EvdHttpRequest) : EvdHttpConnection :=
  with_request r c.

Definition detect_keepalive (version : Z) (conn_header : option (list Z)) : bool :=
  match conn_header with
  | None => false
  | Some h =>
      ((version =? 0) && bool_decide (is_Some (g_strstr_len h None (codes "keep-alive"))))
      || ((version =? 1) && bool_decide (g_strstr_len h None (codes "close") = None))
  end.

Definition evd_http_connection_on_read_headers c (b : list Z) : EvdHttpConnection * list event :=
  match async_result c with
  | None => (c, [])
  | Some a =>
      let c := with_async None (g_io_stream_clear_pending c) in
      let text := take (length b - 2) b in
      if decide (tag a = read_request_headers_tag) then
        let '(status, (h, method, path, version)) := soup_headers_parse_request text in
        match method with
        | Some method =>
            if negb (status =? 0) && (version <=? 1) then
              let request := mkRequest version (Some h) method (evd_http_connection_build_uri c path h) in
              let c := evd_http_connection_set_current_request c (Some request) in
              let c := with_body (soup_message_headers_get_encoding h)
                         (soup_message_headers_get_content_length h) c in
              let c := with_keepalive
                         (detect_keepalive version (soup_message_headers_get_one h (codes "Connection"))) c in
              (c, [Completed (set_res (ResRequest request) a) true])
            else (c, [Completed (set_error ErrInvalidData a) true])
        | None => (c, [Completed (set_error ErrInvalidData a) true])
        end
      else if decide (tag a = read_response_headers_tag) then
        match soup_headers_parse_response text with
        | Some (h, version, status_code, reason_phrase) =>
            (with_body (soup_message_headers_get_encoding h) (soup_message_headers_get_content_length h) c,
             [Completed (set_res (ResResponse h version status_code reason_phrase) a) true])
        | None => (c, [Completed (set_error ErrInvalidData a) true])
        end
      else (c, [Completed a true])
  end.

Definition evd_http_connection_read_headers_block c : EvdHttpConnection :=
  let new_block_size := Z.min MAX_HEADERS_SIZE (len (buf c) + HEADER_BLOCK_SIZE) - len (buf c) in
  if new_block_size <=? 0 then c
  else
    read_async (AtBuf (length (buf c))) OnReadHeadersBlock new_block_size
      (with_buf (set_size (len (buf c) + new_block_size) (buf c)) c).

(** The end of the handler: an error that was set is given to the operation under way. *)
Definition headers_error (e : http_error) c : EvdHttpConnection * list event :=
  match async_result c with
  | Some a => (with_async None c, [Completed (set_error e a) true])
  | None => (c, [])
  end.

(** The bytes read are in the buffer already.  [None]: the search for the mark does not end. *)
Definition evd_http_connection_on_read_headers_block c (r : list Z + BufferedInput.io_error)
  : option (EvdHttpConnection * list event) :=
  match r with
  | inr e => Some (headers_error (ErrInput e) c)
  | inl data =>
      let extra := HEADER_BLOCK_SIZE - len data in
      let c := if 0 <? extra then with_buf (truncate (len (buf c) - extra) (buf c)) c else c in
      pos ← evd_http_connection_find_end_headers_mark (buf c) (last_headers_pos c);
      if 0 <? pos then
        let unread_buf := drop (Z.to_nat pos) (buf c) in
        let '(c, failure) :=
          match unread_buf with
          | [] => (c, None)
          | _ =>
              match BufferedInput.evd_buffered_input_stream_unread (input c) unread_buf with
              | (i, _, inl _) => (with_buf (take (Z.to_nat pos) (buf c)) (with_input i (reading c) c), None)
              | (i, _, inr e) => (with_input i (reading c) c, Some (ErrInput e))
              end
          end in
        let '(c, evs) := evd_http_connection_on_read_headers c (buf c) in
        let c := with_buf [] (with_pos 0 c) in
        match failure with
        | Some e => let '(c, evs') := headers_error e c in Some (c, evs ++ evs')
        | None => Some (c, evs)
        end
      else if len (buf c) <? MAX_HEADERS_SIZE then
        Some (evd_http_connection_read_headers_block (with_pos (len (buf c) - 3) c), [])
      else Some (headers_error ErrInvalidData c)
  end.

Definition evd_http_connection_read_headers_async c (t : source_tag) : EvdHttpConnection * list event :=
  let a := mkAsync t None ResNone in
  match g_io_stream_set_pending c with
  | inr e => (c, [Completed (set_error e a) true])
  | inl c =>
      let c := with_async (Some a) (with_keepalive false c) in
      let c := with_pos 12 (with_buf [] c) in
      (evd_http_connection_read_headers_block c, [])
  end.

Definition evd_http_connection_read_request_headers c :=
  evd_http_connection_read_headers_async c read_request_headers_tag.
Definition evd_http_connection_read_response_headers c :=
  evd_http_connection_read_headers_async c read_response_headers_tag.

(** The request, NULL on error. *)
Definition evd_http_connection_read_request_headers_finish (a : async) : option EvdHttpRequest :=
  match error a, res a with None, ResRequest r => Some r | _, _ => None end.

(** The headers, the version, the status code and the reason phrase, nothing on error. *)
Definition evd_http_connection_read_response_headers_finish (a : async)
  : option (SoupMessageHeaders * Z * Z * list Z) :=
  match error a, res a with None, ResResponse h v st r => Some (h, v, st, r) | _, _ => None end.

Definition evd_http_connection_get_current_request c : option EvdHttpRequest := current_request c.

(** ** Content *)

Definition evd_http_connection_read_content_block (d : destination) (size : Z) c : EvdHttpConnection :=
  read_async d OnReadContentBlock size c.

Definition evd_http_connection_read_next_content_block c : EvdHttpConnection :=
  if decide (encoding c = SOUP_ENCODING_CHUNKED) then
    let block := default (replicate (Z.to_nat CONTENT_BLOCK_SIZE) 0) (last_buf_block c) in
    evd_http_connection_read_content_block AtBlock CONTENT_BLOCK_SIZE (with_block (Some block) c)
  else
    let new_block_size :=
      if decide (encoding c = SOUP_ENCODING_CONTENT_LENGTH) then
        Z.min (u64 (content_len c - content_read c)) CONTENT_BLOCK_SIZE
      else CONTENT_BLOCK_SIZE in
    let c :=
      if len (buf c) <? content_read c + new_block_size then
        with_buf (set_size (content_read c + new_block_size) (buf c)) c
      else c in
    evd_http_connection_read_content_block (AtBuf (Z.to_nat (len (buf c) - new_block_size)))
      new_block_size c.

(** The loop over the decoder, on what is left of the block; the result of the last call.  [None]:
    the decoder writes out of its bounds. *)
Fixpoint convert_blocks (fuel : nat) (input : list Z) c
  : option (EvdHttpConnection * ChunkedDecoder.GConverterResult) :=
  match fuel with
  | O => None
  | S fuel =>
      match ChunkedDecoder.convert (chunked_decoder c) input 1024 false with
      | ChunkedDecoder.Converted d bytes_read written r =>
          let c := with_content_read (content_read c + len written)
                     (with_buf (buf c ++ written) (with_decoder d c)) in
          let rest := drop (Z.to_nat bytes_read) input in
          match r, rest with
          | ChunkedDecoder.CONVERTER_ERROR, _ | ChunkedDecoder.CONVERTER_FINISHED, _ | _, [] => Some (c, r)
          | _, _ => convert_blocks fuel rest c
          end
      | _ => None
      end
  end.

(** The connection and [done]; the variable [result] of the loop hides the one that is returned,
    which is always TRUE.  [None]: the block is NULL, or the decoder writes out of its bounds. *)
Definition evd_http_connection_process_read_content c (size : Z) : option (EvdHttpConnection * bool) :=
  if decide (encoding c = SOUP_ENCODING_CHUNKED) then
    block ← last_buf_block c;
    '(c, r) ← convert_blocks (Z.to_nat size) (take (Z.to_nat size) block) c;
    match r with
    | ChunkedDecoder.CONVERTER_FINISHED | ChunkedDecoder.CONVERTER_ERROR =>
        Some (with_decoder (ChunkedDecoder.reset (chunked_decoder c)) c, true)
    | _ => Some (c, false)
    end
  else
    let c := with_content_read (content_read c + size) c in
    Some (c, negb (connected c)
             || (bool_decide (encoding c = SOUP_ENCODING_CONTENT_LENGTH)
                 && (u64 (content_len c) <=? content_read c))).

(** Completing the operation under way; NULL is refused by GLib with a warning. *)
Definition complete_content c : EvdHttpConnection * list event :=
  let a := async_result c in
  let c := g_io_stream_clear_pending (with_async None c) in
  match a with Some a => (c, [Completed a false]) | None => (c, [Critical]) end.

Definition evd_http_connection_on_read_content_block c (r : list Z + BufferedInput.io_error)
  : option (EvdHttpConnection * list event) :=
  '((c, done) : EvdHttpConnection * bool) ←
    match r with
    | inl data =>
        if 0 <? len data then evd_http_connection_process_read_content c (len data)
        else Some (c, true)
    | inr e => Some (with_async (set_error (ErrInput e) <$> async_result c) c, true)
    end;
  match tag <$> async_result c with
  | Some read_all_content_tag =>
      if done then Some (complete_content (with_buf (set_size (content_read c) (buf c)) c))
      else Some (evd_http_connection_read_next_content_block c, [])
  | Some read_content_tag =>
      let c :=
        match r with
        | inl data => with_async (set_res (ResContent (len data) (negb done)) <$> async_result c) c
        | inr _ => c
        end in
      Some (complete_content c)
  | _ => if done then Some (complete_content c) else Some (c, [])
  end.

Definition evd_http_connection_read_content c (size : Z) : EvdHttpConnection * list event :=
  let a := mkAsync read_content_tag None ResNone in
  match g_io_stream_set_pending c with
  | inr e => (c, [Completed (set_error e a) true])
  | inl c =>
      if bool_decide (encoding c = SOUP_ENCODING_CONTENT_LENGTH) && (content_len c =? 0)
      then (c, [Completed a true])
      else (evd_http_connection_read_content_block AtUser size (with_async (Some a) c), [])
  end.

(** The size and [more]; -1 on error. *)
Definition evd_http_connection_read_content_finish (a : async) : Z * bool :=
  match error a with
  | Some _ => (-1, false)
  | None => match res a with ResContent size more => (size, more) | _ => (0, false) end
  end.

Definition evd_http_connection_read_all_content c : EvdHttpConnection * list event :=
  let a := mkAsync read_all_content_tag None ResNone in
  match g_io_stream_set_pending c with
  | inr e => (c, [Completed (set_error e a) true])
  | inl c =>
      if bool_decide (encoding c = SOUP_ENCODING_NONE)
         || (bool_decide (encoding c = SOUP_ENCODING_CONTENT_LENGTH) && (content_len c =? 0))
      then (c, [Completed a true])
      else
        let c := with_async (Some a) (with_buf [] (with_content_read 0 c)) in
        (evd_http_connection_read_next_content_block c, [])
  end.

(** The string handed over and the size stored. *)
Definition evd_http_connection_read_all_content_finish c (a : async)
  : EvdHttpConnection * option (list Z * Z) :=
  match error a with
  | Some _ => (c, None)
  | None => (with_buf [] c, Some (buf c, content_read c))
  end.

(** ** Writing *)

(** [g_output_stream_write]: how many bytes were taken, [None] on error.  Nothing is asked of the
    stream for an empty buffer; past the list of answers the stream takes everything. *)
Definition g_output_stream_write c (data : list Z) : EvdHttpConnection * option Z :=
  match data with
  | [] => (c, Some 0)
  | _ =>
      match answers c with
      | [] => (with_output (writing c) (out c ++ data) [] c, Some (len data))
      | None :: rest => (with_output (writing c) (out c) rest c, None)
      | Some n :: rest =>
          let taken := take (Z.to_nat n) data in
          (with_output (writing c) (out c ++ taken) rest c, Some (len taken))
      end
  end.

Definition with_encoding e c : EvdHttpConnection := with_body e (content_len c) c.

(** The status line and the headers; only a negative answer of the stream is a failure. *)
Definition evd_http_connection_write_response_headers c (version status_code : Z)
    (reason_phrase : option (list Z)) (headers : option SoupMessageHeaders) : EvdHttpConnection * bool :=
  let reason := default (soup_status_get_phrase status_code) reason_phrase in
  let b := codes "HTTP/1." ++ print_d version ++ codes " " ++ print_d status_code ++ codes " " ++ reason
           ++ CRLF in
  let '(b, c) :=
    match headers with
    | Some h => (b ++ print_headers h, with_encoding (soup_message_headers_get_encoding h) c)
    | None => (b, with_encoding SOUP_ENCODING_EOF c)
    end in
  let '(c, n) := g_output_stream_write c (b ++ CRLF) in
  (c, bool_decide (is_Some n)).

(** [evd_http_connection_write_content] when the encoding is not chunked. *)
Definition write_plain c (buffer : list Z) : EvdHttpConnection * (unit + http_error) :=
  match g_output_stream_write c buffer with
  | (c, None) => (c, inr ErrWrite)
  | (c, Some n) => if n <? len buffer then (c, inr ErrAgain) else (c, inl ())
  end.

(** Sets the encoding to EOF for the calls of [evd_http_connection_write_content] it makes. *)
Definition evd_http_connection_write_chunk c (buffer : list Z) : EvdHttpConnection * (unit + http_error) :=
  let c := with_encoding SOUP_ENCODING_EOF c in
  let '(c, r) := write_plain c (print_x (u32 (len buffer)) ++ CRLF) in
  let '(c, r) :=
    match r with
    | inl _ => if 0 <? len buffer then write_plain c buffer else (c, r)
    | inr _ => (c, r)
    end in
  let '(c, r) := match r with inl _ => write_plain c CRLF | inr _ => (c, r) end in
  (with_encoding SOUP_ENCODING_CHUNKED c, r).

Definition evd_http_connection_write_content c (buffer : list Z) (more : bool)
  : EvdHttpConnection * (unit + http_error) :=
  if decide (encoding c = SOUP_ENCODING_CHUNKED) then
    let '(c, r) := if len buffer =? 0 then (c, inl ()) else evd_http_connection_write_chunk c buffer in
    match r with
    | inl _ => if more then (c, inl ()) else evd_http_connection_write_chunk c []
    | inr _ => (c, r)
    end
  else write_plain c buffer.

Definition evd_http_connection_respond c (ver status_code : Z) (reason_phrase : option (list Z))
    (headers : option SoupMessageHeaders) (content : option (list Z)) (size : Z) (close_after : bool)
  : EvdHttpConnection * bool :=
  let h := default soup_message_headers_new headers in
  let h := soup_message_headers_replace h (codes "Connection")
             (if close_after || negb (keepalive c) then codes "close" else codes "keep-alive") in
  let h := soup_message_headers_set_content_length h size in
  let '(c, ok) := evd_http_connection_write_response_headers c ver status_code reason_phrase (Some h) in
  if ok then
    match content with
    | None => (c, true)
    | Some content =>
        let '(c, r) := evd_http_connection_write_content c (take (Z.to_nat size) content) false in
        (c, if r is inl _ then true else false)
    end
  else (c, false).

Definition evd_http_connection_respond_simple c (status_code : Z) (content : option (list Z)) (size : Z) :=
  evd_http_connection_respond c 0 status_code None None content size true.

Definition evd_http_connection_redirect c (url : list Z) (permanently : bool) :=
  let h := soup_message_headers_replace soup_message_headers_new (codes "Location") url in
  evd_http_connection_respond c 1 (if permanently then 301 else 302) None (Some h) None 0 true.

Definition evd_http_connection_set_keepalive c (k : bool) : EvdHttpConnection := with_keepalive k c.
Definition evd_http_connection_get_keepalive c : bool := keepalive c.

(** [None]: a request without URI. *)
Definition evd_http_connection_unread_request_headers c (r : EvdHttpRequest)
  : option (EvdHttpConnection * EvdHttpRequest * bool) :=
  '(r, text) ← evd_http_request_to_string r;
  let '(i, _, n) := BufferedInput.evd_buffered_input_stream_unread (input c) text in
  Some (with_input i (reading c) c, r, if n is inl _ then true else false).

Definition evd_http_connection_write_request_headers c (r : EvdHttpRequest)
  : option (EvdHttpConnection * EvdHttpRequest * list event) :=
  let a := mkAsync write_request_headers_tag None ResNone in
  match g_io_stream_set_pending c with
  | inr e => Some (c, r, [Completed (set_error e a) true])
  | inl c =>
      '(r, text) ← evd_http_request_to_string r;
      Some (with_output (Some text) (out c) (answers c) (with_async (Some a) c), r, [])
  end.

(** The end of the asynchronous write, which took [n] bytes or failed. *)
Definition evd_http_connection_on_write_request_headers c (n : option Z) : EvdHttpConnection * list event :=
  let c := g_io_stream_clear_pending c in
  let taken := match n with Some n => take (Z.to_nat n) (default [] (writing c)) | None => [] end in
  let c := with_output None (out c ++ taken) (answers c) c in
  match async_result c with
  | None => (c, [])
  | Some a =>
      (with_async None c, [Completed (if n is Some _ then a else set_error ErrWrite a) false])
  end.

Definition evd_http_connection_write_request_headers_finish (a : async) : bool :=
  if error a is None then true else false.

(** ** The main loop and closing *)

(** The input stream ends the read under way. *)
Definition read_done c (r : list Z + BufferedInput.io_error) : option (EvdHttpConnection * list event) :=
  match reading c with
  | None => Some (c, [])
  | Some (d, h) =>
      let c := with_input (input c) None c in
      let c :=
        match r, d with
        | inl data, AtBuf offset => with_buf (overwrite offset data (buf c)) c
        | inl data, AtBlock => with_block (overwrite 0 data <$> last_buf_block c) c
        | _, _ => c
        end in
      match h with
      | OnReadHeadersBlock => evd_http_connection_on_read_headers_block c r
      | OnReadContentBlock => evd_http_connection_on_read_content_block c r
      end
  end.

(** What an event of the input stream means here. *)
Definition input_events c (evs : list BufferedInput.event) : option (EvdHttpConnection * list event) :=
  match evs with
  | [BufferedInput.Delivered data; BufferedInput.AsyncDone (inl _)] => read_done c (inl data)
  | [BufferedInput.AsyncDone (inr e)] => read_done c (inr e)
  | _ => Some (c, [])
  end.

(** The source of the input stream runs; [a] is the answer of the stream below. *)
Definition run_input c (a : BufferedInput.base_answer) : option (EvdHttpConnection * list event) :=
  let '(i, evs) := BufferedInput.do_read (input c) a in
  input_events (with_input i (reading c) c) evs.

(** The parent class closes the input stream, which ends a read under way; what is left pending then
    ends too. *)
Definition evd_http_connection_close c : option (EvdHttpConnection * list event) :=
  let c := with_flags (pending c) (closed c) false c in
  let '(i, evs) := BufferedInput.evd_buffered_input_stream_close (input c) in
  '(c, evs) ← input_events (with_input i (reading c) c) evs;
  match async_result c with
  | Some a => Some (with_async None c, evs ++ [Completed (set_error ErrClosed a) false])
  | None => Some (c, evs)
  end.

(** [g_io_stream_close], whose class method is [evd_http_connection_close]. *)
Definition g_io_stream_close c : option (EvdHttpConnection * list event) :=
  if closed c then Some (c, [])
  else
    match g_io_stream_set_pending c with
    | inr _ => Some (c, [])
    | inl c =>
        '(c, evs) ← evd_http_connection_close c;
        Some (with_flags false true (connected c) c, evs)
    end.

(** [evd_connection_close_in_idle_cb] of src/evd/evd-connection.c, when the peer hangs up. *)
Definition evd_connection_close_in_idle_cb c : option (EvdHttpConnection * list event) :=
  g_io_stream_close (g_io_stream_clear_pending c).

Definition evd_http_connection_dispose c : EvdHttpConnection * list event :=
  let c := with_request None c in
  match async_result c with
  | Some a => (with_async None c, [Completed (set_error ErrFailed a) false])
  | None => (c, [])
  end.

End Connection.

End HttpConnection.
