(* ===== verification/HttpConnectionSpec.v ===== *)
(** * HTTP connections: theorems

    For every schedule of partial reads: headers are delivered exactly and what follows them stays in
    the stream; a body with a length is read exactly; a body written in chunks by one connection is
    read back by another.  Every operation ends exactly once.  Then the defects, as computations. *)
From S2P Require Import Prelude HttpScan HttpMessage BufferedInput ChunkedDecoder ChunkedDecoderSpec HttpConnection.
Import HttpScan HttpMessage HttpConnection.

Module HttpConnectionSpec.

(** ** The stream below *)

(** The base stream holds [src] and gives at most [n] bytes. *)
Definition base_read (i : BufferedInput.EvdBufferedInputStreamPrivate) (src : list Z) (n : nat)
  : BufferedInput.base_answer * list Z :=
  let w := BufferedInput.wants i (BufferedInput.requested_size i) in
  if BufferedInput.async_result i && (0 <? w) && negb (bool_decide (src = [])) then
    let k := Nat.min n (Z.to_nat w) in (BufferedInput.Got (take k src), drop k src)
  else (BufferedInput.WouldBlock, src).

(** A read of [size] bytes is under way. *)
Definition awaiting (i : BufferedInput.EvdBufferedInputStreamPrivate) (size : Z) : Prop :=
  BufferedInput.async_result i = true ∧ BufferedInput.requested_size i = size ∧
  BufferedInput.frozen i = false ∧ BufferedInput.actual_size i = 0.

Definition resting (i : BufferedInput.EvdBufferedInputStreamPrivate) : Prop :=
  BufferedInput.async_result i = false ∧ BufferedInput.frozen i = false.

Lemma awaiting_read i size :
  BufferedInput.frozen i = false → awaiting (BufferedInput.evd_buffered_input_stream_read_async i size) size.
Proof. intros Hf. by split_and!. Qed.

Ltac in_cbn := cbn [BufferedInput.buffer BufferedInput.set_buffer BufferedInput.set_source
  BufferedInput.actual_size BufferedInput.max_buffer BufferedInput.frozen BufferedInput.async_result
  BufferedInput.requested_size fst snd negb andb].

(** What a read of [size] bytes gives of what the buffer and the base stream hold. *)
Definition piece_of (i i' : BufferedInput.EvdBufferedInputStreamPrivate) (src src' : list Z) (n : nat)
    (size : Z) (p : list Z) : Prop :=
  p ++ BufferedInput.buffer i' ++ src' = BufferedInput.buffer i ++ src ∧
  (Nat.min n (Nat.min (Z.to_nat size) (length (BufferedInput.buffer i ++ src))) <= length p)%nat ∧
  p ≠ [] ∧ len p <= size ∧ BufferedInput.max_buffer i' = BufferedInput.max_buffer i ∧
  (BufferedInput.buffer i' = [] ∨ p ++ BufferedInput.buffer i' = BufferedInput.buffer i).

Lemma nonempty_length {A} (l : list A) : l ≠ [] ↔ (0 < length l)%nat.
Proof. destruct l; simpl; split; try done; lia. Qed.

Lemma read_piece i src n size :
  awaiting i size → 0 < size → (0 < n)%nat → BufferedInput.buffer i ++ src ≠ [] →
  ∃ i' p, BufferedInput.evd_buffered_input_stream_read i size (base_read i src n).1 = (i', inl p) ∧
    BufferedInput.async_result i' = true ∧ BufferedInput.frozen i' = false ∧
    BufferedInput.actual_size i' = 0 ∧ piece_of i i' src (base_read i src n).2 n size p.
Proof.
  intros (Ha & Hreq & Hf & Hact) Hs Hn Hne. apply nonempty_length in Hne.
  unfold base_read, BufferedInput.wants, BufferedInput.evd_buffered_input_stream_read, piece_of.
  rewrite Hreq, Ha, Hf, length_app in *. unfold len in *. set (b := BufferedInput.buffer i) in *.
  destruct (Z.le_gt_cases size (Z.of_nat (length b))) as [Hle|Hgt].
  - rewrite Z.min_r, Z.sub_diag by lia. cbn [Z.ltb Z.compare]. destruct (Z.ltb_spec 0 size); [|lia].
    eexists _, (take (Z.to_nat size) b). split; [reflexivity|]. in_cbn.
    rewrite app_assoc, take_drop. rewrite nonempty_length, length_take.
    split_and!; try done; simpl; auto with lia.
  - rewrite Z.min_l, Nat2Z.id, firstn_all, (drop_ge b) by lia.
    destruct (Z.ltb_spec 0 (size - Z.of_nat (length b))); [|lia].
    destruct (bool_decide_reflect (src = [])) as [->|Hsrc%nonempty_length]; in_cbn.
    + simpl in Hne. destruct (Z.ltb_spec 0 (Z.of_nat (length b))); [|lia]. eexists _, b.
      split; [reflexivity|]. in_cbn. rewrite nonempty_length. split_and!; try done; simpl; auto with lia.
    + set (k := Nat.min n _). eexists _, (b ++ take k src). split; [reflexivity|].
      destruct (Z.ltb_spec 0 (Z.of_nat (length b))) as [Hb|Hb]; in_cbn.
      * rewrite app_nil_l, <-app_assoc, take_drop. rewrite nonempty_length, length_app, length_take.
        split_and!; try done; simpl; auto with lia.
      * assert (b = []) as E0 by (by destruct b; [|simpl in Hb; lia]). fold b. rewrite E0.
        rewrite !app_nil_l, take_drop. rewrite nonempty_length, length_take.
        split_and!; try done; simpl; auto with lia.
Qed.

(** One turn of the source ends the read with such a piece. *)
Lemma do_read_piece i src n size :
  awaiting i size → 0 < size → (0 < n)%nat → BufferedInput.buffer i ++ src ≠ [] →
  ∃ i' p, BufferedInput.do_read i (base_read i src n).1 =
      (i', [BufferedInput.Delivered p; BufferedInput.AsyncDone (inl (len p))]) ∧
    resting i' ∧ piece_of i i' src (base_read i src n).2 n size p.
Proof.
  intros Haw Hs Hn Hne. pose proof Haw as (Ha & Hreq & Hf & Hact).
  destruct (read_piece (BufferedInput.set_source false i) src n size) as (i' & p & Hr & Ha' & Hf' & Hact' & Hp);
    [done..|].
  change (base_read (BufferedInput.set_source false i) src n) with (base_read i src n) in *.
  unfold BufferedInput.do_read. in_cbn. rewrite Ha, Hreq, Hr. in_cbn.
  pose proof Hp as (_ & _ & Hne'%nonempty_length & _).
  destruct (Z.eqb_spec (Z.of_nat (length p)) 0); [lia|]. in_cbn.
  eexists _, p. rewrite Hact'. split; [reflexivity|]. split; [by split|]. done.
Qed.

Lemma unread_ok i d :
  resting i → d ≠ [] → len (BufferedInput.buffer i) + len d <= BufferedInput.max_buffer i →
  ∃ i', BufferedInput.evd_buffered_input_stream_unread i d = (i', [BufferedInput.Unread d], inl (len d)) ∧
    BufferedInput.buffer i' = d ++ BufferedInput.buffer i ∧ resting i' ∧
    BufferedInput.max_buffer i' = BufferedInput.max_buffer i.
Proof.
  intros [Ha Hf] Hd%nonempty_length Hmax. unfold BufferedInput.evd_buffered_input_stream_unread, len in *.
  destruct (Z.eqb_spec (Z.of_nat (length d)) 0); [lia|].
  destruct (Z.ltb_spec (BufferedInput.max_buffer i)
    (Z.of_nat (length (BufferedInput.buffer i)) + Z.of_nat (length d))); [lia|].
  in_cbn. rewrite Hf. unfold BufferedInput.evd_buffered_input_stream_thaw, BufferedInput.set_frozen.
  in_cbn. rewrite Ha. in_cbn. eexists. split; [reflexivity|]. done.
Qed.

(** ** Buffers *)

Lemma length_set_size n b : 0 <= n → length (set_size n b) = Z.to_nat n.
Proof. intros. unfold set_size. rewrite length_app, length_take, length_replicate. lia. Qed.

Lemma set_size_grow b k : set_size (len b + Z.of_nat k) b = b ++ replicate k 0.
Proof.
  unfold set_size, len. rewrite take_ge by lia. do 2 f_equal. lia.
Qed.

Lemma overwrite_app a p z : (length p <= length z)%nat →
  overwrite (length a) p (a ++ z) = a ++ p ++ drop (length p) z.
Proof.
  intros. unfold overwrite. rewrite take_app_length. do 2 f_equal.
  rewrite drop_app_ge by lia. f_equal. lia.
Qed.

Lemma truncate_app a z n : n = len a → len a < 18446744073709551616 → truncate n (a ++ z) = a.
Proof.
  intros -> Hl. unfold truncate, u64, len in *. rewrite Z.mod_small by lia. rewrite length_app.
  rewrite Z.min_l by lia. rewrite Nat2Z.id. apply take_app_length.
Qed.

Lemma len_to_nat b : Z.to_nat (len b) = length b.
Proof. apply Nat2Z.id. Qed.
Lemma drop_len a b : drop (Z.to_nat (len a)) (a ++ b) = b.
Proof. unfold len. rewrite Nat2Z.id. apply drop_app_length. Qed.
Lemma take_len a b : take (Z.to_nat (len a)) (a ++ b) = a.
Proof. unfold len. rewrite Nat2Z.id. apply take_app_length. Qed.

Section Spec.
Context `{Soup}.

Record net := mkNet { conn : EvdHttpConnection; source : list Z }.

(** What the connection has still to read. *)
Definition stream (w : net) : list Z := BufferedInput.buffer (input (conn w)) ++ source w.

(** The source of the input stream runs once; the base stream gives at most [n] bytes. *)
Definition net_step (n : nat) (w : net) : option (net * list event) :=
  let '(a, src) := base_read (input (conn w)) (source w) n in
  '(c, evs) ← run_input (conn w) a;
  Some (mkNet c src, evs).

Fixpoint net_run (ns : list nat) (w : net) : option (net * list event) :=
  match ns with
  | [] => Some (w, [])
  | n :: ns =>
      '(w, evs) ← net_step n w;
      '(w, evs') ← net_run ns w;
      Some (w, evs ++ evs')
  end.

(** One turn with a read under way: the handler gets a piece of the stream. *)
Lemma net_step_piece n w size d h :
  awaiting (input (conn w)) size → 0 < size → (0 < n)%nat → stream w ≠ [] → reading (conn w) = Some (d, h) →
  ∃ i' src' p, resting i' ∧ piece_of (input (conn w)) i' (source w) src' n size p ∧
    net_step n w = '(c, evs) ← read_done (with_input i' (Some (d, h)) (conn w)) (inl p); Some (mkNet c src', evs).
Proof.
  intros Haw Hs Hn Hne Hr. destruct (do_read_piece _ (source w) n size Haw Hs Hn Hne) as (i' & p & Hd & Hrest & Hp).
  exists i', (base_read (input (conn w)) (source w) n).2, p. split_and!; [done..|].
  unfold net_step. destruct (base_read (input (conn w)) (source w) n) as [a src']. cbn [fst snd] in *.
  unfold run_input. rewrite Hd. cbn [input_events]. by rewrite Hr.
Qed.

(** ** Headers *)

(** What headers do not change. *)
Definition same (c c0 : EvdHttpConnection) : Prop :=
  async_result c = async_result c0 ∧ tls_active c = tls_active c0 ∧ closed c = closed c0 ∧
  connected c = connected c0.

Lemma same_trans c1 c2 c3 : same c1 c2 → same c2 c3 → same c1 c3.
Proof. intros (? & ? & ? & ?) (? & ? & ? & ?). split_and!; congruence. Qed.

(** A block of headers is being read, [seen] was before. *)
Record reading_headers (c0 : EvdHttpConnection) (w : net) (seen : list Z) : Prop := mkReadingHeaders {
  rh_same : same (conn w) c0;
  rh_buf : buf (conn w) = seen ++ replicate 256 0;
  rh_reading : reading (conn w) = Some (AtBuf (length seen), OnReadHeadersBlock);
  rh_await : awaiting (input (conn w)) 256;
  rh_max : 256 <= BufferedInput.max_buffer (input (conn w)) ∧
    len (BufferedInput.buffer (input (conn w))) <= BufferedInput.max_buffer (input (conn w));
  rh_pos : last_headers_pos (conn w) = 12 ∨ last_headers_pos (conn w) = len seen - 3 ∧ 3 <= len seen
}.

(** The next block. *)
Lemma headers_block_next c0 c src seen :
  same c c0 → buf c = seen → resting (input c) → len seen <= 16128 →
  256 <= BufferedInput.max_buffer (input c) →
  len (BufferedInput.buffer (input c)) <= BufferedInput.max_buffer (input c) →
  last_headers_pos c = 12 ∨ last_headers_pos c = len seen - 3 ∧ 3 <= len seen →
  reading_headers c0 (mkNet (evd_http_connection_read_headers_block c) src) seen.
Proof.
  intros Hsame Hbuf [Ha Hf] Hlen Hm1 Hm2 Hpos. unfold evd_http_connection_read_headers_block.
  rewrite Hbuf. unfold MAX_HEADERS_SIZE, HEADER_BLOCK_SIZE. rewrite Z.min_r by lia.
  destruct (Z.leb_spec (len seen + 256 - len seen) 0); [lia|].
  replace (len seen + 256 - len seen) with 256 by lia.
  constructor; cbn [conn read_async with_input with_buf input buf reading last_headers_pos]; try done.
  apply (set_size_grow seen 256).
Qed.

(** The connection once a piece is stored after what was seen. *)
Definition received (seen p : list Z) (c : EvdHttpConnection) : EvdHttpConnection :=
  with_buf (seen ++ p) (with_input (input c) None c).

Lemma headers_received c seen p :
  buf c = seen ++ replicate 256 0 → reading c = Some (AtBuf (length seen), OnReadHeadersBlock) →
  len p <= 256 → len seen <= 16128 →
  let stored := with_buf (overwrite (length seen) p (buf c)) (with_input (input c) None c) in
  read_done c (inl p) = evd_http_connection_on_read_headers_block stored (inl p) ∧
  (if 0 <? HEADER_BLOCK_SIZE - len p
   then with_buf (truncate (len (buf stored) - (HEADER_BLOCK_SIZE - len p)) (buf stored)) stored
   else stored) = received seen p c.
Proof.
  intros Hb Hr Hp Hs stored. split; [unfold read_done; by rewrite Hr|]. unfold len in Hp, Hs.
  assert (buf stored = (seen ++ p) ++ replicate (256 - length p) 0) as Hst.
  { cbn. rewrite Hb, overwrite_app by (rewrite length_replicate; lia).
    rewrite drop_replicate, <-app_assoc. done. }
  unfold received. destruct (Z.ltb_spec 0 (HEADER_BLOCK_SIZE - len p)) as [Hlt|Hge].
  - rewrite Hst, truncate_app; [done|..]; unfold HEADER_BLOCK_SIZE, len in *;
      rewrite ?length_app, ?length_replicate; lia.
  - unfold HEADER_BLOCK_SIZE, len in Hge. replace (256 - length p)%nat with 0%nat in Hst by lia.
    rewrite app_nil_r in Hst. subst stored. cbn [buf with_buf] in Hst. by rewrite Hst.
Qed.

Lemma headers_cut c seen p :
  buf c = seen ++ replicate 256 0 → reading c = Some (AtBuf (length seen), OnReadHeadersBlock) →
  len p <= 256 → len seen <= 16128 → len (seen ++ p) <= 16128 →
  evd_http_connection_find_end_headers_mark (seen ++ p) (last_headers_pos c) = Some (-1) →
  read_done c (inl p) =
    Some (evd_http_connection_read_headers_block (with_pos (len (seen ++ p) - 3) (received seen p c)), []).
Proof.
  intros Hb Hr Hp Hs Hs' Hf. destruct (headers_received c seen p Hb Hr Hp Hs) as [-> E].
  unfold evd_http_connection_on_read_headers_block. rewrite E.
  change (buf (received seen p c)) with (seen ++ p).
  change (last_headers_pos (received seen p c)) with (last_headers_pos c). rewrite Hf.
  cbn [mbind option_bind Z.ltb Z.compare].
  destruct (Z.ltb_spec (len (seen ++ p)) MAX_HEADERS_SIZE); [done|]. unfold MAX_HEADERS_SIZE in *. lia.
Qed.

(** The mark is found: the headers are parsed, the rest goes back to the stream. *)
Lemma headers_end c seen p text r :
  buf c = seen ++ replicate 256 0 → reading c = Some (AtBuf (length seen), OnReadHeadersBlock) →
  len p <= 256 → len seen <= 16128 → seen ++ p = text ++ r → text ≠ [] →
  evd_http_connection_find_end_headers_mark (seen ++ p) (last_headers_pos c) = Some (len text) →
  resting (input c) → len (BufferedInput.buffer (input c)) + len r <= BufferedInput.max_buffer (input c) →
  ∃ cx, read_done c (inl p) =
      Some (with_buf [] (with_pos 0 (evd_http_connection_on_read_headers cx text).1),
            (evd_http_connection_on_read_headers cx text).2) ∧
    same cx c ∧ BufferedInput.buffer (input cx) = r ++ BufferedInput.buffer (input c) ∧ resting (input cx) ∧
    BufferedInput.max_buffer (input cx) = BufferedInput.max_buffer (input c).
Proof.
  intros Hb Hr Hp Hs Htext Hne Hf Hrest Hmax. destruct (headers_received c seen p Hb Hr Hp Hs) as [-> E].
  unfold evd_http_connection_on_read_headers_block. rewrite E. unfold received. rewrite Htext in *.
  cbn [buf with_buf last_headers_pos with_input]. rewrite Hf. run_bind. apply nonempty_length in Hne.
  destruct (Z.ltb_spec 0 (len text)) as [_|]; [|unfold len in *; lia].
  rewrite !drop_len, !take_len. destruct r as [|x r].
  - rewrite app_nil_r. exists (with_buf text (with_input (input c) None c)). split; [|by split_and!].
    cbn [buf with_buf with_input reading]. by destruct (evd_http_connection_on_read_headers _ text).
  - destruct (unread_ok (input c) (x :: r) Hrest ltac:(done) Hmax) as (i' & Hu & Hb' & Hr' & Hm').
    cbn [input with_buf with_input]. rewrite Hu.
    exists (with_buf text (with_input i' None c)). split; [|by split_and!].
    cbn [buf with_buf with_input reading]. by destruct (evd_http_connection_on_read_headers _ text).
Qed.

(** Parsing does not touch the streams, and its outcome depends on the operation under way only. *)
Lemma on_read_headers_input c b :
  let c' := (evd_http_connection_on_read_headers c b).1 in
  input c' = input c ∧ closed c' = closed c ∧ connected c' = connected c ∧ tls_active c' = tls_active c.
Proof. unfold evd_http_connection_on_read_headers. repeat case_match; by split_and!. Qed.

Lemma on_read_headers_same c c0 b :
  same c c0 →
  (evd_http_connection_on_read_headers c b).2 = (evd_http_connection_on_read_headers c0 b).2 ∧
  (is_Some (async_result c0) → async_result (evd_http_connection_on_read_headers c b).1 = None ∧
     pending (evd_http_connection_on_read_headers c b).1 = false).
Proof.
  intros (Ha & Ht & _ & _). unfold evd_http_connection_on_read_headers. rewrite Ha.
  destruct (async_result c0) as [a|]; [|by split; [|intros []]].
  assert (∀ p h, evd_http_connection_build_uri (with_async None (g_io_stream_clear_pending c)) p h =
                 evd_http_connection_build_uri (with_async None (g_io_stream_clear_pending c0)) p h) as Hu.
  { intros p h. unfold evd_http_connection_build_uri. cbn [tls_active with_async g_io_stream_clear_pending with_flags].
    by rewrite Ht. }
  split; [|by intros _; repeat case_match].
  destruct (decide _); [|by destruct (decide _); repeat case_match].
  destruct (soup_headers_parse_request _) as [st [[[h m] p] v]]. destruct m; [|done].
  destruct (_ && _); [|done]. by rewrite Hu.
Qed.

Section Headers.
Context (l : list Z) (lines : list (list Z)) (rest : list Z).
Abbreviation text := (header_text (l :: lines)).
Hypotheses (Hok : Forall line_ok (l :: lines)) (Hplain : plain (str_at rest 0))
  (Hlow : 12 < len text) (Hhigh : len text <= 16128).

(** The operation has ended, with the parsed text, and what follows is still to be read. *)
Definition headers_done (c0 : EvdHttpConnection) (w : net) (evs : list event) : Prop :=
  evs = (evd_http_connection_on_read_headers c0 text).2 ∧
  (∃ cx, same cx c0 ∧ conn w = with_buf [] (with_pos 0 (evd_http_connection_on_read_headers cx text).1)) ∧
  stream w = rest ∧ resting (input (conn w)) ∧ 256 <= BufferedInput.max_buffer (input (conn w)) ∧
  len (BufferedInput.buffer (input (conn w))) <= BufferedInput.max_buffer (input (conn w)).

Lemma plain_prefix r r' : rest = r ++ r' → plain (str_at r 0).
Proof using Hplain. intros E. rewrite E in Hplain. by destruct r. Qed.

(** What was seen and the piece are cut before the mark, or hold it. *)
Lemma cut_before a b : a ++ b = text ++ rest → len a < len text → a = take (length a) text.
Proof.
  intros E Hlt. unfold len in Hlt. rewrite <-(take_app_length a b) at 1. rewrite E. apply take_app_le. lia.
Qed.

Lemma cut_after a b : a ++ b = text ++ rest → len text <= len a → ∃ r, a = text ++ r ∧ rest = r ++ b.
Proof.
  intros E Hle. unfold len in Hle. exists (drop (length text) a).
  assert (text = take (length text) a) as Ht.
  { rewrite <-(take_app_length text rest) at 1. rewrite <-E. apply take_app_le. lia. }
  split; [by rewrite Ht at 1; rewrite take_drop|].
  rewrite <-(drop_app_length text rest), <-E. apply drop_app_le. lia.
Qed.

Section Turn.
Context (c0 : EvdHttpConnection) (w : net) (seen : list Z) (n : nat).
Context (i' : BufferedInput.EvdBufferedInputStreamPrivate) (src' p : list Z).
Hypotheses (Hrh : reading_headers c0 w seen) (Hall : seen ++ stream w = text ++ rest)
  (Hseen : len seen < len text) (H3 : 3 <= len seen + Z.of_nat n)
  (Hres : resting i') (Hp : piece_of (input (conn w)) i' (source w) src' n 256 p).
Let c := with_input i' (reading (conn w)) (conn w).

Lemma turn_all : (seen ++ p) ++ BufferedInput.buffer i' ++ src' = text ++ rest.
Proof using Hall Hp. destruct Hp as [Hcat _]. rewrite <-app_assoc, Hcat. done. Qed.

Lemma turn_pos : 0 <= last_headers_pos (conn w) < len text.
Proof using Hrh Hseen Hlow. clear H3. unfold len in *. destruct (rh_pos _ _ _ Hrh) as [->|[-> ?]]; unfold len in *; lia. Qed.

Lemma turn_three : 3 <= len (seen ++ p).
Proof using Hall H3 Hp Hseen Hlow.
  destruct Hp as (_ & Hmin & _). apply (f_equal length) in Hall. unfold stream in Hall. unfold len in *.
  rewrite !length_app in *. lia.
Qed.

Lemma turn_cut :
  len (seen ++ p) < len text →
  ∃ c', read_done c (inl p) = Some (c', []) ∧ reading_headers c0 (mkNet c' src') (seen ++ p) ∧
    BufferedInput.buffer (input c') = BufferedInput.buffer i'.
Proof using All.
  intros Hlt. pose proof turn_all as Ha. pose proof turn_pos as Hpos. pose proof turn_three.
  destruct Hrh as [Hsame Hbuf Hr Haw [Hm1 Hm2] _]. destruct Hp as (_ & _ & _ & Hple & Hmax & Hb').
  rewrite (headers_cut c seen p Hbuf Hr Hple ltac:(lia) ltac:(lia)).
  2:{ rewrite (cut_before _ _ Ha Hlt). apply header_cut_not_found; [done|unfold len in Hlt; lia|apply Hpos]. }
  eexists. split; [reflexivity|].
  assert (reading_headers c0 (mkNet (evd_http_connection_read_headers_block
    (with_pos (len (seen ++ p) - 3) (received seen p c))) src') (seen ++ p)) as Hnext.
  { apply headers_block_next; try done; unfold received, c;
      cbn [with_pos with_buf with_input buf input last_headers_pos]; [lia|by rewrite Hmax| |by right].
    rewrite Hmax. destruct Hb' as [->|E]; [change (len []) with 0; lia|]. unfold len in *. rewrite <-E, length_app in Hm2. lia. }
  split; [done|]. unfold evd_http_connection_read_headers_block. by case_match.
Qed.

Lemma turn_end :
  len text <= len (seen ++ p) →
  ∃ c' evs, read_done c (inl p) = Some (c', evs) ∧ headers_done c0 (mkNet c' src') evs.
Proof using All.
  intros Hge. pose proof turn_all as Ha. pose proof turn_pos as Hpos.
  destruct Hrh as [Hsame Hbuf Hr Haw [Hm1 Hm2] _]. destruct Hp as (_ & _ & _ & Hple & Hmax & Hb').
  destruct (cut_after _ _ Ha Hge) as (r & Hr1 & Hr2).
  assert (len (BufferedInput.buffer i') + len r <= BufferedInput.max_buffer i') as Hfit.
  { rewrite Hmax. apply (f_equal length) in Hr1. unfold len in *. rewrite !length_app in Hr1.
    destruct Hb' as [->|E]; [simpl; lia|]. rewrite <-E, length_app in Hm2. lia. }
  destruct (headers_end c seen p text r Hbuf Hr Hple ltac:(lia) Hr1) as (cx & -> & Hs' & Hbx & Hx1 & Hx2);
    [by apply nonempty_length; unfold len in Hlow; lia| |done|done|].
  { rewrite Hr1. apply header_mark_found; [done|by eapply plain_prefix|apply Hpos]. }
  pose proof (same_trans _ (conn w) _ Hs' Hsame) as Hsx.
  destruct (on_read_headers_same cx c0 text Hsx) as [Hev _]. destruct (on_read_headers_input cx text) as (Hi & _).
  eexists _, _. split; [reflexivity|]. split; [done|]. split; [by exists cx|].
  unfold stream. cbn [conn source with_buf with_pos input]. rewrite Hi, Hbx, Hx2. unfold c in *. cbn [input with_input] in *.
  split_and!; [by rewrite <-app_assoc|by apply Hx1|by rewrite Hmax|].
  unfold len in *. rewrite length_app. lia.
Qed.

End Turn.

Lemma headers_turn c0 w seen n :
  reading_headers c0 w seen → seen ++ stream w = text ++ rest → len seen < len text →
  (0 < n)%nat → 3 <= len seen + Z.of_nat n →
  ∃ w' evs, net_step n w = Some (w', evs) ∧
    (headers_done c0 w' evs ∨
     evs = [] ∧ ∃ p, p ≠ [] ∧ reading_headers c0 w' (seen ++ p) ∧ (seen ++ p) ++ stream w' = text ++ rest ∧
       len (seen ++ p) < len text ∧ 3 <= len (seen ++ p)).
Proof using Hok Hplain Hlow Hhigh.
  intros Hrh Hall Hseen Hn H3.
  assert (stream w ≠ []) as Hne.
  { intros E. rewrite E, app_nil_r in Hall. rewrite Hall in Hseen. unfold len in Hseen.
    rewrite length_app in Hseen. lia. }
  destruct (net_step_piece n w 256 _ _ (rh_await _ _ _ Hrh) ltac:(lia) Hn Hne (rh_reading _ _ _ Hrh))
    as (i' & src' & p & Hres & Hp & ->). rewrite <-(rh_reading _ _ _ Hrh).
  destruct (decide (len (seen ++ p) < len text)) as [Hlt|Hge].
  - destruct (turn_cut c0 w seen n i' src' p) as (c' & -> & Hnext & Hb); try done. run_bind.
    eexists _, _. split; [reflexivity|]. right. split; [done|]. exists p. split_and!; [apply Hp|done| |done|].
    + unfold stream. cbn [conn source]. rewrite Hb. by eapply turn_all.
    + by eapply turn_three.
  - destruct (turn_end c0 w seen n i' src' p) as (c' & evs & -> & Hd); try done; [lia|]. run_bind. eauto.
Qed.

Lemma headers_run c0 k : ∀ w seen ns,
  reading_headers c0 w seen → seen ++ stream w = text ++ rest → len seen < len text →
  Z.to_nat (len text - len seen) = k → Forall (λ n, 0 < n)%nat ns → (k <= length ns)%nat →
  (seen = [] → ∃ n ns', ns = n :: ns' ∧ (3 <= n)%nat) → seen = [] ∨ 3 <= len seen →
  ∃ m w', (m <= length ns)%nat ∧
    net_run (take m ns) w = Some (w', (evd_http_connection_on_read_headers c0 text).2) ∧
    headers_done c0 w' (evd_http_connection_on_read_headers c0 text).2.
Proof using Hok Hplain Hlow Hhigh.
  induction k as [k IH] using lt_wf_ind. intros w seen ns Hrh Hall Hlt Hk Hns Hlen Hfirst H3.
  destruct ns as [|n ns]; [simpl in Hlen; lia|]. apply Forall_cons_1 in Hns as [Hn Hns].
  destruct (headers_turn c0 w seen n) as (w' & evs & Hstep & Hout); try done.
  { destruct H3 as [E|?]; [|lia]. destruct (Hfirst E) as (? & ? & [= <- <-] & ?). unfold len. lia. }
  destruct Hout as [Hd|(-> & p & Hp%nonempty_length & Hrh' & Hall' & Hlt' & H3')].
  - exists 1%nat, w'. split; [simpl; lia|]. pose proof Hd as [-> _]. split; [|done].
    cbn [take net_run]. rewrite Hstep. run_bind. rewrite take_0. cbn [net_run]. run_bind. by rewrite app_nil_r.
  - destruct (IH (Z.to_nat (len text - len (seen ++ p)))) with (w := w') (seen := seen ++ p) (ns := ns)
      as (m & w'' & Hm & Hrun & Hd); try done; try (by right);
      try (unfold len in *; rewrite length_app in *; simpl in Hlen; lia).
    + intros E. rewrite E in H3'. by change (len []) with 0 in H3'.
    + exists (S m), w''. split; [simpl; lia|]. split; [|done]. cbn [take net_run]. rewrite Hstep. run_bind.
      rewrite Hrun. run_bind. done.
Qed.

End Headers.

(** ** Bodies with a length *)

Section Body.
Context (body next : list Z) (a : async).
Hypotheses (Hpos : 0 < len body < 9223372036854775808)
  (Htag : tag a = read_all_content_tag).

Definition block_size (got : list Z) : Z := Z.min (len body - len got) 4096.

(** The body is being read, [got] was before. *)
Record reading_body (w : net) (got : list Z) : Prop := mkReadingBody {
  rb_async : async_result (conn w) = Some a;
  rb_encoding : encoding (conn w) = SOUP_ENCODING_CONTENT_LENGTH;
  rb_len : content_len (conn w) = len body;
  rb_read : content_read (conn w) = len got;
  rb_connected : connected (conn w) = true;
  rb_buf : ∃ z, buf (conn w) = got ++ z ∧ len z = block_size got;
  rb_reading : reading (conn w) = Some (AtBuf (length got), OnReadContentBlock);
  rb_await : awaiting (input (conn w)) (block_size got)
}.

Lemma body_block_next c src got z :
  async_result c = Some a → encoding c = SOUP_ENCODING_CONTENT_LENGTH → content_len c = len body →
  content_read c = len got → connected c = true → len got < len body → buf c = got ++ z →
  len z <= block_size got → BufferedInput.frozen (input c) = false →
  reading_body (mkNet (evd_http_connection_read_next_content_block c) src) got ∧
  BufferedInput.buffer (input (evd_http_connection_read_next_content_block c)) =
    BufferedInput.buffer (input c).
Proof using Hpos.
  intros Ha He Hl Hr Hc Hlt Hb Hz Hf. unfold evd_http_connection_read_next_content_block.
  rewrite He. destruct (decide _); [done|]. destruct (decide _); [|done]. rewrite Hl, Hr.
  assert (u64 (len body - len got) = len body - len got) as -> by (unfold u64; apply Z.mod_small; unfold len in *; lia).
  fold CONTENT_BLOCK_SIZE in *. change (Z.min (len body - len got) CONTENT_BLOCK_SIZE) with (block_size got).
  assert (0 < block_size got) by (unfold block_size; lia).
  destruct (Z.ltb_spec (len (buf c)) (len got + block_size got)) as [Hgrow|Hgrow].
  - split; [|done]. rewrite Hb in *. unfold len in *. rewrite length_app in *.
    constructor; try done; cbn [conn evd_http_connection_read_content_block read_async with_input with_buf input buf reading].
    + exists (z ++ replicate (Z.to_nat (block_size got) - length z) 0).
      rewrite app_assoc. unfold set_size. rewrite length_app, take_ge by (rewrite length_app; lia). split.
      * do 2 f_equal. lia.
      * unfold len. rewrite length_app, length_replicate. lia.
    + do 3 f_equal. unfold len. rewrite length_set_size by lia. lia.
  - split; [|done]. rewrite Hb in Hgrow. unfold len in *. rewrite length_app in Hgrow.
    constructor; try done; cbn [conn evd_http_connection_read_content_block read_async with_input with_buf input buf reading].
    + exists z. split; [done|]. unfold len. lia.
    + rewrite Hb. do 3 f_equal. unfold len. rewrite length_app. lia.
Qed.

(** The operation has ended with the body in the buffer. *)
Definition body_done (w : net) : Prop :=
  async_result (conn w) = None ∧ pending (conn w) = false ∧ buf (conn w) = body ∧
  content_read (conn w) = len body ∧ stream w = next ∧ resting (input (conn w)).

Lemma set_size_app got z : set_size (len got) (got ++ z) = got.
Proof. unfold set_size, len. rewrite Nat2Z.id, take_app_length, length_app.
  replace (length got - (length got + length z))%nat with 0%nat by lia. apply app_nil_r. Qed.

(** The connection once a piece is stored after what was got. *)
Definition body_received (i : BufferedInput.EvdBufferedInputStreamPrivate) (got p z : list Z)
    (c : EvdHttpConnection) : EvdHttpConnection :=
  with_content_read (len (got ++ p)) (with_buf ((got ++ p) ++ drop (length p) z) (with_input i None c)).

Lemma body_read_done w got p i z :
  reading_body w got → buf (conn w) = got ++ z → len z = block_size got → p ≠ [] → len p <= block_size got →
  read_done (with_input i (Some (AtBuf (length got), OnReadContentBlock)) (conn w)) (inl p) =
  let c := body_received i got p z (conn w) in
  if len body <=? len (got ++ p) then
    Some (with_buf (got ++ p) (g_io_stream_clear_pending (with_async None c)), [Completed a false])
  else Some (evd_http_connection_read_next_content_block c, []).
Proof using Hpos Htag.
  intros [Ha He Hl Hr Hc _ _ _] Hb Hz Hp%nonempty_length Hple.
  unfold read_done. cbn [reading with_input]. unfold evd_http_connection_on_read_content_block.
  destruct (Z.ltb_spec 0 (len p)); [|unfold len in *; lia].
  unfold evd_http_connection_process_read_content. cbn [encoding with_input with_buf].
  rewrite He. destruct (decide _); [done|]. run_bind.
  cbn [buf with_input with_buf with_content_read connected content_len content_read encoding async_result].
  rewrite Hc, He, Hl, Hr, Ha. rewrite bool_decide_eq_true_2 by done.
  cbn [negb orb andb fmap option_fmap option_map]. rewrite Htag.
  assert (u64 (len body) = len body) as -> by (unfold u64; apply Z.mod_small; lia).
  rewrite Hb, overwrite_app by (unfold len in *; lia). rewrite app_assoc.
  replace (len got + len p) with (len (got ++ p)) by (unfold len; rewrite length_app; lia).
  destruct (len body <=? len (got ++ p)); [|done]. rewrite set_size_app.
  unfold complete_content. cbn [async_result with_buf with_content_read with_input]. by rewrite Ha.
Qed.

Lemma body_turn w got n :
  reading_body w got → got ++ stream w = body ++ next → len got < len body → (0 < n)%nat →
  ∃ w' evs, net_step n w = Some (w', evs) ∧
    (evs = [Completed a false] ∧ body_done w' ∨
     evs = [] ∧ ∃ p, p ≠ [] ∧ reading_body w' (got ++ p) ∧ (got ++ p) ++ stream w' = body ++ next ∧
       len (got ++ p) < len body).
Proof using Hpos Htag.
  intros Hrb Hall Hlt Hn. pose proof Hrb as [Ha He Hl Hr Hc (z & Hb & Hz) Hrd Haw].
  assert (stream w ≠ []) as Hne.
  { intros E. rewrite E, app_nil_r in Hall. rewrite Hall in Hlt. unfold len in Hlt. rewrite length_app in Hlt. lia. }
  assert (0 < block_size got <= len body - len got) as Hbs by (unfold block_size; lia).
  destruct (net_step_piece n w _ _ _ Haw ltac:(lia) Hn Hne Hrd) as (i' & src' & p & Hres & Hp & ->).
  destruct Hp as (Hcat & _ & Hpne & Hple & _).
  assert ((got ++ p) ++ BufferedInput.buffer i' ++ src' = body ++ next) as Hall'
    by (rewrite <-app_assoc, Hcat; done).
  rewrite (body_read_done w got p i' z) by done. cbv zeta.
  destruct (Z.leb_spec (len body) (len (got ++ p))) as [Hge|Hlt'].
  - run_bind. eexists _, _. split; [reflexivity|]. left. split; [done|].
    assert (got ++ p = body ∧ BufferedInput.buffer i' ++ src' = next) as [E1 E2].
    { apply app_inj_1; [|done]. unfold len in *. rewrite length_app in *. lia. }
    unfold body_received. rewrite E1. by split_and!.
  - run_bind. eexists _, _. split; [reflexivity|]. right. split; [done|]. exists p. split; [done|].
    destruct (body_block_next (body_received i' got p z (conn w)) src' (got ++ p) (drop (length p) z))
      as [Hnext Hbuf]; try done.
    + unfold block_size, len in *. rewrite length_drop, length_app in *. lia.
    + by destruct Hres.
    + split_and!; [done| |done]. unfold stream. cbn [conn source]. by rewrite Hbuf.
Qed.

Lemma body_run k : ∀ w got ns,
  reading_body w got → got ++ stream w = body ++ next → len got < len body →
  Z.to_nat (len body - len got) = k → Forall (λ n, 0 < n)%nat ns → (k <= length ns)%nat →
  ∃ m w', (m <= length ns)%nat ∧ net_run (take m ns) w = Some (w', [Completed a false]) ∧ body_done w'.
Proof using Hpos Htag.
  induction k as [k IH] using lt_wf_ind. intros w got ns Hrb Hall Hlt Hk Hns Hlen.
  destruct ns as [|n ns]; [simpl in Hlen; lia|]. apply Forall_cons_1 in Hns as [Hn Hns].
  destruct (body_turn w got n) as (w' & evs & Hstep & Hout); try done.
  destruct Hout as [[-> Hd]|(-> & p & Hp%nonempty_length & Hrb' & Hall' & Hlt')].
  - exists 1%nat, w'. split; [simpl; lia|]. split; [|done]. cbn [take net_run]. rewrite Hstep.
    run_bind. rewrite take_0. cbn [net_run]. run_bind. done.
  - destruct (IH (Z.to_nat (len body - len (got ++ p)))) with (w := w') (got := got ++ p) (ns := ns)
      as (m & w'' & Hm & Hrun & Hd); try done;
      try (unfold len in *; rewrite length_app in *; simpl in Hlen; lia).
    exists (S m), w''. split; [simpl; lia|]. split; [|done]. cbn [take net_run]. rewrite Hstep. run_bind.
    rewrite Hrun. run_bind. done.
Qed.

End Body.

(** ** Chunked bodies *)

(** The decoder's output goes to the end of the buffer. *)
Definition decoded (d : ChunkedDecoder.EvdHttpChunkedDecoderPrivate) (o : list Z) (c : EvdHttpConnection)
  : EvdHttpConnection :=
  with_content_read (content_read c + len o) (with_buf (buf c ++ o) (with_decoder d c)).

Lemma decoded_decoded d1 o1 d2 o2 c : decoded d2 o2 (decoded d1 o1 c) = decoded d2 (o1 ++ o2) c.
Proof.
  unfold decoded.
  assert (len (o1 ++ o2) = len o1 + len o2) as -> by (unfold len; rewrite length_app; lia).
  rewrite Z.add_assoc, app_assoc. reflexivity.
Qed.

(** One block against the decoding of the whole stream. *)
Lemma convert_blocks_decode fuel : ∀ input l' c p' k out,
  ChunkedDecoderSpec.decoder_ok (chunked_decoder c) → input ≠ [] → (length input <= fuel)%nat →
  ChunkedDecoderSpec.decode (chunked_decoder c) (input ++ l') =
    ChunkedDecoder.Converted p' k out ChunkedDecoder.CONVERTER_FINISHED →
  (convert_blocks fuel input c = Some (decoded p' out c, ChunkedDecoder.CONVERTER_FINISHED) ∧
     ChunkedDecoderSpec.decoder_ok p') ∨
  ∃ d o k2 o2, convert_blocks fuel input c = Some (decoded d o c, ChunkedDecoder.CONVERTER_CONVERTED) ∧
    ChunkedDecoderSpec.decoder_ok d ∧ out = o ++ o2 ∧
    ChunkedDecoderSpec.decode d l' = ChunkedDecoder.Converted p' k2 o2 ChunkedDecoder.CONVERTER_FINISHED.
Proof.
  induction fuel as [|fuel IH]; intros input l' c p' k out Hok Hne Hlen Hd.
  { apply nonempty_length in Hne. lia. }
  cbn [convert_blocks]. rewrite ChunkedDecoderSpec.convert_eq by done.
  pose proof (ChunkedDecoderSpec.ref_loop_decode (input ++ l') (chunked_decoder c) (length input) 1024 Hok) as Hl.
  rewrite take_app_length in Hl.
  destruct (ChunkedDecoderSpec.ref_loop (chunked_decoder c) input 1024) as [| |d1 k1 o1 r1] eqn:E; [congruence..|].
  pose proof (ChunkedDecoderSpec.ref_loop_bounds _ _ 1024 _ _ _ _ Hok ltac:(lia) E) as (Hk & _ & Hok1).
  cbn [ChunkedDecoderSpec.flagged]. rewrite andb_false_r. destruct r1.
  - congruence.
  - destruct Hl as (Hd1 & _ & _ & Hprog). rewrite Hd in Hd1.
    assert (0 < k1) as Hk1.
    { apply Hprog; [by apply nonempty_length|lia|]. by intros [??]%app_nil. }
    rewrite drop_app_le in Hd1 by lia.
    destruct (ChunkedDecoderSpec.decode d1 (drop (Z.to_nat k1) input ++ l')) as [| |p2 k2 o2 r2] eqn:E2; try done.
    cbn in Hd1. injection Hd1 as -> -> -> <-. fold (decoded d1 o1 c).
    destruct (drop (Z.to_nat k1) input) as [|x rest] eqn:Er.
    + right. by exists d1, o1, k2, o2.
    + destruct (IH (x :: rest) l' (decoded d1 o1 c) p2 k2 o2 Hok1 ltac:(done)) as [[Hb Hok2]|(d & o & k3 & o3 & Hb & Hd3 & -> & Hdec)];
        [apply (f_equal length) in Er; rewrite length_drop in Er; simpl in *; lia|done|..].
      * left. by rewrite Hb, decoded_decoded.
      * right. exists d, (o1 ++ o), k3, o3. rewrite Hb, decoded_decoded. split_and!; try done. by rewrite app_assoc.
  - rewrite Hd in Hl. injection Hl as -> -> ->. by left.
  - congruence.
Qed.

Section Chunked.
Context (data : list Z) (a : async).
Hypothesis Htag : tag a = read_all_content_tag.

(** A chunked body is being read, [got] was decoded before, and the stream holds its end. *)
Record reading_chunks (w : net) (got : list Z) : Prop := mkReadingChunks {
  rc_async : async_result (conn w) = Some a;
  rc_encoding : encoding (conn w) = SOUP_ENCODING_CHUNKED;
  rc_read : content_read (conn w) = len got;
  rc_buf : buf (conn w) = got;
  rc_block : ∃ b, last_buf_block (conn w) = Some b ∧ length b = 4096%nat;
  rc_reading : reading (conn w) = Some (AtBlock, OnReadContentBlock);
  rc_await : awaiting (input (conn w)) 4096;
  rc_decoder : ChunkedDecoderSpec.decoder_ok (chunked_decoder (conn w));
  rc_rest : ∃ p k o, ChunkedDecoderSpec.decode (chunked_decoder (conn w)) (stream w) =
    ChunkedDecoder.Converted p k o ChunkedDecoder.CONVERTER_FINISHED ∧ got ++ o = data
}.

Definition chunks_done (w : net) : Prop :=
  async_result (conn w) = None ∧ pending (conn w) = false ∧ buf (conn w) = data ∧
  content_read (conn w) = len data ∧ ChunkedDecoderSpec.at_header (chunked_decoder (conn w)) ∧
  resting (input (conn w)).

(** The handler on a piece of the stream, with what the decoder makes of it. *)
Lemma chunks_received c b p d o r :
  async_result c = Some a → encoding c = SOUP_ENCODING_CHUNKED → last_buf_block c = Some b →
  reading c = Some (AtBlock, OnReadContentBlock) → p ≠ [] →
  let stored := with_block (Some (overwrite 0 p b)) (with_input (input c) None c) in
  convert_blocks (length p) p stored = Some (decoded d o stored, r) →
  content_read c = len (buf c) →
  read_done c (inl p) =
  match r with
  | ChunkedDecoder.CONVERTER_FINISHED | ChunkedDecoder.CONVERTER_ERROR =>
      Some (g_io_stream_clear_pending (with_async None
              (decoded (ChunkedDecoder.reset d) o stored)), [Completed a false])
  | _ => Some (evd_http_connection_read_next_content_block (decoded d o stored), [])
  end.
Proof using Htag.
  intros Ha He Hb Hr Hp%nonempty_length stored Hconv Hread. unfold read_done. rewrite Hr.
  cbn [last_buf_block with_input]. rewrite Hb. cbn [fmap option_fmap option_map]. fold stored.
  unfold evd_http_connection_on_read_content_block.
  destruct (Z.ltb_spec 0 (len p)); [|unfold len in *; lia].
  unfold evd_http_connection_process_read_content.
  change (encoding stored) with (encoding c). rewrite He. destruct (decide _); [|done].
  change (last_buf_block stored) with (Some (overwrite 0 p b)). run_bind. rewrite !len_to_nat.
  assert (take (length p) (overwrite 0 p b) = p) as -> by (unfold overwrite; rewrite take_0, app_nil_l; apply take_app_length).
  rewrite Hconv. run_bind.
  assert (∀ d', set_size (content_read (decoded d' o stored)) (buf (decoded d' o stored)) = buf (decoded d' o stored)) as Hsz.
  { intros d'. change (content_read (decoded d' o stored)) with (content_read c + len o).
    change (buf (decoded d' o stored)) with (buf c ++ o). rewrite Hread.
    replace (len (buf c) + len o) with (len (buf c ++ o)) by (unfold len; rewrite length_app; lia).
    rewrite <-(app_nil_r (buf c ++ o)) at 2. apply set_size_app. }
  assert (∀ d', async_result (decoded d' o stored) = Some a) as Ha' by done.
  destruct r; run_bind; cbn [async_result with_decoder]; rewrite Ha'; cbn [fmap option_fmap option_map]; rewrite Htag;
    try done; unfold complete_content; cbn [async_result with_buf with_decoder]; rewrite Ha';
    do 2 f_equal; change (with_decoder ?x (decoded d o stored)) with (decoded x o stored); by rewrite Hsz.
Qed.

Lemma chunks_block_next c src b p k o got :
  async_result c = Some a → encoding c = SOUP_ENCODING_CHUNKED → content_read c = len got → buf c = got →
  last_buf_block c = Some b → length b = 4096%nat → ChunkedDecoderSpec.decoder_ok (chunked_decoder c) →
  BufferedInput.frozen (input c) = false →
  ChunkedDecoderSpec.decode (chunked_decoder c) (BufferedInput.buffer (input c) ++ src) =
    ChunkedDecoder.Converted p k o ChunkedDecoder.CONVERTER_FINISHED → got ++ o = data →
  reading_chunks (mkNet (evd_http_connection_read_next_content_block c) src) got.
Proof.
  intros Ha He Hr Hb Hbl Hlen Hd Hf Hdec Hgot. unfold evd_http_connection_read_next_content_block.
  rewrite He. destruct (decide _); [|done]. rewrite Hbl.
  constructor; try done; [by exists b|]. by exists p, k, o.
Qed.

Lemma next_block_buffer c :
  BufferedInput.buffer (input (evd_http_connection_read_next_content_block c)) = BufferedInput.buffer (input c).
Proof. unfold evd_http_connection_read_next_content_block. by repeat case_match. Qed.

Lemma length_overwrite_0 p b : (length p <= length b)%nat → length (overwrite 0 p b) = length b.
Proof. intros. unfold overwrite. rewrite take_0, !length_app, length_drop. simpl. lia. Qed.

Lemma chunks_turn w got n :
  reading_chunks w got → (0 < n)%nat →
  ∃ w' evs, net_step n w = Some (w', evs) ∧
    (evs = [Completed a false] ∧ chunks_done w' ∨
     evs = [] ∧ (length (stream w') < length (stream w))%nat ∧ ∃ got', reading_chunks w' got').
Proof using Htag.
  intros [Ha He Hr Hb (b & Hbl & Hlen) Hrd Haw Hok (p' & k & o & Hdec & Hgot)] Hn.
  assert (stream w ≠ []) as Hne by (intros E; by rewrite E in Hdec).
  destruct (net_step_piece n w _ _ _ Haw ltac:(lia) Hn Hne Hrd) as (i' & src' & p & Hres & Hp & ->).
  destruct Hp as (Hcat & _ & Hpne & Hple & _). unfold stream in Hdec. rewrite <-Hcat in Hdec.
  set (c := with_input i' (Some (AtBlock, OnReadContentBlock)) (conn w)).
  set (stored := with_block (Some (overwrite 0 p b)) (with_input (input c) None c)).
  assert (content_read c = len (buf c)) as Hcr by (cbn; by rewrite Hr, Hb).
  assert (length (overwrite 0 p b) = 4096%nat) as Hlen'.
  { rewrite length_overwrite_0; [done|]. unfold len in Hple. lia. }
  destruct (convert_blocks_decode (length p) p (BufferedInput.buffer i' ++ src') stored p' k o Hok Hpne ltac:(done) Hdec)
    as [[Hcb Hok']|(d & o1 & k2 & o2 & Hcb & Hok' & -> & Hdec')].
  - rewrite (chunks_received c b p p' o _ Ha He Hbl eq_refl Hpne Hcb Hcr). run_bind.
    eexists _, _. split; [reflexivity|]. left. split; [done|].
    assert (buf c ++ o = data) as Hbd by (cbn; by rewrite Hb).
    assert (content_read c + len o = len data) as Hcd.
    { rewrite Hcr, <-Hbd. unfold len. rewrite length_app. lia. }
    split_and!; try done. by destruct Hok'.
  - rewrite (chunks_received c b p d o1 _ Ha He Hbl eq_refl Hpne Hcb Hcr). run_bind.
    eexists _, _. split; [reflexivity|]. right. split; [done|]. split.
    + apply nonempty_length in Hpne. unfold stream. rewrite <-Hcat. cbn [conn source].
      rewrite next_block_buffer, (length_app p).
      assert (BufferedInput.buffer (input (decoded d o1 stored)) = BufferedInput.buffer i') as E by done.
      unfold stored in E. rewrite E. lia.
    + exists (got ++ o1). apply (chunks_block_next _ _ (overwrite 0 p b) p' k2 o2); try done.
      * change (content_read c + len o1 = len (got ++ o1)). rewrite Hcr. cbn. rewrite Hb. unfold len. rewrite length_app. lia.
      * change (buf c ++ o1 = got ++ o1). cbn. by rewrite Hb.
      * by destruct Hres.
      * by rewrite <-app_assoc.
Qed.

Lemma chunks_run k : ∀ w got ns,
  reading_chunks w got → length (stream w) = k → Forall (λ n, 0 < n)%nat ns → (k < length ns)%nat →
  ∃ m w', (m <= length ns)%nat ∧ net_run (take m ns) w = Some (w', [Completed a false]) ∧ chunks_done w'.
Proof using Htag.
  induction k as [k IH] using lt_wf_ind. intros w got ns Hrc Hk Hns Hlen.
  destruct ns as [|n ns]; [simpl in Hlen; lia|]. apply Forall_cons_1 in Hns as [Hn Hns].
  destruct (chunks_turn w got n Hrc Hn) as (w' & evs & Hstep & [[-> Hd]|(-> & Hlt & got' & Hrc')]).
  - exists 1%nat, w'. split; [simpl; lia|]. split; [|done]. cbn [take net_run]. rewrite Hstep.
    run_bind. rewrite take_0. cbn [net_run]. run_bind. done.
  - destruct (IH (length (stream w')) ltac:(lia) w' got' ns Hrc' eq_refl Hns) as (m & w'' & Hm & Hrun & Hd);
      [simpl in Hlen; lia|].
    exists (S m), w''. split; [simpl; lia|]. split; [|done]. cbn [take net_run]. rewrite Hstep. run_bind.
    rewrite Hrun. run_bind. done.
Qed.

End Chunked.

(** ** Writing chunks *)

Lemma hex_char_digit d : 0 <= d < 16 → ChunkedDecoder.hex_digit (hex_char d) = Some d.
Proof.
  intros Hd. assert (d ∈ [0;1;2;3;4;5;6;7;8;9;10;11;12;13;14;15]) as Hin.
  { repeat (rewrite elem_of_cons). lia. }
  repeat (apply elem_of_cons in Hin as [->|Hin]; [reflexivity|]). by apply not_elem_of_nil in Hin.
Qed.

Lemma hex_value_app h r v :
  Forall ChunkedDecoderSpec.is_hex h →
  ChunkedDecoder.hex_value v (h ++ r) = ChunkedDecoder.hex_value (ChunkedDecoder.hex_value v h) r.
Proof.
  intros Hh. revert v. induction Hh as [|c h [d Hd] Hh IH]; intros v; [done|]. simpl. by rewrite Hd, IH.
Qed.

Lemma print_x_from_ok fuel : ∀ z acc, 0 <= z < 16 ^ Z.of_nat (S fuel) →
  ∃ h, print_x_from fuel z acc = h ++ acc ∧ h ≠ [] ∧ (length h <= S fuel)%nat ∧
    Forall ChunkedDecoderSpec.is_hex h ∧ ChunkedDecoder.hex_value 0 h = z.
Proof.
  induction fuel as [|fuel IH]; intros z acc Hz; cbn [print_x_from].
  - change (16 ^ Z.of_nat 1) with 16 in Hz. exists [hex_char (z mod 16)]. rewrite Z.mod_small by lia.
    pose proof (hex_char_digit z Hz) as Hd. split_and!; [done|done|done| |].
    + constructor; [by eexists|constructor].
    + cbn [ChunkedDecoder.hex_value]. rewrite Hd. lia.
  - assert (0 <= z mod 16 < 16) as Hm by (apply Z.mod_pos_bound; lia).
    pose proof (hex_char_digit _ Hm) as Hd. destruct (Z.eqb_spec (z / 16) 0) as [E|E].
    + exists [hex_char (z mod 16)]. split_and!; [done|done|simpl; lia| |].
      * constructor; [by eexists|constructor].
      * cbn [ChunkedDecoder.hex_value]. rewrite Hd. pose proof (Z.div_mod z 16). lia.
    + destruct (IH (z / 16) (hex_char (z mod 16) :: acc)) as (h & -> & Hne & Hl & Hh & Hv).
      { rewrite Nat2Z.inj_succ, Z.pow_succ_r in Hz by lia. split; [apply Z.div_pos; lia|].
        apply Z.div_lt_upper_bound; lia. }
      exists (h ++ [hex_char (z mod 16)]). rewrite <-app_assoc. split_and!; [done|by destruct h| | |].
      * rewrite length_app. simpl. lia.
      * apply Forall_app. split; [done|]. constructor; [by eexists|constructor].
      * rewrite hex_value_app, Hv by done. cbn [ChunkedDecoder.hex_value]. rewrite Hd.
        pose proof (Z.div_mod z 16). lia.
Qed.

(** The length line of a chunk is one the decoder reads back. *)
Lemma print_x_header n : 0 <= n < 4294967296 → ChunkedDecoderSpec.header_ok (print_x n) n.
Proof.
  intros Hn. destruct (print_x_from_ok 7 n []) as (h & E & Hne & Hl & Hh & Hv); [done|].
  unfold print_x. rewrite E, app_nil_r. split_and!; [done|lia|done|done|lia].
Qed.

(** The stream takes everything. *)
Definition takes_all (c : EvdHttpConnection) : Prop := answers c = [].

Lemma write_plain_all c b :
  takes_all c → write_plain c b = (with_output (writing c) (out c ++ b) [] c, inl ()).
Proof.
  unfold takes_all, write_plain, g_output_stream_write. intros Ha. destruct b as [|x b].
  - simpl. rewrite app_nil_r, <-Ha. by destruct c.
  - rewrite Ha. by rewrite Z.ltb_irrefl.
Qed.

Lemma write_chunk_all c b :
  takes_all c →
  evd_http_connection_write_chunk c b =
  (with_encoding SOUP_ENCODING_CHUNKED
     (with_output (writing c) (out c ++ print_x (u32 (len b)) ++ CRLF ++ b ++ CRLF) [] c), inl ()).
Proof.
  intros Ha. unfold evd_http_connection_write_chunk. rewrite write_plain_all by done.
  destruct (Z.ltb_spec 0 (len b)) as [Hb|Hb].
  - rewrite write_plain_all by done. rewrite write_plain_all by done. cbn. by rewrite <-!app_assoc.
  - assert (b = []) as -> by (destruct b; [done|unfold len in Hb; simpl in Hb; lia]).
    rewrite write_plain_all by done. cbn. by rewrite <-!app_assoc.
Qed.

(** A body sent in pieces, then its end. *)
Fixpoint write_pieces (c : EvdHttpConnection) (pieces : list (list Z)) : EvdHttpConnection * (unit + http_error) :=
  match pieces with
  | [] => evd_http_connection_write_content c [] false
  | p :: pieces =>
      match evd_http_connection_write_content c p true with
      | (c, inl _) => write_pieces c pieces
      | (c, inr e) => (c, inr e)
      end
  end.

Definition to_chunk (p : list Z) : ChunkedDecoderSpec.chunk := ChunkedDecoderSpec.mkChunk (print_x (len p)) p.
Definition to_chunks (pieces : list (list Z)) : list ChunkedDecoderSpec.chunk :=
  to_chunk <$> filter (λ p, p ≠ []) pieces.

Lemma to_chunks_ok pieces :
  Forall (λ p, len p < 4294967296) pieces → Forall ChunkedDecoderSpec.chunk_ok (to_chunks pieces).
Proof.
  intros Hs. unfold to_chunks. apply Forall_fmap, Forall_forall. intros p [Hp Hin]%list_elem_of_filter.
  rewrite Forall_forall in Hs. specialize (Hs p Hin). cbv beta in Hs. split; [done|].
  apply (print_x_header (len p)). unfold len in *. lia.
Qed.

Lemma to_chunks_data pieces : concat (ChunkedDecoderSpec.chunk_data <$> to_chunks pieces) = concat pieces.
Proof.
  unfold to_chunks. induction pieces as [|p pieces IH]; [done|]. destruct (decide (p = [])) as [->|Hp].
  - by rewrite filter_cons_False by auto.
  - rewrite filter_cons_True by done. cbn. by rewrite IH.
Qed.

Lemma write_pieces_all pieces : ∀ c,
  takes_all c → encoding c = SOUP_ENCODING_CHUNKED → Forall (λ p, len p < 4294967296) pieces →
  ∃ c', write_pieces c pieces = (c', inl ()) ∧
    out c' = out c ++ ChunkedDecoderSpec.encode (to_chunks pieces) [48] ++ [13; 10].
Proof.
  induction pieces as [|p pieces IH]; intros c Ha He Hs; cbn [write_pieces].
  - unfold evd_http_connection_write_content. rewrite He. destruct (decide _); [|done]. change (len [] =? 0) with true. cbv iota.
    rewrite write_chunk_all by done. eexists. split; [reflexivity|]. done.
  - apply Forall_cons_1 in Hs as [Hp Hs]. unfold evd_http_connection_write_content.
    rewrite He. destruct (decide _); [|done]. destruct p as [|x p].
    { change (len [] =? 0) with true. cbv iota. by apply IH. }
    destruct (Z.eqb_spec (len (x :: p)) 0) as [E|_]; [unfold len in E; simpl in E; lia|].
    rewrite write_chunk_all by done.
    destruct (IH (with_encoding SOUP_ENCODING_CHUNKED (with_output (writing c)
      (out c ++ print_x (u32 (len (x :: p))) ++ CRLF ++ (x :: p) ++ CRLF) [] c))) as (c' & Hw & Ho); [done..|].
    exists c'. split; [exact Hw|]. rewrite Ho. cbn [out with_encoding with_body with_output].
    assert (u32 (len (x :: p)) = len (x :: p)) as -> by (unfold u32; apply Z.mod_small; unfold len in *; lia).
    unfold to_chunks, ChunkedDecoderSpec.encode. rewrite filter_cons_True by done.
    cbn [fmap list_fmap concat]. unfold ChunkedDecoderSpec.encode_chunk at 2, to_chunk at 2.
    cbn [ChunkedDecoderSpec.chunk_header ChunkedDecoderSpec.chunk_data]. by rewrite <-!app_assoc.
Qed.

(** ** Theorems *)

(** No operation is under way on an open connection, and its input stream has room to take bytes back. *)
Record ready (c : EvdHttpConnection) : Prop := mkReady {
  ready_pending : pending c = false;
  ready_closed : closed c = false;
  ready_input : resting (input c);
  ready_room : 256 <= BufferedInput.max_buffer (input c);
  ready_buffer : len (BufferedInput.buffer (input c)) <= BufferedInput.max_buffer (input c)
}.

(** C8. Reading headers, for every schedule of partial reads whose first turn gives three bytes or
    more: when the stream holds well-formed headers (more than 12 bytes, at most 16128) and then
    anything that does not start with CR or LF, the operation ends within as many turns as the headers
    have bytes, with exactly the headers parsed, and what follows them is still in the stream, in
    order. *)
Theorem headers_delivered l lines rest c src t n ns :
  Forall line_ok (l :: lines) → plain (str_at rest 0) →
  12 < len (header_text (l :: lines)) <= 16128 → ready c →
  stream (mkNet c src) = header_text (l :: lines) ++ rest →
  (3 <= n)%nat → Forall (λ k, 0 < k)%nat ns → (length (header_text (l :: lines)) <= length (n :: ns))%nat →
  let c0 := (evd_http_connection_read_headers_async c t).1 in
  let evs := (evd_http_connection_on_read_headers c0 (header_text (l :: lines))).2 in
  ∃ m w', (m <= length (n :: ns))%nat ∧ net_run (take m (n :: ns)) (mkNet c0 src) = Some (w', evs) ∧
    stream w' = rest ∧ async_result (conn w') = None ∧ pending (conn w') = false.
Proof.
  intros Hok Hplain [Hlow Hhigh] [Hp Hcl Hin Hroom Hbuf] Hst Hn Hns Hlen c0 evs.
  assert (reading_headers c0 (mkNet c0 src) []) as Hrh.
  { subst c0. unfold evd_http_connection_read_headers_async, g_io_stream_set_pending. rewrite Hcl, Hp.
    cbn [fst]. set (c1 := with_pos 12 _).
    pose proof (headers_block_next (evd_http_connection_read_headers_block c1) c1 src []) as Hnext.
    apply Hnext; try done. by left. }
  destruct (headers_run l lines rest Hok Hplain Hlow Hhigh c0 (length (header_text (l :: lines)))
              (mkNet c0 src) [] (n :: ns)) as (m & w' & Hm & Hrun & Hd); try done.
  - subst c0. unfold evd_http_connection_read_headers_async, g_io_stream_set_pending. rewrite Hcl, Hp.
    rewrite <-Hst. unfold evd_http_connection_read_headers_block. by case_match.
  - change (len []) with 0. lia.
  - change (len []) with 0. rewrite Z.sub_0_r. apply len_to_nat.
  - by constructor; [lia|].
  - intros _. eauto.
  - by left.
  - exists m, w'. destruct Hd as (_ & (cx & Hsx & Hcx) & Hs & _).
    destruct (on_read_headers_same cx c0 (header_text (l :: lines)) Hsx) as [_ Hend].
    destruct Hend as [E1 E2]; [subst c0; unfold evd_http_connection_read_headers_async, g_io_stream_set_pending;
      rewrite Hcl, Hp; unfold evd_http_connection_read_headers_block; by case_match|].
    rewrite Hcx. by split_and!.
Qed.

(** Reading a body with a length, for every schedule of partial reads: the operation ends without
    error within as many turns as the body has bytes, [evd_http_connection_read_all_content_finish]
    returns exactly the body and its length, and the bytes after it are left in the stream. *)
Example content_length_body_read body next c src ns :
  0 < len body < 9223372036854775808 → ready c → connected c = true →
  encoding c = SOUP_ENCODING_CONTENT_LENGTH → content_len c = len body →
  stream (mkNet c src) = body ++ next → Forall (λ k, 0 < k)%nat ns → (length body <= length ns)%nat →
  let a := mkAsync read_all_content_tag None ResNone in
  ∃ m w', (m <= length ns)%nat ∧
    net_run (take m ns) (mkNet (evd_http_connection_read_all_content c).1 src) = Some (w', [Completed a false]) ∧
    (evd_http_connection_read_all_content_finish (conn w') a).2 = Some (body, len body) ∧
    stream w' = next ∧ pending (conn w') = false.
Proof.
  intros Hpos [Hp Hcl Hin _ _] Hconn He Hl Hst Hns Hlen a.
  unfold evd_http_connection_read_all_content, g_io_stream_set_pending. rewrite Hcl, Hp.
  cbn [encoding content_len with_flags]. rewrite He, Hl.
  destruct (Z.eqb_spec (len body) 0) as [|_]; [lia|]. rewrite andb_false_r.
  rewrite bool_decide_eq_false_2 by done. cbn [orb fst]. set (c1 := with_async _ _).
  destruct (body_block_next body a Hpos c1 src [] []) as [Hrb Hb]; try done;
    [change (len []) with 0; lia|unfold block_size; change (len []) with 0; lia|by destruct Hin|].
  destruct (body_run body next a Hpos eq_refl (length body) _ [] ns Hrb) as (m & w' & Hm & Hrun & Hd); try done.
  - unfold stream. cbn [conn source]. rewrite Hb. exact Hst.
  - change (len []) with 0. lia.
  - change (len []) with 0. rewrite Z.sub_0_r. apply len_to_nat.
  - exists m, w'. destruct Hd as (_ & Hpend & Hbuf & Hread & Hs & _). split_and!; try done.
    cbn. by rewrite Hbuf, Hread.
Qed.

(** C7. A body written by one connection in chunks and read by another, for every way the sender cuts
    the body into pieces of less than 4 GiB and every schedule of partial reads: when the sender's
    stream takes everything, the receiver's operation ends without error and returns the
    concatenation of the pieces, and its decoder is ready for another body. *)
Theorem chunked_transfer cs pieces c src more ns :
  takes_all cs → encoding cs = SOUP_ENCODING_CHUNKED → Forall (λ p, len p < 4294967296) pieces →
  ready c → encoding c = SOUP_ENCODING_CHUNKED → ChunkedDecoderSpec.at_header (chunked_decoder c) →
  last_buf_block c = None →
  out cs ++ stream (mkNet c src) = out (write_pieces cs pieces).1 ++ more →
  Forall (λ k, 0 < k)%nat ns → (length (stream (mkNet c src)) < length ns)%nat →
  let a := mkAsync read_all_content_tag None ResNone in
  (write_pieces cs pieces).2 = inl () ∧
  ∃ m w', (m <= length ns)%nat ∧
    net_run (take m ns) (mkNet (evd_http_connection_read_all_content c).1 src) = Some (w', [Completed a false]) ∧
    (evd_http_connection_read_all_content_finish (conn w') a).2 = Some (concat pieces, len (concat pieces)) ∧
    ChunkedDecoderSpec.at_header (chunked_decoder (conn w')) ∧ pending (conn w') = false.
Proof.
  intros Hall Hecs Hsmall [Hp Hcl Hin _ _] He Hdec Hblock Hst Hns Hlen a.
  destruct (write_pieces_all pieces cs Hall Hecs Hsmall) as (cs' & Hw & Hout). rewrite Hw in Hst |- *. cbn [fst snd] in *.
  split; [done|]. rewrite Hout, <-!app_assoc in Hst. apply app_inv_head in Hst.
  destruct (ChunkedDecoderSpec.decode_body (to_chunks pieces) [48] (chunked_decoder c) ([13; 10] ++ more)
    (to_chunks_ok _ Hsmall) (print_x_header 0 ltac:(lia)) Hdec) as (p' & Hd).
  rewrite to_chunks_data in Hd.
  unfold evd_http_connection_read_all_content, g_io_stream_set_pending. rewrite Hcl, Hp.
  cbn [encoding content_len with_flags]. rewrite He. do 2 rewrite bool_decide_eq_false_2 by done.
  cbn [orb andb fst]. set (c1 := with_async _ _).
  assert (reading_chunks (concat pieces) a (mkNet (evd_http_connection_read_next_content_block c1) src) []) as Hrc.
  { unfold evd_http_connection_read_next_content_block. change (encoding c1) with (encoding c). rewrite He.
    destruct (decide _); [|done]. change (last_buf_block c1) with (last_buf_block c). rewrite Hblock.
    constructor; try done; [eexists; split; [reflexivity|apply length_replicate]|by destruct Hin|by apply ChunkedDecoderSpec.at_header_ok|].
    eexists p', _, _. split; [|done]. unfold stream in *. cbn in Hst |- *. rewrite Hst. exact Hd. }
  destruct (chunks_run (concat pieces) a eq_refl (length (stream (mkNet c src))) _ [] ns Hrc) as (m & w' & Hm & Hrun & Hdone); try done.
  - unfold stream. cbn [conn source]. by rewrite next_block_buffer.
  - exists m, w'. destruct Hdone as (_ & Hpend & Hbuf & Hread & Hat & _). split_and!; try done.
    cbn. by rewrite Hbuf, Hread.
Qed.

End Spec.

(** ** Witnesses *)

Definition demo_conn : EvdHttpConnection :=
  evd_http_connection_init false (BufferedInput.evd_buffered_input_stream_init 4096) [].

Definition demo_body_conn (e : SoupEncoding) (n : Z) : EvdHttpConnection := with_body e n demo_conn.

Lemma demo_ready e n : ready (demo_body_conn e n).
Proof. constructor; try done. Qed.

Lemma headers_delivered_witness :
  let c0 := (evd_http_connection_read_headers_async demo_conn read_request_headers_tag).1 in
  let evs := (evd_http_connection_on_read_headers c0 (header_text request_lines)).2 in
  ∃ m w', (m <= 41)%nat ∧
    net_run (take m (3%nat :: replicate 40 1%nat)) (mkNet c0 (header_text request_lines ++ codes "body")) =
      Some (w', evs) ∧
    stream w' = codes "body" ∧ async_result (conn w') = None ∧ pending (conn w') = false.
Proof.
  refine (headers_delivered (codes "GET /abc HTTP/1.0") [codes "Host: x"] (codes "body") demo_conn
            (header_text request_lines ++ codes "body") read_request_headers_tag 3%nat (replicate 40 1%nat)
            _ _ _ _ _ _ _ _).
  - repeat constructor; done.
  - done.
  - split; vm_compute; done.
  - apply (demo_ready SOUP_ENCODING_UNRECOGNIZED 0).
  - reflexivity.
  - lia.
  - apply Forall_replicate. lia.
  - vm_compute. lia.
Defined.

Lemma content_length_body_read_witness :
  let a := mkAsync read_all_content_tag None ResNone in
  ∃ m w', (m <= 5)%nat ∧
    net_run (take m [2; 1; 7; 1; 1]%nat)
      (mkNet (evd_http_connection_read_all_content (demo_body_conn SOUP_ENCODING_CONTENT_LENGTH 5)).1
         (codes "helloGET /")) = Some (w', [Completed a false]) ∧
    (evd_http_connection_read_all_content_finish (conn w') a).2 = Some (codes "hello", 5) ∧
    stream w' = codes "GET /" ∧ pending (conn w') = false.
Proof.
  refine (content_length_body_read (codes "hello") (codes "GET /")
            (demo_body_conn SOUP_ENCODING_CONTENT_LENGTH 5) (codes "helloGET /") [2; 1; 7; 1; 1]%nat
            _ _ _ _ _ _ _ _).
  - split; vm_compute; done.
  - apply demo_ready.
  - reflexivity.
  - reflexivity.
  - reflexivity.
  - reflexivity.
  - repeat (apply Forall_cons; split; [lia|]). apply Forall_nil_2.
  - vm_compute. lia.
Defined.

Definition demo_pieces : list (list Z) := [codes "hello "; []; codes "chunked world"].
Definition demo_wire : list Z := codes "6" ++ [13; 10] ++ codes "hello " ++ [13; 10] ++ codes "d" ++ [13; 10]
  ++ codes "chunked world" ++ [13; 10] ++ codes "0" ++ [13; 10; 13; 10].

Lemma chunked_transfer_witness :
  let a := mkAsync read_all_content_tag None ResNone in
  let cs := demo_body_conn SOUP_ENCODING_CHUNKED 0 in
  (write_pieces cs demo_pieces).2 = inl () ∧
  ∃ m w', (m <= 60)%nat ∧
    net_run (take m (replicate 60 2%nat)) (mkNet (evd_http_connection_read_all_content cs).1 demo_wire) =
      Some (w', [Completed a false]) ∧
    (evd_http_connection_read_all_content_finish (conn w') a).2 =
      Some (concat demo_pieces, len (concat demo_pieces)) ∧
    ChunkedDecoderSpec.at_header (chunked_decoder (conn w')) ∧ pending (conn w') = false.
Proof.
  refine (chunked_transfer (demo_body_conn SOUP_ENCODING_CHUNKED 0) demo_pieces
            (demo_body_conn SOUP_ENCODING_CHUNKED 0) demo_wire [] (replicate 60 2%nat) _ _ _ _ _ _ _ _ _ _).
  - reflexivity.
  - reflexivity.
  - repeat (apply Forall_cons; split; [vm_compute; reflexivity|]). apply Forall_nil_2.
  - apply demo_ready.
  - reflexivity.
  - apply ChunkedDecoderSpec.init_at_header.
  - reflexivity.
  - vm_compute. reflexivity.
  - apply Forall_replicate. lia.
  - vm_compute. lia.
Defined.

End HttpConnectionSpec.
