(* ===== verification/HttpConnectionLife.v ===== *)
(** * The life of an HTTP connection: every operation ends once

    The operations of HttpConnection.v in any order, with the turns of the main loop, the hanging up of
    the peer, closing and disposal between them: an operation that was started has ended exactly once
    or is the one under way.  Then what a response puts on the wire, and the defects of the file as
    computations. *)
From S2P Require Import Prelude HttpScan HttpMessage BufferedInput ChunkedDecoder HttpConnection.
Import HttpScan HttpMessage HttpConnection.

Module HttpConnectionLife.

Section Life.
Context `{Soup}.
Implicit Types (c : EvdHttpConnection) (evs : list event).

Inductive operation :=
  | OpReadRequestHeaders | OpReadResponseHeaders
  | OpReadContent (size : Z) | OpReadAllContent
  | OpWriteRequestHeaders (r : EvdHttpRequest)
  | OpWriteDone (n : option Z)
  | OpInput (a : BufferedInput.base_answer)
  | OpClose | OpHangup | OpDispose.

Definition exec c (op : operation) : option (EvdHttpConnection * list event) :=
  match op with
  | OpReadRequestHeaders => Some (evd_http_connection_read_request_headers c)
  | OpReadResponseHeaders => Some (evd_http_connection_read_response_headers c)
  | OpReadContent size => Some (evd_http_connection_read_content c size)
  | OpReadAllContent => Some (evd_http_connection_read_all_content c)
  | OpWriteRequestHeaders r =>
      '(c, _, evs) ← evd_http_connection_write_request_headers c r; Some (c, evs)
  | OpWriteDone n => Some (evd_http_connection_on_write_request_headers c n)
  | OpInput a => run_input c a
  | OpClose => g_io_stream_close c
  | OpHangup => evd_connection_close_in_idle_cb c
  | OpDispose => Some (evd_http_connection_dispose c)
  end.

Fixpoint exec_all c (ops : list operation) : option (EvdHttpConnection * list event) :=
  match ops with
  | [] => Some (c, [])
  | op :: ops =>
      '(c, evs) ← exec c op;
      '(c, evs') ← exec_all c ops;
      Some (c, evs ++ evs')
  end.

(** Operations started, operations ended, operation under way. *)
Definition starts (op : operation) : nat :=
  match op with
  | OpReadRequestHeaders | OpReadResponseHeaders | OpReadContent _ | OpReadAllContent
  | OpWriteRequestHeaders _ => 1
  | _ => 0
  end.

Definition ends (e : event) : nat := match e with Completed _ _ => 1 | Critical => 0 end.

Definition total {A} (f : A → nat) (l : list A) : nat := sum_list_with f l.

Definition under_way c : nat := if async_result c is Some _ then 1 else 0.

(** An operation under way holds the pending flag of an open stream. *)
Definition held c : Prop := is_Some (async_result c) → pending c = true ∧ closed c = false.

Lemma total_app {A} (f : A → nat) a b : total f (a ++ b) = (total f a + total f b)%nat.
Proof. apply sum_list_with_app. Qed.

(** What every handler satisfies: it ends what it takes away, and keeps the flag. *)
Definition balanced c (r : EvdHttpConnection * list event) : Prop :=
  (total ends r.2 + under_way r.1 = under_way c)%nat ∧ (held c → held r.1).

Lemma balanced_refl c : balanced c (c, []).
Proof. split; [done|done]. Qed.

(** A handler that leaves the operation and the flags alone and reports nothing. *)
Lemma balanced_same c c' :
  async_result c' = async_result c → pending c' = pending c → closed c' = closed c → balanced c (c', []).
Proof. intros Ha Hp Hc. split; simpl; unfold under_way, held; rewrite Ha, ?Hp, ?Hc; done. Qed.

(** A handler that ends the operation, or finds none. *)
Lemma balanced_end c c' evs :
  async_result c' = None → total ends evs = under_way c → balanced c (c', evs).
Proof.
  intros Ha He. split; simpl.
  - unfold under_way at 1. rewrite Ha, He. lia.
  - intros _ [a Hs]. congruence.
Qed.

(** Changing what the balance does not look at first. *)
Lemma balanced_from c c' r :
  async_result c' = async_result c → pending c' = pending c → closed c' = closed c →
  balanced c' r → balanced c r.
Proof. intros Ha Hp Hc [He Hh]. split; [by rewrite He; unfold under_way; rewrite Ha|]. intros Hc'. apply Hh.
  unfold held in *. by rewrite Ha, Hp, Hc. Qed.

Lemma headers_error_balanced e c : balanced c (headers_error e c).
Proof.
  unfold headers_error. destruct (async_result c) eqn:Ha; [|apply balanced_refl].
  apply balanced_end; [done|]. unfold under_way. by rewrite Ha.
Qed.

Lemma on_read_headers_balanced c b : balanced c (evd_http_connection_on_read_headers c b).
Proof.
  unfold evd_http_connection_on_read_headers. destruct (async_result c) eqn:Ha; [|apply balanced_refl].
  assert (under_way c = 1%nat) as Hu by (unfold under_way; by rewrite Ha).
  repeat case_match; apply balanced_end; done.
Qed.

Lemma read_headers_block_same c :
  let c' := evd_http_connection_read_headers_block c in
  async_result c' = async_result c ∧ pending c' = pending c ∧ closed c' = closed c.
Proof. unfold evd_http_connection_read_headers_block. by case_match. Qed.

Lemma read_next_content_block_same c :
  let c' := evd_http_connection_read_next_content_block c in
  async_result c' = async_result c ∧ pending c' = pending c ∧ closed c' = closed c.
Proof. unfold evd_http_connection_read_next_content_block. by repeat case_match. Qed.

Lemma on_read_headers_block_balanced c r res :
  evd_http_connection_on_read_headers_block c r = Some res → balanced c res.
Proof.
  unfold evd_http_connection_on_read_headers_block. destruct r as [data|e].
  2:{ intros [= <-]. apply headers_error_balanced. }
  set (c1 := if 0 <? _ then _ else c).
  assert (async_result c1 = async_result c ∧ pending c1 = pending c ∧ closed c1 = closed c) as (Ha & Hp & Hc)
    by (subst c1; by case_match).
  destruct (evd_http_connection_find_end_headers_mark (buf c1) (last_headers_pos c1)) as [pos|]; [|done]. run_bind.
  destruct (0 <? pos).
  - destruct (match drop (Z.to_nat pos) (buf c1) with [] => _ | _ => _ end) as [c2 failure] eqn:E2.
    assert (async_result c2 = async_result c ∧ pending c2 = pending c ∧ closed c2 = closed c) as (Ha2 & Hp2 & Hc2).
    { revert E2. repeat case_match; intros; simplify_eq/=; by split_and!. }
    destruct (on_read_headers_balanced c2 (buf c2)) as [He Hh].
    assert (async_result (evd_http_connection_on_read_headers c2 (buf c2)).1 = None) as Hnone.
    { unfold evd_http_connection_on_read_headers. by repeat case_match. }
    destruct (evd_http_connection_on_read_headers c2 (buf c2)) as [c3 evs]. cbn [fst snd] in *.
    destruct failure as [e|]; [unfold headers_error; cbn [async_result with_buf with_pos]; rewrite Hnone|];
      intros [= <-]; apply (balanced_from c c2); try done; apply balanced_end; try done;
      rewrite ?app_nil_r; rewrite <-He; unfold under_way; rewrite Hnone; lia.
  - destruct (_ <? MAX_HEADERS_SIZE); intros [= <-].
    + destruct (read_headers_block_same (with_pos (len (buf c1) - 3) c1)) as (E1 & E2 & E3).
      apply balanced_same; [by rewrite E1|by rewrite E2|by rewrite E3].
    + apply (balanced_from c c1); try done. apply headers_error_balanced.
Qed.

Lemma complete_content_balanced c : balanced c (complete_content c).
Proof.
  unfold complete_content. destruct (async_result c) eqn:Ha; apply balanced_end; try done;
    unfold under_way; by rewrite Ha.
Qed.

Lemma convert_blocks_same fuel : ∀ b c c' r,
  convert_blocks fuel b c = Some (c', r) →
  async_result c' = async_result c ∧ pending c' = pending c ∧ closed c' = closed c.
Proof.
  induction fuel as [|fuel IH]; intros b c c' r; [done|]. cbn [convert_blocks].
  destruct (ChunkedDecoder.convert _ _ _ _) as [| |d n w res]; [done..|].
  set (c1 := with_content_read _ _). intros E.
  assert (Some (c1, res) = Some (c', r) ∨ convert_blocks fuel (drop (Z.to_nat n) b) c1 = Some (c', r)) as [E'|E'].
  { destruct res; [by left| |by left|]; destruct (drop (Z.to_nat n) b) eqn:Ed; auto. }
  - injection E' as <- _. done.
  - apply IH in E' as (-> & -> & ->). done.
Qed.

Lemma process_read_content_same c size c' done_ :
  evd_http_connection_process_read_content c size = Some (c', done_) →
  async_result c' = async_result c ∧ pending c' = pending c ∧ closed c' = closed c.
Proof.
  unfold evd_http_connection_process_read_content. destruct (decide _).
  - destruct (last_buf_block c); [|done]. run_bind.
    destruct (convert_blocks _ _ c) as [[c1 r]|] eqn:E; [|done]. run_bind.
    apply convert_blocks_same in E as (E1 & E2 & E3). destruct r; intros [= <- _]; done.
  - intros [= <- _]. done.
Qed.

Lemma on_read_content_block_balanced c r res :
  evd_http_connection_on_read_content_block c r = Some res → balanced c res.
Proof.
  unfold evd_http_connection_on_read_content_block. intros E.
  destruct (match r with inl _ => _ | inr _ => _ end) as [[c1 dn]|] eqn:E1; [|done]. cbn [mbind option_bind] in E.
  assert (under_way c1 = under_way c ∧ pending c1 = pending c ∧ closed c1 = closed c ∧
          (is_Some (async_result c1) ↔ is_Some (async_result c))) as (Hu & Hp & Hc & Ha).
  { destruct r as [data|e].
    - destruct (0 <? len data); [apply process_read_content_same in E1 as (Ha & Hp & Hc)|by simplify_eq].
      unfold under_way. by rewrite Ha.
    - simplify_eq. unfold under_way. cbn. by destruct (async_result c). }
  assert (∀ c2 r2, under_way c2 = under_way c1 → pending c2 = pending c1 → closed c2 = closed c1 →
    (is_Some (async_result c2) ↔ is_Some (async_result c1)) → balanced c2 r2 → balanced c r2) as Hfrom.
  { intros c2 r2 Hu2 Hp2 Hc2 Ha2 [He Hh]. split; [by rewrite He, Hu2|]. intros Hheld. apply Hh. intros Hs.
    rewrite Hp2, Hc2, Hp, Hc. apply Hheld, Ha, Ha2, Hs. }
  assert (∀ b, balanced c (complete_content (with_buf b c1))) as Hcc.
  { intros b. apply (Hfrom (with_buf b c1)); try done. apply complete_content_balanced. }
  assert (balanced c (complete_content c1)) as Hcc'.
  { apply (Hfrom c1); try done. apply complete_content_balanced. }
  destruct (async_result c1) as [a|] eqn:Ha1; cbn [fmap option_fmap option_map] in E;
    [destruct (tag a)|]; try (destruct dn; injection E as <-; [done|]; apply (Hfrom c1); try done; apply balanced_refl).
  - destruct r; injection E as <-; [|done]. apply (Hfrom (with_async (Some (set_res (ResContent (len l) (negb dn)) a)) c1));
      try apply complete_content_balanced; try done; unfold under_way; by rewrite ?Ha1.
  - destruct dn; injection E as <-; [done|]. apply (Hfrom c1); try done.
    destruct (read_next_content_block_same c1) as (E4 & E5 & E6). by apply balanced_same.
  - destruct dn; injection E as <-; [done|]. apply (Hfrom c1); rewrite ?Ha1; done.
Qed.

Lemma read_done_balanced c r res : read_done c r = Some res → balanced c res.
Proof.
  unfold read_done. destruct (reading c) as [[d h]|]; [|intros [= <-]; apply balanced_refl].
  set (c1 := match r, d with inl _, _ => _ | _, _ => _ end). intros E. apply (balanced_from c c1).
  1-3: subst c1; by repeat case_match.
  destruct h; [by eapply on_read_headers_block_balanced|by eapply on_read_content_block_balanced].
Qed.

Lemma input_events_balanced c (ievs : list BufferedInput.event) res : input_events c ievs = Some res → balanced c res.
Proof.
  unfold input_events. intros E.
  repeat case_match; simplify_eq; try apply balanced_refl; by eapply read_done_balanced.
Qed.

Lemma run_input_balanced c a res : run_input c a = Some res → balanced c res.
Proof.
  unfold run_input. destruct (BufferedInput.do_read (input c) a) as [i evs]. intros E%input_events_balanced.
  by apply (balanced_from c (with_input i (reading c) c)).
Qed.

(** Closing leaves nothing under way. *)
Lemma close_balanced c c' evs :
  evd_http_connection_close c = Some (c', evs) →
  async_result c' = None ∧ total ends evs = under_way c.
Proof.
  unfold evd_http_connection_close. destruct (BufferedInput.evd_buffered_input_stream_close _) as [i evs0].
  destruct (input_events _ evs0) as [[c1 evs1]|] eqn:E; [|done]. apply input_events_balanced in E as [He _].
  cbn [fst snd] in He. change (under_way (with_input _ _ _)) with (under_way c) in He. run_bind.
  unfold under_way at 1 in He. destruct (async_result c1) as [a|] eqn:Ha; intros E'; simplify_eq; (split; [done|]).
  - rewrite total_app, <-He. done.
  - lia.
Qed.

(** An operation in the books: those under way and started are ended or under way. *)
Definition accounted c (n : nat) (r : EvdHttpConnection * list event) : Prop :=
  (total ends r.2 + under_way r.1 = under_way c + n)%nat ∧ held r.1.

Lemma accounted_balanced c r : held c → balanced c r → accounted c 0 r.
Proof. intros Hh [He Hr]. split; [by rewrite He, Nat.add_0_r|auto]. Qed.

(** Starting fails at once, or finds nothing under way. *)
Lemma start_accounted c (a : async) (k : EvdHttpConnection → EvdHttpConnection * list event) :
  held c →
  (∀ c1, async_result c1 = None → pending c1 = true → closed c1 = false → accounted c1 1 (k c1)) →
  accounted c 1 (match g_io_stream_set_pending c with
                 | inr e => (c, [Completed (set_error e a) true])
                 | inl c => k c
                 end).
Proof.
  intros Hh Hk. unfold g_io_stream_set_pending.
  destruct (closed c) eqn:Hc; [split; [simpl; lia|done]|].
  destruct (pending c) eqn:Hp; [split; [simpl; lia|done]|].
  assert (async_result c = None) as Ha.
  { destruct (async_result c) as [a'|] eqn:E; [|done]. destruct Hh as [? _]; [by rewrite E|congruence]. }
  destruct (Hk (with_flags true false (connected c) c)) as [He Hh']; try done.
Qed.

Lemma under_way_none c : async_result c = None → under_way c = 0%nat.
Proof. unfold under_way. by intros ->. Qed.

(** The operation is under way now. *)
Lemma accounted_started c1 c2 a :
  async_result c1 = None → async_result c2 = Some a → pending c2 = true → closed c2 = false →
  accounted c1 1 (c2, []).
Proof. intros E Ha Hp Hc. split; simpl; [rewrite (under_way_none c1 E); unfold under_way; by rewrite Ha|]. by intros _. Qed.

Lemma read_headers_accounted c t : held c → accounted c 1 (evd_http_connection_read_headers_async c t).
Proof.
  intros Hh. apply start_accounted; [done|]. intros c1 Ha Hp Hc.
  set (c2 := with_pos 12 _). destruct (read_headers_block_same c2) as (E1 & E2 & E3).
  by eapply accounted_started; [done|rewrite E1|rewrite E2|rewrite E3].
Qed.

Lemma read_content_accounted c size : held c → accounted c 1 (evd_http_connection_read_content c size).
Proof.
  intros Hh. apply start_accounted; [done|]. intros c1 Ha Hp Hc. destruct (_ && _).
  - split; [simpl; rewrite (under_way_none _ Ha); lia|]. intros [? ?]. cbn in *. congruence.
  - by eapply accounted_started.
Qed.

Lemma read_all_content_accounted c : held c → accounted c 1 (evd_http_connection_read_all_content c).
Proof.
  intros Hh. apply start_accounted; [done|]. intros c1 Ha Hp Hc. destruct (_ || _).
  - split; [simpl; rewrite (under_way_none _ Ha); lia|]. intros [? ?]. cbn in *. congruence.
  - set (c2 := with_async _ _). destruct (read_next_content_block_same c2) as (E1 & E2 & E3).
    by eapply accounted_started; [done|rewrite E1|rewrite E2|rewrite E3].
Qed.

Lemma write_request_accounted c r c' r' evs :
  held c → evd_http_connection_write_request_headers c r = Some (c', r', evs) → accounted c 1 (c', evs).
Proof.
  intros Hh. unfold evd_http_connection_write_request_headers, g_io_stream_set_pending.
  destruct (closed c) eqn:Hc; [intros E; simplify_eq; split; [simpl; lia|done]|].
  destruct (pending c) eqn:Hp; [intros E; simplify_eq; split; [simpl; lia|done]|].
  destruct (evd_http_request_to_string r) as [[r1 text]|]; [|done]. run_bind. intros E. simplify_eq.
  assert (async_result c = None) as Ha.
  { destruct (async_result c) as [a'|] eqn:E; [|done]. destruct Hh as [? _]; [by rewrite E|congruence]. }
  by eapply accounted_started.
Qed.

Lemma write_done_balanced c n : balanced c (evd_http_connection_on_write_request_headers c n).
Proof.
  unfold evd_http_connection_on_write_request_headers. cbn [async_result with_output g_io_stream_clear_pending with_flags].
  destruct (async_result c) as [a|] eqn:Ha; apply balanced_end; try done; unfold under_way; by rewrite Ha.
Qed.

Lemma stream_close_accounted c res : held c → g_io_stream_close c = Some res → accounted c 0 res.
Proof.
  intros Hh. unfold g_io_stream_close, g_io_stream_set_pending.
  destruct (closed c); [intros [= <-]; by apply accounted_balanced, balanced_refl|].
  destruct (pending c); [intros [= <-]; by apply accounted_balanced, balanced_refl|].
  destruct (evd_http_connection_close _) as [[c1 evs]|] eqn:E; [|done]. run_bind. intros [= <-].
  apply close_balanced in E as [Ha He]. split; simpl.
  - rewrite He. unfold under_way at 2. cbn. rewrite Ha. unfold under_way. cbn. lia.
  - intros [? ?]. cbn in *. congruence.
Qed.

(** Hanging up takes the flag away, and closes: a closed stream has nothing under way. *)
Lemma hangup_accounted c res : held c → evd_connection_close_in_idle_cb c = Some res → accounted c 0 res.
Proof.
  intros Hh. unfold evd_connection_close_in_idle_cb, g_io_stream_close, g_io_stream_set_pending.
  cbn [closed pending g_io_stream_clear_pending with_flags]. destruct (closed c) eqn:Hc.
  - intros [= <-]. assert (async_result c = None) as Ha.
    { destruct (async_result c) as [a|] eqn:E; [|done]. destruct Hh as [_ ?]; [by rewrite E|congruence]. }
    split; [done|]. intros [? ?]. cbn in *. congruence.
  - destruct (evd_http_connection_close _) as [[c1 evs]|] eqn:E; [|done]. run_bind. intros [= <-].
    apply close_balanced in E as [Ha He]. split; simpl.
    + rewrite He. unfold under_way at 2. cbn. rewrite Ha. unfold under_way. cbn. lia.
    + intros [? ?]. cbn in *. congruence.
Qed.

Lemma exec_accounted c op res : held c → exec c op = Some res → accounted c (starts op) res.
Proof.
  intros Hh. destruct op; cbn [exec starts]; intros E; try (injection E as <-).
  - by apply read_headers_accounted.
  - by apply read_headers_accounted.
  - by apply read_content_accounted.
  - by apply read_all_content_accounted.
  - destruct (evd_http_connection_write_request_headers c r) as [[[c1 r1] evs]|] eqn:E1; [|done].
    simplify_eq/=. by eapply write_request_accounted.
  - apply accounted_balanced; [done|]. apply write_done_balanced.
  - apply accounted_balanced; [done|]. by eapply run_input_balanced.
  - by apply stream_close_accounted.
  - by apply hangup_accounted.
  - apply accounted_balanced; [done|]. unfold evd_http_connection_dispose. cbn [async_result with_request].
    destruct (async_result c) as [a|] eqn:Ha; [|by apply balanced_same].
    apply balanced_end; [done|]. unfold under_way. by rewrite Ha.
Qed.

Lemma exec_all_accounted ops : ∀ c res,
  held c → exec_all c ops = Some res → accounted c (total starts ops) res.
Proof.
  induction ops as [|op ops IH]; intros c res Hh; cbn [exec_all].
  { intros [= <-]. by split; [simpl; lia|]. }
  destruct (exec c op) as [[c1 evs1]|] eqn:E1; [|done]. run_bind.
  destruct (exec_accounted _ _ _ Hh E1) as [H1 Hh1]. cbn [fst snd] in *.
  destruct (exec_all c1 ops) as [[c2 evs2]|] eqn:E2; [|done]. run_bind. intros [= <-].
  destruct (IH _ _ Hh1 E2) as [H2 Hh2]. cbn [fst snd] in *. split; [|done]. cbn [fst snd].
  rewrite total_app. unfold total in *. cbn [sum_list_with]. lia.
Qed.

(** C9. Exactly one end: whatever the order of the operations of a connection, the turns of the main
    loop, closing, the hanging up of the peer and disposal, and whatever the streams answer, the
    number of operations started is the number of operations ended, plus one when one is under way;
    and an operation under way holds the pending flag, so that no other one can start over it. *)
Theorem operations_end_once tls inp wr ops c evs :
  exec_all (evd_http_connection_init tls inp wr) ops = Some (c, evs) →
  total starts ops = (total ends evs + under_way c)%nat ∧ held c.
Proof.
  intros E. destruct (exec_all_accounted ops (evd_http_connection_init tls inp wr) (c, evs)) as [He Hh];
    [by intros [? ?]|done|]. cbn [fst snd] in *. split; [|done]. unfold under_way in He at 2. cbn in He. lia.
Qed.

End Life.

Definition fresh (wr : list (option Z)) : EvdHttpConnection :=
  evd_http_connection_init false (BufferedInput.evd_buffered_input_stream_init 4096) wr.

Definition demo_ops : list operation :=
  [OpReadRequestHeaders; OpReadAllContent; OpInput (BufferedInput.Got (header_text request_lines));
   OpReadAllContent; OpInput (BufferedInput.Got (codes "hello")); OpHangup; OpReadContent 10].

Lemma demo_ops_run : bool_decide (is_Some (exec_all (fresh []) demo_ops)) = true.
Proof. vm_compute. reflexivity. Qed.

Lemma operations_end_once_witness :
  ∃ c evs, exec_all (fresh []) demo_ops = Some (c, evs) ∧
    total starts demo_ops = (total ends evs + under_way c)%nat ∧ held c.
Proof.
  destruct (bool_decide_eq_true_1 _ demo_ops_run) as [[c evs] E]. exists c, evs. split; [exact E|].
  exact (operations_end_once false (BufferedInput.evd_buffered_input_stream_init 4096) [] demo_ops c evs E).
Defined.

(** ** Responses *)

Section Respond.
Context `{SoupLaws}.

Lemma write_all_out (c : EvdHttpConnection) b :
  answers c = [] → ∃ c', g_output_stream_write c b = (c', Some (len b)) ∧ out c' = out c ++ b ∧
    answers c' = [] ∧ encoding c' = encoding c ∧ pending c' = pending c ∧ closed c' = closed c ∧
    connected c' = connected c ∧ keepalive c' = keepalive c ∧ current_request c' = current_request c.
Proof.
  intros Ha. unfold g_output_stream_write. destruct b as [|x b].
  - exists c. by rewrite app_nil_r.
  - rewrite Ha. eexists. split; [reflexivity|]. done.
Qed.

Definition response_headers (c : EvdHttpConnection) (h : option SoupMessageHeaders) (size : Z) (close_after : bool)
  : SoupMessageHeaders :=
  soup_message_headers_set_content_length
    (soup_message_headers_replace (default soup_message_headers_new h) (codes "Connection")
       (if close_after || negb (keepalive c) then codes "close" else codes "keep-alive")) size.

(** A response on a stream that takes everything: the call succeeds and the wire gets the status
    line, every header of the table (with the length of the content, and whether the connection is
    kept, set by the call), the empty line and exactly the content. *)
Example respond_on_wire c ver status_code reason h content close_after :
  answers c = [] →
  ∃ c', evd_http_connection_respond c ver status_code reason h (Some content) (len content) close_after = (c', true) ∧
    out c' = out c ++ (codes "HTTP/1." ++ print_d ver ++ codes " " ++ print_d status_code ++ codes " " ++
      default (soup_status_get_phrase status_code) reason ++ CRLF) ++
      print_headers (response_headers c h (len content) close_after) ++ CRLF ++ content.
Proof.
  intros Ha. unfold evd_http_connection_respond. fold (response_headers c h (len content) close_after).
  unfold evd_http_connection_write_response_headers. set (b := codes "HTTP/1." ++ _).
  set (rh := response_headers _ _ _ _).
  destruct (write_all_out (with_encoding (soup_message_headers_get_encoding rh) c) ((b ++ print_headers rh) ++ CRLF) Ha)
    as (c1 & -> & Ho & Ha1 & He1 & _).
  rewrite bool_decide_eq_true_2 by eauto. cbn [encoding with_encoding with_body] in He1.
  unfold evd_http_connection_write_content. rewrite He1.
  assert (soup_message_headers_get_encoding rh = SOUP_ENCODING_CONTENT_LENGTH) as Hrh by apply set_content_length_encoding.
  rewrite Hrh. destruct (decide _); [done|]. unfold write_plain. rewrite (take_ge content) by (unfold len; lia).
  destruct (write_all_out c1 content Ha1) as (c2 & -> & Ho2 & _). rewrite Z.ltb_irrefl.
  eexists. split; [reflexivity|]. rewrite Ho2, Ho. cbn [out with_encoding with_body]. by rewrite <-!app_assoc.
Qed.

End Respond.

Lemma respond_on_wire_witness :
  ∃ c', evd_http_connection_respond (fresh []) 0 404 None None (Some (codes "gone")) 4 true = (c', true) ∧
    out c' = [] ++ (codes "HTTP/1." ++ print_d 0 ++ codes " " ++ print_d 404 ++ codes " " ++
      default (soup_status_get_phrase 404) None ++ CRLF) ++
      print_headers (response_headers (fresh []) None 4 true) ++ CRLF ++ codes "gone".
Proof. exact (respond_on_wire (fresh []) 0 404 None None (codes "gone") true eq_refl). Defined.

(** ** Defects *)

(** What an observer sees of a run. *)
Definition observe {A} (f : EvdHttpConnection → A) (r : option (EvdHttpConnection * list event))
  : option (A * list event) := (λ '(c, evs), (f c, evs)) <$> r.

(** The stream takes five bytes of the headers: the response passes for sent. *)
Example short_headers_pass :
  (λ '(c, ok), (out c, ok)) (evd_http_connection_respond_simple (fresh [Some 5]) 200 None 0) =
  (codes "HTTP/", true).
Proof. vm_compute. reflexivity. Qed.

(** The same shortness in the content is reported. *)
Example short_content_fails :
  (evd_http_connection_respond_simple (fresh [Some 1000; Some 2]) 200 (Some (codes "hello")) 5).2 = false.
Proof. vm_compute. reflexivity. Qed.

Definition with_enc (e : SoupEncoding) (n : Z) : EvdHttpConnection := with_body e n (fresh []).

(** A chunked body that is not one: the operation ends without error, with what was decoded before. *)
Example decode_error_swallowed :
  observe buf (exec_all (with_enc SOUP_ENCODING_CHUNKED 0)
    [OpReadAllContent; OpInput (BufferedInput.Got (codes "2" ++ [13; 10] ++ codes "ab, garbage"))]) =
  Some (codes "ab", [Completed (mkAsync read_all_content_tag None ResNone) false]).
Proof. vm_compute. reflexivity. Qed.

(** A request without body: its content is read at once, and no operation can start any more. *)
Example empty_body_blocks :
  observe under_way (exec_all (with_enc SOUP_ENCODING_CONTENT_LENGTH 0) [OpReadAllContent; OpReadRequestHeaders]) =
  Some (0%nat, [Completed (mkAsync read_all_content_tag None ResNone) true;
                Completed (mkAsync read_request_headers_tag (Some ErrPending) ResNone) true]).
Proof. vm_compute. reflexivity. Qed.

(** An error while reading headers keeps the flag: the connection cannot even be closed. *)
Example header_error_blocks :
  observe closed (exec_all (fresh []) [OpReadRequestHeaders; OpInput BufferedInput.Failed; OpClose]) =
  Some (false, [Completed (mkAsync read_request_headers_tag (Some (ErrInput BufferedInput.ErrOther)) ResNone) true]).
Proof. vm_compute. reflexivity. Qed.

(** Reading a chunked body into the caller's buffer decodes a block that was never allocated. *)
Example read_content_chunked_crashes :
  exec_all (with_enc SOUP_ENCODING_CHUNKED 0) [OpReadContent 100; OpInput (BufferedInput.Got (codes "2"))] = None.
Proof. vm_compute. reflexivity. Qed.

(** A first read of two bytes: the search starts before the buffer and never looks at the next
    block, whole headers included. *)
Example two_bytes_stall :
  observe under_way
    (exec_all (fresh []) [OpReadRequestHeaders; OpInput (BufferedInput.Got (take 2 (header_text request_lines)));
                          OpInput (BufferedInput.Got (drop 2 (header_text request_lines)))]) = Some (1%nat, []).
Proof. vm_compute. reflexivity. Qed.

(** A request of 22 bytes hangs the process. *)
Example request_hangs :
  exec_all (fresh []) [OpReadRequestHeaders; OpInput (BufferedInput.Got looping_request)] = None.
Proof. vm_compute. reflexivity. Qed.

(** Without a Host header the path is lost: the string ends at the missing name. *)
Lemma no_host_no_path `{Soup} c path h :
  soup_message_headers_get_one h (codes "host") = None →
  evd_http_connection_build_uri c path h =
  soup_uri_new ((if tls_active c then codes "https" else codes "http") ++ codes "://").
Proof. intros E. unfold evd_http_connection_build_uri. by rewrite E, app_nil_r. Qed.

End HttpConnectionLife.
