(* ===== verification/WebService.v ===== *)
(** * Services, web services and the web selector: model

    src/evd/evd-service.c (the validation of connections), src/evd/evd-web-service.c and
    src/evd/evd-web-selector.c, over the connections of HttpConnection.v.  One connection travels
    between the services of a process: adding it to a service validates it, an accepted connection
    is read for a request or handed to the request handler of the service, a selector hands it to
    another service, and a response brings it back.  The calls go back and forth between services:
    fuel bounds their depth.  GRegex is a parameter. *)
From S2P Require Import Prelude HttpMessage BufferedInput HttpConnection.
Import HttpMessage HttpConnection.

Module WebService.

(** ** Validation of connections *)

Definition EVD_VALIDATE_ACCEPT : Z := 0.
Definition EVD_VALIDATE_REJECT : Z := 1.
Definition EVD_VALIDATE_PENDING : Z := 2.

(** The value accumulated, and whether the emission goes on. *)
Definition evd_service_validate_conn_signal_acc (acc_ret ret : Z) : Z * bool :=
  (if acc_ret <? ret then ret else acc_ret, negb (ret =? EVD_VALIDATE_REJECT)).

(** [g_signal_emit] over what the handlers return, in order. *)
Fixpoint emit_validate (acc : Z) (rets : list Z) : Z :=
  match rets with
  | [] => acc
  | ret :: rets =>
      match evd_service_validate_conn_signal_acc acc ret with
      | (acc, true) => emit_validate acc rets
      | (acc, false) => acc
      end
  end.

(** ** Origins *)

Inductive EvdPolicy := EVD_POLICY_ALLOW | EVD_POLICY_DENY.

#[export] Instance EvdPolicy_eq_dec : EqDecision EvdPolicy.
Proof. solve_decision. Defined.

Record EvdWebServicePrivate := mkWeb {
  origins : gmap (list Z) bool;
  origin_policy : EvdPolicy
}.

Definition evd_web_service_init : EvdWebServicePrivate := mkWeb ∅ EVD_POLICY_DENY.

Definition evd_web_service_set_origin_policy (p : EvdWebServicePrivate) (policy : EvdPolicy) :=
  mkWeb (origins p) policy.
Definition evd_web_service_get_origin_policy (p : EvdWebServicePrivate) : EvdPolicy := origin_policy p.
Definition evd_web_service_allow_origin (p : EvdWebServicePrivate) (origin : list Z) :=
  mkWeb (<[origin := true]> (origins p)) (origin_policy p).
Definition evd_web_service_deny_origin (p : EvdWebServicePrivate) (origin : list Z) :=
  mkWeb (<[origin := false]> (origins p)) (origin_policy p).
Definition evd_web_service_origin_allowed (p : EvdWebServicePrivate) (origin : list Z) : bool :=
  match origins p !! origin with
  | None => bool_decide (origin_policy p = EVD_POLICY_ALLOW)
  | Some allowed => allowed
  end.

(** ** Selectors *)

Class Regex := {
  GRegex : Type;
  g_regex_new : list Z → option GRegex;          (* caseless *)
  g_regex_match : GRegex → list Z → bool
}.

Section Web.
Context `{Soup} `{Regex}.

Record EvdWebSelectorCandidate := mkCandidate {
  domain_pattern : option (list Z);
  path_pattern : option (list Z);
  domain_regex : option GRegex;
  path_regex : option GRegex;
  service : string
}.

(** The candidates of the list; [None] for one whose memory was freed. *)
Record EvdWebSelectorPrivate := mkSelector {
  candidates : list (option EvdWebSelectorCandidate);
  default_service : option string
}.

Definition evd_web_selector_init : EvdWebSelectorPrivate := mkSelector [] None.

(** [g_regex_match] refuses a NULL string with a warning and answers FALSE. *)
Definition pattern_matches (pattern : option (list Z)) (regex : option GRegex) (s : option (list Z)) : bool :=
  match pattern with
  | None => true
  | Some _ =>
      match regex, s with Some r, Some s => g_regex_match r s | _, _ => false end
  end.

Definition candidate_matches (domain : option (list Z)) (path : list Z) (k : EvdWebSelectorCandidate) : bool :=
  pattern_matches (domain_pattern k) (domain_regex k) domain &&
  pattern_matches (path_pattern k) (path_regex k) (Some path).

(** Outer [None]: memory that was freed is read. *)
Fixpoint find_match_from (ks : list (option EvdWebSelectorCandidate)) (domain : option (list Z)) (path : list Z)
  : option (option string) :=
  match ks with
  | [] => Some None
  | None :: _ => None
  | Some k :: ks =>
      if candidate_matches domain path k then Some (Some (service k)) else find_match_from ks domain path
  end.

Definition evd_web_selector_find_match (p : EvdWebSelectorPrivate) (domain : option (list Z)) (path : list Z) :=
  find_match_from (candidates p) domain path.

(** FALSE when a pattern is not a regular expression. *)
Definition evd_web_selector_add_service (p : EvdWebSelectorPrivate) (domain path : option (list Z)) (s : string)
  : EvdWebSelectorPrivate * bool :=
  let compile pattern := match pattern with None => Some None | Some t => Some <$> g_regex_new t end in
  match compile domain, compile path with
  | Some dr, Some pr =>
      (mkSelector (candidates p ++ [Some (mkCandidate domain path dr pr s)]) (default_service p), true)
  | _, _ => (p, false)
  end.

Definition same_candidate (domain path : option (list Z)) (s : string) (k : EvdWebSelectorCandidate) : bool :=
  bool_decide (domain_pattern k = domain) && bool_decide (path_pattern k = path) && bool_decide (service k = s).

(** The loop moves to the next link before it deletes one: the link after the candidate goes and is
    then read; the candidate is freed and its link stays.  [None]: memory that was freed is read. *)
Fixpoint remove_from (ks : list (option EvdWebSelectorCandidate)) (domain path : option (list Z)) (s : string)
  : option (list (option EvdWebSelectorCandidate)) :=
  match ks with
  | [] => Some []
  | None :: _ => None
  | Some k :: ks =>
      if same_candidate domain path s k then
        match ks with [] => Some [None] | _ :: _ => None end
      else cons (Some k) <$> remove_from ks domain path s
  end.

Definition evd_web_selector_remove_service (p : EvdWebSelectorPrivate) (domain path : option (list Z)) (s : string)
  : option EvdWebSelectorPrivate :=
  ks ← remove_from (candidates p) domain path s;
  Some (mkSelector ks (default_service p)).

Definition evd_web_selector_set_default_service (p : EvdWebSelectorPrivate) (s : option string)
  : EvdWebSelectorPrivate := mkSelector (candidates p) s.

(** ** Services and their connection *)

Inductive service_class :=
  | PlainService
  | WebServiceClass (web : EvdWebServicePrivate)
  | WebSelectorClass (web : EvdWebServicePrivate) (sel : EvdWebSelectorPrivate).

Record EvdService := mkService {
  class : service_class;
  tls_autostart : bool;
  validators : list Z;        (* what the handlers of validate-connection return *)
  tls_validators : list Z;
  recursed : bool             (* of EvdIoStreamGroup *)
}.

Inductive flush_target := FlushReturn | FlushShutdown.

Record world := mkWorld {
  services : gmap string EvdService;
  conn : EvdHttpConnection;
  group : option string;
  return_to : option string;          (* RETURN_DATA_KEY *)
  hint : bool;                        (* VALIDATION_HINT_KEY *)
  reader : option string;             (* the service that waits for the request headers *)
  starting_tls : option string;       (* the service that waits for TLS *)
  flushes : list flush_target
}.

Inductive effect :=
  | RequestHandler (s : string) (r : EvdHttpRequest)
  | RequestHeadersSignal (s : string) (r : EvdHttpRequest)
  | Accepted (s : string)             (* connection_accepted of a service that is not a web service *)
  | ConnEvents (evs : list HttpConnection.event)
  | Shutdown
  | Logged (entry : list Z).

Definition with_conn c w := mkWorld (services w) c (group w) (return_to w) (hint w) (reader w) (starting_tls w) (flushes w).
Definition with_group g w := mkWorld (services w) (conn w) g (return_to w) (hint w) (reader w) (starting_tls w) (flushes w).
Definition with_return r w := mkWorld (services w) (conn w) (group w) r (hint w) (reader w) (starting_tls w) (flushes w).
Definition with_hint h w := mkWorld (services w) (conn w) (group w) (return_to w) h (reader w) (starting_tls w) (flushes w).
Definition with_reader r w := mkWorld (services w) (conn w) (group w) (return_to w) (hint w) r (starting_tls w) (flushes w).
Definition with_tls t w := mkWorld (services w) (conn w) (group w) (return_to w) (hint w) (reader w) t (flushes w).
Definition with_flushes f w := mkWorld (services w) (conn w) (group w) (return_to w) (hint w) (reader w) (starting_tls w) f.
Definition with_service s v w := mkWorld (<[s := v]> (services w)) (conn w) (group w) (return_to w) (hint w) (reader w) (starting_tls w) (flushes w).

Definition set_recursed (r : bool) (v : EvdService) : EvdService :=
  mkService (class v) (tls_autostart v) (validators v) (tls_validators v) r.

Definition web_of (v : EvdService) : option EvdWebServicePrivate :=
  match class v with WebServiceClass web | WebSelectorClass web _ => Some web | PlainService => None end.

(** ** Responses *)

Definition evd_web_service_flush_and_return_connection (w : world) : world :=
  with_flushes (flushes w ++ [FlushReturn]) w.

(** [None]: the URI of a request that has none is read. *)
Definition prepare_response_headers (web : EvdWebServicePrivate) (w : world) (h : option SoupMessageHeaders)
  : option (SoupMessageHeaders * Z) :=
  let headers := default soup_message_headers_new h in
  match current_request (conn w) with
  | None => Some (headers, 1)
  | Some request =>
      cross ← evd_http_request_is_cross_origin request;
      match cross, evd_http_request_get_origin request with
      | true, Some origin =>
          Some (if evd_web_service_origin_allowed web origin
                then soup_message_headers_replace headers (codes "Access-Control-Allow-Origin") origin
                else headers, version request)
      | _, _ => Some (headers, version request)
      end
  end.

Definition evd_web_service_respond_internal (web : EvdWebServicePrivate) (w : world) (status_code : Z)
    (h : option SoupMessageHeaders) (content : option (list Z)) (size : Z) : option (world * bool) :=
  '(headers, ver) ← prepare_response_headers web w h;
  match evd_http_connection_respond (conn w) ver status_code None (Some headers) content size false with
  | (c, true) => Some (evd_web_service_flush_and_return_connection (with_conn c w), true)
  | (c, false) => Some (with_flushes (flushes w ++ [FlushShutdown]) (with_conn c w), false)
  end.

Definition evd_web_service_respond_headers (web : EvdWebServicePrivate) (w : world) (status_code : Z)
    (h : option SoupMessageHeaders) : option (world * bool) :=
  '(headers, ver) ← prepare_response_headers web w h;
  let '(c, ok) := evd_http_connection_write_response_headers (conn w) ver status_code None (Some headers) in
  Some (with_conn c w, ok).

Definition DEFAULT_CORS_PREFLIGHT_MAX_AGE : list Z := codes "600".

(** The headers of the answer to a preflight request. *)
Definition cors_preflight_headers (request : EvdHttpRequest) : SoupMessageHeaders :=
  let '(_, req) := evd_http_message_get_headers request in
  let copy from to h :=
    match soup_message_headers_get_one req from with
    | Some v => soup_message_headers_replace h to v
    | None => h
    end in
  soup_message_headers_replace
    (copy (codes "Access-Control-Request-Method") (codes "Access-Control-Allow-Methods")
       (copy (codes "Access-Control-Request-Headers") (codes "Access-Control-Allow-Headers")
          soup_message_headers_new))
    (codes "Access-Control-Max-Age") DEFAULT_CORS_PREFLIGHT_MAX_AGE.

Definition evd_web_service_respond_cors_preflight (web : EvdWebServicePrivate) (w : world)
    (request : EvdHttpRequest) : option (world * bool) :=
  evd_web_service_respond_internal web w 200 (Some (cors_preflight_headers request)) None 0.

Definition evd_web_service_validate_request (web : EvdWebServicePrivate) (w : world) (request : EvdHttpRequest)
  : option (world * bool) :=
  cross ← evd_http_request_is_cross_origin request;
  match cross, evd_http_request_get_origin request with
  | true, Some origin =>
      if negb (evd_web_service_origin_allowed web origin) then
        '(w, _) ← evd_web_service_respond_internal web w 403 None None 0; Some (w, false)
      else if evd_http_request_is_cors_preflight request then
        '(w, _) ← evd_web_service_respond_cors_preflight web w request; Some (w, false)
      else Some (w, true)
  | _, _ => Some (w, true)
  end.

(** ** Log entries *)

(** [remote_addr] and [date] come from the socket and the clock.  [None]: the path of a request that
    has no URI, or a user that was not stored, is printed. *)
Definition evd_web_service_build_log_entry (remote_addr : option (list Z)) (date : list Z)
    (request : EvdHttpRequest) (status_code content_size : Z) : option (list Z + unit) :=
  match remote_addr with
  | None => Some (inr ())
  | Some addr =>
      let '(_, h) := evd_http_message_get_headers request in
      let user_agent := default (codes "-") (soup_message_headers_get_one h (codes "user-agent")) in
      let referer := default (codes "-") (soup_message_headers_get_one h (codes "referer")) in
      user ← match evd_http_request_get_basic_auth_credentials request with
             | (false, _, _) => Some (codes "-")
             | (true, user, _) => user
             end;
      path ← evd_http_request_get_path request;
      Some (inl (addr ++ codes " - " ++ user ++ codes " [" ++ date ++ codes "] " ++ [34] ++
        method request ++ codes " " ++ path ++ codes " HTTP/1." ++ print_d (version request) ++ [34] ++
        codes " " ++ print_d status_code ++ codes " " ++ print_d content_size ++ codes " " ++ [34] ++
        referer ++ [34] ++ codes " " ++ [34] ++ user_agent ++ [34]))
  end.

Definition evd_web_service_log (remote_addr : option (list Z)) (date : list Z)
    (request : EvdHttpRequest) (status_code content_size : Z) : option (list effect * bool) :=
  r ← evd_web_service_build_log_entry remote_addr date request status_code content_size;
  match r with inl entry => Some ([Logged entry], true) | inr _ => Some ([], false) end.

(** ** Accepting, handling and handing over *)

(** What follows calls [evd_io_stream_group_add] for other services, given here as [add]. *)
Section Calls.
Variable add : world → string → option (world * list effect * bool).

Definition evd_web_service_add_connection_with_request (w : world) (s : string) (request : EvdHttpRequest)
    (back : option string) : option (world * list effect * bool) :=
  let w := with_conn (evd_http_connection_set_current_request (conn w) (Some request)) w in
  let w :=
    match return_to w, back with
    | None, Some b => with_return (Some b) w
    | _, _ => w
    end in
  add w s.

(** [None]: the URI of a request that has none, or a freed candidate, is read. *)
Definition evd_web_selector_request_handler (w : world) (self : string) (web : EvdWebServicePrivate)
    (sel : EvdWebSelectorPrivate) (request : EvdHttpRequest) : option (world * list effect) :=
  u ← uri request;
  let '(_, h) := evd_http_message_get_headers request in
  found ← evd_web_selector_find_match sel (soup_message_headers_get_one h (codes "host")) (uri_path u);
  match (match found with Some s => Some s | None => default_service sel end) with
  | Some s =>
      v ← services w !! s;
      match web_of v with
      | Some _ =>
          '(w, evs, _) ← evd_web_service_add_connection_with_request w s request (Some self);
          Some (w, evs)
      | None =>
          '(c, _, ok) ← evd_http_connection_unread_request_headers (conn w) request;
          let w := with_conn c w in
          if ok : bool then '(w, evs, _) ← add w s; Some (w, evs) else Some (w, [])
      end
  | None =>
      '(w, _) ← evd_web_service_respond_internal web w 403 None None 0; Some (w, [])
  end.

(** The handler of the class, then the signal. *)
Definition evd_web_service_invoke_request_handler (w : world) (s : string) (request : EvdHttpRequest)
  : option (world * list effect) :=
  v ← services w !! s;
  match class v with
  | WebSelectorClass web sel =>
      '(w, evs) ← evd_web_selector_request_handler w s web sel request;
      Some (w, evs ++ [RequestHeadersSignal s request])
  | _ => Some (w, [RequestHandler s request; RequestHeadersSignal s request])
  end.

Definition evd_web_service_connection_accepted (w : world) (s : string) (web : EvdWebServicePrivate)
  : option (world * list effect) :=
  match current_request (conn w) with
  | Some request =>
      '(w, ok) ← evd_web_service_validate_request web w request;
      if ok : bool then evd_web_service_invoke_request_handler w s request else Some (w, [])
  | None =>
      let '(c, evs) := evd_http_connection_read_request_headers (conn w) in
      Some (with_reader (Some s) (with_conn c w), [ConnEvents evs])
  end.

Definition connection_accepted (w : world) (s : string) : option (world * list effect) :=
  v ← services w !! s;
  match web_of v with
  | Some web => evd_web_service_connection_accepted w s web
  | None => Some (w, [Accepted s])
  end.

(** [connection_rejected] closes the connection. *)
Definition reject_connection_priv (w : world) : option (world * list effect) :=
  '(c, evs) ← g_io_stream_close (conn w); Some (with_conn c w, [ConnEvents evs]).

Definition accept_connection_priv (w : world) (s : string) : option (world * list effect) :=
  v ← services w !! s;
  if tls_autostart v && negb (tls_active (conn w)) then Some (with_tls (Some s) w, [])
  else connection_accepted w s.

(** With the handlers' verdict. *)
Definition validated (w : world) (s : string) (ret : Z) : option (world * list effect) :=
  if ret =? EVD_VALIDATE_ACCEPT then accept_connection_priv w s
  else if ret =? EVD_VALIDATE_REJECT then reject_connection_priv w
  else Some (with_hint true w, []).

Definition evd_service_validate_connection (w : world) (s : string) : option (world * list effect) :=
  v ← services w !! s;
  validated w s (emit_validate EVD_VALIDATE_ACCEPT (validators v)).

Definition evd_service_validate_tls_connection (w : world) (s : string) : option (world * list effect) :=
  v ← services w !! s;
  validated w s (emit_validate EVD_VALIDATE_ACCEPT (tls_validators v)).

(** [evd_service_add] over [evd_io_stream_set_group], which refuses the group the stream is in. *)
Definition evd_service_add (w : world) (s : string) : option (world * list effect * bool) :=
  if negb (connected (conn w)) || bool_decide (group w = Some s) then Some (w, [], false)
  else '(w, evs) ← evd_service_validate_connection (with_group (Some s) w) s; Some (w, evs, true).

(** Public: the check of [self] for a connection fails on a service, nothing is done. *)
Definition evd_service_accept_connection (w : world) (s : string) : world := w.
Definition evd_service_reject_connection (w : world) (s : string) : world := w.

End Calls.

(** [evd_io_stream_group_add] with its [recursed] flag. *)
Fixpoint evd_io_stream_group_add (fuel : nat) (w : world) (s : string) : option (world * list effect * bool) :=
  match fuel with
  | O => None
  | S fuel =>
      v ← services w !! s;
      if recursed v then Some (w, [], true)
      else
        let w := with_service s (set_recursed true v) w in
        '(w, evs, added) ← evd_service_add (evd_io_stream_group_add fuel) w s;
        v ← services w !! s;
        Some (with_service s (set_recursed false v) w, evs, added)
  end.

(** A selector hands over to a service that is not in the middle of a call: one level per service. *)
Definition call_depth (w : world) : nat := S (size (services w)).

Definition add_connection (w : world) (s : string) : option (world * list effect * bool) :=
  evd_io_stream_group_add (call_depth w) w s.

(** A listener has a new connection. *)
Definition evd_service_listener_on_new_connection (w : world) (s : string) : option (world * list effect) :=
  '(w, evs, _) ← add_connection w s; Some (w, evs).

Definition evd_service_connection_on_tls_started (w : world) (s : string) (ok : bool)
  : option (world * list effect) :=
  let w := with_tls None w in
  if ok then
    evd_service_validate_tls_connection add_connection
      (with_conn (with_tls_active true (conn w)) w) s
  else reject_connection_priv w.

(** The callback of [evd_http_connection_read_request_headers]. *)
Definition evd_web_service_conn_on_headers_read (w : world) (s : string) (a : async)
  : option (world * list effect) :=
  let w := with_reader None w in
  v ← services w !! s;
  web ← web_of v;
  match evd_http_connection_read_request_headers_finish a with
  | Some request =>
      '(w, ok) ← evd_web_service_validate_request web w request;
      if ok : bool then evd_web_service_invoke_request_handler add_connection w s request else Some (w, [])
  | None =>
      match error a with
      | Some (ErrClosed | ErrInput BufferedInput.ErrClosed) => Some (w, [])
      | _ => '(c, evs) ← g_io_stream_close (conn w); Some (with_conn c w, [ConnEvents evs])
      end
  end.

Definition evd_web_service_return_connection (w : world) (s : string) : option (world * list effect) :=
  if closed (conn w) then Some (w, [])
  else
    let w := with_conn (evd_http_connection_set_current_request (conn w) None) w in
    if evd_http_connection_get_keepalive (conn w) then
      match return_to w with
      | Some back => '(w, evs, _) ← add_connection (with_return None w) back; Some (w, evs)
      | None => connection_accepted add_connection w s
      end
    else Some (w, [Shutdown]).

(** The first flush ends. *)
Definition evd_web_service_connection_on_flush (w : world) : option (world * list effect) :=
  match flushes w with
  | [] => Some (w, [])
  | FlushShutdown :: fs => Some (with_flushes fs w, [Shutdown])
  | FlushReturn :: fs =>
      let w := with_flushes fs w in
      match group w with
      | Some g =>
          v ← services w !! g;
          match web_of v with Some _ => evd_web_service_return_connection w g | None => Some (w, []) end
      | None => Some (w, [])
      end
  end.

(** [evd_web_service_respond] of a handler that answers. *)
Definition evd_web_service_respond (w : world) (s : string) (status_code : Z)
    (h : option SoupMessageHeaders) (content : option (list Z)) (size : Z) : option (world * bool) :=
  v ← services w !! s;
  web ← web_of v;
  evd_web_service_respond_internal web w status_code h content size.

End Web.

End WebService.
