(* ===== verification/WebServiceSpec.v ===== *)
(** * Services, web services and the web selector: theorems

    The calls between services end; the verdict on a connection and on an origin; a forbidden origin
    never reaches a handler; routing; a connection lent by a selector comes back to it. *)
From S2P Require Import Prelude HttpMessage BufferedInput HttpConnection HttpConnectionLife WebService.
Import HttpMessage HttpConnection WebService.

Module WebServiceSpec.

(** ** Verdicts *)

(** The value of the handlers before one that rejects, and of that one. *)
Fixpoint until_reject (rets : list Z) : list Z :=
  match rets with
  | [] => []
  | r :: rets => if r =? EVD_VALIDATE_REJECT then [r] else r :: until_reject rets
  end.

Definition verdict_ok (r : Z) : Prop := r = EVD_VALIDATE_ACCEPT ∨ r = EVD_VALIDATE_REJECT ∨ r = EVD_VALIDATE_PENDING.

Lemma emit_validate_max rets : ∀ acc, 0 <= acc → Forall verdict_ok rets →
  emit_validate acc rets = foldr Z.max acc (until_reject rets).
Proof.
  induction rets as [|r rets IH]; intros acc Ha Hr; [done|]. apply Forall_cons_1 in Hr as [Hr Hrs]. simpl.
  destruct (Z.eqb_spec r EVD_VALIDATE_REJECT) as [->|Hne]; simpl.
  { unfold EVD_VALIDATE_REJECT. destruct (Z.ltb_spec acc 1); lia. }
  assert (0 <= r) by (destruct Hr as [->|[->| ->]]; done).
  assert (∀ l a b, Z.max a (foldr Z.max b l) = foldr Z.max (Z.max a b) l) as Hmax.
  { induction l as [|x l IHl]; intros a b; [done|]. simpl. rewrite <-IHl. lia. }
  rewrite IH by (try done; destruct (acc <? r); lia).
  rewrite Hmax. f_equal. destruct (Z.ltb_spec acc r); lia.
Qed.

Lemma foldr_max_spec l : Forall verdict_ok l →
  foldr Z.max 0 l = (if decide (EVD_VALIDATE_PENDING ∈ l) then EVD_VALIDATE_PENDING
                     else if decide (EVD_VALIDATE_REJECT ∈ l) then EVD_VALIDATE_REJECT else EVD_VALIDATE_ACCEPT).
Proof.
  induction l as [|r l IH]; intros Hl; [done|]. apply Forall_cons_1 in Hl as [Hr Hl]. simpl. rewrite IH by done.
  destruct Hr as [->|[->| ->]]; repeat destruct (decide _); try set_solver; try lia; try done.
Qed.

(** The verdict on a connection: it is accepted exactly when no handler objects; a handler that
    rejects stops the emission, but the connection is then rejected only if no handler before it left
    the verdict pending. *)
Theorem validation_verdict rets :
  Forall verdict_ok rets →
  emit_validate EVD_VALIDATE_ACCEPT rets =
  (if decide (EVD_VALIDATE_PENDING ∈ until_reject rets) then EVD_VALIDATE_PENDING
   else if decide (EVD_VALIDATE_REJECT ∈ rets) then EVD_VALIDATE_REJECT else EVD_VALIDATE_ACCEPT).
Proof.
  intros Hr. rewrite emit_validate_max by done.
  assert (Forall verdict_ok (until_reject rets)) as Hu.
  { clear -Hr. induction Hr as [|r rets Hr _ IH]; simpl; [constructor|]. case_match; constructor; try done; constructor. }
  rewrite foldr_max_spec by done.
  assert (EVD_VALIDATE_REJECT ∈ until_reject rets ↔ EVD_VALIDATE_REJECT ∈ rets) as Hin.
  { clear. induction rets as [|r rets IH]; [done|]. simpl. destruct (Z.eqb_spec r EVD_VALIDATE_REJECT) as [->|]; set_solver. }
  repeat destruct (decide _); try done; tauto.
Qed.

Lemma validation_verdict_witness :
  emit_validate EVD_VALIDATE_ACCEPT [0; 2; 1; 0] = EVD_VALIDATE_PENDING.
Proof.
  rewrite (validation_verdict [0; 2; 1; 0]); [reflexivity|].
  repeat (apply Forall_cons; split; [unfold verdict_ok; auto|]). apply Forall_nil_2.
Defined.

(** A pending verdict can not be settled: [evd_service_accept_connection] refuses every service. *)

(** ** Origins *)

Inductive decision := Allow (origin : list Z) | Deny (origin : list Z) | Policy (p : EvdPolicy).

Definition decide_origin (web : EvdWebServicePrivate) (d : decision) : EvdWebServicePrivate :=
  match d with
  | Allow o => evd_web_service_allow_origin web o
  | Deny o => evd_web_service_deny_origin web o
  | Policy p => evd_web_service_set_origin_policy web p
  end.

(** The last decision on the origin, or the last policy; the list has the last one first. *)
Fixpoint last_on (ds : list decision) (o : list Z) : option bool :=
  match ds with
  | [] => None
  | Allow o' :: ds => if decide (o' = o) then Some true else last_on ds o
  | Deny o' :: ds => if decide (o' = o) then Some false else last_on ds o
  | Policy _ :: ds => last_on ds o
  end.
Fixpoint last_policy (ds : list decision) : EvdPolicy :=
  match ds with
  | [] => EVD_POLICY_DENY
  | Policy p :: _ => p
  | _ :: ds => last_policy ds
  end.

Lemma decisions_table ds o :
  let web := foldl decide_origin evd_web_service_init ds in
  origins web !! o = last_on (reverse ds) o ∧ origin_policy web = last_policy (reverse ds).
Proof.
  induction ds as [|d ds IH] using rev_ind; [done|]. rewrite foldl_app, reverse_app. simpl in *.
  destruct IH as [IH1 IH2]. destruct d as [o'|o'|p]; simpl; [destruct (decide (o' = o)) as [->|Hne]..|done];
    rewrite ?lookup_insert_eq; rewrite ?lookup_insert_ne by done; done.
Qed.

(** Whatever the sequence of decisions on a new service, an origin is allowed when the last
    decision on it allows it, or when there is none and the last policy allows. *)
Theorem origin_last_decision ds o :
  evd_web_service_origin_allowed (foldl decide_origin evd_web_service_init ds) o =
  default (bool_decide (last_policy (reverse ds) = EVD_POLICY_ALLOW)) (last_on (reverse ds) o).
Proof.
  destruct (decisions_table ds o) as [H1 H2]. unfold evd_web_service_origin_allowed. rewrite H1, H2.
  by destruct (last_on (reverse ds) o).
Qed.

(** ** Routing *)

Section Spec.
Context `{Soup} `{Regex}.

Definition live (ks : list EvdWebSelectorCandidate) : list (option EvdWebSelectorCandidate) := Some <$> ks.

(** Routing: the service a selector finds is that of the first candidate, in the order in which
    they were added, whose patterns match. *)
Example routing_first_match ks d domain path :
  evd_web_selector_find_match (mkSelector (live ks) d) domain path =
  Some (service <$> head (filter (λ k, candidate_matches domain path k = true) ks)).
Proof.
  unfold evd_web_selector_find_match, live. simpl. induction ks as [|k ks IH]; [done|]. simpl.
  destruct (candidate_matches domain path k) eqn:E.
  - by rewrite filter_cons_True.
  - by rewrite filter_cons_False by congruence.
Qed.

(** Removing a candidate never works: another one is taken out and freed memory is read, or the
    candidate is left in the list after it was freed. *)
Lemma remove_service_breaks ks dom path s :
  existsb (same_candidate dom path s) ks = true →
  remove_from (live ks) dom path s = None ∨
  ∃ ks', remove_from (live ks) dom path s = Some ks' ∧ None ∈ ks'.
Proof.
  induction ks as [|k ks IH]; [done|]. simpl. destruct (same_candidate dom path s k) eqn:E; simpl.
  - intros _. destruct ks; simpl; [right; eexists; split; [done|]; by left|by left].
  - intros [->|(ks' & -> & Hin)]%IH; [by left|]. right. eexists. split; [done|]. by right.
Qed.

(** A freed candidate that is reached ends the process. *)
Lemma dangling_candidate_read ks domain path :
  Forall (λ k, candidate_matches domain path k = false) ks →
  find_match_from (live ks ++ [None]) domain path = None.
Proof. induction 1 as [|k ks Hk _ IH]; [done|]. simpl. by rewrite Hk. Qed.

(** ** The gate for cross-origin requests *)

(** A response without content on a stream that takes everything. *)
Lemma respond_status c ver st h size close :
  answers c = [] →
  ∃ c' rest, evd_http_connection_respond c ver st None (Some h) None size close = (c', true) ∧
    out c' = out c ++ (codes "HTTP/1." ++ print_d ver ++ codes " " ++ print_d st) ++ rest ∧ answers c' = [].
Proof.
  intros Ha. unfold evd_http_connection_respond, evd_http_connection_write_response_headers.
  set (h' := soup_message_headers_set_content_length _ _). set (b := codes "HTTP/1." ++ _).
  destruct (HttpConnectionLife.write_all_out (with_encoding (soup_message_headers_get_encoding h') c)
    ((b ++ print_headers h') ++ CRLF) Ha) as (c1 & -> & Ho & Ha1 & _).
  rewrite bool_decide_eq_true_2 by eauto. eexists _, _. split; [reflexivity|]. split; [|done].
  rewrite Ho. cbn [out with_encoding with_body]. subst b. by rewrite <-!app_assoc.
Qed.

Lemma respond_internal_status web w st h request cross :
  answers (conn w) = [] → current_request (conn w) = Some request →
  evd_http_request_is_cross_origin request = Some cross →
  ∃ w' rest, evd_web_service_respond_internal web w st h None 0 = Some (w', true) ∧
    out (conn w') = out (conn w) ++ (codes "HTTP/1." ++ print_d (version request) ++ codes " " ++ print_d st) ++ rest ∧
    flushes w' = flushes w ++ [FlushReturn].
Proof.
  intros Ha Hr Hc. unfold evd_web_service_respond_internal, prepare_response_headers. rewrite Hr, Hc. run_bind.
  assert (∃ hd, (match cross, evd_http_request_get_origin request with
    | true, Some origin =>
        Some (if evd_web_service_origin_allowed web origin
              then soup_message_headers_replace (default soup_message_headers_new h)
                     (codes "Access-Control-Allow-Origin") origin
              else default soup_message_headers_new h, version request)
    | _, _ => Some (default soup_message_headers_new h, version request)
    end) = Some (hd, version request)) as [hd ->] by (repeat case_match; eauto).
  run_bind. destruct (respond_status (conn w) (version request) st hd 0 false Ha) as (c' & rest & -> & Ho & _).
  eexists _, rest. split; [reflexivity|]. done.
Qed.

(** What the origin of a request is compared with: the scheme, the host and the port of its URI. *)
Definition own_origin (u : SoupURI) : list Z :=
  uri_scheme u ++ codes "://" ++ uri_host u ++ codes ":" ++ print_d (uri_port u).

(** The request bears an origin that is not a beginning of its own. *)
Definition foreign (request : EvdHttpRequest) (u : SoupURI) (o : list Z) : Prop :=
  evd_http_request_get_origin request = Some o ∧ ¬ o `prefix_of` own_origin u.

Lemma cross_origin_spec r u :
  uri r = Some u → ∃ cross, evd_http_request_is_cross_origin r = Some cross ∧
    if cross : bool then ∃ o, foreign r u o else ∀ o, ¬ foreign r u o.
Proof.
  intros Hu. unfold evd_http_request_is_cross_origin, foreign. destruct (evd_http_request_get_origin r) as [o|].
  - rewrite Hu. run_bind. eexists. split; [done|]. fold (own_origin u). case_bool_decide as Hd; cbn.
    + intros o' [[= <-] Hn]. by apply Hn, strstr_start.
    + exists o. split; [done|]. by rewrite <-strstr_start.
  - exists false. split; [done|]. by intros o [? _].
Qed.

(** The service answers by itself, with a status and no content: no handler runs, and the connection is
    flushed and returned. *)
Definition answers_itself w s a (request : EvdHttpRequest) (st : Z) : Prop :=
  ∃ w' rest, evd_web_service_conn_on_headers_read w s a = Some (w', []) ∧
    out (conn w') = out (conn w) ++ (codes "HTTP/1." ++ print_d (version request) ++ codes " " ++ print_d st) ++ rest ∧
    flushes w' = flushes w ++ [FlushReturn].

(** C14. The gate, once the headers of a request are read.  A request that bears no origin, or one that
    is a beginning of its own, or an origin that the service allows without being a preflight, goes to
    the handlers of the service.  Any other makes no effect on the service: it is answered 403 when its
    origin is not allowed, and 200 when it is a preflight, and its connection is flushed and returned. *)
Theorem cross_origin_gate w s v web a request u :
  services w !! s = Some v → web_of v = Some web → answers (conn w) = [] →
  evd_http_connection_read_request_headers_finish a = Some request →
  current_request (conn w) = Some request → uri request = Some u →
  ((∀ o, foreign request u o →
      evd_web_service_origin_allowed web o = true ∧ evd_http_request_is_cors_preflight request = false) →
   evd_web_service_conn_on_headers_read w s a =
   evd_web_service_invoke_request_handler add_connection (with_reader None w) s request) ∧
  ∀ o, foreign request u o →
    (evd_web_service_origin_allowed web o = false → answers_itself w s a request 403) ∧
    (evd_web_service_origin_allowed web o = true → evd_http_request_is_cors_preflight request = true →
     answers_itself w s a request 200).
Proof.
  intros Hs Hv Ha Hfin Hreq Hu. destruct (cross_origin_spec request u Hu) as (cross & Hcross & Hc).
  unfold answers_itself, evd_web_service_conn_on_headers_read, evd_web_service_validate_request.
  change (services (with_reader None w)) with (services w). rewrite Hs. run_bind. rewrite Hv. run_bind.
  rewrite Hfin, Hcross. run_bind. destruct cross.
  2:{ split; [done|]. intros o Ho. by destruct (Hc o). }
  destruct Hc as [o Ho]. rewrite (proj1 Ho). split.
  - intros Hall. destruct (Hall o Ho) as [-> ->]. done.
  - intros o' Ho'. assert (o' = o) as -> by (destruct Ho, Ho'; congruence). split; [intros ->|intros -> ->]; cbn [negb].
    + destruct (respond_internal_status web (with_reader None w) 403 None request true)
        as (w' & rest & -> & Hout & Hf); [done..|]. run_bind. by exists w', rest.
    + unfold evd_web_service_respond_cors_preflight.
      destruct (respond_internal_status web (with_reader None w) 200 (Some (cors_preflight_headers request)) request true)
        as (w' & rest & -> & Hout & Hf); [done..|]. run_bind. by exists w', rest.
Qed.

(** ** The calls between services end *)

Implicit Types f g : world → string → option (world * list effect * bool).

(** Two ways of adding that agree while the services are as they are. *)
Definition agree (ss : gmap string EvdService) f g : Prop := ∀ w s, services w = ss → f w s = g w s.

Lemma respond_internal_services web w st h content size w' ok :
  evd_web_service_respond_internal web w st h content size = Some (w', ok) → services w' = services w.
Proof.
  unfold evd_web_service_respond_internal. destruct (prepare_response_headers web w h) as [[hd ver]|]; [|done].
  run_bind. destruct (evd_http_connection_respond _ _ _ _ _ _ _ _) as [c []]; intros E; by simplify_eq.
Qed.

Lemma validate_request_services web w r w' ok :
  evd_web_service_validate_request web w r = Some (w', ok) → services w' = services w.
Proof.
  unfold evd_web_service_validate_request, evd_web_service_respond_cors_preflight. intros E.
  destruct (evd_http_request_is_cross_origin r) as [[]|]; simplify_eq/=; try done.
  destruct (evd_http_request_get_origin r); simplify_eq/=; try done.
  destruct (evd_web_service_origin_allowed web l); cbn [negb] in E.
  - destruct (evd_http_request_is_cors_preflight r); [|by simplify_eq].
    destruct (evd_web_service_respond_internal _ _ _ _ _ _) as [[w1 ok1]|] eqn:E1; simplify_eq/=.
    by eapply respond_internal_services.
  - destruct (evd_web_service_respond_internal _ _ _ _ _ _) as [[w1 ok1]|] eqn:E1; simplify_eq/=.
    by eapply respond_internal_services.
Qed.

Section Agree.
Context (f g : world → string → option (world * list effect * bool)).

Lemma add_with_request_agree w s r b :
  agree (services w) f g →
  evd_web_service_add_connection_with_request f w s r b = evd_web_service_add_connection_with_request g w s r b.
Proof. intros Hfg. unfold evd_web_service_add_connection_with_request. apply Hfg. by repeat case_match. Qed.

Lemma selector_handler_agree w self web sel r :
  agree (services w) f g →
  evd_web_selector_request_handler f w self web sel r = evd_web_selector_request_handler g w self web sel r.
Proof.
  intros Hfg. unfold evd_web_selector_request_handler. destruct (uri r); [|done]. run_bind.
  destruct (evd_http_message_get_headers r) as [r' h].
  destruct (evd_web_selector_find_match _ _ _) as [found|]; [|done]. run_bind.
  destruct (match found with Some s => Some s | None => _ end) as [t|]; [|done].
  destruct (services w !! t) as [v|]; [|done]. run_bind. destruct (web_of v).
  - by rewrite add_with_request_agree.
  - destruct (evd_http_connection_unread_request_headers _ _) as [[[c ?] []]|]; run_bind; try done. by rewrite Hfg.
Qed.

Lemma invoke_agree w s r :
  agree (services w) f g →
  evd_web_service_invoke_request_handler f w s r = evd_web_service_invoke_request_handler g w s r.
Proof.
  intros Hfg. unfold evd_web_service_invoke_request_handler. destruct (services w !! s) as [v|]; [|done]. run_bind.
  destruct (class v); try done. by rewrite selector_handler_agree.
Qed.

Lemma web_accepted_agree w s web :
  agree (services w) f g →
  evd_web_service_connection_accepted f w s web = evd_web_service_connection_accepted g w s web.
Proof.
  intros Hfg. unfold evd_web_service_connection_accepted. destruct (current_request (conn w)) as [r|]; [|done].
  destruct (evd_web_service_validate_request web w r) as [[w1 []]|] eqn:E; run_bind; try done.
  apply invoke_agree. by rewrite (validate_request_services _ _ _ _ _ E).
Qed.

Lemma service_add_agree w s : agree (services w) f g → evd_service_add f w s = evd_service_add g w s.
Proof.
  intros Hfg. unfold evd_service_add. destruct (_ || _); [done|].
  unfold evd_service_validate_connection. change (services (with_group (Some s) w)) with (services w).
  destruct (services w !! s) as [v|] eqn:Hv; [|done]. run_bind. unfold validated.
  destruct (_ =? EVD_VALIDATE_ACCEPT); [|done]. unfold accept_connection_priv.
  change (services (with_group (Some s) w)) with (services w). rewrite Hv. run_bind.
  destruct (_ && _); [done|]. unfold connection_accepted.
  change (services (with_group (Some s) w)) with (services w). rewrite Hv. run_bind.
  destruct (web_of v); [|done]. by rewrite web_accepted_agree.
Qed.

End Agree.

(** The services that are not in the middle of a call. *)
Definition free_services (ss : gmap string EvdService) : nat :=
  size (filter (λ kv, recursed kv.2 = false) ss).

Lemma free_services_less ss s v :
  ss !! s = Some v → recursed v = false →
  S (free_services (<[s := set_recursed true v]> ss)) = free_services ss.
Proof.
  intros Hs Hv. unfold free_services. rewrite map_filter_insert_False by done. rewrite map_filter_delete.
  rewrite map_size_delete_Some; [|eexists; by apply map_lookup_filter_Some_2].
  assert (filter (λ kv : string * EvdService, recursed kv.2 = false) ss !! s = Some v) as Hin
    by (by apply map_lookup_filter_Some_2).
  destruct (size (filter _ ss)) eqn:E; [|done].
  apply map_size_empty_inv in E. by rewrite E, lookup_empty in Hin.
Qed.

Lemma group_add_fuel n : ∀ fuel1 fuel2 w s,
  (free_services (services w) <= n)%nat → (n < fuel1)%nat → (n < fuel2)%nat →
  evd_io_stream_group_add fuel1 w s = evd_io_stream_group_add fuel2 w s.
Proof.
  induction n as [|n IH]; intros [|f1] [|f2] w s Hn H1 H2; try lia; cbn [evd_io_stream_group_add];
    (destruct (services w !! s) as [v|] eqn:Hv; [|done]); run_bind;
    (destruct (recursed v) eqn:Hr; [done|]);
    pose proof (free_services_less _ _ _ Hv Hr) as Hless; [lia|].
  rewrite (service_add_agree (evd_io_stream_group_add f1) (evd_io_stream_group_add f2)); [done|].
  intros w' s' Hs'. apply IH; [|lia..]. rewrite Hs'. cbn [services with_service]. lia.
Qed.

Lemma unread_async i d i' e n :
  BufferedInput.evd_buffered_input_stream_unread i d = (i', e, n) →
  BufferedInput.async_result i' = BufferedInput.async_result i.
Proof.
  unfold BufferedInput.evd_buffered_input_stream_unread, BufferedInput.evd_buffered_input_stream_thaw.
  repeat case_match; intros; by simplify_eq/=.
Qed.

(** A selector whose services exist and whose candidates are live, a request with a URI, no read under
    way: nothing that ends the program is met. *)
Definition selector_ok (names : gset string) (sel : EvdWebSelectorPrivate) : Prop :=
  Forall (λ k, ∃ k', k = Some k' ∧ service k' ∈ names) (candidates sel) ∧
  (∀ s, default_service sel = Some s → s ∈ names).

Definition service_ok (names : gset string) (v : EvdService) : Prop :=
  match class v with WebSelectorClass _ sel => selector_ok names sel | _ => True end.

Record sound (w : world) : Prop := mkSound {
  sound_services : map_Forall (λ _, service_ok (dom (services w))) (services w);
  sound_request : ∀ r, current_request (conn w) = Some r → is_Some (uri r);
  sound_input : BufferedInput.async_result (input (conn w)) = false
}.

(** A result, with the same services. *)
Definition ends {A} (ss : gmap string EvdService) (world_of : A → world) (r : option A) : Prop :=
  ∃ a, r = Some a ∧ dom (services (world_of a)) = dom ss.

Lemma find_match_live names sel domain path :
  selector_ok names sel →
  ∃ found, evd_web_selector_find_match sel domain path = Some found ∧ (∀ s, found = Some s → s ∈ names).
Proof.
  intros [Hk _]. unfold evd_web_selector_find_match. induction Hk as [|k ks (k' & -> & Hin) Hks IH].
  - by exists None.
  - cbn [find_match_from]. destruct (candidate_matches domain path k'); [|done].
    exists (Some (service k')). split; [done|]. by intros s [= <-].
Qed.

Lemma cross_origin_known r : is_Some (uri r) → is_Some (evd_http_request_is_cross_origin r).
Proof. intros [u Hu]. unfold evd_http_request_is_cross_origin. rewrite Hu. by case_match. Qed.

Lemma respond_internal_ends web w st h content size :
  (∀ r, current_request (conn w) = Some r → is_Some (uri r)) →
  ends (services w) fst (evd_web_service_respond_internal web w st h content size).
Proof.
  intros Hr. assert (is_Some (prepare_response_headers web w h)) as [[hd ver] E].
  { unfold prepare_response_headers. destruct (current_request (conn w)) as [r|]; [|done].
    destruct (cross_origin_known r (Hr r eq_refl)) as [b ->]. run_bind. by repeat case_match. }
  unfold evd_web_service_respond_internal. rewrite E. run_bind.
  destruct (evd_http_connection_respond _ _ _ _ _ _ _ _) as [c []]; by eexists.
Qed.

(** A request that passes leaves the world as it was. *)
Lemma validate_request_ends web w r :
  is_Some (uri r) → (∀ r, current_request (conn w) = Some r → is_Some (uri r)) →
  ∃ w' ok, evd_web_service_validate_request web w r = Some (w', ok) ∧ services w' = services w ∧ (ok = true → w' = w).
Proof.
  intros Hu Hr. destruct (evd_web_service_validate_request web w r) as [[w' ok]|] eqn:E.
  - exists w', ok. split; [done|]. split; [by eapply validate_request_services|]. revert E.
    unfold evd_web_service_validate_request, evd_web_service_respond_cors_preflight.
    destruct (cross_origin_known r Hu) as [[] ->]; run_bind; [|by intros [= <- <-]].
    destruct (evd_http_request_get_origin r); [|by intros [= <- <-]].
    destruct (evd_web_service_origin_allowed web l); cbn [negb];
      [destruct (evd_http_request_is_cors_preflight r); [|by intros [= <- <-]]|];
      (destruct (evd_web_service_respond_internal _ _ _ _ _ _) as [[]|]; run_bind; [by intros [= <- <-]|done]).
  - exfalso. revert E. unfold evd_web_service_validate_request, evd_web_service_respond_cors_preflight.
    destruct (cross_origin_known r Hu) as [b ->]. run_bind.
    destruct b; [|done]. destruct (evd_http_request_get_origin r) as [o|]; [|done].
    destruct (respond_internal_ends web w 403 None None 0 Hr) as ([] & -> & _).
    destruct (respond_internal_ends web w 200 (Some (cors_preflight_headers r)) None 0 Hr) as ([] & -> & _).
    run_bind. by repeat case_match.
Qed.

Lemma close_returns c : BufferedInput.async_result (input c) = false → is_Some (g_io_stream_close c).
Proof.
  intros Ha. unfold g_io_stream_close. destruct (closed c); [done|].
  unfold g_io_stream_set_pending. destruct (closed c); [done|]. destruct (pending c); [done|].
  unfold evd_http_connection_close, BufferedInput.evd_buffered_input_stream_close.
  cbn [input with_flags BufferedInput.async_result BufferedInput.set_source].
  replace (BufferedInput.async_result _) with false by done.
  cbn [input_events]. run_bind. by case_match.
Qed.

Lemma add_with_request_as f w s r b :
  ∃ w1, evd_web_service_add_connection_with_request f w s r b = f w1 s ∧ services w1 = services w ∧
    current_request (conn w1) = Some r ∧ input (conn w1) = input (conn w).
Proof.
  unfold evd_web_service_add_connection_with_request. eexists. split; [done|].
  change (return_to (with_conn _ w)) with (return_to w). by destruct (return_to w), b.
Qed.

Lemma request_prints r : is_Some (uri r) → is_Some (evd_http_request_to_string r).
Proof.
  intros [u Hu]. unfold evd_http_request_to_string. rewrite Hu. run_bind.
  by destruct (evd_http_message_get_headers r).
Qed.

Section Ends.
Context (ss : gmap string EvdService) (f : world → string → option (world * list effect * bool))
  (Hf : ∀ w s, services w = ss → sound w → s ∈ dom ss → ends ss (λ a, a.1.1) (f w s)).

Ltac returns := eexists; split; [done|]; cbn [fst services with_conn with_group with_reader with_tls with_hint] in *; congruence.

Lemma selector_handler_ends w self web sel r :
  services w = ss → sound w → selector_ok (dom ss) sel → is_Some (uri r) →
  ends ss fst (evd_web_selector_request_handler f w self web sel r).
Proof.
  intros <- [Hs Hq Hi] Hsel Hu. unfold evd_web_selector_request_handler. destruct Hu as [u Hu]. rewrite Hu. run_bind.
  destruct (evd_http_message_get_headers r) as [r' h].
  destruct (find_match_live _ sel (soup_message_headers_get_one h (codes "host")) (uri_path u) Hsel)
    as (found & -> & Hin). run_bind.
  destruct (match found with Some s => Some s | None => _ end) as [t|] eqn:Ht.
  - assert (t ∈ dom (services w)) as Hdom.
    { destruct found as [s|]; [by apply Hin|]. by apply Hsel. }
    pose proof Hdom as [v Hv]%elem_of_dom. rewrite Hv. run_bind. destruct (web_of v).
    + destruct (add_with_request_as f w t r (Some self)) as (w1 & -> & E1 & E2 & E3).
      destruct (Hf w1 t) as ([[w2 evs] b] & -> & Hd); [done| |done|].
      { split; [by rewrite E1|rewrite E2; by intros ? [= <-]|by rewrite E3]. }
      run_bind. by eexists.
    + destruct (request_prints r) as [[r2 text] Et]; [by eexists|].
      unfold evd_http_connection_unread_request_headers. rewrite Et. run_bind.
      destruct (BufferedInput.evd_buffered_input_stream_unread _ _) as [[i ie] n] eqn:En.
      apply unread_async in En. destruct n as [n|n]; run_bind; [|by eexists].
      destruct (Hf (with_conn (with_input i (reading (conn w)) (conn w)) w) t) as ([[w2 e2] b] & -> & Hd); [done| |done|].
      { split; [done|done|]. cbn [conn with_conn input with_input]. by rewrite En. }
      run_bind. by eexists.
  - destruct (respond_internal_ends web w 403 None None 0) as ([w1 b] & -> & Hd); [done|]. run_bind. by eexists.
Qed.

Lemma accepted_ends w s :
  services w = ss → sound w → s ∈ dom ss → ends ss fst (connection_accepted f w s).
Proof.
  intros Ess Hw Hdom. pose proof Hdom as [v Hv]%elem_of_dom. rewrite <-Ess in Hv. unfold connection_accepted. rewrite Hv. run_bind.
  destruct (web_of v) as [web|]; [|by returns]. unfold evd_web_service_connection_accepted.
  destruct (current_request (conn w)) as [r|] eqn:Hr.
  - pose proof (sound_request w Hw r Hr) as Hu.
    destruct (validate_request_ends web w r Hu (sound_request w Hw)) as (w' & [] & -> & Hs & Hok); run_bind.
    + rewrite (Hok eq_refl). unfold evd_web_service_invoke_request_handler. rewrite Hv. run_bind.
      pose proof (sound_services w Hw s v Hv) as Hsv. unfold service_ok in Hsv. destruct (class v); [by returns..|].
      destruct (selector_handler_ends w s web0 sel r) as ([w2 e] & -> & Hd); [done|done|by rewrite <-Ess|done|]. run_bind. by returns.
    + by returns.
  - destruct (evd_http_connection_read_request_headers (conn w)) as [c evs]. by returns.
Qed.

Lemma service_add_ends w s :
  services w = ss → sound w → s ∈ dom ss → ends ss (λ a, a.1.1) (evd_service_add f w s).
Proof.
  intros Ess Hw Hs. unfold evd_service_add. destruct (_ || _); [by returns|].
  assert (sound (with_group (Some s) w)) as Hw' by by destruct Hw.
  pose proof Hs as [v Hv]%elem_of_dom. rewrite <-Ess in Hv.
  unfold evd_service_validate_connection. change (services (with_group (Some s) w)) with (services w).
  rewrite Hv. run_bind. unfold validated. destruct (_ =? EVD_VALIDATE_ACCEPT); [|destruct (_ =? EVD_VALIDATE_REJECT); [|by returns]].
  - unfold accept_connection_priv. change (services (with_group (Some s) w)) with (services w). rewrite Hv. run_bind.
    destruct (_ && _); [by returns|].
    destruct (accepted_ends (with_group (Some s) w) s) as ([w2 e] & -> & Hd); [done..|]. run_bind. by returns.
  - unfold reject_connection_priv. destruct (close_returns (conn (with_group (Some s) w))) as [[c e] ->].
    { by destruct Hw'. }
    run_bind. by returns.
Qed.

End Ends.

Lemma dom_set_recursed (ss : gmap string EvdService) s v b :
  ss !! s = Some v → dom (<[s := set_recursed b v]> ss) = dom ss.
Proof. intros Hv. rewrite dom_insert_L. apply elem_of_dom_2 in Hv. set_solver. Qed.

Lemma sound_recursed w s v b : sound w → services w !! s = Some v → sound (with_service s (set_recursed b v) w).
Proof.
  intros [Hs Hq Hi] Hv. split; [|done..]. cbn [services with_service]. rewrite (dom_set_recursed _ _ _ _ Hv).
  apply map_Forall_insert_2; [|done]. exact (Hs s v Hv).
Qed.

Lemma group_add_unfold n w s :
  evd_io_stream_group_add (S n) w s =
  (v ← services w !! s;
   if recursed v then Some (w, [], true)
   else
     let w := with_service s (set_recursed true v) w in
     '(w, evs, added) ← evd_service_add (evd_io_stream_group_add n) w s;
     v ← services w !! s;
     Some (with_service s (set_recursed false v) w, evs, added)).
Proof. done. Qed.

Lemma group_add_ends n : ∀ w s,
  sound w → s ∈ dom (services w) → (free_services (services w) <= n)%nat →
  ends (services w) (λ a, a.1.1) (evd_io_stream_group_add (S n) w s).
Proof.
  induction n as [|n IH]; intros w s Hw [v Hv]%elem_of_dom Hn; rewrite group_add_unfold, Hv; run_bind; (destruct (recursed v) eqn:Hr; [by eexists|]);
    pose proof (free_services_less _ _ _ Hv Hr) as Hless; [lia|].
  destruct (service_add_ends (<[s := set_recursed true v]> (services w)) (evd_io_stream_group_add (S n)))
    with (w := with_service s (set_recursed true v) w) (s := s) as ([[w2 e] b] & E & Hd).
  - intros w' s' Hs' Hw' Hin. rewrite <-Hs' in *. apply IH; [done..|]. lia.
  - done.
  - by apply sound_recursed.
  - rewrite (dom_set_recursed _ _ _ _ Hv). by apply elem_of_dom_2 in Hv.
  - cbv zeta. rewrite E. run_bind. cbn [fst] in Hd.
    rewrite (dom_set_recursed _ _ _ _ Hv) in Hd.
    assert (s ∈ dom (services w2)) as [v2 Hv2]%elem_of_dom by (rewrite Hd; by apply elem_of_dom_2 in Hv).
    rewrite Hv2. run_bind. eexists. split; [done|]. cbn [fst services with_service].
    by rewrite (dom_set_recursed _ _ _ _ Hv2).
Qed.

(** The calls between services end: adding a connection to a service returns, with everything it
    makes selectors and handlers do, within as many levels of calls as there are services that are not
    in the middle of one, and the result does not depend on how many more are allowed. *)
Example adding_terminates w s :
  sound w → s ∈ dom (services w) →
  ∃ result, ∀ fuel, (free_services (services w) < fuel)%nat → evd_io_stream_group_add fuel w s = Some result.
Proof.
  intros Hw Hs. destruct (group_add_ends _ w s Hw Hs (le_n _)) as (a & E & _). exists a. intros fuel Hf.
  rewrite <-E. by apply (group_add_fuel (free_services (services w))); [|lia..].
Qed.

(** ** Lending *)

(** A service that accepts every connection as it is. *)
Definition open_service (ss : gmap string EvdService) (s : string) (v : EvdService) : Prop :=
  ss !! s = Some v ∧ recursed v = false ∧ validators v = [] ∧ tls_autostart v = false.

Lemma add_open w s v web :
  open_service (services w) s v → web_of v = Some web → connected (conn w) = true → group w ≠ Some s →
  let w0 := with_group (Some s) (with_service s (set_recursed true v) w) in
  add_connection w s =
  '(w1, evs) ← evd_web_service_connection_accepted (evd_io_stream_group_add (size (services w))) w0 s web;
  v1 ← services w1 !! s;
  Some (with_service s (set_recursed false v1) w1, evs, true).
Proof.
  intros (Hv & Hr & Hval & Htls) Hweb Hc Hg w0. unfold add_connection, call_depth. cbn [evd_io_stream_group_add].
  rewrite Hv. run_bind. rewrite Hr. unfold evd_service_add. set (ws := with_service s _ w) in *.
  assert (negb (connected (conn ws)) || bool_decide (group ws = Some s) = false) as ->
    by (cbn; rewrite Hc; by apply bool_decide_eq_false_2).
  unfold evd_service_validate_connection, validated, accept_connection_priv, connection_accepted. fold w0.
  assert (services w0 !! s = Some (set_recursed true v)) as Hs by (cbn; apply lookup_insert_eq).
  rewrite Hs. run_bind. cbn [validators set_recursed]. rewrite Hval. cbn [emit_validate Z.eqb EVD_VALIDATE_ACCEPT].
  cbn [tls_autostart set_recursed]. rewrite Htls. cbn [andb].
  change (web_of (set_recursed true v)) with (web_of v). rewrite Hweb.
  by destruct (evd_web_service_connection_accepted _ w0 s web) as [[w1 evs]|].
Qed.

(** A connection with no request in hand is read for one. *)
Lemma add_idle w s v web :
  open_service (services w) s v → web_of v = Some web → connected (conn w) = true → group w ≠ Some s →
  current_request (conn w) = None → pending (conn w) = false → closed (conn w) = false →
  ∃ w' evs, add_connection w s = Some (w', evs, true) ∧ group w' = Some s ∧ reader w' = Some s ∧
    return_to w' = return_to w ∧ current_request (conn w') = None ∧
    async_result (conn w') = Some (mkAsync read_request_headers_tag None ResNone).
Proof.
  intros Hv Hweb Hc Hg Hr Hp Hcl. rewrite (add_open w s v web) by done.
  unfold evd_web_service_connection_accepted. cbn [conn with_group with_service]. rewrite Hr.
  unfold evd_http_connection_read_request_headers, evd_http_connection_read_headers_async, g_io_stream_set_pending.
  rewrite Hcl, Hp. set (c1 := with_pos 12 _). run_bind. cbn [services with_reader with_conn with_group with_service].
  rewrite lookup_insert_eq. run_bind. eexists _, _. split; [reflexivity|].
  cbn [group reader return_to conn with_service with_reader with_conn with_group].
  destruct (HttpConnectionLife.read_headers_block_same c1) as (E1 & _).
  assert (current_request (evd_http_connection_read_headers_block c1) = current_request c1) as E2
    by (unfold evd_http_connection_read_headers_block; by case_match).
  rewrite E1, E2. by split_and!.
Qed.

(** A connection with a request of the same origin goes to the handler of a web service. *)
Lemma add_with_request_handled w s v web request :
  open_service (services w) s v → class v = WebServiceClass web → connected (conn w) = true → group w ≠ Some s →
  current_request (conn w) = Some request → evd_http_request_is_cross_origin request = Some false →
  add_connection w s =
  Some (with_service s (set_recursed false v) (with_group (Some s) (with_service s (set_recursed true v) w)),
        [RequestHandler s request; RequestHeadersSignal s request], true).
Proof.
  intros Hv Hcl Hc Hg Hr Hx. rewrite (add_open w s v web); try done; [|unfold web_of; by rewrite Hcl].
  unfold evd_web_service_connection_accepted. cbn [conn with_group with_service]. rewrite Hr.
  unfold evd_web_service_validate_request. rewrite Hx. run_bind.
  unfold evd_web_service_invoke_request_handler. cbn [services with_group with_service].
  rewrite lookup_insert_eq. run_bind. cbn [class set_recursed]. rewrite Hcl. run_bind.
  cbn [services with_group with_service]. rewrite lookup_insert_eq. run_bind. done.
Qed.

End Spec.

Section Lend.
Context `{SoupLaws} `{Regex}.

Lemma respond_keeps c ver st h content close :
  answers c = [] →
  ∃ c', evd_http_connection_respond c ver st None (Some h) (Some content) (len content) close = (c', true) ∧
    pending c' = pending c ∧ closed c' = closed c ∧ connected c' = connected c ∧ keepalive c' = keepalive c ∧
    current_request c' = current_request c.
Proof.
  intros Ha. unfold evd_http_connection_respond, evd_http_connection_write_response_headers.
  set (h' := soup_message_headers_set_content_length _ _). set (b := codes "HTTP/1." ++ _).
  destruct (HttpConnectionLife.write_all_out (with_encoding (soup_message_headers_get_encoding h') c)
    ((b ++ print_headers h') ++ CRLF) Ha) as (c1 & -> & _ & Ha1 & He1 & Hf).
  rewrite bool_decide_eq_true_2 by eauto. cbn [encoding with_encoding with_body] in He1.
  assert (soup_message_headers_get_encoding h' = SOUP_ENCODING_CONTENT_LENGTH) as Hh by apply set_content_length_encoding.
  unfold evd_http_connection_write_content. rewrite He1, Hh. destruct (decide _); [done|].
  unfold write_plain. rewrite (take_ge content) by (unfold len; lia).
  destruct (HttpConnectionLife.write_all_out c1 content Ha1) as (c2 & -> & _ & _ & _ & Hf2). rewrite Z.ltb_irrefl.
  exists c2. destruct Hf as (-> & -> & -> & -> & ->) in Hf2. split; [done|]. exact Hf2.
Qed.

(** The selector hands its connection over. *)
Lemma selector_hands_over w s1 v1 web1 sel s2 v2 web2 a request u h :
  services w !! s1 = Some v1 → class v1 = WebSelectorClass web1 sel →
  open_service (services w) s2 v2 → class v2 = WebServiceClass web2 → s1 ≠ s2 →
  group w = Some s1 → return_to w = None → connected (conn w) = true →
  evd_http_connection_read_request_headers_finish a = Some request →
  evd_http_request_is_cross_origin request = Some false → uri request = Some u → headers request = Some h →
  evd_web_selector_find_match sel (soup_message_headers_get_one h (codes "host")) (uri_path u) = Some (Some s2) →
  ∃ w1 evs1, evd_web_service_conn_on_headers_read w s1 a = Some (w1, evs1) ∧ RequestHandler s2 request ∈ evs1 ∧
    group w1 = Some s2 ∧ return_to w1 = Some s1 ∧ flushes w1 = flushes w ∧ conn w1 = with_request (Some request) (conn w) ∧
    services w1 !! s2 = Some (set_recursed false v2) ∧ services w1 !! s1 = services w !! s1.
Proof.
  intros Hv1 Hc1 Ho2 Hc2 Hne Hg Hret Hcon Hfin Hx Hu Hh Hfind. pose proof Ho2 as (Hv2 & _).
  set (wa := with_return (Some s1) (with_conn (with_request (Some request) (conn w)) (with_reader None w))).
  assert (group wa ≠ Some s2) as Hga by (cbn; congruence).
  pose proof (add_with_request_handled wa s2 v2 web2 request Ho2 Hc2 Hcon Hga eq_refl Hx) as Hadd.
  set (w1 := with_service s2 (set_recursed false v2) _) in Hadd.
  exists w1, [RequestHandler s2 request; RequestHeadersSignal s2 request; RequestHeadersSignal s1 request].
  split; [|split_and!; [by left|done..|cbn; apply lookup_insert_eq|cbn; by rewrite !lookup_insert_ne]].
  unfold evd_web_service_conn_on_headers_read. change (services (with_reader None w)) with (services w).
  rewrite Hv1. run_bind. unfold web_of at 1. rewrite Hc1. run_bind. rewrite Hfin.
  unfold evd_web_service_validate_request. rewrite Hx. run_bind.
  unfold evd_web_service_invoke_request_handler. change (services (with_reader None w)) with (services w).
  rewrite Hv1. run_bind. rewrite Hc1. unfold evd_web_selector_request_handler. rewrite Hu. run_bind.
  unfold evd_http_message_get_headers. rewrite Hh, Hfind. run_bind.
  change (services (with_reader None w)) with (services w). rewrite Hv2. run_bind. unfold web_of. rewrite Hc2.
  unfold evd_web_service_add_connection_with_request, evd_http_connection_set_current_request.
  change (return_to (with_conn _ (with_reader None w))) with (return_to w). rewrite Hret.
  change (add_connection _ s2) with (add_connection wa s2). rewrite Hadd.
  run_bind. done.
Qed.

(** The service answers. *)
Lemma service_answers w s v web request content :
  services w !! s = Some v → web_of v = Some web → current_request (conn w) = Some request →
  evd_http_request_is_cross_origin request = Some false → answers (conn w) = [] →
  ∃ c2, evd_web_service_respond w s 200 None (Some content) (len content) =
      Some (with_flushes (flushes w ++ [FlushReturn]) (with_conn c2 w), true) ∧
    pending c2 = pending (conn w) ∧ closed c2 = closed (conn w) ∧ connected c2 = connected (conn w) ∧
    keepalive c2 = keepalive (conn w).
Proof.
  intros Hs Hv Hr Hx Ha.
  destruct (respond_keeps (conn w) (version request) 200 soup_message_headers_new content false Ha)
    as (c2 & Hresp & Hp & Hcl & Hcon & Hk & _).
  exists c2. split; [|done]. unfold evd_web_service_respond. rewrite Hs. run_bind. rewrite Hv. run_bind.
  unfold evd_web_service_respond_internal, prepare_response_headers. rewrite Hr, Hx. run_bind.
  cbn [default from_option id]. by rewrite Hresp.
Qed.

(** The flush ends and the connection goes back. *)
Lemma flush_returns w s1 v1 web1 s2 v2 web2 :
  open_service (services w) s1 v1 → web_of v1 = Some web1 → services w !! s2 = Some v2 → web_of v2 = Some web2 →
  s1 ≠ s2 → flushes w = [FlushReturn] → group w = Some s2 → return_to w = Some s1 →
  closed (conn w) = false → pending (conn w) = false → connected (conn w) = true → keepalive (conn w) = true →
  ∃ w3 evs3, evd_web_service_connection_on_flush w = Some (w3, evs3) ∧
    group w3 = Some s1 ∧ reader w3 = Some s1 ∧ current_request (conn w3) = None ∧
    async_result (conn w3) = Some (mkAsync read_request_headers_tag None ResNone).
Proof.
  intros Ho1 Hv1 Hs2 Hv2 Hne Hf Hg Hret Hcl Hp Hcon Hk.
  set (wb := with_return None (with_conn (with_request None (conn w)) (with_flushes [] w))).
  assert (group wb ≠ Some s1) as Hgb by (cbn; congruence).
  destruct (add_idle wb s1 v1 web1 Ho1 Hv1 Hcon Hgb eq_refl Hp Hcl) as (w3 & evs3 & Hadd & Hg3 & Hr3 & _ & Hq3 & Ha3).
  exists w3, evs3. split; [|done]. unfold evd_web_service_connection_on_flush. rewrite Hf.
  change (group (with_flushes [] w)) with (group w). change (services (with_flushes [] w)) with (services w).
  rewrite Hg, Hs2. run_bind. rewrite Hv2. unfold evd_web_service_return_connection.
  change (conn (with_flushes [] w)) with (conn w). rewrite Hcl.
  change (evd_http_connection_get_keepalive _) with (keepalive (conn w)). rewrite Hk.
  change (return_to (with_conn _ (with_flushes [] w))) with (return_to w). rewrite Hret.
  unfold evd_http_connection_set_current_request. change (add_connection _ s1) with (add_connection wb s1). rewrite Hadd.
  run_bind. done.
Qed.

(** A connection on which a selector has read a request for one of its services: the handler of
    that service gets the request; when it has answered and the answer is flushed, a connection that
    is kept alive is back in the selector's hands, which reads the next request from it. *)
Example lent_connection_comes_back w s1 v1 web1 sel s2 v2 web2 a request u h content :
  open_service (services w) s1 v1 → class v1 = WebSelectorClass web1 sel →
  open_service (services w) s2 v2 → class v2 = WebServiceClass web2 → s1 ≠ s2 →
  group w = Some s1 → return_to w = None → flushes w = [] →
  connected (conn w) = true → closed (conn w) = false → pending (conn w) = false →
  keepalive (conn w) = true → answers (conn w) = [] →
  evd_http_connection_read_request_headers_finish a = Some request →
  evd_http_request_is_cross_origin request = Some false → uri request = Some u → headers request = Some h →
  evd_web_selector_find_match sel (soup_message_headers_get_one h (codes "host")) (uri_path u) = Some (Some s2) →
  ∃ w1 evs1 w2 w3 evs3,
    evd_web_service_conn_on_headers_read w s1 a = Some (w1, evs1) ∧ RequestHandler s2 request ∈ evs1 ∧
    group w1 = Some s2 ∧
    evd_web_service_respond w1 s2 200 None (Some content) (len content) = Some (w2, true) ∧
    evd_web_service_connection_on_flush w2 = Some (w3, evs3) ∧
    group w3 = Some s1 ∧ reader w3 = Some s1 ∧ current_request (conn w3) = None ∧
    async_result (conn w3) = Some (mkAsync read_request_headers_tag None ResNone).
Proof.
  intros Ho1 Hc1 Ho2 Hc2 Hne Hg Hret Hfl Hcon Hcl Hp Hk Ha Hfin Hx Hu Hh Hfind.
  pose proof Ho1 as (Hv1 & Hopen1).
  destruct (selector_hands_over w s1 v1 web1 sel s2 v2 web2 a request u h)
    as (w1 & evs1 & Hread & Hin & Hg1 & Hret1 & Hfl1 & Hconn1 & Hs2 & Hs1); try done.
  assert (web_of (set_recursed false v2) = Some web2) as Hw2 by (unfold web_of; cbn; by rewrite Hc2).
  assert (current_request (conn w1) = Some request ∧ answers (conn w1) = []) as [Hq1 Ha1] by (rewrite Hconn1; done).
  destruct (service_answers w1 s2 _ web2 request content Hs2 Hw2 Hq1 Hx Ha1) as (c2 & Hresp & Hp2 & Hcl2 & Hcon2 & Hk2).
  rewrite Hconn1 in Hp2, Hcl2, Hcon2, Hk2. cbn [pending closed connected keepalive with_request] in *.
  set (w2 := with_flushes _ (with_conn c2 w1)) in *.
  destruct (flush_returns w2 s1 v1 web1 s2 (set_recursed false v2) web2) as (w3 & evs3 & Hflush & ? & ? & ? & ?);
    [split; [cbn; by rewrite Hs1|done]|unfold web_of; by rewrite Hc1|done|done|done|cbn; by rewrite Hfl1, Hfl
    |done|done|cbn; congruence..|].
  exists w1, evs1, w2, w3, evs3. by split_and!.
Qed.

End Lend.

(** Credentials that decode to nothing: the user's name is printed and freed although nothing was
    stored for it. *)
Lemma log_entry_uninitialised `{Soup} addr date request h auth st size :
  headers request = Some h → soup_message_headers_get_one h (codes "Authorization") = Some auth →
  (7 <= length auth)%nat → g_base64_decode (drop 6 auth) = [] →
  evd_web_service_build_log_entry (Some addr) date request st size = None.
Proof.
  intros Hh Ha Hl Hd. unfold evd_web_service_build_log_entry, evd_http_request_get_basic_auth_credentials,
    evd_http_message_get_headers. rewrite Hh, Ha. destruct (Nat.ltb_spec (length auth) 7); [lia|]. by rewrite Hd.
Qed.

(** ** Witnesses *)

#[export] Instance demo_regex : Regex := {|
  GRegex := list Z;
  g_regex_new p := Some p;
  g_regex_match p s := starts_with s p
|}.

Definition demo_request (origin : list (list Z * list Z)) : EvdHttpRequest :=
  mkRequest 1 (Some (mkTable ((codes "Host", codes "example.com") :: origin) SOUP_ENCODING_EOF 0)) (codes "GET")
    (soup_uri_new (codes "/app/x")).

Definition demo_conn (r : EvdHttpRequest) : EvdHttpConnection :=
  with_keepalive true (with_request (Some r)
    (evd_http_connection_init false (BufferedInput.evd_buffered_input_stream_init 4096) [])).

Definition demo_selector : EvdWebSelectorPrivate :=
  (evd_web_selector_add_service evd_web_selector_init None (Some (codes "/app")) "app").1.

Definition demo_services : gmap string EvdService :=
  {[ "selector" := mkService (WebSelectorClass evd_web_service_init demo_selector) false [] [] false;
     "app" := mkService (WebServiceClass evd_web_service_init) false [] [] false ]}.

Definition demo_world (r : EvdHttpRequest) : world :=
  mkWorld demo_services (demo_conn r) (Some "selector") None false (Some "selector") None [].

Definition demo_read (r : EvdHttpRequest) : async := mkAsync read_request_headers_tag None (ResRequest r).

Lemma demo_sound : sound (demo_world (demo_request [])).
Proof.
  split; [|intros r [= <-]; vm_compute; by eexists|done]. intros s v. cbn [services demo_world].
  unfold demo_services. rewrite lookup_insert_Some. intros [[<- <-]|[_ [<- <-]%lookup_singleton_Some]]; [|done].
  split; [|done]. repeat constructor. eexists. split; [done|]. set_solver.
Qed.

Lemma adding_terminates_witness :
  ∃ result, ∀ fuel, (free_services demo_services < fuel)%nat →
    evd_io_stream_group_add fuel (demo_world (demo_request [])) "app" = Some result.
Proof. apply (adding_terminates (demo_world (demo_request [])) "app" demo_sound). apply elem_of_dom. by eexists. Defined.

Definition evil_request : EvdHttpRequest := demo_request [(codes "Origin", codes "http://evil.org")].

Definition evil_uri : SoupURI := default (mkUri [] [] 0 [] None) (uri evil_request).

Lemma cross_origin_gate_witness :
  let web := evd_web_service_init in
  ((∀ o, foreign evil_request evil_uri o →
      evd_web_service_origin_allowed web o = true ∧ evd_http_request_is_cors_preflight evil_request = false) →
   evd_web_service_conn_on_headers_read (demo_world evil_request) "app" (demo_read evil_request) =
   evd_web_service_invoke_request_handler add_connection (with_reader None (demo_world evil_request)) "app" evil_request) ∧
  ∀ o, foreign evil_request evil_uri o →
    (evd_web_service_origin_allowed web o = false →
     answers_itself (demo_world evil_request) "app" (demo_read evil_request) evil_request 403) ∧
    (evd_web_service_origin_allowed web o = true → evd_http_request_is_cors_preflight evil_request = true →
     answers_itself (demo_world evil_request) "app" (demo_read evil_request) evil_request 200).
Proof.
  refine (cross_origin_gate (demo_world evil_request) "app"
            (mkService (WebServiceClass evd_web_service_init) false [] [] false) evd_web_service_init
            (demo_read evil_request) evil_request evil_uri _ _ _ _ _ _); vm_compute; reflexivity.
Defined.

(** The origin of this request is foreign, and it is refused. *)
Example evil_request_refused : answers_itself (demo_world evil_request) "app" (demo_read evil_request) evil_request 403.
Proof. vm_compute. by eexists _, _. Qed.

Lemma lent_connection_comes_back_witness :
  let r := demo_request [] in
  ∃ w1 evs1 w2 w3 evs3,
    evd_web_service_conn_on_headers_read (demo_world r) "selector" (demo_read r) = Some (w1, evs1) ∧
    RequestHandler "app" r ∈ evs1 ∧ group w1 = Some "app" ∧
    evd_web_service_respond w1 "app" 200 None (Some (codes "hi")) 2 = Some (w2, true) ∧
    evd_web_service_connection_on_flush w2 = Some (w3, evs3) ∧
    group w3 = Some "selector" ∧ reader w3 = Some "selector" ∧ current_request (conn w3) = None ∧
    async_result (conn w3) = Some (mkAsync read_request_headers_tag None ResNone).
Proof.
  refine (lent_connection_comes_back (demo_world (demo_request [])) "selector" _ evd_web_service_init demo_selector
            "app" _ evd_web_service_init (demo_read (demo_request [])) (demo_request [])
            (mkUri (codes "http") (codes "example.com") 80 (codes "/app/x") None)
            (mkTable [(codes "Host", codes "example.com")] SOUP_ENCODING_EOF 0) (codes "hi")
            _ _ _ _ _ _ _ _ _ _ _ _ _ _ _ _ _ _).
  - split; [vm_compute; reflexivity|by split_and!].
  - reflexivity.
  - split; [vm_compute; reflexivity|by split_and!].
  - reflexivity.
  - discriminate.
  - reflexivity.
  - reflexivity.
  - reflexivity.
  - reflexivity.
  - reflexivity.
  - reflexivity.
  - reflexivity.
  - reflexivity.
  - reflexivity.
  - vm_compute. reflexivity.
  - vm_compute. reflexivity.
  - reflexivity.
  - vm_compute. reflexivity.
Defined.

(** A preflight for an allowed origin is answered without the handlers. *)
Example preflight_answered :
  (λ '(w, ok), (flushes w, ok)) <$>
    evd_web_service_validate_request (evd_web_service_allow_origin evd_web_service_init (codes "http://ok.org"))
      (demo_world evil_request)
      (mkRequest 1 (Some (mkTable [(codes "Origin", codes "http://ok.org");
                                   (codes "Access-Control-Request-Method", codes "POST")] SOUP_ENCODING_EOF 0))
         (codes "OPTIONS") (soup_uri_new (codes "/"))) = Some ([FlushReturn], false).
Proof. vm_compute. reflexivity. Qed.

End WebServiceSpec.
