(* ===== verification/Longpolling.v ===== *)
(** * Long polling (src/evd/evd-longpolling-server.c): model

    A peer polls with requests that are kept until there is something to send, and posts its own
    messages.  The model has the coding of frames, the queue of waiting connections of each peer, the
    requests and the deliveries, over the connections of HttpConnection.v, the peers of Peer.v and the
    responses of WebService.v.  [None] stands for an access out of bounds. *)
From S2P Require Import Prelude ChunkedDecoder HttpMessage BufferedInput HttpConnection Peer WebService.
Import HttpMessage HttpConnection.

Module Longpolling.

(** ** [sscanf] with [%04x] and [%16x] *)

Definition is_space (c : Z) : bool := ((9 <=? c) && (c <=? 13)) || (c =? 32).

Fixpoint skip_space (s : list Z) : list Z :=
  match s with c :: s' => if is_space c then skip_space s' else s | [] => [] end.

(** Up to [w] digits. *)
Fixpoint scan_digits (w : nat) (acc : Z) (s : list Z) : Z :=
  match w, s with
  | S w, c :: s =>
      match ChunkedDecoder.hex_digit c with Some d => scan_digits w (16 * acc + d) s | None => acc end
  | _, _ => acc
  end.

(** The value after the white space, a sign and 0x, all but the space within the width. *)
Definition scan_number (w : nat) (s : list Z) : option Z :=
  match s with
  | 48 :: x :: s' =>
      if ((x =? 120) || (x =? 88)) && (2 <=? w)%nat then Some (scan_digits (w - 2) 0 s')
      else if (1 <=? w)%nat then Some (scan_digits w 0 s) else None
  | c :: _ =>
      if bool_decide (is_Some (ChunkedDecoder.hex_digit c)) && (1 <=? w)%nat then Some (scan_digits w 0 s) else None
  | [] => None
  end.

Definition scan_x (width : nat) (s : list Z) : option Z :=
  match skip_space (ChunkedDecoder.c_string s) with
  | 45 :: s => Z.opp <$> scan_number (width - 1) s
  | 43 :: s => scan_number (width - 1) s
  | s => scan_number width s
  end.

(** The 32 bits stored into the lower half of a 64-bit [old]. *)
Definition store_x (v : option Z) (old : Z) : Z :=
  match v with Some v => old / 4294967296 * 4294967296 + u32 v | None => old end.

(** ** Frames *)

(** The length of the header, that of the message ([old_len] when none is stored) and whether more
    fragments follow.  The test of the signed [hdr & MORE_BIT] against 0 never holds. *)
Definition evd_longpolling_server_read_msg_header (buf : list Z) (old_len : Z) : Z * Z * bool :=
  let hdr := s8 (default 0 (head buf)) in
  let more_fragments := 0 <? Z.land hdr (-128) in
  let hdr := s8 (Z.land hdr 127) in
  if hdr <=? 125 then (1, hdr, more_fragments)
  else if hdr =? 126 then (5, store_x (scan_x 4 (drop 1 buf)) old_len, more_fragments)
  else (17, store_x (scan_x 16 (drop 1 buf)) old_len, more_fragments).

(** [%04x] and [%16x]: padded on the left. *)
Definition pad_left (n : nat) (c : Z) (s : list Z) : list Z := replicate (n - length s) c ++ s.

Definition frame_header (size : Z) : list Z :=
  if size <=? 125 then [u8 size]
  else if size <=? 65535 then 126 :: take 4 (pad_left 4 48 (print_x (u32 size)))
  else 127 :: take 16 (pad_left 16 32 (print_x (u32 size))).

(** The messages given to [receive]; [i] is a [gint].  [None]: the frame runs past the content. *)
Fixpoint receive_loop (fuel : nat) (content : list Z) (i msg_len : Z) : option (list (list Z)) :=
  if i <? len content then
    match fuel with
    | O => None
    | S fuel =>
        let '(hdr_len, msg_len, _) :=
          evd_longpolling_server_read_msg_header (drop (Z.to_nat i) content) msg_len in
        if i + hdr_len + msg_len <=? len content then
          ms ← receive_loop fuel content (i + msg_len + hdr_len) msg_len;
          Some (take (Z.to_nat msg_len) (drop (Z.to_nat (i + hdr_len)) content) :: ms)
        else None
    end
  else Some [].

(** A turn moves on by one byte at least. *)
Definition receive_all (content : list Z) : option (list (list Z)) := receive_loop (length content) content 0 0.

Section Longpolling.
Context `{Soup} `{WebService.Regex}.

(** ** State *)

Record server := mkServer {
  web : WebService.EvdWebServicePrivate;
  current_peer_id : option string;
  peers : Peer.world;
  peer_conns : gmap string (list nat);           (* PEER_DATA_KEY: the queue of waiting connections *)
  conns : gmap nat EvdHttpConnection;
  get_peer : gmap nat string;                    (* CONN_PEER_KEY_GET *)
  post_peer : gmap nat string;                   (* CONN_PEER_KEY_POST *)
  flushing : list nat                            (* flush_and_return_connection, in order *)
}.

Inductive effect :=
  | Receive (peer : string) (msg : list Z)
  | ConnEvents (conn : nat) (evs : list HttpConnection.event)
  | PeerEvents (evs : list Peer.event).

Definition with_current p s := mkServer (web s) p (peers s) (peer_conns s) (conns s) (get_peer s) (post_peer s) (flushing s).
Definition with_peers p s := mkServer (web s) (current_peer_id s) p (peer_conns s) (conns s) (get_peer s) (post_peer s) (flushing s).
Definition with_peer_conns p s := mkServer (web s) (current_peer_id s) (peers s) p (conns s) (get_peer s) (post_peer s) (flushing s).
Definition with_conn k c s := mkServer (web s) (current_peer_id s) (peers s) (peer_conns s) (<[k := c]> (conns s)) (get_peer s) (post_peer s) (flushing s).
Definition with_get g s := mkServer (web s) (current_peer_id s) (peers s) (peer_conns s) (conns s) g (post_peer s) (flushing s).
Definition with_post p s := mkServer (web s) (current_peer_id s) (peers s) (peer_conns s) (conns s) (get_peer s) p (flushing s).
Definition flush_and_return k s := mkServer (web s) (current_peer_id s) (peers s) (peer_conns s) (conns s) (get_peer s) (post_peer s) (flushing s ++ [k]).

Definition peer_of (id : string) s : option Peer.EvdPeerPrivate := Peer.heap (peers s) !! id.
Definition with_peer id p s := with_peers (Peer.set_peer id p (peers s)) s.

(** ** Deliveries *)

Definition evd_longpolling_server_write_frame_delivery (c : EvdHttpConnection) (buf : list Z)
  : EvdHttpConnection * bool :=
  let '(c, _) := evd_http_connection_write_content c (frame_header (len buf)) true in
  let '(c, r) := evd_http_connection_write_content c buf true in
  (c, if r is inl _ then true else false).

(** The loop over the backlog: one turn per message, and one to give back. *)
Fixpoint send_backlog (fuel : nat) (c : EvdHttpConnection) (p : Peer.EvdPeerPrivate)
  : option (EvdHttpConnection * Peer.EvdPeerPrivate * bool) :=
  match Peer.evd_peer_pop_message p with
  | (p, None) => Some (c, p, true)
  | (p, Some (frame, t)) =>
      match fuel with
      | O => None
      | S fuel =>
          match evd_longpolling_server_write_frame_delivery c frame with
          | (c, true) => send_backlog fuel c p
          | (c, false) => Some (c, (Peer.evd_peer_unshift_message p frame t).1, false)
          end
      end
  end.

Definition delivery_headers (w : WebService.EvdWebServicePrivate) (c : EvdHttpConnection) : SoupMessageHeaders :=
  let h := soup_message_headers_replace soup_message_headers_new (codes "Content-type")
             (codes "text/plain; charset=utf-8") in
  let h := soup_message_headers_replace h (codes "Transfer-Encoding") (codes "chunked") in
  let h := soup_message_headers_replace h (codes "Connection")
             (if evd_http_connection_get_keepalive c then codes "keep-alive" else codes "close") in
  match evd_http_connection_get_current_request c with
  | None => h
  | Some request =>
      match evd_http_request_get_origin request with
      | Some origin =>
          if WebService.evd_web_service_origin_allowed w origin
          then soup_message_headers_replace h (codes "Access-Control-Allow-Origin") origin else h
      | None => h
      end
  end.

(** The connection, the peer, the result, and whether the connection is flushed and returned. *)
Definition evd_longpolling_server_actual_send (w : WebService.EvdWebServicePrivate) (c : EvdHttpConnection)
    (p : Peer.EvdPeerPrivate) (buffer : option (list Z)) : option (EvdHttpConnection * Peer.EvdPeerPrivate * bool * bool) :=
  match evd_http_connection_write_response_headers c 1 200 None (Some (delivery_headers w c)) with
  | (c, false) => Some (c, p, true, false)
  | (c, true) =>
      '(c, p, result) ← send_backlog (length (Peer.backlog p)) c p;
      let '(c, result) :=
        match result, buffer with
        | true, Some b => evd_longpolling_server_write_frame_delivery c b
        | _, _ => (c, result)
        end in
      let '(c, _) := evd_http_connection_write_content c [] false in
      Some (c, p, result, true)
  end.

(** On the connection [k] and the peer [id]. *)
Definition actual_send (s : server) (id : string) (k : nat) (buffer : option (list Z)) : option (server * bool) :=
  c ← conns s !! k;
  p ← peer_of id s;
  '(c, p, result, flush) ← evd_longpolling_server_actual_send (web s) c p buffer;
  let s := with_peer id p (with_conn k c s) in
  Some (if flush : bool then flush_and_return k s else s, result).

Definition evd_longpolling_server_peer_is_connected (s : server) (id : string) : bool :=
  if bool_decide (current_peer_id s = Some id) then true
  else match peer_conns s !! id with None | Some [] => false | Some _ => true end.

Definition evd_longpolling_server_select_conn_and_send (now : Z) (s : server) (id : string) (buffer : list Z)
  : option (server * bool) :=
  match peer_conns s !! id with
  | None | Some [] => Some (s, false)
  | Some (k :: ks) =>
      p ← peer_of id s;
      let s := with_peer id (Peer.evd_peer_touch now p) s in
      actual_send (with_peer_conns (<[id := ks]> (peer_conns s)) s) id k (Some buffer)
  end.

Definition evd_longpolling_server_send := evd_longpolling_server_select_conn_and_send.

(** ** Requests *)

(** The messages of the content that was read. *)
Definition posted_messages (content : option (list Z * Z)) : option (list (list Z)) :=
  match content with
  | Some (data, size) => if 0 <? size then receive_all (take (Z.to_nat size) data) else Some []
  | None => Some []
  end.

(** The callback of [evd_http_connection_read_all_content]. *)
Definition evd_longpolling_server_conn_on_content_read (s : server) (k : nat) (a : async)
  : option (server * list effect) :=
  id ← post_peer s !! k;
  c ← conns s !! k;
  let '(c, content) := evd_http_connection_read_all_content_finish c a in
  let s := with_conn k c s in
  ms ← posted_messages content;
  '(s, _) ← actual_send s id k None;
  Some (s, map (Receive id) ms).

(** The last token of the path; [None]: an empty path has none. *)
Definition evd_longpolling_server_resolve_action (request : EvdHttpRequest) : option (list Z) :=
  u ← uri request;
  last (g_strsplit (uri_path u) 47 (Some 32%nat)).

Definition respond (s : server) (k : nat) (status_code : Z) : option server :=
  c ← conns s !! k;
  '(w, ok) ← WebService.evd_web_service_respond_internal (web s)
               (WebService.mkWorld ∅ c None None false None None []) status_code None None 0;
  let s := with_conn k (WebService.conn w) s in
  Some (if ok : bool then flush_and_return k s else s).

(** [g_strdup] of the query, as the identifier of a peer. *)
Definition peer_id (query : list Z) : string := text query.

Definition lookup_peer (s : server) (id : string) : server * option string :=
  let '(w, r) := Peer.evd_peer_manager_lookup_peer (peers s) id in (with_peers w s, r).

Definition handle_receive (s : server) (k : nat) (id : string) : option (server * list effect) :=
  let s := match peer_conns s !! id with
           | None => with_peer_conns (<[id := []]> (peer_conns s)) s
           | Some _ => s
           end in
  p ← peer_of id s;
  ks ← peer_conns s !! id;
  if (0 <? Peer.evd_peer_backlog_get_length p)%nat then
    '(s, _) ← actual_send s id k None; Some (s, [])
  else
    Some (with_peer_conns (<[id := ks ++ [k]]> (peer_conns s)) (with_get (<[k := id]> (get_peer s)) s), []).

Definition handle_send (s : server) (k : nat) (id : string) : option (server * list effect) :=
  c ← conns s !! k;
  let '(c, evs) := evd_http_connection_read_all_content c in
  Some (with_conn k c (with_post (<[k := id]> (post_peer s)) s), [ConnEvents k evs]).

Definition evd_longpolling_server_peer_closed (s : server) (id : string) : server :=
  match peer_conns s !! id with
  | None => s
  | Some ks =>
      let s := fold_left (λ s k, flush_and_return k (with_get (delete k (get_peer s)) s)) ks s in
      with_peer_conns (delete id (peer_conns s)) s
  end.

(** The call of the transport's [peer_closed] method. *)
Definition iface_closed (id : string) (e : Peer.event) : bool :=
  match e with Peer.IfacePeerClosed id' _ => bool_decide (id' = id) | _ => false end.

Definition handle_close (s : server) (k : nat) (id : string) : option (server * list effect) :=
  s ← respond s k 200;
  '(w, evs) ← Peer.evd_transport_close_peer Peer.close_fuel (peers s) id true;
  let s := with_peers w s in
  let s := if existsb (iface_closed id) evs then evd_longpolling_server_peer_closed s id else s in
  Some (s, [PeerEvents evs]).

Definition evd_longpolling_server_request_handler (now : Z) (s : server) (k : nat) (request : EvdHttpRequest)
  : option (server * list effect) :=
  u ← uri request;
  let s := with_current (peer_id <$> uri_query u) s in
  let '(s, peer) := match uri_query u with
                    | None => (s, None)
                    | Some q => lookup_peer s (peer_id q)
                    end in
  match peer with
  | None => s ← respond s k 404; Some (s, [])
  | Some id =>
      p ← peer_of id s;
      let s := with_peer id (Peer.evd_peer_touch now p) s in
      action ← evd_longpolling_server_resolve_action request;
      '(s, effs) ←
        (if decide (action = codes "receive") then handle_receive s k id
         else if decide (action = codes "send") then handle_send s k id
         else if decide (action = codes "close") then handle_close s k id
         else Some (s, []));
      Some (with_current None s, effs)
  end.

(** [g_queue_remove]: the first one. *)
Fixpoint g_queue_remove (k : nat) (ks : list nat) : list nat :=
  match ks with
  | [] => []
  | k' :: ks => if decide (k' = k) then ks else k' :: g_queue_remove k ks
  end.

(** A connection is removed from the group; [removed] is the answer of the parent's method, FALSE for a
    stream that has no group any more, as when it closes. *)
Definition evd_longpolling_server_remove (now : Z) (removed : bool) (s : server) (k : nat) : option (server * bool) :=
  if negb removed then Some (s, false)
  else
    match get_peer s !! k with
    | None => Some (s, true)
    | Some id =>
        p ← peer_of id s;
        let s := with_peer id (Peer.evd_peer_touch now p) s in
        let s := with_get (delete k (get_peer s)) s in
        Some (match peer_conns s !! id with
              | Some ks => with_peer_conns (<[id := g_queue_remove k ks]> (peer_conns s)) s
              | None => s
              end, true)
    end.

End Longpolling.

End Longpolling.
