(* ===== verification/LongpollingSpec.v ===== *)
(** * Long polling: theorems

    The coding of frames; a delivery carries the backlog and then the message, in order, and what could
    not be written stays in the backlog; the queues of waiting connections. *)
From S2P Require Import Prelude ChunkedDecoder ChunkedDecoderSpec HttpMessage BufferedInput HttpConnection HttpConnectionSpec HttpConnectionLife Peer WebService WebServiceSpec Longpolling.
Import HttpMessage HttpConnection Longpolling.
#[local] Existing Instance WebServiceSpec.demo_regex.

Module LongpollingSpec.

Create HintDb longpolling.

(** ** Numbers *)

Lemma s8_id z : -128 <= z < 128 → s8 z = z.
Proof. intros. unfold s8. rewrite Z.mod_small by lia. lia. Qed.

Lemma s8_range z : -128 <= s8 z < 128.
Proof. unfold s8. pose proof (Z.mod_pos_bound (z + 128) 256). lia. Qed.

Lemma land_more_bit h : -128 <= h < 128 → Z.land h (-128) <= 0.
Proof.
  intros Hh. change (-128) with (Z.lnot (Z.ones 7)). rewrite <-Z.ldiff_land, Z.ldiff_ones_r by lia.
  rewrite Z.shiftl_mul_pow2, Z.shiftr_div_pow2 by lia.
  assert (h / 2 ^ 7 < 1) by (apply Z.div_lt_upper_bound; lia). lia.
Qed.

(** The bit that announces more fragments is never seen. *)
Lemma more_fragments_never buf old : (evd_longpolling_server_read_msg_header buf old).2 = false.
Proof.
  unfold evd_longpolling_server_read_msg_header. pose proof (s8_range (default 0 (head buf))) as Hr.
  pose proof (land_more_bit _ Hr). repeat case_match; simpl; by apply Z.ltb_ge.
Qed.

Lemma scan_digits_hex h r : ∀ w acc,
  Forall ChunkedDecoderSpec.is_hex h → (length h <= w)%nat →
  (length h = w ∨ ∀ c, head r = Some c → ChunkedDecoder.hex_digit c = None) →
  scan_digits w acc (h ++ r) = ChunkedDecoder.hex_value acc h.
Proof.
  induction h as [|c h IH]; intros w acc Hh Hl Hend; simpl.
  - destruct w as [|w]; [done|]. destruct r as [|c r]; [done|]. simpl. destruct Hend as [?|Hend]; [done|].
    by rewrite (Hend c eq_refl).
  - apply Forall_cons_1 in Hh as [[d Hd] Hh]. simpl in Hl. destruct w as [|w]; [lia|]. simpl. rewrite Hd.
    apply IH; [done|lia|]. destruct Hend as [?|?]; [left; simpl in *; lia|by right].
Qed.

Lemma hex_not_special c :
  ChunkedDecoderSpec.is_hex c → is_space c = false ∧ c ≠ 45 ∧ c ≠ 43 ∧ c ≠ 120 ∧ c ≠ 88 ∧ c ≠ 0.
Proof.
  intros [d Hd]. unfold ChunkedDecoder.hex_digit in Hd. unfold is_space.
  destruct ((48 <=? c) && (c <=? 57)) eqn:E1; [apply andb_prop in E1 as [?%Z.leb_le ?%Z.leb_le]; split_and!; lia|].
  destruct ((97 <=? c) && (c <=? 102)) eqn:E2; [apply andb_prop in E2 as [?%Z.leb_le ?%Z.leb_le]; split_and!; lia|].
  destruct ((65 <=? c) && (c <=? 70)) eqn:E3; [apply andb_prop in E3 as [?%Z.leb_le ?%Z.leb_le]; split_and!; lia|done].
Qed.

Lemma c_string_hex h r :
  Forall ChunkedDecoderSpec.is_hex h → ChunkedDecoder.c_string (h ++ r) = h ++ ChunkedDecoder.c_string r.
Proof.
  induction 1 as [|c h Hc _ IH]; [done|]. simpl. destruct (hex_not_special c Hc) as (_ & _ & _ & _ & _ & H0).
  destruct (Z.eqb_spec c 0); [done|]. by rewrite IH.
Qed.

Lemma head_c_string r c : head (ChunkedDecoder.c_string r) = Some c → head r = Some c.
Proof. destruct r as [|d r]; [done|]. simpl. by destruct (d =? 0). Qed.

(** Two digits at least, after spaces: what is scanned is the digits, up to the width or to a
    character that is not one. *)
Lemma scan_x_hex w k h r :
  Forall ChunkedDecoderSpec.is_hex h → (2 <= length h <= w)%nat →
  (length h = w ∨ ∀ c, head r = Some c → ChunkedDecoder.hex_digit c = None) →
  scan_x w (replicate k 32 ++ h ++ r) = Some (ChunkedDecoder.hex_value 0 h).
Proof.
  intros Hh Hl Hend. unfold scan_x.
  assert (skip_space (ChunkedDecoder.c_string (replicate k 32 ++ h ++ r)) = h ++ ChunkedDecoder.c_string r) as ->.
  { induction k as [|k IH]; [|exact IH]. simpl. rewrite c_string_hex by done.
    destruct h as [|c h]; [simpl in Hl; lia|]. apply Forall_cons_1 in Hh as [Hc _]. simpl.
    by destruct (hex_not_special c Hc) as (-> & _). }
  destruct h as [|c [|e h]]; [simpl in Hl; lia..|]. pose proof Hh as Hh'.
  apply Forall_cons_1 in Hh' as [Hc Hh']. apply Forall_cons_1 in Hh' as [He _].
  destruct (hex_not_special c Hc) as (_ & Hc1 & Hc2 & _). destruct (hex_not_special e He) as (_ & _ & _ & He1 & He2 & _).
  assert (scan_number w ((c :: e :: h) ++ ChunkedDecoder.c_string r) =
          Some (scan_digits w 0 ((c :: e :: h) ++ ChunkedDecoder.c_string r))) as Hnum.
  { cbn [app]. unfold scan_number. destruct (Nat.leb_spec 1 w); [|simpl in Hl; lia].
    rewrite bool_decide_eq_true_2 by done. cbn [andb].
    destruct (Z.eqb_spec e 120); [done|]. destruct (Z.eqb_spec e 88); [done|]. cbn [orb andb]. by repeat case_match. }
  rewrite <-(scan_digits_hex (c :: e :: h) (ChunkedDecoder.c_string r) w 0 Hh);
    [|lia|destruct Hend as [?|Hend]; [by left|right; intros x Hx; by apply Hend, head_c_string]].
  rewrite <-Hnum. cbn [app]. by repeat case_match.
Qed.

Lemma print_x_from_length fuel : ∀ z acc k,
  0 <= z < 16 ^ Z.of_nat k → (1 <= k)%nat → (length (print_x_from fuel z acc) <= k + length acc)%nat.
Proof.
  induction fuel as [|fuel IH]; intros z acc k Hz Hk; cbn [print_x_from].
  - simpl. lia.
  - destruct (Z.eqb_spec (z / 16) 0) as [|Hne]; [simpl; lia|].
    destruct k as [|[|k]]; [lia|change (16 ^ Z.of_nat 1) with 16 in Hz; by rewrite Z.div_small in Hne|].
    etrans; [apply (IH _ _ (S k))|simpl; lia]; [|lia].
    rewrite (Nat2Z.inj_succ (S k)), Z.pow_succ_r in Hz by lia.
    split; [apply Z.div_pos; lia|apply Z.div_lt_upper_bound; lia].
Qed.

Lemma print_x_facts n : 0 <= n < 4294967296 →
  Forall ChunkedDecoderSpec.is_hex (print_x n) ∧ ChunkedDecoder.hex_value 0 (print_x n) = n ∧
  (length (print_x n) <= 8)%nat.
Proof.
  intros Hn. destruct (HttpConnectionSpec.print_x_header n Hn) as (_ & _ & Hh & Hv & _). split_and!; [done|done|].
  pose proof (print_x_from_length 7 n [] 8 Hn ltac:(lia)) as Hl. rewrite Nat.add_0_r in Hl. exact Hl.
Qed.

Lemma hex_value_bound h : ∀ acc, Forall ChunkedDecoderSpec.is_hex h → 0 <= acc →
  ChunkedDecoder.hex_value acc h < (acc + 1) * 16 ^ Z.of_nat (length h).
Proof.
  induction h as [|c h IH]; intros acc Hh Ha; cbn [ChunkedDecoder.hex_value length]; [lia|]. apply Forall_cons_1 in Hh as [[d Hd] Hh]. rewrite Hd.
  destruct (ChunkedDecoderSpec.hex_digit_nonneg c d Hd). pose proof (IH (16 * acc + d) Hh ltac:(lia)) as Hb.
  rewrite Nat2Z.inj_succ, Z.pow_succ_r by lia.
  assert (0 < 16 ^ Z.of_nat (length h)) by (apply Z.pow_pos_nonneg; lia). nia.
Qed.

Lemma hex_zero : ChunkedDecoderSpec.is_hex 48.
Proof. by exists 0. Qed.

Lemma hex_value_zeros k h : ChunkedDecoder.hex_value 0 (replicate k 48 ++ h) = ChunkedDecoder.hex_value 0 h.
Proof. induction k as [|k IH]; [done|]. exact IH. Qed.

(** ** Frames *)

(** A message whose header is read back: one of more than 65535 bytes must not start with a
    hexadecimal digit, which the scanner would take for a digit of the length. *)
Definition frame_ok (m : list Z) : Prop :=
  len m <= 65535 ∨ len m < 4294967296 ∧ ∀ c, head m = Some c → ChunkedDecoder.hex_digit c = None.

Definition frame (m : list Z) : list Z := frame_header (len m) ++ m.

Lemma header_byte h rest old : 126 <= h <= 127 →
  evd_longpolling_server_read_msg_header (h :: rest) old =
  if h =? 126 then (5, store_x (scan_x 4 rest) old, false) else (17, store_x (scan_x 16 rest) old, false).
Proof.
  intros Hh. assert (h = 126 ∨ h = 127) as [->| ->] by lia; reflexivity.
Qed.

Lemma header_byte_short n rest old : 0 <= n <= 125 →
  evd_longpolling_server_read_msg_header (n :: rest) old = (1, n, false).
Proof.
  intros Hn. unfold evd_longpolling_server_read_msg_header. change (default 0 (head (n :: rest))) with n.
  rewrite (s8_id n) by lia. change 127 with (Z.ones 7). rewrite Z.land_ones, Z.mod_small, (s8_id n) by lia.
  pose proof (land_more_bit n ltac:(lia)). destruct (Z.ltb_spec 0 (Z.land n (-128))); [lia|].
  by destruct (Z.leb_spec n 125); [|lia].
Qed.

Lemma store_x_small v old : 0 <= old < 4294967296 → 0 <= v < 4294967296 → store_x (Some v) old = v.
Proof. intros Ho Hv. unfold store_x, u32. by rewrite (Z.div_small old), Z.mod_small. Qed.

(** What the reader finds at the start of a frame. *)
Lemma read_frame_header m rest old :
  frame_ok m → 0 <= old < 4294967296 →
  evd_longpolling_server_read_msg_header (frame m ++ rest) old = (len (frame_header (len m)), len m, false).
Proof.
  intros Hok Hold. assert (0 <= len m) by (unfold len; lia). unfold frame. rewrite <-app_assoc. unfold frame_header.
  destruct (Z.leb_spec (len m) 125) as [H1|H1].
  { unfold u8. rewrite Z.mod_small by lia. cbn [app]. by rewrite header_byte_short by lia. }
  assert (0 <= len m < 4294967296) as Hm by (destruct Hok; lia).
  assert (u32 (len m) = len m) as -> by (unfold u32; by rewrite Z.mod_small).
  destruct (print_x_facts (len m) Hm) as (Hh & Hv & Hl).
  destruct (Z.leb_spec (len m) 65535) as [H2|H2].
  - assert (length (print_x (len m)) <= 4)%nat as Hl4.
    { pose proof (print_x_from_length 7 (len m) [] 4 ltac:(lia) ltac:(lia)) as Hl4. rewrite Nat.add_0_r in Hl4. exact Hl4. }
    unfold pad_left. set (h := replicate _ 48 ++ print_x (len m)).
    assert (length h = 4%nat) as Hlen by (subst h; rewrite length_app, length_replicate; lia).
    assert (Forall ChunkedDecoderSpec.is_hex h) as Hhex
      by (apply Forall_app; split; [apply Forall_replicate, hex_zero|done]).
    rewrite (take_ge h) by lia. cbn [app]. rewrite header_byte by lia. change (126 =? 126) with true. cbv iota.
    pose proof (scan_x_hex 4 0 h (m ++ rest) Hhex ltac:(lia) (or_introl Hlen)) as Hscan. cbn [replicate app] in Hscan.
    assert (ChunkedDecoder.hex_value 0 h = len m) as Hval by (subst h; by rewrite hex_value_zeros).
    rewrite Hscan, Hval, store_x_small by done. unfold len at 2. cbn [length]. by rewrite Hlen.
  - destruct Hok as [?|[_ Hhead]]; [lia|]. unfold pad_left. set (k := (16 - _)%nat).
    rewrite (take_ge (replicate k 32 ++ _)) by (rewrite length_app, length_replicate; lia).
    cbn [app]. rewrite header_byte by lia. change (127 =? 126) with false. cbv iota.
    rewrite <-!app_assoc. assert (2 <= length (print_x (len m)))%nat as H2l.
    { pose proof (hex_value_bound (print_x (len m)) 0 Hh ltac:(lia)) as Hb. rewrite Hv in Hb.
      destruct (print_x (len m)) as [|? [|? ?]]; simpl in *; lia. }
    rewrite (scan_x_hex 16 k (print_x (len m)) (m ++ rest)); [|done|lia|].
    + rewrite Hv, store_x_small by done. unfold len at 2. cbn [length]. rewrite length_app, length_replicate. do 2 f_equal. subst k. lia.
    + right. intros c Hc. apply Hhead. destruct m; [unfold len in H2; simpl in H2; lia|done].
Qed.

Lemma frame_header_length n : 0 <= n → 1 <= len (frame_header n).
Proof. intros. unfold frame_header, len. repeat case_match; cbn [length]; lia. Qed.

Lemma frame_ok_length m : frame_ok m → 0 <= len m < 4294967296.
Proof. unfold len. intros [?|[? _]]; unfold len in *; lia. Qed.

Lemma receive_frames ms : ∀ fuel pre old, Forall frame_ok ms → 0 <= old < 4294967296 →
  (length (concat (frame <$> ms)) <= fuel)%nat →
  receive_loop fuel (pre ++ concat (frame <$> ms)) (len pre) old = Some ms.
Proof.
  induction ms as [|m ms IH]; intros fuel pre old Hms Hold Hf.
  - cbn [fmap list_fmap concat]. rewrite app_nil_r. destruct fuel; cbn [receive_loop]; by rewrite Z.ltb_irrefl.
  - apply Forall_cons_1 in Hms as [Hm Hms]. pose proof (frame_ok_length m Hm) as Hl.
    pose proof (frame_header_length (len m) ltac:(lia)) as Hh.
    cbn [fmap list_fmap concat] in *. fold (fmap (M := list) frame) in *.
    assert (length (frame m) = length (frame_header (len m)) + length m)%nat as Hfl by (unfold frame; by rewrite length_app).
    pose proof (λ rest, read_frame_header m rest old Hm Hold) as Hread. rewrite length_app in Hf.
    assert (frame m = frame_header (len m) ++ m) as Hfm by done. set (h := frame_header (len m)) in *.
    unfold len in Hh. destruct fuel as [|fuel]; [lia|]. cbn [receive_loop].
    destruct (Z.ltb_spec (len pre) (len (pre ++ frame m ++ concat (frame <$> ms)))) as [_|Hlt];
      [|unfold len in Hlt; rewrite !length_app in Hlt; lia].
    unfold len at 1. rewrite Nat2Z.id, drop_app_length, Hread.
    destruct (Z.leb_spec (len pre + len h + len m) (len (pre ++ frame m ++ concat (frame <$> ms))))
      as [_|Hlt]; [|unfold len in Hlt; rewrite !length_app in Hlt; lia].
    assert (len pre + len m + len h = len (pre ++ frame m)) as ->
      by (unfold len; rewrite length_app, Hfl; lia).
    rewrite app_assoc. rewrite IH by (done || lia). cbn [mbind option_bind]. do 2 f_equal.
    rewrite Hfm, (app_assoc pre), <-(app_assoc (pre ++ h)).
    rewrite (drop_app_length' (pre ++ h)) by (unfold len; rewrite length_app; lia).
    by rewrite take_app_length' by (unfold len; lia).
Qed.

(** ** Deliveries *)

Section Deliveries.
Context `{SoupLaws} `{WebService.Regex}.

Definition chunks_of (pieces : list (list Z)) : list Z :=
  concat (ChunkedDecoderSpec.encode_chunk <$> HttpConnectionSpec.to_chunks pieces).

Lemma chunks_of_app a b : chunks_of (a ++ b) = chunks_of a ++ chunks_of b.
Proof. unfold chunks_of, HttpConnectionSpec.to_chunks. by rewrite filter_app, !fmap_app, concat_app. Qed.

(** The stream takes everything, and the body is sent in chunks. *)
Definition chunking (c : EvdHttpConnection) : Prop := answers c = [] ∧ encoding c = SOUP_ENCODING_CHUNKED.

Lemma write_piece c p :
  chunking c → len p < 4294967296 →
  ∃ c', evd_http_connection_write_content c p true = (c', inl ()) ∧ chunking c' ∧ out c' = out c ++ chunks_of [p].
Proof.
  intros [Ha He] Hp. unfold evd_http_connection_write_content. rewrite He. destruct (decide _); [|done].
  destruct p as [|x p].
  { change (len [] =? 0) with true. cbv iota. exists c. split_and!; [done|done|]. symmetry. apply app_nil_r. }
  destruct (Z.eqb_spec (len (x :: p)) 0) as [E|_]; [unfold len in E; simpl in E; lia|].
  rewrite HttpConnectionSpec.write_chunk_all by done. eexists. split; [reflexivity|]. split; [done|].
  assert (u32 (len (x :: p)) = len (x :: p)) as -> by (unfold u32; apply Z.mod_small; unfold len in *; lia).
  unfold chunks_of, HttpConnectionSpec.to_chunks. rewrite filter_cons_True by done.
  cbn [filter list_filter fmap list_fmap concat out with_encoding with_body with_output]. by rewrite app_nil_r.
Qed.

Definition frame_pieces (m : list Z) : list (list Z) := [frame_header (len m); m].

Lemma frame_pieces_concat ms : concat (concat (frame_pieces <$> ms)) = concat (frame <$> ms).
Proof.
  induction ms as [|m ms IH]; [done|]. cbn [fmap list_fmap concat frame_pieces app].
  fold (fmap (M := list) frame) (fmap (M := list) frame_pieces). rewrite IH. unfold frame. by rewrite <-app_assoc.
Qed.

Lemma write_frame c m :
  chunking c → len m < 4294967296 →
  ∃ c', evd_longpolling_server_write_frame_delivery c m = (c', true) ∧ chunking c' ∧
    out c' = out c ++ chunks_of (frame_pieces m).
Proof.
  intros Hc Hm. unfold evd_longpolling_server_write_frame_delivery.
  destruct (write_piece c (frame_header (len m)) Hc) as (c1 & -> & Hc1 & Ho1).
  { unfold frame_header, len. repeat case_match; cbn [length]; rewrite ?length_take; lia. }
  destruct (write_piece c1 m Hc1 Hm) as (c2 & -> & Hc2 & Ho2). exists c2. split_and!; [done|done|].
  change (frame_pieces m) with ([frame_header (len m)] ++ [m]). by rewrite Ho2, Ho1, chunks_of_app, app_assoc.
Qed.

Definition backlog_messages (p : Peer.EvdPeerPrivate) : list (list Z) := Peer.frame_buf <$> Peer.backlog p.

Lemma send_backlog_all fs : ∀ c p,
  Peer.backlog p = fs → chunking c → Forall (λ m, len m < 4294967296) (Peer.frame_buf <$> fs) →
  ∃ c', send_backlog (length fs) c p = Some (c', Peer.set_backlog [] p, true) ∧ chunking c' ∧
    out c' = out c ++ chunks_of (concat (frame_pieces <$> (Peer.frame_buf <$> fs))).
Proof.
  induction fs as [|f fs IH]; intros c p Hb Hc Hs.
  - exists c. cbn [length send_backlog]. unfold Peer.evd_peer_pop_message. rewrite Hb. split_and!; [|done|].
    + destruct p; simpl in *; by subst.
    + symmetry. apply app_nil_r.
  - cbn [length send_backlog]. unfold Peer.evd_peer_pop_message. rewrite Hb.
    apply Forall_cons_1 in Hs as [Hf Hs]. destruct (write_frame c _ Hc Hf) as (c1 & -> & Hc1 & Ho1).
    destruct (IH c1 (Peer.set_backlog fs p) eq_refl Hc1 Hs) as (c2 & E & Hc2 & Ho2). exists c2.
    split_and!; [by rewrite E|done|]. rewrite Ho2, Ho1. cbn [fmap list_fmap concat].
    by rewrite chunks_of_app, app_assoc.
Qed.

Lemma delivery_chunked w c : soup_message_headers_get_encoding (delivery_headers w c) = SOUP_ENCODING_CHUNKED.
Proof.
  unfold delivery_headers.
  repeat case_match; rewrite ?other_encoding by (by left + by right); apply chunked_encoding.
Qed.

Definition status_line : list Z :=
  codes "HTTP/1." ++ print_d 1 ++ codes " " ++ print_d 200 ++ codes " " ++ soup_status_get_phrase 200 ++ CRLF.

Lemma delivery_headers_written w c :
  answers c = [] →
  ∃ c', evd_http_connection_write_response_headers c 1 200 None (Some (delivery_headers w c)) = (c', true) ∧
    chunking c' ∧ out c' = out c ++ status_line ++ print_headers (delivery_headers w c) ++ CRLF.
Proof.
  intros Ha. unfold evd_http_connection_write_response_headers. rewrite delivery_chunked.
  destruct (HttpConnectionLife.write_all_out (with_encoding SOUP_ENCODING_CHUNKED c)
    ((status_line ++ print_headers (delivery_headers w c)) ++ CRLF) Ha) as (c1 & E & Ho & Ha1 & He1 & _).
  exists c1. unfold status_line in E. cbn [default option_map from_option id] in *. rewrite E.
  split_and!; [by rewrite bool_decide_eq_true_2 by eauto|split; [done|by rewrite He1]|].
  rewrite Ho. cbn [out with_encoding with_body]. by rewrite <-!app_assoc.
Qed.

Lemma delivery_end c :
  chunking c →
  out (evd_http_connection_write_content c [] false).1 = out c ++ [48] ++ CRLF ++ CRLF.
Proof.
  intros [Ha He]. unfold evd_http_connection_write_content. rewrite He. destruct (decide _); [|done].
  change (len [] =? 0) with true. cbv iota. by rewrite HttpConnectionSpec.write_chunk_all.
Qed.

(** What a delivery carries: the backlog, then the message. *)
Definition delivered (p : Peer.EvdPeerPrivate) (buffer : option (list Z)) : list (list Z) :=
  (Peer.frame_buf <$> Peer.backlog p) ++ option_list buffer.

(** A delivery on a stream that takes everything: it succeeds, the backlog is left empty, the
    connection is flushed and given back, and the stream has received the status line, the headers
    and a chunked body whose data are the frames of the backlog, in order, and then that of the
    message; a receiver of these frames gets exactly those messages back. *)
Example delivery_carries_all w c p buffer :
  answers c = [] → Forall frame_ok (delivered p buffer) →
  ∃ c' chunks, evd_longpolling_server_actual_send w c p buffer = Some (c', Peer.set_backlog [] p, true, true) ∧
    out c' = out c ++ (status_line ++ print_headers (delivery_headers w c) ++ CRLF)
             ++ ChunkedDecoderSpec.encode chunks [48] ++ CRLF ∧
    Forall ChunkedDecoderSpec.chunk_ok chunks ∧
    receive_all (concat (ChunkedDecoderSpec.chunk_data <$> chunks)) = Some (delivered p buffer).
Proof.
  intros Ha Hok. pose (pieces := concat (frame_pieces <$> delivered p buffer)).
  assert (Forall (λ m, len m < 4294967296) (delivered p buffer)) as Hs
    by (eapply Forall_impl; [exact Hok|]; intros m Hm; apply (frame_ok_length m Hm)).
  destruct (delivery_headers_written w c Ha) as (c1 & E1 & Hc1 & Ho1).
  pose proof Hs as Hs'. unfold delivered in Hs'. apply Forall_app in Hs' as [Hb Hbuf].
  destruct (send_backlog_all _ c1 p eq_refl Hc1 Hb) as (c2 & E2 & Hc2 & Ho2).
  assert (∃ c3, match buffer with Some b => evd_longpolling_server_write_frame_delivery c2 b | None => (c2, true) end
                = (c3, true) ∧ chunking c3 ∧ out c3 = out c1 ++ chunks_of pieces) as (c3 & E3 & Hc3 & Ho3).
  { subst pieces. unfold delivered. rewrite fmap_app, concat_app, chunks_of_app.
    destruct buffer as [b|]; cbn [option_list] in *.
    - apply Forall_cons_1 in Hbuf as [Hbuf _]. destruct (write_frame c2 b Hc2 Hbuf) as (c3 & E3 & Hc3 & Ho3).
      exists c3. split_and!; [done|done|]. rewrite Ho3, Ho2. by rewrite <-app_assoc.
    - exists c2. split_and!; [done|done|]. rewrite Ho2. symmetry. f_equal. apply app_nil_r. }
  pose proof (delivery_end c3 Hc3) as Hend.
  exists (evd_http_connection_write_content c3 [] false).1, (HttpConnectionSpec.to_chunks pieces). split_and!.
  - unfold evd_longpolling_server_actual_send. rewrite E1, E2. cbn [mbind option_bind].
    destruct buffer as [b|]; [rewrite E3|injection E3 as ->]; by destruct (evd_http_connection_write_content c3 [] false).
  - rewrite Hend, Ho3, Ho1. unfold ChunkedDecoderSpec.encode. fold (chunks_of pieces). by rewrite <-!app_assoc.
  - apply HttpConnectionSpec.to_chunks_ok, Forall_concat, Forall_fmap. eapply Forall_impl; [exact Hs|].
    intros m Hm. repeat constructor; [|done].
    unfold frame_header, len. repeat case_match; cbn [length]; rewrite ?length_take; lia.
  - rewrite HttpConnectionSpec.to_chunks_data. subst pieces. rewrite frame_pieces_concat.
    apply (receive_frames _ _ [] 0 Hok); lia.
Qed.

(** *** Streams that take less *)

(** [c'] has written [x] more than [c], all of [d] when [ok]. *)
Definition wrote (c c' : EvdHttpConnection) (d : list Z) (ok : bool) : Prop :=
  encoding c' = encoding c ∧ ∃ x, out c' = out c ++ x ∧ (ok = true → x = d).

Lemma wrote_trans c1 c2 c3 a b (ok : bool) :
  wrote c1 c2 a true → wrote c2 c3 b ok → wrote c1 c3 (a ++ b) ok.
Proof.
  intros [He1 (x & Ho1 & Hx)] [He2 (y & Ho2 & Hy)]. split; [congruence|]. exists (x ++ y).
  rewrite Ho2, Ho1, (Hx eq_refl), app_assoc. split; [done|]. intros Hok. by rewrite (Hy Hok).
Qed.

Lemma wrote_weaken c c' a b : wrote c c' a false → wrote c c' b false.
Proof. intros [He (x & Ho & _)]. split; [done|]. exists x. by split. Qed.

Definition ok {A B} (r : A + B) : bool := if r is inl _ then true else false.

Lemma write_plain_wrote c d : wrote c (write_plain c d).1 d (ok (write_plain c d).2).
Proof.
  unfold write_plain, g_output_stream_write. destruct d as [|x d].
  - split; [done|]. exists []. by rewrite app_nil_r.
  - destruct (answers c) as [|[n|] rest].
    + rewrite Z.ltb_irrefl. split; [done|]. by exists (x :: d).
    + destruct (Z.ltb_spec (len (take (Z.to_nat n) (x :: d))) (len (x :: d))) as [Hlt|Hge];
        (split; [done|]; eexists; split; [reflexivity|]); [done|].
      intros _. apply take_ge. unfold len in Hge. rewrite length_take in Hge. lia.
    + split; [done|]. exists []. split; [symmetry; apply app_nil_r|done].
Qed.

Lemma write_plain_result c d c' r : write_plain c d = (c', r) → wrote c c' d (ok r).
Proof. intros E. pose proof (write_plain_wrote c d) as Hw. by rewrite E in Hw. Qed.

Lemma write_chunk_wrote c d :
  encoding c = SOUP_ENCODING_CHUNKED →
  wrote c (evd_http_connection_write_chunk c d).1 (print_x (u32 (len d)) ++ CRLF ++ d ++ CRLF)
    (ok (evd_http_connection_write_chunk c d).2).
Proof.
  intros He. unfold evd_http_connection_write_chunk. set (c0 := with_encoding SOUP_ENCODING_EOF c).
  destruct (write_plain c0 (print_x (u32 (len d)) ++ CRLF)) as [c1 r1] eqn:E1. apply write_plain_result in E1 as W1.
  assert (∀ c' b (o : bool), wrote c0 c' b o → wrote c (with_encoding SOUP_ENCODING_CHUNKED c') b o) as Hup.
  { intros c' b o [_ Hx]. by split. }
  destruct r1 as [[]|e]; cycle 1; cbn [fst snd ok] in *.
  { by eapply Hup, wrote_weaken. }
  assert (∃ c2 r2, (if 0 <? len d then write_plain c1 d else (c1, inl ())) = (c2, r2) ∧ wrote c1 c2 d (ok r2))
    as (c2 & r2 & E2 & W2).
  { destruct (Z.ltb_spec 0 (len d)) as [|Hd].
    - destruct (write_plain c1 d) as [c2 r2] eqn:E2. eauto using write_plain_result.
    - exists c1, (inl ()). split; [done|]. assert (d = []) as -> by (destruct d; [done|unfold len in Hd; simpl in Hd; lia]).
      split; [done|]. exists []. by rewrite app_nil_r. }
  rewrite E2. pose proof (wrote_trans _ _ _ _ _ _ W1 W2) as W12. rewrite app_assoc.
  destruct r2 as [[]|e]; cbn [fst snd ok] in *.
  - destruct (write_plain c2 CRLF) as [c3 r3] eqn:E3. apply write_plain_result in E3.
    pose proof (wrote_trans _ _ _ _ _ _ W12 E3) as W13. rewrite <-app_assoc in W13. rewrite app_assoc in W13.
    apply Hup. by rewrite <-!app_assoc in *.
  - by eapply Hup, wrote_weaken.
Qed.

Lemma write_content_wrote c d :
  encoding c = SOUP_ENCODING_CHUNKED → len d < 4294967296 →
  wrote c (evd_http_connection_write_content c d true).1 (chunks_of [d])
    (ok (evd_http_connection_write_content c d true).2).
Proof.
  intros He Hd. unfold evd_http_connection_write_content. rewrite He. destruct (decide _); [|done].
  destruct (Z.eqb_spec (len d) 0) as [E|Hne].
  { assert (d = []) as -> by (destruct d; [done|unfold len in E; simpl in E; lia]).
    split; [done|]. exists []. by rewrite app_nil_r. }
  pose proof (write_chunk_wrote c d He) as Hw.
  assert (chunks_of [d] = print_x (u32 (len d)) ++ CRLF ++ d ++ CRLF) as ->.
  { unfold chunks_of, HttpConnectionSpec.to_chunks. rewrite filter_cons_True by (by intros ->).
    cbn [filter list_filter fmap list_fmap concat]. rewrite app_nil_r. unfold u32.
    rewrite Z.mod_small by (unfold len in *; lia). done. }
  by destruct (evd_http_connection_write_chunk c d) as [? [[]|?]].
Qed.

(** The messages of [ms] have been written, whole and in order; what is written before each (the
    length, when it could be) and after the last is not looked at. *)
Inductive carries (o : list Z) : list Z → list (list Z) → Prop :=
  | carries_nil x : carries o (o ++ x) []
  | carries_snoc o' x y ms m : carries o o' ms → carries o (o' ++ x ++ chunks_of [m] ++ y) (ms ++ [m]).

Lemma carries_more o o' ms x : carries o o' ms → carries o (o' ++ x) ms.
Proof.
  intros [x'|o1 x' y ms' m Hc].
  - rewrite <-app_assoc. constructor.
  - rewrite <-!app_assoc. by constructor.
Qed.

Lemma carries_app o o1 o2 ms1 ms2 : carries o o1 ms1 → carries o1 o2 ms2 → carries o o2 (ms1 ++ ms2).
Proof.
  intros Hc. induction 1 as [x|o' x y ms m _ IH].
  - rewrite app_nil_r. by apply carries_more.
  - rewrite (app_assoc ms1). by constructor.
Qed.

Lemma write_frame_carries c m c' r :
  encoding c = SOUP_ENCODING_CHUNKED → len m < 4294967296 →
  evd_longpolling_server_write_frame_delivery c m = (c', r) →
  encoding c' = SOUP_ENCODING_CHUNKED ∧ carries (out c) (out c') (if r then [m] else []).
Proof.
  intros He Hm. unfold evd_longpolling_server_write_frame_delivery.
  pose proof (write_content_wrote c (frame_header (len m)) He) as W1.
  destruct (evd_http_connection_write_content c (frame_header (len m)) true) as [c1 r1].
  destruct W1 as [He1 (x & Ho1 & _)].
  { unfold frame_header, len. repeat case_match; cbn [length]; rewrite ?length_take; lia. }
  cbn [fst snd] in *. rewrite He in He1. pose proof (write_content_wrote c1 m He1 Hm) as W2.
  destruct (evd_http_connection_write_content c1 m true) as [c2 r2]. destruct W2 as [He2 (y & Ho2 & Hy)].
  cbn [fst snd] in *. intros [= <- <-]. split; [congruence|]. fold (ok r2).
  rewrite Ho2, Ho1, <-app_assoc. destruct (ok r2).
  - rewrite (Hy eq_refl). rewrite <-(app_nil_r (chunks_of [m])). apply (carries_snoc _ _ _ _ []).
    rewrite <-(app_nil_r (out c)) at 2. constructor.
  - constructor.
Qed.

(** A frame of the backlog that can be given back. *)
Definition keepable (f : Peer.BacklogFrame) : Prop := 0 < len (Peer.frame_buf f) < 4294967296.

Lemma send_backlog_keeps fs : ∀ c p,
  Peer.backlog p = fs → encoding c = SOUP_ENCODING_CHUNKED → Forall keepable fs →
  ∃ c' left (result : bool) sent, send_backlog (length fs) c p = Some (c', Peer.set_backlog left p, result) ∧
    fs = sent ++ left ∧ (result = true → left = []) ∧ encoding c' = SOUP_ENCODING_CHUNKED ∧
    carries (out c) (out c') (Peer.frame_buf <$> sent).
Proof.
  induction fs as [|f fs IH]; intros c p Hb He Hk; cbn [length send_backlog]; unfold Peer.evd_peer_pop_message; rewrite Hb.
  - exists c, [], true, []. split_and!; try done; [destruct p; simpl in *; by subst|].
    rewrite <-(app_nil_r (out c)) at 2. constructor.
  - apply Forall_cons_1 in Hk as [Hf Hk]. unfold keepable in Hf.
    destruct (evd_longpolling_server_write_frame_delivery c (Peer.frame_buf f)) as [c1 r1] eqn:E1.
    destruct (write_frame_carries _ _ _ _ He (proj2 Hf) E1) as [He1 Hc1]. destruct r1.
    + destruct (IH c1 (Peer.set_backlog fs p) eq_refl He1 Hk) as (c2 & left & r & sent & E2 & -> & Hr & He2 & Hc2).
      exists c2, left, r, (f :: sent). rewrite E2. split_and!; try done. exact (carries_app _ _ _ [_] _ Hc1 Hc2).
    + exists c1, (f :: fs), false, []. split_and!; try done.
      unfold Peer.evd_peer_unshift_message. destruct (Z.eqb_spec (Z.of_nat (length (Peer.frame_buf f))) 0) as [E|_];
        [unfold len in Hf; lia|]. by destruct p, f.
Qed.

Lemma delivery_headers_grow w c :
  let c' := (evd_http_connection_write_response_headers c 1 200 None (Some (delivery_headers w c))).1 in
  encoding c' = SOUP_ENCODING_CHUNKED ∧ ∃ x, out c' = out c ++ x.
Proof.
  unfold evd_http_connection_write_response_headers. rewrite delivery_chunked. set (b := (_ ++ print_headers _) ++ CRLF).
  pose proof (write_plain_wrote (with_encoding SOUP_ENCODING_CHUNKED c) b) as [He (x & Ho & _)].
  unfold write_plain in He, Ho. destruct (g_output_stream_write _ b) as [c' [n|]]; cbn [fst] in *; [|by eauto].
  split; [|exists x]; by case_match.
Qed.

Lemma delivery_end_grows c :
  encoding c = SOUP_ENCODING_CHUNKED → ∃ x, out (evd_http_connection_write_content c [] false).1 = out c ++ x.
Proof.
  intros He. unfold evd_http_connection_write_content. rewrite He. destruct (decide _); [|done].
  change (len [] =? 0) with true. cbv iota. destruct (write_chunk_wrote c [] He) as [_ (x & Hx & _)]. by exists x.
Qed.

(** C11. A delivery, whatever the stream takes or refuses: the frames of the backlog that were sent are
    a first part of it, whose messages are on the wire, whole and in order, and then the message when
    the delivery succeeded; the others are left in the backlog, in order, and there are none when it
    succeeded.  When the headers cannot be written nothing is sent, and the delivery reports success. *)
Theorem delivery_keeps_the_rest w c p buffer :
  Forall keepable (Peer.backlog p) → Forall (λ b, len b < 4294967296) (option_list buffer) →
  ∃ c' left result (headers : bool) sent,
    evd_longpolling_server_actual_send w c p buffer = Some (c', Peer.set_backlog left p, result, headers) ∧
    Peer.backlog p = sent ++ left ∧
    if headers
    then carries (out c) (out c') ((Peer.frame_buf <$> sent) ++ if result then option_list buffer else []) ∧
         (result = true → left = [])
    else result = true ∧ sent = [].
Proof.
  intros Hk Hbuf. unfold evd_longpolling_server_actual_send.
  pose proof (delivery_headers_grow w c) as [He (x & Hx)].
  destruct (evd_http_connection_write_response_headers c 1 200 None (Some (delivery_headers w c))) as [c1 [|]];
    cbn [fst] in *; cycle 1.
  { exists c1, (Peer.backlog p), true, false, []. split_and!; try done. by destruct p. }
  destruct (send_backlog_keeps _ c1 p eq_refl He Hk) as (c2 & left & r & sent & -> & Hs & Hr & He2 & Hc2).
  assert (carries (out c) (out c2) (Peer.frame_buf <$> sent)) as Hc.
  { refine (carries_app _ (out c1) _ [] _ _ Hc2). rewrite Hx. constructor. }
  assert (∃ c3 r3, (match r, buffer with
                    | true, Some b => evd_longpolling_server_write_frame_delivery c2 b | _, _ => (c2, r) end) = (c3, r3) ∧
            encoding c3 = SOUP_ENCODING_CHUNKED ∧ (r3 = true → r = true) ∧
            carries (out c) (out c3) ((Peer.frame_buf <$> sent) ++ if r3 then option_list buffer else []))
    as (c3 & r3 & E3 & He3 & Hr3 & Hc3).
  { destruct r, buffer as [b|]; try (eexists _, _; split_and!; [reflexivity|done|done|by rewrite app_nil_r]).
    destruct (evd_longpolling_server_write_frame_delivery c2 b) as [c3 r3] eqn:E3.
    apply Forall_cons_1 in Hbuf as [Hb _]. destruct (write_frame_carries _ _ _ _ He2 Hb E3) as [He3 Hc3].
    exists c3, r3. split_and!; try done. eapply carries_app; [exact Hc|]. by destruct r3. }
  cbn [mbind option_bind]. rewrite E3. destruct (delivery_end_grows c3 He3) as [y Hy].
  destruct (evd_http_connection_write_content c3 [] false) as [c4 r4]. cbn [fst] in Hy.
  exists c4, left, r3, true, sent. split_and!; [done|done|rewrite Hy; by apply carries_more|auto].
Qed.

End Deliveries.

(** Posted messages: content that is a sequence of frames, of fewer than 4 GiB each, is read back
    as exactly the messages that were framed, when no message of more than 65535 bytes starts with a
    hexadecimal digit. *)
Theorem frames_roundtrip ms :
  Forall frame_ok ms → receive_all (concat (frame <$> ms)) = Some ms.
Proof. intros Hms. by apply (receive_frames ms _ [] 0 Hms). Qed.

(** ** Waiting connections *)

Section Waiting.
Context `{Soup} `{WebService.Regex}.

(** Every connection in a queue is there once, and bears the peer of that queue. *)
Definition waiting_wf (s : server) : Prop :=
  ∀ id ks, peer_conns s !! id = Some ks → NoDup ks ∧ ∀ k, k ∈ ks → get_peer s !! k = Some id.

Definition not_waiting (k : nat) (s : server) : Prop := ∀ id ks, peer_conns s !! id = Some ks → k ∉ ks.

(** The operations that reach the server: a request, of a connection that is not waiting; the end of
    the reading of a post; a message to send; a connection that leaves; a peer that is closed. *)
Inductive step : server → server → Prop :=
  | step_request now k r s s' effs :
      not_waiting k s → evd_longpolling_server_request_handler now s k r = Some (s', effs) → step s s'
  | step_content k a s s' effs : evd_longpolling_server_conn_on_content_read s k a = Some (s', effs) → step s s'
  | step_send now id b s s' result : evd_longpolling_server_send now s id b = Some (s', result) → step s s'
  | step_remove now removed k s s' result : evd_longpolling_server_remove now removed s k = Some (s', result) → step s s'
  | step_closed id s : step s (evd_longpolling_server_peer_closed s id).

Definition same_queues (s s' : server) : Prop := peer_conns s' = peer_conns s ∧ get_peer s' = get_peer s.

Lemma same_waiting s s' : same_queues s s' → waiting_wf s → waiting_wf s'.
Proof. intros [E1 E2] Hwf id ks. rewrite E1, E2. apply Hwf. Qed.

Lemma actual_send_queues s id k b s' r : actual_send s id k b = Some (s', r) → same_queues s s'.
Proof.
  unfold actual_send. destruct (conns s !! k) as [c|]; [|done]. destruct (peer_of id s) as [p|]; [|done].
  cbn [mbind option_bind]. destruct (evd_longpolling_server_actual_send _ c p b) as [[[[c' p'] r'] f]|]; [|done].
  intros [= <- _]. by destruct f.
Qed.

Lemma respond_queues s k code s' : respond s k code = Some s' → same_queues s s'.
Proof.
  unfold respond. destruct (conns s !! k) as [c|]; [|done]. cbn [mbind option_bind].
  destruct (WebService.evd_web_service_respond_internal _ _ _ _ _ _) as [[w ok]|]; [|done].
  intros [= <-]. by destruct ok.
Qed.

Lemma select_waiting now s id b s' r :
  waiting_wf s → evd_longpolling_server_select_conn_and_send now s id b = Some (s', r) → waiting_wf s'.
Proof.
  intros Hwf. unfold evd_longpolling_server_select_conn_and_send.
  destruct (peer_conns s !! id) as [[|k ks]|] eqn:E; [by intros [= <- _]| |by intros [= <- _]].
  destruct (peer_of id s) as [p|]; [|done]. cbn [mbind option_bind]. intros Hs%actual_send_queues.
  apply (same_waiting _ _ Hs). intros id' ks'. cbn [peer_conns get_peer with_peer_conns with_peer with_peers].
  destruct (Hwf id (k :: ks) E) as [Hnd Hin]. apply NoDup_cons in Hnd as [_ Hnd].
  destruct (decide (id' = id)) as [->|]; [|rewrite lookup_insert_ne by done; apply Hwf].
  rewrite lookup_insert_eq. intros [= <-]. split; [done|]. intros k' Hk'. apply Hin. by right.
Qed.

Lemma closed_waiting s id : waiting_wf s → waiting_wf (evd_longpolling_server_peer_closed s id).
Proof.
  intros Hwf. unfold evd_longpolling_server_peer_closed. destruct (peer_conns s !! id) as [ks|] eqn:E; [|done].
  destruct (Hwf id ks E) as [_ Hks]. clear E.
  assert (∀ s1, peer_conns s1 = peer_conns s → (∀ k id', get_peer s !! k = Some id' → id' ≠ id → get_peer s1 !! k = Some id') →
    let s2 := fold_left (λ s k, flush_and_return k (with_get (delete k (get_peer s)) s)) ks s1 in
    peer_conns s2 = peer_conns s ∧ ∀ k id', get_peer s !! k = Some id' → id' ≠ id → get_peer s2 !! k = Some id') as Hfold.
  { induction ks as [|k ks IH]; intros s1 E1 Hg; [done|]. cbn [fold_left]. apply IH; [|done|].
    - intros k' Hk'. apply Hks. by right.
    - intros k' id' Hk' Hne. cbn [get_peer flush_and_return with_get]. rewrite lookup_delete_ne; [by apply Hg|].
      intros ->. rewrite (Hks k' ltac:(by left)) in Hk'. congruence. }
  destruct (Hfold s eq_refl ltac:(done)) as [E2 Hg]. intros id' ks'. cbn [peer_conns get_peer with_peer_conns].
  rewrite E2. intros [Hne Hl]%lookup_delete_Some. destruct (Hwf id' ks' Hl) as [Hnd Hin].
  split; [done|]. intros k Hk. by apply Hg; [apply Hin|].
Qed.

Lemma removed_elem k k' ks : k' ∈ g_queue_remove k ks → k' ∈ ks.
Proof.
  induction ks as [|x ks IH]; [done|]. cbn [g_queue_remove]. destruct (decide (x = k)).
  - by right.
  - rewrite !elem_of_cons. naive_solver.
Qed.

Lemma removed_once k ks : NoDup ks → NoDup (g_queue_remove k ks) ∧ k ∉ g_queue_remove k ks.
Proof.
  induction 1 as [|x ks Hx Hnd [IH1 IH2]]; [split; [constructor|apply not_elem_of_nil]|].
  cbn [g_queue_remove]. destruct (decide (x = k)) as [->|Hne]; [done|]. split.
  - constructor; [|done]. by intros ?%removed_elem.
  - by rewrite not_elem_of_cons.
Qed.

Lemma remove_waiting now s k s' :
  waiting_wf s → evd_longpolling_server_remove now true s k = Some (s', true) → waiting_wf s' ∧ not_waiting k s'.
Proof.
  intros Hwf. unfold evd_longpolling_server_remove. cbn [negb]. destruct (get_peer s !! k) as [id|] eqn:Eg; cycle 1.
  { intros [= <-]. split; [done|]. intros id ks Hl Hk. destruct (Hwf id ks Hl) as [_ Hin].
    rewrite (Hin k Hk) in Eg. done. }
  destruct (peer_of id s) as [p|]; [|done]. cbn [mbind option_bind]. cbn [peer_conns with_get with_peer with_peers].
  destruct (peer_conns s !! id) as [ks|] eqn:E; intros [= <-].
  - destruct (removed_once k ks) as [Hnd Hk]; [by apply (Hwf id)|].
    split; intros id' ks'; cbn [peer_conns get_peer with_peer_conns with_get with_peer with_peers];
      (destruct (decide (id' = id)) as [->|Hne]; [rewrite lookup_insert_eq; intros [= <-]|rewrite lookup_insert_ne by done]).
    + split; [done|]. intros k' Hk'. rewrite lookup_delete_ne by (by intros ->).
      apply (Hwf id ks E). by eapply removed_elem.
    + intros Hl. destruct (Hwf id' ks' Hl) as [Hnd' Hin]. split; [done|]. intros k' Hk'.
      rewrite lookup_delete_ne; [by apply Hin|]. intros ->. rewrite (Hin k' Hk') in Eg. congruence.
    + done.
    + intros Hl Hk'. destruct (Hwf id' ks' Hl) as [_ Hin]. rewrite (Hin k Hk') in Eg. congruence.
  - split; intros id' ks' Hl; cbn [peer_conns get_peer with_get with_peer with_peers] in *;
      destruct (Hwf id' ks' Hl) as [Hnd' Hin].
    + split; [done|]. intros k' Hk'. rewrite lookup_delete_ne; [by apply Hin|]. intros ->.
      rewrite (Hin k' Hk') in Eg. congruence.
    + intros Hk'. rewrite (Hin k Hk') in Eg. congruence.
Qed.

Lemma receive_waiting s k id s' effs :
  waiting_wf s → not_waiting k s → handle_receive s k id = Some (s', effs) → waiting_wf s'.
Proof.
  intros Hwf Hk. unfold handle_receive. set (s1 := match peer_conns s !! id with None => _ | Some _ => s end).
  assert (waiting_wf s1 ∧ not_waiting k s1) as [Hwf1 Hk1].
  { subst s1. destruct (peer_conns s !! id) eqn:E; [done|].
    split; intros id' ks'; cbn [peer_conns get_peer with_peer_conns];
      (destruct (decide (id' = id)) as [->|]; [rewrite lookup_insert_eq; intros [= <-]|rewrite lookup_insert_ne by done]).
    - split; [constructor|]. by intros ? ?%not_elem_of_nil.
    - apply Hwf.
    - apply not_elem_of_nil.
    - apply Hk. }
  destruct (peer_of id s1) as [p|]; [|done]. destruct (peer_conns s1 !! id) as [ks|] eqn:E; [|done].
  cbn [mbind option_bind]. case_match.
  - destruct (actual_send s1 id k None) as [[s2 r]|] eqn:Ea; [|done]. intros [= <- _].
    by eapply same_waiting, Hwf1; eapply actual_send_queues.
  - intros [= <- _] id' ks'. cbn [peer_conns get_peer with_peer_conns with_get].
    destruct (decide (id' = id)) as [->|Hne]; [rewrite lookup_insert_eq; intros [= <-]|rewrite lookup_insert_ne by done; intros Hl].
    + destruct (Hwf1 id ks E) as [Hnd Hin]. specialize (Hk1 id ks E). split.
      * apply NoDup_app. split_and!; [done| |apply NoDup_singleton]. by intros x Hx ->%list_elem_of_singleton.
      * intros k' [Hk'|Hk']%elem_of_app; [|apply list_elem_of_singleton in Hk' as ->; apply lookup_insert_eq].
        rewrite lookup_insert_ne by (by intros ->). by apply Hin.
    + destruct (Hwf1 id' ks' Hl) as [Hnd Hin]. specialize (Hk1 id' ks' Hl). split; [done|]. intros k' Hk'.
      rewrite lookup_insert_ne by (by intros ->). by apply Hin.
Qed.

Lemma close_waiting s k id s' effs : waiting_wf s → handle_close s k id = Some (s', effs) → waiting_wf s'.
Proof.
  intros Hwf. unfold handle_close. destruct (respond s k 200) as [s1|] eqn:Er; [|done]. cbn [mbind option_bind].
  destruct (Peer.evd_transport_close_peer _ _ _ _) as [[w evs]|]; [|done]. intros [= <- _].
  apply respond_queues in Er. apply (same_waiting _ _ Er) in Hwf. case_match; [by apply closed_waiting|done].
Qed.

Lemma request_waiting now s k r s' effs :
  waiting_wf s → not_waiting k s → evd_longpolling_server_request_handler now s k r = Some (s', effs) → waiting_wf s'.
Proof.
  intros Hwf Hk. unfold evd_longpolling_server_request_handler. destruct (uri r) as [u|]; [|done]. cbn [mbind option_bind].
  set (s0 := with_current _ s). assert (∃ s1 peer, match uri_query u with None => (s0, None)
    | Some q => lookup_peer s0 (peer_id q) end = (s1, peer) ∧ same_queues s s1) as (s1 & peer & -> & Hs1).
  { destruct (uri_query u) as [q|]; [|by eexists _, _]. unfold lookup_peer.
    destruct (Peer.evd_peer_manager_lookup_peer _ _) as [w r']. by eexists _, _. }
  apply (same_waiting _ _ Hs1) in Hwf. assert (not_waiting k s1) as Hk1 by (intros id ks; rewrite (proj1 Hs1); apply Hk).
  destruct peer as [id|]; cycle 1.
  { destruct (respond s1 k 404) as [s2|] eqn:Er; [|done]. intros [= <- _]. apply respond_queues in Er.
    by apply (same_waiting _ _ Er). }
  destruct (peer_of id s1) as [p|]; [|done]. cbn [mbind option_bind].
  destruct (evd_longpolling_server_resolve_action r) as [action|]; [|done]. cbn [mbind option_bind].
  set (s2 := with_peer id _ s1). assert (waiting_wf s2) as Hwf2 by exact Hwf. assert (not_waiting k s2) as Hk2 by exact Hk1.
  destruct (decide (action = codes "receive")).
  { destruct (handle_receive s2 k id) as [[s3 e3]|] eqn:E; [|done]. intros [= <- _]. exact (receive_waiting _ _ _ _ _ Hwf2 Hk2 E). }
  destruct (decide (action = codes "send")).
  { unfold handle_send. destruct (conns s2 !! k) as [c|]; [|done]. cbn [mbind option_bind].
    destruct (evd_http_connection_read_all_content c) as [c' evs]. by intros [= <- _]. }
  destruct (decide (action = codes "close")).
  { destruct (handle_close s2 k id) as [[s3 e3]|] eqn:E; [|done]. intros [= <- _]. exact (close_waiting _ _ _ _ _ Hwf2 E). }
  by intros [= <- _].
Qed.

Lemma content_waiting s k a s' effs :
  waiting_wf s → evd_longpolling_server_conn_on_content_read s k a = Some (s', effs) → waiting_wf s'.
Proof.
  intros Hwf. unfold evd_longpolling_server_conn_on_content_read.
  destruct (post_peer s !! k) as [id|]; [|done]. destruct (conns s !! k) as [c|]; [|done]. cbn [mbind option_bind].
  destruct (evd_http_connection_read_all_content_finish c a) as [c' content].
  destruct (posted_messages content) as [ms|]; [|done]. cbn [mbind option_bind].
  destruct (actual_send (with_conn k c' s) id k None) as [[s1 r]|] eqn:E; [|done]. intros [= <- _].
  apply actual_send_queues in E. by apply (same_waiting _ _ E).
Qed.

#[local] Hint Resolve request_waiting content_waiting select_waiting closed_waiting : longpolling.

Lemma step_waiting s s' : waiting_wf s → step s s' → waiting_wf s'.
Proof.
  intros Hwf Hstep. destruct Hstep as [| | |now [|] k s s' [|] E|]; eauto with longpolling.
  - by destruct (remove_waiting _ _ _ _ Hwf E).
  - exfalso. revert E. unfold evd_longpolling_server_remove. cbn [negb]. destruct (get_peer s !! k); [|done]. by destruct (peer_of _ s).
  - done.
  - by injection E as <-.
Qed.

(** C15. The queues of waiting connections are well formed after every run of requests, posts, messages,
    departures and closings from a server nobody waits on: a connection waits in one queue at most,
    once, the queue of the peer it bears; and a connection whose removal the parent class has answered
    [TRUE] waits in none. *)
Theorem waiting_queues_wf s0 s :
  peer_conns s0 = ∅ → rtc step s0 s →
  waiting_wf s ∧ ∀ now k s', evd_longpolling_server_remove now true s k = Some (s', true) → not_waiting k s'.
Proof.
  intros E Hrun. assert (waiting_wf s) as Hwf.
  { assert (waiting_wf s0) as Hwf0 by (intros id ks; by rewrite E, lookup_empty).
    clear E. induction Hrun as [|s1 s2 s3 Hs _ IH]; [done|]. by eapply IH, step_waiting. }
  split; [done|]. intros now k s' Hr. by destruct (remove_waiting _ _ _ _ Hwf Hr).
Qed.

End Waiting.

(** ** Instances *)

Definition demo_peer : Peer.EvdPeerPrivate :=
  Peer.set_backlog [Peer.mkFrame Peer.MESSAGE_TYPE_TEXT (codes "first"); Peer.mkFrame Peer.MESSAGE_TYPE_TEXT (codes "second")]
    (Peer.evd_peer_init 0).

Definition demo_web : WebService.EvdWebServicePrivate := WebService.evd_web_service_init.

Lemma short_frame_ok ms : forallb (λ m, len m <=? 65535) ms = true → Forall frame_ok ms.
Proof. rewrite forallb_forall. intros Hs. apply Forall_forall. intros m Hm%list_elem_of_In. left. by apply Z.leb_le, Hs. Qed.

Lemma delivery_carries_all_witness :
  ∃ c' chunks, evd_longpolling_server_actual_send demo_web (HttpConnectionLife.fresh []) demo_peer (Some (codes "third")) =
      Some (c', Peer.set_backlog [] demo_peer, true, true) ∧
    out c' = [] ++ (status_line ++ print_headers (delivery_headers demo_web (HttpConnectionLife.fresh [])) ++ CRLF)
             ++ ChunkedDecoderSpec.encode chunks [48] ++ CRLF ∧
    Forall ChunkedDecoderSpec.chunk_ok chunks ∧
    receive_all (concat (ChunkedDecoderSpec.chunk_data <$> chunks)) =
      Some [codes "first"; codes "second"; codes "third"].
Proof.
  apply (delivery_carries_all demo_web (HttpConnectionLife.fresh []) demo_peer (Some (codes "third")) eq_refl).
  apply short_frame_ok. reflexivity.
Defined.

(** A stream that takes the headers and the first frame, and then nothing more. *)
Definition tight : list (option Z) := [Some 1000; Some 3; Some 1; Some 2; Some 3; Some 5; Some 2; None; None].

Lemma delivery_keeps_the_rest_witness :
  ∃ c' left result (headers : bool) sent,
    evd_longpolling_server_actual_send demo_web (HttpConnectionLife.fresh tight) demo_peer (Some (codes "third")) =
      Some (c', Peer.set_backlog left demo_peer, result, headers) ∧
    Peer.backlog demo_peer = sent ++ left ∧
    if headers
    then carries [] (out c') ((Peer.frame_buf <$> sent) ++ if result then [codes "third"] else []) ∧
         (result = true → left = [])
    else result = true ∧ sent = [].
Proof.
  apply (delivery_keeps_the_rest demo_web (HttpConnectionLife.fresh tight) demo_peer (Some (codes "third"))).
  - by repeat constructor.
  - by repeat constructor.
Defined.

Lemma frames_roundtrip_witness :
  receive_all (concat (frame <$> [codes "hello"; []; replicate 200 97])) = Some [codes "hello"; []; replicate 200 97].
Proof. apply frames_roundtrip, short_frame_ok. reflexivity. Defined.

Definition demo_server : server :=
  mkServer demo_web None
    (Peer.mkWorld {[ "alice" := Peer.evd_peer_init 0 ]} (Peer.mkManager {[ "alice" ]} 0 15 0 []) [] 1)
    ∅ {[ 7%nat := HttpConnectionLife.fresh [] ]} ∅ ∅ [].

Definition poll : EvdHttpRequest := mkRequest 1 None (codes "GET") (soup_uri_new (codes "/lp/receive?alice")).

(** A connection polls and waits. *)
Definition polled : server := (default (demo_server, []) (evd_longpolling_server_request_handler 5 demo_server 7 poll)).1.

Lemma polled_step : evd_longpolling_server_request_handler 5 demo_server 7 poll = Some (polled, []).
Proof. vm_compute. reflexivity. Qed.

Example polled_waits : peer_conns polled = {[ "alice" := [7%nat] ]}.
Proof. vm_compute. reflexivity. Qed.

Lemma waiting_queues_wf_witness :
  waiting_wf polled ∧ ∀ now k s', evd_longpolling_server_remove now true polled k = Some (s', true) → not_waiting k s'.
Proof.
  apply (waiting_queues_wf demo_server polled); [reflexivity|]. apply rtc_once.
  apply (step_request 5 7 poll _ _ []); [|exact polled_step]. intros id ks. cbn. by rewrite lookup_empty.
Defined.

(** ** Defects *)

(** A connection that closes has forgotten its group when the group is asked to remove it: it goes on
    waiting in the queue of its peer. *)
Example closed_connection_waits :
  fst <$> evd_longpolling_server_remove 6 false polled 7 = Some polled ∧ peer_conns polled !! "alice" = Some [7%nat].
Proof. vm_compute. by split. Qed.

(** A message of 65536 bytes that starts with a hexadecimal digit: the scanner goes on into it, and
    the length that is read is not that of the message. *)
Example digit_taken_for_length :
  let m := replicate (Z.to_nat 65536) 97 in
  (evd_longpolling_server_read_msg_header (frame m) 0).1.2 = 2863311530.
Proof. vm_compute. reflexivity. Qed.

(** Nothing checks the length of a frame against the content: here [receive] is given five bytes after
    the end of it. *)
Example frame_past_the_content : receive_all [5] = None.
Proof. reflexivity. Qed.

(** When the headers cannot be written the message is neither sent nor kept, and the answer is that
    it was sent. *)
Example message_lost_without_headers :
  fmap (λ r : EvdHttpConnection * Peer.EvdPeerPrivate * bool * bool,
             let '(c, p, result, flush) := r in (out c, backlog_messages p, result, flush))
    (evd_longpolling_server_actual_send demo_web (HttpConnectionLife.fresh [None]) (Peer.evd_peer_init 0) (Some (codes "lost")))
  = Some ([], [], true, false).
Proof. vm_compute. reflexivity. Qed.

(** The result of writing the length of a message is not looked at: the message goes out alone, and is
    taken for delivered. *)
Example message_without_length :
  fmap (λ r : EvdHttpConnection * Peer.EvdPeerPrivate * bool * bool, let '(c, p, result, flush) := r in (out c, result))
    (evd_longpolling_server_actual_send demo_web (HttpConnectionLife.fresh [Some 1000; None]) (Peer.evd_peer_init 0)
       (Some (codes "alone")))
  = Some (status_line ++ print_headers (delivery_headers demo_web (HttpConnectionLife.fresh [])) ++ CRLF ++
          ChunkedDecoderSpec.encode (HttpConnectionSpec.to_chunks [codes "alone"]) [48] ++ CRLF, true).
Proof. vm_compute. reflexivity. Qed.

(** What was sent on the tight stream. *)
Example second_kept :
  fmap (λ r : EvdHttpConnection * Peer.EvdPeerPrivate * bool * bool,
             let '(c, p, result, flush) := r in (backlog_messages p, result, flush))
    (evd_longpolling_server_actual_send demo_web (HttpConnectionLife.fresh tight) demo_peer (Some (codes "third")))
  = Some ([codes "second"], false, true).
Proof. vm_compute. reflexivity. Qed.

End LongpollingSpec.
