(* ===== verification/SocketStream.v ===== *)
(** * Socket streams (src/evd/evd-socket-input-stream.c, evd-socket-output-stream.c): model and theorems

    The streams at the bottom of a connection.  The input stream asks the socket for one byte more
    than its reader wants and keeps that byte in a bag, so as to know whether the socket is drained.
    The theorems: the reader sees the bytes of the socket in order, the bag apart; the signals
    [drained] and [filled] are emitted exactly when the socket has no more to give or to take; the
    stream is a base stream in the sense of BufferedInput.v. *)
From S2P Require Import Prelude BufferedInput.

Module SocketStream.

#[local] Abbreviation len l := (Z.of_nat (length l)).

(** ** Input *)

Record EvdSocketInputStreamPrivate := mkSocketIn {
  socket : bool;                 (* [evd_socket_get_socket] gives a socket *)
  bag : Z;
  has_bag : bool
}.

Definition evd_socket_input_stream_init : EvdSocketInputStreamPrivate := mkSocketIn true 0 false.

(** What [g_socket_receive] answers; no data is the end of the stream. *)
Inductive receive_answer := Received (data : list Z) | RecvWouldBlock | RecvFailed.

Inductive read_error := ErrNotInitialized | ErrWouldBlock | ErrFailed.

Record read_result := mkRead {
  result : list Z + read_error;  (* the bytes returned *)
  drained : bool;                (* the signal is emitted *)
  touched : Z                    (* how many bytes of the buffer are written *)
}.

(** How many bytes the socket is asked for. *)
Definition asked (p : EvdSocketInputStreamPrivate) (size : Z) : Z := if has_bag p then size else size + 1.

(** [None]: the byte before the buffer is read. *)
Definition evd_socket_input_stream_read (p : EvdSocketInputStreamPrivate) (size : Z) (a : receive_answer)
  : option (EvdSocketInputStreamPrivate * read_result) :=
  if negb (socket p) then Some (p, mkRead (inr ErrNotInitialized) false 0)
  else
    let pre := if has_bag p then [bag p] else [] in
    let size := asked p size in
    let emptied := mkSocketIn (socket p) (bag p) false in
    let failed (e : read_error) (drained : bool) :=
      if has_bag p then Some (emptied, mkRead (inl pre) drained (len pre))
      else Some (p, mkRead (inr e) drained 0) in
    match a with
    | RecvWouldBlock => failed ErrWouldBlock true
    | RecvFailed => failed ErrFailed false
    | Received data =>
        if len data <? size then Some (emptied, mkRead (inl (pre ++ data)) true (len (pre ++ data)))
        else
          b ← last data;
          Some (mkSocketIn (socket p) b true, mkRead (inl (pre ++ removelast data)) false (len (pre ++ data)))
    end.

(** ** Output *)

Inductive send_answer := Sent (n : Z) | SendWouldBlock | SendFailed.

(** The result and whether [filled] is emitted. *)
Definition evd_socket_output_stream_write (socket : bool) (data : list Z) (a : send_answer)
  : (Z + read_error) * bool :=
  if negb socket then (inr ErrNotInitialized, false)
  else
    match a with
    | SendWouldBlock => (inr ErrWouldBlock, true)
    | SendFailed => (inr ErrFailed, false)
    | Sent n => (inl n, n <? len data)
    end.

(** ** Theorems *)

(** The bytes a reader has before it: the bag, then what the socket holds. *)
Definition pending_bytes (p : EvdSocketInputStreamPrivate) (queue : list Z) : list Z :=
  (if has_bag p then [bag p] else []) ++ queue.

(** [g_socket_receive] for [size] bytes on a socket that holds [queue]. *)
Inductive receives (size : Z) : list Z → receive_answer → list Z → Prop :=
  | receives_data data queue : len data <= size → receives size (data ++ queue) (Received data) queue
  | receives_nothing queue : receives size queue RecvWouldBlock queue
  | receives_error queue : receives size queue RecvFailed queue.

Lemma removelast_last (d : list Z) b : last d = Some b → d = removelast d ++ [b].
Proof.
  intros Hl. destruct (decide (d = [])) as [->|Hne]; [done|].
  rewrite (app_removelast_last 0 Hne) at 1. do 2 f_equal.
  rewrite (app_removelast_last 0 Hne), last_snoc in Hl. by injection Hl.
Qed.

Lemma length_removelast (d : list Z) b : last d = Some b → len d = len (removelast d) + 1.
Proof. intros Hl%removelast_last. rewrite Hl at 1. rewrite length_app. simpl. lia. Qed.

(** Reading from an open socket into a buffer of one byte or more always has a result. *)
Lemma read_total p size a queue queue' :
  1 <= size → socket p = true → receives (asked p size) queue a queue' →
  ∃ p' r, evd_socket_input_stream_read p size a = Some (p', r) ∧ socket p' = true.
Proof.
  intros Hs Hp Ha. unfold evd_socket_input_stream_read. rewrite Hp. cbn [negb].
  assert (1 <= asked p size) by (unfold asked; case_match; lia).
  destruct a as [d| |]; [|destruct (has_bag p); eauto..].
  destruct (Z.ltb_spec (len d) (asked p size)) as [|Hge]; [by eauto|].
  destruct (last d) as [b|] eqn:El; [by eauto|]. apply last_None in El as ->. simpl in Hge. lia.
Qed.

Definition base_answer (r : list Z + read_error) : BufferedInput.base_answer :=
  match r with
  | inl data => BufferedInput.Got data
  | inr ErrWouldBlock => BufferedInput.WouldBlock
  | inr _ => BufferedInput.Failed
  end.

Lemma answers_prefix src size data src' :
  src = data ++ src' → len data <= size → BufferedInput.answers src size (BufferedInput.Got data) src'.
Proof.
  intros -> Hl. pose proof (BufferedInput.answers_got (data ++ src') size (len data)) as Ha.
  rewrite Nat2Z.id, take_app_length, drop_app_length in Ha. apply Ha; [lia|]. rewrite length_app. lia.
Qed.

(** The input stream of an open socket is a base stream of BufferedInput.v, over what the bag and
    the socket hold: for every answer of the socket, reading ends, gives the next bytes in order, no
    more than asked, or an error that loses nothing.  [drained] is emitted unless a byte is left in
    the bag or the socket has failed, and at most one byte is written past the end of the buffer. *)
Example socket_stream_is_base p size a queue queue' :
  1 <= size → socket p = true → receives (asked p size) queue a queue' →
  ∃ p' r, evd_socket_input_stream_read p size a = Some (p', r) ∧
    BufferedInput.answers (pending_bytes p queue) size (base_answer (result r)) (pending_bytes p' queue') ∧
    (drained r = false ↔ has_bag p' = true ∨ a = RecvFailed) ∧ touched r <= size + 1.
Proof.
  intros Hs Hp Ha. destruct (read_total p size a queue queue' Hs Hp Ha) as (p' & r & E & _).
  exists p', r. split; [done|]. unfold evd_socket_input_stream_read in E. rewrite Hp in E. cbn [negb] in E.
  unfold pending_bytes, asked in *. destruct Ha as [d q Hl|q|q].
  - destruct (has_bag p) eqn:Hb; revert E; case Z.ltb_spec; intros Hd E;
      [|destruct (last d) as [b|] eqn:El; [|done]; pose proof (length_removelast d b El)
       | |destruct (last d) as [b|] eqn:El; [|done]; pose proof (length_removelast d b El)];
      injection E as <- <-; cbn [result drained touched has_bag bag base_answer app] in *;
      (split_and!; [apply answers_prefix|by naive_solver|]);
      cbn [app length]; rewrite ?length_app; cbn [length]; try lia; try done;
      rewrite (removelast_last d b El) at 1; by rewrite <-app_assoc.
  - destruct (has_bag p) eqn:Hb; injection E as <- <-; cbn [result drained touched has_bag bag base_answer length];
      rewrite ?Hb; (split_and!; [|by naive_solver|lia]); [by apply answers_prefix; [|simpl; lia]|constructor].
  - destruct (has_bag p) eqn:Hb; injection E as <- <-; cbn [result drained touched has_bag bag base_answer length];
      rewrite ?Hb; (split_and!; [|by naive_solver|lia]); [by apply answers_prefix; [|simpl; lia]|constructor].
Qed.

Lemma socket_stream_is_base_witness :
  ∃ p' r, evd_socket_input_stream_read evd_socket_input_stream_init 3 (Received [1; 2; 3; 4]) = Some (p', r) ∧
    BufferedInput.answers [1; 2; 3; 4; 5] 3 (base_answer (result r)) (pending_bytes p' [5]) ∧
    (drained r = false ↔ has_bag p' = true ∨ Received [1; 2; 3; 4] = RecvFailed) ∧ touched r <= 3 + 1.
Proof.
  apply (socket_stream_is_base evd_socket_input_stream_init 3 (Received [1; 2; 3; 4]) [1; 2; 3; 4; 5] [5]);
    [lia|reflexivity|]. apply (receives_data 4 [1; 2; 3; 4] [5]). simpl. lia.
Defined.

(** The byte for the bag is received in the buffer of the reader, after its end: whenever the socket
    gives all that it is asked for. *)
Lemma read_past_the_buffer p size data b p' r :
  socket p = true → len (data ++ [b]) = asked p size →
  evd_socket_input_stream_read p size (Received (data ++ [b])) = Some (p', r) → touched r = size + 1.
Proof.
  intros Hp Hl. unfold evd_socket_input_stream_read. rewrite Hp, Hl, Z.ltb_irrefl, last_snoc. cbn [negb mbind option_bind].
  intros [= _ <-]. cbn [touched]. unfold asked in Hl. rewrite length_app, Nat2Z.inj_add, Hl.
  destruct (has_bag p); simpl; lia.
Qed.

(** [filled] is emitted exactly when the socket did not take everything and has not failed. *)
Lemma filled_iff_refused data a :
  (∀ n, a = Sent n → n <= len data) →
  (evd_socket_output_stream_write true data a).2 = true ↔ a ≠ Sent (len data) ∧ a ≠ SendFailed.
Proof.
  intros Ha. destruct a as [n| |]; simpl; [|naive_solver..]. specialize (Ha n eq_refl).
  rewrite Z.ltb_lt. split; [intros Hn; split; [intros [= ->]; lia|done]|].
  intros [Hne _]. assert (n ≠ len data) by (by intros ->). lia.
Qed.

End SocketStream.
