(* ===== verification/Connection.v ===== *)
(** * Connections (src/evd/evd-connection.c): model

    A connection keeps a pipeline of streams over a socket: socket streams, throttled streams, TLS
    streams once TLS has started, and buffered streams.  The model has the conditions of the socket,
    the sources the connection attaches to the main loop with the references they hold, the TLS
    handshake, delayed closing and the replacement of the socket.  The buffered streams are those of
    BufferedInput.v and BufferedOutput.v; the calls of users are events, in order.  The answers of
    the streams below and of the TLS session are lists in the state, which any value may start with. *)
From S2P Require Import Prelude Throttle BufferedOutput BufferedInput.

Module Connection.

Definition G_IO_IN : Z := 1.
Definition G_IO_OUT : Z := 4.
Definition G_IO_HUP : Z := 16.

Definition has (cond bit : Z) : bool := negb (Z.land cond bit =? 0).

Inductive EvdTlsMode := EVD_TLS_MODE_SERVER | EVD_TLS_MODE_CLIENT.
Inductive EvdSocketState := EVD_SOCKET_STATE_CONNECTED | EVD_SOCKET_STATE_CLOSED | EVD_SOCKET_STATE_OTHER.
Inductive starttls_error := ErrClosed | ErrBusy | ErrHandshake.

(** ** State *)

Record pipeline := mkPipe {
  buf_input_stream : BufferedInput.EvdBufferedInputStreamPrivate;
  buf_output_stream : BufferedOutput.EvdBufferedOutputStreamPrivate;
  tls_output_stream : option BufferedOutput.EvdBufferedOutputStreamPrivate;  (* and the TLS input stream *)
  throt_input_stream : list nat;     (* the throttles of the throttled streams *)
  throt_output_stream : list nat;
  delays : bool                      (* delay-read and delay-write are connected *)
}.

Inductive source := SrcRead | SrcWrite | SrcClose.

#[export] Instance source_eq_dec : EqDecision source.
Proof. solve_decision. Defined.

(** The sources in the main loop, their identifiers in the connection, and the references to itself
    that the connection holds. *)
Record main_loop := mkLoop {
  sources : list (Z * source);
  next_src : Z;
  read_src_id : Z;
  write_src_id : Z;
  close_src_id : Z;
  refs : Z;
  flushes : nat                      (* flushes of [evd_connection_flush_and_shutdown] under way *)
}.

Record tls_state := mkTls {
  tls_handshaking : bool;
  tls_active : bool;
  async_result : option nat;         (* the call of [evd_connection_starttls] under way *)
  next_op : nat
}.

Record oracle := mkOracle {
  writes : list BufferedOutput.base_answer;    (* then: would block *)
  closes : list bool;                          (* results of closing streams; then: success *)
  handshakes : list (Z * Z);                   (* direction and result; then: more to do *)
  writables : list Z                           (* answers of the throttled streams; then: 0 *)
}.

Record EvdConnection := mkConn {
  socket : option nat;
  has_streams : bool;
  pipe : pipeline;
  loop : main_loop;
  tls : tls_state;
  cond : Z;
  delayed_close : bool;
  close_locked : bool;
  connected : bool;
  closing : bool;
  closed : bool;                     (* of the GIOStream *)
  pending : bool;
  group : option (nat * nat);        (* the throttles of the group *)
  remote_addr_st : option (list Z);
  world : oracle
}.

Inductive event :=
  | StartTlsDone (op : nat) (error : option starttls_error)
  | InputEvents (evs : list BufferedInput.event)
  | OutputEvents (evs : list BufferedOutput.event)
  | TlsOutputEvents (evs : list BufferedOutput.event)
  | WriteSignal
  | CloseSignal
  | Watch (mask : Z)
  | SocketClose
  | SocketShutdown
  | TlsClose.

Definition with_pipe p c := mkConn (socket c) (has_streams c) p (loop c) (tls c) (cond c) (delayed_close c) (close_locked c) (connected c) (closing c) (closed c) (pending c) (group c) (remote_addr_st c) (world c).
Definition with_loop l c := mkConn (socket c) (has_streams c) (pipe c) l (tls c) (cond c) (delayed_close c) (close_locked c) (connected c) (closing c) (closed c) (pending c) (group c) (remote_addr_st c) (world c).
Definition with_tls t c := mkConn (socket c) (has_streams c) (pipe c) (loop c) t (cond c) (delayed_close c) (close_locked c) (connected c) (closing c) (closed c) (pending c) (group c) (remote_addr_st c) (world c).
Definition with_cond x c := mkConn (socket c) (has_streams c) (pipe c) (loop c) (tls c) x (delayed_close c) (close_locked c) (connected c) (closing c) (closed c) (pending c) (group c) (remote_addr_st c) (world c).
Definition with_delayed x c := mkConn (socket c) (has_streams c) (pipe c) (loop c) (tls c) (cond c) x (close_locked c) (connected c) (closing c) (closed c) (pending c) (group c) (remote_addr_st c) (world c).
Definition with_locked x c := mkConn (socket c) (has_streams c) (pipe c) (loop c) (tls c) (cond c) (delayed_close c) x (connected c) (closing c) (closed c) (pending c) (group c) (remote_addr_st c) (world c).
Definition with_connected x c := mkConn (socket c) (has_streams c) (pipe c) (loop c) (tls c) (cond c) (delayed_close c) (close_locked c) x (closing c) (closed c) (pending c) (group c) (remote_addr_st c) (world c).
Definition with_closing x c := mkConn (socket c) (has_streams c) (pipe c) (loop c) (tls c) (cond c) (delayed_close c) (close_locked c) (connected c) x (closed c) (pending c) (group c) (remote_addr_st c) (world c).
Definition with_closed x c := mkConn (socket c) (has_streams c) (pipe c) (loop c) (tls c) (cond c) (delayed_close c) (close_locked c) (connected c) (closing c) x (pending c) (group c) (remote_addr_st c) (world c).
Definition with_pending x c := mkConn (socket c) (has_streams c) (pipe c) (loop c) (tls c) (cond c) (delayed_close c) (close_locked c) (connected c) (closing c) (closed c) x (group c) (remote_addr_st c) (world c).
Definition with_group x c := mkConn (socket c) (has_streams c) (pipe c) (loop c) (tls c) (cond c) (delayed_close c) (close_locked c) (connected c) (closing c) (closed c) (pending c) x (remote_addr_st c) (world c).
Definition with_address x c := mkConn (socket c) (has_streams c) (pipe c) (loop c) (tls c) (cond c) (delayed_close c) (close_locked c) (connected c) (closing c) (closed c) (pending c) (group c) x (world c).
Definition with_world x c := mkConn (socket c) (has_streams c) (pipe c) (loop c) (tls c) (cond c) (delayed_close c) (close_locked c) (connected c) (closing c) (closed c) (pending c) (group c) (remote_addr_st c) x.
Definition with_socket x c := mkConn (Some x) (has_streams c) (pipe c) (loop c) (tls c) (cond c) (delayed_close c) (close_locked c) (connected c) (closing c) (closed c) (pending c) (group c) (remote_addr_st c) (world c).
Definition with_streams x c := mkConn (socket c) x (pipe c) (loop c) (tls c) (cond c) (delayed_close c) (close_locked c) (connected c) (closing c) (closed c) (pending c) (group c) (remote_addr_st c) (world c).

Definition set_input i p := mkPipe i (buf_output_stream p) (tls_output_stream p) (throt_input_stream p) (throt_output_stream p) (delays p).
Definition set_output o p := mkPipe (buf_input_stream p) o (tls_output_stream p) (throt_input_stream p) (throt_output_stream p) (delays p).
Definition set_tls_output o p := mkPipe (buf_input_stream p) (buf_output_stream p) o (throt_input_stream p) (throt_output_stream p) (delays p).
Definition set_throttles i o p := mkPipe (buf_input_stream p) (buf_output_stream p) (tls_output_stream p) i o (delays p).
Definition set_delays d p := mkPipe (buf_input_stream p) (buf_output_stream p) (tls_output_stream p) (throt_input_stream p) (throt_output_stream p) d.

Definition on_input f c : EvdConnection := with_pipe (set_input (f (buf_input_stream (pipe c))) (pipe c)) c.

Definition set_handshaking h t := mkTls h (tls_active t) (async_result t) (next_op t).
Definition set_active a t := mkTls (tls_handshaking t) a (async_result t) (next_op t).
Definition set_async a t := mkTls (tls_handshaking t) (tls_active t) a (next_op t).

(** The next answer of the stream below, and of closing a stream. *)
Definition next_write c : BufferedOutput.base_answer * EvdConnection :=
  (default BufferedOutput.WouldBlock (head (writes (world c))),
   with_world (mkOracle (tail (writes (world c))) (closes (world c)) (handshakes (world c)) (writables (world c))) c).
Definition next_close c : bool * EvdConnection :=
  (default true (head (closes (world c))),
   with_world (mkOracle (writes (world c)) (tail (closes (world c))) (handshakes (world c)) (writables (world c))) c).
Definition next_writable c : Z * EvdConnection :=
  (default 0 (head (writables (world c))),
   with_world (mkOracle (writes (world c)) (closes (world c)) (handshakes (world c)) (tail (writables (world c)))) c).
Definition session_answer c : Z * Z := default (0, 0) (head (handshakes (world c))).
Definition session_next c : EvdConnection :=
  with_world (mkOracle (writes (world c)) (closes (world c)) (tail (handshakes (world c))) (writables (world c))) c.

(** ** Sources and references *)

Definition g_object_ref l := mkLoop (sources l) (next_src l) (read_src_id l) (write_src_id l) (close_src_id l) (refs l + 1) (flushes l).
Definition g_object_unref l := mkLoop (sources l) (next_src l) (read_src_id l) (write_src_id l) (close_src_id l) (refs l - 1) (flushes l).
Definition ref c := with_loop (g_object_ref (loop c)) c.
Definition unref c := with_loop (g_object_unref (loop c)) c.

Definition src_id (k : source) l : Z :=
  match k with SrcRead => read_src_id l | SrcWrite => write_src_id l | SrcClose => close_src_id l end.
Definition set_src_id (k : source) (id : Z) l : main_loop :=
  match k with
  | SrcRead => mkLoop (sources l) (next_src l) id (write_src_id l) (close_src_id l) (refs l) (flushes l)
  | SrcWrite => mkLoop (sources l) (next_src l) (read_src_id l) id (close_src_id l) (refs l) (flushes l)
  | SrcClose => mkLoop (sources l) (next_src l) (read_src_id l) (write_src_id l) id (refs l) (flushes l)
  end.

Definition g_source_remove (id : Z) l :=
  mkLoop (filter (λ s, s.1 ≠ id) (sources l)) (next_src l) (read_src_id l) (write_src_id l) (close_src_id l) (refs l) (flushes l).

(** [evd_timeout_add], with the reference taken for it, unless the source is already there. *)
Definition arm (k : source) l : main_loop :=
  if src_id k l =? 0 then
    let l := g_object_ref l in
    set_src_id k (next_src l)
      (mkLoop (sources l ++ [(next_src l, k)]) (next_src l + 1) (read_src_id l) (write_src_id l) (close_src_id l) (refs l) (flushes l))
  else l.

Definition disarm (k : source) l : main_loop :=
  if src_id k l =? 0 then l else g_object_unref (set_src_id k 0 (g_source_remove (src_id k l) l)).

Definition evd_connection_delay_read c := with_loop (arm SrcRead (loop c)) c.
Definition evd_connection_delay_write c := with_loop (arm SrcWrite (loop c)) c.

(** ** Streams *)

Definition CLOSED c : bool := closed c.
Definition READ_PENDING c : bool := has_streams c && BufferedInput.async_result (buf_input_stream (pipe c)).

(** [g_output_stream_close]: flushes, then closes. *)
Definition close_stream (o : BufferedOutput.EvdBufferedOutputStreamPrivate) (a : BufferedOutput.base_answer)
  : BufferedOutput.EvdBufferedOutputStreamPrivate * list BufferedOutput.event :=
  let '(o, e1, _) := BufferedOutput.evd_buffered_output_stream_flush o a in
  let '(o, e2) := BufferedOutput.evd_buffered_output_stream_close o in (o, e1 ++ e2).

Definition close_tls_output c : EvdConnection * list event * bool :=
  match tls_output_stream (pipe c) with
  | None => (c, [], true)
  | Some o =>
      let '(a, c) := next_write c in
      let '(o, evs) := close_stream o a in
      let '(r, c) := next_close c in
      (with_pipe (set_tls_output (Some o) (pipe c)) c, [TlsOutputEvents evs], r)
  end.

Definition close_buf_output c : EvdConnection * list event * bool :=
  let '(a, c) := next_write c in
  let '(o, evs) := close_stream (buf_output_stream (pipe c)) a in
  let '(r, c) := next_close c in
  (with_pipe (set_output o (pipe c)) c, [OutputEvents evs], r).

Definition close_buf_input c : EvdConnection * list event * bool :=
  let '(i, evs) := BufferedInput.evd_buffered_input_stream_close (buf_input_stream (pipe c)) in
  let '(r, c) := next_close c in
  (with_pipe (set_input i (pipe c)) c, [InputEvents evs], r).

Definition set_auto_flush (v : bool) c : EvdConnection * list event :=
  let '(a, c) := next_write c in
  let '(o, evs) := BufferedOutput.evd_buffered_output_stream_set_auto_flush (buf_output_stream (pipe c)) v a in
  (with_pipe (set_output o (pipe c)) c, [OutputEvents evs]).

Definition thaw c := on_input BufferedInput.evd_buffered_input_stream_thaw c.

(** ** Groups *)

Definition on_group_changed (new_group old_group : option (nat * nat)) c : EvdConnection :=
  let p := pipe c in
  let p := match old_group with
           | Some (i, o) => set_throttles (Throttle.evd_throttled_input_stream_remove_throttle i (throt_input_stream p))
                              (Throttle.evd_throttled_output_stream_remove_throttle o (throt_output_stream p)) p
           | None => p
           end in
  let p := match new_group with
           | Some (i, o) => set_throttles (Throttle.evd_throttled_input_stream_add_throttle i (throt_input_stream p))
                              (Throttle.evd_throttled_output_stream_add_throttle o (throt_output_stream p)) p
           | None => p
           end in
  with_pipe p c.

Definition set_group (g : option (nat * nat)) c : EvdConnection :=
  if decide (g = group c) then c else on_group_changed g (group c) (with_group g c).

(** ** Closing *)

Definition end_starttls c : EvdConnection * list event :=
  match async_result (tls c) with
  | Some op => (with_tls (set_async None (tls c)) c,
                [StartTlsDone op (if tls_handshaking (tls c) then Some ErrClosed else None)])
  | None => (c, [])
  end.

(** The class method of the parent is [io_stream_on_close]. *)
Definition evd_connection_close_internal c : EvdConnection * list event * bool :=
  if closing c then (c, [], true)
  else
    let c := with_connected false (with_closing true c) in
    let c := with_loop (disarm SrcWrite (disarm SrcRead (disarm SrcClose (loop c)))) c in
    let '(c, e1) := end_starttls c in
    let c := with_tls (set_active false (set_handshaking false (tls c))) c in
    let '(c, e2, r2) := close_tls_output c in
    let c := with_pipe (set_delays false (pipe c)) c in
    let '(c, e3, r3) := close_buf_output c in
    let '(c, e4, r4) := close_buf_input c in
    let c := set_group None c in
    (with_closing false c, e1 ++ e2 ++ e3 ++ e4 ++ [SocketClose; CloseSignal], r2 && r3 && r4).

Definition g_io_stream_close c : EvdConnection * list event * bool :=
  if closed c then (c, [], true)
  else if pending c then (c, [], false)
  else
    let '(c, evs, r) := evd_connection_close_internal (with_pending true c) in
    (with_pending false (with_closed true c), evs, r).

Definition evd_connection_close_in_idle_cb c : EvdConnection * list event :=
  let c := with_loop (set_src_id SrcClose 0 (loop c)) c in
  let '(c, evs, _) := g_io_stream_close (with_pending false c) in
  (unref c, evs).

Definition evd_connection_close_in_idle c : EvdConnection :=
  let c := with_connected false c in with_loop (arm SrcClose (loop c)) c.

(** ** The socket *)

Definition evd_connection_socket_on_status_changed c (new_status : EvdSocketState) : EvdConnection * list event :=
  match new_status with
  | EVD_SOCKET_STATE_CONNECTED => set_auto_flush true (with_connected true c)
  | EVD_SOCKET_STATE_CLOSED => (if connected c then evd_connection_close_in_idle c else c, [])
  | EVD_SOCKET_STATE_OTHER => (c, [])
  end.

Definition finish_starttls (error : option starttls_error) c : EvdConnection * list event :=
  (with_tls (set_async None (set_handshaking false (tls c))) c,
   match async_result (tls c) with Some op => [StartTlsDone op error] | None => [] end).

Definition evd_connection_tls_handshake c : EvdConnection * list event :=
  let '(direction, result) := session_answer c in
  if ((direction =? G_IO_IN) && negb (read_src_id (loop c) =? 0))
     || ((direction =? G_IO_OUT) && negb (write_src_id (loop c) =? 0)) then (c, [])
  else
    let c := session_next c in
    if result =? 0 then (c, [])
    else if 0 <? result then
      let '(c, e1) := finish_starttls None c in
      let '(c, e2) := set_auto_flush true c in
      (thaw c, e1 ++ e2)
    else
      let '(c, e1) := finish_starttls (Some ErrHandshake) c in
      let '(c, e2) := evd_connection_close_in_idle_cb (ref c) in
      (c, e1 ++ e2).

Definition evd_connection_manage_read_condition c : EvdConnection * list event :=
  if tls_handshaking (tls c) then evd_connection_tls_handshake c else (thaw c, []).

Definition notify_write c : EvdConnection * list event :=
  let '(a, c) := next_write c in
  let '(o, evs) := BufferedOutput.evd_buffered_output_stream_notify_write (buf_output_stream (pipe c)) a in
  (with_pipe (set_output o (pipe c)) c, [OutputEvents evs]).

Definition notify_tls_write c : EvdConnection * list event :=
  match tls_output_stream (pipe c) with
  | None => (c, [])
  | Some o =>
      let '(a, c) := next_write c in
      let '(o, evs) := BufferedOutput.evd_buffered_output_stream_notify_write o a in
      (with_pipe (set_tls_output (Some o) (pipe c)) c, [TlsOutputEvents evs])
  end.

Definition evd_connection_get_max_readable c : EvdConnection * Z :=
  if negb (has (cond c) G_IO_IN) || negb (has_streams c) || closed c then (c, 0)
  else let '(n, c) := next_writable c in (c, n).

Definition evd_connection_get_max_writable c : EvdConnection * Z :=
  if negb (has (cond c) G_IO_OUT) || negb (has_streams c) || closed c then (c, 0)
  else let '(n, c) := next_writable c in (c, n).

Definition evd_connection_manage_write_condition c : EvdConnection * list event :=
  let '(c, e1) := if tls_handshaking (tls c) then evd_connection_tls_handshake c else notify_write c in
  let '(c, e2) := if CLOSED c then (c, []) else notify_tls_write c in
  if tls_handshaking (tls c) then (c, e1 ++ e2)
  else
    let '(c, n) := evd_connection_get_max_writable c in
    (c, e1 ++ e2 ++ if 0 <? n then [WriteSignal] else []).

Definition evd_connection_read_wait_timeout c : EvdConnection * list event :=
  let '(c, evs) :=
    if CLOSED c then (c, [])
    else
      let c := with_loop (set_src_id SrcRead 0 (loop c)) c in
      let '(c, e1) := evd_connection_manage_read_condition c in
      if delayed_close c && negb (READ_PENDING c) then
        let '(c, e2) := evd_connection_close_in_idle_cb (ref c) in (c, e1 ++ e2)
      else (c, e1) in
  (unref c, evs).

Definition evd_connection_write_wait_timeout c : EvdConnection * list event :=
  let '(c, evs) :=
    if CLOSED c then (c, [])
    else evd_connection_manage_write_condition (with_loop (set_src_id SrcWrite 0 (loop c)) c) in
  (unref c, evs).

Definition evd_connection_socket_on_condition c (condition : Z) : EvdConnection * list event :=
  if CLOSED c then (c, [])
  else
    let c := with_cond condition c in
    let '(c, e1) :=
      if has condition G_IO_IN && (read_src_id (loop c) =? 0)
      then evd_connection_manage_read_condition c else (c, []) in
    if has condition G_IO_HUP then
      (if close_locked c || negb (read_src_id (loop c) =? 0) || READ_PENDING c
       then with_delayed true c else evd_connection_close_in_idle c, e1)
    else if has condition G_IO_OUT && (write_src_id (loop c) =? 0) then
      let '(c, e2) := evd_connection_manage_write_condition c in (c, e1 ++ e2)
    else (c, e1).

Definition evd_connection_socket_input_stream_drained c : EvdConnection * list event :=
  if CLOSED c then (c, [])
  else if delayed_close c && negb (close_locked c) then (evd_connection_close_in_idle c, [])
  else let c := with_cond (Z.ldiff (cond c) G_IO_IN) c in (c, [Watch (Z.lnot (cond c))]).

Definition evd_connection_socket_output_stream_filled c : EvdConnection * list event :=
  if CLOSED c then (c, [])
  else let c := with_cond (Z.ldiff (cond c) G_IO_OUT) c in (c, [Watch (Z.lnot (cond c))]).

(** ** Building *)

(** The throttles of the connection itself. *)
Definition input_throttle : nat := 0.
Definition output_throttle : nat := 1.

Definition new_input : BufferedInput.EvdBufferedInputStreamPrivate := BufferedInput.evd_buffered_input_stream_init 4096.
Definition new_output : BufferedOutput.EvdBufferedOutputStreamPrivate := BufferedOutput.evd_buffered_output_stream_init.

(** [status] is whether the socket is connected. *)
Definition evd_connection_setup_streams (status : bool) c : EvdConnection * list event :=
  let i := Throttle.evd_throttled_input_stream_add_throttle input_throttle [] in
  let o := Throttle.evd_throttled_output_stream_add_throttle output_throttle [] in
  let '(i, o) := match group c with
                 | Some (gi, go) => (Throttle.evd_throttled_input_stream_add_throttle gi i,
                                     Throttle.evd_throttled_output_stream_add_throttle go o)
                 | None => (i, o)
                 end in
  let input := if status then new_input else BufferedInput.evd_buffered_input_stream_freeze new_input in
  let c := with_streams true (with_pipe (mkPipe input new_output (tls_output_stream (pipe c)) i o true) c) in
  set_auto_flush status (with_connected status c).

Definition evd_connection_teardown_streams c : EvdConnection :=
  with_pipe (set_tls_output None (pipe c)) c.

(** What the connection asks of a socket it is given. *)
Record socket_view := mkView {
  view_id : nat;
  view_connected : bool;
  view_condition : Z;
  view_address : option (list Z)
}.

Definition evd_connection_get_remote_address_as_string c (address : option (list Z)) : option (list Z) :=
  match remote_addr_st c with Some a => Some a | None => address end.

(** [None]: the assertion on the type of the TLS output stream fails, or the cached address is read
    after it was freed. *)
Definition evd_connection_set_socket c (s : socket_view) : option (EvdConnection * list event) :=
  if decide (socket c = Some (view_id s)) then Some (c, [])
  else
    let c := with_socket (view_id s) c in
    if tls_active (tls c) then None
    else
      let '(c, e1) :=
        if negb (has_streams c) then evd_connection_setup_streams (view_connected s) c
        else if closed c then
          let '(c, e) := evd_connection_setup_streams (view_connected s) (evd_connection_teardown_streams c) in
          (with_closed false c, e)
        else (c, []) in
      let '(c, e2) := evd_connection_socket_on_condition c (view_condition s) in
      match remote_addr_st c with
      | Some _ => None
      | None => Some (with_address (evd_connection_get_remote_address_as_string c (view_address s)) c, e1 ++ e2)
      end.

Definition evd_connection_init (w : oracle) : EvdConnection :=
  mkConn None false (mkPipe new_input new_output None [] [] false)
    (mkLoop [] 1 0 0 0 0 0) (mkTls false false None 0) 0 false false false false false false None None w.

Definition evd_connection_new (w : oracle) (s : socket_view) : option (EvdConnection * list event) :=
  evd_connection_set_socket (evd_connection_init w) s.

(** ** TLS *)

(** [None]: one of the assertions on the TLS streams fails. *)
Definition evd_connection_starttls c (mode : EvdTlsMode) : option (EvdConnection * list event) :=
  let op := next_op (tls c) in
  let c := with_tls (mkTls (tls_handshaking (tls c)) (tls_active (tls c)) (async_result (tls c)) (S op)) c in
  if negb (connected c) then Some (c, [StartTlsDone op (Some ErrClosed)])
  else if tls_active (tls c) then Some (c, [StartTlsDone op (Some ErrBusy)])
  else
    let c := with_tls (set_active true (set_async (Some op) (tls c))) c in
    match tls_output_stream (pipe c) with
    | Some _ => None
    | None =>
        (* the buffered output stream that is dropped flushes what it can *)
        let '(a, c) := next_write c in
        let '(_, evs) := close_stream (buf_output_stream (pipe c)) a in
        let p := mkPipe (BufferedInput.evd_buffered_input_stream_freeze new_input)
                   (BufferedOutput.evd_buffered_output_stream_set_auto_flush new_output false BufferedOutput.WouldBlock).1
                   (Some new_output) (throt_input_stream (pipe c)) (throt_output_stream (pipe c)) (delays (pipe c)) in
        let c := with_tls (set_handshaking true (tls c)) (with_pipe p c) in
        match mode with
        | EVD_TLS_MODE_CLIENT =>
            if has (cond c) G_IO_OUT then
              let '(c, e) := evd_connection_tls_handshake c in Some (c, OutputEvents evs :: e)
            else Some (c, [OutputEvents evs])
        | EVD_TLS_MODE_SERVER => Some (c, [OutputEvents evs])
        end
    end.

(** ** Locking and shutting down *)

Definition evd_connection_lock_close c : EvdConnection := with_locked true c.
Definition evd_connection_unlock_close c : EvdConnection :=
  let c := with_locked false c in if delayed_close c then evd_connection_close_in_idle c else c.

Definition add_flush l := mkLoop (sources l) (next_src l) (read_src_id l) (write_src_id l) (close_src_id l) (refs l) (S (flushes l)).
Definition end_flush l := mkLoop (sources l) (next_src l) (read_src_id l) (write_src_id l) (close_src_id l) (refs l) (pred (flushes l)).

Definition evd_connection_flush_and_shutdown c : EvdConnection * list event :=
  let c := with_loop (add_flush (g_object_ref (loop c))) c in
  let '(a, c) := next_write c in
  let '(o, evs) := BufferedOutput.evd_buffered_output_stream_flush_async (buf_output_stream (pipe c)) a in
  (with_pipe (set_output o (pipe c)) c, [OutputEvents evs]).

Definition evd_connection_shutdown_on_flush c : EvdConnection * list event :=
  (with_loop (end_flush (g_object_unref (loop c))) c,
   (if tls_active (tls c) then [TlsClose] else []) ++ [SocketShutdown]).

(** ** The main loop *)

(** The callback of a source. *)
Definition run_source (k : source) c : EvdConnection * list event :=
  match k with
  | SrcRead => evd_connection_read_wait_timeout c
  | SrcWrite => evd_connection_write_wait_timeout c
  | SrcClose => evd_connection_close_in_idle_cb c
  end.

Definition fire (id : Z) c : option (EvdConnection * list event) :=
  match list_find (λ s, s.1 = id) (sources (loop c)) with
  | Some (_, (_, k)) => Some (run_source k (with_loop (g_source_remove id (loop c)) c))
  | None => None
  end.

End Connection.
