(* ===== verification/ConnectionSpec.v ===== *)
(** * Connections: theorems

    Every operation of a connection is looked at through one relation, [evolves], that composes: what
    becomes of the sources and references, of the TLS handshake and its pending result, and of a
    connection that is due to close. *)
From S2P Require Import Prelude Throttle BufferedOutput BufferedInput Connection.
Import Connection.

Module ConnectionSpec.

Create HintDb conn.

(** ** Sources and references *)

(** The identifiers are distinct; one that the connection remembers is that of a source of its kind;
    the references are those of the sources, those of the flushes under way, and [n] more. *)
Record loop_ok (n : Z) (l : main_loop) : Prop := mkLoopOk {
  loop_nodup : NoDup (fst <$> sources l);
  loop_range : Forall (λ s, 0 < s.1 < next_src l) (sources l);
  loop_next : 0 < next_src l;
  loop_ids : ∀ k, src_id k l ≠ 0 → (src_id k l, k) ∈ sources l;
  loop_refs : refs l = Z.of_nat (length (sources l)) + Z.of_nat (flushes l) + n
}.

Lemma loop_ok_ref n l : loop_ok (n - 1) l → loop_ok n (g_object_ref l).
Proof. intros []. split; try done. simpl. lia. Qed.

Lemma loop_ok_unref n l : loop_ok (n + 1) l → loop_ok n (g_object_unref l).
Proof. intros []. split; try done. simpl. lia. Qed.

Lemma src_id_set k k' id l : src_id k (set_src_id k' id l) = if decide (k = k') then id else src_id k l.
Proof. by destruct k, k'. Qed.

Lemma set_src_id_same k id l :
  sources (set_src_id k id l) = sources l ∧ next_src (set_src_id k id l) = next_src l ∧
  refs (set_src_id k id l) = refs l ∧ flushes (set_src_id k id l) = flushes l.
Proof. by destruct k. Qed.

Lemma loop_ok_forget n k l : loop_ok n l → loop_ok n (set_src_id k 0 l).
Proof.
  intros [H1 H2 H3 H4 H5]. destruct (set_src_id_same k 0 l) as (E1 & E2 & E3 & E4).
  split; rewrite ?E1, ?E2, ?E3, ?E4; try done. intros k'. rewrite src_id_set. case_decide; [done|apply H4].
Qed.

Lemma loop_ok_arm n k l : loop_ok n l → loop_ok n (arm k l).
Proof.
  intros [H1 H2 H3 H4 H5]. unfold arm. destruct (Z.eqb_spec (src_id k l) 0) as [E|E]; [|done].
  set (l' := mkLoop _ _ _ _ _ _ _). destruct (set_src_id_same k (next_src (g_object_ref l)) l') as (E1 & E2 & E3 & E4).
  split; rewrite ?E1, ?E2, ?E3, ?E4; cbn [sources next_src refs flushes l' g_object_ref].
  - rewrite fmap_app. apply NoDup_app. split_and!; [done| |apply NoDup_singleton].
    intros x (s & -> & Hs)%list_elem_of_fmap Hx%list_elem_of_singleton.
    rewrite Forall_forall in H2. apply H2 in Hs. simpl in *. lia.
  - apply Forall_app. split; [|by repeat constructor; simpl; lia].
    eapply Forall_impl; [exact H2|]. simpl. lia.
  - lia.
  - intros k'. rewrite src_id_set. case_decide as Hk; [intros _; subst k'|intros Hk'; apply elem_of_app; left].
    + apply elem_of_app. right. by apply list_elem_of_singleton.
    + apply H4. by destruct k'.
  - rewrite length_app. simpl. lia.
Qed.

Lemma remove_absent (id : Z) (ss : list (Z * source)) : id ∉ fst <$> ss → filter (λ s, s.1 ≠ id) ss = ss.
Proof.
  induction ss as [|s ss IH]; [done|]. cbn [fmap list_fmap]. rewrite not_elem_of_cons. intros [Hs Hin].
  rewrite filter_cons_True by congruence. by rewrite (IH Hin).
Qed.

Lemma remove_length (id : Z) (k : source) (ss : list (Z * source)) :
  NoDup (fst <$> ss) → (id, k) ∈ ss → length ss = S (length (filter (λ s, s.1 ≠ id) ss)).
Proof.
  induction ss as [|s ss IH]; [by intros _ ?%not_elem_of_nil|]. cbn [fmap list_fmap]. intros [Hs Hnd]%NoDup_cons.
  intros [<-|Hin]%elem_of_cons.
  - rewrite filter_cons_False by (simpl; tauto). by rewrite (remove_absent id ss Hs).
  - rewrite filter_cons_True; [simpl; by rewrite (IH Hnd Hin)|]. intros Heq. apply Hs. rewrite Heq.
    change id with ((id, k).1). by apply list_elem_of_fmap_2.
Qed.

Lemma source_unique (ss : list (Z * source)) id k k' : NoDup (fst <$> ss) → (id, k) ∈ ss → (id, k') ∈ ss → k = k'.
Proof.
  induction ss as [|s ss IH]; [by intros _ ?%not_elem_of_nil|]. cbn [fmap list_fmap]. intros [Hs Hnd]%NoDup_cons.
  assert (∀ k, (id, k) ∈ ss → s.1 ≠ id) as Hne.
  { intros k0 Hk Heq. apply Hs. rewrite Heq. change id with ((id, k0).1). by apply list_elem_of_fmap_2. }
  intros [E1|H1]%elem_of_cons [E2|H2]%elem_of_cons; [congruence| | |by apply IH].
  - by destruct (Hne k' H2); subst s.
  - by destruct (Hne k H1); subst s.
Qed.

(** A source leaves the main loop and is forgotten; its reference is still there. *)
Lemma loop_ok_remove n id k l :
  loop_ok n l → (id, k) ∈ sources l → loop_ok (n + 1) (set_src_id k 0 (g_source_remove id l)).
Proof.
  intros [H1 H2 H3 H4 H5] Hin. destruct (set_src_id_same k 0 (g_source_remove id l)) as (E1 & E2 & E3 & E4).
  split; rewrite ?E1, ?E2, ?E3, ?E4; cbn [sources next_src refs flushes g_source_remove].
  - apply (sublist_NoDup _ (fst <$> sources l)); [done|]. apply fmap_sublist, sublist_filter.
  - apply Forall_forall. intros s [_ Hs]%list_elem_of_filter. by apply (proj1 (Forall_forall _ _) H2).
  - done.
  - intros k'. rewrite src_id_set. case_decide as Hk; [done|]. intros Hne.
    assert (src_id k' (g_source_remove id l) = src_id k' l) as E by (by destruct k'). rewrite E in *.
    apply list_elem_of_filter. split; [|by apply H4]. simpl. intros Heq. apply Hk.
    apply (source_unique (sources l) id); [done| |done]. rewrite <-Heq. by apply H4.
  - rewrite H5, (remove_length id k (sources l)) by done. lia.
Qed.

Lemma loop_ok_disarm n k l : loop_ok n l → loop_ok n (disarm k l).
Proof.
  intros Hl. unfold disarm. destruct (Z.eqb_spec (src_id k l) 0) as [|Hne]; [done|].
  apply loop_ok_unref, loop_ok_remove; [done|]. by apply Hl.
Qed.

Lemma loop_ok_flush n l : loop_ok n l → loop_ok n (add_flush (g_object_ref l)).
Proof. intros []. split; try done. simpl. lia. Qed.

Lemma loop_ok_flushed n l : (0 < flushes l)%nat → loop_ok n l → loop_ok n (end_flush (g_object_unref l)).
Proof. intros Hf []. split; try done. simpl. lia. Qed.

#[local] Hint Resolve loop_ok_forget loop_ok_arm loop_ok_disarm loop_ok_flush : conn.

(** ** What an operation does *)

Definition done_of (o : nat) (e : event) : bool :=
  match e with StartTlsDone o' _ => bool_decide (o' = o) | _ => false end.
Definition done_count (o : nat) (evs : list event) : nat := length (filter (λ e, done_of o e = true) evs).
Definition outstanding (o : nat) (c : EvdConnection) : nat := if decide (async_result (tls c) = Some o) then 1 else 0.

Lemma done_count_app o e1 e2 : (done_count o (e1 ++ e2) = done_count o e1 + done_count o e2)%nat.
Proof. unfold done_count. by rewrite filter_app, length_app. Qed.

Lemma done_count_one o op e : done_count o [StartTlsDone op e] = if decide (Some op = Some o) then 1%nat else 0%nat.
Proof.
  unfold done_count. destruct (decide (op = o)) as [->|Hne].
  - rewrite filter_cons_True by (simpl; by apply bool_decide_eq_true_2). by rewrite decide_True.
  - rewrite filter_cons_False by (simpl; by rewrite bool_decide_eq_false_2). by rewrite decide_False by congruence.
Qed.

Record conn_inv (c : EvdConnection) : Prop := mkConnInv {
  inv_async : tls_handshaking (tls c) = true ↔ is_Some (async_result (tls c));
  inv_held : tls_handshaking (tls c) = true →
    tls_active (tls c) = true ∧ BufferedInput.frozen (buf_input_stream (pipe c)) = true ∧
    BufferedOutput.auto_flush (buf_output_stream (pipe c)) = false;
  inv_streams : tls_active (tls c) = true → is_Some (tls_output_stream (pipe c));
  inv_op : ∀ o, async_result (tls c) = Some o → (o < next_op (tls c))%nat;
  inv_closing : closing c = false;
  inv_has : has_streams c = true;
  inv_closed : closed c = true →
    tls_active (tls c) = false ∧ read_src_id (loop c) = 0 ∧ write_src_id (loop c) = 0 ∧ delays (pipe c) = false ∧
    connected c = false
}.

(** A connection that is closed, or that will be: the socket has hung up and the connection remembers
    it, or a source that closes it is in the main loop. *)
Definition fate (c c' : EvdConnection) : Prop :=
  closed c' = true ∨
  closed c' = closed c ∧ (delayed_close c = true → delayed_close c' = true) ∧
  ∀ id, (id, SrcClose) ∈ sources (loop c) → (id, SrcClose) ∈ sources (loop c').

(** [d] references are dropped. *)
Record evolves (d : Z) (c : EvdConnection) (evs : list event) (c' : EvdConnection) : Prop := mkEvolves {
  ev_loop : ∀ n, loop_ok (n + d) (loop c) → loop_ok n (loop c');
  ev_done : ∀ o, (done_count o evs + outstanding o c' = outstanding o c)%nat;
  ev_next : next_op (tls c') = next_op (tls c);
  ev_inv : conn_inv c → conn_inv c';
  ev_fate : fate c c'
}.

Lemma fate_trans c1 c2 c3 : fate c1 c2 → fate c2 c3 → fate c1 c3.
Proof.
  intros H12 [H3|(E3 & D3 & S3)]; [by left|]. destruct H12 as [H2|(E2 & D2 & S2)]; [left; congruence|].
  right. split_and!; [congruence|auto|auto].
Qed.

Lemma evolves_trans d1 d2 d c1 e1 c2 e2 c3 :
  evolves d1 c1 e1 c2 → evolves d2 c2 e2 c3 → d = d1 + d2 → evolves d c1 (e1 ++ e2) c3.
Proof.
  intros [L1 D1 N1 I1 F1] [L2 D2 N2 I2 F2] ->. split.
  - intros n Hn. apply L2, L1. by replace (n + d2 + d1) with (n + (d1 + d2)) by lia.
  - intros o. rewrite done_count_app, <-D1, <-(D2 o). lia.
  - congruence.
  - auto.
  - by eapply fate_trans.
Qed.

(** Two steps of which the first, or the second, makes no events. *)
Lemma evolves_after d1 d2 c1 c2 evs c3 : evolves d1 c1 [] c2 → evolves d2 c2 evs c3 → evolves (d1 + d2) c1 evs c3.
Proof. intros H1 H2. exact (evolves_trans _ _ _ _ [] _ _ _ H1 H2 eq_refl). Qed.

Lemma evolves_before d1 d2 c1 c2 evs c3 : evolves d1 c1 evs c2 → evolves d2 c2 [] c3 → evolves (d1 + d2) c1 evs c3.
Proof. intros H1 H2. rewrite <-(app_nil_r evs). by eapply evolves_trans. Qed.

(** The input stays frozen and the output held while the handshake, [h], goes on. *)
Definition pipe_le (h : bool) (p p' : pipeline) : Prop :=
  (h = true → BufferedInput.frozen (buf_input_stream p) = true → BufferedInput.frozen (buf_input_stream p') = true) ∧
  (h = true → BufferedOutput.auto_flush (buf_output_stream p) = false → BufferedOutput.auto_flush (buf_output_stream p') = false) ∧
  (is_Some (tls_output_stream p) → is_Some (tls_output_stream p')) ∧
  (delays p = false → delays p' = false).

Lemma pipe_le_refl h p : pipe_le h p p.
Proof. by split_and!. Qed.

Definition no_done (evs : list event) : Prop := ∀ o, done_count o evs = 0%nat.

Lemma no_done_nil : no_done [].
Proof. done. Qed.

Lemma no_done_app e1 e2 : no_done e1 → no_done e2 → no_done (e1 ++ e2).
Proof. intros H1 H2 o. by rewrite done_count_app, H1, H2. Qed.

(** A change of the flags and of the pipeline. *)
Lemma evolves_flags c c' evs :
  loop c' = loop c → tls c' = tls c → closed c' = closed c → closing c' = closing c → has_streams c' = has_streams c →
  (closed c = true → connected c = false → connected c' = false) →
  (delayed_close c = true → delayed_close c' = true) → pipe_le (tls_handshaking (tls c)) (pipe c) (pipe c') →
  no_done evs → evolves 0 c evs c'.
Proof.
  intros El Et Ec Eg Es En Hd (Hf & Ha & Hs & Hq) Hn. split.
  - intros n. by rewrite El, Z.add_0_r.
  - intros o. unfold outstanding. by rewrite Hn, Et.
  - by rewrite Et.
  - intros [I1 I2 I3 I4 I5 IS I6]. split; rewrite ?Et, ?Ec, ?Eg, ?El, ?Es; auto.
    + intros Hh. destruct (I2 Hh) as (? & ? & ?). auto.
    + intros Hc. destruct (I6 Hc) as (? & ? & ? & ? & ?). split_and!; auto.
  - right. rewrite El. auto.
Qed.

(** A change of the main loop. *)
Lemma evolves_loop d c l :
  (∀ n, loop_ok (n + d) (loop c) → loop_ok n l) →
  (∀ id, (id, SrcClose) ∈ sources (loop c) → (id, SrcClose) ∈ sources l) →
  (closed c = true → read_src_id (loop c) = 0 → read_src_id l = 0) →
  (closed c = true → write_src_id (loop c) = 0 → write_src_id l = 0) →
  evolves d c [] (with_loop l c).
Proof.
  intros Hl Hs Hr Hw. split; try done.
  - intros [I1 I2 I3 I4 I5 IS I6]. split; try done. intros Hc. destruct (I6 Hc) as (? & ? & ? & ? & ?).
    cbn [loop with_loop tls pipe connected]. split_and!; auto.
  - right. auto.
Qed.

Lemma evolves_refl c : evolves 0 c [] c.
Proof. by apply evolves_flags; try apply pipe_le_refl; try apply no_done_nil. Qed.

Lemma evolves_unref c : evolves 1 c [] (unref c).
Proof. apply evolves_loop; try done. intros n. apply loop_ok_unref. Qed.

Lemma evolves_run d c (r : EvdConnection * list event) :
  evolves d c r.2 r.1 → ∃ c' evs, r = (c', evs) ∧ evolves d c evs c'.
Proof. destruct r as [c' evs]. eauto. Qed.

Lemma evolves_ref c : evolves (-1) c [] (ref c).
Proof. apply evolves_loop; try done. intros n. apply loop_ok_ref. Qed.

Lemma evolves_forget c k : evolves 0 c [] (with_loop (set_src_id k 0 (loop c)) c).
Proof.
  apply evolves_loop; try by destruct k. intros n. rewrite Z.add_0_r. apply loop_ok_forget.
Qed.

Lemma arm_sources k l s : s ∈ sources l → s ∈ sources (arm k l).
Proof.
  unfold arm. destruct (src_id k l =? 0); [|done]. intros Hs. set (l' := mkLoop _ _ _ _ _ _ _).
  destruct (set_src_id_same k (next_src (g_object_ref l)) l') as (-> & _). apply elem_of_app. by left.
Qed.

Lemma evolves_close_in_idle c : evolves 0 c [] (evd_connection_close_in_idle c).
Proof.
  unfold evd_connection_close_in_idle. change 0 with (0 + 0). eapply evolves_after.
  - apply (evolves_flags c (with_connected false c)); done || apply pipe_le_refl || apply no_done_nil.
  - apply evolves_loop.
    + intros n. rewrite Z.add_0_r. apply loop_ok_arm.
    + intros id. apply arm_sources.
    + intros _ E. unfold arm. by destruct (_ =? 0).
    + intros _ E. unfold arm. by destruct (_ =? 0).
Qed.

(** ** Closing *)

(** Only the streams change, and none of the delay signals. *)
Record calm (c : EvdConnection) (evs : list event) (c' : EvdConnection) : Prop := mkCalm {
  calm_loop : loop c' = loop c;
  calm_tls : tls c' = tls c;
  calm_closed : closed c' = closed c;
  calm_closing : closing c' = closing c;
  calm_pending : pending c' = pending c;
  calm_streams : has_streams c' = has_streams c;
  calm_connected : connected c' = connected c;
  calm_delayed : delayed_close c' = delayed_close c;
  calm_delays : delays (pipe c') = delays (pipe c);
  calm_done : no_done evs
}.

Lemma calm_trans c1 e1 c2 e2 c3 : calm c1 e1 c2 → calm c2 e2 c3 → calm c1 (e1 ++ e2) c3.
Proof. intros [] []. split; try congruence. by apply no_done_app. Qed.

Lemma calm_refl c : calm c [] c.
Proof. by split. Qed.

Lemma close_tls_output_calm c c' evs r : close_tls_output c = (c', evs, r) → calm c evs c'.
Proof.
  unfold close_tls_output. destruct (tls_output_stream (pipe c)) as [o|]; [|intros [= <- <- _]; apply calm_refl].
  unfold next_write, next_close. destruct (close_stream o _) as [o' e]. intros [= <- <- _]. by split.
Qed.

Lemma close_buf_output_calm c c' evs r : close_buf_output c = (c', evs, r) → calm c evs c'.
Proof.
  unfold close_buf_output, next_write, next_close. destruct (close_stream _ _) as [o' e]. intros [= <- <- _]. by split.
Qed.

Lemma close_buf_input_calm c c' evs r : close_buf_input c = (c', evs, r) → calm c evs c'.
Proof.
  unfold close_buf_input, next_close. destruct (BufferedInput.evd_buffered_input_stream_close _) as [i' e].
  intros [= <- <- _]. by split.
Qed.

Lemma set_group_calm g c : calm c [] (set_group g c).
Proof.
  unfold set_group. case_decide; [apply calm_refl|]. unfold on_group_changed.
  destruct (group c) as [[]|], g as [[]|]; by split.
Qed.

Lemma close_internal_spec c c' evs r :
  closing c = false → evd_connection_close_internal c = (c', evs, r) →
  loop c' = disarm SrcWrite (disarm SrcRead (disarm SrcClose (loop c))) ∧
  tls c' = mkTls false false None (next_op (tls c)) ∧ closing c' = false ∧ pending c' = pending c ∧
  has_streams c' = has_streams c ∧ connected c' = false ∧ delays (pipe c') = false ∧
  ∀ o, done_count o evs = outstanding o c.
Proof.
  intros Hc. unfold evd_connection_close_internal. rewrite Hc. set (c0 := with_loop _ _).
  destruct (end_starttls c0) as [c1 e1] eqn:E1.
  assert (loop c1 = loop c0 ∧ tls c1 = set_async None (tls c0) ∧ closing c1 = true ∧ pending c1 = pending c ∧ has_streams c1 = has_streams c ∧ connected c1 = false ∧
          ∀ o, done_count o e1 = outstanding o c) as (L1 & T1 & G1 & P1 & S1 & C1 & D1).
  { unfold end_starttls in E1. destruct (async_result (tls c0)) as [op|] eqn:Ea; injection E1 as <- <-.
    - split_and!; try done. intros o. unfold outstanding.
      change (async_result (tls c)) with (async_result (tls c0)). by rewrite Ea, done_count_one.
    - split_and!; try done; [by destruct (tls c0); simpl in *; subst|]. intros o. unfold outstanding.
      change (async_result (tls c)) with (async_result (tls c0)). by rewrite Ea. }
  set (c2 := with_tls _ c1). destruct (close_tls_output c2) as [[c3 e2] r2] eqn:E2. apply close_tls_output_calm in E2.
  set (c4 := with_pipe _ c3). destruct (close_buf_output c4) as [[c5 e3] r3] eqn:E3. apply close_buf_output_calm in E3.
  destruct (close_buf_input c5) as [[c6 e4] r4] eqn:E4. apply close_buf_input_calm in E4.
  pose proof (calm_trans _ _ _ _ _ E3 E4) as E34. pose proof (set_group_calm None c6) as E5.
  pose proof (calm_trans _ _ _ _ _ E34 E5) as [L7 T7 _ G7 P7 S7 C7 _ Q7 D7]. destruct E2 as [L3 T3 _ G3 P3 S3 C3 _ _ D3].
  intros [= <- <- _]. cbn [loop tls closing pending pipe has_streams connected with_closing]. split_and!.
  - rewrite L7. change (loop c4) with (loop c3). rewrite L3. exact L1.
  - rewrite T7. change (tls c4) with (tls c3). rewrite T3. unfold c2. cbn [tls with_tls]. by rewrite T1.
  - done.
  - rewrite P7. change (pending c4) with (pending c3). rewrite P3. exact P1.
  - rewrite S7. change (has_streams c4) with (has_streams c3). rewrite S3. exact S1.
  - rewrite C7. change (connected c4) with (connected c3). rewrite C3. exact C1.
  - by rewrite Q7.
  - intros o. rewrite !done_count_app, D1, D3. rewrite app_nil_r in D7. specialize (D7 o).
    rewrite done_count_app in D7. change (done_count o [SocketClose; CloseSignal]) with 0%nat. lia.
Qed.

Lemma disarm_forgets k l : src_id k (disarm k l) = 0.
Proof. unfold disarm. destruct (Z.eqb_spec (src_id k l) 0) as [|]; [done|]. by destruct k. Qed.

Lemma disarm_other k k' l : k ≠ k' → src_id k (disarm k' l) = src_id k l.
Proof. intros Hk. unfold disarm. case_match; [done|]. by destruct k, k'. Qed.

Lemma g_io_stream_close_evolves c : pending c = false → ∃ c' evs r,
  g_io_stream_close c = (c', evs, r) ∧ evolves 0 c evs c' ∧ (closing c = false → closed c' = true).
Proof.
  intros Hp. unfold g_io_stream_close. destruct (closed c) eqn:Ec.
  { exists c, [], true. split_and!; [done|apply evolves_refl|done]. }
  rewrite Hp. destruct (closing c) eqn:Eg.
  { unfold evd_connection_close_internal. cbn [closing with_pending]. rewrite Eg. eexists _, _, _. split; [done|].
    split; [|done]. split; try done.
    - intros n. by rewrite Z.add_0_r.
    - intros [I1 I2 I3 I4 I5 IS I6]. congruence.
    - by left. }
  destruct (evd_connection_close_internal (with_pending true c)) as [[c1 evs] r] eqn:E.
  destruct (close_internal_spec (with_pending true c) _ _ _ Eg E) as (L & T & G & P & S & C & Q & D). exists (with_pending false (with_closed true c1)), evs, r.
  split_and!; [done| |done]. split.
  - intros n. rewrite Z.add_0_r. cbn [loop with_pending with_closed]. rewrite L. auto with conn.
  - intros o. rewrite D. unfold outstanding. cbn [tls with_pending with_closed]. rewrite T. apply Nat.add_0_r.
  - cbn [tls with_pending with_closed]. by rewrite T.
  - intros [_ _ _ _ _ IS _]. split; cbn [tls with_pending with_closed closing closed pipe loop has_streams connected]; rewrite ?T, ?L, ?S; simpl; try done.
    intros _. split_and!; [done| |exact (disarm_forgets SrcWrite _)|done|done].
    pose proof (disarm_other SrcRead SrcWrite (disarm SrcRead (disarm SrcClose (loop c))) ltac:(done)) as Hr.
    rewrite disarm_forgets in Hr. exact Hr.
  - by left.
Qed.

Lemma close_in_idle_cb_evolves c :
  ∃ c' evs, evd_connection_close_in_idle_cb c = (c', evs) ∧ evolves 1 c evs c' ∧ (closing c = false → closed c' = true).
Proof.
  unfold evd_connection_close_in_idle_cb. set (c1 := with_pending false _).
  destruct (g_io_stream_close_evolves c1 eq_refl) as (c2 & evs & r & -> & He & Hc).
  exists (unref c2), evs. split_and!; [done| |done]. change 1 with (0 + 1). eapply evolves_before; [|apply evolves_unref].
  change 0 with (0 + 0). eapply evolves_after; [|exact He]. change 0 with (0 + 0). eapply evolves_after; [apply (evolves_forget c SrcClose)|].
  apply evolves_flags; done || apply pipe_le_refl || apply no_done_nil.
Qed.

(** ** Handshakes *)

Lemma finish_starttls_evolves e c :
  evolves 0 c (finish_starttls e c).2 (finish_starttls e c).1 ∧ tls_handshaking (tls (finish_starttls e c).1) = false.
Proof.
  split; [|done]. split; try done.
  - intros n. by rewrite Z.add_0_r.
  - intros o. unfold finish_starttls, outstanding at 1. cbn [fst snd tls with_tls async_result set_async set_handshaking].
    unfold outstanding. destruct (async_result (tls c)); [by rewrite done_count_one, Nat.add_0_r|done].
  - intros [I1 I2 I3 I4 I5 IS I6]. split; try done. split; [done|by intros [? ?]].
  - right. done.
Qed.

Lemma flush_keeps o a : BufferedOutput.auto_flush (BufferedOutput.evd_buffered_output_stream_flush o a).1.1 = BufferedOutput.auto_flush o.
Proof. unfold BufferedOutput.evd_buffered_output_stream_flush. repeat case_match; done. Qed.

Lemma notify_keeps o a : BufferedOutput.auto_flush (BufferedOutput.evd_buffered_output_stream_notify_write o a).1 = BufferedOutput.auto_flush o.
Proof.
  unfold BufferedOutput.evd_buffered_output_stream_notify_write. case_match; [|done].
  pose proof (flush_keeps o a). by destruct (BufferedOutput.evd_buffered_output_stream_flush o a) as [[]].
Qed.

Lemma auto_flush_set o v a : BufferedOutput.auto_flush (BufferedOutput.evd_buffered_output_stream_set_auto_flush o v a).1 = v.
Proof.
  unfold BufferedOutput.evd_buffered_output_stream_set_auto_flush. cbn [BufferedOutput.auto_flush].
  destruct v; [by rewrite notify_keeps|done].
Qed.

Lemma set_auto_flush_evolves v c : (tls_handshaking (tls c) = true → v = false) →
  evolves 0 c (set_auto_flush v c).2 (set_auto_flush v c).1.
Proof.
  intros Hv. unfold set_auto_flush. destruct (next_write c) as [a c1] eqn:En. unfold next_write in En. injection En as <- <-.
  set (c1 := with_world _ c). pose proof (auto_flush_set (buf_output_stream (pipe c1)) v (default BufferedOutput.WouldBlock (head (writes (world c))))) as Ho.
  destruct (BufferedOutput.evd_buffered_output_stream_set_auto_flush _ _ _) as [o' e]. cbn [fst snd] in *.
  apply evolves_flags; try done. split_and!; try done. cbn [pipe with_pipe set_output buf_output_stream].
  intros Hh _. by rewrite Ho, Hv.
Qed.

Lemma thaw_evolves c : tls_handshaking (tls c) = false → evolves 0 c [] (thaw c).
Proof. intros Hh. apply evolves_flags; try done. rewrite Hh. by split_and!. Qed.

Lemma tls_handshake_evolves c :
  evolves 0 c (evd_connection_tls_handshake c).2 (evd_connection_tls_handshake c).1.
Proof.
  unfold evd_connection_tls_handshake. destruct (session_answer c) as [dir result].
  case_match; [apply evolves_refl|].
  assert (evolves 0 c [] (session_next c)) as Hs by (apply evolves_flags; done || apply pipe_le_refl || apply no_done_nil).
  case_match; [exact Hs|]. case_match.
  - destruct (finish_starttls_evolves None (session_next c)) as [Hf Hh].
    destruct (finish_starttls None (session_next c)) as [c1 e1]. cbn [fst snd] in *.
    pose proof (set_auto_flush_evolves true c1 ltac:(congruence)) as Ha.
    assert (tls_handshaking (tls (set_auto_flush true c1).1) = false) as Hh1.
    { unfold set_auto_flush, next_write. by destruct (BufferedOutput.evd_buffered_output_stream_set_auto_flush _ _ _). }
    destruct (set_auto_flush true c1) as [c2 e2]. cbn [fst snd] in *.
    eapply (evolves_after 0 0); [exact Hs|]. eapply (evolves_trans 0 0 0); [exact Hf| |done].
    eapply (evolves_before 0 0); [exact Ha|by apply thaw_evolves].
  - destruct (finish_starttls_evolves (Some ErrHandshake) (session_next c)) as [Hf _].
    destruct (finish_starttls (Some ErrHandshake) (session_next c)) as [c1 e1]. cbn [fst snd] in *.
    destruct (close_in_idle_cb_evolves (ref c1)) as (c2 & e2 & -> & Hc & _). cbn [fst snd].
    eapply (evolves_after 0 0); [exact Hs|]. eapply (evolves_trans 0 0 0); [exact Hf| |done].
    eapply (evolves_after (-1) 1); [apply evolves_ref|exact Hc].
Qed.

(** ** Conditions of the socket *)

Ltac flags := apply evolves_flags; done || apply pipe_le_refl || apply no_done_nil || idtac.

Lemma manage_read_evolves c :
  evolves 0 c (evd_connection_manage_read_condition c).2 (evd_connection_manage_read_condition c).1.
Proof.
  unfold evd_connection_manage_read_condition. destruct (tls_handshaking (tls c)) eqn:Hh.
  - apply tls_handshake_evolves.
  - by apply thaw_evolves.
Qed.

Lemma notify_write_evolves c : evolves 0 c (notify_write c).2 (notify_write c).1.
Proof.
  unfold notify_write, next_write. set (c1 := with_world _ c).
  pose proof (notify_keeps (buf_output_stream (pipe c1)) (default BufferedOutput.WouldBlock (head (writes (world c))))) as Ho.
  destruct (BufferedOutput.evd_buffered_output_stream_notify_write _ _) as [o' e]. cbn [fst snd] in *.
  flags. split_and!; try done. cbn [pipe with_pipe set_output buf_output_stream]. intros _ Ha. by rewrite Ho.
Qed.

Lemma notify_tls_write_evolves c : evolves 0 c (notify_tls_write c).2 (notify_tls_write c).1.
Proof.
  unfold notify_tls_write. destruct (tls_output_stream (pipe c)) as [o|] eqn:Eo; [|apply evolves_refl].
  unfold next_write. destruct (BufferedOutput.evd_buffered_output_stream_notify_write _ _) as [o' e]. by flags.
Qed.

Lemma max_writable_evolves c : evolves 0 c [] (evd_connection_get_max_writable c).1.
Proof. unfold evd_connection_get_max_writable, next_writable. case_match; [apply evolves_refl|]. flags. Qed.

Lemma manage_write_evolves c :
  evolves 0 c (evd_connection_manage_write_condition c).2 (evd_connection_manage_write_condition c).1.
Proof.
  unfold evd_connection_manage_write_condition.
  assert (∃ c1 e1, (if tls_handshaking (tls c) then evd_connection_tls_handshake c else notify_write c) = (c1, e1)
    ∧ evolves 0 c e1 c1) as (c1 & e1 & -> & H1).
  { destruct (tls_handshaking (tls c)); apply evolves_run; [apply tls_handshake_evolves|apply notify_write_evolves]. }
  assert (∃ c2 e2, (if CLOSED c1 then (c1, []) else notify_tls_write c1) = (c2, e2) ∧ evolves 0 c1 e2 c2) as (c2 & e2 & -> & H2).
  { destruct (CLOSED c1); [eexists _, _; split; [done|apply evolves_refl]|].
    apply evolves_run, notify_tls_write_evolves. }
  pose proof (evolves_trans 0 0 0 _ _ _ _ _ H1 H2 eq_refl) as H12.
  destruct (tls_handshaking (tls c2)); [exact H12|]. pose proof (max_writable_evolves c2) as H3.
  destruct (evd_connection_get_max_writable c2) as [c3 n]. cbn [fst snd] in *. rewrite app_assoc.
  eapply (evolves_trans 0 0 0); [exact H12| |done]. eapply (evolves_after 0 0); [exact H3|].
  flags. by case_match.
Qed.

Lemma condition_evolves c z :
  evolves 0 c (evd_connection_socket_on_condition c z).2 (evd_connection_socket_on_condition c z).1.
Proof.
  unfold evd_connection_socket_on_condition. destruct (CLOSED c); [apply evolves_refl|]. set (c0 := with_cond z c).
  assert (evolves 0 c [] c0) as H0 by flags.
  assert (∃ c1 e1, (if has z G_IO_IN && (read_src_id (loop c0) =? 0) then evd_connection_manage_read_condition c0 else (c0, []))
    = (c1, e1) ∧ evolves 0 c0 e1 c1) as (c1 & e1 & -> & H1).
  { case_match; [apply evolves_run, manage_read_evolves|]. eexists _, _. split; [done|apply evolves_refl]. }
  pose proof (evolves_after 0 0 _ _ _ _ H0 H1) as H01. destruct (has z G_IO_HUP).
  - cbn [fst snd]. eapply (evolves_before 0 0); [exact H01|]. case_match; [flags|apply evolves_close_in_idle].
  - case_match; [|exact H01]. pose proof (manage_write_evolves c1) as H2.
    destruct (evd_connection_manage_write_condition c1) as [c2 e2]. by eapply (evolves_trans 0 0 0).
Qed.

Lemma drained_evolves c :
  evolves 0 c (evd_connection_socket_input_stream_drained c).2 (evd_connection_socket_input_stream_drained c).1.
Proof.
  unfold evd_connection_socket_input_stream_drained. destruct (CLOSED c); [apply evolves_refl|].
  case_match; [apply evolves_close_in_idle|by flags].
Qed.

Lemma filled_evolves c :
  evolves 0 c (evd_connection_socket_output_stream_filled c).2 (evd_connection_socket_output_stream_filled c).1.
Proof. unfold evd_connection_socket_output_stream_filled. destruct (CLOSED c); [apply evolves_refl|by flags]. Qed.

(** The callbacks of the sources drop a reference. *)
Lemma read_timeout_evolves c :
  evolves 1 c (evd_connection_read_wait_timeout c).2 (evd_connection_read_wait_timeout c).1.
Proof.
  unfold evd_connection_read_wait_timeout. destruct (CLOSED c); [apply evolves_unref|].
  set (c0 := with_loop _ c). assert (evolves 0 c [] c0) as H0 by apply (evolves_forget c SrcRead).
  pose proof (manage_read_evolves c0) as H1. destruct (evd_connection_manage_read_condition c0) as [c1 e1]. cbn [fst snd] in *.
  pose proof (evolves_after 0 0 _ _ _ _ H0 H1) as H01. destruct (delayed_close c1 && _).
  - destruct (close_in_idle_cb_evolves (ref c1)) as (c2 & e2 & -> & Hc & _). cbn [fst snd].
    eapply (evolves_before 0 1); [|apply evolves_unref]. eapply (evolves_trans 0 0 0); [exact H01| |done].
    eapply (evolves_after (-1) 1); [apply evolves_ref|exact Hc].
  - eapply (evolves_before 0 1); [exact H01|apply evolves_unref].
Qed.

Lemma write_timeout_evolves c :
  evolves 1 c (evd_connection_write_wait_timeout c).2 (evd_connection_write_wait_timeout c).1.
Proof.
  unfold evd_connection_write_wait_timeout. destruct (CLOSED c); [apply evolves_unref|].
  set (c0 := with_loop _ c). assert (evolves 0 c [] c0) as H0 by apply (evolves_forget c SrcWrite).
  pose proof (manage_write_evolves c0) as H1. destruct (evd_connection_manage_write_condition c0) as [c1 e1].
  eapply (evolves_before 0 1); [|apply evolves_unref]. by eapply (evolves_after 0 0).
Qed.

(** ** Operations *)

Inductive operation :=
  | OpSetSocket (s : socket_view)
  | OpStatus (status : EvdSocketState)     (* the socket changes state *)
  | OpCondition (z : Z)                    (* the socket is ready for what [z] says *)
  | OpDrained
  | OpFilled
  | OpDelayRead
  | OpDelayWrite
  | OpFire (id : Z)                        (* the main loop runs a source *)
  | OpFlushed                              (* a flush of [evd_connection_flush_and_shutdown] ends *)
  | OpStartTls (mode : EvdTlsMode)
  | OpLock
  | OpUnlock
  | OpClose
  | OpFlushAndShutdown
  | OpSetGroup (g : option (nat * nat))
  | OpSetPending (p : bool)                (* an operation of a subclass starts or ends *)
  | OpReadAsync (size : Z)
  | OpRead (a : BufferedInput.base_answer) (* the idle source of the buffered input stream *)
  | OpUnread (data : list Z)
  | OpWrite (data : list Z) (a : BufferedOutput.base_answer).

(** The handlers of a closed connection are disconnected, and so are the delay signals; a socket whose
    connection runs TLS is not connected again. *)
Definition enabled (c : EvdConnection) (o : operation) : bool :=
  match o with
  | OpStatus EVD_SOCKET_STATE_CONNECTED => negb (closed c) && negb (tls_active (tls c))
  | OpStatus _ => negb (closed c)
  | OpDelayRead | OpDelayWrite => delays (pipe c)
  | OpFlushed => (0 <? flushes (loop c))%nat
  | _ => true
  end.

Definition exec (c : EvdConnection) (o : operation) : option (EvdConnection * list event) :=
  if negb (enabled c o) then None
  else
    match o with
    | OpSetSocket s => evd_connection_set_socket c s
    | OpStatus st => Some (evd_connection_socket_on_status_changed c st)
    | OpCondition z => Some (evd_connection_socket_on_condition c z)
    | OpDrained => Some (evd_connection_socket_input_stream_drained c)
    | OpFilled => Some (evd_connection_socket_output_stream_filled c)
    | OpDelayRead => Some (evd_connection_delay_read c, [])
    | OpDelayWrite => Some (evd_connection_delay_write c, [])
    | OpFire id => fire id c
    | OpFlushed => Some (evd_connection_shutdown_on_flush c)
    | OpStartTls mode => evd_connection_starttls c mode
    | OpLock => Some (evd_connection_lock_close c, [])
    | OpUnlock => Some (evd_connection_unlock_close c, [])
    | OpClose => let '(c, evs, _) := g_io_stream_close c in Some (c, evs)
    | OpFlushAndShutdown => Some (evd_connection_flush_and_shutdown c)
    | OpSetGroup g => Some (set_group g c, [])
    | OpSetPending p => Some (with_pending p c, [])
    | OpReadAsync n => Some (on_input (λ i, BufferedInput.evd_buffered_input_stream_read_async i n) c, [])
    | OpRead a =>
        let '(i, evs) := BufferedInput.do_read (buf_input_stream (pipe c)) a in
        Some (with_pipe (set_input i (pipe c)) c, [InputEvents evs])
    | OpUnread d =>
        let '(i, evs, _) := BufferedInput.evd_buffered_input_stream_unread (buf_input_stream (pipe c)) d in
        Some (with_pipe (set_input i (pipe c)) c, [InputEvents evs])
    | OpWrite d a =>
        let '(o, evs) := BufferedOutput.evd_buffered_output_stream_write_async (buf_output_stream (pipe c)) d a in
        Some (with_pipe (set_output o (pipe c)) c, [OutputEvents evs])
    end.

Fixpoint exec_all (c : EvdConnection) (os : list operation) : option (EvdConnection * list event) :=
  match os with
  | [] => Some (c, [])
  | o :: os => '(c, e1) ← exec c o; '(c, e2) ← exec_all c os; Some (c, e1 ++ e2)
  end.

(** What every operation keeps: [issued] calls of [evd_connection_starttls] are made by it. *)
Record keeps (c : EvdConnection) (evs : list event) (c' : EvdConnection) : Prop := mkKeeps {
  kp_loop : loop_ok 0 (loop c) → loop_ok 0 (loop c');
  kp_done : ∀ o, (done_count o evs + outstanding o c' =
    outstanding o c + if (next_op (tls c) <=? o) && (o <? next_op (tls c')) then 1 else 0)%nat;
  kp_next : (next_op (tls c) <= next_op (tls c'))%nat;
  kp_inv : conn_inv c'
}.

Lemma evolves_keeps c evs c' : conn_inv c → evolves 0 c evs c' → keeps c evs c'.
Proof.
  intros Hi [L D N I _]. split; [|intros o; rewrite D, N|lia|by apply I].
  - apply (L 0).
  - destruct (Nat.leb_spec (next_op (tls c)) o), (Nat.ltb_spec o (next_op (tls c))); simpl; lia.
Qed.

Lemma status_evolves c st : enabled c (OpStatus st) = true → conn_inv c →
  evolves 0 c (evd_connection_socket_on_status_changed c st).2 (evd_connection_socket_on_status_changed c st).1.
Proof.
  intros He Hi. destruct st; simpl in He |- *.
  - apply andb_prop in He as [Hc%negb_true_iff Ha%negb_true_iff]. eapply (evolves_after 0 0); [|apply set_auto_flush_evolves].
    + flags. congruence.
    + cbn [tls with_connected]. intros Hh. destruct (inv_held c Hi Hh). congruence.
  - destruct (connected c); [apply evolves_close_in_idle|apply evolves_refl].
  - apply evolves_refl.
Qed.

Lemma delay_evolves k c : k ≠ SrcClose → delays (pipe c) = true → conn_inv c →
  evolves 0 c [] (with_loop (arm k (loop c)) c).
Proof.
  intros Hk Hd Hi. apply evolves_loop.
  - intros n. rewrite Z.add_0_r. apply loop_ok_arm.
  - intros id. apply arm_sources.
  - intros Hc. destruct (inv_closed c Hi Hc) as (_ & _ & _ & ? & _). congruence.
  - intros Hc. destruct (inv_closed c Hi Hc) as (_ & _ & _ & ? & _). congruence.
Qed.

Lemma do_read_frozen i a : BufferedInput.frozen (BufferedInput.do_read i a).1 = BufferedInput.frozen i.
Proof.
  unfold BufferedInput.do_read, BufferedInput.evd_buffered_input_stream_read.
  repeat (case_match; simplify_eq/=; try done).
Qed.

Lemma unread_frozen i d : BufferedInput.frozen i = true → BufferedInput.frozen (BufferedInput.evd_buffered_input_stream_unread i d).1.1 = true.
Proof.
  intros Hf. unfold BufferedInput.evd_buffered_input_stream_unread. repeat case_match; simpl in *; congruence.
Qed.

Lemma fill_keeps o d : BufferedOutput.auto_flush (BufferedOutput.evd_buffered_output_stream_fill o d).1 = BufferedOutput.auto_flush o.
Proof. unfold BufferedOutput.evd_buffered_output_stream_fill. repeat case_match; simplify_eq/=; done. Qed.

Lemma write_keeps o d a : BufferedOutput.auto_flush (BufferedOutput.evd_buffered_output_stream_write o d a).1.1 = BufferedOutput.auto_flush o.
Proof.
  unfold BufferedOutput.evd_buffered_output_stream_write. pose proof (fill_keeps o d).
  pose proof (λ n, fill_keeps o (drop n d)) as Hd. case_match; [by destruct (BufferedOutput.evd_buffered_output_stream_fill o d)|].
  destruct a as [n| |]; [|by destruct (BufferedOutput.evd_buffered_output_stream_fill o d)|done].
  case_match; [|done]. specialize (Hd (Z.to_nat n)). by destruct (BufferedOutput.evd_buffered_output_stream_fill o (drop _ d)).
Qed.

Lemma write_async_keeps o d a :
  BufferedOutput.auto_flush (BufferedOutput.evd_buffered_output_stream_write_async o d a).1 = BufferedOutput.auto_flush o.
Proof.
  unfold BufferedOutput.evd_buffered_output_stream_write_async. pose proof (write_keeps o d a).
  destruct (BufferedOutput.evd_buffered_output_stream_write o d a) as [[o' e] [n|er]]; [|done]. by case_match.
Qed.

Lemma flush_async_keeps o a :
  BufferedOutput.auto_flush (BufferedOutput.evd_buffered_output_stream_flush_async o a).1 = BufferedOutput.auto_flush o.
Proof.
  unfold BufferedOutput.evd_buffered_output_stream_flush_async. pose proof (flush_keeps o a).
  destruct (BufferedOutput.evd_buffered_output_stream_flush o a) as [[o' e] [er|]]; [done|]. by case_match.
Qed.

(** The operations of the users of the streams, and those on flags. *)
Lemma user_evolves c o c' evs :
  match o with
  | OpReadAsync _ | OpRead _ | OpUnread _ | OpWrite _ _ | OpSetGroup _ | OpSetPending _ | OpLock | OpUnlock => True
  | _ => False
  end → exec c o = Some (c', evs) → evolves 0 c evs c'.
Proof.
  destruct o; try done; intros _; unfold exec; cbn [enabled negb].
  - intros [= <- <-]. unfold evd_connection_lock_close. by flags.
  - intros [= <- <-]. unfold evd_connection_unlock_close. case_match; [|by flags].
    eapply (evolves_after 0 0); [|apply evolves_close_in_idle]. by flags.
  - intros [= <- <-]. unfold set_group, on_group_changed. case_decide; [apply evolves_refl|].
    by destruct (group c) as [[]|], g as [[]|]; flags.
  - intros [= <- <-]. by flags.
  - intros [= <- <-]. by flags.
  - pose proof (do_read_frozen (buf_input_stream (pipe c)) a) as Hf.
    destruct (BufferedInput.do_read _ a) as [i e]. cbn [fst] in Hf. intros [= <- <-]. flags. split_and!; try done. intros _ ?. exact (eq_trans Hf ltac:(done)).
  - pose proof (unread_frozen (buf_input_stream (pipe c)) data) as Hf.
    destruct (BufferedInput.evd_buffered_input_stream_unread _ data) as [[i e] r]. cbn [fst] in Hf. intros [= <- <-]. by flags.
  - pose proof (write_async_keeps (buf_output_stream (pipe c)) data a) as Hf.
    destruct (BufferedOutput.evd_buffered_output_stream_write_async _ data a) as [o e]. cbn [fst] in Hf. intros [= <- <-]. flags.
    split_and!; try done. intros _ ?. exact (eq_trans Hf ltac:(done)).
Qed.

Lemma flush_and_shutdown_evolves c :
  evolves 0 c (evd_connection_flush_and_shutdown c).2 (evd_connection_flush_and_shutdown c).1.
Proof.
  unfold evd_connection_flush_and_shutdown, next_write. set (c1 := with_loop _ c).
  assert (evolves 0 c [] c1) as H1 by (apply evolves_loop; try done; intros n; rewrite Z.add_0_r; apply loop_ok_flush).
  pose proof (flush_async_keeps (buf_output_stream (pipe c)) (default BufferedOutput.WouldBlock (head (writes (world c1))))) as Hf.
  cbn [pipe with_world c1 with_loop].
  destruct (BufferedOutput.evd_buffered_output_stream_flush_async _ _) as [o e]. cbn [fst snd] in *.
  eapply (evolves_after 0 0); [exact H1|]. flags. split_and!; try done. intros _ ?. exact (eq_trans Hf ltac:(done)).
Qed.

Lemma shutdown_on_flush_evolves c : (0 < flushes (loop c))%nat →
  evolves 0 c (evd_connection_shutdown_on_flush c).2 (evd_connection_shutdown_on_flush c).1.
Proof.
  intros Hf. unfold evd_connection_shutdown_on_flush. cbn [fst snd]. rewrite <-(app_nil_r (_ ++ _)). rewrite <-(app_nil_l (_ ++ _)).
  eapply (evolves_after 0 0); [apply (evolves_loop 0 c (end_flush (g_object_unref (loop c)))); try done|].
  - intros n. rewrite Z.add_0_r. by apply loop_ok_flushed.
  - flags. by destruct (tls_active (tls c)).
Qed.

Lemma close_evolves c c' evs r : g_io_stream_close c = (c', evs, r) → evolves 0 c evs c'.
Proof.
  intros E. destruct (pending c) eqn:Hp.
  - unfold g_io_stream_close in E. rewrite Hp in E. destruct (closed c); injection E as <- <- _; apply evolves_refl.
  - destruct (g_io_stream_close_evolves c Hp) as (c1 & e1 & r1 & E1 & He & _). congruence.
Qed.

(** The operations that neither start TLS, nor run a source, nor change the socket. *)
Definition plain (o : operation) : Prop :=
  match o with OpSetSocket _ | OpStartTls _ | OpFire _ => False | _ => True end.

Lemma exec_evolves c o c' evs : plain o → conn_inv c → exec c o = Some (c', evs) → evolves 0 c evs c'.
Proof.
  intros Hp Hi E. destruct o; try done; try (eapply user_evolves, E; done).
  all: unfold exec in E; destruct (enabled c _) eqn:He; [|done]; cbn [negb] in E.
  - apply (inj Some) in E. pose proof (status_evolves c status He Hi) as Hv. by rewrite E in Hv.
  - apply (inj Some) in E. pose proof (condition_evolves c z) as Hv. by rewrite E in Hv.
  - apply (inj Some) in E. pose proof (drained_evolves c) as Hv. by rewrite E in Hv.
  - apply (inj Some) in E. pose proof (filled_evolves c) as Hv. by rewrite E in Hv.
  - injection E as <- <-. by apply delay_evolves.
  - injection E as <- <-. by apply delay_evolves.
  - apply (inj Some) in E. pose proof (shutdown_on_flush_evolves c (proj1 (Nat.ltb_lt _ _) He)) as Hv. by rewrite E in Hv.
  - destruct (g_io_stream_close c) as [[c1 e1] r1] eqn:Ec. injection E as <- <-. by eapply close_evolves.
  - apply (inj Some) in E. pose proof (flush_and_shutdown_evolves c) as Hv. by rewrite E in Hv.
Qed.

(** *** Running a source *)

(** The callback forgets the source: running it on a connection from which the source was taken is
    running it on one that has forgotten it too. *)
Lemma run_source_evolves k c : conn_inv c →
  evolves 1 (with_loop (set_src_id k 0 (loop c)) c) (run_source k c).2 (run_source k c).1.
Proof.
  intros Hi. set (c1 := with_loop (set_src_id k 0 (loop c)) c).
  assert (run_source k c = run_source k c1) as ->.
  { destruct k; simpl; unfold evd_connection_read_wait_timeout, evd_connection_write_wait_timeout, CLOSED;
      [change (closed c1) with (closed c)..|done].
    - destruct (closed c) eqn:Hc; [|done]. destruct (inv_closed c Hi Hc) as (_ & Hr & _). unfold c1, with_loop, set_src_id.
      rewrite <-Hr. by destruct c as [? ? ? [] ?].
    - destruct (closed c) eqn:Hc; [|done]. destruct (inv_closed c Hi Hc) as (_ & _ & Hw & _). unfold c1, with_loop, set_src_id.
      rewrite <-Hw. by destruct c as [? ? ? [] ?]. }
  destruct k; [apply read_timeout_evolves|apply write_timeout_evolves|].
  cbn [run_source]. destruct (close_in_idle_cb_evolves c1) as (c2 & evs & -> & He & _). exact He.
Qed.

Lemma fire_inv c id c' evs : fire id c = Some (c', evs) →
  ∃ k, (id, k) ∈ sources (loop c) ∧ run_source k (with_loop (g_source_remove id (loop c)) c) = (c', evs).
Proof.
  unfold fire. destruct (list_find _ _) as [[i [id' k]]|] eqn:Ef; [|done].
  apply list_find_Some in Ef as (Hin%list_elem_of_lookup_2 & Hid & _). simpl in Hid. subst id'.
  intros [= E]. by exists k.
Qed.

Lemma fire_keeps c id c' evs :
  loop_ok 0 (loop c) → conn_inv c → fire id c = Some (c', evs) →
  keeps c evs c' ∧ fate c c' ∧ ((id, SrcClose) ∈ sources (loop c) → closed c' = true).
Proof.
  intros Hl Hi (k & Hin & E)%fire_inv. set (c0 := with_loop (g_source_remove id (loop c)) c) in E.
  assert (conn_inv c0) as Hi0 by (destruct Hi; by split). pose proof (run_source_evolves k c0 Hi0) as He.
  rewrite E in He. cbn [fst snd] in He. destruct He as [L D N I F].
  pose proof (loop_ok_remove 0 id k (loop c) Hl Hin) as Hr.
  assert (k = SrcClose → closed c' = true) as Hc.
  { intros ->. cbn [run_source] in E. destruct (close_in_idle_cb_evolves c0) as (c1 & e1 & E1 & _ & Hc1).
    rewrite E in E1. injection E1 as <- <-. apply Hc1, Hi. }
  split_and!; [split| |].
  - intros _. by apply L.
  - intros o. rewrite D, N. change (outstanding o _) with (outstanding o c).
    change (next_op (tls (with_loop _ c0))) with (next_op (tls c)).
    destruct (Nat.leb_spec (next_op (tls c)) o), (Nat.ltb_spec o (next_op (tls c))); simpl; lia.
  - by rewrite N.
  - apply I. by apply (evolves_forget c0 k).
  - destruct (decide (k = SrcClose)) as [Hk|Hk]; [left; auto|].
    eapply fate_trans; [|eapply fate_trans; [apply (ev_fate _ _ _ _ (evolves_forget c0 k))|exact F]].
    right. split_and!; try done. intros id' Hid'. apply list_elem_of_filter. split; [|done].
    simpl. intros ->. apply Hk. by eapply source_unique; [apply Hl| |].
  - intros Hin'. apply Hc. by eapply source_unique; [apply Hl| |].
Qed.

(** *** Starting TLS *)

(** The connection on which the handshake starts. *)
Definition handshaking (c : EvdConnection) (w : oracle) : EvdConnection :=
  with_tls (mkTls true true (Some (next_op (tls c))) (S (next_op (tls c))))
    (with_pipe (mkPipe (BufferedInput.evd_buffered_input_stream_freeze new_input)
                  (BufferedOutput.evd_buffered_output_stream_set_auto_flush new_output false BufferedOutput.WouldBlock).1
                  (Some new_output) (throt_input_stream (pipe c)) (throt_output_stream (pipe c)) (delays (pipe c)))
       (with_world w c)).

Lemma starttls_cases c mode c' evs : evd_connection_starttls c mode = Some (c', evs) →
  (∃ e, evs = [StartTlsDone (next_op (tls c)) (Some e)] ∧ c' = with_tls (mkTls (tls_handshaking (tls c)) (tls_active (tls c))
     (async_result (tls c)) (S (next_op (tls c)))) c) ∨
  tls_active (tls c) = false ∧ connected c = true ∧
  ∃ w e0 e1, no_done e0 ∧ evs = e0 ++ e1 ∧ evolves 0 (handshaking c w) e1 c'.
Proof.
  unfold evd_connection_starttls. cbn [connected tls with_tls tls_active pipe].
  destruct (connected c) eqn:Hc; [|intros [= <- <-]; left; by eexists]. cbn [negb].
  destruct (tls_active (tls c)) eqn:Ha; [intros [= <- <-]; left; by eexists|].
  destruct (tls_output_stream (pipe c)); [done|]. unfold next_write. cbn [pipe with_world with_tls].
  destruct (close_stream _ _) as [o' e0]. intros E. right. split; [done|]. split; [done|].
  set (w := mkOracle (tail (writes (world c))) (closes (world c)) (handshakes (world c)) (writables (world c))).
  exists w, [OutputEvents e0].
  match type of E with context [with_tls (set_handshaking true _) ?x] => set (c1 := with_tls (set_handshaking true _) x) in E end.
  assert (c1 = handshaking c w) as Hc1 by done. clearbody c1. subst c1.
  destruct mode.
  - injection E as <- <-. exists []. split_and!; [done|done|apply evolves_refl].
  - destruct (has _ _); [|injection E as <- <-; exists []; split_and!; [done|done|apply evolves_refl]].
    pose proof (tls_handshake_evolves (handshaking c w)) as Hv.
    destruct (evd_connection_tls_handshake (handshaking c w)) as [c2 e2]. injection E as <- <-.
    exists e2. by split_and!.
Qed.

Lemma starttls_keeps c mode c' evs :
  conn_inv c → evd_connection_starttls c mode = Some (c', evs) → keeps c evs c' ∧ fate c c'.
Proof.
  intros Hi [(e & -> & ->)|(Ha & Hc & w & e0 & e1 & Hn & -> & [L D N I F])]%starttls_cases.
  - split; [split; try done|by right].
    + intros o. rewrite done_count_one. unfold outstanding. cbn [tls with_tls async_result next_op].
      destruct (Nat.leb_spec (next_op (tls c)) o), (Nat.ltb_spec o (S (next_op (tls c)))), (decide (Some (next_op (tls c)) = Some o)) as [[= Ho]|Ho];
        simpl; try lia. destruct Ho. f_equal. lia.
    + simpl. lia.
    + destruct Hi as [I1 I2 I3 I4 I5 IS I6]. split; try done. intros o Ho. cbn [tls with_tls next_op]. specialize (I4 o Ho). lia.
  - assert (async_result (tls c) = None) as Hnone.
    { destruct (async_result (tls c)) eqn:E; [|done]. destruct (inv_held c Hi) as [Hx _]; [|congruence].
      apply Hi. by rewrite E. }
    split; [split|].
    + intros Hl. apply L. exact Hl.
    + intros o. rewrite done_count_app, Hn, N. simpl. rewrite D. unfold outstanding. rewrite Hnone.
      cbn [tls with_tls handshaking async_result next_op]. rewrite (decide_False (P := None = Some o)) by done.
      destruct (Nat.leb_spec (next_op (tls c)) o), (Nat.ltb_spec o (S (next_op (tls c)))), (decide (Some (next_op (tls c)) = Some o)) as [[= Ho]|Ho];
        simpl; try lia. destruct Ho. f_equal. lia.
    + rewrite N. simpl. lia.
    + apply I. destruct Hi as [I1 I2 I3 I4 I5 IS I6]. split; try done.
      * simpl. intros o [= <-]. lia.
      * simpl. intros Hcl. destruct (I6 Hcl) as (_ & _ & _ & _ & ?). congruence.
    + eapply fate_trans; [|exact F]. by right.
Qed.

(** *** Changing the socket *)

(** No TLS on an open connection. *)
Definition clear (c : EvdConnection) : Prop :=
  tls_active (tls c) = false ∧ tls_handshaking (tls c) = false ∧ async_result (tls c) = None ∧ closing c = false.

Lemma inv_clear c : conn_inv c → tls_active (tls c) = false → clear c.
Proof.
  intros Hi Ha. assert (tls_handshaking (tls c) = false) as Hh.
  { destruct (tls_handshaking (tls c)) eqn:E; [|done]. destruct (inv_held c Hi E). congruence. }
  split_and!; [done|done| |apply Hi]. destruct (async_result (tls c)) eqn:E; [|done].
  assert (tls_handshaking (tls c) = true); [|congruence]. apply Hi. by rewrite E.
Qed.

Lemma clear_inv c : clear c → has_streams c = true → closed c = false → conn_inv c.
Proof. intros (Ha & Hh & Hr & Hg) Hs Hc. split; rewrite ?Ha, ?Hh, ?Hr, ?Hc; try done. Qed.

Lemma setup_streams_spec st c : ∃ c' evs, evd_connection_setup_streams st c = (c', evs) ∧ no_done evs ∧
  tls c' = tls c ∧ loop c' = loop c ∧ closing c' = closing c ∧ closed c' = closed c ∧ has_streams c' = true ∧
  remote_addr_st c' = remote_addr_st c ∧ delayed_close c' = delayed_close c.
Proof.
  unfold evd_connection_setup_streams. destruct (match group c with Some _ => _ | None => _ end) as [i o].
  unfold set_auto_flush, next_write. destruct (BufferedOutput.evd_buffered_output_stream_set_auto_flush _ _ _) as [o' e].
  by eexists _, _.
Qed.

(** The streams once the socket is there. *)
Definition rebuild (s : socket_view) (c : EvdConnection) : EvdConnection * list event :=
  if negb (has_streams c) then evd_connection_setup_streams (view_connected s) c
  else if closed c then
    let '(c, e) := evd_connection_setup_streams (view_connected s) (evd_connection_teardown_streams c) in (with_closed false c, e)
  else (c, []).

Lemma rebuild_spec s c : clear c → (has_streams c = false → closed c = false) →
  ∃ c' evs, rebuild s c = (c', evs) ∧ conn_inv c' ∧ no_done evs ∧ tls c' = tls c ∧ loop c' = loop c.
Proof.
  intros Hc Hn. unfold rebuild. destruct (has_streams c) eqn:Hs; cbn [negb].
  - destruct (closed c) eqn:Ec; [|exists c, []; split_and!; try done; by apply clear_inv].
    destruct (setup_streams_spec (view_connected s) (evd_connection_teardown_streams c)) as (c1 & e & -> & Hd & T & L & G & _ & S & _).
    exists (with_closed false c1), e. split_and!; try done. apply clear_inv; [|done..].
    destruct Hc as (? & ? & ? & ?). unfold clear. cbn [tls closing with_closed]. by rewrite T, G.
  - destruct (setup_streams_spec (view_connected s) c) as (c1 & e & -> & Hd & T & L & G & C & S & _).
    exists c1, e. split_and!; try done. apply clear_inv; [|done|by rewrite C, Hn].
    destruct Hc as (? & ? & ? & ?). unfold clear. by rewrite T, G.
Qed.

Lemma set_socket_spec c s c' evs :
  clear c ∨ tls_active (tls c) = true → (has_streams c = false → closed c = false) → evd_connection_set_socket c s = Some (c', evs) →
  socket c = Some (view_id s) ∧ c' = c ∧ evs = [] ∨
  ∃ c1 e1 e2 c2, conn_inv c1 ∧ no_done e1 ∧ tls c1 = tls c ∧ loop c1 = loop c ∧ evs = e1 ++ e2 ∧
    evolves 0 c1 e2 c2 ∧ evolves 0 c2 [] c'.
Proof.
  intros Hc Hn. unfold evd_connection_set_socket. case_decide; [by intros [= <- <-]; left|]. intros E. right.
  cbn [tls with_socket] in E. destruct (tls_active (tls c)) eqn:Ha; [done|].
  assert (clear (with_socket (view_id s) c)) as Hc' by (by destruct Hc).
  fold (rebuild s (with_socket (view_id s) c)) in E.
  destruct (rebuild_spec s _ Hc' Hn) as (c1 & e1 & Er & Hi & Hd & T & L). rewrite Er in E.
  pose proof (condition_evolves c1 (view_condition s)) as He.
  destruct (evd_connection_socket_on_condition c1 (view_condition s)) as [c2 e2]. cbn [fst snd] in He.
  destruct (remote_addr_st c2); [done|]. injection E as <- <-. exists c1, e1, e2, c2. split_and!; try done. by flags.
Qed.

Lemma set_socket_keeps c s c' evs : conn_inv c → evd_connection_set_socket c s = Some (c', evs) → keeps c evs c'.
Proof.
  intros Hi E. apply set_socket_spec in E as [(Hs & -> & ->)|(c1 & e1 & e2 & c2 & Hi1 & Hd & T & L & -> & H2 & H3)].
  - apply (evolves_keeps _ _ _ Hi), evolves_refl.
  - destruct (evolves_keeps _ _ _ Hi1 (evolves_before 0 0 _ _ _ _ H2 H3)) as [KL KD KN KI]. split.
    + intros Hl. apply KL. by rewrite L.
    + intros o. rewrite done_count_app, Hd. simpl. rewrite KD. unfold outstanding. by rewrite T.
    + by rewrite <-T.
    + done.
  - destruct (tls_active (tls c)) eqn:Ha; [by right|left; by apply inv_clear].
  - intros Hs. by rewrite (inv_has c Hi) in Hs.
Qed.

Lemma conn_exec_keeps c o c' evs : loop_ok 0 (loop c) → conn_inv c → exec c o = Some (c', evs) → keeps c evs c'.
Proof.
  intros Hl Hi E. destruct o; try (apply evolves_keeps, (exec_evolves _ _ _ _) in E; done).
  all: try (eapply evolves_keeps; [done|]; eapply exec_evolves; [|done|exact E]; done).
  - by apply (set_socket_keeps c s).
  - by apply (fire_keeps c id).
  - by apply (starttls_keeps c mode).
Qed.

(** ** Runs *)

(** The connection is in order, and every call of [evd_connection_starttls] made so far has ended once
    in [evs] or is the one under way. *)
Record good (evs : list event) (c : EvdConnection) : Prop := mkGood {
  good_loop : loop_ok 0 (loop c);
  good_inv : conn_inv c;
  good_done : ∀ o, (done_count o evs + outstanding o c = if o <? next_op (tls c) then 1 else 0)%nat
}.

Lemma conn_keeps_good evs0 c evs c' : good evs0 c → keeps c evs c' → good (evs0 ++ evs) c'.
Proof.
  intros [L I D] [KL KD KN KI]. split; [auto|done|]. intros o. rewrite done_count_app, <-Nat.add_assoc, KD.
  specialize (D o). destruct (Nat.leb_spec (next_op (tls c)) o), (Nat.ltb_spec o (next_op (tls c))),
    (Nat.ltb_spec o (next_op (tls c'))); simpl in *; lia.
Qed.

Lemma exec_all_good os : ∀ evs0 c c' evs, good evs0 c → exec_all c os = Some (c', evs) → good (evs0 ++ evs) c'.
Proof.
  induction os as [|o os IH]; intros evs0 c c' evs Hg; cbn [exec_all].
  - intros [= <- <-]. by rewrite app_nil_r.
  - destruct (exec c o) as [[c1 e1]|] eqn:E1; [|done]. cbn [mbind option_bind].
    destruct (exec_all c1 os) as [[c2 e2]|] eqn:E2; [|done]. intros [= <- <-]. rewrite app_assoc.
    eapply IH; [|exact E2]. eapply conn_keeps_good; [exact Hg|]. apply (conn_exec_keeps c o); [apply Hg..|done].
Qed.

Lemma init_loop_ok w : loop_ok 0 (loop (evd_connection_init w)).
Proof.
  split; cbn [evd_connection_init loop sources fmap list_fmap next_src].
  - constructor.
  - constructor.
  - lia.
  - by intros [].
  - done.
Qed.

Lemma new_good w s c evs : evd_connection_new w s = Some (c, evs) → good evs c.
Proof.
  intros E. unfold evd_connection_new in E. assert (clear (evd_connection_init w)) as Hc by done.
  apply set_socket_spec in E as [(Hs & -> & ->)|(c1 & e1 & e2 & c2 & Hi1 & Hd & T & L & -> & H2 & H3)];
    [| |by left|done].
  - done.
  - destruct (evolves_keeps _ _ _ Hi1 (evolves_before 0 0 _ _ _ _ H2 H3)) as [KL KD KN KI]. split; [|done|].
    + apply KL. rewrite L. apply init_loop_ok.
    + intros o. rewrite done_count_app, Hd. simpl. rewrite KD. unfold outstanding. rewrite T. simpl.
      destruct (Nat.ltb_spec o (next_op (tls c))); simpl; lia.
Qed.

(** ** Hanging up *)

Definition same_socket (o : operation) : Prop := match o with OpSetSocket _ => False | _ => True end.

Lemma exec_fate c o c' evs :
  loop_ok 0 (loop c) → conn_inv c → same_socket o → exec c o = Some (c', evs) → fate c c'.
Proof.
  intros Hl Hi Hs E. destruct o; try done; try (eapply ev_fate, exec_evolves; [|done|exact E]; done).
  - by apply (fire_keeps c id c' evs).
  - by apply (starttls_keeps c mode c' evs).
Qed.

Definition doomed (c : EvdConnection) : Prop :=
  closed c = true ∨ delayed_close c = true ∨ ∃ id, (id, SrcClose) ∈ sources (loop c).

Lemma fate_doomed c c' : fate c c' → doomed c → doomed c'.
Proof.
  intros [Hc|(E & Hd & Hs)] Hdoom; [by left|]. destruct Hdoom as [Hc|[Hc|[id Hid]]].
  - left. congruence.
  - right. left. auto.
  - right. right. eauto.
Qed.

Lemma exec_all_doomed os : ∀ evs0 c c' evs, good evs0 c → Forall same_socket os → doomed c →
  exec_all c os = Some (c', evs) → doomed c'.
Proof.
  induction os as [|o os IH]; intros evs0 c c' evs Hg Hos Hd; cbn [exec_all]; [by intros [= <- <-]|].
  apply Forall_cons_1 in Hos as [Ho Hos]. destruct (exec c o) as [[c1 e1]|] eqn:E1; [|done]. cbn [mbind option_bind].
  destruct (exec_all c1 os) as [[c2 e2]|] eqn:E2; [|done]. intros [= <- <-].
  destruct Hg as [L I D] eqn:Eg. eapply (IH (evs0 ++ e1)); [|done| |exact E2].
  - eapply conn_keeps_good; [done|]. by apply (conn_exec_keeps c o).
  - eapply fate_doomed; [|exact Hd]. by apply (exec_fate c o c1 e1).
Qed.

Lemma close_in_idle_armed n c : loop_ok n (loop c) →
  ∃ id, (id, SrcClose) ∈ sources (loop (evd_connection_close_in_idle c)).
Proof.
  intros Hl. unfold evd_connection_close_in_idle. cbn [loop with_loop with_connected]. unfold arm.
  destruct (Z.eqb_spec (src_id SrcClose (loop c)) 0) as [_|Hne].
  - exists (next_src (loop c)). apply elem_of_app. right. by apply list_elem_of_singleton.
  - exists (src_id SrcClose (loop c)). by apply Hl.
Qed.

Lemma hangup_doomed c z : loop_ok 0 (loop c) → closed c = false → has z G_IO_HUP = true →
  doomed (evd_connection_socket_on_condition c z).1.
Proof.
  intros Hl Hc Hz. unfold evd_connection_socket_on_condition, CLOSED. rewrite Hc, Hz. set (c0 := with_cond z c).
  assert (∃ c1 e1, (if has z G_IO_IN && (read_src_id (loop c0) =? 0) then evd_connection_manage_read_condition c0 else (c0, []))
    = (c1, e1) ∧ evolves 0 c0 e1 c1) as (c1 & e1 & -> & H1).
  { case_match; [apply evolves_run, manage_read_evolves|]. eexists _, _. split; [done|apply evolves_refl]. }
  cbn [fst]. case_match; [right; by left|]. right. right.
  apply (close_in_idle_armed 0), (ev_loop _ _ _ _ H1). exact Hl.
Qed.

Lemma armed_fires c id : loop_ok 0 (loop c) → conn_inv c → (id, SrcClose) ∈ sources (loop c) →
  ∃ c' evs, fire id c = Some (c', evs) ∧ closed c' = true.
Proof.
  intros Hl Hi Hin. destruct (fire id c) as [[c' evs]|] eqn:E.
  - exists c', evs. split; [done|]. by apply (fire_keeps c id c' evs Hl Hi E).
  - unfold fire in E. destruct (list_find _ _) as [[? []]|] eqn:Ef; [done|]. apply list_find_None in Ef.
    rewrite Forall_forall in Ef. by destruct (Ef _ Hin).
Qed.

(** A source that closes the connection is in the main loop. *)
Definition closes_next (c : EvdConnection) : Prop := ∃ id c' evs, fire id c = Some (c', evs) ∧ closed c' = true.

Lemma close_in_idle_closes c : loop_ok 0 (loop c) → conn_inv c → closes_next (evd_connection_close_in_idle c).
Proof.
  intros Hl Hi. destruct (evolves_close_in_idle c) as [L _ _ I _].
  destruct (close_in_idle_armed 0 c Hl) as [id Hid]. exists id. apply armed_fires; [apply L|apply I|]; done.
Qed.

(** ** Theorems *)

Section Runs.
Context (w : oracle) (s : socket_view) (c0 : EvdConnection) (e0 : list event).
Context (new : evd_connection_new w s = Some (c0, e0)).

Lemma conn_run_good os c evs : exec_all c0 os = Some (c, evs) → good (e0 ++ evs) c.
Proof. apply exec_all_good, (new_good w s), new. Qed.

(** Starting TLS ends: in every execution of a connection, each call of [evd_connection_starttls]
    has ended exactly once, or it is the one whose handshake is under way, and then the input is
    frozen and the output is not flushed by itself; on a closed connection all have ended. *)
Example starttls_ends_once os c evs op :
  exec_all c0 os = Some (c, evs) → (op < next_op (tls c))%nat →
  if decide (async_result (tls c) = Some op)
  then done_count op (e0 ++ evs) = 0%nat ∧ closed c = false ∧ tls_handshaking (tls c) = true ∧
       BufferedInput.frozen (buf_input_stream (pipe c)) = true ∧
       BufferedOutput.auto_flush (buf_output_stream (pipe c)) = false
  else done_count op (e0 ++ evs) = 1%nat.
Proof.
  intros E Ho. destruct (conn_run_good os c evs E) as [_ I D]. specialize (D op). unfold outstanding in D.
  destruct (Nat.ltb_spec op (next_op (tls c))); [|lia]. case_decide as Ha; [|lia].
  assert (tls_handshaking (tls c) = true) as Hh by (apply I; by rewrite Ha).
  destruct (inv_held c I Hh) as (Hact & Hf & Hau). split_and!; try done; [lia|].
  destruct (closed c) eqn:Hc; [|done]. destruct (inv_closed c I Hc) as (? & _). congruence.
Qed.

(** References: in every execution the references a connection holds on itself are those of its
    sources in the main loop and of the flushes before a shutdown; the sources have distinct
    identifiers, and one the connection remembers is in the main loop.  When the main loop has run
    them all no reference is left. *)
Example references_balanced os c evs :
  exec_all c0 os = Some (c, evs) →
  refs (loop c) = Z.of_nat (length (sources (loop c))) + Z.of_nat (flushes (loop c)) ∧
  NoDup (fst <$> sources (loop c)) ∧
  (∀ k, src_id k (loop c) ≠ 0 → (src_id k (loop c), k) ∈ sources (loop c)).
Proof. intros E. destruct (conn_run_good os c evs E) as [[H1 _ _ H4 H5] _ _]. split_and!; [lia|done|done]. Qed.

(** C16. A hangup is never lost: once the socket of an open connection has hung up, after any further
    operations but a change of socket, the connection is closed, or a source that closes it is in the
    main loop, or it remembers to close: then unlocking it puts that source there, and so does a
    drained input when it is not locked. *)
Theorem hangup_never_lost os1 c1 e1 z os2 c2 e2 :
  exec_all c0 os1 = Some (c1, e1) → closed c1 = false → has z G_IO_HUP = true → Forall same_socket os2 →
  exec_all c1 (OpCondition z :: os2) = Some (c2, e2) →
  closed c2 = true ∨ closes_next c2 ∨
  delayed_close c2 = true ∧ closes_next (evd_connection_unlock_close c2) ∧
    (close_locked c2 = false → closed c2 = false → closes_next (evd_connection_socket_input_stream_drained c2).1).
Proof.
  intros E1 Hc Hz Hs. pose proof (conn_run_good _ _ _ E1) as Hg1. cbn [exec_all exec enabled negb].
  pose proof (hangup_doomed c1 z (good_loop _ _ Hg1) Hc Hz) as Hd.
  assert (keeps c1 (evd_connection_socket_on_condition c1 z).2 (evd_connection_socket_on_condition c1 z).1) as Hk
    by (apply evolves_keeps; [apply Hg1|apply condition_evolves]).
  destruct (evd_connection_socket_on_condition c1 z) as [c e]. cbn [fst snd mbind option_bind] in *.
  destruct (exec_all c os2) as [[c' e']|] eqn:E2; [|done]. intros [= <- <-].
  pose proof (conn_keeps_good _ _ _ _ Hg1 Hk) as Hg. destruct (exec_all_good _ _ _ _ _ Hg E2) as [L I _].
  destruct (exec_all_doomed _ _ _ _ _ Hg Hs Hd E2) as [?|[Hdel|[id Hid]]]; [by left| |].
  - right. right. split; [done|]. unfold evd_connection_unlock_close, evd_connection_socket_input_stream_drained, CLOSED.
    cbn [delayed_close with_locked]. rewrite Hdel. split.
    + apply close_in_idle_closes; [exact L|]. destruct I. by split.
    + intros -> ->. by apply close_in_idle_closes.
  - right. left. exists id. by apply armed_fires.
Qed.

End Runs.

(** ** Instances *)

Definition demo_view : socket_view := mkView 1 true (G_IO_IN + G_IO_OUT) None.
Definition demo_oracle : oracle := mkOracle [] [] [(1, 0); (1, 1)] [].

Definition made : EvdConnection * list event :=
  default (evd_connection_init demo_oracle, []) (evd_connection_new demo_oracle demo_view).

Lemma made_new : evd_connection_new demo_oracle demo_view = Some (made.1, made.2).
Proof. vm_compute. reflexivity. Qed.

Definition after (os : list operation) : EvdConnection * list event := default made (exec_all made.1 os).

(** TLS is started twice; the handshake needs two turns. *)
Definition tls_operations : list operation :=
  [OpStartTls EVD_TLS_MODE_SERVER; OpStartTls EVD_TLS_MODE_CLIENT; OpCondition G_IO_IN; OpCondition G_IO_IN].

Lemma tls_operations_run : exec_all made.1 tls_operations = Some ((after tls_operations).1, (after tls_operations).2).
Proof. vm_compute. reflexivity. Qed.

Lemma starttls_ends_once_witness :
  let c := (after tls_operations).1 in
  if decide (async_result (tls c) = Some 0%nat)
  then done_count 0 (made.2 ++ (after tls_operations).2) = 0%nat ∧ closed c = false ∧ tls_handshaking (tls c) = true ∧
       BufferedInput.frozen (buf_input_stream (pipe c)) = true ∧
       BufferedOutput.auto_flush (buf_output_stream (pipe c)) = false
  else done_count 0 (made.2 ++ (after tls_operations).2) = 1%nat.
Proof.
  apply (starttls_ends_once _ _ _ _ made_new tls_operations _ _ 0 tls_operations_run). vm_compute. lia.
Defined.

Definition busy_operations : list operation :=
  [OpDelayRead; OpDelayWrite; OpFlushAndShutdown; OpCondition (G_IO_IN + G_IO_HUP); OpFire 1; OpUnlock].

Lemma busy_operations_run : exec_all made.1 busy_operations = Some ((after busy_operations).1, (after busy_operations).2).
Proof. vm_compute. reflexivity. Qed.

Lemma references_balanced_witness :
  let c := (after busy_operations).1 in
  refs (loop c) = Z.of_nat (length (sources (loop c))) + Z.of_nat (flushes (loop c)) ∧
  NoDup (fst <$> sources (loop c)) ∧
  (∀ k, src_id k (loop c) ≠ 0 → (src_id k (loop c), k) ∈ sources (loop c)).
Proof. exact (references_balanced _ _ _ _ made_new busy_operations _ _ busy_operations_run). Defined.

Definition locked_operations : list operation := [OpReadAsync 10; OpLock; OpCondition (G_IO_IN + G_IO_HUP); OpDrained].

Lemma locked_operations_run :
  exec_all made.1 locked_operations = Some ((after locked_operations).1, (after locked_operations).2).
Proof. vm_compute. reflexivity. Qed.

Lemma hangup_never_lost_witness :
  let c := (after locked_operations).1 in
  closed c = true ∨ closes_next c ∨
  delayed_close c = true ∧ closes_next (evd_connection_unlock_close c) ∧
    (close_locked c = false → closed c = false → closes_next (evd_connection_socket_input_stream_drained c).1).
Proof.
  apply (hangup_never_lost _ _ _ _ made_new [OpReadAsync 10; OpLock]
           (after [OpReadAsync 10; OpLock]).1 (after [OpReadAsync 10; OpLock]).2
           (G_IO_IN + G_IO_HUP) [OpDrained] (after locked_operations).1 (after locked_operations).2);
    try (vm_compute; reflexivity). by repeat constructor.
Defined.

(** ** Defects *)

Definition observe {A} (f : EvdConnection → A) (os : list operation) : option A :=
  (λ r : EvdConnection * list event, f r.1) <$> exec_all made.1 os.

Definition other_view : socket_view := mkView 2 true (G_IO_IN + G_IO_OUT) None.

(** With TLS active the assertion on the type of the TLS output stream fails, whatever the socket. *)
Lemma tls_socket_aborts c s :
  tls_active (tls c) = true → socket c ≠ Some (view_id s) → evd_connection_set_socket c s = None.
Proof. intros Ha Hs. unfold evd_connection_set_socket. rewrite decide_False by done. cbn [tls with_socket]. by rewrite Ha. Qed.

(** The cached address is freed, and then read, when a closed connection is given another socket. *)
Example address_read_after_free :
  (evd_connection_new demo_oracle (mkView 1 true (G_IO_IN + G_IO_OUT) (Some [49; 48])) ≫=
   λ r, exec_all r.1 [OpClose; OpSetSocket other_view]) = None.
Proof. vm_compute. reflexivity. Qed.

(** [delayed_close] is never reset: a connection that was closed late closes its next socket as soon as
    its input is drained. *)
Example delayed_close_survives :
  observe (λ c, (closed c, sources (loop c)))
    [OpLock; OpCondition G_IO_HUP; OpUnlock; OpFire 1; OpSetSocket other_view; OpDrained] = Some (false, [(2, SrcClose)]).
Proof. vm_compute. reflexivity. Qed.

(** A handshake that fails closes at once and forgets the source that was to close: it is still in the
    main loop, and closes the next socket. *)
Example forgotten_source_closes :
  (evd_connection_new (mkOracle [] [] [(1, -1)] []) demo_view ≫= λ r,
     (λ r : EvdConnection * list event, (closed r.1, sources (loop r.1))) <$>
       exec_all r.1 [OpStartTls EVD_TLS_MODE_SERVER; OpCondition G_IO_HUP; OpCondition G_IO_IN; OpSetSocket other_view])
    = Some (false, [(1, SrcClose)]) ∧
  (evd_connection_new (mkOracle [] [] [(1, -1)] []) demo_view ≫= λ r,
     (λ r : EvdConnection * list event, closed r.1) <$>
       exec_all r.1 [OpStartTls EVD_TLS_MODE_SERVER; OpCondition G_IO_HUP; OpCondition G_IO_IN; OpSetSocket other_view; OpFire 1])
    = Some true.
Proof. split; vm_compute; reflexivity. Qed.

(** What was written and could not be sent is lost when TLS starts. *)
Example starttls_drops_output :
  observe (λ c, (BufferedOutput.buffer (buf_output_stream (pipe c)), tls_handshaking (tls c)))
    [OpWrite [1; 2; 3] BufferedOutput.WouldBlock; OpStartTls EVD_TLS_MODE_SERVER] = Some ([], true) ∧
  observe (λ c, BufferedOutput.buffer (buf_output_stream (pipe c))) [OpWrite [1; 2; 3] BufferedOutput.WouldBlock] = Some [1; 2; 3].
Proof. split; vm_compute; reflexivity. Qed.

End ConnectionSpec.
