(* ===== verification/Socket.v ===== *)
(** * Sockets (src/evd/evd-socket.c): model

    The state machine of a socket: resolving, binding, listening, connecting, accepting and closing,
    with the asynchronous operations it runs.  The GSocket, the poll and the resolver are outside: their
    answers are a list in the state and the arguments of the operations.  Signals, ends of operations
    and system calls are recorded in a trace; handlers of signals do not call back into the socket. *)
From S2P Require Import Prelude.

Module Socket.

Definition G_IO_IN : Z := 1.
Definition G_IO_OUT : Z := 4.
Definition G_IO_ERR : Z := 8.

Definition has (cond bit : Z) : bool := negb (Z.land cond bit =? 0).

Inductive EvdSocketState :=
  | EVD_SOCKET_STATE_CLOSED
  | EVD_SOCKET_STATE_CONNECTING
  | EVD_SOCKET_STATE_CONNECTED
  | EVD_SOCKET_STATE_RESOLVING
  | EVD_SOCKET_STATE_BOUND
  | EVD_SOCKET_STATE_LISTENING
  | EVD_SOCKET_STATE_TLS_HANDSHAKING
  | EVD_SOCKET_STATE_CLOSING.

#[export] Instance EvdSocketState_eq_dec : EqDecision EvdSocketState.
Proof. solve_decision. Defined.

Inductive GSocketFamily := FAMILY_INVALID | FAMILY_UNIX | FAMILY_IPV4 | FAMILY_IPV6.
Inductive GSocketType := TYPE_INVALID | TYPE_STREAM | TYPE_DATAGRAM.
Inductive GSocketProtocol := PROTOCOL_UNKNOWN | PROTOCOL_DEFAULT | PROTOCOL_TCP | PROTOCOL_UDP.

#[export] Instance GSocketFamily_eq_dec : EqDecision GSocketFamily.
Proof. solve_decision. Defined.
#[export] Instance GSocketProtocol_eq_dec : EqDecision GSocketProtocol.
Proof. solve_decision. Defined.

Record GSocketAddress := mkAddress { address_family : GSocketFamily; address_id : nat }.

Inductive socket_error := ErrMismatch | ErrSystem | ErrPending | ErrBusy | ErrClosed | ErrRefused | ErrUnknown | ErrResolve | ErrNotInitialized.

Inductive event :=
  | StateChanged (new_status old_status : EvdSocketState)
  | ErrorSignal (e : socket_error)
  | CloseSignal
  | NewConnection
  | Notify (condition : Z)                          (* the callback of the conditions *)
  | Done (op : nat) (error : option socket_error)   (* an asynchronous operation ends *)
  | CallBind (a : GSocketAddress) (allow_reuse : bool)
  | CallConnect (a : GSocketAddress).

(** What a system call answers; past the end of the list it succeeds. *)
Inductive answer := Ok | InProgress | Fails.

Record EvdSocket := mkSocket {
  socket : bool;                   (* there is a GSocket *)
  family : GSocketFamily;
  type : GSocketType;
  protocol : GSocketProtocol;
  status : EvdSocketState;
  sub_status : EvdSocketState;
  cond : Z;
  actual_priority : Z;
  priority : Z;
  bind_allow_reuse : bool;         (* never written *)
  notify_cond_cb : bool;           (* the callback is set *)
  has_pending : bool;
  async_result : option nat;
  poll_session : bool;
  next_op : nat;
  answers : list answer;
  trace : list event
}.

Definition with_socket x s := mkSocket x (family s) (type s) (protocol s) (status s) (sub_status s) (cond s) (actual_priority s) (priority s) (bind_allow_reuse s) (notify_cond_cb s) (has_pending s) (async_result s) (poll_session s) (next_op s) (answers s) (trace s).
Definition with_address f t p s := mkSocket (socket s) f t p (status s) (sub_status s) (cond s) (actual_priority s) (priority s) (bind_allow_reuse s) (notify_cond_cb s) (has_pending s) (async_result s) (poll_session s) (next_op s) (answers s) (trace s).
Definition with_status x s := mkSocket (socket s) (family s) (type s) (protocol s) x (sub_status s) (cond s) (actual_priority s) (priority s) (bind_allow_reuse s) (notify_cond_cb s) (has_pending s) (async_result s) (poll_session s) (next_op s) (answers s) (trace s).
Definition with_sub_status x s := mkSocket (socket s) (family s) (type s) (protocol s) (status s) x (cond s) (actual_priority s) (priority s) (bind_allow_reuse s) (notify_cond_cb s) (has_pending s) (async_result s) (poll_session s) (next_op s) (answers s) (trace s).
Definition with_cond x s := mkSocket (socket s) (family s) (type s) (protocol s) (status s) (sub_status s) x (actual_priority s) (priority s) (bind_allow_reuse s) (notify_cond_cb s) (has_pending s) (async_result s) (poll_session s) (next_op s) (answers s) (trace s).
Definition with_priorities a p s := mkSocket (socket s) (family s) (type s) (protocol s) (status s) (sub_status s) (cond s) a p (bind_allow_reuse s) (notify_cond_cb s) (has_pending s) (async_result s) (poll_session s) (next_op s) (answers s) (trace s).
Definition with_notify x s := mkSocket (socket s) (family s) (type s) (protocol s) (status s) (sub_status s) (cond s) (actual_priority s) (priority s) (bind_allow_reuse s) x (has_pending s) (async_result s) (poll_session s) (next_op s) (answers s) (trace s).
Definition with_pending x s := mkSocket (socket s) (family s) (type s) (protocol s) (status s) (sub_status s) (cond s) (actual_priority s) (priority s) (bind_allow_reuse s) (notify_cond_cb s) x (async_result s) (poll_session s) (next_op s) (answers s) (trace s).
Definition with_async x s := mkSocket (socket s) (family s) (type s) (protocol s) (status s) (sub_status s) (cond s) (actual_priority s) (priority s) (bind_allow_reuse s) (notify_cond_cb s) (has_pending s) x (poll_session s) (next_op s) (answers s) (trace s).
Definition with_session x s := mkSocket (socket s) (family s) (type s) (protocol s) (status s) (sub_status s) (cond s) (actual_priority s) (priority s) (bind_allow_reuse s) (notify_cond_cb s) (has_pending s) (async_result s) x (next_op s) (answers s) (trace s).
Definition with_op x s := mkSocket (socket s) (family s) (type s) (protocol s) (status s) (sub_status s) (cond s) (actual_priority s) (priority s) (bind_allow_reuse s) (notify_cond_cb s) (has_pending s) (async_result s) (poll_session s) x (answers s) (trace s).
Definition emit e s := mkSocket (socket s) (family s) (type s) (protocol s) (status s) (sub_status s) (cond s) (actual_priority s) (priority s) (bind_allow_reuse s) (notify_cond_cb s) (has_pending s) (async_result s) (poll_session s) (next_op s) (answers s) (trace s ++ [e]).
Definition system_call s : answer * EvdSocket :=
  (default Ok (head (answers s)),
   mkSocket (socket s) (family s) (type s) (protocol s) (status s) (sub_status s) (cond s) (actual_priority s) (priority s) (bind_allow_reuse s) (notify_cond_cb s) (has_pending s) (async_result s) (poll_session s) (next_op s) (tail (answers s)) (trace s)).
Definition succeeds (a : answer) : bool := match a with Ok => true | _ => false end.

Definition G_PRIORITY_HIGH : Z := -100.
Definition G_PRIORITY_DEFAULT : Z := 0.
Definition G_PRIORITY_LOW : Z := 300.

Definition evd_socket_init (w : list answer) : EvdSocket :=
  mkSocket false FAMILY_INVALID TYPE_INVALID PROTOCOL_UNKNOWN EVD_SOCKET_STATE_CLOSED EVD_SOCKET_STATE_CLOSED 0
    G_PRIORITY_DEFAULT G_PRIORITY_DEFAULT false false false None false 0 w [].

(** ** Pieces *)

Definition SOCKET_ACTIVE s : bool :=
  bool_decide (status s = EVD_SOCKET_STATE_CONNECTED)
  || bool_decide (status s = EVD_SOCKET_STATE_BOUND) && bool_decide (protocol s = PROTOCOL_UDP).

Definition evd_socket_set_status s (st : EvdSocketState) : EvdSocket :=
  if decide (st = status s) then s else emit (StateChanged st (status s)) (with_status st s).

Definition evd_socket_setup s : EvdSocket * bool :=
  if socket s then (s, true)
  else
    let '(a, s) := system_call s in
    if succeeds a then (with_socket true s, true) else (s, false).

Definition evd_socket_watch s : EvdSocket * bool :=
  let '(a, s) := system_call (with_cond 0 s) in
  if poll_session s then (s, succeeds a) else (with_session (succeeds a) s, succeeds a).

Definition evd_socket_unwatch s : EvdSocket * bool :=
  if poll_session s then let '(a, s) := system_call s in (s, succeeds a) else (s, true).

Definition evd_socket_check_address s (address : GSocketAddress) : EvdSocket * bool :=
  if decide (family s ≠ FAMILY_INVALID) then
    if decide (family s = address_family address) then
      (with_address (family s)
         (match type s with
          | TYPE_INVALID => if decide (protocol s = PROTOCOL_UDP) then TYPE_DATAGRAM else TYPE_STREAM
          | t => t
          end) (match protocol s with PROTOCOL_UNKNOWN => PROTOCOL_DEFAULT | p => p end) s, true)
    else (s, false)
  else
    (with_address (address_family address)
       (match type s with
        | TYPE_INVALID => if decide (protocol s = PROTOCOL_UDP) then TYPE_DATAGRAM else TYPE_STREAM
        | t => t
        end) (match protocol s with PROTOCOL_UNKNOWN => PROTOCOL_DEFAULT | p => p end) s, true).

Definition evd_socket_is_connected s : bool := socket s.

(** Ends the operation under way, when there is one. *)
Definition finish (error : option socket_error) s : EvdSocket :=
  match async_result s with
  | Some op => with_async None (emit (Done op error) s)
  | None => s
  end.

Definition evd_socket_cleanup_internal s : EvdSocket * bool :=
  let s := with_cond 0 (with_address FAMILY_INVALID (type s) (protocol s) s) in
  let '(s, result) :=
    if socket s then
      let '(s, ok) := evd_socket_unwatch s in
      let '(s, ok) := if ok then let '(a, s) := system_call s in (s, succeeds a) else (s, false) in
      (with_socket false s, ok)
    else (s, true) in
  (with_pending false (with_session false s), result).

Definition evd_socket_check_availability s : option socket_error :=
  if has_pending s then Some ErrPending else if SOCKET_ACTIVE s then Some ErrBusy else None.

Definition evd_socket_throw_error s (e : socket_error) : EvdSocket := emit (ErrorSignal e) s.

(** ** Closing *)

Definition evd_socket_close s : EvdSocket * bool :=
  let s := finish (Some ErrClosed) s in
  if decide (status s = EVD_SOCKET_STATE_CLOSED ∨ status s = EVD_SOCKET_STATE_CLOSING) then (s, true)
  else
    let '(s, result) := evd_socket_cleanup_internal s in
    (emit CloseSignal (evd_socket_set_status s EVD_SOCKET_STATE_CLOSED), result).

Definition evd_socket_dispose s : EvdSocket :=
  (evd_socket_cleanup_internal (with_status EVD_SOCKET_STATE_CLOSED s)).1.

(** ** Addresses *)

Definition evd_socket_bind_addr_internal s (address : GSocketAddress) (allow_reuse : bool)
  : EvdSocket * option socket_error :=
  match evd_socket_check_address s address with
  | (s, false) => (s, Some ErrMismatch)
  | (s, true) =>
      match evd_socket_setup s with
      | (s, false) => (s, Some ErrSystem)
      | (s, true) =>
          let '(a, s) := system_call (emit (CallBind address allow_reuse) s) in
          if succeeds a then (evd_socket_set_status s EVD_SOCKET_STATE_BOUND, None)
          else ((evd_socket_cleanup_internal s).1, Some ErrSystem)
      end
  end.

(** The result and the error: a failure to listen is an error of a call that returns [true]. *)
Definition evd_socket_listen_addr_internal s (address : option GSocketAddress)
  : EvdSocket * bool * option socket_error :=
  let '(s, e) := match address with
                 | Some a => evd_socket_bind_addr_internal s a true
                 | None => (s, None)
                 end in
  match e with
  | Some e => (s, false, Some e)
  | None =>
      if decide (status s ≠ EVD_SOCKET_STATE_BOUND) then (s, false, Some ErrClosed)
      else
        let '(a, s) := system_call s in
        if succeeds a then
          match evd_socket_watch s with
          | (s, true) =>
              let s := with_priorities (G_PRIORITY_HIGH + 1) (priority s) (with_cond 0 s) in
              (evd_socket_set_status s EVD_SOCKET_STATE_LISTENING, true, None)
          | (s, false) => ((evd_socket_cleanup_internal s).1, false, Some ErrSystem)
          end
        else (s, true, Some ErrSystem)
  end.

Definition evd_socket_connect_addr_internal s (address : GSocketAddress) : EvdSocket * option socket_error :=
  match evd_socket_check_address s address with
  | (s, false) => (s, Some ErrMismatch)
  | (s, true) =>
      match evd_socket_setup s with
      | (s, false) => (s, Some ErrSystem)
      | (s, true) =>
          let '(a, s) := system_call (emit (CallConnect address) s) in
          match a with
          | Fails => (s, Some ErrSystem)
          | Ok | InProgress =>
              match evd_socket_watch s with
              | (s, false) => (s, Some ErrSystem)
              | (s, true) =>
                  let s := with_priorities (G_PRIORITY_HIGH + 2) (priority s) s in
                  (evd_socket_set_status s EVD_SOCKET_STATE_CONNECTING, None)
              end
          end
      end
  end.

(** The first address that suits the socket. *)
Fixpoint find_address s (addresses : list GSocketAddress) : EvdSocket * option GSocketAddress :=
  match addresses with
  | [] => (s, None)
  | a :: addresses =>
      match evd_socket_check_address s a with
      | (s, true) => (s, Some a)
      | (s, false) => find_address s addresses
      end
  end.

Definition complete s : EvdSocket :=
  match async_result s with Some _ => finish None (with_pending false s) | None => s end.

(** What is done with the address that was resolved. *)
Definition resolved_action s (address : GSocketAddress) : EvdSocket * option socket_error :=
  let action := sub_status s in
  let s := with_sub_status EVD_SOCKET_STATE_CLOSED s in
  match action with
  | EVD_SOCKET_STATE_LISTENING =>
      let '(s, ok, e) := evd_socket_listen_addr_internal s (Some address) in
      (if ok : bool then complete s else s, e)
  | EVD_SOCKET_STATE_BOUND =>
      let '(s, e) := evd_socket_bind_addr_internal s address (bind_allow_reuse s) in
      (match e with None => complete s | Some _ => s end, e)
  | EVD_SOCKET_STATE_CONNECTING => evd_socket_connect_addr_internal s address
  | _ => (s, None)
  end.

(** [None]: the resolution failed. *)
Definition evd_socket_on_address_resolved s (addresses : option (list GSocketAddress)) : EvdSocket :=
  if decide (status s ≠ EVD_SOCKET_STATE_RESOLVING) then s
  else
    let '(s, e) :=
      match addresses with
      | None => (s, Some ErrResolve)
      | Some addresses =>
          match find_address s addresses with
          | (s, Some a) => resolved_action s a
          | (s, None) => (s, Some ErrMismatch)
          end
      end in
    match e with
    | None => s
    | Some e => (evd_socket_close (evd_socket_throw_error (finish (Some e) s) e)).1
    end.

(** ** Operations *)

(** The operation gets a number; [with_async] on the socket comes with it. *)
Definition begin_op s : nat * EvdSocket := (next_op s, with_op (S (next_op s)) s).

(** [evd_socket_connect_to], [evd_socket_listen] and [evd_socket_bind] differ in the action. *)
Definition resolve_for (action : EvdSocketState) s : EvdSocket :=
  let '(op, s) := begin_op s in
  match evd_socket_check_availability s with
  | Some e => emit (Done op (Some e)) s
  | None =>
      let s := with_pending true (with_async (Some op) s) in
      with_sub_status action (evd_socket_set_status s EVD_SOCKET_STATE_RESOLVING)
  end.

Definition evd_socket_connect_to s : EvdSocket := resolve_for EVD_SOCKET_STATE_CONNECTING s.
Definition evd_socket_listen s : EvdSocket := resolve_for EVD_SOCKET_STATE_LISTENING s.
Definition evd_socket_bind s : EvdSocket := resolve_for EVD_SOCKET_STATE_BOUND s.

Definition evd_socket_connect_addr s (address : GSocketAddress) : EvdSocket :=
  let '(op, s) := begin_op s in
  match evd_socket_check_availability s with
  | Some e => emit (Done op (Some e)) s
  | None =>
      match evd_socket_connect_addr_internal s address with
      | (s, Some e) => emit (Done op (Some e)) s
      | (s, None) => with_async (Some op) (with_pending true s)
      end
  end.

Definition evd_socket_listen_addr s (address : option GSocketAddress) : EvdSocket * bool :=
  match evd_socket_check_availability s with
  | Some _ => (s, false)
  | None =>
      let '(s, ok, _) := evd_socket_listen_addr_internal (with_pending true s) address in
      (with_pending false s, ok)
  end.

Definition evd_socket_bind_addr s (address : GSocketAddress) (allow_reuse : bool) : EvdSocket * bool :=
  match evd_socket_check_availability s with
  | Some _ => (s, false)
  | None =>
      let '(s, e) := evd_socket_bind_addr_internal (with_pending true s) address allow_reuse in
      (with_pending false s, match e with None => true | Some _ => false end)
  end.

Definition evd_socket_set_priority s (p : Z) : EvdSocket :=
  if (G_PRIORITY_HIGH <=? p) && (p <=? G_PRIORITY_LOW) then
    with_priorities (if actual_priority s =? priority s then p else actual_priority s) p s
  else s.

Definition evd_socket_set_notify_condition_callback s (set : bool) : EvdSocket := with_notify set s.
Definition evd_socket_get_condition s : Z := cond s.

(** The conditions that were seen are kept, those of the mask are forgotten. *)
Definition evd_socket_watch_condition s (mask : Z) : EvdSocket * bool :=
  if SOCKET_ACTIVE s then (with_cond (Z.lnot mask) s, true) else (s, false).

Definition evd_socket_shutdown s : EvdSocket * bool :=
  if evd_socket_is_connected s then let '(a, s) := system_call s in (s, succeeds a) else (s, false).

(** ** Conditions *)

Inductive accept_answer := Accepted (watched : bool) | AcceptBlocks | AcceptFails.

(** The client of an accepted connection; [w] has the answers of its poll. *)
Definition evd_socket_accept (w : list answer) : option EvdSocket :=
  match evd_socket_watch (with_socket true (evd_socket_init w)) with
  | (client, true) => Some (evd_socket_set_status client EVD_SOCKET_STATE_CONNECTED)
  | (_, false) => None
  end.

(** The loop over [evd_socket_accept]; past the end of the answers accepting would block. *)
Fixpoint accept_loop s (accepts : list accept_answer) : EvdSocket :=
  match accepts with
  | Accepted true :: accepts => accept_loop (emit NewConnection s) accepts
  | Accepted false :: _ | AcceptFails :: _ => evd_socket_throw_error s ErrSystem
  | AcceptBlocks :: _ | [] => s
  end.

Definition evd_socket_handle_condition s (condition : Z) (accepts : list accept_answer) : EvdSocket :=
  if condition =? cond s then s
  else
    let s := with_cond condition s in
    let s :=
      if decide (status s = EVD_SOCKET_STATE_LISTENING) then
        accept_loop (with_cond (Z.ldiff condition G_IO_IN) s) accepts
      else if has condition G_IO_ERR then
        let '(s, e) :=
          if decide (status s = EVD_SOCKET_STATE_CONNECTING)
          then (finish (Some ErrRefused) s, ErrRefused) else (s, ErrUnknown) in
        (evd_socket_close (evd_socket_throw_error s e)).1
      else if decide (status s = EVD_SOCKET_STATE_CONNECTING) then
        if has condition G_IO_OUT then
          let s := with_priorities (priority s) (priority s) (with_pending false s) in
          finish None (evd_socket_set_status s EVD_SOCKET_STATE_CONNECTED)
        else s
      else s in
    if SOCKET_ACTIVE s && notify_cond_cb s then emit (Notify condition) s else s.

End Socket.
