(* ===== verification/SocketSpec.v ===== *)
(** * Sockets: theorems

    The operations of a socket end once, and its changes of state follow the arrows of the state
    machine. *)
From S2P Require Import Prelude Socket.
Import Socket.

Module SocketSpec.

(** ** The state machine *)

Definition legal (old_status new_status : EvdSocketState) : bool :=
  match old_status, new_status with
  | EVD_SOCKET_STATE_CLOSED, (EVD_SOCKET_STATE_RESOLVING | EVD_SOCKET_STATE_BOUND | EVD_SOCKET_STATE_CONNECTING) => true
  | EVD_SOCKET_STATE_RESOLVING, (EVD_SOCKET_STATE_BOUND | EVD_SOCKET_STATE_CONNECTING | EVD_SOCKET_STATE_CLOSED) => true
  | EVD_SOCKET_STATE_BOUND, (EVD_SOCKET_STATE_RESOLVING | EVD_SOCKET_STATE_LISTENING | EVD_SOCKET_STATE_CONNECTING
                             | EVD_SOCKET_STATE_CLOSED) => true
  | EVD_SOCKET_STATE_LISTENING, (EVD_SOCKET_STATE_RESOLVING | EVD_SOCKET_STATE_BOUND | EVD_SOCKET_STATE_CONNECTING
                                 | EVD_SOCKET_STATE_CLOSED) => true
  | EVD_SOCKET_STATE_CONNECTING, (EVD_SOCKET_STATE_CONNECTED | EVD_SOCKET_STATE_CLOSED) => true
  | EVD_SOCKET_STATE_CONNECTED, EVD_SOCKET_STATE_CLOSED => true
  | _, _ => false
  end.

(** The signals of [t] lead from one state to another by legal changes; the others do not count. *)
Inductive path : EvdSocketState → list event → EvdSocketState → Prop :=
  | path_nil st : path st [] st
  | path_change st st' t st'' : legal st st' = true → path st' t st'' → path st (StateChanged st' st :: t) st''
  | path_other st e t st' : (∀ a b, e ≠ StateChanged a b) → path st t st' → path st (e :: t) st'.

Lemma path_app a t b u c : path a t b → path b u c → path a (t ++ u) c.
Proof. induction 1; intros Hu; [done|constructor; auto..]. Qed.

(** ** What a piece of an operation does *)

Definition done_of (o : nat) (e : event) : bool := match e with Done o' _ => bool_decide (o' = o) | _ => false end.
Definition done_count (o : nat) (t : list event) : nat := length (filter (λ e, done_of o e = true) t).
Definition outstanding (o : nat) (s : EvdSocket) : nat := if decide (async_result s = Some o) then 1 else 0.

Lemma sock_done_count_app o t u : (done_count o (t ++ u) = done_count o t + done_count o u)%nat.
Proof. unfold done_count. by rewrite filter_app, length_app. Qed.

Lemma sock_done_count_one o op e : done_count o [Done op e] = if decide (Some op = Some o) then 1%nat else 0%nat.
Proof.
  unfold done_count. destruct (decide (op = o)) as [->|Hne].
  - rewrite filter_cons_True by (simpl; by apply bool_decide_eq_true_2). by rewrite decide_True.
  - rewrite filter_cons_False by (simpl; by rewrite bool_decide_eq_false_2). by rewrite decide_False by congruence.
Qed.

(** The trace grows along legal changes, and the operation under way ends at most once. *)
Definition evolves (s s' : EvdSocket) : Prop :=
  ∃ t, trace s' = trace s ++ t ∧ path (status s) t (status s') ∧
    (∀ o, (done_count o t + outstanding o s' = outstanding o s)%nat) ∧ next_op s' = next_op s.

Lemma sock_evolves_trans s1 s2 s3 : evolves s1 s2 → evolves s2 s3 → evolves s1 s3.
Proof.
  intros (t & T1 & P1 & D1 & N1) (u & T2 & P2 & D2 & N2). exists (t ++ u). split_and!.
  - by rewrite T2, T1, app_assoc.
  - by eapply path_app.
  - intros o. rewrite sock_done_count_app. specialize (D1 o). specialize (D2 o). lia.
  - congruence.
Qed.

(** Nothing of this changes. *)
Record same (s s' : EvdSocket) : Prop := mkSame {
  same_trace : trace s' = trace s;
  same_status : status s' = status s;
  same_async : async_result s' = async_result s;
  same_next : next_op s' = next_op s
}.

Lemma same_evolves s s' : same s s' → evolves s s'.
Proof.
  intros [T S A N]. exists []. rewrite app_nil_r, S. split_and!; [done|constructor| |done].
  intros o. unfold outstanding. by rewrite A.
Qed.

Lemma sock_same_trans s1 s2 s3 : same s1 s2 → same s2 s3 → same s1 s3.
Proof. intros [] []. split; congruence. Qed.

Lemma sock_evolves_refl s : evolves s s.
Proof. by apply same_evolves. Qed.

Lemma emit_evolves e s : (∀ a b, e ≠ StateChanged a b) → (∀ o r, e ≠ Done o r) → evolves s (emit e s).
Proof.
  intros H1 H2. exists [e]. split_and!; [done|by repeat constructor| |done].
  intros o. unfold done_count. rewrite filter_cons_False; [done|]. destruct e; try done. by destruct (H2 op error).
Qed.

Lemma set_status_evolves s st : status s = st ∨ legal (status s) st = true → evolves s (evd_socket_set_status s st).
Proof.
  intros Hl. unfold evd_socket_set_status. case_decide as Hst; [apply sock_evolves_refl|]. destruct Hl as [?|Hl]; [done|].
  exists [StateChanged st (status s)]. split_and!; [done|by repeat constructor|done|done].
Qed.

Lemma finish_evolves e s : evolves s (finish e s).
Proof.
  unfold finish. destruct (async_result s) as [op|] eqn:Ea; [|apply sock_evolves_refl].
  exists [Done op e]. split_and!; [done|by repeat constructor| |done].
  intros o. rewrite sock_done_count_one. unfold outstanding. rewrite Ea. cbn [async_result with_async emit]. rewrite (decide_False (P := None = Some o)) by done. lia.
Qed.

Lemma complete_evolves s : evolves s (complete s).
Proof.
  unfold complete. destruct (async_result s); [|apply sock_evolves_refl].
  eapply sock_evolves_trans; [|apply finish_evolves]. by apply same_evolves.
Qed.

(** ** Pieces *)

Lemma setup_same s s' b : evd_socket_setup s = (s', b) → same s s' ∧ (b = true → socket s' = true) ∧
  has_pending s' = has_pending s ∧ poll_session s' = poll_session s ∧ sub_status s' = sub_status s.
Proof.
  unfold evd_socket_setup, system_call. destruct (socket s) eqn:E; [by intros [= <- <-]|].
  case_match; by intros [= <- <-].
Qed.

Lemma watch_same s s' b : evd_socket_watch s = (s', b) → same s s' ∧ socket s' = socket s ∧ has_pending s' = has_pending s ∧
  sub_status s' = sub_status s ∧ (b = true → poll_session s' = true).
Proof.
  unfold evd_socket_watch, system_call. cbn [poll_session with_cond]. destruct (poll_session s) eqn:E; by intros [= <- <-].
Qed.

Lemma check_address_same s a s' b : evd_socket_check_address s a = (s', b) → same s s' ∧ socket s' = socket s ∧
  has_pending s' = has_pending s ∧ poll_session s' = poll_session s ∧ sub_status s' = sub_status s.
Proof. unfold evd_socket_check_address. repeat case_decide; by intros [= <- <-]. Qed.

Lemma cleanup_same s : same s (evd_socket_cleanup_internal s).1 ∧ has_pending (evd_socket_cleanup_internal s).1 = false ∧
  socket (evd_socket_cleanup_internal s).1 = false ∧ sub_status (evd_socket_cleanup_internal s).1 = sub_status s.
Proof.
  unfold evd_socket_cleanup_internal, evd_socket_unwatch, system_call. cbn [socket with_cond with_address].
  destruct (socket s) eqn:E; [|done]. cbn [poll_session with_cond with_address].
  destruct (poll_session s); repeat case_match; simplify_eq/=; done.
Qed.

(** The states from which an address may be used. *)
Definition idle (st : EvdSocketState) : Prop :=
  st = EVD_SOCKET_STATE_CLOSED ∨ st = EVD_SOCKET_STATE_RESOLVING ∨ st = EVD_SOCKET_STATE_BOUND ∨ st = EVD_SOCKET_STATE_LISTENING.

Lemma idle_bound st : idle st → st = EVD_SOCKET_STATE_BOUND ∨ legal st EVD_SOCKET_STATE_BOUND = true.
Proof. intros [->|[->|[->| ->]]]; auto. Qed.

Lemma idle_connecting st : idle st → legal st EVD_SOCKET_STATE_CONNECTING = true.
Proof. by intros [->|[->|[->| ->]]]. Qed.

(** The operation under way, if any, is the same. *)
Record step_to (s s' : EvdSocket) : Prop := mkStepTo {
  to_evolves : evolves s s';
  to_async : async_result s' = async_result s;
  to_pending : has_pending s' = true → has_pending s = true
}.

Lemma step_to_trans s1 s2 s3 : step_to s1 s2 → step_to s2 s3 → step_to s1 s3.
Proof. intros [] []. split; [by eapply sock_evolves_trans|congruence|auto]. Qed.

Lemma same_step s s' : same s s' → has_pending s' = has_pending s → step_to s s'.
Proof. intros Hs Hp. split; [by apply same_evolves|by apply Hs|by rewrite Hp]. Qed.

Lemma set_status_fields s st : async_result (evd_socket_set_status s st) = async_result s ∧
  has_pending (evd_socket_set_status s st) = has_pending s ∧ status (evd_socket_set_status s st) = st ∧
  socket (evd_socket_set_status s st) = socket s ∧ poll_session (evd_socket_set_status s st) = poll_session s ∧
  next_op (evd_socket_set_status s st) = next_op s ∧ sub_status (evd_socket_set_status s st) = sub_status s.
Proof. unfold evd_socket_set_status. by case_decide. Qed.

Lemma set_status_step s st : status s = st ∨ legal (status s) st = true → step_to s (evd_socket_set_status s st).
Proof.
  intros Hl. destruct (set_status_fields s st) as (A & P & _). split; [by apply set_status_evolves|done|by rewrite P].
Qed.

Lemma cleanup_step s : step_to s (evd_socket_cleanup_internal s).1.
Proof.
  destruct (cleanup_same s) as (Hs & Hp & _). split; [by apply same_evolves|by apply Hs|by rewrite Hp].
Qed.

Lemma system_call_same s : same s (system_call s).2 ∧ has_pending (system_call s).2 = has_pending s ∧
  socket (system_call s).2 = socket s ∧ poll_session (system_call s).2 = poll_session s.
Proof. done. Qed.

Lemma emit_step e s : (∀ a b, e ≠ StateChanged a b) → (∀ o r, e ≠ Done o r) → step_to s (emit e s).
Proof. intros H1 H2. split; [by apply emit_evolves|done|done]. Qed.

(** The checks on the address, and the GSocket. *)
Lemma prepare_step s a s1 s2 b : evd_socket_check_address s a = (s1, true) → evd_socket_setup s1 = (s2, b) →
  step_to s s2 ∧ status s2 = status s ∧ has_pending s2 = has_pending s ∧ (b = true → socket s2 = true).
Proof.
  intros (S1 & _ & P1 & _)%check_address_same (S2 & K2 & P2 & _)%setup_same. split_and!.
  - eapply step_to_trans; by apply same_step.
  - by rewrite (same_status _ _ S2), (same_status _ _ S1).
  - congruence.
  - done.
Qed.

Lemma bind_addr_step s a r s' e :
  idle (status s) → evd_socket_bind_addr_internal s a r = (s', e) →
  step_to s s' ∧ status s' = (if e is None then EVD_SOCKET_STATE_BOUND else status s) ∧
  (e = None → has_pending s' = has_pending s).
Proof.
  intros Hi. unfold evd_socket_bind_addr_internal.
  destruct (evd_socket_check_address s a) as [s1 [|]] eqn:E1; cycle 1.
  { intros [= <- <-]. apply check_address_same in E1 as (S1 & _ & P1 & _). split_and!; [by apply same_step|by apply S1|done]. }
  destruct (evd_socket_setup s1) as [s2 b] eqn:E2. destruct (prepare_step _ _ _ _ _ E1 E2) as (St & Ss & Sp & _).
  destruct b; [|by intros [= <- <-]]. destruct (system_call _) as [x s3] eqn:E3. unfold system_call in E3. injection E3 as <- <-.
  set (s3 := mkSocket _ _ _ _ _ _ _ _ _ _ _ _ _ _ _ _ _). assert (step_to s s3) as S3.
  { eapply step_to_trans; [exact St|]. eapply step_to_trans; [by apply (emit_step (CallBind a r))|]. by apply same_step. }
  assert (status s3 = status s) as Es by exact Ss. case_match; intros [= <- <-].
  - destruct (set_status_fields s3 EVD_SOCKET_STATE_BOUND) as (_ & P & St' & _). split_and!; [|done|intros _; rewrite P; exact Sp].
    eapply step_to_trans; [exact S3|]. apply set_status_step. rewrite Es. by apply idle_bound.
  - destruct (cleanup_same s3) as (Hs & _). split_and!; [|by rewrite (same_status _ _ Hs)|done].
    eapply step_to_trans; [exact S3|apply cleanup_step].
Qed.

Lemma connect_addr_step s a s' e :
  idle (status s) → evd_socket_connect_addr_internal s a = (s', e) →
  step_to s s' ∧ has_pending s' = has_pending s ∧
  status s' = (if e is None then EVD_SOCKET_STATE_CONNECTING else status s) ∧
  (e = None → socket s' = true ∧ poll_session s' = true).
Proof.
  intros Hi. unfold evd_socket_connect_addr_internal.
  destruct (evd_socket_check_address s a) as [s1 [|]] eqn:E1; cycle 1.
  { intros [= <- <-]. apply check_address_same in E1 as (S1 & _ & P1 & _). split_and!; [by apply same_step|done|by apply S1|done]. }
  destruct (evd_socket_setup s1) as [s2 b] eqn:E2. destruct (prepare_step _ _ _ _ _ E1 E2) as (St & Ss & Sp & Sk).
  destruct b; [|by intros [= <- <-]]. destruct (system_call _) as [x s3] eqn:E3. unfold system_call in E3. injection E3 as _ <-.
  set (s3 := mkSocket _ _ _ _ _ _ _ _ _ _ _ _ _ _ _ _ _). assert (step_to s s3) as S3.
  { eapply step_to_trans; [exact St|]. eapply step_to_trans; [by apply (emit_step (CallConnect a))|]. by apply same_step. }
  assert (∀ s4 b, evd_socket_watch s3 = (s4, b) → step_to s s4 ∧ has_pending s4 = has_pending s ∧ status s4 = status s ∧
            socket s4 = true ∧ (b = true → poll_session s4 = true)) as Hw.
  { intros s4 b (S4 & K4 & P4 & _ & L4)%watch_same. split_and!; [|by rewrite P4|by rewrite (same_status _ _ S4)|rewrite K4; by apply Sk|done].
    eapply step_to_trans; [exact S3|by apply same_step]. }
  destruct x; [| |by intros [= <- <-]].
  all: destruct (evd_socket_watch s3) as [s4 [|]] eqn:E4; destruct (Hw _ _ eq_refl) as (W1 & W2 & W3 & W4 & W5);
    intros [= <- <-]; [|by split_and!].
  all: match goal with |- context [evd_socket_set_status ?x ?st] => set (s5 := x); destruct (set_status_fields s5 st) as (_ & P & Q & R & T & _) end;
    split_and!; [|by rewrite P|done|by rewrite R, T; auto].
  all: eapply step_to_trans; [exact W1|]; eapply (step_to_trans _ s5); [by apply same_step|]; apply set_status_step; right;
    change (status s5) with (status s4); rewrite W3; by apply idle_connecting.
Qed.

Lemma listen_addr_step s a s' b e :
  idle (status s) → evd_socket_listen_addr_internal s a = (s', b, e) →
  step_to s s' ∧
  match b, e with
  | true, None => status s' = EVD_SOCKET_STATE_LISTENING
  | true, Some _ => status s' = EVD_SOCKET_STATE_BOUND
  | false, Some _ => status s' = EVD_SOCKET_STATE_BOUND ∨ status s' = status s
  | false, None => False
  end.
Proof.
  intros Hi. unfold evd_socket_listen_addr_internal.
  assert (∃ s1 e1, match a with Some a => evd_socket_bind_addr_internal s a true | None => (s, None) end = (s1, e1) ∧
    step_to s s1 ∧ (e1 ≠ None → status s1 = status s) ∧ (status s1 = EVD_SOCKET_STATE_BOUND ∨ status s1 = status s)) as (s1 & e1 & -> & S1 & Hs1 & Hs1').
  { destruct a as [a|]; [|exists s, None; split_and!; [done|by apply same_step|done|by right]].
    destruct (evd_socket_bind_addr_internal s a true) as [s1 e1] eqn:E. destruct (bind_addr_step _ _ _ _ _ Hi E) as (H1 & H2 & _).
    exists s1, e1. split_and!; [done|done|by destruct e1|destruct e1; auto]. }
  destruct e1 as [e1|]; [intros [= <- <- <-]; split; [done|by right; apply Hs1]|].
  case_decide as Hb; [intros [= <- <- <-]; by split|].
  destruct (system_call s1) as [x s2] eqn:E2. assert (step_to s s2) as S2.
  { eapply step_to_trans; [exact S1|]. unfold system_call in E2. injection E2 as _ <-. by apply same_step. }
  assert (status s2 = EVD_SOCKET_STATE_BOUND) as Hb2 by (unfold system_call in E2; by injection E2 as _ <-).
  case_match; [|intros [= <- <- <-]; by split].
  destruct (evd_socket_watch s2) as [s3 [|]] eqn:E3; apply watch_same in E3 as (S3 & _ & P3 & _); intros [= <- <- <-].
  - match goal with |- context [evd_socket_set_status ?x ?st] => set (s4 := x); destruct (set_status_fields s4 st) as (_ & _ & Q & _) end.
    split; [|done]. eapply step_to_trans; [exact S2|]. eapply (step_to_trans _ s3); [by apply same_step|].
    eapply (step_to_trans _ s4); [by apply same_step|]. apply set_status_step. right.
    change (status s4) with (status s3). by rewrite (same_status _ _ S3), Hb2.
  - destruct (cleanup_same s3) as (Hs & _). split; [|left; by rewrite (same_status _ _ Hs), (same_status _ _ S3)].
    eapply step_to_trans; [exact S2|]. eapply (step_to_trans _ s3); [by apply same_step|apply cleanup_step].
Qed.

(** ** Invariant *)

Definition busy (st : EvdSocketState) : Prop := st = EVD_SOCKET_STATE_RESOLVING ∨ st = EVD_SOCKET_STATE_CONNECTING.

Record sock_ok (s : EvdSocket) : Prop := mkOk {
  ok_pending : has_pending s = true ↔ is_Some (async_result s);
  ok_busy : has_pending s = true ↔ busy (status s);
  ok_reached : status s ≠ EVD_SOCKET_STATE_TLS_HANDSHAKING ∧ status s ≠ EVD_SOCKET_STATE_CLOSING;
  ok_live : status s = EVD_SOCKET_STATE_CONNECTED ∨ status s = EVD_SOCKET_STATE_CONNECTING →
    socket s = true ∧ poll_session s = true;
  ok_op : ∀ o, async_result s = Some o → (o < next_op s)%nat
}.

(** No operation under way. *)
Lemma resting_ok s :
  has_pending s = false → async_result s = None → ¬ busy (status s) →
  status s ≠ EVD_SOCKET_STATE_TLS_HANDSHAKING ∧ status s ≠ EVD_SOCKET_STATE_CLOSING →
  (status s = EVD_SOCKET_STATE_CONNECTED → socket s = true ∧ poll_session s = true) → sock_ok s.
Proof.
  intros Hp Ha Hb Hr Hl. split; rewrite ?Hp, ?Ha; try done.
  - intros [?|Hc]; [auto|]. destruct Hb. by right.
Qed.

(** Operations: [issued] ones are numbered from [next_op]. *)
Definition progress (s s' : EvdSocket) : Prop :=
  ∃ t, trace s' = trace s ++ t ∧ path (status s) t (status s') ∧ (next_op s <= next_op s')%nat ∧
    ∀ o, (done_count o t + outstanding o s' =
      outstanding o s + if (next_op s <=? o) && (o <? next_op s') then 1 else 0)%nat.

Lemma evolves_progress s s' : evolves s s' → progress s s'.
Proof.
  intros (t & T & P & D & N). exists t. split_and!; [done|done|lia|]. intros o. rewrite D, N.
  destruct (Nat.leb_spec (next_op s) o), (Nat.ltb_spec o (next_op s)); simpl; lia.
Qed.

Lemma progress_evolves s1 s2 s3 : progress s1 s2 → evolves s2 s3 → progress s1 s3.
Proof.
  intros (t & T1 & P1 & L1 & D1) (u & T2 & P2 & D2 & N2). exists (t ++ u). split_and!.
  - by rewrite T2, T1, app_assoc.
  - by eapply path_app.
  - lia.
  - intros o. rewrite sock_done_count_app, N2. specialize (D1 o). specialize (D2 o). lia.
Qed.

Lemma close_spec s s' b :
  (status s = EVD_SOCKET_STATE_CLOSED → has_pending s = false) →
  status s ≠ EVD_SOCKET_STATE_TLS_HANDSHAKING ∧ status s ≠ EVD_SOCKET_STATE_CLOSING →
  evd_socket_close s = (s', b) → evolves s s' ∧ sock_ok s' ∧ status s' = EVD_SOCKET_STATE_CLOSED.
Proof.
  intros Hc [Hr1 Hr2]. unfold evd_socket_close. set (s1 := finish (Some ErrClosed) s).
  assert (evolves s s1) as E1 by apply finish_evolves.
  assert (status s1 = status s ∧ has_pending s1 = has_pending s ∧ async_result s1 = None) as (S1 & P1 & A1)
    by (unfold s1, finish; by destruct (async_result s) eqn:E).
  rewrite S1. case_decide as Hd.
  - destruct Hd as [Hd|]; [|done]. intros [= <- <-]. rewrite S1. split_and!; [done| |done].
    apply resting_ok; rewrite ?S1, ?P1, ?Hd; auto; [intros [?|?]; done|done].
  - destruct (cleanup_same s1) as (Hs & Hp & _). pose proof (cleanup_step s1) as [E2 A2 _].
    destruct (evd_socket_cleanup_internal s1) as [s2 r]. cbn [fst] in *. intros [= <- <-].
    pose proof (set_status_fields s2 EVD_SOCKET_STATE_CLOSED) as (A3 & P3 & S3 & _). split_and!; [| |done].
    + eapply sock_evolves_trans; [exact E1|]. eapply sock_evolves_trans; [exact E2|]. eapply sock_evolves_trans; [|by apply emit_evolves].
      apply set_status_evolves. rewrite (same_status _ _ Hs), S1. right. destruct (status s); try done; [by destruct Hd; left].
    + apply resting_ok; cbn [has_pending async_result status emit]; rewrite ?P3, ?A3, ?S3, ?A2; try done. by intros [?|?].
Qed.

(** ** Operations *)

Inductive operation :=
  | OpConnectTo
  | OpConnectAddr (a : GSocketAddress)
  | OpListen
  | OpListenAddr (a : option GSocketAddress)
  | OpBind
  | OpBindAddr (a : GSocketAddress) (allow_reuse : bool)
  | OpResolved (addresses : option (list GSocketAddress))
  | OpCondition (z : Z) (accepts : list accept_answer)
  | OpClose
  | OpSetPriority (p : Z)
  | OpSetNotify (set : bool)
  | OpWatch (mask : Z)
  | OpShutdown.

Definition exec (s : EvdSocket) (o : operation) : EvdSocket :=
  match o with
  | OpConnectTo => evd_socket_connect_to s
  | OpConnectAddr a => evd_socket_connect_addr s a
  | OpListen => evd_socket_listen s
  | OpListenAddr a => (evd_socket_listen_addr s a).1
  | OpBind => evd_socket_bind s
  | OpBindAddr a r => (evd_socket_bind_addr s a r).1
  | OpResolved addresses => evd_socket_on_address_resolved s addresses
  | OpCondition z accepts => evd_socket_handle_condition s z accepts
  | OpClose => (evd_socket_close s).1
  | OpSetPriority p => evd_socket_set_priority s p
  | OpSetNotify b => evd_socket_set_notify_condition_callback s b
  | OpWatch mask => (evd_socket_watch_condition s mask).1
  | OpShutdown => (evd_socket_shutdown s).1
  end.

(** The arithmetic of an operation that was given the number [n]. *)
Ltac count_op n o :=
  destruct (Nat.leb_spec n o), (Nat.ltb_spec o (S n)), (decide (Some n = Some o)) as [[= Ho]|Ho]; simpl; try lia;
  destruct Ho; f_equal; lia.

(** What an operation that is available finds. *)
Lemma available s : sock_ok s → evd_socket_check_availability s = None →
  has_pending s = false ∧ async_result s = None ∧
  (status s = EVD_SOCKET_STATE_CLOSED ∨ status s = EVD_SOCKET_STATE_BOUND ∨ status s = EVD_SOCKET_STATE_LISTENING).
Proof.
  intros [O1 O2 [O3 O3'] _ _]. unfold evd_socket_check_availability, SOCKET_ACTIVE.
  destruct (has_pending s) eqn:Hp; [done|]. case_match eqn:Ha; [done|]. intros _. split_and!; [done| |].
  - destruct (async_result s) as [op|] eqn:E; [|done]. assert (false = true); [apply O1; by exists op|done].
  - apply orb_false_iff in Ha as [Hc%bool_decide_eq_false _]. assert (¬ busy (status s)) as Hb by (intros Hb%O2; done).
    unfold busy in Hb. destruct (status s); naive_solver.
Qed.

Lemma resolve_for_ok action s : sock_ok s → progress s (resolve_for action s) ∧ sock_ok (resolve_for action s).
Proof.
  intros Hok. unfold resolve_for. cbn [begin_op]. set (s1 := with_op (S (next_op s)) s).
  change (evd_socket_check_availability s1) with (evd_socket_check_availability s).
  destruct (evd_socket_check_availability s) as [e|] eqn:Ea.
  - split.
    + exists [Done (next_op s) (Some e)]. split_and!; [done|by repeat constructor|simpl; lia|]. intros o. rewrite sock_done_count_one.
      unfold outstanding. cbn [async_result emit s1 with_op next_op].
      count_op (next_op s) o.
    + destruct Hok as [O1 O2 O3 O4 O5]. split; try done. intros o Ho. specialize (O5 o Ho). simpl. lia.
  - destruct (available s Hok Ea) as (Hp & Ha & Hs). set (s2 := with_pending true (with_async (Some (next_op s)) s1)).
    destruct (set_status_fields s2 EVD_SOCKET_STATE_RESOLVING) as (A & P & S' & K & L & N & _). split.
    + assert (evolves s2 (with_sub_status action (evd_socket_set_status s2 EVD_SOCKET_STATE_RESOLVING))) as (t & T & Pt & D & Nx).
      { eapply sock_evolves_trans; [|by apply same_evolves]. apply set_status_evolves. right.
        change (status s2) with (status s). destruct Hs as [->|[->| ->]]; done. }
      exists t. split_and!; [done|done|rewrite Nx; simpl; lia|]. intros o. rewrite D, Nx. unfold outstanding. rewrite Ha.
      cbn [s2 async_result with_async with_pending next_op s1 with_op]. rewrite (decide_False (P := None = Some o)) by done.
      count_op (next_op s) o.
    + split; cbn [has_pending async_result status socket poll_session next_op with_sub_status]; rewrite ?A, ?P, ?S', ?K, ?L, ?N; try done.
      * split; [by left|done].
      * by intros [?|?].
      * simpl. intros o [= <-]. lia.
Qed.

Lemma connect_addr_ok a s : sock_ok s → progress s (evd_socket_connect_addr s a) ∧ sock_ok (evd_socket_connect_addr s a).
Proof.
  intros Hok. unfold evd_socket_connect_addr. cbn [begin_op]. set (s1 := with_op (S (next_op s)) s).
  change (evd_socket_check_availability s1) with (evd_socket_check_availability s).
  assert (∀ s2 e, step_to s1 s2 → progress s (emit (Done (next_op s) e) s2)) as Hfail.
  { intros s2 e [(t & T & P & D & N) A _]. exists (t ++ [Done (next_op s) e]). split_and!.
    - simpl. by rewrite T, <-app_assoc.
    - eapply path_app; [exact P|]. by repeat constructor.
    - cbn [next_op emit]. rewrite N. simpl. lia.
    - intros o. rewrite sock_done_count_app, sock_done_count_one. specialize (D o). unfold outstanding in *. cbn [async_result emit next_op] in *.
      rewrite N. cbn [s1 next_op with_op async_result] in *.
      count_op (next_op s) o. }
  destruct (evd_socket_check_availability s) as [e|] eqn:Ea.
  { split; [by apply Hfail, same_step|]. destruct Hok as [O1 O2 O3 O4 O5]. split; try done. intros o Ho. specialize (O5 o Ho). simpl. lia. }
  destruct (available s Hok Ea) as (Hp & Ha & Hs). assert (idle (status s1)) as Hi by (unfold idle; change (status s1) with (status s); tauto).
  destruct (evd_socket_connect_addr_internal s1 a) as [s2 e] eqn:E2.
  destruct (connect_addr_step _ _ _ _ Hi E2) as (St & Hpend & Hst & Hlive).
  destruct e as [e|].
  - split; [by apply Hfail|]. assert (async_result s2 = None) as Ha2 by (rewrite (to_async _ _ St); exact Ha).
    apply resting_ok; cbn [has_pending async_result status emit socket poll_session]; rewrite ?Hpend, ?Hst; try done.
    all: change (status s1) with (status s); destruct Hs as [->|[->| ->]]; done || by intros [?|?].
  - split.
    + destruct (to_evolves _ _ St) as (t & T & P & D & N). exists t. split_and!; [done|done|cbn [next_op with_async with_pending]; rewrite N; simpl; lia|].
      intros o. specialize (D o). cbn [next_op with_async with_pending]. rewrite N. unfold outstanding in *.
      rewrite (to_async _ _ St) in D. change (async_result s1) with (async_result s) in D. rewrite Ha in *. cbn [async_result with_async s1 next_op with_op].
      count_op (next_op s) o.
    + destruct (Hlive eq_refl) as [Hk Hl]. split; cbn [has_pending async_result status socket poll_session next_op with_async with_pending];
        rewrite ?Hst, ?Hk, ?Hl; try done.
      * split; [by right|done].
      * intros o [= <-]. destruct (to_evolves _ _ St) as (_ & _ & _ & _ & ->). simpl. lia.
Qed.

(** A synchronous operation leaves no operation behind. *)
Lemma sync_ok s s' : step_to s s' → async_result s = None →
  status s' = EVD_SOCKET_STATE_CLOSED ∨ status s' = EVD_SOCKET_STATE_BOUND ∨ status s' = EVD_SOCKET_STATE_LISTENING →
  sock_ok (with_pending false s').
Proof.
  intros St Ha Hs. apply resting_ok; cbn [has_pending async_result status socket poll_session with_pending]; [done| | | |].
  - by rewrite (to_async _ _ St).
  - destruct Hs as [->|[->| ->]]; by intros [?|?].
  - destruct Hs as [->|[->| ->]]; done.
  - destruct Hs as [->|[->| ->]]; done.
Qed.

Lemma sync_evolves s s' : step_to (with_pending true s) s' → evolves s (with_pending false s').
Proof.
  intros St. eapply (sock_evolves_trans _ (with_pending true s)); [by apply same_evolves|].
  eapply sock_evolves_trans; [apply St|by apply same_evolves].
Qed.

Lemma listen_addr_ok a s : sock_ok s → evolves s (evd_socket_listen_addr s a).1 ∧ sock_ok (evd_socket_listen_addr s a).1.
Proof.
  intros Hok. unfold evd_socket_listen_addr. destruct (evd_socket_check_availability s) as [e|] eqn:Ea; [by split; [apply sock_evolves_refl|]|].
  destruct (available s Hok Ea) as (Hp & Ha & Hs). set (s1 := with_pending true s).
  assert (idle (status s1)) as Hi by (unfold idle; change (status s1) with (status s); tauto).
  destruct (evd_socket_listen_addr_internal s1 a) as [[s2 b] e] eqn:E. destruct (listen_addr_step _ _ _ _ _ Hi E) as [St Hst].
  cbn [fst]. split; [by apply sync_evolves|]. apply (sync_ok s1); [done..|].
  destruct b, e; [|auto|destruct Hst as [->| ->]; auto|done]. by right; left.
Qed.

Lemma bind_addr_ok a r s : sock_ok s → evolves s (evd_socket_bind_addr s a r).1 ∧ sock_ok (evd_socket_bind_addr s a r).1.
Proof.
  intros Hok. unfold evd_socket_bind_addr. destruct (evd_socket_check_availability s) as [e|] eqn:Ea; [by split; [apply sock_evolves_refl|]|].
  destruct (available s Hok Ea) as (Hp & Ha & Hs). set (s1 := with_pending true s).
  assert (idle (status s1)) as Hi by (unfold idle; change (status s1) with (status s); tauto).
  destruct (evd_socket_bind_addr_internal s1 a r) as [s2 e] eqn:E. destruct (bind_addr_step _ _ _ _ _ Hi E) as (St & Hst & _).
  cbn [fst]. split; [by apply sync_evolves|]. apply (sync_ok s1); [done..|]. rewrite Hst. destruct e; [exact Hs|by right; left].
Qed.

Lemma find_address_same addresses : ∀ s s' r, find_address s addresses = (s', r) →
  same s s' ∧ has_pending s' = has_pending s ∧ sub_status s' = sub_status s.
Proof.
  induction addresses as [|a addresses IH]; intros s s' r; cbn [find_address]; [by intros [= <- <-]|].
  destruct (evd_socket_check_address s a) as [s1 [|]] eqn:E; apply check_address_same in E as (S1 & _ & P1 & _ & B1).
  - by intros [= <- <-].
  - intros (S2 & P2 & B2)%IH. split_and!; [by eapply sock_same_trans|congruence|congruence].
Qed.

(** The end of a resolution that failed, or whose action failed. *)
Lemma resolved_error s s1 e :
  evolves s s1 → status s1 = EVD_SOCKET_STATE_RESOLVING ∨ status s1 = EVD_SOCKET_STATE_BOUND →
  let s' := (evd_socket_close (evd_socket_throw_error (finish (Some e) s1) e)).1 in evolves s s' ∧ sock_ok s'.
Proof.
  intros He Hs. set (s2 := evd_socket_throw_error (finish (Some e) s1) e).
  assert (evolves s s2) as E2.
  { eapply sock_evolves_trans; [exact He|]. eapply sock_evolves_trans; [apply finish_evolves|by apply emit_evolves]. }
  assert (status s2 = status s1) as S2 by (unfold s2, evd_socket_throw_error, finish; by destruct (async_result s1)).
  destruct (evd_socket_close s2) as [s3 b] eqn:E. apply close_spec in E as (E3 & Hok & _); [|rewrite S2; by destruct Hs as [->| ->]..].
  split; [by eapply sock_evolves_trans|done].
Qed.

Lemma complete_fields s : is_Some (async_result s) →
  has_pending (complete s) = false ∧ async_result (complete s) = None ∧ status (complete s) = status s.
Proof. intros [op E]. unfold complete. rewrite E. unfold finish. cbn [async_result with_pending]. by rewrite E. Qed.

Lemma resolved_action_ok s a s' e :
  sock_ok s → status s = EVD_SOCKET_STATE_RESOLVING → resolved_action s a = (s', e) →
  evolves s s' ∧ match e with
                 | None => sock_ok s'
                 | Some _ => status s' = EVD_SOCKET_STATE_RESOLVING ∨ status s' = EVD_SOCKET_STATE_BOUND
                 end.
Proof.
  intros Hok Hs. unfold resolved_action. set (s0 := with_sub_status EVD_SOCKET_STATE_CLOSED s).
  assert (has_pending s = true) as Hp by (apply (ok_busy s Hok); by left).
  assert (is_Some (async_result s)) as Ha by by apply (ok_pending s Hok).
  assert (idle (status s0)) as Hi by (by right; left). assert (evolves s s0) as E0 by by apply same_evolves.
  assert (sock_ok s0) as Hok0 by (by destruct Hok).
  assert (∀ s1, step_to s0 s1 → status s1 = EVD_SOCKET_STATE_LISTENING ∨ status s1 = EVD_SOCKET_STATE_BOUND →
            evolves s (complete s1) ∧ status (complete s1) = status s1 ∧ sock_ok (complete s1)) as Hdone.
  { intros s1 St Hst. destruct (complete_fields s1) as (C1 & C2 & C3); [by rewrite (to_async _ _ St)|]. split_and!; [|done|].
    - eapply sock_evolves_trans; [exact E0|]. eapply sock_evolves_trans; [apply St|apply complete_evolves].
    - apply resting_ok; rewrite ?C3; try done; destruct Hst as [->| ->]; done || by intros [?|?]. }
  destruct (sub_status s) eqn:Hb; try (intros [= <- <-]; by split).
  - destruct (evd_socket_connect_addr_internal s0 a) as [s1 e1] eqn:E. destruct (connect_addr_step _ _ _ _ Hi E) as (St & Hpend & Hst & Hlive).
    intros [= <- <-]. split; [eapply sock_evolves_trans; [exact E0|apply St]|]. destruct e1; [left; by rewrite Hst|].
    destruct (Hlive eq_refl) as [Hk Hl]. split; rewrite ?Hst, ?Hpend, ?(to_async _ _ St), ?Hk, ?Hl; try done.
    + split; [by right|done].
    + intros o Ho. destruct (to_evolves _ _ St) as (_ & _ & _ & _ & ->). by apply (ok_op s Hok).
  - destruct (evd_socket_bind_addr_internal s0 a (bind_allow_reuse s0)) as [s1 e1] eqn:E.
    destruct (bind_addr_step _ _ _ _ _ Hi E) as (St & Hst & _). intros [= <- <-]. destruct e1.
    + split; [eapply sock_evolves_trans; [exact E0|apply St]|left; by rewrite Hst].
    + destruct (Hdone s1 St) as (? & ? & ?); [by right|]. done.
  - destruct (evd_socket_listen_addr_internal s0 (Some a)) as [[s1 b] e1] eqn:E. destruct (listen_addr_step _ _ _ _ _ Hi E) as [St Hst].
    intros [= <- <-]. destruct b, e1 as [e1|].
    + destruct (Hdone s1 St) as (? & Hc & ?); [by right|]. rewrite Hc. auto.
    + destruct (Hdone s1 St) as (? & ? & ?); [by left|]. done.
    + split; [eapply sock_evolves_trans; [exact E0|apply St]|]. destruct Hst as [?|Hst]; [by right|left; exact (eq_trans Hst Hs)].
    + done.
Qed.

Lemma resolved_ok r s : sock_ok s → evolves s (evd_socket_on_address_resolved s r) ∧ sock_ok (evd_socket_on_address_resolved s r).
Proof.
  intros Hok. unfold evd_socket_on_address_resolved. case_decide as Hs; [by split; [apply sock_evolves_refl|]|].
  assert (∃ s1 e1, match r with
      | None => (s, Some ErrResolve)
      | Some addresses => match find_address s addresses with (s, Some a) => resolved_action s a | (s, None) => (s, Some ErrMismatch) end
      end = (s1, e1) ∧ evolves s s1 ∧ match e1 with
        | None => sock_ok s1 | Some _ => status s1 = EVD_SOCKET_STATE_RESOLVING ∨ status s1 = EVD_SOCKET_STATE_BOUND end)
    as (s1 & e1 & -> & E1 & H1).
  { destruct r as [addresses|]; [|eexists _, _; split_and!; [done|apply sock_evolves_refl|by left]].
    destruct (find_address s addresses) as [s1 [a|]] eqn:Ef; pose proof (find_address_same _ _ _ _ Ef) as (S1 & P1 & _);
      [|eexists _, _; split_and!; [done|by apply same_evolves|left; by rewrite (same_status _ _ S1)]].
    assert (sock_ok s1) as Hok1.
    { destruct Hok as [O1 O2 O3 O4 O5]. destruct S1 as [_ S1 A1 N1]. split; rewrite ?P1, ?S1, ?A1, ?N1; try done. by rewrite Hs; intros [?|?]. }
    destruct (resolved_action s1 a) as [s2 e2] eqn:E2. eexists _, _. split; [done|].
    destruct (resolved_action_ok _ _ _ _ Hok1 ltac:(by rewrite (same_status _ _ S1)) E2) as [E3 H3].
    split; [eapply sock_evolves_trans; [by apply same_evolves|done]|done]. }
  destruct e1 as [e1|]; [by apply resolved_error|done].
Qed.

(** ** Conditions *)

Lemma same_fields_ok s s' : sock_ok s → same s s' → has_pending s' = has_pending s → socket s' = socket s →
  poll_session s' = poll_session s → sock_ok s'.
Proof.
  intros [O1 O2 O3 O4 O5] [_ S A N] P K L. split; by rewrite ?P, ?S, ?A, ?N, ?K, ?L.
Qed.

Lemma emit_ok e s : sock_ok s → sock_ok (emit e s).
Proof. by intros []. Qed.

Lemma accept_loop_ok accepts : ∀ s, sock_ok s → evolves s (accept_loop s accepts) ∧ sock_ok (accept_loop s accepts).
Proof.
  induction accepts as [|[[|]| |] accepts IH]; intros s Hok; cbn [accept_loop].
  - split; [apply sock_evolves_refl|done].
  - destruct (IH (emit NewConnection s) (emit_ok _ _ Hok)) as [E H1]. split; [|done].
    eapply sock_evolves_trans; [by apply (emit_evolves NewConnection)|done].
  - split; [by apply emit_evolves|by apply emit_ok].
  - split; [apply sock_evolves_refl|done].
  - split; [by apply emit_evolves|by apply emit_ok].
Qed.

(** The socket has just connected. *)
Definition just_connected (s : EvdSocket) : EvdSocket :=
  finish None (evd_socket_set_status (with_priorities (priority s) (priority s) (with_pending false s)) EVD_SOCKET_STATE_CONNECTED).

Lemma just_connected_ok s : sock_ok s → status s = EVD_SOCKET_STATE_CONNECTING →
  evolves s (just_connected s) ∧ sock_ok (just_connected s) ∧ status (just_connected s) = EVD_SOCKET_STATE_CONNECTED ∧
  has_pending (just_connected s) = false.
Proof.
  intros Hok Hs. unfold just_connected. set (s1 := with_priorities _ _ _).
  destruct (set_status_fields s1 EVD_SOCKET_STATE_CONNECTED) as (A & P & S' & K & L & N & _).
  set (s2 := evd_socket_set_status s1 EVD_SOCKET_STATE_CONNECTED) in *.
  assert (evolves s s2) as E2.
  { eapply (sock_evolves_trans _ s1); [by apply same_evolves|]. apply set_status_evolves. right.
    change (status s1) with (status s). by rewrite Hs. }
  destruct (ok_live s Hok) as [Hk Hl]; [by right|].
  assert (status (finish None s2) = status s2 ∧ has_pending (finish None s2) = has_pending s2 ∧ async_result (finish None s2) = None ∧
          socket (finish None s2) = socket s2 ∧ poll_session (finish None s2) = poll_session s2) as (F1 & F2 & F3 & F4 & F5)
    by (unfold finish; by destruct (async_result s2) eqn:Ea).
  split_and!; [eapply sock_evolves_trans; [exact E2|apply finish_evolves]| |by rewrite F1|by rewrite F2, P].
  apply resting_ok; rewrite ?F1, ?F2, ?F3, ?F4, ?F5, ?S', ?P; try done; [by intros [?|?]|by rewrite K, L].
Qed.

Lemma condition_ok z accepts s :
  sock_ok s → evolves s (evd_socket_handle_condition s z accepts) ∧ sock_ok (evd_socket_handle_condition s z accepts).
Proof.
  intros Hok. unfold evd_socket_handle_condition. case_match; [by split; [apply sock_evolves_refl|]|].
  set (s1 := with_cond z s). assert (evolves s s1) as E1 by by apply same_evolves.
  assert (sock_ok s1) as Hok1 by by eapply same_fields_ok.
  match goal with |- context [if SOCKET_ACTIVE ?x && _ then _ else _] => set (s2 := x) end.
  assert (evolves s1 s2 ∧ sock_ok s2) as [E2 Hok2].
  { subst s2. case_decide as Hl; [|destruct (has z G_IO_ERR); [|case_decide as Hc; [destruct (has z G_IO_OUT)|]]].
    - destruct (accept_loop_ok accepts (with_cond (Z.ldiff z G_IO_IN) s1)) as [E Ho]; [by eapply same_fields_ok|].
      split; [eapply sock_evolves_trans; [by apply same_evolves|exact E]|exact Ho].
    - assert (∃ s3 e, (if decide (status s1 = EVD_SOCKET_STATE_CONNECTING) then (finish (Some ErrRefused) s1, ErrRefused) else (s1, ErrUnknown))
        = (s3, e) ∧ evolves s1 s3 ∧ status s3 = status s1 ∧ has_pending s3 = has_pending s1) as (s3 & e & -> & E3 & S3 & P3).
      { case_decide; [|eexists _, _; split_and!; [done|apply sock_evolves_refl|done|done]].
        eexists _, _. split; [done|]. split; [apply finish_evolves|]. unfold finish. by destruct (async_result s1). }
      destruct (evd_socket_close (evd_socket_throw_error s3 e)) as [s4 b] eqn:E4.
      apply close_spec in E4 as (E4 & Ho & _).
      + split; [|exact Ho]. eapply sock_evolves_trans; [exact E3|]. eapply sock_evolves_trans; [by apply (emit_evolves (ErrorSignal e))|exact E4].
      + cbn [status has_pending evd_socket_throw_error emit]. rewrite S3, P3. intros Hcl.
        destruct (has_pending s1) eqn:Hp; [|done]. apply (ok_busy s1 Hok1) in Hp as [?|?]; congruence.
      + cbn [status evd_socket_throw_error emit]. rewrite S3. apply Hok1.
    - destruct (just_connected_ok s1 Hok1 Hc) as (? & ? & _). done.
    - by split; [apply sock_evolves_refl|].
    - by split; [apply sock_evolves_refl|]. }
  pose proof (sock_evolves_trans _ _ _ E1 E2) as E12. case_match; [|done].
  split; [eapply sock_evolves_trans; [exact E12|by apply emit_evolves]|by apply emit_ok].
Qed.

Lemma exec_ok o s : sock_ok s → progress s (exec s o) ∧ sock_ok (exec s o).
Proof.
  intros Hok. assert (∀ s', evolves s s' ∧ sock_ok s' → progress s s' ∧ sock_ok s') as Hev
    by (intros s' [E Ho]; split; [by apply evolves_progress|done]).
  assert (∀ s', same s s' → has_pending s' = has_pending s → socket s' = socket s → poll_session s' = poll_session s →
            progress s s' ∧ sock_ok s') as Hsame.
  { intros s' S P K L. apply Hev. split; [by apply same_evolves|by eapply same_fields_ok]. }
  destruct o; cbn [exec].
  - by apply resolve_for_ok.
  - by apply connect_addr_ok.
  - by apply resolve_for_ok.
  - by apply Hev, listen_addr_ok.
  - by apply resolve_for_ok.
  - by apply Hev, bind_addr_ok.
  - by apply Hev, resolved_ok.
  - by apply Hev, condition_ok.
  - apply Hev. destruct (evd_socket_close s) as [s' b] eqn:E. apply close_spec in E as (? & ? & _); [done| |apply Hok].
    intros Hs. destruct (has_pending s) eqn:Hp; [|done]. apply (ok_busy s Hok) in Hp as [?|?]; congruence.
  - apply Hsame; unfold evd_socket_set_priority; by case_match.
  - by apply Hsame.
  - apply Hsame; unfold evd_socket_watch_condition; by case_match.
  - apply Hsame; unfold evd_socket_shutdown; by case_match.
Qed.

(** ** Runs *)

Definition run (s : EvdSocket) (os : list operation) : EvdSocket := foldl exec s os.

Lemma run_ok os : ∀ s, sock_ok s → progress s (run s os) ∧ sock_ok (run s os).
Proof.
  induction os as [|o os IH] using rev_ind; intros s Hok.
  - split; [by apply evolves_progress, sock_evolves_refl|done].
  - unfold run. rewrite foldl_app. cbn [foldl]. destruct (IH s Hok) as [(t & T & P & L & D) Ho].
    destruct (exec_ok o (foldl exec s os) Ho) as [(u & T2 & P2 & L2 & D2) Ho2]. split; [|done].
    exists (t ++ u). unfold run in *. split_and!.
    + by rewrite T2, T, app_assoc.
    + by eapply path_app.
    + lia.
    + intros o'. rewrite sock_done_count_app. specialize (D o'). specialize (D2 o').
      destruct (Nat.leb_spec (next_op s) o'), (Nat.leb_spec (next_op (foldl exec s os)) o'),
        (Nat.ltb_spec o' (next_op (foldl exec s os))), (Nat.ltb_spec o' (next_op (exec (foldl exec s os) o))); simpl in *; lia.
Qed.

(** Where a socket starts: new, or accepted by a listening one. *)
Definition start (s : EvdSocket) : Prop := ∃ w, s = evd_socket_init w ∨ evd_socket_accept w = Some s.

Lemma start_ok s : start s → sock_ok s ∧ next_op s = 0%nat ∧ async_result s = None ∧ ∀ o, done_count o (trace s) = 0%nat.
Proof.
  intros [w [->|E]].
  - split; [|done]. apply resting_ok; try done. by intros [?|?].
  - unfold evd_socket_accept, evd_socket_watch, system_call in E. cbn [poll_session with_cond with_socket evd_socket_init] in E.
    destruct (succeeds _); [|done]. injection E as <-. split; [|done]. apply resting_ok; try done. by intros [?|?].
Qed.

(** C17. The states of a socket: in every execution, whatever the answers of the system, of the
    resolver and of the poll, the changes of state that are signalled lead from the first state to the
    current one along the arrows of the state machine: a socket is connected only after connecting,
    listens only after it is bound, and a connected one only closes; a connected or connecting socket
    has a GSocket that is polled. *)
Theorem socket_state_path s os :
  start s → ∃ t, trace (run s os) = trace s ++ t ∧ path (status s) t (status (run s os)) ∧
  (status (run s os) = EVD_SOCKET_STATE_CONNECTED ∨ status (run s os) = EVD_SOCKET_STATE_CONNECTING →
   socket (run s os) = true ∧ poll_session (run s os) = true).
Proof.
  intros Hs. destruct (start_ok s Hs) as [Hok _]. destruct (run_ok os s Hok) as [(t & T & P & _) Ho].
  exists t. split_and!; [done|done|apply Ho].
Qed.

(** C18. The operations of a socket end: in every execution each call of [evd_socket_connect_to],
    [evd_socket_connect_addr], [evd_socket_listen] and [evd_socket_bind] has ended exactly once, or is
    the one under way; one is under way exactly when the socket is resolving or connecting, and only
    then are other operations refused as pending. *)
Theorem socket_operations_end_once s os op :
  start s → (op < next_op (run s os))%nat →
  (done_count op (trace (run s os)) = if decide (async_result (run s os) = Some op) then 0 else 1)%nat ∧
  (is_Some (async_result (run s os)) ↔ busy (status (run s os))) ∧
  (evd_socket_check_availability (run s os) = Some ErrPending ↔ busy (status (run s os))).
Proof.
  intros Hs Hop. destruct (start_ok s Hs) as (Hok & Hn & Ha & H0). destruct (run_ok os s Hok) as [(t & T & _ & _ & D) Ho].
  split_and!.
  - rewrite T, sock_done_count_app, H0. specialize (D op). unfold outstanding in D.
    rewrite Ha, (decide_False (P := None = Some op)) in D by done. rewrite Hn in D.
    destruct (Nat.ltb_spec op (next_op (run s os))); [|lia]. case_decide; simpl in D; lia.
  - rewrite <-(ok_busy _ Ho). symmetry. apply Ho.
  - rewrite <-(ok_busy _ Ho). unfold evd_socket_check_availability. destruct (has_pending _); [done|]. by case_match.
Qed.

(** ** Instances *)

Definition here : GSocketAddress := mkAddress FAMILY_IPV4 1.
Definition there : GSocketAddress := mkAddress FAMILY_IPV4 2.

Definition client_operations : list operation :=
  [OpConnectTo; OpListen; OpResolved (Some [here]); OpCondition G_IO_OUT []; OpConnectTo; OpClose].

Definition demo_socket : EvdSocket := evd_socket_init [].

Lemma demo_start : start demo_socket.
Proof. exists []. by left. Qed.

Lemma socket_state_path_witness :
  ∃ t, trace (run demo_socket client_operations) = trace demo_socket ++ t ∧
    path (status demo_socket) t (status (run demo_socket client_operations)) ∧
    (status (run demo_socket client_operations) = EVD_SOCKET_STATE_CONNECTED ∨
     status (run demo_socket client_operations) = EVD_SOCKET_STATE_CONNECTING →
     socket (run demo_socket client_operations) = true ∧ poll_session (run demo_socket client_operations) = true).
Proof. exact (socket_state_path demo_socket client_operations demo_start). Defined.

Lemma three_operations : (1 < next_op (run demo_socket client_operations))%nat.
Proof. vm_compute. lia. Qed.

Lemma socket_operations_end_once_witness :
  (done_count 1 (trace (run demo_socket client_operations)) =
     if decide (async_result (run demo_socket client_operations) = Some 1%nat) then 0 else 1)%nat ∧
  (is_Some (async_result (run demo_socket client_operations)) ↔ busy (status (run demo_socket client_operations))) ∧
  (evd_socket_check_availability (run demo_socket client_operations) = Some ErrPending ↔
     busy (status (run demo_socket client_operations))).
Proof. exact (socket_operations_end_once demo_socket client_operations 1 demo_start three_operations). Defined.

(** ** Defects *)

(** A socket that is closed while it resolves and used again takes the first resolution for the second:
    here the second call connects to the address of the first. *)
Example stale_resolution :
  let s := run (evd_socket_init []) [OpConnectTo; OpClose; OpConnectTo; OpResolved (Some [here])] in
  (last (trace s) = Some (StateChanged EVD_SOCKET_STATE_CONNECTING EVD_SOCKET_STATE_RESOLVING)) ∧
  CallConnect here ∈ trace s ∧ async_result s = Some 1%nat ∧
  run s [OpResolved (Some [there])] = s.
Proof. vm_compute. split_and!; [reflexivity|repeat constructor|reflexivity..]. Qed.

(** A failure to listen: the operation ends with success, and then the socket is closed with an error. *)
Example failed_listen_succeeds :
  trace (run (evd_socket_init [Ok; Ok; Fails]) [OpListen; OpResolved (Some [here])]) =
  [StateChanged EVD_SOCKET_STATE_RESOLVING EVD_SOCKET_STATE_CLOSED; CallBind here true;
   StateChanged EVD_SOCKET_STATE_BOUND EVD_SOCKET_STATE_RESOLVING; Done 0 None; ErrorSignal ErrSystem;
   StateChanged EVD_SOCKET_STATE_CLOSED EVD_SOCKET_STATE_BOUND; CloseSignal].
Proof. reflexivity. Qed.

(** After a second bind that fails the socket is still said to be bound, and has no GSocket. *)
Example bound_without_socket :
  let s := run (evd_socket_init [Ok; Ok; Fails]) [OpBindAddr here true; OpBindAddr here true] in
  status s = EVD_SOCKET_STATE_BOUND ∧ socket s = false.
Proof. done. Qed.

(** A connection that fails leaves the family of its address behind: one of another family is refused. *)
Example family_left_behind :
  last (trace (run (evd_socket_init [Ok; Fails]) [OpConnectAddr here; OpConnectAddr (mkAddress FAMILY_IPV6 3)])) =
  Some (Done 1 (Some ErrMismatch)).
Proof. reflexivity. Qed.

End SocketSpec.
