(* ===== verification/Transport.v ===== *)
(** * The transport interface (src/evd/evd-transport.c): model

    What a transport does with its peers besides closing them (Peer.v): the verdict on a new peer, its
    admission, and the message a peer keeps while the handlers of the receive signal run. *)
From S2P Require Import Prelude Peer WebService.

Module Transport.

(** ** Validation *)

(** The value accumulated, and whether the emission goes on. *)
Definition evd_transport_validate_peer_signal_acc (global_result signal_result : Z) : Z * bool :=
  let global_result :=
    if signal_result =? WebService.EVD_VALIDATE_REJECT then WebService.EVD_VALIDATE_REJECT
    else if signal_result =? WebService.EVD_VALIDATE_PENDING then WebService.EVD_VALIDATE_PENDING
    else if negb (global_result =? WebService.EVD_VALIDATE_PENDING) then WebService.EVD_VALIDATE_ACCEPT
    else global_result in
  (global_result, negb (global_result =? WebService.EVD_VALIDATE_REJECT)).

Fixpoint emit_validate_peer (acc : Z) (verdicts : list Z) : Z :=
  match verdicts with
  | [] => acc
  | v :: verdicts =>
      match evd_transport_validate_peer_signal_acc acc v with
      | (acc, true) => emit_validate_peer acc verdicts
      | (acc, false) => acc
      end
  end.

(** [verdicts] are what the handlers of validate-peer return, in order. *)
Definition evd_transport_notify_validate_peer (verdicts : list Z) : Z := emit_validate_peer 0 verdicts.

(** ** Admission *)

(** The environment of a lookup: the clock, the connected peers and the order of the table. *)
Record surroundings := mkSurroundings { now : Z; connected : string → bool; order : list string }.

(** Whether the peer is new, which the transport then signals. *)
Definition admission (e : surroundings) (w : Peer.world) (id : string) : option (Peer.world * list Peer.event * bool) :=
  match Peer.evd_peer_manager_lookup_peer w id with
  | (w, Some _) => Some (w, [], false)
  | (w, None) =>
      '(w, evs) ← Peer.evd_peer_manager_add_peer (now e) (connected e) (order e) w id; Some (w, evs, true)
  end.

Definition evd_transport_accept_peer_internal := admission.

(** The peer [id] is created; NULL ([false]) when it is rejected. *)
Definition evd_transport_create_new_peer_internal (e : surroundings) (w : Peer.world) (id : string)
    (verdicts : list Z) : option (Peer.world * list Peer.event * bool) :=
  let w := Peer.set_peer id (Peer.evd_peer_init (now e)) w in
  let validate_result := evd_transport_notify_validate_peer verdicts in
  if validate_result =? WebService.EVD_VALIDATE_REJECT then Some (w, [], false)
  else if validate_result =? WebService.EVD_VALIDATE_ACCEPT then
    '(w, evs, _) ← evd_transport_accept_peer_internal e w id; Some (w, evs, true)
  else Some (w, [], true).

(** ** Receiving *)

(** [PEER_MSG_KEY]: the buffers, NULL when there is none. *)
Record EvdTransportPeerMessage := mkMessage {
  buffer : option (list Z);
  size : Z;
  text_buffer : option (list Z)
}.

(** A handler of the receive signal reads the message in one way or the other. *)
Inductive access := CallReceive | CallReceiveText.

Definition evd_transport_receive (m : EvdTransportPeerMessage) : option (list Z) * Z := (buffer m, size m).

(** The message copied, with a NUL behind; [None]: NULL is copied from. *)
Definition evd_transport_receive_text (m : EvdTransportPeerMessage)
  : option (EvdTransportPeerMessage * list Z) :=
  match text_buffer m with
  | Some text => Some (m, text)
  | None =>
      let copy := match buffer m with
                  | Some b => Some (take (Z.to_nat (size m)) b ++ [0])
                  | None => if size m =? 0 then Some [0] else None
                  end in
      text ← copy; Some (mkMessage (buffer m) (size m) (Some text), text)
  end.

(** What each access of the handlers sees. *)
Fixpoint run_handlers (m : EvdTransportPeerMessage) (accesses : list access)
  : option (EvdTransportPeerMessage * list (option (list Z))) :=
  match accesses with
  | [] => Some (m, [])
  | CallReceive :: accesses =>
      '(m', seen) ← run_handlers m accesses; Some (m', (evd_transport_receive m).1 :: seen)
  | CallReceiveText :: accesses =>
      '(m, text) ← evd_transport_receive_text m;
      '(m', seen) ← run_handlers m accesses; Some (m', Some text :: seen)
  end.

(** [m] is what the peer kept from an earlier message, if there was one. *)
Definition evd_transport_receive_internal (m : option EvdTransportPeerMessage) (b : list Z)
    (accesses : list access) : option (EvdTransportPeerMessage * list (option (list Z))) :=
  '(m, seen) ← run_handlers (mkMessage (Some b) (Z.of_nat (length b)) None) accesses;
  Some (mkMessage None 0 None, seen).

(** ** Theorems *)

(** The verdict: a reject wins, then a pending, then the peer is accepted. *)
Lemma verdict_spec acc verdicts :
  acc = WebService.EVD_VALIDATE_ACCEPT ∨ acc = WebService.EVD_VALIDATE_PENDING →
  emit_validate_peer acc verdicts =
  (if decide (WebService.EVD_VALIDATE_REJECT ∈ verdicts) then WebService.EVD_VALIDATE_REJECT
   else if decide (WebService.EVD_VALIDATE_PENDING ∈ verdicts) then WebService.EVD_VALIDATE_PENDING else acc).
Proof.
  revert acc. unfold WebService.EVD_VALIDATE_ACCEPT, WebService.EVD_VALIDATE_REJECT, WebService.EVD_VALIDATE_PENDING.
  induction verdicts as [|v vs IH]; intros acc Hacc; [by rewrite !decide_False by set_solver|].
  cbn [emit_validate_peer]. unfold evd_transport_validate_peer_signal_acc, WebService.EVD_VALIDATE_ACCEPT,
    WebService.EVD_VALIDATE_REJECT, WebService.EVD_VALIDATE_PENDING.
  destruct (Z.eqb_spec v 1) as [->|H1]; [by rewrite decide_True by set_solver|].
  destruct (Z.eqb_spec v 2) as [->|H2]; cbn [negb Z.eqb Pos.eqb].
  - rewrite IH by by right. repeat case_decide; set_solver.
  - destruct Hacc as [->| ->]; cbn [negb Z.eqb Pos.eqb]; rewrite IH by tauto; repeat case_decide; set_solver.
Qed.

Definition view (b : list Z) (a : access) : option (list Z) :=
  match a with CallReceive => Some b | CallReceiveText => Some (b ++ [0]) end.

(** Handlers see the message, with a NUL behind when they ask for a text, and nothing is kept. *)
Lemma received_as_sent m b accesses :
  evd_transport_receive_internal m b accesses = Some (mkMessage None 0 None, view b <$> accesses).
Proof.
  unfold evd_transport_receive_internal.
  assert (∀ t, (t = None ∨ t = Some (b ++ [0])) →
    ∃ m', run_handlers (mkMessage (Some b) (Z.of_nat (length b)) t) accesses = Some (m', view b <$> accesses)) as Hrun.
  { induction accesses as [|[] accesses IH]; intros t Ht; cbn [run_handlers]; [by eexists| |].
    - destruct (IH t Ht) as [m' ->]. run_bind. by eexists.
    - unfold evd_transport_receive_text. cbn [text_buffer buffer size]. rewrite Nat2Z.id, firstn_all.
      destruct Ht as [-> | ->]; run_bind;
        (destruct (IH (Some (b ++ [0]))) as [m' ->]; [by right|]); run_bind; by eexists. }
  destruct (Hrun None) as [m' ->]; [by left|]. done.
Qed.

End Transport.
