(* ===== verification/WebsocketServer.v ===== *)
(** * The WebSocket server (src/evd/evd-websocket-server.c): model

    A web service whose connections turn into web sockets, each bound to a peer.  It ties the
    connections of HttpConnection.v, the protocol of WebSocket.v and the peers of Peer.v with the three
    data it attaches: CONN_DATA_KEY, PEER_DATA_KEY and HANDSHAKE_DATA_KEY.  What the protocol does to
    its connection is a list of events; those that are callbacks of the server run it.  [None] stands
    for a failed assertion, a NULL callback or a dangling name. *)
From S2P Require Import Prelude HttpMessage BufferedInput HttpConnection Peer WebService WebSocket Transport.
Import HttpMessage HttpConnection.

Module WebsocketServer.

(** ** The handshake over libsoup's headers *)

(** What the handshake takes from GLib beside [Soup]. *)
Class Digest := {
  sha1 : string → list Z;
  ascii_strtoull : string → Z
}.

#[export] Instance soup_handshake `{Soup} `{Digest} : WebSocket.HandshakeEnv := {|
  WebSocket.headers := SoupMessageHeaders;
  WebSocket.no_headers := soup_message_headers_new;
  WebSocket.headers_get_one h n := text <$> soup_message_headers_get_one h (codes n);
  WebSocket.headers_replace h n v := soup_message_headers_replace h (codes n) (codes v);
  WebSocket.sha1 := sha1;
  WebSocket.base64_encode bytes := text (g_base64_encode bytes);
  WebSocket.ascii_strtoull := ascii_strtoull;
  WebSocket.contains s needle := bool_decide (is_Some (g_strstr_len (codes s) None (codes needle)))
|}.

Definition EVD_WEBSOCKET_CLOSE_ABNORMAL : Z := 1006.

Definition ws_type (t : Peer.EvdMessageType) : WebSocket.EvdMessageType :=
  match t with
  | Peer.MESSAGE_TYPE_TEXT => WebSocket.MESSAGE_TYPE_TEXT
  | Peer.MESSAGE_TYPE_BINARY => WebSocket.MESSAGE_TYPE_BINARY
  end.

Section Server.
Context `{Soup} `{WebService.Regex} `{Digest}.

(** ** State *)

Record HandshakeData := mkHandshake { hs_conn : nat; hs_request : EvdHttpRequest; is_new_peer : bool }.

Record server := mkServer {
  web : WebService.EvdWebServicePrivate;
  standalone : bool;
  peer_arg : option (nat * EvdHttpRequest);          (* peer_arg_conn and peer_arg_request *)
  peers : Peer.world;
  owned : gset string;                               (* the peers whose transport this is *)
  conns : gmap nat EvdHttpConnection;
  protocols : gmap nat WebSocket.EvdWebsocketData;   (* EVD_WEBSOCKET_DATA_KEY of a connection *)
  group : gset nat;                                  (* the connections of the service *)
  conn_data : gmap nat string;                       (* CONN_DATA_KEY: the peer of a connection *)
  peer_data : gmap string nat;                       (* PEER_DATA_KEY: the connection of a peer *)
  handshakes : gmap string HandshakeData;            (* HANDSHAKE_DATA_KEY *)
  returning : list nat                               (* flush_and_return_connection, in order *)
}.

Inductive effect :=
  | ValidatePeer (peer : string)
  | NewPeer (peer : string)
  | Receive (peer : string) (msg : list Z)
  | Sent (peer : string) (conn : nat) (msg : list Z) (t : Peer.EvdMessageType) (evs : list WebSocket.event)
  | Protocol (conn : nat) (evs : list WebSocket.event)
  | Responded (conn : nat) (status_code : Z)
  | ConnEvents (conn : nat) (evs : list HttpConnection.event)
  | PeerEvents (evs : list Peer.event)
  | Critical.

Definition with_arg a s := mkServer (web s) (standalone s) a (peers s) (owned s) (conns s) (protocols s) (group s) (conn_data s) (peer_data s) (handshakes s) (returning s).
Definition with_peers p s := mkServer (web s) (standalone s) (peer_arg s) p (owned s) (conns s) (protocols s) (group s) (conn_data s) (peer_data s) (handshakes s) (returning s).
Definition with_owned o s := mkServer (web s) (standalone s) (peer_arg s) (peers s) o (conns s) (protocols s) (group s) (conn_data s) (peer_data s) (handshakes s) (returning s).
Definition with_conn k c s := mkServer (web s) (standalone s) (peer_arg s) (peers s) (owned s) (<[k := c]> (conns s)) (protocols s) (group s) (conn_data s) (peer_data s) (handshakes s) (returning s).
Definition with_protocol k d s := mkServer (web s) (standalone s) (peer_arg s) (peers s) (owned s) (conns s) (<[k := d]> (protocols s)) (group s) (conn_data s) (peer_data s) (handshakes s) (returning s).
Definition with_group g s := mkServer (web s) (standalone s) (peer_arg s) (peers s) (owned s) (conns s) (protocols s) g (conn_data s) (peer_data s) (handshakes s) (returning s).
Definition with_links cd pd s := mkServer (web s) (standalone s) (peer_arg s) (peers s) (owned s) (conns s) (protocols s) (group s) cd pd (handshakes s) (returning s).
Definition with_handshakes h s := mkServer (web s) (standalone s) (peer_arg s) (peers s) (owned s) (conns s) (protocols s) (group s) (conn_data s) (peer_data s) h (returning s).
Definition with_returning r s := mkServer (web s) (standalone s) (peer_arg s) (peers s) (owned s) (conns s) (protocols s) (group s) (conn_data s) (peer_data s) (handshakes s) r.

Definition peer_of (id : string) s : option Peer.EvdPeerPrivate := Peer.heap (peers s) !! id.
Definition with_peer id p s := with_peers (Peer.set_peer id p (peers s)) s.

Definition evd_websocket_server_set_standalone (v : bool) s := mkServer (web s) v (peer_arg s) (peers s) (owned s) (conns s) (protocols s) (group s) (conn_data s) (peer_data s) (handshakes s) (returning s).
Definition evd_websocket_server_get_standalone s : bool := standalone s.
Definition evd_websocket_server_get_validate_peer_arguments s : option (nat * EvdHttpRequest) := peer_arg s.

(** What [g_random_int] and [g_output_stream_write] answer to the protocol of each connection. *)
Context (random written : nat → nat → Z).

(** ** Sending *)

Definition evd_websocket_server_send s (id : string) (buffer : list Z) (t : Peer.EvdMessageType)
  : option (server * list effect * bool) :=
  match peer_data s !! id with
  | None => Some (s, [], false)
  | Some k =>
      match protocols s !! k with
      | None => Some (s, [], false)
      | Some d =>
          '(d, evs, ok) ← WebSocket.evd_websocket_protocol_send (random k) (written k) d buffer (ws_type t);
          Some (with_protocol k d s, if ok : bool then [Sent id k buffer t evs] else [Protocol k evs], ok)
      end
  end.

(** [evd_transport_send] and [evd_transport_send_text] ([send_frame] of evd-transport.c). *)
Definition send_frame s (id : string) (buffer : list Z) (t : Peer.EvdMessageType)
  : option (server * list effect * bool) :=
  p ← peer_of id s;
  '(s, effs, sent) ← evd_websocket_server_send s id buffer t;
  if sent : bool then Some (s, effs, true)
  else
    let '(p, ok) := Peer.evd_peer_push_message p buffer t in Some (with_peer id p s, effs, ok).

(** The loop over the backlog: one turn per message. *)
Fixpoint send_backlog (fuel : nat) s (id : string) : option (server * list effect) :=
  p ← peer_of id s;
  match Peer.evd_peer_pop_message p with
  | (_, None) => Some (s, [])
  | (p, Some (frame, t)) =>
      match fuel with
      | O => None
      | S fuel =>
          '(s, effs, ok) ← evd_websocket_server_send (with_peer id p s) id frame t;
          if ok : bool then '(s, effs') ← send_backlog fuel s id; Some (s, effs ++ effs')
          else Some (with_peer id (Peer.evd_peer_unshift_message p frame t).1 s, effs)
      end
  end.

(** ** Closing *)

Definition evd_websocket_server_peer_is_connected s (id : string) : bool :=
  match peer_data s !! id with
  | None => false
  | Some k => match conns s !! k with Some c => negb (closed c) | None => false end
  end.

Definition evd_websocket_server_peer_closed s (id : string) (gracefully : bool) : option (server * list effect) :=
  match peer_data s !! id with
  | None => Some (s, [])
  | Some k =>
      c ← conns s !! k;
      '(s, effs) ←
        match closed c, protocols s !! k with
        | false, Some d =>
            '(d, evs, _) ← WebSocket.evd_websocket_protocol_close (random k) (written k) d
                             (if gracefully then WebSocket.EVD_WEBSOCKET_CLOSE_NORMAL
                              else EVD_WEBSOCKET_CLOSE_ABNORMAL);
            Some (with_protocol k d s, [Protocol k evs])
        | _, _ => Some (s, [])
        end;
      Some (with_links (delete k (conn_data s)) (delete id (peer_data s)) s, effs)
  end.

(** The calls of the method [peer_closed] among what closing peers did; [self] tells for which peers
    it is the method of this transport. *)
Fixpoint notify_closed (self : string → bool) s (evs : list Peer.event) : option (server * list effect) :=
  match evs with
  | [] => Some (s, [])
  | Peer.IfacePeerClosed id gracefully :: evs =>
      '(s, e1) ← (if self id then evd_websocket_server_peer_closed s id gracefully else Some (s, []));
      '(s, e2) ← notify_closed self s evs;
      Some (s, e1 ++ e2)
  | _ :: evs => notify_closed self s evs
  end.

Definition own s (id : string) : bool := bool_decide (id ∈ owned s).

(** [evd_transport_close_peer] called with this transport. *)
Definition close_peer s (id : string) (gracefully : bool) : option (server * list effect) :=
  '(w, evs) ← Peer.evd_transport_close_peer Peer.close_fuel (peers s) id gracefully;
  '(s, effs) ← notify_closed (λ _, true) (with_peers w s) evs;
  Some (s, PeerEvents evs :: effs).

(** [evd_io_stream_group_remove]: the parent's method answers FALSE for a stream that has no group. *)
Definition evd_websocket_server_remove s (k : nat) : server * bool :=
  if decide (k ∈ group s) then
    let s := with_group (group s ∖ {[k]}) s in
    let s := match protocols s !! k with
             | Some d => with_protocol k (WebSocket.evd_websocket_protocol_unbind d) s
             | None => s
             end in
    (match conn_data s !! k with
     | Some id => with_links (conn_data s) (delete id (peer_data s)) s
     | None => s
     end, true)
  else (s, false).

(** [evd_io_stream_set_group] with NULL: the stream forgets its group before it asks the group to
    remove it. *)
Definition leave_group s (k : nat) : server := (evd_websocket_server_remove (with_group (group s ∖ {[k]}) s) k).1.

(** [g_io_stream_close]: the connection leaves its group as it closes. *)
Definition io_close s (k : nat) : option (server * list effect) :=
  c ← conns s !! k;
  '(c', evs) ← g_io_stream_close c;
  let s := with_conn k c' s in
  Some (if closed c' && negb (closed c) then leave_group s k else s, [ConnEvents k evs]).

(** ** Callbacks of the protocol *)

Definition on_frame_received s (k : nat) (frame : list Z) : option (server * list effect) :=
  match conn_data s !! k with
  | None => Some (s, [])
  | Some id =>
      p ← peer_of id s;
      Some (s, if Peer.closed p then [] else [Receive id frame])
  end.

Definition on_close_requested s (k : nat) (gracefully : bool) : option (server * list effect) :=
  match conn_data s !! k with
  | None => Some (s, [])
  | Some id =>
      if gracefully then close_peer s id true
      else Some (with_links (conn_data s) (delete id (peer_data s)) s, [])
  end.

Definition on_event s (k : nat) (ev : WebSocket.event) : option (server * list effect) :=
  match ev with
  | WebSocket.FrameCb frame _ => on_frame_received s k frame
  | WebSocket.CloseCb gracefully => on_close_requested s k gracefully
  | WebSocket.IoClose => io_close s k
  | _ => Some (s, [Protocol k [ev]])
  end.

Fixpoint on_events s (k : nat) (evs : list WebSocket.event) : option (server * list effect) :=
  match evs with
  | [] => Some (s, [])
  | ev :: evs =>
      '(s, e1) ← on_event s k ev;
      '(s, e2) ← on_events s k evs;
      Some (s, e1 ++ e2)
  end.

(** The protocol of [k] is now [d], and did [evs]. *)
Definition protocol_did s (k : nat) (d : WebSocket.EvdWebsocketData) (evs : list WebSocket.event) :=
  on_events (with_protocol k d s) k evs.

Definition conn_read s (k : nat) (r : WebSocket.read_outcome) : option (server * list effect) :=
  d ← protocols s !! k;
  match WebSocket.on_connection_read (random k) (written k) d r with
  | WebSocket.Done d evs _ => protocol_did s k d evs
  | _ => None
  end.

Definition conn_flushed s (k : nat) : option (server * list effect) :=
  d ← protocols s !! k;
  let '(d, evs) := WebSocket.on_connection_flushed d in protocol_did s k d evs.

Definition conn_timeout s (k : nat) : option (server * list effect) :=
  d ← protocols s !! k;
  '(d, evs) ← WebSocket.close_timeout_cb d; protocol_did s k d evs.

(** ** Requests *)

Definition surroundings s (now : Z) (order : list string) : Transport.surroundings :=
  Transport.mkSurroundings now (evd_websocket_server_peer_is_connected s) order.

(** Admitting a peer may close dead ones. *)
Definition admission (now : Z) (order : list string) s (id : string) : option (server * list effect) :=
  '(w, evs, fresh) ← Transport.admission (surroundings s now order) (peers s) id;
  '(s, effs) ← notify_closed (own s) (with_peers w s) evs;
  Some (s, PeerEvents evs :: effs ++ (if fresh : bool then [NewPeer id] else [])).

Definition bind_protocol s (k : nat) : server * list effect :=
  match protocols s !! k with
  | Some d => let '(d, evs) := WebSocket.evd_websocket_protocol_bind d in (with_protocol k d s, [Protocol k evs])
  | None => (s, [Critical])
  end.

Definition on_websocket_connection_ready (now : Z) (order : list string) s (id : string) (k : nat) (is_new : bool)
  : option (server * list effect) :=
  '(s, e1) ← (if is_new then admission now order s id else Some (s, []));
  let s := with_links (<[k := id]> (conn_data s)) (<[id := k]> (peer_data s)) s in
  let '(s, e2) := bind_protocol s k in
  p ← peer_of id s;
  '(s, e3) ← send_backlog (Peer.evd_peer_backlog_get_length p) s id;
  Some (s, e1 ++ e2 ++ e3).

Definition respond s (k : nat) (status_code : Z) : option (server * list effect) :=
  c ← conns s !! k;
  '(w, ok) ← WebService.evd_web_service_respond_internal (web s)
               (WebService.mkWorld ∅ c None None false None None []) status_code None None 0;
  let s := with_conn k (WebService.conn w) s in
  Some (if ok : bool then with_returning (returning s ++ [k]) s else s, [Responded k status_code]).

(** [accept_peer] and [reject_peer] return FALSE in every case, which is left out. *)
Definition accept_peer (now : Z) (order : list string) s (id : string) : option (server * list effect) :=
  match handshakes s !! id with
  | None => Some (s, [])
  | Some data =>
      '(s, effs) ← on_websocket_connection_ready now order s id (hs_conn data) (is_new_peer data);
      Some (with_handshakes (delete id (handshakes s)) s, effs)
  end.

Definition reject_peer s (id : string) : option (server * list effect) :=
  match handshakes s !! id with
  | None => Some (s, [])
  | Some data =>
      '(s, effs) ← respond s (hs_conn data) 403;
      Some (with_handshakes (delete id (handshakes s)) s, effs)
  end.

(** [evd_websocket_protocol_handle_handshake_request] on a connection: the response headers are
    written, then the data of the protocol attached. *)
Definition handle_handshake_request s (k : nat) (request : EvdHttpRequest) : option (server * bool) :=
  c ← conns s !! k;
  let '(_, h) := evd_http_message_get_headers request in
  match WebSocket.evd_websocket_protocol_handle_handshake_request h true with
  | inr _ => Some (s, false)
  | inl (res_headers, d) =>
      match evd_http_connection_write_response_headers c 1 WebSocket.SOUP_STATUS_SWITCHING_PROTOCOLS None
              (Some res_headers) with
      | (c, true) => Some (with_protocol k d (with_conn k c s), true)
      | (c, false) => Some (with_conn k c s, false)
      end
  end.

(** The peer of a request: one that is known, which is touched, or one that is made with the name
    [fresh_id]; nothing for a service that makes none. *)
Definition resolve_peer (now : Z) (fresh_id : string) s (u : SoupURI) : option (server * option (string * bool)) :=
  let '(s, found) :=
    match uri_query u with
    | None => (s, None)
    | Some q => let '(w, r) := Peer.evd_peer_manager_lookup_peer (peers s) (text q) in (with_peers w s, r)
    end in
  match found with
  | Some id => p ← peer_of id s; Some (with_peer id (Peer.evd_peer_touch now p) s, Some (id, false))
  | None =>
      if standalone s then
        match peer_of fresh_id s with
        | None =>
            Some (with_owned ({[fresh_id]} ∪ owned s) (with_peer fresh_id (Peer.evd_peer_init now) s), Some (fresh_id, true))
        | Some _ => None
        end
      else Some (s, None)
  end.

(** What follows the handlers' verdict. *)
Definition validated (now : Z) (order : list string) s (id : string) (is_new : bool) (k : nat)
    (request : EvdHttpRequest) (verdict : Z) : option (server * list effect) :=
  if verdict =? WebService.EVD_VALIDATE_ACCEPT then
    c ← conns s !! k;
    if closed c then Some (s, []) else on_websocket_connection_ready now order s id k is_new
  else if verdict =? WebService.EVD_VALIDATE_REJECT then respond s k 403
  else Some (with_handshakes (<[id := mkHandshake k request is_new]> (handshakes s)) s, []).

(** [verdicts] are what the handlers of validate-peer return, for the arguments they can ask for while
    they run. *)
Definition evd_websocket_server_request_handler (now : Z) (order : list string) (fresh_id : string)
    (verdicts : option (nat * EvdHttpRequest) → list Z) s (k : nat) (request : EvdHttpRequest) : option (server * list effect) :=
  u ← uri request;
  '(s, peer) ← resolve_peer now fresh_id s u;
  match peer with
  | None => respond s k 404
  | Some (id, is_new) =>
      '(s, ok) ← handle_handshake_request s k request;
      if negb ok then respond s k 400
      else
        let s := with_arg (Some (k, request)) s in
        let verdict := Transport.evd_transport_notify_validate_peer
                         (verdicts (evd_websocket_server_get_validate_peer_arguments s)) in
        '(s, effs) ← validated now order (with_arg None s) id is_new k request verdict;
        Some (s, ValidatePeer id :: effs)
  end.

End Server.

End WebsocketServer.
