(* ===== verification/WebsocketServerSpec.v ===== *)
(** * The WebSocket server: theorems

    Over every run of the server the connection of a peer bears that peer, and the messages given to a
    peer go to its web sockets in the order they were given, those that wait being in its backlog; what
    a web socket is sent of the backlog, the client that reads it gets. *)
From S2P Require Import Prelude HttpMessage BufferedInput HttpConnection Peer PeerSpec WebService WebServiceSpec WebSocket WebSocketSpec.
From S2P Require Import WebSocketClose Transport WebsocketServer.
Import HttpMessage HttpConnection WebSocket WebSocketSpec WebSocketClose WebsocketServer.

Module WebsocketServerSpec.

(** ** Backlogs *)

Definition backlog_of (w : Peer.world) (id : string) : list Peer.BacklogFrame :=
  match Peer.heap w !! id with Some p => Peer.backlog p | None => [] end.

(** Nothing in the peer handling but sending touches a backlog. *)
Definition same_backlogs (w w' : Peer.world) : Prop := ∀ id, backlog_of w' id = backlog_of w id.

Lemma same_backlogs_trans w1 w2 w3 : same_backlogs w1 w2 → same_backlogs w2 w3 → same_backlogs w1 w3.
Proof. intros H1 H2 id. by rewrite H2, H1. Qed.

Lemma same_peers_backlogs w w' : PeerSpec.same_peers w w' → same_backlogs w w'.
Proof.
  intros E id. specialize (E id). unfold backlog_of. destruct (Peer.heap w' !! id), (Peer.heap w !! id); by simplify_eq/=.
Qed.

Lemma backlog_set_peer w id p id' :
  backlog_of (Peer.set_peer id p w) id' = if decide (id' = id) then Peer.backlog p else backlog_of w id'.
Proof.
  unfold backlog_of, Peer.set_peer. cbn [Peer.heap]. case_decide as E; [subst; by rewrite lookup_insert_eq|].
  by rewrite lookup_insert_ne.
Qed.

Lemma server_set_peer_same w id p q :
  Peer.heap w !! id = Some p → Peer.backlog q = Peer.backlog p → same_backlogs w (Peer.set_peer id q w).
Proof. intros Hp Hq. by apply same_peers_backlogs, (PeerSpec.set_peer_same w id p). Qed.

Lemma server_same_heap w w' : Peer.heap w' = Peer.heap w → same_backlogs w w'.
Proof. intros E. by apply same_peers_backlogs, PeerSpec.same_heap. Qed.

Lemma server_closing_same fuel w id g w' evs :
  Peer.evd_transport_close_peer fuel w id g = Some (w', evs) → same_backlogs w w'.
Proof. intros E. by apply same_peers_backlogs, (proj1 (proj2 (PeerSpec.closing_same fuel w id g w' evs))). Qed.

Lemma admit_same e w id w' evs b : Transport.admission e w id = Some (w', evs, b) → same_backlogs w w'.
Proof.
  unfold Transport.admission, Peer.evd_peer_manager_lookup_peer. case_decide; [intros [= <- <- <-]; by apply server_same_heap|].
  destruct (Peer.evd_peer_manager_add_peer _ _ _ _ _) as [[w1 e1]|] eqn:E; [|done]. run_bind. intros [= <- <- <-].
  apply PeerSpec.add_peer_same, same_peers_backlogs in E. eapply same_backlogs_trans; [|done]. by apply server_same_heap.
Qed.

(** ** The states of a protocol *)

Lemma monitor_true evs s : monitor true evs = Some s → s = true.
Proof. induction evs as [|[] evs IH]; simpl; try done. by intros [= <-]. Qed.

Lemma keeps_shut d d' evs : keeps d d' evs → shut d = true → shut d' = true.
Proof.
  intros [_ K] Hs. destruct (K true) as (s & Hm & G); [by intros _|]. apply monitor_true in Hm as ->.
  apply G. by left.
Qed.

Lemma read_shut random written d r d' evs b :
  on_connection_read random written d r = Done d' evs b → shut d = true → shut d' = true.
Proof.
  intros E Hs. revert E. unfold on_connection_read. destruct r as [cl|[|x bytes]]; [by intros [= <- _ _]..|].
  set (d0 := set_buf _ _ _ d). destruct (decide (state d0 = STATE_CLOSED)); [by intros [= <- _ _]|].
  assert (shut d0 = true) as Hs0 by done.
  pose proof (loop_keeps random written (process_fuel d0) d0 (λ _, Hs0)) as K. unfold process_data.
  destruct (process_loop random written (process_fuel d0) d0) as [| |d1 e1 b1]; try done.
  apply keeps_shut in K; [|done]. destruct b1; [|by intros [= <- _ _]].
  unfold read_from_connection. intros [= <- _ _]. by destruct (buf_alloc d1 <=? _).
Qed.

Lemma close_shut random written d code d' evs b :
  evd_websocket_protocol_close random written d code = Some (d', evs, b) → shut d' = true.
Proof.
  unfold evd_websocket_protocol_close, shut. destruct (state d) eqn:Hd; try (intros [= <- _ _]; by rewrite Hd);
    (destruct (close_frame_sent _); [done|]; cbn [send_close_frame]; destruct (close_frame_received _); by intros [= <- _ _]).
Qed.

Lemma finish_shut d code d' evs : finish_close_handshake d code = (d', evs) → shut d' = true.
Proof. unfold finish_close_handshake. destruct (close_timeout _); by intros [= <- _]. Qed.

Lemma timeout_shut d d' evs : close_timeout_cb d = Some (d', evs) → shut d' = true.
Proof. unfold close_timeout_cb. destruct (close_cb _); [by intros [= <- _]|done]. Qed.

(** A protocol that is open takes every message, one that is not takes none. *)
Lemma protocol_send_spec random written d buffer t :
  ∃ d' evs, evd_websocket_protocol_send random written d buffer t = Some (d', evs, negb (shut d)) ∧ shut d' = shut d.
Proof.
  destruct (shut d) eqn:Hs.
  - exists d, []. split; [|done]. unfold evd_websocket_protocol_send, shut in *. by destruct (state d).
  - destruct (send_data_frame_total random written d buffer t) as (d' & evs & E). exists d', evs. split.
    + unfold evd_websocket_protocol_send, shut in *. by destruct (state d).
    + apply send_fragments_keeps in E as (_ & _ & Hst & _). unfold shut in *. by rewrite Hst.
Qed.

Section Server.
Context `{Soup} `{WebService.Regex} `{Digest} (random written : nat → nat → Z).
Implicit Types s : server.

(** ** Well-formed states *)

(** A protocol that still takes messages. *)
Definition open_protocol s (k : nat) : Prop := ∃ d, protocols s !! k = Some d ∧ shut d = false.

Record wf s : Prop := mkWf {
  (* the connection of a peer bears that peer *)
  wf_link : ∀ id k, peer_data s !! id = Some k → conn_data s !! k = Some id;
  wf_bound : ∀ k id, conn_data s !! k = Some id → is_Some (protocols s !! k);
  (* a handshake that waits for a verdict has a connection of its own, not bound yet *)
  wf_waiting : ∀ id h, handshakes s !! id = Some h → is_Some (protocols s !! hs_conn h) ∧ conn_data s !! hs_conn h = None;
  wf_distinct : ∀ id1 id2 h1 h2, handshakes s !! id1 = Some h1 → handshakes s !! id2 = Some h2 →
    hs_conn h1 = hs_conn h2 → id1 = id2;
  (* nothing waits behind an open web socket, and there is no empty message in a backlog *)
  wf_flushed : ∀ id k, peer_data s !! id = Some k → open_protocol s k → backlog_of (peers s) id = [];
  wf_messages : ∀ id, Forall (λ f, Peer.frame_buf f ≠ []) (backlog_of (peers s) id)
}.

(** What any operation but a handshake and a message does: backlogs stay, links only go, and a protocol
    that has closed stays closed. *)
Record calm s s' : Prop := mkCalm {
  calm_backlogs : same_backlogs (peers s) (peers s');
  calm_peers : peer_data s' ⊆ peer_data s;
  calm_conns : conn_data s' ⊆ conn_data s;
  calm_links : ∀ id k, peer_data s' !! id = Some k → conn_data s !! k = Some id → conn_data s' !! k = Some id;
  calm_waiting : handshakes s' = handshakes s;
  calm_protocols : ∀ k, is_Some (protocols s' !! k) ↔ is_Some (protocols s !! k);
  calm_open : ∀ k, open_protocol s' k → open_protocol s k
}.

Lemma server_calm_refl s : calm s s.
Proof. by split. Qed.

Lemma server_calm_trans s1 s2 s3 : calm s1 s2 → calm s2 s3 → calm s1 s3.
Proof.
  intros C1 C2. split.
  - by eapply same_backlogs_trans; [apply C1|apply C2].
  - etrans; [apply C2|apply C1].
  - etrans; [apply C2|apply C1].
  - intros id k Hp Hc. apply (calm_links _ _ C2); [done|]. apply (calm_links _ _ C1); [|done].
    by eapply lookup_weaken; [|apply C2].
  - by rewrite (calm_waiting _ _ C2), (calm_waiting _ _ C1).
  - intros k. by rewrite (calm_protocols _ _ C2), (calm_protocols _ _ C1).
  - intros k Ho. by apply C1, C2.
Qed.

Lemma server_calm_wf s s' : wf s → calm s s' → wf s'.
Proof.
  intros W C. split.
  - intros id k Hp. apply (calm_links _ _ C); [done|]. apply (wf_link s W). by eapply lookup_weaken; [|apply C].
  - intros k id Hc. apply (calm_protocols _ _ C), (wf_bound s W k id). by eapply lookup_weaken; [|apply C].
  - intros id h Hh. rewrite (calm_waiting _ _ C) in Hh. destruct (wf_waiting s W id h Hh) as [Hp Hc].
    split; [by apply (calm_protocols _ _ C)|]. by eapply lookup_weaken_None; [|apply C].
  - intros id1 id2 h1 h2 Hh1 Hh2. rewrite (calm_waiting _ _ C) in Hh1, Hh2. by eapply wf_distinct.
  - intros id k Hp Ho. rewrite (calm_backlogs _ _ C). apply (wf_flushed s W id k); [|by apply C].
    by eapply lookup_weaken; [|apply C].
  - intros id. rewrite (calm_backlogs _ _ C). apply W.
Qed.

(** The messages an operation gave to the web sockets of a peer. *)
Definition frame_of (eff : effect) (id : string) : list Peer.BacklogFrame :=
  match eff with
  | Sent id' _ msg t _ => if decide (id' = id) then [Peer.mkFrame t msg] else []
  | _ => []
  end.
Definition sent_to (id : string) (effs : list effect) : list Peer.BacklogFrame := effs ≫= λ eff, frame_of eff id.

Lemma sent_to_app id e1 e2 : sent_to id (e1 ++ e2) = sent_to id e1 ++ sent_to id e2.
Proof. apply bind_app. Qed.

Definition silent (effs : list effect) : Prop := ∀ id, sent_to id effs = [].

Lemma silent_nil : silent [].
Proof. done. Qed.
Lemma silent_app e1 e2 : silent e1 → silent e2 → silent (e1 ++ e2).
Proof. intros Hs1 Hs2 id. by rewrite sent_to_app, Hs1, Hs2. Qed.
Lemma silent_cons e effs : (∀ id, frame_of e id = []) → silent effs → silent (e :: effs).
Proof. intros He Hs id. unfold sent_to. rewrite bind_cons, He. apply Hs. Qed.
Hint Resolve silent_nil silent_app silent_cons server_calm_refl : core.

(** ** Closing *)

Lemma server_with_peers_calm s w : same_backlogs (peers s) w → calm s (with_peers w s).
Proof. intros Hw. by split. Qed.

(** A protocol whose state does not open. *)
Lemma server_with_protocol_calm s k d d' :
  protocols s !! k = Some d → (shut d = true → shut d' = true) → calm s (with_protocol k d' s).
Proof.
  intros Hd Hs. split; try done; intros k'; unfold open_protocol; cbn [protocols with_protocol].
  - destruct (decide (k' = k)) as [->|]; [by rewrite lookup_insert_eq, Hd|by rewrite lookup_insert_ne].
  - destruct (decide (k' = k)) as [->|]; [|by rewrite lookup_insert_ne].
    rewrite lookup_insert_eq. intros (? & [= <-] & Ho). exists d. split; [done|].
    destruct (shut d); [|done]. by rewrite Hs in Ho.
Qed.

Lemma server_unlink_calm s id : calm s (with_links (conn_data s) (delete id (peer_data s)) s).
Proof. split; try done. apply delete_subseteq. Qed.

(** The peer of a connection and the connection of that peer forget each other. *)
Lemma unlink_both_calm s id k :
  wf s → peer_data s !! id = Some k → calm s (with_links (delete k (conn_data s)) (delete id (peer_data s)) s).
Proof.
  intros W Hk. split; try done; cbn [peer_data conn_data with_links]; try apply delete_subseteq.
  intros id' k' [Hne Hp]%lookup_delete_Some Hc. apply lookup_delete_Some. split; [|done]. intros <-.
  apply Hne. apply (wf_link s W) in Hk. congruence.
Qed.

Lemma server_peer_closed_calm s id g s' effs :
  wf s → evd_websocket_server_peer_closed random written s id g = Some (s', effs) → calm s s' ∧ silent effs.
Proof.
  intros W. unfold evd_websocket_server_peer_closed. destruct (peer_data s !! id) as [k|] eqn:Hk; [|by intros [= <- <-]].
  destruct (conns s !! k) as [c|]; [|done]. run_bind.
  assert (∀ s1, calm s s1 → peer_data s1 = peer_data s → conn_data s1 = conn_data s →
    calm s (with_links (delete k (conn_data s1)) (delete id (peer_data s1)) s1)) as Hunlink.
  { intros s1 C Hp Hc. eapply server_calm_trans; [done|]. apply unlink_both_calm; [by eapply server_calm_wf|by rewrite Hp]. }
  destruct (closed c); [run_bind; intros [= <- <-]; by split; [apply Hunlink|]|].
  destruct (protocols s !! k) as [d|] eqn:Hd; [|run_bind; intros [= <- <-]; by split; [apply Hunlink|]].
  destruct (evd_websocket_protocol_close _ _ _ _) as [[[d' evs] b]|] eqn:E; [|done]. run_bind.
  intros [= <- <-]. split; [|by apply silent_cons]. apply (Hunlink (with_protocol k d' s)); [|done..].
  eapply server_with_protocol_calm; [done|]. intros _. by eapply close_shut.
Qed.

Lemma server_notify_closed_calm self evs : ∀ s s' effs,
  wf s → notify_closed random written self s evs = Some (s', effs) → calm s s' ∧ silent effs.
Proof.
  induction evs as [|ev evs IH]; intros s s' effs W; simpl; [by intros [= <- <-]|].
  destruct ev; try by apply IH.
  destruct (if self id then _ else _) as [[s1 e1]|] eqn:E1; [|done]. run_bind.
  assert (calm s s1 ∧ silent e1) as [C1 S1].
  { destruct (self id); [by eapply server_peer_closed_calm|]. by simplify_eq. }
  destruct (notify_closed _ _ _ _ _) as [[s2 e2]|] eqn:E2; [|done]. run_bind. intros [= <- <-].
  apply IH in E2 as [C2 S2]; [|by eapply server_calm_wf]. split; [by eapply server_calm_trans|by apply silent_app].
Qed.

Lemma server_close_peer_calm s id g s' effs :
  wf s → close_peer random written s id g = Some (s', effs) → calm s s' ∧ silent effs.
Proof.
  intros W. unfold close_peer. destruct (Peer.evd_transport_close_peer _ _ _ _) as [[w evs]|] eqn:E; [|done]. run_bind.
  apply server_closing_same in E. pose proof (server_with_peers_calm s w E) as C.
  destruct (notify_closed _ _ _ _ _) as [[s1 e1]|] eqn:E1; [|done]. run_bind. intros [= <- <-].
  apply server_notify_closed_calm in E1 as [C1 S1]; [|by eapply server_calm_wf]. split; [by eapply server_calm_trans|by apply silent_cons].
Qed.

Lemma server_remove_calm s k : calm s (evd_websocket_server_remove s k).1.
Proof.
  unfold evd_websocket_server_remove. case_decide; [|done]. cbn [fst].
  set (s1 := match protocols _ !! k with Some d => _ | None => _ end).
  assert (calm s s1) as C.
  { subst s1. cbn [protocols with_group]. destruct (protocols s !! k) as [d|] eqn:Hd; [|done].
    eapply (server_calm_trans _ (with_group (group s ∖ {[k]}) s)); [done|]. by apply (server_with_protocol_calm _ k d). }
  destruct (conn_data s1 !! k); [|done]. eapply server_calm_trans; [done|]. apply server_unlink_calm.
Qed.

Lemma server_io_close_calm s k s' effs : io_close s k = Some (s', effs) → calm s s' ∧ silent effs.
Proof.
  unfold io_close. destruct (conns s !! k) as [c|]; [|done]. run_bind.
  destruct (g_io_stream_close c) as [[c' evs]|]; [|done]. run_bind. intros [= <- <-].
  split; [|by apply silent_cons]. destruct (_ && _); [|done].
  eapply (server_calm_trans _ (with_conn k c' s)); [done|]. unfold leave_group.
  eapply (server_calm_trans _ (with_group (group s ∖ {[k]}) (with_conn k c' s))); [done|]. apply server_remove_calm.
Qed.

(** ** Callbacks *)

Lemma event_calm s k ev s' effs :
  wf s → on_event random written s k ev = Some (s', effs) → calm s s' ∧ silent effs.
Proof.
  intros W. unfold on_event. destruct ev; try (intros [= <- <-]; split; [done|by apply silent_cons]).
  - unfold on_frame_received. destruct (conn_data s !! k); [|by intros [= <- <-]].
    destruct (peer_of _ s) as [p|]; [|done]. run_bind. intros [= <- <-]. split; [done|].
    destruct (Peer.closed p); [done|by apply silent_cons].
  - unfold on_close_requested. destruct (conn_data s !! k); [|by intros [= <- <-]].
    destruct gracefully; [by apply server_close_peer_calm|]. intros [= <- <-]. split; [apply server_unlink_calm|done].
  - apply server_io_close_calm.
Qed.

Lemma events_calm k evs : ∀ s s' effs,
  wf s → on_events random written s k evs = Some (s', effs) → calm s s' ∧ silent effs.
Proof.
  induction evs as [|ev evs IH]; intros s s' effs W; simpl; [by intros [= <- <-]|].
  destruct (on_event _ _ _ _ _) as [[s1 e1]|] eqn:E1; [|done]. run_bind. apply event_calm in E1 as [C1 S1]; [|done].
  destruct (on_events _ _ _ _ _) as [[s2 e2]|] eqn:E2; [|done]. run_bind. intros [= <- <-].
  apply IH in E2 as [C2 S2]; [|by eapply server_calm_wf]. split; [by eapply server_calm_trans|by apply silent_app].
Qed.

Lemma protocol_did_calm s k d d' evs s' effs :
  wf s → protocols s !! k = Some d → (shut d = true → shut d' = true) →
  protocol_did random written s k d' evs = Some (s', effs) → calm s s' ∧ silent effs.
Proof.
  intros W Hd Hs E. pose proof (server_with_protocol_calm s k d d' Hd Hs) as C.
  apply events_calm in E as [C1 S1]; [|by eapply server_calm_wf]. split; [by eapply server_calm_trans|done].
Qed.

Lemma conn_read_calm s k r s' effs :
  wf s → conn_read random written s k r = Some (s', effs) → calm s s' ∧ silent effs.
Proof.
  intros W. unfold conn_read. destruct (protocols s !! k) as [d|] eqn:Hd; [|done]. run_bind.
  destruct (on_connection_read _ _ _ _) as [| |d' evs b] eqn:E; try done.
  eapply protocol_did_calm; [done..|]. by eapply read_shut.
Qed.

Lemma conn_flushed_calm s k s' effs :
  wf s → conn_flushed random written s k = Some (s', effs) → calm s s' ∧ silent effs.
Proof.
  intros W. unfold conn_flushed. destruct (protocols s !! k) as [d|] eqn:Hd; [|done]. run_bind.
  destruct (on_connection_flushed d) as [d' evs] eqn:E. eapply protocol_did_calm; [done..|]. intros _. by eapply finish_shut.
Qed.

Lemma conn_timeout_calm s k s' effs :
  wf s → conn_timeout random written s k = Some (s', effs) → calm s s' ∧ silent effs.
Proof.
  intros W. unfold conn_timeout. destruct (protocols s !! k) as [d|] eqn:Hd; [|done]. run_bind.
  destruct (close_timeout_cb d) as [[d' evs]|] eqn:E; [|done]. run_bind.
  eapply protocol_did_calm; [done..|]. intros _. by eapply timeout_shut.
Qed.

(** ** Sending *)

(** What an operation sent and what it left waiting are what waited before, and what is new. *)
Definition conserves s s' (effs : list effect) (fresh : string → list Peer.BacklogFrame) : Prop :=
  ∀ id, sent_to id effs ++ backlog_of (peers s') id = backlog_of (peers s) id ++ fresh id.

Abbreviation nothing := (λ _ : string, [] : list Peer.BacklogFrame).

Lemma quiet_conserves s s' effs : calm s s' → silent effs → conserves s s' effs nothing.
Proof. intros C S id. by rewrite S, (calm_backlogs _ _ C), app_nil_r. Qed.

Lemma conserves_trans s1 s2 s3 e1 e2 fresh :
  conserves s1 s2 e1 nothing → conserves s2 s3 e2 fresh → conserves s1 s3 (e1 ++ e2) fresh.
Proof. intros C1 C2 id. by rewrite sent_to_app, <-app_assoc, C2, app_assoc, C1, app_nil_r. Qed.

(** Links and handshakes stay, and no protocol opens or closes. *)
Record same_links s s' : Prop := mkSame {
  same_peers : peer_data s' = peer_data s;
  same_conns : conn_data s' = conn_data s;
  same_waiting : handshakes s' = handshakes s;
  same_protocols : ∀ k, is_Some (protocols s' !! k) ↔ is_Some (protocols s !! k);
  same_open : ∀ k, open_protocol s' k ↔ open_protocol s k
}.

Lemma same_links_refl s : same_links s s.
Proof. by split. Qed.

Lemma same_links_trans s1 s2 s3 : same_links s1 s2 → same_links s2 s3 → same_links s1 s3.
Proof.
  intros L1 L2. split; [by rewrite (same_peers _ _ L2), (same_peers _ _ L1)|by rewrite (same_conns _ _ L2), (same_conns _ _ L1)
    |by rewrite (same_waiting _ _ L2), (same_waiting _ _ L1)|intros k..].
  - by rewrite (same_protocols _ _ L2), (same_protocols _ _ L1).
  - by rewrite (same_open _ _ L2), (same_open _ _ L1).
Qed.

Lemma with_protocol_same s k d d' :
  protocols s !! k = Some d → shut d' = shut d → same_links s (with_protocol k d' s).
Proof.
  intros Hd Hs. split; try done; intros k'; unfold open_protocol; cbn [protocols with_protocol];
    (destruct (decide (k' = k)) as [->|]; [|by rewrite lookup_insert_ne]); rewrite lookup_insert_eq, Hd; [done|].
  split; intros (? & [= <-] & Ho); eexists; (split; [done|]); congruence.
Qed.

Lemma with_peer_same s id p : same_links s (with_peer id p s).
Proof. by split. Qed.

Lemma server_send_spec s id k d buffer t :
  peer_data s !! id = Some k → protocols s !! k = Some d →
  ∃ d' effs, evd_websocket_server_send random written s id buffer t = Some (with_protocol k d' s, effs, negb (shut d)) ∧
    shut d' = shut d ∧
    ∀ id', sent_to id' effs = if shut d then [] else if decide (id = id') then [Peer.mkFrame t buffer] else [].
Proof.
  intros Hk Hd. unfold evd_websocket_server_send. rewrite Hk, Hd.
  destruct (protocol_send_spec (random k) (written k) d buffer (ws_type t)) as (d' & evs & -> & Hs). run_bind.
  exists d', (if negb (shut d) then [Sent id k buffer t evs] else [Protocol k evs]). split; [done|]. split; [done|].
  intros id'. destruct (shut d); [done|]. cbn [negb sent_to mbind list_bind frame_of]. by rewrite app_nil_r.
Qed.

(** Nothing is lost on a peer without a web socket, or with one that has closed. *)
Lemma server_send_quiet s id buffer t s' effs :
  (∀ k, peer_data s !! id = Some k → ¬ open_protocol s k) →
  evd_websocket_server_send random written s id buffer t = Some (s', effs, true) → False.
Proof.
  intros Hn. destruct (peer_data s !! id) as [k|] eqn:Hk; [|unfold evd_websocket_server_send; by rewrite Hk].
  destruct (protocols s !! k) as [d|] eqn:Hd; [|unfold evd_websocket_server_send; by rewrite Hk, Hd].
  destruct (server_send_spec s id k d buffer t Hk Hd) as (d' & e & -> & _ & _). intros [= <- <- Hs].
  apply (Hn k eq_refl). exists d. split; [done|]. by destruct (shut d).
Qed.

Lemma backlog_of_peer s id p : peer_of id s = Some p → backlog_of (peers s) id = Peer.backlog p.
Proof. unfold peer_of, backlog_of. by intros ->. Qed.

Lemma backlog_with_peer s id p id' :
  backlog_of (peers (with_peer id p s)) id' = if decide (id' = id) then Peer.backlog p else backlog_of (peers s) id'.
Proof. apply backlog_set_peer. Qed.

(** The loop over the backlog ends; nothing is left when the web socket is open. *)
Lemma send_backlog_spec fuel : ∀ s id k d p,
  peer_data s !! id = Some k → protocols s !! k = Some d → peer_of id s = Some p →
  (length (Peer.backlog p) <= fuel)%nat → Forall (λ f, Peer.frame_buf f ≠ []) (Peer.backlog p) →
  ∃ s' effs, send_backlog random written fuel s id = Some (s', effs) ∧ same_links s s' ∧
    conserves s s' effs nothing ∧ (shut d = false → backlog_of (peers s') id = []).
Proof.
  induction fuel as [|fuel IH]; intros s id k d p Hk Hd Hp Hf Hm; cbn [send_backlog]; rewrite Hp; run_bind;
    unfold Peer.evd_peer_pop_message; destruct (Peer.backlog p) as [|[t frame] rest] eqn:Hb; cbn [length] in *; try lia.
  1, 2: exists s, []; split; [done|]; split; [apply same_links_refl|]; split; [by apply quiet_conserves|];
    intros _; by rewrite (backlog_of_peer _ _ _ Hp).
  cbn [Peer.frame_buf Peer.frame_type]. apply Forall_cons_1 in Hm as [Hne Hm].
  set (s1 := with_peer id (Peer.set_backlog rest p) s).
  destruct (server_send_spec s1 id k d frame t Hk Hd) as (d1 & e1 & -> & Hs1 & Hsent). run_bind.
  set (s2 := with_protocol k d1 s1).
  assert (same_links s s2) as L by (by apply (same_links_trans _ s1), (with_protocol_same _ _ d)).
  destruct (shut d) eqn:Hshut; cbn [negb].
  - eexists _, e1. split; [done|]. split; [by apply (same_links_trans _ s2)|]. split; [|done].
    intros id'. rewrite Hsent, backlog_with_peer. cbn [app]. unfold s2, s1.
    change (peers (with_protocol k d1 ?x)) with (peers x). rewrite backlog_with_peer, app_nil_r.
    case_decide as E; [|done]. subst. rewrite (backlog_of_peer _ _ _ Hp), Hb. unfold Peer.evd_peer_unshift_message.
    destruct frame; [done|]. done.
  - destruct (IH s2 id k d1 (Peer.set_backlog rest p)) as (s3 & e3 & -> & L3 & C3 & B3).
    { done. } { apply lookup_insert_eq. } { apply lookup_insert_eq. } { cbn. lia. } { done. }
    run_bind. exists s3, (e1 ++ e3). split; [done|]. split; [by eapply same_links_trans|]. split; [|auto].
    intros id'. rewrite sent_to_app, <-app_assoc, C3, Hsent. unfold s2, s1.
    change (peers (with_protocol k d1 ?x)) with (peers x). rewrite backlog_with_peer, !app_nil_r.
    destruct (decide (id = id')) as [<-|]; [|by rewrite decide_False].
    rewrite decide_True by done. by rewrite (backlog_of_peer _ _ _ Hp), Hb.
Qed.

(** ** A connection becomes the web socket of a peer *)

Lemma admit_calm now order s id s' effs :
  wf s → admission random written now order s id = Some (s', effs) → calm s s' ∧ silent effs.
Proof.
  intros W. unfold admission. destruct (Transport.admission _ _ _) as [[[w evs] b]|] eqn:E; [|done]. run_bind.
  apply admit_same in E. pose proof (server_with_peers_calm s w E) as C.
  destruct (notify_closed _ _ _ _ _) as [[s1 e1]|] eqn:E1; [|done]. run_bind. intros [= <- <-].
  apply server_notify_closed_calm in E1 as [C1 S1]; [|by eapply server_calm_wf]. split; [by eapply server_calm_trans|].
  apply silent_cons; [done|]. apply silent_app; [done|]. destruct b; [by apply silent_cons|done].
Qed.

Lemma bind_same s k d : protocols s !! k = Some d → same_links s (bind_protocol s k).1 ∧ silent (bind_protocol s k).2 ∧
  peers (bind_protocol s k).1 = peers s.
Proof.
  intros Hd. unfold bind_protocol. rewrite Hd. cbn [evd_websocket_protocol_bind read_from_connection].
  unfold evd_websocket_protocol_bind, read_from_connection. split; [|split; [by apply silent_cons|done]].
  apply (with_protocol_same _ _ d); [done|]. by destruct (_ <=? _).
Qed.

(** A web socket of its own for a peer: the links change, the backlog is sent, and the handshakes that
    have another connection still wait. *)
Lemma linked_wf s1 s' effs id k hs :
  wf s1 → is_Some (protocols s1 !! k) → conn_data s1 !! k = None →
  hs ⊆ handshakes s1 → (∀ id' h, hs !! id' = Some h → hs_conn h ≠ k) →
  same_links (with_links (<[k := id]> (conn_data s1)) (<[id := k]> (peer_data s1)) s1) s' →
  conserves s1 s' effs nothing → (open_protocol s1 k → backlog_of (peers s') id = []) →
  wf (with_handshakes hs s').
Proof.
  intros W Hk Hc Hhs Hne L C B. pose proof (same_peers _ _ L) as Ep. pose proof (same_conns _ _ L) as Ec.
  cbn [peer_data conn_data with_links] in Ep, Ec.
  assert (∀ id' k', peer_data s1 !! id' = Some k' → k' ≠ k) as Hother.
  { intros id' k' Hp ->. apply (wf_link s1 W) in Hp. congruence. }
  split; cbn [peer_data conn_data protocols handshakes peers with_handshakes]; rewrite ?Ep, ?Ec.
  - intros id' k'. rewrite !lookup_insert_Some. intros [[-> ->]|[Hid Hp]]; [by left|]. right.
    split; [|by apply W]. apply not_eq_sym. by eapply Hother.
  - intros k' id'. rewrite lookup_insert_Some. intros [[-> ->]|[_ Hk']]; apply (same_protocols _ _ L); [done|].
    by eapply (wf_bound s1 W).
  - intros id' h Hh. destruct (wf_waiting s1 W id' h) as [Hp Hn]; [by eapply lookup_weaken|].
    split; [by apply (same_protocols _ _ L)|]. rewrite lookup_insert_ne; [done|]. apply not_eq_sym. by eapply Hne.
  - intros id1 id2 h1 h2 Hh1 Hh2. eapply (wf_distinct s1 W); by eapply lookup_weaken.
  - intros id' k'. rewrite lookup_insert_Some. intros [[-> ->]|[Hid Hp]] Ho.
    + by apply B, (same_open _ _ L).
    + pose proof (C id') as Hc'. rewrite (wf_flushed s1 W id' k' Hp) in Hc'; [|by apply (same_open _ _ L)].
      by apply app_eq_nil in Hc' as [_ ?].
  - intros id'. pose proof (C id') as Hc'. rewrite app_nil_r in Hc'. pose proof (wf_messages s1 W id') as Hm.
    rewrite <-Hc' in Hm. by apply Forall_app in Hm as [_ Hm].
Qed.

Lemma server_ready_spec now order s id k new s' effs :
  wf s → is_Some (protocols s !! k) → conn_data s !! k = None →
  on_websocket_connection_ready random written now order s id k new = Some (s', effs) →
  conserves s s' effs nothing ∧ handshakes s' = handshakes s ∧
  ∀ hs, hs ⊆ handshakes s → (∀ id' h, hs !! id' = Some h → hs_conn h ≠ k) → wf (with_handshakes hs s').
Proof.
  intros W Hk Hc. unfold on_websocket_connection_ready.
  destruct (if new then _ else _) as [[s1 e1]|] eqn:E1; [|done]. run_bind.
  assert (calm s s1 ∧ silent e1) as [C1 S1].
  { destruct new; [by eapply admit_calm|]. by simplify_eq. }
  set (s2 := with_links _ _ s1).
  assert (is_Some (protocols s1 !! k)) as Hk1 by by apply (calm_protocols _ _ C1).
  pose proof Hk1 as [d Hd]. destruct (bind_same s2 k d Hd) as (L2 & S2 & P2).
  destruct (bind_protocol s2 k) as [s3 e2]. cbn [fst snd] in *.
  destruct (peer_of id s3) as [p|] eqn:Hp; [|done]. run_bind.
  assert (is_Some (protocols s3 !! k)) as [d3 Hd3] by by apply (same_protocols _ _ L2).
  assert (peer_data s3 !! id = Some k) as Hlink by (rewrite (same_peers _ _ L2); apply lookup_insert_eq).
  assert (wf s1) as W1 by by eapply server_calm_wf.
  destruct (send_backlog_spec (Peer.evd_peer_backlog_get_length p) s3 id k d3 p) as (s4 & e3 & -> & L4 & C4 & B4); try done.
  { rewrite <-(backlog_of_peer s3 id p Hp), P2. apply (wf_messages s1 W1). }
  run_bind. intros [= <- <-].
  assert (conserves s1 s4 (e2 ++ e3) nothing) as C.
  { apply (conserves_trans _ s3); [|done]. intros id'. by rewrite S2, P2, app_nil_r. }
  split; [by apply (conserves_trans _ s1); [apply quiet_conserves|]|].
  rewrite (same_waiting _ _ L4), (same_waiting _ _ L2). split; [apply (calm_waiting _ _ C1)|].
  intros hs Hhs Hne. apply (linked_wf s1 s4 (e2 ++ e3) id k hs); try done.
  - by eapply lookup_weaken_None; [|apply C1].
  - by rewrite (calm_waiting _ _ C1).
  - by apply (same_links_trans _ s3).
  - intros Ho. apply B4. apply (same_open _ _ L2) in Ho as (d' & Hd' & Ho). congruence.
Qed.

(** ** Operations *)

Lemma respond_calm s k st s' effs : respond s k st = Some (s', effs) → calm s s' ∧ silent effs.
Proof.
  unfold respond. destruct (conns s !! k) as [c|]; [|done]. run_bind.
  destruct (WebService.evd_web_service_respond_internal _ _ _ _ _ _) as [[w ok]|]; [|done]. run_bind.
  intros [= <- <-]. split; [by destruct ok|by apply silent_cons].
Qed.

Lemma forget_handshake s id : wf s → wf (with_handshakes (delete id (handshakes s)) s).
Proof.
  intros W. split; cbn [peer_data conn_data protocols handshakes peers with_handshakes]; try apply W.
  - intros id' h [_ Hh]%lookup_delete_Some. by apply (wf_waiting s W id').
  - intros id1 id2 h1 h2 [_ Hh1]%lookup_delete_Some [_ Hh2]%lookup_delete_Some. by eapply wf_distinct.
Qed.

Lemma accept_spec now order s id s' effs :
  wf s → accept_peer random written now order s id = Some (s', effs) → wf s' ∧ conserves s s' effs nothing.
Proof.
  intros W. unfold accept_peer. destruct (handshakes s !! id) as [h|] eqn:Hh; [|intros [= <- <-]; split; [done|by apply quiet_conserves]].
  destruct (on_websocket_connection_ready _ _ _ _ _ _ _ _) as [[s1 e1]|] eqn:E; [|done]. run_bind. intros [= <- <-].
  destruct (wf_waiting s W id h Hh) as [Hk Hc]. apply server_ready_spec in E as (C & Hhs & Hwf); [|done..].
  split; [|done]. rewrite Hhs. apply Hwf; [apply delete_subseteq|].
  intros id' h' [Hne Hh']%lookup_delete_Some Heq. apply Hne. by eapply (wf_distinct s W).
Qed.

Lemma server_reject_spec s id s' effs :
  wf s → reject_peer s id = Some (s', effs) → wf s' ∧ conserves s s' effs nothing.
Proof.
  intros W. unfold reject_peer. destruct (handshakes s !! id) as [h|] eqn:Hh; [|intros [= <- <-]; split; [done|by apply quiet_conserves]].
  destruct (respond _ _ _) as [[s1 e1]|] eqn:E; [|done]. run_bind. intros [= <- <-]. apply respond_calm in E as [C S].
  split; [apply forget_handshake; by eapply server_calm_wf|]. by apply (quiet_conserves s s1).
Qed.

Lemma send_spec s id buffer t s' effs ok :
  wf s → buffer ≠ [] → send_frame random written s id buffer t = Some (s', effs, ok) →
  wf s' ∧ ok = true ∧ conserves s s' effs (λ id', if decide (id = id') then [Peer.mkFrame t buffer] else []).
Proof.
  intros W Hne. unfold send_frame. destruct (peer_of id s) as [p|] eqn:Hp; [|done]. run_bind.
  assert (∀ s1 e1, same_links s s1 → peers s1 = peers s → silent e1 →
    (∀ k, peer_data s !! id = Some k → ¬ open_protocol s k) →
    Some (with_peer id (Peer.set_backlog (Peer.backlog p ++ [Peer.mkFrame t buffer]) p) s1, e1, true) = Some (s', effs, ok) →
    wf s' ∧ ok = true ∧ conserves s s' effs (λ id', if decide (id = id') then [Peer.mkFrame t buffer] else [])) as Hpush.
  { intros s1 e1 L P S Hshut [= <- <- <-].
    assert (∀ id', backlog_of (peers (with_peer id (Peer.set_backlog (Peer.backlog p ++ [Peer.mkFrame t buffer]) p) s1)) id' =
      backlog_of (peers s) id' ++ (if decide (id = id') then [Peer.mkFrame t buffer] else [])) as Hb.
    { intros id'. rewrite backlog_with_peer, P. destruct (decide (id' = id)) as [->|];
        [by rewrite decide_True, (backlog_of_peer _ _ _ Hp)|]. by rewrite decide_False, app_nil_r. }
    split; [|split; [done|]]; [|intros id'; by rewrite S, Hb].
    split; cbn [peer_data conn_data protocols handshakes with_peer with_peers];
      rewrite ?(same_peers _ _ L), ?(same_conns _ _ L), ?(same_waiting _ _ L).
    - apply W.
    - intros k id' Hk. apply (same_protocols _ _ L). by eapply (wf_bound s W).
    - intros id' h Hh. rewrite (same_protocols _ _ L). by apply (wf_waiting s W id').
    - apply W.
    - intros id' k Hk Ho%(same_open _ _ L). rewrite Hb. destruct (decide (id = id')) as [<-|].
      + by destruct (Hshut k Hk).
      + rewrite app_nil_r. by apply (wf_flushed s W id' k).
    - intros id'. rewrite Hb. apply Forall_app. split; [apply W|]. case_decide; by repeat constructor. }
  destruct (peer_data s !! id) as [k|] eqn:Hk.
  - destruct (protocols s !! k) as [d|] eqn:Hd.
    + destruct (server_send_spec s id k d buffer t Hk Hd) as (d' & e1 & -> & Hs & Hsent). run_bind.
      pose proof (with_protocol_same s k d d' Hd Hs) as L. destruct (shut d) eqn:Hshut; cbn [negb].
      * apply Hpush; [done..|]. intros k' [= <-] (d0 & Hd0 & Ho). congruence.
      * intros [= <- <- <-].
        assert (backlog_of (peers s) id = []) as Hb by (apply (wf_flushed s W id k Hk); by exists d).
        split; [eapply server_calm_wf; [exact W|]|split; [done|]].
        -- apply (server_with_protocol_calm s k d); [done|]. congruence.
        -- intros id'. rewrite Hsent. cbn [peers with_protocol]. destruct (decide (id = id')) as [<-|];
             [by rewrite Hb|by rewrite app_nil_r].
    + unfold evd_websocket_server_send. rewrite Hk, Hd. run_bind. apply Hpush; try done.
      intros k' [= <-] (d0 & Hd0 & Ho). congruence.
  - unfold evd_websocket_server_send. rewrite Hk. run_bind. by apply Hpush.
Qed.

Lemma resolve_calm now fresh_id s u s' r :
  resolve_peer now fresh_id s u = Some (s', r) → calm s s' ∧ protocols s' = protocols s.
Proof.
  unfold resolve_peer.
  assert (∀ s1 found, same_backlogs (peers s) (peers s1) → s1 = with_peers (peers s1) s →
    match found with
    | Some id => p ← peer_of id s1; Some (with_peer id (Peer.evd_peer_touch now p) s1, Some (id, false))
    | None =>
        if standalone s1 then
          match peer_of fresh_id s1 with
          | None => Some (with_owned ({[fresh_id]} ∪ owned s1) (with_peer fresh_id (Peer.evd_peer_init now) s1),
                          Some (fresh_id, true))
          | Some _ => None
          end
        else Some (s1, None)
    end = Some (s', r) → calm s s' ∧ protocols s' = protocols s) as Hmain.
  { intros s1 found B Es1. assert (calm s s1) as C1 by (rewrite Es1; by apply server_with_peers_calm).
    assert (protocols s1 = protocols s) as Ep by by rewrite Es1. destruct found as [id|].
    - destruct (peer_of id s1) as [p|] eqn:Hp; [|done]. run_bind. intros [= <- <-]. split; [|done].
      eapply server_calm_trans; [done|]. apply server_with_peers_calm. by apply (server_set_peer_same _ _ p).
    - destruct (standalone s1); [|by intros [= <- <-]]. destruct (peer_of fresh_id s1) eqn:Hp; [done|].
      intros [= <- <-]. split; [|done]. eapply server_calm_trans; [done|].
      eapply (server_calm_trans _ (with_peer fresh_id (Peer.evd_peer_init now) s1)); [|done].
      apply server_with_peers_calm. intros id. rewrite backlog_set_peer. case_decide as E; [|done]. subst.
      unfold backlog_of, peer_of in *. by rewrite Hp. }
  destruct (uri_query u) as [q|]; [|apply (Hmain s None); [done|by destruct s]].
  destruct (Peer.evd_peer_manager_lookup_peer (peers s) (text q)) as [w r'] eqn:El. apply (Hmain (with_peers w s) r'); [|done].
  unfold Peer.evd_peer_manager_lookup_peer in El. injection El as <- _. by apply server_same_heap.
Qed.

(** The handshake gives a protocol to a connection that has none. *)
Lemma handshake_spec s k request s' ok :
  wf s → protocols s !! k = None → handle_handshake_request s k request = Some (s', ok) →
  wf s' ∧ peers s' = peers s ∧
  (ok = true → is_Some (protocols s' !! k) ∧ conn_data s' !! k = None ∧
    ∀ id h, handshakes s' !! id = Some h → hs_conn h ≠ k).
Proof.
  intros W Hk. unfold handle_handshake_request. destruct (conns s !! k) as [c|]; [|done]. run_bind.
  destruct (evd_http_message_get_headers request) as [r' h].
  destruct (evd_websocket_protocol_handle_handshake_request _ _) as [[res d]|]; [|by intros [= <- <-]].
  destruct (evd_http_connection_write_response_headers _ _ _ _ _) as [c' []];
    [|intros [= <- <-]; split; [by eapply server_calm_wf|done]].
  intros [= <- <-].
  assert (conn_data s !! k = None) as Hc.
  { destruct (conn_data s !! k) as [id|] eqn:E; [|done]. apply (wf_bound s W) in E as [? E]. congruence. }
  assert (∀ id h', handshakes s !! id = Some h' → hs_conn h' ≠ k) as Hw.
  { intros id h' Hh Ek. apply (wf_waiting s W) in Hh as [[? E] _]. congruence. }
  split; [|split; [done|]].
  - split; cbn [peer_data conn_data protocols handshakes peers with_protocol with_conn]; try apply W.
    + intros k' id Hk'. destruct (decide (k' = k)) as [->|]; [congruence|]. rewrite lookup_insert_ne by done.
      by eapply (wf_bound s W).
    + intros id h' Hh. rewrite lookup_insert_ne by (apply not_eq_sym; by eapply Hw). by apply (wf_waiting s W id).
    + intros id k' Hp (d' & Hd' & Ho). cbn [protocols with_protocol with_conn] in Hd'.
      apply (wf_flushed s W id k' Hp). exists d'. split; [|done].
      rewrite lookup_insert_ne in Hd'; [done|]. intros <-. apply (wf_link s W) in Hp. congruence.
  - intros _. cbn [protocols with_protocol conn_data with_conn handshakes]. rewrite lookup_insert_eq. by split_and!.
Qed.

Lemma with_handshakes_same s : with_handshakes (handshakes s) s = s.
Proof. by destruct s. Qed.

Lemma validated_spec now order s id new k request verdict s' effs :
  wf s → is_Some (protocols s !! k) → conn_data s !! k = None → (∀ id h, handshakes s !! id = Some h → hs_conn h ≠ k) →
  validated random written now order s id new k request verdict = Some (s', effs) →
  wf s' ∧ conserves s s' effs nothing.
Proof.
  intros W Hk Hc Hw. unfold validated. destruct (_ =? WebService.EVD_VALIDATE_ACCEPT).
  { destruct (conns s !! k) as [c|]; [|done]. run_bind.
    destruct (closed c); [intros [= <- <-]; split; [done|by apply quiet_conserves]|].
    intros E. apply server_ready_spec in E as (C & Hhs & Hwf); [|done..]. split; [|done].
    rewrite <-(with_handshakes_same s'). apply Hwf; rewrite Hhs; [done|]. by apply Hw. }
  destruct (_ =? WebService.EVD_VALIDATE_REJECT).
  { intros [C S]%respond_calm. split; [by eapply server_calm_wf|by apply quiet_conserves]. }
  intros [= <- <-]. split; [|by apply (quiet_conserves s s)].
  split; cbn [peer_data conn_data protocols handshakes peers with_handshakes]; try apply W.
  - intros id' h. rewrite lookup_insert_Some. intros [[<- <-]|[_ Hh]]; [done|]. by apply (wf_waiting s W id').
  - intros id1 id2 h1 h2. rewrite !lookup_insert_Some.
    intros [[<- <-]|[_ Hh1]] [[<- <-]|[_ Hh2]] Heq; [done| | |by eapply wf_distinct]; cbn [hs_conn] in Heq.
    + by destruct (Hw id2 h2).
    + by destruct (Hw id1 h1).
Qed.

Lemma request_spec now order fresh_id verdicts s k request s' effs :
  wf s → protocols s !! k = None →
  evd_websocket_server_request_handler random written now order fresh_id verdicts s k request = Some (s', effs) →
  wf s' ∧ conserves s s' effs nothing.
Proof.
  intros W Hk. unfold evd_websocket_server_request_handler. destruct (uri request) as [u|]; [|done]. run_bind.
  destruct (resolve_peer _ _ _ _) as [[s1 r]|] eqn:E1; [|done]. run_bind. apply resolve_calm in E1 as [C1 P1].
  assert (wf s1) as W1 by by eapply server_calm_wf. assert (protocols s1 !! k = None) as Hk1 by by rewrite P1.
  assert (conserves s s1 [] nothing) as D1 by by apply quiet_conserves.
  destruct r as [[id new]|].
  - destruct (handle_handshake_request s1 k request) as [[s2 ok]|] eqn:E2; [|done]. run_bind.
    apply handshake_spec in E2 as (W2 & P2 & Hok); [|done..].
    assert (conserves s s2 [] nothing) as D2 by (intros id'; rewrite P2; apply D1).
    destruct ok; cbn [negb].
    + destruct (Hok eq_refl) as (Hp & Hc & Hh).
      destruct (validated _ _ _ _ _ _ _ _ _ _) as [[s3 e3]|] eqn:E3; [|done]. run_bind. intros [= <- <-].
      change (with_arg None (with_arg _ s2)) with (with_arg None s2) in E3.
      apply validated_spec in E3 as [W3 D3]; [|by eapply server_calm_wf|done..]. split; [done|].
      apply (conserves_trans _ s2 _ [_]); [intros id'; exact (D2 id')|done].
    + intros [C S]%respond_calm. split; [by eapply server_calm_wf|].
      apply (conserves_trans _ s2 _ []); [done|by apply quiet_conserves].
  - intros [C S]%respond_calm. split; [by eapply server_calm_wf|].
    apply (conserves_trans _ s1 _ []); [done|by apply quiet_conserves].
Qed.

(** ** Runs *)

Inductive operation :=
  | Request (now : Z) (order : list string) (fresh_id : string)
      (verdicts : option (nat * EvdHttpRequest) → list Z) (k : nat) (request : EvdHttpRequest)
  | Accept (now : Z) (order : list string) (id : string)
  | Reject (id : string)
  | Send (id : string) (buffer : list Z) (t : Peer.EvdMessageType)
  | Read (k : nat) (r : read_outcome)
  | Flushed (k : nat)
  | Timeout (k : nat)
  | Close (id : string) (gracefully : bool)
  | Hangup (k : nat)
  | Leave (k : nat).

(** The connection of a web socket is not read for requests. *)
Definition exec (o : operation) s : option (server * list effect) :=
  match o with
  | Request now order fresh_id verdicts k request =>
      match protocols s !! k with
      | None => evd_websocket_server_request_handler random written now order fresh_id verdicts s k request
      | Some _ => Some (s, [])
      end
  | Accept now order id => accept_peer random written now order s id
  | Reject id => reject_peer s id
  | Send id buffer t => '(s, effs, _) ← send_frame random written s id buffer t; Some (s, effs)
  | Read k r => conn_read random written s k r
  | Flushed k => conn_flushed random written s k
  | Timeout k => conn_timeout random written s k
  | Close id gracefully => close_peer random written s id gracefully
  | Hangup k => io_close s k
  | Leave k => Some ((evd_websocket_server_remove s k).1, [])
  end.

Fixpoint run (ops : list operation) s : option (server * list effect) :=
  match ops with
  | [] => Some (s, [])
  | o :: ops => '(s, e1) ← exec o s; '(s, e2) ← run ops s; Some (s, e1 ++ e2)
  end.

(** The messages given to a peer. *)
Definition given (id : string) (ops : list operation) : list Peer.BacklogFrame :=
  ops ≫= λ o, match o with
              | Send id' buffer t => if decide (id' = id) then [Peer.mkFrame t buffer] else []
              | _ => []
              end.

Definition not_empty (o : operation) : Prop := match o with Send _ buffer _ => buffer ≠ [] | _ => True end.

Lemma exec_spec o s s' effs :
  wf s → not_empty o → exec o s = Some (s', effs) → wf s' ∧ conserves s s' effs (λ id, given id [o]).
Proof.
  intros W Hne.
  assert (calm s s' ∧ silent effs → wf s' ∧ conserves s s' effs nothing) as Hcalm.
  { intros [C S]. split; [by eapply server_calm_wf|by apply quiet_conserves]. }
  destruct o; cbn [exec given mbind list_bind app].
  - destruct (protocols s !! k) eqn:Hk; [intros [= <- <-]; by apply Hcalm|by apply request_spec].
  - by apply accept_spec.
  - by apply server_reject_spec.
  - destruct (send_frame _ _ _ _ _ _) as [[[s1 e1] b]|] eqn:E; [|done]. run_bind. intros [= <- <-].
    apply send_spec in E as (W1 & _ & C1); [|done..]. split; [done|]. intros id'. rewrite app_nil_r. apply C1.
  - intros E. apply Hcalm. by eapply conn_read_calm.
  - intros E. apply Hcalm. by eapply conn_flushed_calm.
  - intros E. apply Hcalm. by eapply conn_timeout_calm.
  - intros E. apply Hcalm. by eapply server_close_peer_calm.
  - intros E. apply Hcalm. by eapply server_io_close_calm.
  - intros [= <- <-]. apply Hcalm. split; [apply server_remove_calm|done].
Qed.

Lemma server_run_spec ops : ∀ s s' effs,
  wf s → Forall not_empty ops → run ops s = Some (s', effs) → wf s' ∧ conserves s s' effs (λ id, given id ops).
Proof.
  induction ops as [|o ops IH]; intros s s' effs W Hne; cbn [run]; [intros [= <- <-]; split; [done|by apply quiet_conserves]|].
  apply Forall_cons_1 in Hne as [Ho Hne]. destruct (exec o s) as [[s1 e1]|] eqn:E1; [|done]. run_bind.
  apply exec_spec in E1 as [W1 C1]; [|done..]. destruct (run ops s1) as [[s2 e2]|] eqn:E2; [|done]. run_bind.
  intros [= <- <-]. apply IH in E2 as [W2 C2]; [|done..]. split; [done|]. intros id.
  rewrite sent_to_app, <-app_assoc, C2, app_assoc, C1, <-app_assoc. f_equal.
  unfold given. rewrite !bind_cons. by rewrite <-app_assoc.
Qed.

(** ** What the client reads *)




(** ** Theorems *)

(** C12. The messages given to a peer go to its web sockets in the order they were given, whatever the
    requests, verdicts, reads, hangups and closings in between: over every run of the server what its
    web sockets were sent, followed by what waits in its backlog, is what waited at first followed by
    the messages given. *)
Theorem messages_in_order s ops s' effs id :
  wf s → Forall not_empty ops → run ops s = Some (s', effs) →
  sent_to id effs ++ backlog_of (peers s') id = backlog_of (peers s) id ++ given id ops.
Proof. intros W Hne E. by destruct (server_run_spec ops s s' effs W Hne E) as [_ C]. Qed.

(** Over every run of the server the links between peers and connections are those of a peer with
    one web socket: the connection a peer has bears that peer, speaks the protocol, and while it is
    open no message waits for it. *)
Example web_sockets_linked s ops s' effs id k :
  wf s → Forall not_empty ops → run ops s = Some (s', effs) → peer_data s' !! id = Some k →
  conn_data s' !! k = Some id ∧
  ∃ d, protocols s' !! k = Some d ∧ (shut d = false → backlog_of (peers s') id = []).
Proof.
  intros W Hne E Hk. destruct (server_run_spec ops s s' effs W Hne E) as [W' _].
  pose proof (wf_link s' W' id k Hk) as Hc. split; [done|].
  destruct (wf_bound s' W' k id Hc) as [d Hd]. exists d. split; [done|]. intros Hs.
  apply (wf_flushed s' W' id k Hk). by exists d.
Qed.


End Server.

(** ** A concrete server *)

#[local] Existing Instance WebServiceSpec.demo_regex.

#[export] Instance demo_digest : Digest := {| sha1 := codes; ascii_strtoull := λ _, 13 |}.

Definition demo_request (path : string) : EvdHttpRequest :=
  mkRequest 1
    (Some (mkTable [(codes "Sec-WebSocket-Version", codes "13"); (codes "Connection", codes "Upgrade");
                    (codes "Upgrade", codes "websocket"); (codes "Sec-WebSocket-Key", codes "k")] SOUP_ENCODING_EOF 0))
    (codes "GET") (soup_uri_new (codes path)).

Definition demo_conn : EvdHttpConnection :=
  evd_http_connection_init false (BufferedInput.evd_buffered_input_stream_init 4096) [].

(** A service with three connections and no peer. *)
Definition demo_server : server :=
  mkServer WebService.evd_web_service_init true None (Peer.mkWorld ∅ (Peer.evd_peer_manager_init 0) [] 1) ∅
    {[ 1%nat := demo_conn; 2%nat := demo_conn; 3%nat := demo_conn ]} ∅ {[ 1; 2; 3 ]}%nat ∅ ∅ ∅ [].

Lemma demo_wf : wf demo_server.
Proof. by split. Qed.

Definition demo_random : nat → nat → Z := λ _ _, 7.
Definition demo_written : nat → nat → Z := λ _ _, 1.

Abbreviation demo_run := (run demo_random demo_written).

Definition accepts : option (nat * EvdHttpRequest) → list Z := λ _, [0].
Definition rejects : option (nat * EvdHttpRequest) → list Z := λ _, [1].
Definition waits : option (nat * EvdHttpRequest) → list Z := λ _, [2].

Definition hello : list Z := codes "hello".
Definition again : list Z := codes "again".

(** A peer connects, gets a message, its socket is taken out of the service, it is given another
    message and comes back. *)
Definition demo_operations : list operation :=
  [Request 0 [] "p" accepts 1 (demo_request "/ws"); Send "p" hello Peer.MESSAGE_TYPE_TEXT; Leave 1;
   Send "p" again Peer.MESSAGE_TYPE_TEXT; Request 1 [] "q" waits 2 (demo_request "/ws?p"); Accept 2 [] "p"].

Definition demo_end (ops : list operation) : server * list effect :=
  default (demo_server, []) (demo_run ops demo_server).

(** Whether nothing ends the program. *)
Definition survives (ops : list operation) : bool :=
  match demo_run ops demo_server with Some _ => true | None => false end.

Lemma server_survives_run ops : survives ops = true → demo_run ops demo_server = Some ((demo_end ops).1, (demo_end ops).2).
Proof. unfold survives, demo_end. by destruct (demo_run ops demo_server) as [[]|]. Qed.

Lemma server_demo_operations_run : survives demo_operations = true.
Proof. vm_compute. reflexivity. Qed.

Lemma demo_operations_linked : peer_data (demo_end demo_operations).1 !! "p" = Some 2%nat.
Proof. vm_compute. done. Qed.

Lemma demo_not_empty : Forall not_empty demo_operations.
Proof. by repeat constructor. Qed.

Lemma messages_in_order_witness :
  sent_to "p" (demo_end demo_operations).2 ++ backlog_of (peers (demo_end demo_operations).1) "p" =
  [Peer.mkFrame Peer.MESSAGE_TYPE_TEXT hello; Peer.mkFrame Peer.MESSAGE_TYPE_TEXT again].
Proof.
  rewrite (messages_in_order demo_random demo_written demo_server demo_operations (demo_end demo_operations).1
             (demo_end demo_operations).2 "p" demo_wf demo_not_empty (server_survives_run _ server_demo_operations_run)).
  reflexivity.
Defined.

Lemma web_sockets_linked_witness : conn_data (demo_end demo_operations).1 !! 2%nat = Some "p".
Proof.
  apply (web_sockets_linked demo_random demo_written demo_server demo_operations (demo_end demo_operations).1
             (demo_end demo_operations).2 "p" 2 demo_wf demo_not_empty (server_survives_run _ server_demo_operations_run) demo_operations_linked).
Defined.







(** ** Defects *)

(** A socket that hangs up has forgotten its group when the service is asked to remove it, and the
    service removes nothing: the peer keeps the closed socket, which takes its messages. *)
Definition hangup_then_send : list operation :=
  [Request 0 [] "p" accepts 1 (demo_request "/ws"); Hangup 1; Send "p" hello Peer.MESSAGE_TYPE_TEXT].

Example hangup_loses_messages :
  let s := (demo_end hangup_then_send).1 in
  survives hangup_then_send = true ∧ closed <$> conns s !! 1%nat = Some true ∧ peer_data s !! "p" = Some 1%nat ∧
  backlog_of (peers s) "p" = [] ∧ sent_to "p" (demo_end hangup_then_send).2 = [Peer.mkFrame Peer.MESSAGE_TYPE_TEXT hello].
Proof. split_and!; vm_compute; reflexivity. Qed.

(** A peer opens a second web socket, then its first one is taken out of the service: the peer loses
    the second, which is open and still bears it. *)
Definition second_socket : list operation :=
  [Request 0 [] "p" accepts 1 (demo_request "/ws"); Request 1 [] "q" accepts 2 (demo_request "/ws?p"); Leave 1].

Example second_socket_disconnected :
  let s := (demo_end second_socket).1 in
  survives second_socket = true ∧ peer_data s !! "p" = None ∧ conn_data s !! 2%nat = Some "p" ∧
  closed <$> conns s !! 2%nat = Some false ∧ evd_websocket_server_peer_is_connected s "p" = false.
Proof. split_and!; vm_compute; reflexivity. Qed.

(** A peer accepted after its connection has gone is bound to the closed connection, whose protocol
    takes its messages. *)
Definition late_accept : list operation :=
  [Request 0 [] "p" waits 1 (demo_request "/ws"); Hangup 1; Accept 1 [] "p"; Send "p" hello Peer.MESSAGE_TYPE_TEXT].

Example late_accept_loses_messages :
  let s := (demo_end late_accept).1 in
  survives late_accept = true ∧ peer_data s !! "p" = Some 1%nat ∧
  closed <$> conns s !! 1%nat = Some true ∧ backlog_of (peers s) "p" = [] ∧
  sent_to "p" (demo_end late_accept).2 = [Peer.mkFrame Peer.MESSAGE_TYPE_TEXT hello].
Proof. split_and!; vm_compute; reflexivity. Qed.

(** A peer that the handlers reject has already been told that the protocol is switched: a second
    response follows the first one. *)
Definition rejected_peer : list operation := [Request 0 [] "p" rejects 1 (demo_request "/ws")].

Example rejected_after_switching :
  let o := default [] (out <$> conns (demo_end rejected_peer).1 !! 1%nat) in
  starts_with o (codes "HTTP/1.1 101") = true ∧ is_Some (g_strstr_len o None (codes "HTTP/1.1 403")).
Proof. vm_compute. split; [done|by eexists]. Qed.

(** The server closes a peer and the socket is taken out of the service before the client answers: the
    callbacks are gone when the timeout of the closing handshake calls them. *)
Definition closed_then_left : list operation :=
  [Request 0 [] "p" accepts 1 (demo_request "/ws"); Close "p" true; Leave 1].

Example timeout_after_leaving_crashes :
  survives closed_then_left = true ∧ survives (closed_then_left ++ [Timeout 1]) = false.
Proof. split_and!; vm_compute; reflexivity. Qed.

End WebsocketServerSpec.
