(* ===== verification/WebDir.v ===== *)
(** * Files served over HTTP (src/evd/evd-web-dir.c): model

    A web service that answers a request with the file its path names: it looks the file up, opens it,
    and copies it in blocks to the connection as the connection takes them.  The file system and GIO's
    asynchronous calls are the environment: a binding has at most one call under way ([asked]), and the
    answers are arguments of the callbacks, as is whether the connection may be written
    ([evd_connection_get_max_writable]).  The responses are those of WebService.v, the connection that
    of HttpConnection.v.  [None] stands for what ends the program. *)
From S2P Require Import Prelude HttpMessage BufferedInput HttpConnection WebService.
Import HttpMessage HttpConnection.

Module WebDir.

Definition BLOCK_SIZE : Z := 4095.
Definition DEFAULT_DIRECTORY_INDEX : list Z := codes "index.html".

(** ** What the source uses of libsoup's dates and of GIO's files *)
Class SoupDates `{Soup} := {
  soup_date_new_from_string : list Z → option Z;          (* as a time_t *)
  soup_date_http : Z → list Z;                            (* of a time_t, in the format of HTTP *)
  soup_message_headers_set_content_type : SoupMessageHeaders → list Z → SoupMessageHeaders
}.

Inductive GIOErrorEnum := G_IO_ERROR_NOT_FOUND | G_IO_ERROR_PERMISSION_DENIED | G_IO_ERROR_OTHER.

Inductive GFileType :=
  | G_FILE_TYPE_DIRECTORY | G_FILE_TYPE_SYMBOLIC_LINK | G_FILE_TYPE_REGULAR | G_FILE_TYPE_OTHER.

Record GFileInfo := mkInfo {
  file_type : GFileType;
  content_type : list Z;
  file_size : Z;
  time_modified : Z               (* 64 bits, unsigned *)
}.

(** ** State *)

Record EvdWebDirPrivate := mkDir {
  root : option (list Z);
  alias : option (list Z);
  allow_put : bool;
  dir_index : option (list Z)
}.

Inductive call := QueryInfo (filename : list Z) | ReadFile (filename : list Z) | ReadBlock.

#[export] Instance call_eq_dec : EqDecision call.
Proof. solve_decision. Defined.

Definition evd_web_dir_init : EvdWebDirPrivate := mkDir None None false (Some DEFAULT_DIRECTORY_INDEX).
Definition set_root (r : option (list Z)) (p : EvdWebDirPrivate) := mkDir r (alias p) (allow_put p) (dir_index p).
Definition set_allow_put (b : bool) (p : EvdWebDirPrivate) := mkDir (root p) (alias p) b (dir_index p).
Definition evd_web_dir_set_alias (p : EvdWebDirPrivate) (a : option (list Z)) :=
  mkDir (root p) a (allow_put p) (dir_index p).
Definition evd_web_dir_get_root (p : EvdWebDirPrivate) : option (list Z) := root p.
Definition evd_web_dir_get_alias (p : EvdWebDirPrivate) : option (list Z) := alias p.

Definition g_path_is_absolute (path : list Z) : bool := bool_decide (head path = Some 47).

Definition evd_web_dir_set_root (current_dir : list Z) (p : EvdWebDirPrivate) (r : list Z) : EvdWebDirPrivate :=
  set_root (Some (if g_path_is_absolute r then r else current_dir ++ [47] ++ r)) p.

Section Dir.
Context `{Soup} `{!SoupDates} `{WebService.Regex}.

Record EvdWebDirBinding := mkBinding {
  request : EvdHttpRequest;
  filename : option (list Z);
  file_input_stream : bool;
  response_content_size : Z;
  response_status_code : Z;
  response_headers : option SoupMessageHeaders;
  response_headers_sent : bool;
  asked : option call                    (* the call of GIO under way *)
}.

Definition with_filename f b := mkBinding (request b) f (file_input_stream b) (response_content_size b) (response_status_code b) (response_headers b) (response_headers_sent b) (asked b).
Definition with_stream b := mkBinding (request b) (filename b) true (response_content_size b) (response_status_code b) (response_headers b) (response_headers_sent b) (asked b).
Definition with_size n b := mkBinding (request b) (filename b) (file_input_stream b) n (response_status_code b) (response_headers b) (response_headers_sent b) (asked b).
Definition with_status s b := mkBinding (request b) (filename b) (file_input_stream b) (response_content_size b) s (response_headers b) (response_headers_sent b) (asked b).
Definition with_response_headers h b := mkBinding (request b) (filename b) (file_input_stream b) (response_content_size b) (response_status_code b) h (response_headers_sent b) (asked b).
Definition with_sent b := mkBinding (request b) (filename b) (file_input_stream b) (response_content_size b) (response_status_code b) (response_headers b) true (asked b).
Definition with_asked a b := mkBinding (request b) (filename b) (file_input_stream b) (response_content_size b) (response_status_code b) (response_headers b) (response_headers_sent b) a.

(** The world of the connection, the binding unless it has been freed, and the log entries. *)
Definition outcome : Type := WebService.world * option EvdWebDirBinding * list WebService.effect.

(** The service, with where the connection comes from and the time, which are logged. *)
Variable self : EvdWebDirPrivate.
Variable web : WebService.EvdWebServicePrivate.
Variable remote_addr : option (list Z).
Variable date : list Z.

Implicit Types (w : WebService.world) (b : EvdWebDirBinding).

(** ** The end of a request *)

Definition evd_web_dir_finish_request w b : option outcome :=
  '(logs, _) ← WebService.evd_web_service_log remote_addr date (request b) (response_status_code b)
                 (response_content_size b);
  Some (WebService.evd_web_service_flush_and_return_connection w, None, logs).

Definition status_of_error (e : GIOErrorEnum) : Z :=
  match e with
  | G_IO_ERROR_NOT_FOUND => 404
  | G_IO_ERROR_PERMISSION_DENIED => 403
  | G_IO_ERROR_OTHER => 7                       (* SOUP_STATUS_IO_ERROR *)
  end.

(** The connection's errors are none of the two. *)
Definition evd_web_dir_handle_content_error w b (e : GIOErrorEnum) : option outcome :=
  let b := with_status (status_of_error e) b in
  if negb (response_headers_sent b) then
    '(w, _) ← WebService.evd_web_service_respond_internal web w (response_status_code b) None None 0;
    evd_web_dir_finish_request w b
  else
    '(c, evs) ← g_io_stream_close (WebService.conn w);
    evd_web_dir_finish_request (WebService.with_conn c w) b.

(** ** Copying *)

Definition evd_web_dir_file_read_block w b (writable : bool) : outcome :=
  if bool_decide (asked b ≠ Some ReadBlock) && writable then (w, Some (with_asked (Some ReadBlock) b), [])
  else (w, Some b, []).

(** [r]: the bytes read, none at the end of the file. *)
Definition evd_web_dir_file_on_block_read w b (r : list Z + GIOErrorEnum) (writable : bool) : option outcome :=
  let b := with_asked None b in
  match r with
  | inl [] => evd_web_dir_finish_request w b
  | inl data =>
      let '(c, res) := evd_http_connection_write_content (WebService.conn w) data true in
      let w := WebService.with_conn c w in
      match res with
      | inr _ => evd_web_dir_handle_content_error w b G_IO_ERROR_OTHER
      | inl _ => Some (evd_web_dir_file_read_block w (with_size (response_content_size b + len data) b) writable)
      end
  | inr e => evd_web_dir_handle_content_error w b e
  end.

Definition evd_web_dir_file_on_open w b (r : unit + GIOErrorEnum) (writable : bool) : option outcome :=
  let b := with_asked None b in
  match r with
  | inr e => evd_web_dir_handle_content_error w b e
  | inl _ =>
      let b := with_stream b in
      let '(c, ok) := evd_http_connection_write_response_headers (WebService.conn w) (version (request b)) 200
                        None (response_headers b) in
      let w := WebService.with_conn c w in
      if ok : bool then Some (evd_web_dir_file_read_block w (with_status 200 (with_sent b)) writable)
      else evd_web_dir_handle_content_error w b G_IO_ERROR_OTHER
  end.

(** The signal "write" of the connection. *)
Definition evd_web_dir_conn_on_write w b (writable : bool) : outcome :=
  if file_input_stream b then evd_web_dir_file_read_block w b writable else (w, Some b, []).

(** ** Looking up *)

(** NULL is no file: nothing is asked. *)
Definition evd_web_dir_request_file (f : option (list Z)) b : EvdWebDirBinding :=
  with_asked (match f with Some path => Some (QueryInfo path) | None => None end) (with_filename f b).

(** Whether the client's copy is new enough; it is then told so. *)
Definition evd_web_dir_check_not_modified w (req : EvdHttpRequest) (h : SoupMessageHeaders)
    (file_last_modified_time : Z) : option (WebService.world * bool) :=
  match soup_message_headers_get_one (evd_http_message_get_headers req).2 (codes "If-Modified-Since") with
  | None => Some (w, false)
  | Some modified_date_st =>
      match soup_date_new_from_string modified_date_st with
      | None => Some (w, false)
      | Some modified_date =>
          if file_last_modified_time <=? u64 modified_date then
            '(w, _) ← WebService.evd_web_service_respond_internal web w 304 (Some h) None 0; Some (w, true)
          else Some (w, false)
      end
  end.

Definition connection_header (c : EvdHttpConnection) : SoupMessageHeaders :=
  soup_message_headers_replace soup_message_headers_new (codes "Connection")
    (if evd_http_connection_get_keepalive c then codes "keep-alive" else codes "close").

(** The headers of the response with the file. *)
Definition file_headers (req : EvdHttpRequest) (h : SoupMessageHeaders) (info : GFileInfo) : option SoupMessageHeaders :=
  let h := soup_message_headers_replace h (codes "Last-Modified") (soup_date_http (time_modified info)) in
  cross ← evd_http_request_is_cross_origin req;
  let h :=
    match cross, evd_http_request_get_origin req with
    | true, Some origin =>
        if WebService.evd_web_service_origin_allowed web origin
        then soup_message_headers_replace h (codes "Access-Control-Allow-Origin") origin else h
    | _, _ => h
    end in
  Some (soup_message_headers_set_content_length
          (soup_message_headers_set_content_type h (content_type info)) (file_size info)).

Definition evd_web_dir_file_on_info w b (r : GFileInfo + GIOErrorEnum) : option outcome :=
  let b := with_asked None b in
  match r with
  | inr e => evd_web_dir_handle_content_error w b e
  | inl info =>
      match file_type info with
      | G_FILE_TYPE_DIRECTORY =>
          match dir_index self with
          | Some index =>
              Some (w, Some (evd_web_dir_request_file
                               (Some (default (codes "(null)") (filename b) ++ [47] ++ index)) b), [])
          | None => Some (w, Some b, [])
          end
      | G_FILE_TYPE_SYMBOLIC_LINK | G_FILE_TYPE_OTHER => Some (w, Some b, [])
      | G_FILE_TYPE_REGULAR =>
          let h := connection_header (WebService.conn w) in
          '(w, not_modified) ← evd_web_dir_check_not_modified w (request b) h (time_modified info);
          if not_modified : bool then evd_web_dir_finish_request w b
          else
            h ← file_headers (request b) h info;
            Some (w, Some (with_response_headers (Some h) (with_asked (ReadFile <$> filename b) b)), [])
      end
  end.

(** ** Requests *)

Definition evd_web_dir_method_allowed (m : list Z) : bool :=
  bool_decide (m = codes "GET") || (bool_decide (m = codes "PUT") && allow_put self).

(** The path without the alias; inner [None]: it does not begin with it. *)
Definition path_without_alias (path : list Z) : option (list Z) :=
  match alias self with
  | Some a => if bool_decide (g_strstr_len path None a = Some O) then Some (drop (length a) path) else None
  | None => Some path
  end.

(** A response without content, logged. *)
Definition refuse w (req : EvdHttpRequest) (status_code : Z) : option outcome :=
  '(w, _) ← WebService.evd_web_service_respond_internal web w status_code None None 0;
  '(logs, _) ← WebService.evd_web_service_log remote_addr date req status_code 0;
  Some (w, None, logs).

(** [g_strconcat] of NULL is NULL. *)
Definition evd_web_dir_request_handler w (req : EvdHttpRequest) : option outcome :=
  if negb (evd_web_dir_method_allowed (method req)) then refuse w req 405
  else
    u ← uri req;
    match path_without_alias (uri_path u) with
    | None => refuse w req 404
    | Some path =>
        Some (w, Some (evd_web_dir_request_file ((λ r, r ++ [47] ++ path) <$> root self)
                         (mkBinding req None false 0 0 None false None)), [])
    end.

End Dir.

End WebDir.
