(* ===== verification/WebDirSpec.v ===== *)
(** * Files served over HTTP: theorems

    What a request is answered with is a function of the settings, of the request and of the file
    system ([reply_for]); the binding's callbacks, driven by GIO's answers and by the connection in any
    order, give this answer and nothing else, and they give it in a bounded number of steps. *)
From S2P Require Import Prelude HttpMessage BufferedInput HttpConnection WebService WebServiceSpec WebDir.
Import HttpMessage HttpConnection WebDir.

Module WebDirSpec.

(** A file system that does not change while a request is served. *)
Record files := mkFiles {
  lookup_file : list Z → GFileInfo + GIOErrorEnum;
  contents : list Z → list Z + GIOErrorEnum
}.

Section Spec.
Context `{Soup} `{!SoupLaws} `{!SoupDates} `{WebService.Regex}.
Variable self : EvdWebDirPrivate.
Variable web : WebService.EvdWebServicePrivate.
Variable remote_addr : option (list Z).
Variable date : list Z.
Variable fs : files.
Implicit Types (w : WebService.world) (b : EvdWebDirBinding).

(** ** The specification *)

Inductive reply :=
  | Refused (code : Z)                                (* the request is not looked at *)
  | Failed (code : Z)                                 (* no file can be sent *)
  | NotModified
  | Content (h : SoupMessageHeaders) (data : list Z)
  | NoReply.

(** The client has a copy as new as the file. *)
Definition fresh (req : EvdHttpRequest) (info : GFileInfo) : bool :=
  match soup_message_headers_get_one (evd_http_message_get_headers req).2 (codes "If-Modified-Since") with
  | None => false
  | Some st => if soup_date_new_from_string st is Some d then time_modified info <=? u64 d else false
  end.

(** The reply with the file of a name, looking through [n] directories at most. *)
Fixpoint reply_with (n : nat) (c : EvdHttpConnection) (req : EvdHttpRequest) (path : list Z) : option reply :=
  match lookup_file fs path with
  | inr e => Some (Failed (status_of_error e))
  | inl info =>
      match file_type info, dir_index self, n with
      | G_FILE_TYPE_DIRECTORY, Some index, S n => reply_with n c req (path ++ [47] ++ index)
      | G_FILE_TYPE_DIRECTORY, Some _, O => None
      | G_FILE_TYPE_REGULAR, _, _ =>
          if fresh req info then Some NotModified
          else
            h ← file_headers web req (connection_header c) info;
            Some (match contents fs path with
                  | inl data => Content h data
                  | inr e => Failed (status_of_error e)
                  end)
      | _, _, _ => Some NoReply
      end
  end.

Definition reply_for (n : nat) (c : EvdHttpConnection) (req : EvdHttpRequest) : option reply :=
  if negb (evd_web_dir_method_allowed self (method req)) then Some (Refused 405)
  else
    u ← uri req;
    match path_without_alias self (uri_path u), root self with
    | None, _ => Some (Refused 404)
    | Some path, Some r => reply_with n c req (r ++ [47] ++ path)
    | Some _, None => Some NoReply
    end.

(** The connection after the headers and the content. *)
Definition deliver (h : SoupMessageHeaders) (data : list Z) (req : EvdHttpRequest) w : WebService.world :=
  let c := (evd_http_connection_write_response_headers (WebService.conn w) (version req) 200 None (Some h)).1 in
  WebService.with_conn (with_output (writing c) (out c ++ data) [] c) w.

Definition flushed w : WebService.world := WebService.evd_web_service_flush_and_return_connection w.

(** What a reply does to the connection. *)
Definition send_reply (req : EvdHttpRequest) w (r : reply) : option WebService.world :=
  let respond code h := fst <$> WebService.evd_web_service_respond_internal web w code h None 0 in
  match r with
  | Refused code => respond code None
  | Failed code => flushed <$> respond code None
  | NotModified => flushed <$> respond 304 (Some (connection_header (WebService.conn w)))
  | Content h data => Some (flushed (deliver h data req w))
  | NoReply => None
  end.

(** What is logged of it: the status and the size. *)
Definition logged (r : reply) : Z * Z :=
  match r with
  | Refused code | Failed code => (code, 0)
  | NotModified => (0, 0)
  | Content _ data => (200, len data)
  | NoReply => (0, 0)
  end.

Definition log_of (req : EvdHttpRequest) (r : reply) : option (list WebService.effect) :=
  fst <$> WebService.evd_web_service_log remote_addr date req (logged r).1 (logged r).2.

(** ** Runs *)

(** GIO answers the call under way, with about [n] bytes for a read; the connection says whether it may
    be written. *)
Inductive event := Answer (n : nat) (writable : bool) | CanWrite (writable : bool).

Record state := mkState {
  world : WebService.world;
  binding : option EvdWebDirBinding;
  logs : list WebService.effect;
  offset : nat                       (* of the file opened *)
}.

Definition state_of (o : outcome) (lg : list WebService.effect) (pos : nat) : state :=
  mkState o.1.1 o.1.2 (lg ++ o.2) pos.

Definition opened (r : list Z + GIOErrorEnum) : unit + GIOErrorEnum :=
  match r with inl _ => inl () | inr e => inr e end.

(** What a read gives: at least one byte before the end of the file, at most a block. *)
Definition next_bytes b (pos n : nat) : list Z :=
  match contents fs (default [] (filename b)) with
  | inl data => take (Nat.max 1 (Nat.min n (Z.to_nat BLOCK_SIZE))) (drop pos data)
  | inr _ => []
  end.

Definition exec (e : event) (s : state) : option state :=
  b ← binding s;
  match e with
  | CanWrite wr => Some (state_of (evd_web_dir_conn_on_write (world s) b wr) (logs s) (offset s))
  | Answer n wr =>
      a ← asked b;
      match a with
      | QueryInfo path =>
          o ← evd_web_dir_file_on_info self web remote_addr date (world s) b (lookup_file fs path);
          Some (state_of o (logs s) (offset s))
      | ReadFile path =>
          o ← evd_web_dir_file_on_open web remote_addr date (world s) b (opened (contents fs path)) wr;
          Some (state_of o (logs s) (offset s))
      | ReadBlock =>
          let data := next_bytes b (offset s) n in
          o ← evd_web_dir_file_on_block_read web remote_addr date (world s) b (inl data) wr;
          Some (state_of o (logs s) (offset s + length data))
      end
  end.

Fixpoint run (es : list event) (s : state) : option state :=
  match es with [] => Some s | e :: es => s ← exec e s; run es s end.

Definition start w (req : EvdHttpRequest) : option state :=
  o ← evd_web_dir_request_handler self web remote_addr date w req; Some (state_of o [] 0).

(** An event that brings the request forward: an answer, or, when nothing is asked, the connection that
    can be written. *)
Definition useful (e : event) (s : state) : Prop :=
  match e, binding s ≫= asked with
  | Answer _ _, Some _ => True
  | CanWrite wr, None => wr = true
  | _, _ => False
  end.

(** ** The connection *)

Lemma write_headers_taken c v st h :
  answers c = [] →
  ∃ c', evd_http_connection_write_response_headers c v st None (Some h) = (c', true) ∧
    answers c' = [] ∧ encoding c' = soup_message_headers_get_encoding h.
Proof.
  intros Ha. unfold evd_http_connection_write_response_headers, g_output_stream_write, with_encoding.
  set (c1 := with_body _ _ c). assert (answers c1 = []) as E by done.
  set (b := _ ++ CRLF). assert (b ≠ []) as Hb.
  { subst b. intros Hb. by apply app_nil in Hb as [_ ?]. }
  destruct b as [|z b]; [done|]. rewrite E. rewrite bool_decide_true by eauto. by eexists.
Qed.

Lemma deliver_nothing h req w c :
  answers (WebService.conn w) = [] →
  evd_http_connection_write_response_headers (WebService.conn w) (version req) 200 None (Some h) = (c, true) →
  WebService.with_conn c w = deliver h [] req w.
Proof.
  intros Ha E. destruct (write_headers_taken (WebService.conn w) (version req) 200 h Ha) as (c' & E' & Ha' & _).
  assert (c' = c) as -> by congruence.
  unfold deliver. rewrite E. cbn [fst]. f_equal. rewrite app_nil_r, <-Ha'. by destruct c.
Qed.

Lemma deliver_encoding h d req w :
  answers (WebService.conn w) = [] →
  encoding (WebService.conn (deliver h d req w)) = soup_message_headers_get_encoding h.
Proof.
  intros Ha. destruct (write_headers_taken (WebService.conn w) (version req) 200 h Ha) as (c & E & _ & Hen).
  unfold deliver. by rewrite E.
Qed.

Lemma deliver_more h d d' req w :
  answers (WebService.conn w) = [] → soup_message_headers_get_encoding h = SOUP_ENCODING_CONTENT_LENGTH → d' ≠ [] →
  ∃ c, evd_http_connection_write_content (WebService.conn (deliver h d req w)) d' true = (c, inl ()) ∧
    WebService.with_conn c (deliver h d req w) = deliver h (d ++ d') req w.
Proof.
  intros Ha Hh Hd. unfold evd_http_connection_write_content. rewrite deliver_encoding, Hh by done. cbn [decide].
  rewrite decide_False by done. unfold write_plain, g_output_stream_write. destruct d' as [|z d']; [done|].
  unfold deliver at 1 2. cbn [WebService.conn WebService.with_conn answers with_output].
  rewrite Z.ltb_irrefl. eexists. split; [done|]. unfold deliver. cbn [WebService.conn WebService.with_conn].
  by rewrite app_assoc.
Qed.

(** ** The callbacks keep the reply *)

Section Request.
Variable req : EvdHttpRequest.
Variable w0 : WebService.world.
Hypothesis all_taken : answers (WebService.conn w0) = [].

Definition size_of (r : reply) : nat := match r with Content _ data => length data | _ => O end.

(** The states of a request whose reply is [r], with a bound on the useful events that are left. *)
Inductive tracks (r : reply) : nat → state → Prop :=
  | tracks_info n path :
      reply_with n (WebService.conn w0) req path = Some r →
      tracks r (n + 2 * size_of r + 4)
        (mkState w0 (Some (mkBinding req (Some path) false 0 0 None false (Some (QueryInfo path)))) [] 0)
  | tracks_open path h :
      soup_message_headers_get_encoding h = SOUP_ENCODING_CONTENT_LENGTH →
      r = match contents fs path with inl data => Content h data | inr e => Failed (status_of_error e) end →
      tracks r (2 * size_of r + 3)
        (mkState w0 (Some (mkBinding req (Some path) false 0 0 (Some h) false (Some (ReadFile path)))) [] 0)
  | tracks_copy path h data pos reading :
      soup_message_headers_get_encoding h = SOUP_ENCODING_CONTENT_LENGTH →
      contents fs path = inl data → r = Content h data → (pos <= length data)%nat →
      tracks r (2 * (length data - pos) + (if reading : bool then 1 else 2))
        (mkState (deliver h (take pos data) req w0)
           (Some (mkBinding req (Some path) true (Z.of_nat pos) 200 (Some h) true (if reading then Some ReadBlock else None)))
           [] pos)
  | tracks_stuck b :
      r = NoReply → file_input_stream b = false → asked b = None → tracks r 1 (mkState w0 (Some b) [] 0)
  | tracks_done w lg pos :
      send_reply req w0 r = Some w → log_of req r = Some lg → tracks r 0 (mkState w None lg pos).

(** The next state of a useful event, and of any event. *)
Definition advances (r : reply) (m : nat) (s : state) : Prop := ∃ m', tracks r m' s ∧ (m' < m)%nat.

Lemma failed_done b e pos o m :
  request b = req → response_headers_sent b = false → response_content_size b = 0 → (0 < m)%nat →
  evd_web_dir_handle_content_error web remote_addr date w0 b e = Some o →
  advances (Failed (status_of_error e)) m (state_of o [] pos).
Proof.
  destruct b as [req' f st sz code h sent a]. cbn. intros -> -> -> Hm.
  unfold evd_web_dir_handle_content_error. cbn [response_headers_sent with_status negb response_status_code].
  destruct (WebService.evd_web_service_respond_internal _ _ _ _ _ _) as [[w ok]|] eqn:E; [|done]. run_bind.
  unfold evd_web_dir_finish_request. cbn [request response_status_code response_content_size with_status].
  destruct (WebService.evd_web_service_log _ _ _ _ _) as [[lg ok']|] eqn:El; [|done]. run_bind. intros [= <-].
  exists O. split; [|done]. apply tracks_done.
  - cbn [send_reply]. by rewrite E.
  - unfold log_of. cbn [logged fst snd]. by rewrite El.
Qed.

Lemma headers_encoding c info h :
  file_headers web req c info = Some h → soup_message_headers_get_encoding h = SOUP_ENCODING_CONTENT_LENGTH.
Proof.
  unfold file_headers. destruct (evd_http_request_is_cross_origin req) as [cross|]; [|done]. run_bind.
  intros [= <-]. apply set_content_length_encoding.
Qed.

Lemma modified_spec w h info :
  evd_web_dir_check_not_modified web w req h (time_modified info) =
  if fresh req info then
    r ← WebService.evd_web_service_respond_internal web w 304 (Some h) None 0; Some (r.1, true)
  else Some (w, false).
Proof.
  unfold evd_web_dir_check_not_modified, fresh. destruct (soup_message_headers_get_one _ _) as [st|]; [|done].
  destruct (soup_date_new_from_string st) as [d|]; [|done]. destruct (_ <=? _); [|done].
  by destruct (WebService.evd_web_service_respond_internal web w 304 (Some h) None 0) as [[]|].
Qed.

(** A regular file. *)
Lemma regular_step path info r m o :
  (if fresh req info then Some NotModified
   else h ← file_headers web req (connection_header (WebService.conn w0)) info;
        Some (match contents fs path with inl data => Content h data | inr e => Failed (status_of_error e) end)) = Some r →
  (2 * size_of r + 3 < m)%nat →
  file_type info = G_FILE_TYPE_REGULAR →
  evd_web_dir_file_on_info self web remote_addr date w0
    (mkBinding req (Some path) false 0 0 None false (Some (QueryInfo path))) (inl info) = Some o →
  advances r m (state_of o [] 0).
Proof.
  intros Er Hm Ht. unfold evd_web_dir_file_on_info. rewrite Ht, modified_spec. cbn [request with_asked].
  destruct (fresh req info).
  - injection Er as <-.
    destruct (WebService.evd_web_service_respond_internal _ _ _ _ _ _) as [[w ok]|] eqn:E; [|done]. run_bind.
    unfold evd_web_dir_finish_request. cbn [request response_status_code response_content_size with_asked fst].
    destruct (WebService.evd_web_service_log _ _ _ _ _) as [[lg ok']|] eqn:El; [|done]. run_bind. intros [= <-].
    exists O. split; [|lia]. apply tracks_done; [cbn [send_reply]; by rewrite E|].
    unfold log_of. cbn [logged fst snd]. by rewrite El.
  - run_bind. destruct (file_headers web req _ info) as [h|] eqn:Eh; [|done]. revert Er. run_bind.
    intros Er%(inj Some) [= <-]. eexists. split; [|exact Hm].
    apply (tracks_open _ path h); [by eapply headers_encoding|done].
Qed.

Lemma info_step n path r o :
  reply_with n (WebService.conn w0) req path = Some r →
  evd_web_dir_file_on_info self web remote_addr date w0
    (mkBinding req (Some path) false 0 0 None false (Some (QueryInfo path))) (lookup_file fs path) = Some o →
  advances r (n + 2 * size_of r + 4) (state_of o [] 0).
Proof.
  intros Er E.
  destruct (lookup_file fs path) as [info|e] eqn:El.
  2:{ destruct n; cbn [reply_with] in Er; rewrite El in Er; injection Er as <-;
      by eapply failed_done in E; [exact E|try done; lia..]. }
  destruct (file_type info) eqn:Ht.
  3:{ eapply regular_step; [|lia|done|exact E]. destruct n; cbn [reply_with] in Er; by rewrite El, Ht in Er. }
  all: revert E; unfold evd_web_dir_file_on_info; rewrite Ht; destruct n as [|n]; cbn [reply_with] in Er; rewrite El, Ht in Er.
  3-6: injection Er as <-; intros [= <-]; exists 1%nat; split; [by apply tracks_stuck|lia].
  all: destruct (dir_index self) as [index|]; [|injection Er as <-; intros [= <-]; exists 1%nat; split; [by apply tracks_stuck|lia]].
  - done.
  - intros [= <-]. eexists. split; [by apply tracks_info|lia].
Qed.

Lemma open_step path h r wr o :
  soup_message_headers_get_encoding h = SOUP_ENCODING_CONTENT_LENGTH →
  r = match contents fs path with inl data => Content h data | inr e => Failed (status_of_error e) end →
  evd_web_dir_file_on_open web remote_addr date w0
    (mkBinding req (Some path) false 0 0 (Some h) false (Some (ReadFile path))) (opened (contents fs path)) wr = Some o →
  advances r (2 * size_of r + 3) (state_of o [] 0).
Proof.
  intros Hh ->. unfold evd_web_dir_file_on_open. destruct (contents fs path) as [data|e] eqn:Ec; cbn [opened].
  - destruct (write_headers_taken (WebService.conn w0) (version req) 200 h all_taken) as (c & E & _).
    cbn [request with_stream with_asked response_headers]. rewrite E.
    rewrite (deliver_nothing h req w0 c all_taken E). intros [= <-].
    exists (2 * (length data - 0) + (if wr then 1 else 2))%nat. split; [|cbn [size_of]; destruct wr; lia].
    unfold evd_web_dir_file_read_block. cbn [asked with_status with_sent with_stream with_asked].
    rewrite bool_decide_true by done. destruct wr; cbn [andb];
      [apply (tracks_copy _ path h data 0 true)|apply (tracks_copy _ path h data 0 false)]; try done; lia.
  - intros E. eapply failed_done in E; [exact E|done..|cbn [size_of]; lia].
Qed.

Lemma take_next (data : list Z) pos n : take pos data ++ take n (drop pos data) = take (pos + n) data.
Proof. by rewrite take_take_drop. Qed.

Lemma copy_step path h data pos n wr o :
  soup_message_headers_get_encoding h = SOUP_ENCODING_CONTENT_LENGTH →
  contents fs path = inl data → (pos <= length data)%nat →
  let b := mkBinding req (Some path) true (Z.of_nat pos) 200 (Some h) true (Some ReadBlock) in
  evd_web_dir_file_on_block_read web remote_addr date (deliver h (take pos data) req w0) b (inl (next_bytes b pos n)) wr = Some o →
  advances (Content h data) (2 * (length data - pos) + 1) (state_of o [] (pos + length (next_bytes b pos n))).
Proof.
  intros Hh Hc Hp b. unfold b, next_bytes. cbn [filename default from_option id]. rewrite Hc.
  set (k := Nat.max 1 _). assert (0 < k)%nat as Hk by lia. clearbody k. unfold evd_web_dir_file_on_block_read.
  cbn [with_asked]. assert (length (take k (drop pos data)) = Nat.min k (length data - pos))%nat as Hl.
  { by rewrite length_take, length_drop. }
  destruct (take k (drop pos data)) as [|z zs] eqn:Ez.
  - cbn [length] in Hl. assert (pos = length data) as -> by lia. rewrite take_ge by lia.
    unfold evd_web_dir_finish_request. cbn [request response_status_code response_content_size with_asked].
    destruct (WebService.evd_web_service_log _ _ _ _ _) as [[lg ok]|] eqn:El; [|done]. run_bind. intros [= <-].
    exists O. split; [|lia]. apply tracks_done; [done|]. unfold log_of. cbn [logged fst snd]. unfold len. by rewrite El.
  - rewrite <-Ez in *. destruct (deliver_more h (take pos data) (take k (drop pos data)) req w0) as (c & E & Ew);
      [done|done|by rewrite Ez|]. rewrite E, Ew, take_next, Hl. rewrite Ez at 1. rewrite <-Ez.
    intros [= <-].
    replace (Z.of_nat pos + len (take k (drop pos data))) with (Z.of_nat (pos + Nat.min k (length data - pos))) by (unfold len; lia).
    replace (take (pos + k) data) with (take (pos + Nat.min k (length data - pos)) data).
    2:{ destruct (Nat.min_spec k (length data - pos)) as [[? ->]|[? ->]]; [done|]. by rewrite !take_ge by lia. }
    set (pos' := (pos + Nat.min k (length data - pos))%nat). assert (pos < pos' <= length data)%nat as Hpos.
    { rewrite Ez in Hl. cbn [length] in Hl. lia. }
    eexists (2 * (length data - pos') + (if wr then 1 else 2))%nat. split; [|destruct wr; lia].
    unfold evd_web_dir_file_read_block, with_size. cbn [asked]. rewrite bool_decide_true by done.
    destruct wr; cbn [andb];
      [apply (tracks_copy _ path h data pos' true)|apply (tracks_copy _ path h data pos' false)]; try done; lia.
Qed.

(** Every event keeps the reply; the useful ones bring it nearer. *)
Lemma exec_tracks r m e s s' :
  tracks r m s → exec e s = Some s' → ∃ m', tracks r m' s' ∧ (m' <= m)%nat ∧ (useful e s → r ≠ NoReply → m' < m)%nat.
Proof.
  assert (∀ r m s', advances r m s' → ∃ m', tracks r m' s' ∧ (m' <= m)%nat ∧ (useful e s → r ≠ NoReply → m' < m)%nat) as Hadv.
  { intros r' m1 s1 (m2 & ? & ?). exists m2. split; [done|]. split; [lia|]. by intros. }
  intros T. destruct T as [n path Er|path h Hh Er|path h data pos rd Hh Hc Er Hp|b Er Hf Ha|w lg pos Hw Hlg];
    unfold exec; cbn [binding world logs offset]; run_bind; [| | | |done].
  - destruct e as [k wr|wr]; cbn [asked]; run_bind.
    + destruct (evd_web_dir_file_on_info _ _ _ _ _ _ _) as [o|] eqn:E; [|done]. run_bind. intros [= <-].
      apply Hadv. by eapply info_step.
    + intros [= <-]. eexists. split; [by apply tracks_info|]. split; [lia|by intros []].
  - destruct e as [k wr|wr]; cbn [asked]; run_bind.
    + destruct (evd_web_dir_file_on_open _ _ _ _ _ _ _) as [o|] eqn:E; [|done]. run_bind. intros [= <-].
      apply Hadv. by eapply open_step.
    + intros [= <-]. eexists. split; [by apply (tracks_open _ path h)|]. split; [lia|by intros []].
  - subst r. destruct e as [k wr|wr]; cbn [asked]; run_bind.
    + destruct rd; run_bind; [|done].
      destruct (evd_web_dir_file_on_block_read _ _ _ _ _ _ _) as [o|] eqn:E; [|done]. run_bind. intros [= <-].
      apply Hadv. by eapply copy_step.
    + intros [= <-]. unfold evd_web_dir_conn_on_write, evd_web_dir_file_read_block. cbn [file_input_stream asked].
      destruct rd, wr; first [rewrite bool_decide_true by done|rewrite bool_decide_false by (intros []; done)]; cbn [andb];
        eexists; (split; [first [apply (tracks_copy _ path h data pos true)|apply (tracks_copy _ path h data pos false)]; done|]);
        (split; [lia|]); unfold useful; cbn [binding mbind option_bind asked]; try done; lia.
  - destruct e as [k wr|wr]; [rewrite Ha; run_bind; done|]. intros [= <-]. unfold evd_web_dir_conn_on_write. rewrite Hf.
    eexists. split; [by apply tracks_stuck|]. split; [lia|]. by intros _ [].
Qed.

(** ** Nothing useful is refused *)

Definition can_answer (r : reply) : Prop := is_Some (send_reply req w0 r) ∧ is_Some (log_of req r).

Lemma failed_runs b e :
  request b = req → response_headers_sent b = false → response_content_size b = 0 →
  can_answer (Failed (status_of_error e)) →
  is_Some (evd_web_dir_handle_content_error web remote_addr date w0 b e).
Proof.
  destruct b as [req' f st sz code h sent a]. cbn. intros -> -> -> [[w Hw] [lg Hl]].
  unfold evd_web_dir_handle_content_error. cbn [response_headers_sent with_status negb response_status_code].
  cbn [send_reply] in Hw. unfold log_of in Hl. cbn [logged fst snd] in Hl.
  destruct (WebService.evd_web_service_respond_internal _ _ _ _ _ _) as [[w' ok]|]; [|done]. run_bind.
  unfold evd_web_dir_finish_request. cbn [request response_status_code response_content_size with_status].
  destruct (WebService.evd_web_service_log _ _ _ _ _) as [[lg' ok']|]; [|done]. run_bind. by eexists.
Qed.

Lemma info_runs n path r :
  reply_with n (WebService.conn w0) req path = Some r → can_answer r →
  is_Some (evd_web_dir_file_on_info self web remote_addr date w0
    (mkBinding req (Some path) false 0 0 None false (Some (QueryInfo path))) (lookup_file fs path)).
Proof.
  intros Er Hr. unfold evd_web_dir_file_on_info. destruct (lookup_file fs path) as [info|e] eqn:El.
  2:{ destruct n; cbn [reply_with] in Er; rewrite El in Er; injection Er as <-; by apply failed_runs. }
  destruct (file_type info) eqn:Ht; [by destruct (dir_index self)|done| |done].
  assert ((if fresh req info then Some NotModified
   else h ← file_headers web req (connection_header (WebService.conn w0)) info;
        Some (match contents fs path with inl data => Content h data | inr e => Failed (status_of_error e) end)) = Some r) as Er'.
  { destruct n; cbn [reply_with] in Er; by rewrite El, Ht in Er. }
  rewrite modified_spec. destruct (fresh req info).
  - injection Er' as <-. destruct Hr as [[w Hw] [lg Hl]]. cbn [send_reply] in Hw. unfold log_of in Hl. cbn [logged fst snd] in Hl.
    destruct (WebService.evd_web_service_respond_internal _ _ _ _ _ _) as [[w' ok]|]; [|done]. run_bind.
    unfold evd_web_dir_finish_request. cbn [request response_status_code response_content_size with_asked].
    destruct (WebService.evd_web_service_log _ _ _ _ _) as [[lg' ok']|]; [|done]. run_bind. by eexists.
  - run_bind. destruct (file_headers web _ _ info); [|done]. run_bind. by eexists.
Qed.

Lemma exec_runs r m e s :
  tracks r m s → r ≠ NoReply → can_answer r → binding s ≠ None → useful e s → is_Some (exec e s).
Proof.
  intros T Hr Ha Hb. destruct T as [n path Er|path h Hh Er|path h data pos rd Hh Hc Er Hp|b Er Hf Hn|w lg pos Hw Hlg];
    unfold useful, exec; cbn [binding world logs offset asked mbind option_bind]; try done.
  - destruct e as [k wr|wr]; [|done]. intros _. destruct (info_runs n path r Er Ha) as [o ->]. by eexists.
  - destruct e as [k wr|wr]; [|done]. intros _. unfold evd_web_dir_file_on_open.
    destruct (contents fs path) as [data|e]; cbn [opened].
    + destruct (write_headers_taken (WebService.conn w0) (version req) 200 h all_taken) as (c & E & _).
      cbn [request with_stream with_asked response_headers]. rewrite E. by eexists.
    + subst r. edestruct (failed_runs (with_asked None (mkBinding req (Some path) false 0 0 (Some h) false (Some (ReadFile path)))) e)
        as [o E]; [done..|]. rewrite E. by eexists.
  - destruct e as [k wr|wr]; [|intros; by eexists]. destruct rd; [|done]. intros _.
    unfold evd_web_dir_file_on_block_read, next_bytes. cbn [filename default from_option id]. rewrite Hc.
    destruct (take _ (drop pos data)) as [|z zs] eqn:Ez.
    + assert (pos = length data) as ->.
      { apply (f_equal length) in Ez. rewrite length_take, length_drop in Ez. cbn [length] in Ez. lia. }
      unfold evd_web_dir_finish_request. cbn [request response_status_code response_content_size with_asked].
      subst r. destruct Ha as [_ [lg Hl]]. unfold log_of in Hl. cbn [logged fst snd] in Hl. unfold len in Hl.
      destruct (WebService.evd_web_service_log _ _ _ _ _) as [[lg' ok]|]; [|done]. by eexists.
    + destruct (deliver_more h (take pos data) (z :: zs) req w0) as (c & -> & _); [done..|]. by eexists.
Qed.

Lemma start_tracks n r s0 :
  reply_for n (WebService.conn w0) req = Some r → start w0 req = Some s0 →
  ∃ m, tracks r m s0 ∧ (m <= n + 2 * size_of r + 4)%nat.
Proof.
  unfold reply_for, start, evd_web_dir_request_handler.
  assert (∀ code, Some (Refused code) = Some r → (o ← refuse web remote_addr date w0 req code; Some (state_of o [] 0)) = Some s0 →
    ∃ m, tracks r m s0 ∧ (m <= n + 2 * size_of r + 4)%nat) as Hrefused.
  { intros code [= <-]. unfold refuse.
    destruct (WebService.evd_web_service_respond_internal _ _ _ _ _ _) as [[w ok]|] eqn:E; [|done]. run_bind.
    destruct (WebService.evd_web_service_log _ _ _ _ _) as [[lg ok']|] eqn:El; [|done]. run_bind. intros [= <-].
    exists O. split; [|lia]. apply tracks_done; [cbn [send_reply]; by rewrite E|].
    unfold log_of. cbn [logged fst snd]. by rewrite El. }
  destruct (negb _); [by apply Hrefused|]. destruct (uri req) as [u|]; [|done]. run_bind.
  destruct (path_without_alias self (uri_path u)) as [path|]; [|by apply Hrefused].
  destruct (root self) as [dir|].
  - intros Er [= <-]. eexists. split; [by apply tracks_info|lia].
  - intros [= <-] [= <-]. eexists. split; [by apply tracks_stuck|lia].
Qed.

Lemma start_runs n r :
  reply_for n (WebService.conn w0) req = Some r → can_answer r ∨ r = NoReply → is_Some (start w0 req).
Proof.
  unfold reply_for, start, evd_web_dir_request_handler.
  assert (∀ code, Some (Refused code) = Some r → can_answer r ∨ r = NoReply →
    is_Some (o ← refuse web remote_addr date w0 req code; Some (state_of o [] 0))) as Hrefused.
  { intros code [= <-] [[[w Hw] [lg Hl]]|]; [|done]. cbn [send_reply] in Hw. unfold log_of in Hl. cbn [logged fst snd] in Hl.
    unfold refuse. destruct (WebService.evd_web_service_respond_internal _ _ _ _ _ _) as [[w' ok]|]; [|done]. run_bind.
    destruct (WebService.evd_web_service_log _ _ _ _ _) as [[lg' ok']|]; [|done]. by eexists. }
  destruct (negb _); [by apply Hrefused|]. destruct (uri req) as [u|]; [|done]. run_bind.
  destruct (path_without_alias self (uri_path u)) as [path|]; [|by apply Hrefused]. intros. by eexists.
Qed.

Lemma run_tracks r es : ∀ m s s', tracks r m s → run es s = Some s' → ∃ m', tracks r m' s' ∧ (m' <= m)%nat.
Proof.
  induction es as [|e es IH]; intros m s s' T; cbn [run]; [intros [= <-]; by eauto|].
  destruct (exec e s) as [s1|] eqn:E; [|done]. run_bind. intros R.
  destruct (exec_tracks r m e s s1 T E) as (m1 & T1 & Hm & _). destruct (IH m1 s1 s' T1 R) as (m2 & T2 & Hm2).
  exists m2. split; [done|lia].
Qed.

(** Every event of the sequence is useful when it comes. *)
Fixpoint all_useful (es : list event) (s : state) : Prop :=
  match es with
  | [] => True
  | e :: es => useful e s ∧ match exec e s with Some s => all_useful es s | None => True end
  end.

Lemma useful_run r es : ∀ m s s',
  r ≠ NoReply → tracks r m s → all_useful es s → run es s = Some s' → ∃ m', tracks r m' s' ∧ (m' + length es <= m)%nat.
Proof.
  induction es as [|e es IH]; intros m s s' Hr T; cbn [run all_useful]; [intros _ [= <-]; exists m; split; [done|simpl; lia]|].
  intros [Hu Hus]. destruct (exec e s) as [s1|] eqn:E; [|done]. run_bind. intros R.
  destruct (exec_tracks r m e s s1 T E) as (m1 & T1 & _ & Hm). destruct (IH m1 s1 s' Hr T1 Hus R) as (m2 & T2 & Hm2).
  specialize (Hm Hu Hr). exists m2. split; [done|]. cbn [length]. lia.
Qed.

End Request.

(** C25. A request is answered as specified: whatever the order in which GIO answers, the connection
    becomes writable and the blocks come, once the request is finished the connection was sent the
    reply the settings, the request and the file system determine, and the log has its status and its
    size. *)
Theorem requests_answered n w req r s0 es s :
  answers (WebService.conn w) = [] → reply_for n (WebService.conn w) req = Some r →
  start w req = Some s0 → run es s0 = Some s → binding s = None →
  send_reply req w r = Some (world s) ∧ log_of req r = Some (logs s).
Proof.
  intros Ha Er Es R Hb. destruct (start_tracks req w n r s0 Er Es) as (m & T & _).
  destruct (run_tracks req w Ha r es m s0 s T R) as (m' & T' & _). destruct T'; by cbn in *.
Qed.

(** C26. A request is finished: when a reply can be sent and logged the request is taken, and after at
    most a bounded number of useful events (GIO's answers, and the connection becoming writable when
    nothing is asked) it is finished; before that a useful event is always possible and handled. *)
Theorem requests_finish n w req r :
  answers (WebService.conn w) = [] → reply_for n (WebService.conn w) req = Some r → r ≠ NoReply →
  can_answer req w r →
  ∃ s0, start w req = Some s0 ∧
    ∀ es s, all_useful es s0 → run es s0 = Some s →
      (length es <= n + 2 * size_of r + 4)%nat ∧
      (binding s = None ∨ (∃ e, useful e s) ∧ ∀ e, useful e s → is_Some (exec e s)).
Proof.
  intros Ha Er Hr Hc. destruct (start_runs req w n r Er (or_introl Hc)) as [s0 Es]. exists s0. split; [done|].
  intros es s Hu R. destruct (start_tracks req w n r s0 Er Es) as (m & T & Hm).
  destruct (useful_run req w Ha r es m s0 s Hr T Hu R) as (m' & T' & Hm'). split; [lia|].
  destruct (binding s) as [b|] eqn:Hb; [right|by left]. split.
  - destruct (asked b) eqn:Hb'; [exists (Answer 1 true)|exists (CanWrite true)];
      unfold useful; rewrite Hb; run_bind; by rewrite Hb'.
  - intros e He. eapply exec_runs; [done|exact T'|done|done|by rewrite Hb|done].
Qed.

End Spec.

(** ** A concrete service *)

#[local] Existing Instance WebServiceSpec.demo_regex.

#[local] Instance demo_dates : SoupDates := {|
  soup_date_new_from_string s := if decide (s = codes "today") then Some 100 else None;
  soup_date_http _ := codes "today";
  soup_message_headers_set_content_type h t := soup_message_headers_replace h (codes "Content-Type") t
|}.

Definition demo_files : files := {|
  lookup_file path :=
    if decide (path = codes "/srv//") then inl (mkInfo G_FILE_TYPE_DIRECTORY [] 0 0)
    else if decide (path = codes "/srv///index.html") then inl (mkInfo G_FILE_TYPE_REGULAR (codes "text/html") 5 90)
    else if decide (path = codes "/srv//pipe") then inl (mkInfo G_FILE_TYPE_OTHER [] 0 0)
    else if decide (path = codes "/srv//loop") then inr G_IO_ERROR_OTHER
    else inr G_IO_ERROR_NOT_FOUND;
  contents path := if decide (path = codes "/srv///index.html") then inl (codes "hello") else inr G_IO_ERROR_NOT_FOUND
|}.

Definition demo_dir : EvdWebDirPrivate := set_root (Some (codes "/srv")) evd_web_dir_init.

Definition demo_get (path : string) : EvdHttpRequest := mkRequest 1 None (codes "GET") (soup_uri_new (codes path)).

Definition demo_service : WebService.EvdService :=
  WebService.mkService (WebService.WebServiceClass WebService.evd_web_service_init) false [] [] false.

(** A keep-alive connection of the service. *)
Definition demo_world (req : EvdHttpRequest) : WebService.world :=
  WebService.mkWorld {[ "dir"%string := demo_service ]}
    (evd_http_connection_set_keepalive
       (evd_http_connection_set_current_request
          (evd_http_connection_init false (BufferedInput.evd_buffered_input_stream_init 4096) []) (Some req)) true)
    (Some "dir"%string) None false None None [].

Definition demo_addr : option (list Z) := Some (codes "::1").
Abbreviation demo_start := (start demo_dir WebService.evd_web_service_init demo_addr (codes "now")).
Abbreviation demo_run := (run demo_dir WebService.evd_web_service_init demo_addr (codes "now") demo_files).
Abbreviation demo_reply path :=
  (reply_for demo_dir WebService.evd_web_service_init demo_files 1 (WebService.conn (demo_world (demo_get path))) (demo_get path)).

(** The index of the directory is looked up, opened and read in blocks of three bytes; once the
    connection is full for a while. *)
Definition demo_events : list event :=
  [Answer 0 true; Answer 0 true; Answer 0 true; Answer 3 false; CanWrite false; CanWrite true; Answer 3 true; Answer 3 true].

Definition blank_state : state := mkState (demo_world (demo_get "/")) None [] 0.
Definition first_state : state := default blank_state (demo_start (demo_world (demo_get "/")) (demo_get "/")).
Definition last_state : state := default first_state (demo_run demo_events first_state).
Definition the_reply : reply := default NoReply (demo_reply "/").

Example hello_served :
  option_map (λ r, match r with Content _ data => data | _ => [] end) (demo_reply "/") = Some (codes "hello") ∧
  drop (length (out (WebService.conn (world last_state))) - 9) (out (WebService.conn (world last_state))) =
    CRLF ++ CRLF ++ codes "hello".
Proof. split; vm_compute; reflexivity. Qed.

Definition is_some {A} (o : option A) : bool := if o is Some _ then true else false.

Lemma is_some_default {A} (o : option A) d : is_some o = true → o = Some (default d o).
Proof. by destruct o. Qed.

Lemma demo_started : demo_start (demo_world (demo_get "/")) (demo_get "/") = Some first_state.
Proof. apply is_some_default. vm_compute. reflexivity. Qed.

Lemma demo_ran : demo_run demo_events first_state = Some last_state.
Proof. apply is_some_default. vm_compute. reflexivity. Qed.

Lemma demo_replied : demo_reply "/" = Some the_reply.
Proof. apply is_some_default. vm_compute. reflexivity. Qed.

Lemma demo_finished : binding last_state = None.
Proof. vm_compute. reflexivity. Qed.

Lemma requests_answered_witness :
  send_reply WebService.evd_web_service_init (demo_get "/") (demo_world (demo_get "/")) the_reply = Some (world last_state) ∧
  log_of demo_addr (codes "now") (demo_get "/") the_reply = Some (logs last_state).
Proof.
  exact (requests_answered demo_dir WebService.evd_web_service_init demo_addr (codes "now") demo_files 1
    (demo_world (demo_get "/")) (demo_get "/") the_reply first_state demo_events last_state
    eq_refl demo_replied demo_started demo_ran demo_finished).
Defined.

Lemma demo_served : the_reply ≠ NoReply ∧
  can_answer WebService.evd_web_service_init demo_addr (codes "now") (demo_get "/") (demo_world (demo_get "/")) the_reply.
Proof.
  assert ((if the_reply is Content _ _ then true else false) = true) as E by (vm_compute; reflexivity).
  destruct (the_reply) as [| | |h data|]; try discriminate E. split; [discriminate|]. split; [by eexists|].
  assert (∀ n, is_some (WebService.evd_web_service_log demo_addr (codes "now") (demo_get "/") 200 n) = true) as El by (intros n; reflexivity).
  specialize (El (len data)). unfold log_of. cbn [logged fst snd]. by destruct (WebService.evd_web_service_log _ _ _ _ _).
Qed.

Lemma requests_finish_witness :
  ∃ s0, demo_start (demo_world (demo_get "/")) (demo_get "/") = Some s0 ∧
    ∀ es s, all_useful demo_dir WebService.evd_web_service_init demo_addr (codes "now") demo_files es s0 →
      demo_run es s0 = Some s →
      (length es <= 1 + 2 * size_of the_reply + 4)%nat ∧
      (binding s = None ∨ (∃ e, useful e s) ∧ ∀ e, useful e s →
         is_Some (exec demo_dir WebService.evd_web_service_init demo_addr (codes "now") demo_files e s)).
Proof.
  destruct demo_served as [Hr Hc].
  exact (requests_finish demo_dir WebService.evd_web_service_init demo_addr (codes "now") demo_files 1
    (demo_world (demo_get "/")) (demo_get "/") the_reply eq_refl demo_replied Hr Hc).
Defined.

(** ** Defects *)

(** A file that is neither regular nor a directory, or no root: the request is never answered. *)
Example special_file_never_answered : demo_reply "/pipe" = Some NoReply.
Proof. vm_compute. reflexivity. Qed.

Example no_root_never_answered :
  reply_for evd_web_dir_init WebService.evd_web_service_init demo_files 1
    (WebService.conn (demo_world (demo_get "/"))) (demo_get "/") = Some NoReply.
Proof. vm_compute. reflexivity. Qed.

(** The status of other errors is libsoup's own IO_ERROR, and no status of HTTP. *)
Example io_error_status : demo_reply "/loop" = Some (Failed 7).
Proof. vm_compute. reflexivity. Qed.

(** A response that the client's copy is new enough is logged with the status 0. *)
Example not_modified_logged_as_zero : (logged NotModified).1 = 0.
Proof. reflexivity. Qed.

(** When PUT is allowed it is answered as GET is. *)
Example put_reads :
  option_map (λ r, match r with Content _ data => data | _ => [] end)
    (reply_for (set_allow_put true demo_dir) WebService.evd_web_service_init demo_files 1
       (WebService.conn (demo_world (demo_get "/")))
       (mkRequest 1 None (codes "PUT") (soup_uri_new (codes "/")))) = Some (codes "hello").
Proof. vm_compute. reflexivity. Qed.

(** A path that goes on after the alias within a name is accepted. *)
Example alias_within_a_name :
  path_without_alias (evd_web_dir_set_alias demo_dir (Some (codes "/files"))) (codes "/filesystem") = Some (codes "ystem").
Proof. vm_compute. reflexivity. Qed.

(** The response to an error gives the connection back and so does the end of the request: given back
    twice, a connection that is to be kept alive starts to read the next request and is shut down. *)
Definition given_back (w : WebService.world) : option (WebService.world * list WebService.effect) :=
  '(w, e1) ← WebService.evd_web_service_connection_on_flush w;
  '(w, e2) ← WebService.evd_web_service_connection_on_flush w;
  Some (w, e1 ++ e2).

Example error_response_closes_connection :
  option_map snd (s0 ← demo_start (demo_world (demo_get "/missing")) (demo_get "/missing");
                  s ← demo_run [Answer 0 true] s0; given_back (world s)) =
  Some [WebService.ConnEvents []; WebService.Shutdown].
Proof. vm_compute. reflexivity. Qed.

End WebDirSpec.
