(* ===== verification/WebTransport.v ===== *)
(** * The web transport server (src/evd/evd-web-transport-server.c): model

    A web service that negotiates with a client which transport it will use, WebSocket or long polling,
    makes a peer of the client once it is validated, and hands the later requests of the peer to the
    service of the transport they ask for.  It uses the connections of HttpConnection.v, the responses of
    WebService.v, the peers of Peer.v and Transport.v and the JSON nodes of Jsonrpc.v.  The two services
    are reached through the requests handed to them; the other requests are handed to the request
    handler of the parent class, which is that of WebDir.v ([ServeFile]).  [None] stands for what
    ends the program. *)
From S2P Require Import Prelude HttpMessage BufferedInput HttpConnection Peer WebService WebDir Jsonrpc Transport.
Import HttpMessage HttpConnection.

Module WebTransport.

(** What the source uses of libsoup to build a URI from another. *)
Class SoupURIs `{Soup} := {
  soup_uri_set_scheme : SoupURI → list Z → SoupURI;   (* which also sets the port of the scheme *)
  soup_uri_set_port : SoupURI → Z → SoupURI;
  soup_uri_set_path : SoupURI → list Z → SoupURI;
  soup_uri_set_query : SoupURI → option (list Z) → SoupURI
}.

Definition HANDSHAKE_TOKEN_NAME : list Z := codes "handshake".
Definition LONG_POLLING_TOKEN_NAME : list Z := codes "lp".
Definition WEB_SOCKET_TOKEN_NAME : list Z := codes "ws".
Definition LONG_POLLING_MECHANISM_NAME : string := "long-polling".
Definition WEB_SOCKET_MECHANISM_NAME : string := "websocket".

(** The two services the server has. *)
Inductive sub_transport := LongPolling | WebSockets.

#[export] Instance sub_transport_eq_dec : EqDecision sub_transport.
Proof. solve_decision. Defined.

Section Server.
Context `{Soup} `{!SoupURIs} `{WebService.Regex} `{Jsonrpc.JsonGlib}.

(** ** State *)

(** A handshake; [hs_slot] numbers them in the order they come. *)
Record HandshakeData := mkHandshake {
  hs_slot : nat;
  hs_conn : nat;
  hs_request : EvdHttpRequest;
  request_data : Jsonrpc.JsonNode          (* JsonNull before the content has been read *)
}.

Record server := mkServer {
  web : WebService.EvdWebServicePrivate;
  base_path : list Z;
  hs_base_path : list Z;
  lp_base_path : list Z;
  ws_base_path : list Z;
  enable_ws : bool;
  current_handshake_data : option HandshakeData;
  external_url : option (list Z);
  peers : Peer.world;
  peer_data : gmap string sub_transport;       (* PEER_DATA_KEY *)
  pending : gmap string HandshakeData;         (* HANDSHAKE_DATA_KEY *)
  reading : gmap nat HandshakeData;            (* by slot: those whose content is being read *)
  next_slot : nat;
  conns : gmap nat EvdHttpConnection;
  returning : list nat;                        (* flush_and_return_connection, in order *)
  dir : WebDir.EvdWebDirPrivate                (* of the parent class *)
}.

Inductive effect :=
  | ValidatePeer (peer : string)
  | NewPeer (peer : string)
  | Started (slot : nat)
  | Answered (slot : nat) (conn : nat) (status_code : Z)
  | Dropped (slot : nat)
  | HandedTo (service : sub_transport) (conn : nat) (request : EvdHttpRequest)
  | ServeFile (conn : nat) (request : EvdHttpRequest)
  | ConnEvents (conn : nat) (evs : list HttpConnection.event)
  | PeerEvents (evs : list Peer.event).

Definition with_paths b h l w s := mkServer (web s) b h l w (enable_ws s) (current_handshake_data s) (external_url s) (peers s) (peer_data s) (pending s) (reading s) (next_slot s) (conns s) (returning s) (dir s).
Definition with_enable e s := mkServer (web s) (base_path s) (hs_base_path s) (lp_base_path s) (ws_base_path s) e (current_handshake_data s) (external_url s) (peers s) (peer_data s) (pending s) (reading s) (next_slot s) (conns s) (returning s) (dir s).
Definition with_current c s := mkServer (web s) (base_path s) (hs_base_path s) (lp_base_path s) (ws_base_path s) (enable_ws s) c (external_url s) (peers s) (peer_data s) (pending s) (reading s) (next_slot s) (conns s) (returning s) (dir s).
Definition with_external e s := mkServer (web s) (base_path s) (hs_base_path s) (lp_base_path s) (ws_base_path s) (enable_ws s) (current_handshake_data s) e (peers s) (peer_data s) (pending s) (reading s) (next_slot s) (conns s) (returning s) (dir s).
Definition with_peers p s := mkServer (web s) (base_path s) (hs_base_path s) (lp_base_path s) (ws_base_path s) (enable_ws s) (current_handshake_data s) (external_url s) p (peer_data s) (pending s) (reading s) (next_slot s) (conns s) (returning s) (dir s).
Definition with_peer_data d s := mkServer (web s) (base_path s) (hs_base_path s) (lp_base_path s) (ws_base_path s) (enable_ws s) (current_handshake_data s) (external_url s) (peers s) d (pending s) (reading s) (next_slot s) (conns s) (returning s) (dir s).
Definition with_pending p s := mkServer (web s) (base_path s) (hs_base_path s) (lp_base_path s) (ws_base_path s) (enable_ws s) (current_handshake_data s) (external_url s) (peers s) (peer_data s) p (reading s) (next_slot s) (conns s) (returning s) (dir s).
Definition with_reading r n s := mkServer (web s) (base_path s) (hs_base_path s) (lp_base_path s) (ws_base_path s) (enable_ws s) (current_handshake_data s) (external_url s) (peers s) (peer_data s) (pending s) r n (conns s) (returning s) (dir s).
Definition with_conn k c s := mkServer (web s) (base_path s) (hs_base_path s) (lp_base_path s) (ws_base_path s) (enable_ws s) (current_handshake_data s) (external_url s) (peers s) (peer_data s) (pending s) (reading s) (next_slot s) (<[k := c]> (conns s)) (returning s) (dir s).
Definition with_dir d s := mkServer (web s) (base_path s) (hs_base_path s) (lp_base_path s) (ws_base_path s) (enable_ws s) (current_handshake_data s) (external_url s) (peers s) (peer_data s) (pending s) (reading s) (next_slot s) (conns s) (returning s) d.
Definition with_returning r s := mkServer (web s) (base_path s) (hs_base_path s) (lp_base_path s) (ws_base_path s) (enable_ws s) (current_handshake_data s) (external_url s) (peers s) (peer_data s) (pending s) (reading s) (next_slot s) (conns s) r (dir s).

Definition peer_of (id : string) s : option Peer.EvdPeerPrivate := Peer.heap (peers s) !! id.
Definition with_peer id p s := with_peers (Peer.set_peer id p (peers s)) s.

(** ** Settings *)

(** [None]: the character before an empty string is read. *)
Definition evd_web_transport_server_set_base_path s (path : list Z) : option server :=
  c ← last path;
  let b := if c =? 47 then path else path ++ [47] in
  Some (with_dir (WebDir.evd_web_dir_set_alias (dir s) (Some path))
          (with_paths b (b ++ HANDSHAKE_TOKEN_NAME) (b ++ LONG_POLLING_TOKEN_NAME) (b ++ WEB_SOCKET_TOKEN_NAME) s)).

Definition evd_web_transport_server_get_base_path s : list Z := base_path s.
Definition evd_web_transport_server_set_enable_websocket s (enabled : bool) : server := with_enable enabled s.
Definition evd_web_transport_server_set_external_base_url s (url : option (list Z)) : server := with_external url s.
Definition evd_web_transport_server_get_validate_peer_arguments s : option (nat * EvdHttpRequest) :=
  (λ d, (hs_conn d, hs_request d)) <$> current_handshake_data s.

(** ** Peers *)

(** The service whose [send] is called; an error when the peer has none. *)
Definition evd_web_transport_server_send s (id : string) : option sub_transport := peer_data s !! id.

(** [connected] is what the service answers for the peer, which it touches when it is. *)
Definition evd_web_transport_server_peer_is_connected s (now : Z) (connected : sub_transport → string → bool)
    (id : string) : option (server * bool) :=
  match peer_data s !! id with
  | None => Some (s, false)
  | Some service =>
      p ← peer_of id s;
      let '(p, b) := Peer.evd_transport_peer_is_connected now (connected service id) p in
      Some (with_peer id p s, b)
  end.

Definition surroundings s (now : Z) (connected : sub_transport → string → bool) (order : list string)
  : Transport.surroundings :=
  Transport.mkSurroundings now
    (λ id, match peer_data s !! id with Some service => connected service id | None => false end) order.

(** ** Negotiation *)

Fixpoint has_mechanism (mech_list : list Jsonrpc.JsonNode) (mech_name : string) : bool :=
  match mech_list with
  | [] => false
  | element :: mech_list =>
      bool_decide (Jsonrpc.json_node_get_string element = Some mech_name) || has_mechanism mech_list mech_name
  end.

Definition json_node_get_members (n : Jsonrpc.JsonNode) : list (string * Jsonrpc.JsonNode) :=
  match n with Jsonrpc.JsonObject members => members | _ => [] end.

Definition json_object_get_array_member (members : list (string * Jsonrpc.JsonNode)) (name : string)
  : option (list Jsonrpc.JsonNode) :=
  match Jsonrpc.json_object_get_member members name with Some (Jsonrpc.JsonArray l) => Some l | _ => None end.

Definition mechanisms (data : HandshakeData) : option (list Jsonrpc.JsonNode) :=
  json_object_get_array_member (json_node_get_members (request_data data)) "mechanisms".

(** An element of the list of the response; NULL for a URL is the null of JSON. *)
Definition add_mechanism_to_response_list (mech_list : list Jsonrpc.JsonNode) (name : string) (url : option (list Z))
  : list Jsonrpc.JsonNode :=
  mech_list ++
  [Jsonrpc.JsonObject [("name"%string, Jsonrpc.JsonString name);
                       ("url"%string, match url with Some u => Jsonrpc.JsonString (text u) | None => Jsonrpc.JsonNull end)]].

(** The URI of the service as the peer sees it. *)
Definition peer_uri (data : HandshakeData) : option SoupURI :=
  match Jsonrpc.json_object_get_member (json_node_get_members (request_data data)) "url" with
  | Some (Jsonrpc.JsonString url) =>
      match soup_uri_new (codes url) with Some u => Some u | None => uri (hs_request data) end
  | _ => uri (hs_request data)
  end.

(** [None]: the scheme of a NULL URI is read. *)
Definition websocket_url s (c : EvdHttpConnection) (u : SoupURI) : option (list Z) :=
  '((ws_uri, tls) : SoupURI * bool) ←
    match external_url s with
    | Some url => ws_uri ← soup_uri_new url; Some (ws_uri, bool_decide (uri_scheme ws_uri = codes "https"))
    | None => Some (u, tls_active c)
    end;
  let port := uri_port ws_uri in
  let ws_uri := soup_uri_set_scheme ws_uri (if tls then codes "wss" else codes "ws") in
  let ws_uri := soup_uri_set_port ws_uri port in
  Some (soup_uri_to_string (soup_uri_set_path ws_uri (ws_base_path s)) false).

(** NULL when the external URL is not a URI: libsoup refuses NULL with a warning. *)
Definition longpolling_url s (u : SoupURI) : option (list Z) :=
  lp_uri ← (match external_url s with Some url => soup_uri_new url | None => Some u end);
  Some (soup_uri_to_string (soup_uri_set_query (soup_uri_set_path lp_uri (lp_base_path s)) None) false).

Definition response_mechanisms s (c : EvdHttpConnection) (data : HandshakeData) : option (list Jsonrpc.JsonNode) :=
  u ← peer_uri data;
  let request_mechs := default [] (mechanisms data) in
  mechs ← (if enable_ws s && has_mechanism request_mechs WEB_SOCKET_MECHANISM_NAME then
             url ← websocket_url s c u;
             Some (add_mechanism_to_response_list [] WEB_SOCKET_MECHANISM_NAME (Some url))
           else Some []);
  Some (if has_mechanism request_mechs LONG_POLLING_MECHANISM_NAME
        then add_mechanism_to_response_list mechs LONG_POLLING_MECHANISM_NAME (longpolling_url s u) else mechs).

Definition response_data (id : string) (mechs : list Jsonrpc.JsonNode) : Jsonrpc.JsonNode :=
  Jsonrpc.JsonObject [("peer-id"%string, Jsonrpc.JsonString id); ("mechanisms"%string, Jsonrpc.JsonArray mechs)].

(** The value of Cache-Control repeats the name of the header. *)
Definition response_headers : SoupMessageHeaders :=
  soup_message_headers_replace
    (soup_message_headers_replace soup_message_headers_new (codes "Cache-Control")
       (codes "Cache-Control: no-cache, must-revalidate"))
    (codes "Expires") (codes "Sat, 01 Jan 2000 00:00:00 GMT").

(** [respond] of the class, for the handshake [slot]. *)
Definition respond s (slot k : nat) (status_code : Z) (h : option SoupMessageHeaders) (content : option (list Z))
  : option (server * list effect) :=
  c ← conns s !! k;
  '(w, ok) ← WebService.evd_web_service_respond_internal (web s)
               (WebService.mkWorld ∅ c None None false None None []) status_code h content
               (len (default [] content));
  let s := with_conn k (WebService.conn w) s in
  Some (if ok : bool then with_returning (returning s ++ [k]) s else s, [Answered slot k status_code]).

Definition evd_web_transport_server_respond_handshake s (data : HandshakeData) (id : string)
  : option (server * list effect) :=
  c ← conns s !! hs_conn data;
  mechs ← response_mechanisms s c data;
  respond s (hs_slot data) (hs_conn data) 200 (Some response_headers)
    (Some (Jsonrpc.json_generator_to_data (response_data id mechs))).

(** The peer is put in the table unless it is known, then its pending handshake is answered. *)
Definition evd_web_transport_server_accept_peer (now : Z) (connected : sub_transport → string → bool)
    (order : list string) s (id : string) : option (server * list effect) :=
  '(w, evs, fresh) ← Transport.admission (surroundings s now connected order) (peers s) id;
  let s := with_peers w s in
  let e1 := PeerEvents evs :: (if fresh : bool then [NewPeer id] else []) in
  match pending s !! id with
  | None => Some (s, e1)
  | Some data =>
      '(s, e2) ← evd_web_transport_server_respond_handshake s data id;
      Some (with_pending (delete id (pending s)) s, e1 ++ e2)
  end.

Definition evd_web_transport_server_reject_peer s (id : string) : option (server * list effect) :=
  match pending s !! id with
  | None => Some (s, [])
  | Some data =>
      '(s, effs) ← respond s (hs_slot data) (hs_conn data) 403 None None;
      Some (with_pending (delete id (pending s)) s, effs)
  end.

(** The connection of the pending handshake of a peer closes. *)
Definition evd_web_transport_server_conn_on_close s (id : string) : server * list effect :=
  match pending s !! id with
  | None => (s, [])
  | Some data => (with_pending (delete id (pending s)) s, [Dropped (hs_slot data)])
  end.

(** The peer [id] is made, with no data attached yet. *)
Definition evd_web_transport_handshake (now : Z) (connected : sub_transport → string → bool) (order : list string)
    (verdicts : option (nat * EvdHttpRequest) → list Z) s (data : HandshakeData) (id : string)
  : option (server * list effect) :=
  let negotiable :=
    match mechanisms data with
    | None => false
    | Some mechs => has_mechanism mechs WEB_SOCKET_MECHANISM_NAME || has_mechanism mechs LONG_POLLING_MECHANISM_NAME
    end in
  if negb negotiable then respond s (hs_slot data) (hs_conn data) 503 None None
  else
    match peer_of id s, pending s !! id with
    | None, None =>
        let s := with_current (Some data) (with_peer id (Peer.evd_peer_init now) s) in
        let validate_result :=
          Transport.evd_transport_notify_validate_peer
            (verdicts (evd_web_transport_server_get_validate_peer_arguments s)) in
        let s := with_current None s in
        '(s, effs) ←
          (if validate_result =? WebService.EVD_VALIDATE_ACCEPT then
             '(s, e1) ← evd_web_transport_server_accept_peer now connected order s id;
             '(s, e2) ← evd_web_transport_server_respond_handshake s data id;
             Some (s, e1 ++ e2)
           else if validate_result =? WebService.EVD_VALIDATE_REJECT then
             respond s (hs_slot data) (hs_conn data) 403 None None
           else Some (with_pending (<[id := data]> (pending s)) s, []));
        Some (s, ValidatePeer id :: effs)
    | _, _ => None
    end.

(** The callback of [evd_http_connection_read_all_content] for the handshake [slot].  [None] when the
    parser is given more than the content. *)
Definition evd_web_transport_on_handshake_data (now : Z) (connected : sub_transport → string → bool)
    (order : list string) (verdicts : option (nat * EvdHttpRequest) → list Z) s (slot : nat) (a : async) (id : string)
  : option (server * list effect) :=
  data ← reading s !! slot;
  let s := with_reading (delete slot (reading s)) (next_slot s) s in
  c ← conns s !! hs_conn data;
  let '(c, content) := evd_http_connection_read_all_content_finish c a in
  let s := with_conn (hs_conn data) c s in
  root ← match content with
         | None => Some None
         | Some (content, size) =>
             if size <=? len content
             then Some (Jsonrpc.json_parser_load_from_data (take (Z.to_nat size) content)) else None
         end;
  match root with
  | Some (Jsonrpc.JsonObject members) =>
      evd_web_transport_handshake now connected order verdicts s
        (mkHandshake slot (hs_conn data) (hs_request data) (Jsonrpc.JsonObject members)) id
  | _ => respond s slot (hs_conn data) 500 None None
  end.

(** ** Requests *)

Definition evd_web_transport_server_read_handshake_data s (k : nat) (request : EvdHttpRequest)
  : option (server * list effect) :=
  c ← conns s !! k;
  let slot := next_slot s in
  let '(c, evs) := evd_http_connection_read_all_content c in
  Some (with_reading (<[slot := mkHandshake slot k request Jsonrpc.JsonNull]> (reading s)) (S slot) (with_conn k c s),
        [Started slot; ConnEvents k evs]).

Definition get_actual_transport_from_path s (path : list Z) : option sub_transport :=
  if bool_decide (g_strstr_len path None (lp_base_path s) = Some O) then Some LongPolling
  else if enable_ws s && bool_decide (g_strstr_len path None (ws_base_path s) = Some O) then Some WebSockets
  else None.

(** The peer named by the query is touched, and has this service from now on. *)
Definition associate (now : Z) s (query : option (list Z)) (service : sub_transport) : option server :=
  match query with
  | None => Some s
  | Some q =>
      match Peer.evd_peer_manager_lookup_peer (peers s) (text q) with
      | (w, None) => Some (with_peers w s)
      | (w, Some id) =>
          let s := with_peers w s in
          p ← peer_of id s;
          let s := with_peer id (Peer.evd_peer_touch now p) s in
          Some (with_peer_data (<[id := service]> (peer_data s)) s)
      end
  end.

Definition evd_web_transport_server_on_request (now : Z) s (k : nat) (request : EvdHttpRequest)
  : option (server * list effect) :=
  u ← uri request;
  if decide (uri_path u = hs_base_path s) then evd_web_transport_server_read_handshake_data s k request
  else
    match get_actual_transport_from_path s (uri_path u) with
    | Some service =>
        s ← associate now s (uri_query u) service; Some (s, [HandedTo service k request])
    | None => Some (s, [ServeFile k request])
    end.

(** ** The selector *)

Definition evd_web_transport_server_use_selector s (p : WebService.EvdWebSelectorPrivate) (self : string)
  : WebService.EvdWebSelectorPrivate * bool :=
  WebService.evd_web_selector_add_service p None (Some (base_path s)) self.

Definition evd_web_transport_server_unuse_selector s (p : WebService.EvdWebSelectorPrivate) (self : string)
  : option WebService.EvdWebSelectorPrivate :=
  WebService.evd_web_selector_remove_service p None (Some (base_path s)) self.

End Server.

End WebTransport.
