(* ===== verification/WebTransportSpec.v ===== *)
(** * The web transport server: theorems

    Every handshake is answered once, waits for its content or for a verdict, or is dropped with its
    connection; a response offers what was asked for and is enabled, and a request to a URL it offers
    goes to the service offered, which the messages of the peer go to from then on. *)
From S2P Require Import Prelude HttpMessage BufferedInput HttpConnection Peer WebService WebServiceSpec WebDir Jsonrpc.
From S2P Require Import Transport WebTransport.
Import HttpMessage HttpConnection WebTransport.

Module WebTransportSpec.

Section Spec.
Context `{Soup} `{!SoupURIs} `{WebService.Regex} `{Jsonrpc.JsonGlib}.
Implicit Types s : server.

(** ** Counting handshakes *)

Fixpoint count (P : effect → bool) (effs : list effect) : nat :=
  match effs with [] => O | e :: effs => ((if P e then 1 else 0) + count P effs)%nat end.

Lemma count_app P e1 e2 : count P (e1 ++ e2) = (count P e1 + count P e2)%nat.
Proof. induction e1 as [|e e1 IH]; [done|]. cbn [app count]. rewrite IH. lia. Qed.

Definition ends (slot : nat) (e : effect) : bool :=
  match e with Answered n _ _ | Dropped n => bool_decide (n = slot) | _ => false end.
Definition starts (slot : nat) (e : effect) : bool :=
  match e with Started n => bool_decide (n = slot) | _ => false end.

(** A handshake whose content is read, or that waits for a verdict. *)
Definition in_reading s (slot : nat) : nat := if reading s !! slot is Some _ then 1 else 0.
Definition in_pending s (slot : nat) : nat := size (filter (λ kv : string * HandshakeData, hs_slot kv.2 = slot) (pending s)).
Definition waiting s (slot : nat) : nat := (in_reading s slot + in_pending s slot)%nat.

(** The numbers given so far. *)
Definition numbered s : Prop := ∀ slot, is_Some (reading s !! slot) → (slot < next_slot s)%nat.

(** What an operation ends and leaves waiting is what waited and what it starts. *)
Definition accounts s s' (effs : list effect) : Prop :=
  ∀ slot, (count (ends slot) effs + waiting s' slot = waiting s slot + count (starts slot) effs)%nat.

Lemma accounts_trans s1 s2 s3 e1 e2 : accounts s1 s2 e1 → accounts s2 s3 e2 → accounts s1 s3 (e1 ++ e2).
Proof. intros A1 A2 slot. specialize (A1 slot). specialize (A2 slot). rewrite !count_app. lia. Qed.

(** Neither handshakes nor their numbers. *)
Definition idle s s' : Prop := reading s' = reading s ∧ pending s' = pending s ∧ next_slot s' = next_slot s.

Lemma idle_refl s : idle s s.
Proof. done. Qed.
Lemma idle_trans s1 s2 s3 : idle s1 s2 → idle s2 s3 → idle s1 s3.
Proof. unfold idle. intuition congruence. Qed.
Lemma idle_waiting s s' slot : idle s s' → waiting s' slot = waiting s slot.
Proof. intros (Hr & Hp & _). unfold waiting, in_reading, in_pending. by rewrite Hr, Hp. Qed.

Definition neutral (effs : list effect) : Prop := ∀ slot, count (ends slot) effs = O ∧ count (starts slot) effs = O.

Lemma idle_accounts s s' effs : idle s s' → neutral effs → accounts s s' effs.
Proof. intros I N slot. destruct (N slot) as [-> ->]. rewrite (idle_waiting _ _ _ I). lia. Qed.

Lemma forget_pending s id data :
  pending s !! id = Some data →
  ∀ slot, waiting s slot = (waiting (with_pending (delete id (pending s)) s) slot + (if decide (hs_slot data = slot) then 1 else 0))%nat.
Proof.
  intros Hd slot. unfold waiting, in_reading, in_pending. cbn [reading pending with_pending].
  rewrite <-(insert_id (pending s) id data) at 1 by done. rewrite <-insert_delete_eq.
  case_decide as E.
  - rewrite map_filter_insert_True by done. rewrite map_size_insert_None; [lia|].
    apply map_lookup_filter_None. left. apply lookup_delete_eq.
  - rewrite map_filter_insert_False by done. rewrite delete_delete_eq. lia.
Qed.

Lemma add_pending s id data :
  pending s !! id = None →
  ∀ slot, waiting (with_pending (<[id := data]> (pending s)) s) slot =
    (waiting s slot + (if decide (hs_slot data = slot) then 1 else 0))%nat.
Proof.
  intros Hd slot. unfold waiting, in_reading, in_pending. cbn [reading pending with_pending]. case_decide.
  - rewrite map_filter_insert_True by done. rewrite map_size_insert_None; [lia|]. apply map_lookup_filter_None. by left.
  - rewrite map_filter_insert_False by done. rewrite delete_id by done. lia.
Qed.

(** ** Operations *)

(** A response ends its handshake and nothing else. *)
Lemma respond_counts s slot k st h content s' effs :
  respond s slot k st h content = Some (s', effs) →
  idle s s' ∧ ∀ n, count (ends n) effs = (if decide (slot = n) then 1 else 0)%nat ∧ count (starts n) effs = O.
Proof.
  unfold respond. destruct (conns s !! k) as [c|]; [|done]. run_bind.
  destruct (WebService.evd_web_service_respond_internal _ _ _ _ _ _) as [[w ok]|]; [|done]. run_bind.
  intros [= <- <-]. split; [by destruct ok|]. intros n. cbn [count ends starts]. split; [|done].
  case_decide; [by rewrite bool_decide_true|by rewrite bool_decide_false].
Qed.

Lemma respond_handshake_counts s data id s' effs :
  evd_web_transport_server_respond_handshake s data id = Some (s', effs) →
  idle s s' ∧ ∀ n, count (ends n) effs = (if decide (hs_slot data = n) then 1 else 0)%nat ∧ count (starts n) effs = O.
Proof.
  unfold evd_web_transport_server_respond_handshake. destruct (conns s !! hs_conn data) as [c|]; [|done]. run_bind.
  destruct (response_mechanisms s c data) as [mechs|]; [|done]. run_bind. apply respond_counts.
Qed.

Lemma accept_accounts now connected order s id s' effs :
  evd_web_transport_server_accept_peer now connected order s id = Some (s', effs) →
  accounts s s' effs ∧ reading s' = reading s ∧ next_slot s' = next_slot s ∧ (pending s !! id = None → idle s s' ∧ neutral effs).
Proof.
  unfold evd_web_transport_server_accept_peer. destruct (Transport.admission _ _ _) as [[[w evs] fresh]|]; [|done]. run_bind.
  set (e1 := PeerEvents evs :: _). assert (neutral e1) as N1 by (subst e1; by destruct fresh). clearbody e1.
  destruct (pending (with_peers w s) !! id) as [data|] eqn:Hd; cbn [pending with_peers] in Hd.
  - destruct (evd_web_transport_server_respond_handshake _ _ _) as [[s2 e2]|] eqn:E; [|done]. run_bind.
    intros [= <- <-]. apply respond_handshake_counts in E as [(Hr & Hp & Hn) Hc].
    split; [|split; [done|split; [done|congruence]]]. intros slot. rewrite !count_app.
    destruct (N1 slot) as [-> ->]. destruct (Hc slot) as [-> ->].
    assert (pending s2 !! id = Some data) as Hd2 by by rewrite Hp.
    pose proof (forget_pending s2 id data Hd2 slot) as Hw.
    rewrite (idle_waiting (with_peers w s) s2) in Hw by done.
    change (waiting (with_peers w s) slot) with (waiting s slot) in Hw. lia.
  - intros [= <- <-]. split; [by apply idle_accounts|]. done.
Qed.

Lemma reject_accounts s id s' effs :
  evd_web_transport_server_reject_peer s id = Some (s', effs) →
  accounts s s' effs ∧ reading s' = reading s ∧ next_slot s' = next_slot s.
Proof.
  unfold evd_web_transport_server_reject_peer. destruct (pending s !! id) as [data|] eqn:Hd; [|intros [= <- <-]; by split; [apply idle_accounts|]].
  destruct (respond _ _ _ _ _ _) as [[s2 e2]|] eqn:E; [|done]. run_bind. intros [= <- <-].
  apply respond_counts in E as [(Hr & Hp & Hn) Hc]. split; [|done]. intros slot. destruct (Hc slot) as [-> ->].
  assert (pending s2 !! id = Some data) as Hd2 by by rewrite Hp.
  pose proof (forget_pending s2 id data Hd2 slot) as Hw. rewrite (idle_waiting s s2) in Hw by done. lia.
Qed.

Lemma close_accounts s id s' effs :
  evd_web_transport_server_conn_on_close s id = (s', effs) →
  accounts s s' effs ∧ reading s' = reading s ∧ next_slot s' = next_slot s.
Proof.
  unfold evd_web_transport_server_conn_on_close. destruct (pending s !! id) as [data|] eqn:Hd; intros [= <- <-];
    [|by split; [apply idle_accounts|]].
  split; [|done]. intros slot. pose proof (forget_pending s id data Hd slot) as Hw. cbn [count ends starts].
  case_decide; [rewrite bool_decide_true by done|rewrite bool_decide_false by done]; lia.
Qed.

(** A handshake whose content has been read, and is no longer in the table of those that are. *)
Lemma handshake_accounts now connected order verdicts s data id s' effs :
  evd_web_transport_handshake now connected order verdicts s data id = Some (s', effs) →
  reading s' = reading s ∧ next_slot s' = next_slot s ∧
  ∀ slot, (count (ends slot) effs + waiting s' slot =
           waiting s slot + (if decide (hs_slot data = slot) then 1 else 0))%nat ∧ count (starts slot) effs = O.
Proof.
  unfold evd_web_transport_handshake. destruct (negb _).
  { intros [I Hc]%respond_counts. destruct I as (Hr & Hp & Hn). split_and!; [done..|]. intros slot.
    destruct (Hc slot) as [-> ->]. rewrite (idle_waiting s s') by done. lia. }
  destruct (peer_of id s) as [p|]; [done|]. destruct (pending s !! id) as [q|] eqn:Hp; [done|].
  set (s1 := with_current None _). assert (idle s s1) as I1 by done. assert (pending s1 !! id = None) as Hp1 by done.
  set (v := Transport.evd_transport_notify_validate_peer _). clearbody v s1.
  destruct (if v =? _ then _ else _) as [[s2 e2]|] eqn:E; [|done]. run_bind. intros [= <- <-].
  enough (reading s2 = reading s1 ∧ next_slot s2 = next_slot s1 ∧
    ∀ slot, (count (ends slot) e2 + waiting s2 slot = waiting s1 slot + (if decide (hs_slot data = slot) then 1 else 0))%nat ∧
      count (starts slot) e2 = O) as (Hr & Hn & Hc).
  { destruct I1 as (Er & Ep & En). split; [congruence|]. split; [congruence|]. intros slot.
    rewrite <-(idle_waiting s s1 slot) by done. apply Hc. }
  revert E. destruct (v =? _); [|destruct (v =? _)].
  - destruct (evd_web_transport_server_accept_peer _ _ _ _ _) as [[s3 e3]|] eqn:E3; [|done]. run_bind.
    apply accept_accounts in E3 as (_ & _ & _ & Hidle). destruct (Hidle Hp1) as [I3 N3].
    destruct (evd_web_transport_server_respond_handshake _ _ _) as [[s4 e4]|] eqn:E4; [|done]. run_bind.
    intros [= <- <-]. apply respond_handshake_counts in E4 as [I4 Hc].
    pose proof (idle_trans _ _ _ I3 I4) as I. destruct I as (Hr & Hq & Hn). split_and!; [done..|]. intros slot.
    rewrite !count_app. destruct (N3 slot) as [-> ->]. destruct (Hc slot) as [-> ->]. rewrite (idle_waiting s1 s4) by done. lia.
  - intros [I Hc]%respond_counts. destruct I as (Hr & Hq & Hn). split_and!; [done..|]. intros slot.
    destruct (Hc slot) as [-> ->]. rewrite (idle_waiting s1 s2) by done. lia.
  - intros [= <- <-]. split_and!; [done..|]. intros slot. by rewrite add_pending.
Qed.

Lemma data_accounts now connected order verdicts s slot a id s' effs :
  evd_web_transport_on_handshake_data now connected order verdicts s slot a id = Some (s', effs) →
  accounts s s' effs ∧ reading s' = delete slot (reading s) ∧ next_slot s' = next_slot s.
Proof.
  unfold evd_web_transport_on_handshake_data. destruct (reading s !! slot) as [data|] eqn:Hd; [|done]. run_bind.
  set (s1 := with_reading _ _ s). destruct (conns s1 !! hs_conn data) as [c|]; [|done]. run_bind.
  destruct (evd_http_connection_read_all_content_finish c a) as [c' content]. set (s2 := with_conn _ c' s1).
  assert (∀ n, waiting s n = (waiting s2 n + (if decide (slot = n) then 1 else 0))%nat) as Hw.
  { intros n. unfold waiting, in_reading, in_pending. cbn [s1 s2 reading pending with_conn with_reading].
    destruct (decide (slot = n)) as [<-|Hne]; [rewrite lookup_delete_eq, Hd|rewrite lookup_delete_ne by done]; lia. }
  destruct (match content with Some _ => _ | None => _ end) as [root|]; [|done]. run_bind.
  assert (∀ m, (reading m = reading s2 ∧ next_slot m = next_slot s2) → reading m = delete slot (reading s) ∧ next_slot m = next_slot s)
    as Hend by (by intros m [-> ->]).
  assert (respond s2 slot (hs_conn data) 500 None None = Some (s', effs) →
    accounts s s' effs ∧ reading s' = delete slot (reading s) ∧ next_slot s' = next_slot s) as Hbad.
  { intros [I Hc]%respond_counts. destruct I as (Hr & Hp & Hn). split; [|by apply Hend]. intros n.
    destruct (Hc n) as [-> ->]. rewrite (idle_waiting s2 s') by done. rewrite (Hw n). lia. }
  destruct root as [[]|]; try exact Hbad. intros E%handshake_accounts. destruct E as (Hr & Hn & Hc).
  split; [|by apply Hend]. intros n. destruct (Hc n) as [Hc1 ->]. cbn [hs_slot] in Hc1. rewrite (Hw n). lia.
Qed.

Lemma request_accounts now s k request s' effs :
  numbered s → evd_web_transport_server_on_request now s k request = Some (s', effs) →
  accounts s s' effs ∧ numbered s' ∧ (next_slot s <= next_slot s')%nat ∧
  ∀ slot, count (starts slot) effs = if decide (next_slot s <= slot < next_slot s')%nat then 1%nat else 0%nat.
Proof.
  intros N. unfold evd_web_transport_server_on_request. destruct (uri request) as [u|]; [|done]. run_bind.
  assert (∀ m e, idle s m → neutral e → accounts s m e ∧ numbered m ∧ (next_slot s <= next_slot m)%nat ∧
    ∀ slot, count (starts slot) e = if decide (next_slot s <= slot < next_slot m)%nat then 1%nat else 0%nat) as Hidle.
  { intros m e I Ne. split; [by apply idle_accounts|]. destruct I as (Hr & _ & Hn). unfold numbered. rewrite Hr, Hn.
    split; [done|]. split; [done|]. intros slot. destruct (Ne slot) as [_ ->]. rewrite decide_False by lia. done. }
  case_decide as Eh.
  - unfold evd_web_transport_server_read_handshake_data. destruct (conns s !! k) as [c|]; [|done]. run_bind.
    destruct (evd_http_connection_read_all_content c) as [c' evs]. intros [= <- <-].
    assert (∀ n, count (ends n) [Started (next_slot s); ConnEvents k evs] = O ∧
      count (starts n) [Started (next_slot s); ConnEvents k evs] = if decide (next_slot s = n) then 1%nat else 0%nat) as Hc.
    { intros n. split; [done|]. cbn [count starts].
      case_decide; [by rewrite bool_decide_true|by rewrite bool_decide_false]. }
    assert (reading s !! next_slot s = None) as Hnone.
    { apply eq_None_not_Some. intros Hs%N. lia. }
    split; [|split; [|split; [cbn; lia|]]].
    + intros n. destruct (Hc n) as [-> ->]. unfold waiting, in_reading, in_pending.
      cbn [reading pending with_reading with_conn]. destruct (decide (next_slot s = n)) as [<-|Hne].
      * rewrite lookup_insert_eq, Hnone. lia.
      * rewrite lookup_insert_ne by done. lia.
    + intros n. cbn [reading next_slot with_reading]. destruct (decide (next_slot s = n)) as [<-|Hne]; [lia|].
      rewrite lookup_insert_ne by done. intros Hs%N. lia.
    + intros n. destruct (Hc n) as [_ ->]. cbn [next_slot with_reading]. repeat case_decide; lia.
  - destruct (get_actual_transport_from_path s (uri_path u)) as [service|]; [|intros [= <- <-]; by apply Hidle].
    destruct (associate now s (uri_query u) service) as [m|] eqn:E; [|done]. run_bind. intros [= <- <-]. apply Hidle; [|done].
    revert E. unfold associate. destruct (uri_query u) as [q|]; [|by intros [= <-]].
    destruct (Peer.evd_peer_manager_lookup_peer _ _) as [w [id|]]; [|by intros [= <-]].
    destruct (peer_of id (with_peers w s)); [|done]. run_bind. by intros [= <-].
Qed.

(** ** Runs *)

Inductive operation :=
  | Request (now : Z) (k : nat) (request : EvdHttpRequest)
  | Data (now : Z) (connected : sub_transport → string → bool) (order : list string)
      (verdicts : option (nat * EvdHttpRequest) → list Z) (slot : nat) (a : async) (id : string)
  | Accept (now : Z) (connected : sub_transport → string → bool) (order : list string) (id : string)
  | Reject (id : string)
  | Closed (id : string)
  | Enable (enabled : bool)
  | External (url : option (list Z)).

Definition exec (o : operation) s : option (server * list effect) :=
  match o with
  | Request now k request => evd_web_transport_server_on_request now s k request
  | Data now connected order verdicts slot a id =>
      evd_web_transport_on_handshake_data now connected order verdicts s slot a id
  | Accept now connected order id => evd_web_transport_server_accept_peer now connected order s id
  | Reject id => evd_web_transport_server_reject_peer s id
  | Closed id => Some (evd_web_transport_server_conn_on_close s id)
  | Enable enabled => Some (evd_web_transport_server_set_enable_websocket s enabled, [])
  | External url => Some (evd_web_transport_server_set_external_base_url s url, [])
  end.

Fixpoint run (ops : list operation) s : option (server * list effect) :=
  match ops with
  | [] => Some (s, [])
  | o :: ops => '(s, e1) ← exec o s; '(s, e2) ← run ops s; Some (s, e1 ++ e2)
  end.

(** The numbers an operation gives are the next ones, each once. *)
Definition numbers s s' (effs : list effect) : Prop :=
  (next_slot s <= next_slot s')%nat ∧
  ∀ slot, count (starts slot) effs = if decide (next_slot s <= slot < next_slot s')%nat then 1%nat else 0%nat.

Lemma numbers_none s s' effs : next_slot s' = next_slot s → (∀ slot, count (starts slot) effs = O) → numbers s s' effs.
Proof. intros Hn Hc. split; [lia|]. intros slot. rewrite Hc, decide_False by lia. done. Qed.

Lemma numbers_trans s1 s2 s3 e1 e2 : numbers s1 s2 e1 → numbers s2 s3 e2 → numbers s1 s3 (e1 ++ e2).
Proof.
  intros [L1 C1] [L2 C2]. split; [lia|]. intros slot. rewrite count_app, C1, C2. repeat case_decide; lia.
Qed.

(** Operations that are not requests start nothing. *)
Lemma starts_nothing now connected order verdicts s slot a id s' effs :
  evd_web_transport_on_handshake_data now connected order verdicts s slot a id = Some (s', effs) →
  ∀ n, count (starts n) effs = O.
Proof.
  unfold evd_web_transport_on_handshake_data. destruct (reading s !! slot) as [data|]; [|done]. run_bind.
  destruct (conns _ !! hs_conn data) as [c|]; [|done]. run_bind.
  destruct (evd_http_connection_read_all_content_finish c a) as [c' content].
  destruct (match content with Some _ => _ | None => _ end) as [[[]|]|]; run_bind;
    try (intros [_ Hc]%respond_counts n; apply Hc); [intros (_ & _ & Hc)%handshake_accounts n; apply Hc|done].
Qed.

Lemma accept_starts now connected order s id s' effs :
  evd_web_transport_server_accept_peer now connected order s id = Some (s', effs) → ∀ n, count (starts n) effs = O.
Proof.
  unfold evd_web_transport_server_accept_peer. destruct (Transport.admission _ _ _) as [[[w evs] fresh]|]; [|done]. run_bind.
  destruct (pending _ !! id) as [data|]; [|intros [= <- <-]; by destruct fresh].
  destruct (evd_web_transport_server_respond_handshake _ _ _) as [[s2 e2]|] eqn:E; [|done]. run_bind. intros [= <- <-] n.
  apply respond_handshake_counts in E as [_ Hc]. cbn [count starts]. rewrite count_app. destruct (Hc n) as [_ ->]. by destruct fresh.
Qed.

Lemma exec_accounts o s s' effs :
  numbered s → exec o s = Some (s', effs) → accounts s s' effs ∧ numbers s s' effs ∧ numbered s'.
Proof.
  intros N.
  assert (∀ m e, accounts s m e → reading m = reading s → next_slot m = next_slot s → (∀ n, count (starts n) e = O) →
    accounts s m e ∧ numbers s m e ∧ numbered m) as Hkeep.
  { intros m e A Hr Hn Hc. split; [done|]. split; [by apply numbers_none|]. unfold numbered. by rewrite Hr, Hn. }
  destruct o; cbn [exec].
  - intros E. apply request_accounts in E as (A & N' & L & C); [|done]. split; [done|]. by split.
  - intros E. pose proof (starts_nothing _ _ _ _ _ _ _ _ _ _ E) as Hc. apply data_accounts in E as (A & Hr & Hn).
    split; [done|]. split; [by apply numbers_none|]. unfold numbered. rewrite Hr, Hn. intros n Hs. apply N.
    destruct (decide (slot = n)) as [->|]; [rewrite lookup_delete_eq in Hs; by destruct Hs|by rewrite lookup_delete_ne in Hs].
  - intros E. pose proof (accept_starts _ _ _ _ _ _ _ E) as Hc. apply accept_accounts in E as (A & Hr & Hn & _). by apply Hkeep.
  - intros E. assert (∀ n, count (starts n) effs = O) as Hc.
    { revert E. unfold evd_web_transport_server_reject_peer. destruct (pending s !! id); [|by intros [= <- <-]].
      destruct (respond _ _ _ _ _ _) as [[s2 e2]|] eqn:E; [|done]. run_bind. intros [= <- <-] n.
      apply respond_counts in E as [_ Hc]. apply Hc. }
    apply reject_accounts in E as (A & Hr & Hn). by apply Hkeep.
  - intros E%(inj Some). assert (∀ n, count (starts n) effs = O) as Hc.
    { revert E. unfold evd_web_transport_server_conn_on_close. by destruct (pending s !! id); intros [= <- <-]. }
    apply close_accounts in E as (A & Hr & Hn). by apply Hkeep.
  - intros [= <- <-]. apply Hkeep; [by apply idle_accounts|done..].
  - intros [= <- <-]. apply Hkeep; [by apply idle_accounts|done..].
Qed.

Lemma run_accounts ops : ∀ s s' effs,
  numbered s → run ops s = Some (s', effs) → accounts s s' effs ∧ numbers s s' effs.
Proof.
  induction ops as [|o ops IH]; intros s s' effs N; cbn [run].
  { intros [= <- <-]. split; [by apply idle_accounts|by apply numbers_none]. }
  destruct (exec o s) as [[s1 e1]|] eqn:E1; [|done]. run_bind. apply exec_accounts in E1 as (A1 & C1 & N1); [|done].
  destruct (run ops s1) as [[s2 e2]|] eqn:E2; [|done]. run_bind. intros [= <- <-].
  apply IH in E2 as [A2 C2]; [|done]. split; [by eapply accounts_trans|by eapply numbers_trans].
Qed.

(** C27. Every handshake is answered once: over every run of a new server, each handshake it has begun
    has either been answered with exactly one response, or dropped with its connection, or its content
    is still being read, or its peer still waits for a verdict, and only one of these. *)
Theorem handshakes_answered_once ops s s' effs slot :
  reading s = ∅ → pending s = ∅ → next_slot s = O → run ops s = Some (s', effs) →
  (slot < next_slot s')%nat →
  (count (ends slot) effs + in_reading s' slot + in_pending s' slot = 1)%nat.
Proof.
  intros Hr Hp Hn E Hslot. assert (numbered s) as N.
  { intros n. rewrite Hr, lookup_empty. by intros []. }
  apply run_accounts in E as [A [_ C]]; [|done]. specialize (A slot). rewrite C, decide_True in A by lia.
  assert (waiting s slot = O) as Hw.
  { unfold waiting, in_reading, in_pending. by rewrite Hr, Hp, lookup_empty, map_filter_empty, map_size_empty. }
  rewrite Hw in A. unfold waiting in A. lia.
Qed.

(** ** What is offered *)

Definition name_of (mech : Jsonrpc.JsonNode) : option string :=
  match Jsonrpc.json_object_get_member (json_node_get_members mech) "name" with
  | Some (Jsonrpc.JsonString n) => Some n
  | _ => None
  end.

(** The names offered are those asked for that are enabled, the web socket first. *)
Lemma offered_names s c data mechs :
  response_mechanisms s c data = Some mechs →
  let asked := has_mechanism (default [] (mechanisms data)) in
  name_of <$> mechs =
  (if enable_ws s && asked WEB_SOCKET_MECHANISM_NAME then [Some WEB_SOCKET_MECHANISM_NAME] else []) ++
  (if asked LONG_POLLING_MECHANISM_NAME then [Some LONG_POLLING_MECHANISM_NAME] else []).
Proof.
  unfold response_mechanisms. destruct (peer_uri data) as [u|]; [|done]. run_bind.
  destruct (enable_ws s && _); [destruct (websocket_url s c u) as [w|]; [|done]|]; run_bind; intros [= <-];
    by destruct (has_mechanism _ LONG_POLLING_MECHANISM_NAME).
Qed.

(** The paths of a server whose base path was set. *)
Definition has_base s (b : list Z) : Prop :=
  hs_base_path s = b ++ HANDSHAKE_TOKEN_NAME ∧ lp_base_path s = b ++ LONG_POLLING_TOKEN_NAME ∧
  ws_base_path s = b ++ WEB_SOCKET_TOKEN_NAME.

Lemma set_base_path_has s path s' :
  evd_web_transport_server_set_base_path s path = Some s' → has_base s' (base_path s') ∧ last (base_path s') = Some 47.
Proof.
  unfold evd_web_transport_server_set_base_path. destruct (last path) as [c|] eqn:Hl; [|done]. run_bind.
  intros [= <-]. split; [done|]. cbn [base_path with_paths with_dir]. destruct (Z.eqb_spec c 47) as [->|]; [done|apply last_snoc].
Qed.



(** A path without query and fragment. *)
Definition path_ok (p : list Z) : Prop := bytes_ok p ∧ (63 ∉ p) ∧ (35 ∉ p).

(** What libsoup documents of the URIs the server builds. *)
Class URILaws := {
  path_set_path u p : uri_path (soup_uri_set_path u p) = p;
  path_set_query u q : uri_path (soup_uri_set_query u q) = uri_path u;
  uri_printed u : path_ok (uri_path u) →
    ∃ u', soup_uri_new (soup_uri_to_string u false) = Some u' ∧ uri_path u' = uri_path u;
  uri_characters u : path_ok (uri_path u) → bytes_ok (soup_uri_to_string u false)
}.








End Spec.

(** ** A concrete server *)

#[local] Existing Instance WebServiceSpec.demo_regex.

#[export] Instance demo_uris : SoupURIs := {|
  soup_uri_set_scheme u v := mkUri v (d_host u) (d_port u) (d_path u) (d_query u);
  soup_uri_set_port u v := mkUri (d_scheme u) (d_host u) v (d_path u) (d_query u);
  soup_uri_set_path u v := mkUri (d_scheme u) (d_host u) (d_port u) v (d_query u);
  soup_uri_set_query u v := mkUri (d_scheme u) (d_host u) (d_port u) (d_path u) v
|}.

#[export] Instance demo_uri_laws : URILaws.
Proof.
  split; [done..| |by intros u (Hb & _)]. intros u (_ & Hq & _). cbn [soup_uri_new soup_uri_to_string demo_soup].
  rewrite cut_at_none by done. by eexists.
Qed.

(** A parser that knows one text. *)
Definition demo_offer : Jsonrpc.JsonNode :=
  Jsonrpc.JsonObject [("mechanisms"%string, Jsonrpc.JsonArray
    [Jsonrpc.JsonString WEB_SOCKET_MECHANISM_NAME; Jsonrpc.JsonString LONG_POLLING_MECHANISM_NAME])].

#[local] Instance demo_json : Jsonrpc.JsonGlib := {|
  Jsonrpc.json_generator_to_data _ := codes "{}";
  Jsonrpc.json_parser_load_from_data s := if decide (s = codes "offer") then Some demo_offer else None
|}.

Definition demo_conn : EvdHttpConnection :=
  with_encoding SOUP_ENCODING_CONTENT_LENGTH
    (evd_http_connection_init false (BufferedInput.evd_buffered_input_stream_init 4096) []).

Definition blank_server : server :=
  mkServer WebService.evd_web_service_init [] [] [] [] true None None
    (Peer.mkWorld ∅ (Peer.evd_peer_manager_init 0) [] 1) ∅ ∅ ∅ 0
    {[ 1%nat := demo_conn; 2%nat := demo_conn ]} [] WebDir.evd_web_dir_init.

Definition demo_server : server :=
  default blank_server (evd_web_transport_server_set_base_path blank_server (codes "/transport")).

Definition demo_request (url : string) : EvdHttpRequest := mkRequest 1 None (codes "GET") (soup_uri_new (codes url)).

Definition nobody : sub_transport → string → bool := λ _ _, false.

(** A connection whose content has been read. *)
Definition offer_conn : EvdHttpConnection := with_content_read 5 (with_buf (codes "offer") demo_conn).

Definition offered_server : server := with_conn 1 offer_conn (with_conn 2 offer_conn demo_server).

(** Three handshakes: one is accepted at once, one waits until its connection closes, and the content of
    the third cannot be read. *)
Definition read_done : async := mkAsync read_all_content_tag None ResNone.
Definition read_failed : async := mkAsync read_all_content_tag (Some ErrFailed) ResNone.

Definition demo_operations : list operation :=
  [Request 0 1 (demo_request "/transport/handshake"); Request 0 2 (demo_request "/transport/handshake");
   Request 0 2 (demo_request "/transport/handshake");
   Data 0 nobody [] (λ _, [WebService.EVD_VALIDATE_ACCEPT]) 0 read_done "p";
   Data 0 nobody [] (λ _, [WebService.EVD_VALIDATE_PENDING]) 1 read_done "q"; Closed "q";
   Data 0 nobody [] (λ _, []) 2 read_failed "r"].

Definition demo_outcome : server * list effect := default (offered_server, []) (run demo_operations offered_server).

Definition demo_ends (e : effect) : option (nat * Z) :=
  match e with Answered slot _ code => Some (slot, code) | Dropped slot => Some (slot, 0) | _ => None end.

Example handshakes_run :
  next_slot demo_outcome.1 = 3%nat ∧ omap demo_ends demo_outcome.2 = [(0%nat, 200); (1%nat, 0); (2%nat, 500)].
Proof. split; vm_compute; reflexivity. Qed.

Lemma demo_runs : run demo_operations offered_server = Some demo_outcome.
Proof.
  assert ((if run demo_operations offered_server is Some _ then true else false) = true) as E by (vm_compute; reflexivity).
  unfold demo_outcome. by destruct (run demo_operations offered_server).
Qed.

Lemma handshakes_answered_once_witness :
  (count (ends 1) demo_outcome.2 + in_reading demo_outcome.1 1 + in_pending demo_outcome.1 1 = 1)%nat.
Proof.
  apply (handshakes_answered_once demo_operations offered_server demo_outcome.1 demo_outcome.2 1);
    [reflexivity|reflexivity|reflexivity|rewrite demo_runs; by destruct demo_outcome|
     destruct handshakes_run as [-> _]; lia].
Defined.






Lemma demo_peer : "p"%string ∈ Peer.peers (Peer.manager (peers demo_outcome.1)) ∧ is_Some (peer_of "p" demo_outcome.1).
Proof. split; apply (bool_decide_unpack _); vm_compute; exact I. Qed.


(** The peer follows its offer. *)
Example offer_followed :
  option_map (λ r : server * list effect, (evd_web_transport_server_send r.1 "p"%string,
      omap (λ e, match e with HandedTo t _ _ => Some t | _ => None end) r.2))
    (evd_web_transport_server_on_request 7 demo_outcome.1 1 (demo_request "/transport/lp/receive?p")) =
  Some (Some LongPolling, [LongPolling]).
Proof. vm_compute. reflexivity. Qed.

(** ** Defects *)

(** A path that only begins with the text of a service's path goes to the service, and not to the files. *)
Example route_by_prefix : get_actual_transport_from_path demo_server (codes "/transport/lpx") = Some LongPolling.
Proof. vm_compute. reflexivity. Qed.

(** An external URL that is not a URI is dereferenced. *)
Lemma invalid_external_url_crashes `{!SoupURIs} s c url u :
  external_url s = Some url → soup_uri_new url = None → websocket_url s c u = None.
Proof. unfold websocket_url. by intros -> ->. Qed.

(** The value sent for Cache-Control names the header again. *)
Example cache_control_repeats_its_name :
  soup_message_headers_get_one response_headers (codes "Cache-Control") =
  Some (codes "Cache-Control: no-cache, must-revalidate").
Proof. vm_compute. reflexivity. Qed.

End WebTransportSpec.
