(* ===== verification/DBusAgent.v ===== *)
(** * The D-Bus agent (src/evd/evd-dbus-agent.c): model

    For each object that uses it (a peer of the bridge) the agent keeps tables of D-Bus connections, of
    proxies, of names owned and of objects registered, by the numbers it gives out; the connections to
    one address are shared among the objects, counted, through a cache of the process.  GDBus is the
    environment: its connections, proxies and invocations are numbers, and the numbers it gives
    (registrations, name owners) are arguments.  [None] stands for what ends the program: a failed
    assertion or memory that was freed. *)
From S2P Require Import Prelude.

Module DBusAgent.

(** ** State *)

Record ConnData := mkConnData {
  cd_conn : option nat;
  ref_count : Z;
  reuse : bool;
  addr : list Z
}.

Record ProxyData := mkProxy {
  pd_conn_id : Z;
  proxy : nat;
  proxy_conn : nat;              (* g_dbus_proxy_get_connection *)
  signals_connected : bool
}.

Record NameOwnerData := mkOwner { no_conn_id : Z; no_dbus_conn : nat }.

(** The keys of [invocations] are one cell, the serial: a node has the hash of the serial it was
    inserted with, and is found when this is the hash of what is looked for and the cell holds it. *)
Record RegObjData := mkRegObj {
  ro_conn_id : Z;
  reg_str_id : nat * list Z * list Z;       (* "%p-%s<%s>" *)
  ro_dbus_conn : nat;
  obj_path : list Z;
  iface : list Z;
  serial : Z;
  invocations : gmap Z nat
}.

Record ObjectData := mkObject {
  conns : gmap Z nat;                                     (* to a ConnData *)
  conn_counter : Z;
  proxies : gmap Z ProxyData;
  proxy_counter : Z;
  owned_names : gmap Z NameOwnerData;
  reg_objs : gmap (nat * list Z * list Z) Z;              (* to a RegObjData *)
  reg_objs_by_id : gmap Z RegObjData;
  addr_aliases : gmap (list Z) (list Z);
  vtable : bool
}.

Record agent := mkAgent {
  objects : gmap string ObjectData;
  conn_data : gmap nat ConnData;
  next_conn_data : nat;
  conn_cache : gmap (list Z) nat;
  connecting : gmap nat string                            (* the connections being made, for an object *)
}.

Section Agent.
Context {GVariant : Type}.

Inductive effect :=
  | NewForAddress (p : nat) (address : list Z)
  | CloseDBus (conn : nat)
  | UnownName (owner_id : Z)
  | UnregisterObject (conn : nat) (reg_id : Z)
  | EmitSignal (conn : nat) (path iface_name signal_name : list Z) (params : GVariant)
  | ReturnValue (invocation : nat) (params : GVariant)
  | ReturnError (invocation : nat)
  (* the vtable of the object *)
  | ProxySignal (obj : string) (conn_id proxy_id : Z) (signal_name : list Z) (params : GVariant)
  | MethodCall (obj : string) (conn_id : Z) (method_name : list Z) (reg_id : Z) (params : GVariant) (serial : Z)
  | NameAcquired (obj : string) (conn_id owner_id : Z)
  | NameLost (obj : string) (conn_id owner_id : Z).

Definition with_object obj d a := mkAgent (<[obj := d]> (objects a)) (conn_data a) (next_conn_data a) (conn_cache a) (connecting a).
Definition with_objects o a := mkAgent o (conn_data a) (next_conn_data a) (conn_cache a) (connecting a).
Definition with_conn_data m a := mkAgent (objects a) m (next_conn_data a) (conn_cache a) (connecting a).
Definition with_cache c a := mkAgent (objects a) (conn_data a) (next_conn_data a) c (connecting a).
Definition with_connecting c a := mkAgent (objects a) (conn_data a) (next_conn_data a) (conn_cache a) c.

Definition with_conns m n d := mkObject m n (proxies d) (proxy_counter d) (owned_names d) (reg_objs d) (reg_objs_by_id d) (addr_aliases d) (vtable d).
Definition with_proxies m n d := mkObject (conns d) (conn_counter d) m n (owned_names d) (reg_objs d) (reg_objs_by_id d) (addr_aliases d) (vtable d).
Definition with_names m d := mkObject (conns d) (conn_counter d) (proxies d) (proxy_counter d) m (reg_objs d) (reg_objs_by_id d) (addr_aliases d) (vtable d).
Definition with_reg_objs r m d := mkObject (conns d) (conn_counter d) (proxies d) (proxy_counter d) (owned_names d) r m (addr_aliases d) (vtable d).
Definition with_aliases m d := mkObject (conns d) (conn_counter d) (proxies d) (proxy_counter d) (owned_names d) (reg_objs d) (reg_objs_by_id d) m (vtable d).
Definition with_vtable v d := mkObject (conns d) (conn_counter d) (proxies d) (proxy_counter d) (owned_names d) (reg_objs d) (reg_objs_by_id d) (addr_aliases d) v.

Definition agent_init : agent := mkAgent ∅ ∅ 0 ∅ ∅.

Definition evd_dbus_agent_get_object_data (a : agent) (obj : string) : option ObjectData := objects a !! obj.

Definition evd_dbus_agent_setup_object_data : ObjectData := mkObject ∅ 0 ∅ 0 ∅ ∅ ∅ ∅ false.

(** The data of an object, set up when it has none. *)
Definition object_data (a : agent) (obj : string) : ObjectData :=
  default evd_dbus_agent_setup_object_data (evd_dbus_agent_get_object_data a obj).

(** ** Shared connections *)

Definition evd_dbus_agent_conn_data_new (address : list Z) (r : bool) : ConnData := mkConnData None 0 r address.

Definition evd_dbus_agent_conn_data_ref (a : agent) (p : nat) : option agent :=
  cd ← conn_data a !! p;
  Some (with_conn_data (<[p := mkConnData (cd_conn cd) (ref_count cd + 1) (reuse cd) (addr cd)]> (conn_data a)) a).

(** What is cached for the address goes when the count reaches zero. *)
Definition evd_dbus_agent_conn_data_unref (a : agent) (p : nat) : option (agent * list effect) :=
  cd ← conn_data a !! p;
  if ref_count cd - 1 <=? 0 then
    Some (with_conn_data (delete p (conn_data a)) (with_cache (delete (addr cd) (conn_cache a)) a),
          match cd_conn cd with Some c => [CloseDBus c] | None => [] end)
  else
    Some (with_conn_data (<[p := mkConnData (cd_conn cd) (ref_count cd - 1) (reuse cd) (addr cd)]> (conn_data a)) a, []).

Definition evd_dbus_agent_search_conn_in_global_cache (a : agent) (address : list Z) : option nat :=
  conn_cache a !! address.

Definition evd_dbus_agent_cache_conn_in_global_cache (a : agent) (p : nat) : option agent :=
  cd ← conn_data a !! p; Some (with_cache (<[addr cd := p]> (conn_cache a)) a).

(** ** Freeing *)

Definition evd_dbus_agent_foreach_remove_proxy (conn : nat) (v : ProxyData) : bool := bool_decide (proxy_conn v = conn).
Definition evd_dbus_agent_foreach_remove_owned_names (conn : nat) (v : NameOwnerData) : bool :=
  bool_decide (no_dbus_conn v = conn).
Definition evd_dbus_agent_foreach_remove_reg_obj (conn : nat) (v : RegObjData) : bool :=
  bool_decide (ro_dbus_conn v = conn).

(** [g_hash_table_foreach_remove]: what is left and what is removed. *)
Definition foreach_remove {A} (f : A → bool) (m : gmap Z A) : gmap Z A * gmap Z A :=
  (filter (λ kv : Z * A, f kv.2 = false) m, filter (λ kv : Z * A, f kv.2 = true) m).

(** [g_bus_unown_name]. *)
Definition evd_dbus_agent_free_name_owner_data (owner_id : Z) : effect := UnownName owner_id.

(** What is looked for in [reg_objs] is the bytes of a pointer, and no key: nothing goes. *)
Definition evd_dbus_agent_free_reg_obj_data (reg_id : Z) (v : RegObjData) : effect :=
  UnregisterObject (ro_dbus_conn v) reg_id.

Definition freed_names (m : gmap Z NameOwnerData) : list effect :=
  (λ kv : Z * NameOwnerData, evd_dbus_agent_free_name_owner_data kv.1) <$> map_to_list m.
Definition freed_reg_objs (m : gmap Z RegObjData) : list effect :=
  (λ kv : Z * RegObjData, evd_dbus_agent_free_reg_obj_data kv.1 kv.2) <$> map_to_list m.

(** What the object has over the D-Bus connection goes, whichever of its numbers it was made with. *)
Definition evd_dbus_agent_free_obj_conn_data (a : agent) (obj : string) (p : nat) : option (agent * list effect) :=
  d ← evd_dbus_agent_get_object_data a obj;
  cd ← conn_data a !! p;
  conn ← cd_conn cd;
  let '(px, _) := foreach_remove (evd_dbus_agent_foreach_remove_proxy conn) (proxies d) in
  let '(names, lost) := foreach_remove (evd_dbus_agent_foreach_remove_owned_names conn) (owned_names d) in
  let '(objs, gone) := foreach_remove (evd_dbus_agent_foreach_remove_reg_obj conn) (reg_objs_by_id d) in
  let d := with_reg_objs (reg_objs d) objs (with_names names (with_proxies px (proxy_counter d) d)) in
  '(a, effs) ← evd_dbus_agent_conn_data_unref (with_object obj d a) p;
  Some (a, freed_names lost ++ freed_reg_objs gone ++ effs).

(** [g_hash_table_remove] from [conns]. *)
Definition remove_conn (a : agent) (obj : string) (conn_id : Z) : option (agent * list effect) :=
  d ← evd_dbus_agent_get_object_data a obj;
  match conns d !! conn_id with
  | None => Some (a, [])
  | Some p =>
      evd_dbus_agent_free_obj_conn_data
        (with_object obj (with_conns (delete conn_id (conns d)) (conn_counter d) d) a) obj p
  end.

Fixpoint free_conns (a : agent) (obj : string) (ps : list nat) : option (agent * list effect) :=
  match ps with
  | [] => Some (a, [])
  | p :: ps =>
      '(a, e1) ← evd_dbus_agent_free_obj_conn_data a obj p;
      '(a, e2) ← free_conns a obj ps;
      Some (a, e1 ++ e2)
  end.

(** The object is gone; its connections under way keep it alive.  The table of connections is emptied
    before what it held is freed. *)
Definition evd_dbus_agent_on_object_destroyed (a : agent) (obj : string) : option (agent * list effect) :=
  d ← evd_dbus_agent_get_object_data a obj;
  let ps := snd <$> map_to_list (conns d) in
  '(a, e1) ← free_conns (with_object obj (with_conns ∅ (conn_counter d) d) a) obj ps;
  d ← evd_dbus_agent_get_object_data a obj;
  Some (with_objects (delete obj (objects a)) a, e1 ++ freed_names (owned_names d) ++ freed_reg_objs (reg_objs_by_id d)).

(** An ObjConnData is read as a ConnData: where the connection would be is the data of the object. *)
Inductive pointer := PObjectData (obj : string) | PConnection (conn : nat).

#[export] Instance pointer_eq_dec : EqDecision pointer.
Proof. solve_decision. Defined.

Definition first_word (obj : string) (p : nat) : pointer := PObjectData obj.

Definition evd_dbus_agent_on_object_connection_closed (a : agent) (obj : string) (conn : nat)
  : option (agent * list effect) :=
  d ← evd_dbus_agent_get_object_data a obj;
  match list_find (λ kv : Z * nat, first_word obj kv.2 = PConnection conn) (map_to_list (conns d)) with
  | Some (_, (key, _)) => remove_conn a obj key
  | None => Some (a, [])
  end.

(** ** Connections *)

Definition evd_dbus_agent_create_address_alias (a : agent) (obj : string) (address alias : list Z) : agent :=
  let d := object_data a obj in with_object obj (with_aliases (<[alias := address]> (addr_aliases d)) d) a.

(** [None] also when the counter comes round to a number in use, whose key is freed and then read. *)
Definition evd_dbus_agent_bind_connection_to_object (a : agent) (obj : string) (p : nat) : option (agent * Z) :=
  d ← evd_dbus_agent_get_object_data a obj;
  let conn_id := u32 (conn_counter d + 1) in
  a ← evd_dbus_agent_conn_data_ref a p;
  match conns d !! conn_id with
  | Some _ => None
  | None => Some (with_object obj (with_conns (<[conn_id := p]> (conns d)) conn_id d) a, conn_id)
  end.

(** A new connection: a number at once, whose callback comes in idle, or GDBus is asked. *)
Inductive started := InIdle (conn_id : Z) | Connecting (p : nat).

Definition evd_dbus_agent_new_connection (a : agent) (obj : string) (address : list Z) (r : bool)
  : option (agent * started * list effect) :=
  let d := object_data a obj in
  let a := with_object obj d a in
  let address := default address (addr_aliases d !! address) in
  match (if r then evd_dbus_agent_search_conn_in_global_cache a address else None) with
  | Some p => '(a, conn_id) ← evd_dbus_agent_bind_connection_to_object a obj p; Some (a, InIdle conn_id, [])
  | None =>
      let p := next_conn_data a in
      let a := mkAgent (objects a) (<[p := evd_dbus_agent_conn_data_new address r]> (conn_data a)) (S p)
                 (conn_cache a) (<[p := obj]> (connecting a)) in
      Some (a, Connecting p, [NewForAddress p address])
  end.

(** The answer of GDBus: the number, or an error. *)
Definition evd_dbus_agent_on_new_dbus_connection (a : agent) (p : nat) (dbus_conn : option nat)
  : option (agent * string * option Z * list effect) :=
  obj ← connecting a !! p;
  let a := with_connecting (delete p (connecting a)) a in
  match dbus_conn with
  | None => '(a, effs) ← evd_dbus_agent_conn_data_unref a p; Some (a, obj, None, effs)
  | Some c =>
      cd ← conn_data a !! p;
      let a := with_conn_data (<[p := mkConnData (Some c) (ref_count cd) (reuse cd) (addr cd)]> (conn_data a)) a in
      '(a, conn_id) ← evd_dbus_agent_bind_connection_to_object a obj p;
      a ← (if reuse cd then evd_dbus_agent_cache_conn_in_global_cache a p else Some a);
      Some (a, obj, Some conn_id, [])
  end.

(** Reads the number in the key of [conns], which is freed with its connection. *)
Definition evd_dbus_agent_new_connection_finish (a : agent) (obj : string) (conn_id : Z) : option Z :=
  d ← evd_dbus_agent_get_object_data a obj;
  match conns d !! conn_id with Some _ => Some conn_id | None => None end.

(** [ErrNotPositive] is refused with a warning and sets no error; a code is one of GDBus. *)
Inductive agent_error := ErrInvalidData | ErrInvalidArgument | ErrNotPositive | ErrGDBus (code : Z).

(** Outer [None]: freed memory is read. *)
Definition evd_dbus_agent_get_connection (a : agent) (obj : string) (conn_id : Z) : option (option nat + agent_error) :=
  match evd_dbus_agent_get_object_data a obj with
  | None => Some (inr ErrInvalidData)
  | Some d =>
      match conns d !! conn_id with
      | Some p => cd ← conn_data a !! p; Some (inl (cd_conn cd))
      | None => Some (inr ErrInvalidArgument)
      end
  end.

Definition evd_dbus_agent_close_connection (a : agent) (obj : string) (conn_id : Z)
  : option (agent * list effect * bool) :=
  r ← evd_dbus_agent_get_connection a obj conn_id;
  match r with
  | inl (Some _) => '(a, effs) ← remove_conn a obj conn_id; Some (a, effs, true)
  | _ => Some (a, [], false)
  end.

(** ** Proxies *)

(** GDBus is asked for a proxy over a connection; a number that is not positive is refused without a
    callback ([inl None]). *)
Definition evd_dbus_agent_new_proxy (a : agent) (obj : string) (conn_id : Z) : option (option nat + agent_error) :=
  if conn_id <=? 0 then Some (inl None)
  else
    r ← evd_dbus_agent_get_connection a obj conn_id;
    Some (match r with inl (Some c) => inl (Some c) | inl None => inr ErrInvalidData | inr e => inr e end).

Definition G_DBUS_PROXY_FLAGS_DO_NOT_CONNECT_SIGNALS : Z := 2.

Definition evd_dbus_agent_on_new_dbus_proxy (a : agent) (obj : string) (conn_id flags : Z) (conn : nat)
    (px : option nat) : option (agent * option Z) :=
  match px with
  | None => Some (a, None)
  | Some px =>
      d ← evd_dbus_agent_get_object_data a obj;
      let proxy_id := u32 (proxy_counter d + 1) in
      match proxies d !! proxy_id with
      | Some _ => None
      | None =>
          let v := mkProxy conn_id px conn (Z.land flags G_DBUS_PROXY_FLAGS_DO_NOT_CONNECT_SIGNALS =? 0) in
          Some (with_object obj (with_proxies (<[proxy_id := v]> (proxies d)) proxy_id d) a, Some proxy_id)
      end
  end.

Definition evd_dbus_agent_get_proxy (a : agent) (obj : string) (proxy_id : Z) : ProxyData + agent_error :=
  if proxy_id <=? 0 then inr ErrNotPositive
  else
    match evd_dbus_agent_get_object_data a obj with
    | None => inr ErrInvalidData
    | Some d => match proxies d !! proxy_id with Some v => inl v | None => inr ErrInvalidArgument end
    end.

Definition evd_dbus_agent_close_proxy (a : agent) (obj : string) (proxy_id : Z) : agent * bool :=
  match evd_dbus_agent_get_proxy a obj proxy_id with
  | inl _ =>
      let d := object_data a obj in
      (with_object obj (with_proxies (delete proxy_id (proxies d)) (proxy_counter d) d) a, true)
  | inr _ => (a, false)
  end.

(** A signal of the proxy, which has a handler while it is in the table. *)
Definition evd_dbus_agent_on_proxy_signal (a : agent) (obj : string) (proxy_id : Z) (signal_name : list Z)
    (params : GVariant) : list effect :=
  match evd_dbus_agent_get_object_data a obj with
  | Some d =>
      match proxies d !! proxy_id with
      | Some v =>
          if signals_connected v && vtable d then [ProxySignal obj (pd_conn_id v) proxy_id signal_name params] else []
      | None => []
      end
  | None => []
  end.

(** ** The vtable *)

Definition evd_dbus_agent_set_object_vtable (a : agent) (obj : string) : agent :=
  with_object obj (with_vtable true (object_data a obj)) a.

(** ** Registered objects *)

(** [reg_id]: the answer of [g_dbus_connection_register_object], zero on error. *)
Definition evd_dbus_agent_register_object (a : agent) (obj : string) (conn_id : Z) (path iface_name : list Z)
    (reg_id : Z) : option (agent * Z) :=
  if conn_id <=? 0 then Some (a, 0)
  else
    r ← evd_dbus_agent_get_connection a obj conn_id;
    match r with
    | inl (Some c) =>
        if 0 <? reg_id then
          d ← evd_dbus_agent_get_object_data a obj;
          let key := (c, path, iface_name) in
          Some (with_object obj
                  (with_reg_objs (<[key := reg_id]> (reg_objs d))
                     (<[reg_id := mkRegObj conn_id key c path iface_name 0 ∅]> (reg_objs_by_id d)) d) a, reg_id)
        else Some (a, reg_id)
    | _ => Some (a, 0)
    end.

Definition evd_dbus_agent_get_registered_object_data (a : agent) (obj : string) (reg_id : Z) : RegObjData + agent_error :=
  if reg_id <=? 0 then inr ErrNotPositive
  else
    match evd_dbus_agent_get_object_data a obj with
    | None => inr ErrInvalidData
    | Some d => match reg_objs_by_id d !! reg_id with Some v => inl v | None => inr ErrInvalidArgument end
    end.

Definition evd_dbus_agent_unregister_object (a : agent) (obj : string) (reg_id : Z) : agent * list effect * bool :=
  match evd_dbus_agent_get_registered_object_data a obj reg_id with
  | inl v =>
      let d := object_data a obj in
      (with_object obj (with_reg_objs (reg_objs d) (delete reg_id (reg_objs_by_id d)) d) a,
       [evd_dbus_agent_free_reg_obj_data reg_id v], true)
  | inr _ => (a, [], false)
  end.

Definition evd_dbus_agent_get_registered_object_interface (a : agent) (obj : string) (reg_id : Z) : option (list Z) :=
  match evd_dbus_agent_get_registered_object_data a obj reg_id with inl v => Some (iface v) | inr _ => None end.

(** *** Invocations *)

(** [g_int64_hash] of what a cell holds. *)
Definition g_int64_hash (v : Z) : Z := u32 v.

Definition lookup_invocation (v : RegObjData) (s : Z) : option nat :=
  if serial v =? s then invocations v !! g_int64_hash s else None.

Definition set_reg_obj (a : agent) (obj : string) (reg_id : Z) (v : RegObjData) : agent :=
  let d := object_data a obj in
  with_object obj (with_reg_objs (reg_objs d) (<[reg_id := v]> (reg_objs_by_id d)) d) a.

Definition with_invocations (s : Z) (m : gmap Z nat) (v : RegObjData) : RegObjData :=
  mkRegObj (ro_conn_id v) (reg_str_id v) (ro_dbus_conn v) (obj_path v) (iface v) s m.

(** GDBus calls a method.  [None]: the assertion that the object is known fails, or what [reg_objs] has
    for it was freed. *)
Definition evd_dbus_agent_method_called (a : agent) (obj : string) (conn : nat) (path iface_name method_name : list Z)
    (params : GVariant) (invocation : nat) : option (agent * list effect) :=
  d ← evd_dbus_agent_get_object_data a obj;
  reg_id ← reg_objs d !! (conn, path, iface_name);
  v ← reg_objs_by_id d !! reg_id;
  if vtable d then
    let s := u64 (serial v + 1) in
    Some (set_reg_obj a obj reg_id (with_invocations s (<[g_int64_hash s := invocation]> (invocations v)) v),
          [MethodCall obj (ro_conn_id v) method_name reg_id params s])
  else Some (a, [ReturnError invocation]).

Definition evd_dbus_agent_get_method_invocation (a : agent) (obj : string) (reg_id s : Z) : option nat :=
  match evd_dbus_agent_get_registered_object_data a obj reg_id with
  | inl v => lookup_invocation v s
  | inr _ => None
  end.

Definition evd_dbus_agent_method_call_return (a : agent) (obj : string) (reg_id s : Z) (params : GVariant)
  : agent * list effect * bool :=
  match evd_dbus_agent_get_registered_object_data a obj reg_id with
  | inl v =>
      match lookup_invocation v s with
      | Some invocation =>
          (set_reg_obj a obj reg_id (with_invocations (serial v) (delete (g_int64_hash s) (invocations v)) v),
           [ReturnValue invocation params], true)
      | None => (a, [], false)
      end
  | inr _ => (a, [], false)
  end.

(** [answer]: the error of [g_dbus_connection_emit_signal], if any. *)
Definition evd_dbus_agent_emit_signal (a : agent) (obj : string) (reg_id : Z) (signal_name : list Z)
    (params : GVariant) (answer : option Z) : list effect * (unit + agent_error) :=
  match evd_dbus_agent_get_registered_object_data a obj reg_id with
  | inl v =>
      ([EmitSignal (ro_dbus_conn v) (obj_path v) (iface v) signal_name params],
       match answer with None => inl () | Some code => inr (ErrGDBus code) end)
  | inr e => ([], inr e)
  end.

(** ** Names *)

(** [owner_id]: the answer of [g_bus_own_name_on_connection]. *)
Definition evd_dbus_agent_own_name (a : agent) (obj : string) (conn_id owner_id : Z) : option (agent * Z) :=
  r ← evd_dbus_agent_get_connection a obj conn_id;
  match r with
  | inl (Some c) =>
      d ← evd_dbus_agent_get_object_data a obj;
      Some (with_object obj (with_names (<[owner_id := mkOwner conn_id c]> (owned_names d)) d) a, owner_id)
  | _ => Some (a, 0)
  end.

(** TRUE also for a number that is not in the table. *)
Definition evd_dbus_agent_unown_name (a : agent) (obj : string) (owner_id : Z) : agent * list effect * bool :=
  if owner_id <=? 0 then (a, [], false)
  else
    match evd_dbus_agent_get_object_data a obj with
    | None => (a, [], false)
    | Some d =>
        (with_object obj (with_names (delete owner_id (owned_names d)) d) a,
         match owned_names d !! owner_id with
         | Some _ => [evd_dbus_agent_free_name_owner_data owner_id] | None => [] end, true)
    end.

(** GDBus tells that a name was acquired or lost. *)
Definition evd_dbus_agent_name_acquired (a : agent) (obj : string) (owner_id : Z) : list effect :=
  match evd_dbus_agent_get_object_data a obj with
  | Some d =>
      match owned_names d !! owner_id with
      | Some v => if vtable d then [NameAcquired obj (no_conn_id v) owner_id] else []
      | None => []
      end
  | None => []
  end.

Definition evd_dbus_agent_name_lost (a : agent) (obj : string) (owner_id : Z) : list effect :=
  match evd_dbus_agent_get_object_data a obj with
  | Some d =>
      match owned_names d !! owner_id with
      | Some v => if vtable d then [NameLost obj (no_conn_id v) owner_id] else []
      | None => []
      end
  | None => []
  end.

End Agent.

End DBusAgent.
