(* ===== verification/DBusAgentSpec.v ===== *)
(** * The D-Bus agent: theorems

    The connections that are open are exactly those some object holds, whatever the objects do and
    whatever GDBus answers; what one object closes leaves the others as they were. *)
From S2P Require Import Prelude DBusAgent.
Import DBusAgent.

Module DBusAgentSpec.

Section Spec.
Context {GVariant : Type}.
Implicit Types (a : agent) (d : ObjectData).
Abbreviation effect := (@effect GVariant).

(** ** Who holds what *)

(** The connections of all objects, by object and number. *)
Definition bound a : gmap (string * Z) nat := map_uncurry (conns <$> objects a).

Lemma bound_lookup a o i : bound a !! (o, i) = objects a !! o ≫= λ d, conns d !! i.
Proof. unfold bound. rewrite lookup_map_uncurry, lookup_fmap. by destruct (objects a !! o). Qed.

Definition holders a (p : nat) : nat := size (filter (λ kv : (string * Z) * nat, kv.2 = p) (bound a)).

Definition times (p : nat) (ps : list nat) : nat := length (filter (λ q, q = p) ps).

Lemma times_cons p q ps : times p (q :: ps) = ((if decide (q = p) then 1 else 0) + times p ps)%nat.
Proof. unfold times. rewrite filter_cons. by case_decide. Qed.

(** What a change of one object does to the table. *)
Lemma bound_insert a obj d d' i p :
  objects a !! obj = Some d → conns d' = <[i := p]> (conns d) → bound (with_object obj d' a) = <[(obj, i) := p]> (bound a).
Proof.
  intros Hd Hc. apply map_eq. intros [o j]. rewrite bound_lookup. cbn [objects with_object].
  destruct (decide (o = obj)) as [->|Ho].
  - rewrite lookup_insert_eq. run_bind. rewrite Hc. destruct (decide (j = i)) as [->|Hj].
    + by rewrite !lookup_insert_eq.
    + rewrite !lookup_insert_ne by congruence. rewrite bound_lookup, Hd. done.
  - rewrite !lookup_insert_ne by congruence. by rewrite bound_lookup.
Qed.

Lemma bound_delete a obj d d' i :
  objects a !! obj = Some d → conns d' = delete i (conns d) → bound (with_object obj d' a) = delete (obj, i) (bound a).
Proof.
  intros Hd Hc. apply map_eq. intros [o j]. rewrite bound_lookup. cbn [objects with_object].
  destruct (decide (o = obj)) as [->|Ho].
  - rewrite lookup_insert_eq. run_bind. rewrite Hc. destruct (decide (j = i)) as [->|Hj].
    + by rewrite !lookup_delete_eq.
    + rewrite !lookup_delete_ne by congruence. rewrite bound_lookup, Hd. done.
  - rewrite lookup_insert_ne by congruence. rewrite lookup_delete_ne by congruence. by rewrite bound_lookup.
Qed.

Lemma bound_same a obj d' : default ∅ (conns <$> objects a !! obj) = conns d' → bound (with_object obj d' a) = bound a.
Proof.
  intros Hc. apply map_eq. intros [o j]. rewrite !bound_lookup. cbn [objects with_object].
  destruct (decide (o = obj)) as [->|Ho]; [|by rewrite lookup_insert_ne].
  rewrite lookup_insert_eq. run_bind. rewrite <-Hc. by destruct (objects a !! obj).
Qed.

Lemma holders_insert a obj d d' i p q :
  objects a !! obj = Some d → conns d !! i = None → conns d' = <[i := p]> (conns d) →
  holders (with_object obj d' a) q = (holders a q + (if decide (p = q) then 1 else 0))%nat.
Proof.
  intros Hd Hi Hc. unfold holders. rewrite (bound_insert a obj d d' i p) by done.
  assert (bound a !! (obj, i) = None) as Hn by (rewrite bound_lookup, Hd; exact Hi). case_decide.
  - rewrite map_filter_insert_True by done. rewrite map_size_insert_None; [lia|]. apply map_lookup_filter_None. by left.
  - rewrite map_filter_insert_False by done. rewrite delete_id by done. lia.
Qed.

Lemma holders_delete a obj d d' i p q :
  objects a !! obj = Some d → conns d !! i = Some p → conns d' = delete i (conns d) →
  holders a q = (holders (with_object obj d' a) q + (if decide (p = q) then 1 else 0))%nat.
Proof.
  intros Hd Hi Hc. unfold holders. rewrite (bound_delete a obj d d' i) by done.
  assert (bound a !! (obj, i) = Some p) as Hn by (rewrite bound_lookup, Hd; exact Hi).
  rewrite <-(insert_id (bound a) _ _ Hn) at 1. rewrite <-insert_delete_eq. case_decide.
  - rewrite map_filter_insert_True by done. rewrite map_size_insert_None; [lia|].
    apply map_lookup_filter_None. left. apply lookup_delete_eq.
  - rewrite map_filter_insert_False by done. rewrite delete_delete_eq. lia.
Qed.

(** An object that loses all its connections at once. *)
Lemma holders_empty a obj d d' q :
  objects a !! obj = Some d → conns d' = ∅ →
  holders a q = (holders (with_object obj d' a) q + times q (snd <$> map_to_list (conns d)))%nat.
Proof.
  intros Hd Hc. remember (conns d) as m eqn:Hm. revert a d Hd Hm.
  induction m as [|i p m Hi IH] using map_ind; intros a d Hd Hm.
  - rewrite map_to_list_empty. unfold holders. rewrite (bound_same a obj d'); [unfold times; simpl; lia|].
    rewrite Hd. simpl. by rewrite <-Hm, Hc.
  - set (d1 := with_conns m (conn_counter d) d).
    rewrite (holders_delete a obj d d1 i p q Hd).
    + rewrite (IH (with_object obj d1 a) d1); [|apply lookup_insert_eq|done].
      assert (with_object obj d' (with_object obj d1 a) = with_object obj d' a) as ->.
      { unfold with_object. cbn [objects conn_data next_conn_data conn_cache connecting]. by rewrite insert_insert_eq. }
      assert (times q (snd <$> map_to_list (<[i:=p]> m)) = ((if decide (p = q) then 1 else 0) + times q (snd <$> map_to_list m))%nat) as ->; [|lia].
      rewrite <-times_cons. unfold times. apply Permutation_length, filter_Permutation.
      change (p :: (snd <$> map_to_list m)) with (snd <$> ((i, p) :: map_to_list m)). by rewrite map_to_list_insert.
    + by rewrite <-Hm, lookup_insert_eq.
    + cbn [conns with_conns d1]. rewrite <-Hm. by rewrite delete_insert_id.
Qed.

Lemma holders_pos a k p : bound a !! k = Some p → (0 < holders a p)%nat.
Proof.
  intros Hk. unfold holders. destruct (size _) eqn:E; [|lia]. apply map_size_empty_inv in E.
  assert (filter (λ kv : (string * Z) * nat, kv.2 = p) (bound a) !! k = Some p) as Hf by by apply map_lookup_filter_Some.
  by rewrite E, lookup_empty in Hf.
Qed.

Lemma times_pos p ps : p ∈ ps → (0 < times p ps)%nat.
Proof.
  intros Hp. unfold times. destruct (filter (λ q, q = p) ps) eqn:E; [|simpl; lia].
  assert (p ∈ filter (λ q, q = p) ps) as Hf by by apply list_elem_of_filter. rewrite E in Hf. by apply not_elem_of_nil in Hf.
Qed.

(** ** The invariant *)

(** [ps] are references that are about to be given up; [opn] are the D-Bus connections that are open. *)
Record wf a (ps : list nat) (opn : gset nat) : Prop := {
  wf_counts p cd : conn_data a !! p = Some cd → ref_count cd = Z.of_nat (holders a p + times p ps);
  wf_bound k p : bound a !! k = Some p → ∃ cd c, conn_data a !! p = Some cd ∧ cd_conn cd = Some c;
  wf_given_up p : p ∈ ps → ∃ cd c, conn_data a !! p = Some cd ∧ cd_conn cd = Some c;
  wf_cache ad p : conn_cache a !! ad = Some p → ∃ cd c, conn_data a !! p = Some cd ∧ cd_conn cd = Some c ∧ addr cd = ad;
  wf_connecting p obj : connecting a !! p = Some obj →
    is_Some (objects a !! obj) ∧ ∃ cd, conn_data a !! p = Some cd ∧ cd_conn cd = None;
  wf_fresh p : is_Some (conn_data a !! p) → (p < next_conn_data a)%nat;
  wf_held p cd c : conn_data a !! p = Some cd → cd_conn cd = Some c → 0 < ref_count cd;
  wf_open c : c ∈ opn ↔ ∃ p cd, conn_data a !! p = Some cd ∧ cd_conn cd = Some c;
  wf_distinct p q cd cd' c :
    conn_data a !! p = Some cd → conn_data a !! q = Some cd' → cd_conn cd = Some c → cd_conn cd' = Some c → p = q
}.

Definition closes (e : effect) : option nat := match e with CloseDBus c => Some c | _ => None end.
Definition closed (effs : list effect) : gset nat := list_to_set (omap closes effs).

Lemma closed_app e1 e2 : closed (e1 ++ e2) = closed e1 ∪ closed e2.
Proof. unfold closed. by rewrite omap_app, list_to_set_app_L. Qed.

Lemma closed_names m : closed (freed_names m) = ∅.
Proof. unfold closed, freed_names. induction (map_to_list m) as [|[] l IH]; [done|]. by simpl. Qed.

Lemma closed_reg_objs m : closed (freed_reg_objs m) = ∅.
Proof. unfold closed, freed_reg_objs. induction (map_to_list m) as [|[] l IH]; [done|]. by simpl. Qed.

(** Only the connections of an object and the shared data matter. *)
Lemma wf_same a a' ps opn :
  bound a' = bound a → conn_data a' = conn_data a → next_conn_data a' = next_conn_data a → conn_cache a' = conn_cache a →
  connecting a' = connecting a → (∀ obj, is_Some (objects a !! obj) → is_Some (objects a' !! obj)) →
  wf a ps opn → wf a' ps opn.
Proof.
  intros Hb Hc Hn Hca Hco Ho [W1 W2 W3 W4 W5 W6 W7 W8 W9].
  split; unfold holders; rewrite ?Hb, ?Hc, ?Hn, ?Hca, ?Hco; try done.
  intros p obj Hp. destruct (W5 p obj Hp) as [? ?]. split; [by apply Ho|done].
Qed.

Lemma wf_object a obj d ps opn :
  default ∅ (conns <$> objects a !! obj) = conns d → wf a ps opn → wf (with_object obj d a) ps opn.
Proof.
  intros Hd. apply wf_same; try done; [by apply bound_same|]. intros o Ho. cbn [objects with_object].
  destruct (decide (o = obj)) as [->|]; [rewrite lookup_insert_eq|rewrite lookup_insert_ne by done]; by eauto.
Qed.

(** A count that changes with what it counts. *)
Lemma recounted a p cd cd' ps opn :
  wf a (p :: ps) opn → conn_data a !! p = Some cd → cd_conn cd' = cd_conn cd → addr cd' = addr cd →
  ref_count cd' = Z.of_nat (holders a p + times p ps) → 0 < ref_count cd' →
  wf (with_conn_data (<[p := cd']> (conn_data a)) a) ps (opn ∖ ∅).
Proof.
  intros W Hp Hcc Had Hn Hpos. rewrite difference_empty_L.
  assert (∀ q cd1, <[p:=cd']> (conn_data a) !! q = Some cd1 →
    ∃ cd2, conn_data a !! q = Some cd2 ∧ cd_conn cd2 = cd_conn cd1 ∧ addr cd2 = addr cd1) as Hback.
  { intros q cd1. rewrite lookup_insert_Some. intros [[<- <-]|[Hne Hl]]; [by exists cd|by exists cd1]. }
  assert (∀ q cd1, conn_data a !! q = Some cd1 →
    ∃ cd2, <[p:=cd']> (conn_data a) !! q = Some cd2 ∧ cd_conn cd2 = cd_conn cd1 ∧ addr cd2 = addr cd1) as Hfwd.
  { intros q cd1 Hq. destruct (decide (q = p)) as [->|Hne].
    - rewrite lookup_insert_eq. exists cd'. assert (cd1 = cd) as -> by congruence. done.
    - rewrite lookup_insert_ne by done. by exists cd1. }
  split; cbn [conn_data conn_cache connecting next_conn_data objects with_conn_data].
  - intros q cd1. rewrite lookup_insert_Some. intros [[<- <-]|[Hne Hl]]; [done|].
    rewrite (wf_counts _ _ _ W q cd1 Hl), times_cons, decide_False by done. done.
  - intros k q Hk. destruct (wf_bound _ _ _ W k q Hk) as (cd1 & c' & Hl & E).
    destruct (Hfwd q cd1 Hl) as (cd2 & Hl2 & E2 & _). exists cd2, c'. by rewrite E2.
  - intros q Hq. destruct (wf_given_up _ _ _ W q) as (cd1 & c' & Hl & E); [set_solver|].
    destruct (Hfwd q cd1 Hl) as (cd2 & Hl2 & E2 & _). exists cd2, c'. by rewrite E2.
  - intros ad q Hq. destruct (wf_cache _ _ _ W ad q Hq) as (cd1 & c' & Hl & E & Ea).
    destruct (Hfwd q cd1 Hl) as (cd2 & Hl2 & E2 & Ea2). exists cd2, c'. by rewrite E2, Ea2.
  - intros q obj Hq. destruct (wf_connecting _ _ _ W q obj Hq) as (Ho & cd1 & Hl & E). split; [done|].
    destruct (Hfwd q cd1 Hl) as (cd2 & Hl2 & E2 & _). exists cd2. by rewrite E2.
  - intros q [cd1 Hq]. destruct (Hback q cd1 Hq) as (cd2 & Hl & _). apply (wf_fresh _ _ _ W). by eauto.
  - intros q cd1 c'. rewrite lookup_insert_Some. intros [[<- <-]|[Hne Hl]]; [done|]. by apply (wf_held _ _ _ W q).
  - intros c'. rewrite (wf_open _ _ _ W). split; intros (q & cd1 & Hl & E).
    + destruct (Hfwd q cd1 Hl) as (cd2 & Hl2 & E2 & _). exists q, cd2. by rewrite E2.
    + destruct (Hback q cd1 Hl) as (cd2 & Hl2 & E2 & _). exists q, cd2. by rewrite E2.
  - intros q q' cd1 cd2 c' Hq Hq' E1 E2. destruct (Hback q cd1 Hq) as (cd3 & Hl3 & E3 & _).
    destruct (Hback q' cd2 Hq') as (cd4 & Hl4 & E4 & _). apply (wf_distinct _ _ _ W q q' cd3 cd4 c'); congruence.
Qed.

(** ** Giving up a reference *)

Lemma unref_wf a p ps opn :
  wf a (p :: ps) opn →
  ∃ a' effs, evd_dbus_agent_conn_data_unref a p = Some (a', effs) ∧ objects a' = objects a ∧
    connecting a' = connecting a ∧ next_conn_data a' = next_conn_data a ∧ wf a' ps (opn ∖ closed effs).
Proof.
  intros W. destruct (wf_given_up _ _ _ W p) as (cd & c & Hp & Hcd); [set_solver|].
  pose proof (wf_counts _ _ _ W p cd Hp) as Hc. rewrite times_cons, decide_True in Hc by done.
  unfold evd_dbus_agent_conn_data_unref. rewrite Hp. run_bind. destruct (Z.leb_spec (ref_count cd - 1) 0) as [Hz|Hz].
  - rewrite Hcd. do 2 eexists. split; [done|]. do 3 (split; [done|]).
    assert (holders a p = 0 ∧ times p ps = 0)%nat as [Hh Ht] by lia.
    assert (∀ q cd', delete p (conn_data a) !! q = Some cd' → q ≠ p ∧ conn_data a !! q = Some cd') as Hdel.
    { intros q cd'. by rewrite lookup_delete_Some; intros [? ?]. }
    assert (∀ q cd', q ≠ p → conn_data a !! q = Some cd' → delete p (conn_data a) !! q = Some cd') as Hkeep.
    { intros q cd' ? ?. by rewrite lookup_delete_ne. }
    split; cbn [conn_data conn_cache connecting next_conn_data objects with_conn_data with_cache].
    + intros q cd' [Hq Hl]%Hdel. rewrite (wf_counts _ _ _ W q cd' Hl), times_cons, decide_False by done. done.
    + intros k q Hk. destruct (wf_bound _ _ _ W k q Hk) as (cd' & c' & Hl & Hcc). exists cd', c'. split; [|done].
      apply Hkeep; [|done]. intros ->. pose proof (holders_pos a k p Hk). lia.
    + intros q Hq. destruct (wf_given_up _ _ _ W q) as (cd' & c' & Hl & Hcc); [set_solver|]. exists cd', c'.
      split; [|done]. apply Hkeep; [|done]. intros ->. pose proof (times_pos p ps Hq). lia.
    + intros ad q. rewrite lookup_delete_Some. intros [Had Hq].
      destruct (wf_cache _ _ _ W ad q Hq) as (cd' & c' & Hl & Hcc & Ha). exists cd', c'. split; [|done].
      apply Hkeep; [|done]. intros ->. congruence.
    + intros q obj Hq. destruct (wf_connecting _ _ _ W q obj Hq) as (Ho & cd' & Hl & Hn). split; [done|]. exists cd'.
      split; [|done]. apply Hkeep; [|done]. intros ->. congruence.
    + intros q [cd' [Hq Hl]%Hdel]. apply (wf_fresh _ _ _ W). by eauto.
    + intros q cd' c' [Hq Hl]%Hdel. by apply (wf_held _ _ _ W q).
    + intros c'. unfold closed. cbn [omap list_omap closes list_to_set foldr]. rewrite elem_of_difference, (wf_open _ _ _ W).
      split.
      * intros [(q & cd' & Hl & Hcc) Hn]. exists q, cd'. split; [|done]. apply Hkeep; [|done]. intros ->. set_solver.
      * intros (q & cd' & [Hq Hl]%Hdel & Hcc). split; [by eauto|]. intros Hin.
        assert (c' = c) as -> by set_solver. by apply Hq, (wf_distinct _ _ _ W q p cd' cd c).
    + intros q q' cd1 cd2 c' [Hq Hl]%Hdel [Hq' Hl']%Hdel. by apply (wf_distinct _ _ _ W q q').
  - do 2 eexists. split; [done|]. do 3 (split; [done|]).
    set (cd0 := mkConnData (cd_conn cd) (ref_count cd - 1) (reuse cd) (addr cd)).
    apply (recounted a p cd cd0 ps opn W Hp eq_refl eq_refl); cbn [cd0 ref_count]; lia.
Qed.

(** Freeing a connection of an object: its tables change, and no other object does. *)
Lemma free_wf a obj d p ps opn :
  wf a (p :: ps) opn → objects a !! obj = Some d →
  ∃ a' effs d', evd_dbus_agent_free_obj_conn_data a obj p = Some (a', effs) ∧
    wf a' ps (opn ∖ closed effs) ∧ objects a' = <[obj := d']> (objects a) ∧ conns d' = conns d ∧ connecting a' = connecting a.
Proof.
  intros W Hd. destruct (wf_given_up _ _ _ W p) as (cd & c & Hp & Hcd); [set_solver|].
  unfold evd_dbus_agent_free_obj_conn_data, evd_dbus_agent_get_object_data. rewrite Hd. run_bind. rewrite Hp. run_bind.
  rewrite Hcd. run_bind. cbn [foreach_remove]. set (d' := with_reg_objs _ _ _).
  assert (conns d' = conns d) as Hc by done. clearbody d'.
  apply (wf_object a obj d') in W; [|by rewrite Hd].
  destruct (unref_wf _ _ _ _ W) as (a' & effs & -> & Ho & Hco & _ & W'). run_bind.
  do 3 eexists. split; [done|]. rewrite !closed_app, closed_names, closed_reg_objs, !(left_id_L ∅ (∪)).
  split; [exact W'|]. split; [by rewrite Ho|]. split; [exact Hc|exact Hco].
Qed.

Lemma free_conns_wf obj ps : ∀ a d opn,
  wf a ps opn → objects a !! obj = Some d →
  ∃ a' effs d', free_conns a obj ps = Some (a', effs) ∧ wf a' [] (opn ∖ closed effs) ∧
    objects a' = <[obj := d']> (objects a) ∧ conns d' = conns d ∧ connecting a' = connecting a.
Proof.
  induction ps as [|p ps IH]; intros a d opn W Hd; cbn [free_conns].
  - exists a, [], d. split; [done|]. unfold closed. simpl. rewrite difference_empty_L. rewrite insert_id; done.
  - destruct (free_wf a obj d p ps opn W Hd) as (a1 & e1 & d1 & -> & W1 & Ho1 & Hc1 & Hk1). run_bind.
    destruct (IH a1 d1 (opn ∖ closed e1) W1) as (a2 & e2 & d2 & -> & W2 & Ho2 & Hc2 & Hk2).
    { by rewrite Ho1, lookup_insert_eq. }
    run_bind. exists a2, (e1 ++ e2), d2. split; [done|]. rewrite closed_app, <-difference_difference_l_L.
    split; [done|]. rewrite Ho2, Ho1, insert_insert_eq. split; [done|]. split; congruence.
Qed.

Lemma remove_wf a obj d i p opn :
  wf a [] opn → objects a !! obj = Some d → conns d !! i = Some p →
  ∃ a' effs d', remove_conn a obj i = Some (a', effs) ∧ wf a' [] (opn ∖ closed effs) ∧
    objects a' = <[obj := d']> (objects a) ∧ conns d' = delete i (conns d) ∧ connecting a' = connecting a.
Proof.
  intros W Hd Hi. unfold remove_conn, evd_dbus_agent_get_object_data. rewrite Hd. run_bind. rewrite Hi.
  set (d1 := with_conns _ _ d). set (a1 := with_object obj d1 a).
  assert (wf a1 [p] opn) as W1.
  { destruct W as [W1 W2 W3 W4 W5 W6 W7 W8 W9]. split; try done.
    - intros q cd Hq. rewrite (W1 q cd Hq). rewrite (holders_delete a obj d d1 i p q Hd Hi eq_refl). fold a1.
      rewrite times_cons. unfold times. simpl. case_decide; simpl; lia.
    - intros k q. subst a1. rewrite (bound_delete a obj d d1 i Hd eq_refl), lookup_delete_Some. intros [_ ?]. by apply (W2 k).
    - intros q ->%list_elem_of_singleton. apply (W2 (obj, i)). by rewrite bound_lookup, Hd.
    - intros q o Hq. destruct (W5 q o Hq) as [Ho ?]. split; [|done]. cbn [a1 objects with_object].
      destruct (decide (o = obj)) as [->|]; [rewrite lookup_insert_eq|rewrite lookup_insert_ne by done]; eauto. }
  destruct (free_wf a1 obj d1 p [] opn W1) as (a' & effs & d' & E & W' & Ho & Hc & Hk); [apply lookup_insert_eq|].
  exists a', effs, d'. split; [done|]. split; [done|]. split; [|done]. rewrite Ho. cbn [a1 objects with_object].
  by rewrite insert_insert_eq.
Qed.

Lemma destroy_wf a obj d opn :
  wf a [] opn → objects a !! obj = Some d → (∀ p, connecting a !! p ≠ Some obj) →
  ∃ a' effs, evd_dbus_agent_on_object_destroyed a obj = Some (a', effs) ∧ wf a' [] (opn ∖ closed effs) ∧
    objects a' = delete obj (objects a).
Proof.
  intros W Hd Hk. unfold evd_dbus_agent_on_object_destroyed, evd_dbus_agent_get_object_data. rewrite Hd. run_bind.
  set (ps := snd <$> map_to_list (conns d)). set (d1 := with_conns ∅ (conn_counter d) d). set (a1 := with_object obj d1 a).
  assert (∀ k q, bound a1 !! k = Some q → bound a !! k = Some q) as Hsub.
  { intros [o j] q. rewrite !bound_lookup. cbn [a1 objects with_object]. destruct (decide (o = obj)) as [->|].
    - rewrite lookup_insert_eq. run_bind. cbn [d1 conns with_conns]. by rewrite lookup_empty.
    - by rewrite lookup_insert_ne. }
  assert (wf a1 ps opn) as W1.
  { destruct W as [W1 W2 W3 W4 W5 W6 W7 W8 W9]. split; try done.
    - intros q cd Hq. rewrite (W1 q cd Hq). rewrite (holders_empty a obj d d1 q Hd eq_refl). fold a1 ps. change (times q []) with O. lia.
    - intros k q Hq. by apply (W2 k), Hsub.
    - intros q Hq. subst ps. apply list_elem_of_fmap in Hq as ([i q'] & -> & Hq). apply elem_of_map_to_list in Hq.
      apply (W2 (obj, i)). by rewrite bound_lookup, Hd.
    - intros q o Hq. destruct (W5 q o Hq) as [Ho ?]. split; [|done]. cbn [a1 objects with_object].
      destruct (decide (o = obj)) as [->|]; [rewrite lookup_insert_eq|rewrite lookup_insert_ne by done]; eauto. }
  destruct (free_conns_wf obj ps a1 d1 opn W1) as (a2 & e2 & d2 & -> & W2 & Ho2 & Hc2 & Hk2); [apply lookup_insert_eq|].
  run_bind. rewrite Ho2, lookup_insert_eq. run_bind. do 2 eexists. split; [done|].
  rewrite !closed_app, closed_names, closed_reg_objs, !(right_id_L ∅ (∪)).
  assert (delete obj (objects a2) = delete obj (objects a)) as Hdel.
  { rewrite Ho2, delete_insert_eq. cbn [a1 objects with_object]. by rewrite delete_insert_eq. }
  split; [|by cbn [with_objects objects]; rewrite <-Ho2].
  assert (bound (with_objects (delete obj (objects a2)) a2) = bound a2) as Hb.
  { apply map_eq. intros [o j]. rewrite !bound_lookup. cbn [with_objects objects]. destruct (decide (o = obj)) as [->|].
    - rewrite lookup_delete_eq, Ho2, lookup_insert_eq. run_bind. rewrite Hc2. cbn [d1 conns with_conns]. by rewrite lookup_empty.
    - by rewrite lookup_delete_ne. }
  rewrite <-Ho2. destruct W2 as [V1 V2 V3 V4 V5 V6 V7 V8 V9].
  split; unfold holders; rewrite ?Hb; try done. intros q o Hq. destruct (V5 q o Hq) as [Ho ?]. split; [|done].
  cbn [with_objects objects]. rewrite lookup_delete_ne; [done|]. intros ->. cbn in Hq. rewrite Hk2 in Hq. by apply (Hk q).
Qed.

(** ** Getting a reference *)

(** Shared data that gets one more holder, and its connection if it had none. *)
Lemma bound_wf a obj d i n p cd cd' c opn :
  wf a [] opn → objects a !! obj = Some d → conns d !! i = None → conn_data a !! p = Some cd →
  cd_conn cd' = Some c → addr cd' = addr cd → ref_count cd' = ref_count cd + 1 →
  cd_conn cd = Some c ∨ (cd_conn cd = None ∧ c ∉ opn) →
  wf (mkAgent (<[obj := with_conns (<[i := p]> (conns d)) n d]> (objects a)) (<[p := cd']> (conn_data a))
        (next_conn_data a) (conn_cache a) (delete p (connecting a))) [] ({[c]} ∪ opn).
Proof.
  intros W Hd Hi Hp Hc' Had Hn Hcd. set (d' := with_conns _ _ d). set (a' := mkAgent _ _ _ _ _).
  pose proof (wf_counts _ _ _ W p cd Hp) as Hcount. change (times p []) with O in Hcount.
  assert (∀ q, holders a' q = (holders a q + (if decide (p = q) then 1 else 0))%nat) as Hh.
  { intros q. change (holders a' q) with (holders (with_object obj d' a) q). by apply (holders_insert a obj d d' i p q). }
  assert (∀ k q, bound a' !! k = Some q → q = p ∨ bound a !! k = Some q) as Hb.
  { intros [o j] q. change (bound a') with (bound (with_object obj d' a)). rewrite (bound_insert a obj d d' i p) by done.
    rewrite lookup_insert_Some. by intros [[_ <-]|[_ ?]]; [left|right]. }
  assert (∀ q cd1, conn_data a !! q = Some cd1 → cd_conn cd1 = Some c → q = p) as Hmine.
  { intros q cd1 Hq E. destruct Hcd as [Hcd|[_ Hnew]]; [by apply (wf_distinct _ _ _ W q p cd1 cd c)|].
    destruct Hnew. apply (wf_open _ _ _ W). eauto. }
  assert (∀ q cd1, conn_data a !! q = Some cd1 → is_Some (cd_conn cd1) →
    ∃ cd2, <[p:=cd']> (conn_data a) !! q = Some cd2 ∧ cd_conn cd2 = cd_conn cd1 ∧ addr cd2 = addr cd1) as Hfwd.
  { intros q cd1 Hq [c1 E]. destruct (decide (q = p)) as [->|Hne].
    - rewrite lookup_insert_eq. exists cd'. assert (cd1 = cd) as -> by congruence. split; [done|]. split; [|done].
      destruct Hcd as [Hcd|[Hcd _]]; congruence.
    - rewrite lookup_insert_ne by done. by exists cd1. }
  assert (<[p:=cd']> (conn_data a) !! p = Some cd') as Hnow by apply lookup_insert_eq.
  split; cbn [a' conn_data conn_cache connecting next_conn_data objects].
  - intros q cd1. rewrite Hh, lookup_insert_Some. change (times q []) with O. intros [[<- <-]|[Hne Hl]].
    + rewrite decide_True by done. lia.
    + rewrite decide_False by done. rewrite (wf_counts _ _ _ W q cd1 Hl). change (times q []) with O. lia.
  - intros k q Hq. destruct (Hb k q Hq) as [->|Hq0]; [by exists cd', c|].
    destruct (wf_bound _ _ _ W k q Hq0) as (cd1 & c1 & Hl & E). destruct (Hfwd q cd1 Hl) as (cd2 & Hl2 & E2 & _); [by rewrite E|].
    exists cd2, c1. by rewrite E2.
  - by intros q ?%not_elem_of_nil.
  - intros ad q Hq. destruct (wf_cache _ _ _ W ad q Hq) as (cd1 & c1 & Hl & E & Ea).
    destruct (Hfwd q cd1 Hl) as (cd2 & Hl2 & E2 & Ea2); [by rewrite E|]. exists cd2, c1. by rewrite E2, Ea2.
  - intros q o. rewrite lookup_delete_Some. intros [Hne Hq]. destruct (wf_connecting _ _ _ W q o Hq) as (Ho & cd1 & Hl & E).
    split; [|exists cd1; by rewrite lookup_insert_ne].
    destruct (decide (o = obj)) as [->|]; [rewrite lookup_insert_eq|rewrite lookup_insert_ne by done]; eauto.
  - intros q [cd1 Hq]. apply (wf_fresh _ _ _ W). destruct (decide (q = p)) as [->|]; [by eauto|].
    rewrite lookup_insert_ne in Hq by done. by eauto.
  - intros q cd1 c1. rewrite lookup_insert_Some. intros [[<- <-]|[Hne Hl]] E; [lia|]. by apply (wf_held _ _ _ W q cd1 c1).
  - intros c1. rewrite elem_of_union, elem_of_singleton, (wf_open _ _ _ W). split.
    + intros [->|(q & cd1 & Hl & E)]; [by exists p, cd'|].
      destruct (Hfwd q cd1 Hl) as (cd2 & Hl2 & E2 & _); [by rewrite E|]. exists q, cd2. by rewrite E2.
    + intros (q & cd1 & Hl & E). destruct (decide (q = p)) as [->|]; [left; congruence|].
      rewrite lookup_insert_ne in Hl by done. right. eauto.
  - intros q q' cd1 cd2 c1. rewrite !lookup_insert_Some.
    intros [[<- <-]|[Hne Hl]] [[<- <-]|[Hne' Hl']] E1 E2; try done.
    + assert (c1 = c) as -> by congruence. symmetry. by apply (Hmine q' cd2).
    + assert (c1 = c) as -> by congruence. by apply (Hmine q cd1).
    + by apply (wf_distinct _ _ _ W q q' cd1 cd2 c1).
Qed.

(** A connection that goes on being looked for. *)
Lemma allocated_wf a obj ad r opn :
  wf a [] opn → is_Some (objects a !! obj) →
  wf (mkAgent (objects a) (<[next_conn_data a := evd_dbus_agent_conn_data_new ad r]> (conn_data a)) (S (next_conn_data a))
        (conn_cache a) (<[next_conn_data a := obj]> (connecting a))) [] opn.
Proof.
  intros W Ho. set (p := next_conn_data a). set (a' := mkAgent _ _ _ _ _).
  assert (conn_data a !! p = None) as Hp.
  { destruct (conn_data a !! p) eqn:E; [|done]. pose proof (wf_fresh _ _ _ W p (mk_is_Some _ _ E)). subst p. lia. }
  assert (∀ q cd, conn_data a !! q = Some cd → <[p := evd_dbus_agent_conn_data_new ad r]> (conn_data a) !! q = Some cd) as Hfwd.
  { intros q cd Hq. rewrite lookup_insert_ne; congruence. }
  assert (holders a p = O) as Hh.
  { unfold holders. apply map_size_empty_iff, map_empty. intros k. apply map_lookup_filter_None. right.
    intros q Hk. cbn. intros ->. destruct (wf_bound _ _ _ W k p Hk) as (? & ? & ? & _). congruence. }
  split; cbn [a' conn_data conn_cache connecting next_conn_data objects].
  - intros q cd. change (holders a' q) with (holders a q). rewrite lookup_insert_Some. change (times q []) with O.
    intros [[<- <-]|[Hne Hl]]; [by rewrite Hh|]. by rewrite (wf_counts _ _ _ W q cd Hl).
  - intros k q Hk. destruct (wf_bound _ _ _ W k q Hk) as (cd & c & ? & ?). exists cd, c. split; [by apply Hfwd|done].
  - by intros q ?%not_elem_of_nil.
  - intros ad' q Hk. destruct (wf_cache _ _ _ W ad' q Hk) as (cd & c & ? & ? & ?). exists cd, c. split; [by apply Hfwd|done].
  - intros q o. rewrite lookup_insert_Some. intros [[<- <-]|[Hne Hq]].
    + split; [done|]. eexists. rewrite lookup_insert_eq. done.
    + destruct (wf_connecting _ _ _ W q o Hq) as (? & cd & ? & ?). split; [done|]. exists cd. split; [by apply Hfwd|done].
  - intros q [cd Hq]. destruct (decide (q = p)) as [->|]; [subst p; lia|]. rewrite lookup_insert_ne in Hq by done.
    pose proof (wf_fresh _ _ _ W q (mk_is_Some _ _ Hq)). lia.
  - intros q cd c. rewrite lookup_insert_Some. intros [[<- <-]|[Hne Hl]]; [done|]. by apply (wf_held _ _ _ W q).
  - intros c. rewrite (wf_open _ _ _ W). split; intros (q & cd & Hl & E).
    + exists q, cd. split; [by apply Hfwd|done].
    + rewrite lookup_insert_Some in Hl. destruct Hl as [[<- <-]|[Hne Hl]]; [done|eauto].
  - intros q q' cd cd' c. rewrite !lookup_insert_Some. intros [[<- <-]|[? ?]] [[<- <-]|[? ?]] ? ?; try done.
    by apply (wf_distinct _ _ _ W q q' cd cd' c).
Qed.

(** ** The operations on connections *)

Lemma object_data_conns a obj : default ∅ (conns <$> objects a !! obj) = conns (object_data a obj).
Proof. unfold object_data, evd_dbus_agent_get_object_data. by destruct (objects a !! obj). Qed.

Lemma new_connection_wf a obj address r a' st effs opn :
  wf a [] opn → evd_dbus_agent_new_connection (GVariant := GVariant) a obj address r = Some (a', st, effs) →
  wf a' [] opn ∧ closed effs = ∅.
Proof.
  intros W. unfold evd_dbus_agent_new_connection. set (d := object_data a obj). set (a0 := with_object obj d a).
  assert (wf a0 [] opn) as W0 by (apply wf_object; [by apply object_data_conns|done]).
  assert (objects a0 !! obj = Some d) as Hd by apply lookup_insert_eq.
  set (address' := default address _). clearbody address' d.
  destruct (if r then _ else None) as [p|] eqn:Hp.
  - destruct r; [|done]. destruct (wf_cache _ _ _ W0 address' p Hp) as (cd & c & Hl & Hcd & _).
    unfold evd_dbus_agent_bind_connection_to_object, evd_dbus_agent_get_object_data, evd_dbus_agent_conn_data_ref.
    rewrite Hd. run_bind. rewrite Hl. run_bind. destruct (conns d !! _) eqn:Hi; [done|]. run_bind. intros [= <- <- <-].
    split; [|done]. replace opn with ({[c]} ∪ opn).
    2:{ assert (c ∈ opn) by (apply (wf_open _ _ _ W0); eauto). set_solver. }
    assert (connecting a0 !! p = None) as Hk.
    { destruct (connecting a0 !! p) as [o|] eqn:E; [|done].
      destruct (wf_connecting _ _ _ W0 p o E) as (_ & cd1 & Hl1 & E1). congruence. }
    pose proof (bound_wf a0 obj d (u32 (conn_counter d + 1)) (u32 (conn_counter d + 1)) p cd
      (mkConnData (cd_conn cd) (ref_count cd + 1) (reuse cd) (addr cd)) c opn W0 Hd Hi Hl Hcd eq_refl eq_refl (or_introl Hcd)) as B.
    rewrite delete_id in B by done. exact B.
  - intros [= <- <- <-]. split; [|done]. apply (allocated_wf a0 obj address' r opn W0). eauto.
Qed.

(** A connection that could not be made. *)
Lemma failed_wf a p obj opn :
  wf a [] opn → connecting a !! p = Some obj →
  ∃ a' effs, evd_dbus_agent_conn_data_unref (GVariant := GVariant) (with_connecting (delete p (connecting a)) a) p = Some (a', effs) ∧
    closed effs = ∅ ∧ wf a' [] opn.
Proof.
  intros W Hp. destruct (wf_connecting _ _ _ W p obj Hp) as (Ho & cd & Hl & Hn).
  assert (holders a p = O) as Hh.
  { unfold holders. apply map_size_empty_iff, map_empty. intros k. apply map_lookup_filter_None. right.
    intros q Hk. cbn. intros ->. destruct (wf_bound _ _ _ W k p Hk) as (? & ? & ? & ?). congruence. }
  assert (ref_count cd = 0) as Hc by (rewrite (wf_counts _ _ _ W p cd Hl), Hh; done).
  unfold evd_dbus_agent_conn_data_unref. cbn [conn_data with_connecting]. rewrite Hl. run_bind. rewrite Hc, Hn.
  do 2 eexists. split; [done|]. split; [done|].
  assert (∀ q cd', delete p (conn_data a) !! q = Some cd' → q ≠ p ∧ conn_data a !! q = Some cd') as Hdel.
  { intros q cd'. by rewrite lookup_delete_Some; intros [? ?]. }
  assert (∀ q cd', conn_data a !! q = Some cd' → is_Some (cd_conn cd') → delete p (conn_data a) !! q = Some cd') as Hkeep.
  { intros q cd' Hq [c E]. rewrite lookup_delete_ne; congruence. }
  split; cbn [conn_data conn_cache connecting next_conn_data objects with_conn_data with_cache with_connecting].
  - intros q cd' [_ Hq]%Hdel. by apply (wf_counts _ _ _ W q cd').
  - intros k q Hk. destruct (wf_bound _ _ _ W k q Hk) as (cd' & c & ? & E). exists cd', c. split; [apply Hkeep; [done|by rewrite E]|done].
  - by intros q ?%not_elem_of_nil.
  - intros ad q. rewrite lookup_delete_Some. intros [_ Hk]. destruct (wf_cache _ _ _ W ad q Hk) as (cd' & c & ? & E & ?).
    exists cd', c. split; [apply Hkeep; [done|by rewrite E]|done].
  - intros q o. rewrite lookup_delete_Some. intros [Hne Hq]. destruct (wf_connecting _ _ _ W q o Hq) as (? & cd' & ? & ?).
    split; [done|]. exists cd'. by rewrite lookup_delete_ne.
  - intros q [cd' [_ Hq]%Hdel]. apply (wf_fresh _ _ _ W). eauto.
  - intros q cd' c [_ Hq]%Hdel. by apply (wf_held _ _ _ W q).
  - intros c. rewrite (wf_open _ _ _ W). split; intros (q & cd' & Hq & E).
    + exists q, cd'. split; [apply Hkeep; [done|by rewrite E]|done].
    + apply Hdel in Hq as [_ Hq]. eauto.
  - intros q q' cd1 cd2 c [_ H1]%Hdel [_ H2]%Hdel. by apply (wf_distinct _ _ _ W q q').
Qed.

Lemma cached_wf a p cd c opn :
  wf a [] opn → conn_data a !! p = Some cd → cd_conn cd = Some c → wf (with_cache (<[addr cd := p]> (conn_cache a)) a) [] opn.
Proof.
  intros [W1 W2 W3 W4 W5 W6 W7 W8 W9] Hp Hc. split; try done. intros ad q. cbn [with_cache conn_cache].
  rewrite lookup_insert_Some. intros [[<- <-]|[_ Hq]]; [by exists cd, c|by apply W4].
Qed.

Lemma connected_wf a p c a' obj r effs opn :
  wf a [] opn → (∀ x, c = Some x → x ∉ opn) →
  evd_dbus_agent_on_new_dbus_connection (GVariant := GVariant) a p c = Some (a', obj, r, effs) →
  wf a' [] (match c with Some x => {[x]} ∪ opn | None => opn end) ∧ closed effs = ∅.
Proof.
  intros W Hnew. unfold evd_dbus_agent_on_new_dbus_connection.
  destruct (connecting a !! p) as [o|] eqn:Hp; [|done]. run_bind. destruct c as [x|].
  - destruct (wf_connecting _ _ _ W p o Hp) as (_ & cd & Hl & Hn). cbn [conn_data with_connecting]. rewrite Hl. run_bind.
    unfold evd_dbus_agent_bind_connection_to_object, evd_dbus_agent_get_object_data, evd_dbus_agent_conn_data_ref.
    cbn [objects with_conn_data with_connecting conn_data]. destruct (objects a !! o) as [d|] eqn:Hd; [|done]. run_bind.
    rewrite lookup_insert_eq. run_bind. destruct (conns d !! _) as [|] eqn:Hi; [done|]. run_bind.
    rewrite insert_insert_eq. cbn [cd_conn ref_count reuse addr].
    set (cd' := mkConnData (Some x) _ _ _). set (a1 := with_object _ _ _).
    assert (wf a1 [] ({[x]} ∪ opn)) as W1.
    { apply (bound_wf a o d _ _ p cd cd' x opn W Hd Hi Hl); try done. right. split; [done|by apply Hnew]. }
    destruct (reuse cd).
    + unfold evd_dbus_agent_cache_conn_in_global_cache. cbn [a1 conn_data with_object with_conn_data with_connecting].
      rewrite lookup_insert_eq. run_bind. intros [= <- <- <- <-]. split; [|done].
      apply (cached_wf a1 p cd' x); [done|apply lookup_insert_eq|done].
    + intros [= <- <- <- <-]. by split.
  - destruct (failed_wf a p o opn W Hp) as (a1 & e1 & E & Ec & W1). rewrite E. run_bind. intros [= <- <- <- <-]. by split.
Qed.

Lemma hangup_nothing a obj conn :
  is_Some (objects a !! obj) → evd_dbus_agent_on_object_connection_closed (GVariant := GVariant) a obj conn = Some (a, []).
Proof.
  intros [d Hd]. unfold evd_dbus_agent_on_object_connection_closed, evd_dbus_agent_get_object_data. rewrite Hd. run_bind.
  destruct (list_find _ _) as [[n [key v]]|] eqn:E; [|done]. by apply list_find_Some in E as (_ & ? & _).
Qed.

(** ** Executions *)

Inductive operation :=
  | SetVtable (obj : string)
  | Alias (obj : string) (address alias : list Z)
  | New (obj : string) (address : list Z) (r : bool)
  | Connected (p : nat) (c : option nat)                     (* GDBus answers *)
  | Close (obj : string) (conn_id : Z)
  | Hangup (obj : string) (conn : nat)
  | Destroy (obj : string)
  | ProxyMade (obj : string) (conn_id flags : Z) (conn : nat) (px : option nat)
  | CloseProxy (obj : string) (proxy_id : Z)
  | Register (obj : string) (conn_id : Z) (path iface_name : list Z) (reg_id : Z)
  | Unregister (obj : string) (reg_id : Z)
  | Called (obj : string) (conn : nat) (path iface_name method_name : list Z) (params : GVariant) (invocation : nat)
  | Return (obj : string) (reg_id s : Z) (params : GVariant)
  | Own (obj : string) (conn_id owner_id : Z)
  | Unown (obj : string) (owner_id : Z).

Definition exec (o : operation) a : option (agent * list effect) :=
  match o with
  | SetVtable obj => Some (evd_dbus_agent_set_object_vtable a obj, [])
  | Alias obj address alias => Some (evd_dbus_agent_create_address_alias a obj address alias, [])
  | New obj address r => '(a, _, effs) ← evd_dbus_agent_new_connection a obj address r; Some (a, effs)
  | Connected p c => '(a, _, _, effs) ← evd_dbus_agent_on_new_dbus_connection a p c; Some (a, effs)
  | Close obj i => '(a, effs, _) ← evd_dbus_agent_close_connection a obj i; Some (a, effs)
  | Hangup obj conn => evd_dbus_agent_on_object_connection_closed a obj conn
  | Destroy obj => evd_dbus_agent_on_object_destroyed a obj
  | ProxyMade obj i flags conn px =>
      '(a, _) ← evd_dbus_agent_on_new_dbus_proxy a obj i flags conn px; Some (a, [])
  | CloseProxy obj i => let '(a, _) := evd_dbus_agent_close_proxy a obj i in Some (a, [])
  | Register obj i path iface_name reg_id =>
      '(a, _) ← evd_dbus_agent_register_object a obj i path iface_name reg_id; Some (a, [])
  | Unregister obj reg_id => let '(a, effs, _) := evd_dbus_agent_unregister_object a obj reg_id in Some (a, effs)
  | Called obj conn path iface_name name params inv => evd_dbus_agent_method_called a obj conn path iface_name name params inv
  | Return obj reg_id s params => let '(a, effs, _) := evd_dbus_agent_method_call_return a obj reg_id s params in Some (a, effs)
  | Own obj i owner_id => '(a, _) ← evd_dbus_agent_own_name a obj i owner_id; Some (a, [])
  | Unown obj owner_id => let '(a, effs, _) := evd_dbus_agent_unown_name a obj owner_id in Some (a, effs)
  end.

(** GDBus gives connections of their own, and an object that waits for one is kept alive. *)
Definition allowed (o : operation) a (opn : gset nat) : bool :=
  match o with
  | Connected _ (Some c) => bool_decide (c ∉ opn)
  | Destroy obj => bool_decide (map_Forall (λ _ o, o ≠ obj) (connecting a))
  | _ => true
  end.

Definition opened (o : operation) : gset nat := match o with Connected _ (Some c) => {[c]} | _ => ∅ end.

(** The agent and the D-Bus connections that are open, made and not closed. *)
Fixpoint run (ops : list operation) a (opn : gset nat) : option (agent * gset nat) :=
  match ops with
  | [] => Some (a, opn)
  | o :: ops =>
      if allowed o a opn then '(a, effs) ← exec o a; run ops a (opened o ∪ (opn ∖ closed effs)) else None
  end.

Lemma same_conns_wf a obj d' effs opn :
  default ∅ (conns <$> objects a !! obj) = conns d' → closed effs = ∅ → wf a [] opn →
  wf (with_object obj d' a) [] (∅ ∪ (opn ∖ closed effs)).
Proof. intros Hd -> W. rewrite difference_empty_L, left_id_L by apply _. by apply wf_object. Qed.

Lemma nothing_wf a effs opn : closed effs = ∅ → wf a [] opn → wf a [] (∅ ∪ (opn ∖ closed effs)).
Proof. intros -> W. by rewrite difference_empty_L, left_id_L by apply _. Qed.

#[local] Hint Resolve object_data_conns nothing_wf same_conns_wf : core.

Lemma get_connection_held a obj i r opn :
  wf a [] opn → evd_dbus_agent_get_connection a obj i = Some r →
  (∃ d p cd c, r = inl (Some c) ∧ objects a !! obj = Some d ∧ conns d !! i = Some p ∧ conn_data a !! p = Some cd ∧ cd_conn cd = Some c)
  ∨ ∃ e, r = inr e.
Proof.
  intros W. unfold evd_dbus_agent_get_connection, evd_dbus_agent_get_object_data.
  destruct (objects a !! obj) as [d|] eqn:Hd; [|intros [= <-]; right; eauto].
  destruct (conns d !! i) as [p|] eqn:Hi; [|intros [= <-]; right; eauto].
  destruct (wf_bound _ _ _ W (obj, i) p) as (cd & c & Hl & Hc); [by rewrite bound_lookup, Hd|].
  rewrite Hl. run_bind. rewrite Hc. intros [= <-]. left. by exists d, p, cd, c.
Qed.

Lemma held_conns a obj d : objects a !! obj = Some d → default ∅ (conns <$> objects a !! obj) = conns d.
Proof. by intros ->. Qed.

(** The tables other than that of the connections. *)
Lemma tables_wf o a a' effs opn :
  match o with
  | ProxyMade _ _ _ _ _ | CloseProxy _ _ | Register _ _ _ _ _ | Unregister _ _ | Called _ _ _ _ _ _ _
  | Return _ _ _ _ | Own _ _ _ | Unown _ _ => True
  | _ => False
  end →
  wf a [] opn → exec o a = Some (a', effs) → wf a' [] (∅ ∪ (opn ∖ closed effs)).
Proof.
  destruct o; try done; intros _ W; cbn [exec].
  - unfold evd_dbus_agent_on_new_dbus_proxy, evd_dbus_agent_get_object_data. destruct px as [px|]; [|intros [= <- <-]; auto].
    destruct (objects a !! obj) as [d|] eqn:Hd; [|done]. run_bind. destruct (proxies d !! _); [done|]. run_bind.
    intros [= <- <-]. apply same_conns_wf; [by rewrite Hd|done..].
  - unfold evd_dbus_agent_close_proxy. destruct (evd_dbus_agent_get_proxy _ _ _); intros [= <- <-]; auto.
  - unfold evd_dbus_agent_register_object. destruct (_ <=? 0); [intros [= <- <-]; auto|].
    destruct (evd_dbus_agent_get_connection a obj conn_id) as [r|] eqn:Hr; [|done]. run_bind.
    destruct (get_connection_held _ _ _ _ _ W Hr) as [(d & p & cd & c & -> & Hd & _)|[e ->]]; [|intros [= <- <-]; auto].
    destruct (0 <? reg_id); [|intros [= <- <-]; auto]. unfold evd_dbus_agent_get_object_data. rewrite Hd. run_bind.
    intros [= <- <-]. apply same_conns_wf; [by rewrite Hd|done..].
  - unfold evd_dbus_agent_unregister_object. destruct (evd_dbus_agent_get_registered_object_data _ _ _); intros [= <- <-]; auto.
  - unfold evd_dbus_agent_method_called, evd_dbus_agent_get_object_data. destruct (objects a !! obj) as [d|]; [|done]. run_bind.
    destruct (reg_objs d !! _); [|done]. run_bind. destruct (reg_objs_by_id d !! _); [|done]. run_bind.
    destruct (vtable d); intros [= <- <-]; auto. apply same_conns_wf; auto.
  - unfold evd_dbus_agent_method_call_return. destruct (evd_dbus_agent_get_registered_object_data _ _ _); [|intros [= <- <-]; auto].
    destruct (lookup_invocation _ _); intros [= <- <-]; auto. apply same_conns_wf; auto.
  - unfold evd_dbus_agent_own_name. destruct (evd_dbus_agent_get_connection a obj conn_id) as [r|] eqn:Hr; [|done]. run_bind.
    destruct (get_connection_held _ _ _ _ _ W Hr) as [(d & p & cd & c & -> & Hd & _)|[e ->]]; [|intros [= <- <-]; auto].
    unfold evd_dbus_agent_get_object_data. rewrite Hd. run_bind. intros [= <- <-]. apply same_conns_wf; [by rewrite Hd|done..].
  - unfold evd_dbus_agent_unown_name, evd_dbus_agent_get_object_data. destruct (_ <=? 0); [intros [= <- <-]; auto|].
    destruct (objects a !! obj) as [d|] eqn:Hd; [|intros [= <- <-]; auto]. intros [= <- <-].
    apply same_conns_wf; [by rewrite Hd| |done]. by destruct (owned_names d !! owner_id).
Qed.

Lemma exec_wf o a a' effs opn :
  wf a [] opn → allowed o a opn = true → exec o a = Some (a', effs) → wf a' [] (opened o ∪ (opn ∖ closed effs)).
Proof.
  intros W. destruct o; cbn [allowed opened]; try (intros _; by apply tables_wf); cbn [exec].
  - intros _ [= <- <-]. apply same_conns_wf; auto.
  - intros _ [= <- <-]. apply same_conns_wf; auto.
  - intros _. destruct (evd_dbus_agent_new_connection a obj address r) as [[[a1 st] e1]|] eqn:E; [|done]. run_bind.
    intros [= <- <-]. apply (new_connection_wf a obj address r a1 st e1 opn W) in E as [W1 Ec]. by apply nothing_wf.
  - intros Hg. destruct (evd_dbus_agent_on_new_dbus_connection a p c) as [[[[a1 o] r] e1]|] eqn:E; [|done]. run_bind.
    intros [= <- <-]. apply (connected_wf a p c a1 o r e1 opn W) in E as [W1 Ec].
    + rewrite Ec, difference_empty_L. destruct c; [done|]. by rewrite left_id_L by apply _.
    + intros x ->. by apply bool_decide_eq_true in Hg.
  - intros _. unfold evd_dbus_agent_close_connection.
    destruct (evd_dbus_agent_get_connection a obj conn_id) as [r|] eqn:Hr; [|done]. run_bind.
    destruct (get_connection_held _ _ _ _ _ W Hr) as [(d & p & cd & c & -> & Hd & Hi & _)|[e ->]]; [|intros [= <- <-]; auto].
    destruct (remove_wf a obj d conn_id p opn W Hd Hi) as (a1 & e1 & d1 & -> & W1 & _). run_bind. intros [= <- <-].
    by rewrite left_id_L by apply _.
  - intros _ E. assert (is_Some (objects a !! obj)) as Ho.
    { unfold evd_dbus_agent_on_object_connection_closed, evd_dbus_agent_get_object_data in E. by destruct (objects a !! obj). }
    rewrite hangup_nothing in E by done. injection E as <- <-. auto.
  - intros Hg E. apply bool_decide_eq_true in Hg.
    destruct (objects a !! obj) as [d|] eqn:Hd.
    2:{ unfold evd_dbus_agent_on_object_destroyed, evd_dbus_agent_get_object_data in E. by rewrite Hd in E. }
    destruct (destroy_wf a obj d opn W Hd) as (a1 & e1 & E1 & W1 & _).
    { intros p Hp. by apply (Hg p obj). }
    rewrite E1 in E. injection E as <- <-. by rewrite left_id_L by apply _.
Qed.

Lemma run_wf ops : ∀ a opn a' opn', wf a [] opn → run ops a opn = Some (a', opn') → wf a' [] opn'.
Proof.
  induction ops as [|o ops IH]; intros a opn a' opn' W; cbn [run]; [by intros [= <- <-]|].
  destruct (allowed o a opn) eqn:Hg; [|done]. destruct (exec o a) as [[a1 e1]|] eqn:E; [|done]. run_bind.
  apply IH. by eapply exec_wf.
Qed.

Lemma init_wf : wf agent_init [] ∅.
Proof.
  split; cbn [agent_init conn_data conn_cache connecting]; try (intros *; rewrite ?lookup_empty; done).
  - by intros p ?%not_elem_of_nil.
  - intros c. split; [set_solver|]. by intros (p & cd & ? & _).
Qed.

Lemma held_iff_open a opn :
  wf a [] opn → ∀ c, c ∈ opn ↔ ∃ obj conn_id, evd_dbus_agent_get_connection a obj conn_id = Some (inl (Some c)).
Proof.
  intros W c. split.
  - intros Hc. apply (wf_open _ _ _ W) in Hc as (p & cd & Hl & Hcc).
    pose proof (wf_held _ _ _ W p cd c Hl Hcc) as Hpos. rewrite (wf_counts _ _ _ W p cd Hl) in Hpos.
    change (times p []) with O in Hpos. unfold holders in Hpos.
    destruct (map_choose (filter (λ kv : (string * Z) * nat, kv.2 = p) (bound a))) as ([obj i] & q & Hq).
    { intros E. rewrite E, map_size_empty in Hpos. lia. }
    apply map_lookup_filter_Some in Hq as [Hq ?]. cbn in *. subst q. exists obj, i.
    rewrite bound_lookup in Hq. unfold evd_dbus_agent_get_connection, evd_dbus_agent_get_object_data.
    destruct (objects a !! obj) as [d|]; [|done]. revert Hq. run_bind. intros ->. rewrite Hl. run_bind. by rewrite Hcc.
  - intros (obj & i & E). destruct (get_connection_held _ _ _ _ _ W E) as [(d & p & cd & c' & [= <-] & _ & _ & Hl & Hcc)|[e [=]]].
    apply (wf_open _ _ _ W). eauto.
Qed.

(** What a number is for, by the table. *)
Lemma get_connection_iff a obj i c opn :
  wf a [] opn →
  evd_dbus_agent_get_connection a obj i = Some (inl (Some c)) ↔
  ∃ p cd, bound a !! (obj, i) = Some p ∧ conn_data a !! p = Some cd ∧ cd_conn cd = Some c.
Proof.
  intros W. rewrite bound_lookup. split.
  - intros E. destruct (get_connection_held _ _ _ _ _ W E) as [(d & p & cd & c' & [= <-] & Hd & Hi & Hl & Hcc)|[e [=]]].
    exists p, cd. rewrite Hd. by run_bind.
  - intros (p & cd & Hb & Hl & Hcc). unfold evd_dbus_agent_get_connection, evd_dbus_agent_get_object_data.
    destruct (objects a !! obj) as [d|]; [|done]. revert Hb. run_bind. intros ->. rewrite Hl. run_bind. by rewrite Hcc.
Qed.

Lemma unref_keeps a p a' effs :
  evd_dbus_agent_conn_data_unref (GVariant := GVariant) a p = Some (a', effs) →
  ∀ q cd', conn_data a' !! q = Some cd' → ∃ cd, conn_data a !! q = Some cd ∧ cd_conn cd' = cd_conn cd.
Proof.
  unfold evd_dbus_agent_conn_data_unref. destruct (conn_data a !! p) as [cd0|] eqn:Hp; [|done]. run_bind.
  destruct (_ <=? 0); intros [= <- <-] q cd'; cbn [conn_data with_conn_data with_cache].
  - rewrite lookup_delete_Some. intros [_ Hq]. by exists cd'.
  - rewrite lookup_insert_Some. intros [[<- <-]|[_ Hq]]; [by exists cd0|by exists cd'].
Qed.

Lemma remove_keeps a obj i a' effs :
  remove_conn (GVariant := GVariant) a obj i = Some (a', effs) →
  ∀ q cd', conn_data a' !! q = Some cd' → ∃ cd, conn_data a !! q = Some cd ∧ cd_conn cd' = cd_conn cd.
Proof.
  unfold remove_conn, evd_dbus_agent_get_object_data. destruct (objects a !! obj) as [d|]; [|done]. run_bind.
  destruct (conns d !! i) as [p|]; [|intros [= <- <-]; eauto].
  unfold evd_dbus_agent_free_obj_conn_data, evd_dbus_agent_get_object_data. cbn [objects with_object conn_data].
  rewrite lookup_insert_eq. run_bind. destruct (conn_data a !! p) as [cd|]; [|done]. run_bind.
  destruct (cd_conn cd) as [c|]; [|done]. run_bind. cbn [foreach_remove].
  destruct (evd_dbus_agent_conn_data_unref _ p) as [[a1 e1]|] eqn:E; [|done]. run_bind. intros [= <- <-].
  exact (unref_keeps _ _ _ _ E).
Qed.

(** C30. The D-Bus connections that are open are exactly those some object holds: whatever the objects do
    and GDBus answers, a connection is closed when the last number for it is given up, and no earlier,
    and no number is for a connection that was closed. *)
Theorem open_connections_held ops a opn :
  run ops agent_init ∅ = Some (a, opn) →
  ∀ c, c ∈ opn ↔ ∃ obj conn_id, evd_dbus_agent_get_connection a obj conn_id = Some (inl (Some c)).
Proof. intros R. apply held_iff_open. eapply run_wf; [apply init_wf|done]. Qed.

(** Giving up a number leaves the others as they were: in every state that is reached, closing the
    number of a connection an object holds succeeds, every other number of every object is for the same
    connection as before, the other objects are untouched, and the D-Bus connection is closed just when
    no other number is for it. *)
Example closing_leaves_the_others ops a opn obj conn_id c :
  run ops agent_init ∅ = Some (a, opn) → evd_dbus_agent_get_connection a obj conn_id = Some (inl (Some c)) →
  ∃ a' effs, evd_dbus_agent_close_connection a obj conn_id = Some (a', effs, true) ∧
    (∀ o i x, (o, i) ≠ (obj, conn_id) →
       (evd_dbus_agent_get_connection a' o i = Some (inl (Some x)) ↔ evd_dbus_agent_get_connection a o i = Some (inl (Some x)))) ∧
    (∀ o, o ≠ obj → objects a' !! o = objects a !! o) ∧
    (c ∈ closed effs ↔ ∀ o i, (o, i) ≠ (obj, conn_id) → evd_dbus_agent_get_connection a o i ≠ Some (inl (Some c))).
Proof.
  intros R E. assert (wf a [] opn) as W by (eapply run_wf; [apply init_wf|done]).
  destruct (get_connection_held _ _ _ _ _ W E) as [(d & p & cd & c' & [= <-] & Hd & Hi & Hl & Hcc)|[e [=]]].
  destruct (remove_wf a obj d conn_id p opn W Hd Hi) as (a' & effs & d' & E' & W' & Ho & Hc & _).
  exists a', effs. unfold evd_dbus_agent_close_connection. rewrite E. run_bind. rewrite E'. split; [done|].
  assert (∀ o i, (o, i) ≠ (obj, conn_id) → bound a' !! (o, i) = bound a !! (o, i)) as Hbound.
  { intros o i Hne. rewrite !bound_lookup, Ho. destruct (decide (o = obj)) as [->|]; [|by rewrite lookup_insert_ne].
    rewrite lookup_insert_eq, Hd. run_bind. rewrite Hc, lookup_delete_ne; [done|congruence]. }
  assert (∀ o i x, (o, i) ≠ (obj, conn_id) →
    (evd_dbus_agent_get_connection a' o i = Some (inl (Some x)) ↔ evd_dbus_agent_get_connection a o i = Some (inl (Some x)))) as Hsame.
  { intros o i x Hne. rewrite (get_connection_iff a' _ _ _ _ W'), (get_connection_iff a _ _ _ _ W), Hbound by done.
    pose proof (remove_keeps a obj conn_id a' effs E') as Hk. split; intros (q & cd1 & Hb & Hq & Hx).
    - destruct (Hk q cd1 Hq) as (cd2 & Hq2 & E2). exists q, cd2. by rewrite <-E2.
    - destruct (wf_bound _ _ _ W' (o, i) q) as (cd2 & x2 & Hq2 & E2); [by rewrite Hbound|].
      destruct (Hk q cd2 Hq2) as (cd3 & Hq3 & E3). exists q, cd2. split; [done|]. split; congruence. }
  split; [done|]. split; [intros o ?; by rewrite Ho, lookup_insert_ne|].
  assert (c ∈ opn) as Hcin by (apply (held_iff_open a opn W); eauto). split.
  - intros Hcl o i Hne Hg. apply Hsame in Hg; [|done].
    assert (c ∈ opn ∖ closed effs) as Hin by (apply (held_iff_open a' _ W'); eauto). set_solver.
  - intros Hno. destruct (decide (c ∈ closed effs)) as [|Hn]; [done|].
    assert (c ∈ opn ∖ closed effs) as Hin by set_solver. apply (held_iff_open a' _ W') in Hin as (o & i & Hg).
    destruct (decide ((o, i) = (obj, conn_id))) as [[= -> ->]|Hne]; [|exfalso; apply (Hno o i Hne); by apply Hsame].
    apply (get_connection_iff a' _ _ _ _ W') in Hg as (q & ? & Hb & _). rewrite bound_lookup, Ho, lookup_insert_eq in Hb.
    revert Hb. run_bind. by rewrite Hc, lookup_delete_eq.
Qed.

(** ** Numbers of shared data *)

Lemma unref_next a p a' effs :
  evd_dbus_agent_conn_data_unref (GVariant := GVariant) a p = Some (a', effs) → next_conn_data a' = next_conn_data a.
Proof.
  unfold evd_dbus_agent_conn_data_unref. destruct (conn_data a !! p); [|done]. run_bind.
  by destruct (_ <=? 0); intros [= <- <-].
Qed.

Lemma free_next a obj p a' effs :
  evd_dbus_agent_free_obj_conn_data (GVariant := GVariant) a obj p = Some (a', effs) → next_conn_data a' = next_conn_data a.
Proof.
  unfold evd_dbus_agent_free_obj_conn_data. destruct (evd_dbus_agent_get_object_data a obj) as [d|]; [|done]. run_bind.
  destruct (conn_data a !! p) as [cd|]; [|done]. run_bind. destruct (cd_conn cd); [|done]. run_bind. cbn [foreach_remove].
  destruct (evd_dbus_agent_conn_data_unref _ p) as [[a1 e1]|] eqn:E; [|done]. run_bind. intros [= <- <-].
  by apply unref_next in E.
Qed.

Lemma free_conns_next obj ps : ∀ a a' effs,
  free_conns (GVariant := GVariant) a obj ps = Some (a', effs) → next_conn_data a' = next_conn_data a.
Proof.
  induction ps as [|p ps IH]; intros a a' effs; cbn [free_conns]; [by intros [= <- <-]|].
  destruct (evd_dbus_agent_free_obj_conn_data a obj p) as [[a1 e1]|] eqn:E1; [|done]. run_bind.
  destruct (free_conns a1 obj ps) as [[a2 e2]|] eqn:E2; [|done]. run_bind. intros [= <- <-].
  apply free_next in E1. apply IH in E2. congruence.
Qed.

Lemma remove_next a obj i a' effs :
  remove_conn (GVariant := GVariant) a obj i = Some (a', effs) → next_conn_data a' = next_conn_data a.
Proof.
  unfold remove_conn. destruct (evd_dbus_agent_get_object_data a obj) as [d|]; [|done]. run_bind.
  destruct (conns d !! i); [|by intros [= <- <-]]. intros E%free_next. done.
Qed.

Lemma bind_next a obj p a' i :
  evd_dbus_agent_bind_connection_to_object a obj p = Some (a', i) → next_conn_data a' = next_conn_data a.
Proof.
  unfold evd_dbus_agent_bind_connection_to_object, evd_dbus_agent_conn_data_ref.
  destruct (evd_dbus_agent_get_object_data a obj) as [d|]; [|done]. run_bind.
  destruct (conn_data a !! p); [|done]. run_bind. destruct (conns d !! _); [done|]. by intros [= <- _].
Qed.

(** They only grow; a connection that is looked for gets the next one. *)
Lemma new_connection_next a obj address r a' st effs :
  evd_dbus_agent_new_connection (GVariant := GVariant) a obj address r = Some (a', st, effs) →
  (next_conn_data a <= next_conn_data a')%nat ∧ ∀ p, st = Connecting p → p = next_conn_data a ∧ (p < next_conn_data a')%nat.
Proof.
  unfold evd_dbus_agent_new_connection. destruct (if r then _ else None) as [p|].
  - destruct (evd_dbus_agent_bind_connection_to_object _ obj p) as [[a1 i]|] eqn:E; [|done]. run_bind. intros [= <- <- <-].
    apply bind_next in E. rewrite E. split; [done|]. by intros ? [=].
  - intros [= <- <- <-]. cbn [next_conn_data with_object]. split; [lia|]. intros p [= <-]. split; [done|lia].
Qed.

Lemma exec_next o a a' effs : exec o a = Some (a', effs) → (next_conn_data a <= next_conn_data a')%nat.
Proof.
  destruct o; cbn [exec].
  1,2: by intros [= <- <-].
  - destruct (evd_dbus_agent_new_connection a obj address r) as [[[a1 st] e1]|] eqn:E; [|done]. run_bind. intros [= <- <-].
    by apply new_connection_next in E as [? _].
  - unfold evd_dbus_agent_on_new_dbus_connection. destruct (connecting a !! p) as [obj|]; [|done]. run_bind. destruct c as [c|].
    + cbn [conn_data with_connecting]. destruct (conn_data a !! p) as [cd|]; [|done]. run_bind.
      destruct (evd_dbus_agent_bind_connection_to_object _ obj p) as [[a1 i]|] eqn:E; [|done]. run_bind.
      apply bind_next in E. cbn [next_conn_data with_conn_data with_connecting] in E. destruct (reuse cd).
      * unfold evd_dbus_agent_cache_conn_in_global_cache. destruct (conn_data a1 !! p); [|done]. run_bind. intros [= <- <-].
        cbn [next_conn_data with_cache]. lia.
      * intros [= <- <-]. lia.
    + destruct (evd_dbus_agent_conn_data_unref _ p) as [[a1 e1]|] eqn:E; [|done]. run_bind. intros [= <- <-].
      apply unref_next in E. rewrite E. done.
  - unfold evd_dbus_agent_close_connection. destruct (evd_dbus_agent_get_connection a obj conn_id) as [[[c|]|]|]; [|by intros [= <- <-]..|done].
    run_bind. destruct (remove_conn a obj conn_id) as [[a1 e1]|] eqn:E; [|done]. run_bind. intros [= <- <-].
    apply remove_next in E. lia.
  - unfold evd_dbus_agent_on_object_connection_closed. destruct (evd_dbus_agent_get_object_data a obj); [|done]. run_bind.
    destruct (list_find _ _) as [[? [key ?]]|]; [|by intros [= <- <-]]. intros E%remove_next. lia.
  - unfold evd_dbus_agent_on_object_destroyed. destruct (evd_dbus_agent_get_object_data a obj) as [d|]; [|done]. run_bind.
    destruct (free_conns _ obj _) as [[a1 e1]|] eqn:E; [|done]. run_bind. apply free_conns_next in E.
    destruct (evd_dbus_agent_get_object_data a1 obj); [|done]. run_bind. intros [= <- <-].
    cbn [next_conn_data with_objects with_object] in *. lia.
  - unfold evd_dbus_agent_on_new_dbus_proxy. destruct px; [|by intros [= <- <-]].
    destruct (evd_dbus_agent_get_object_data a obj) as [d|]; [|done]. run_bind. destruct (proxies d !! _); [done|]. by intros [= <- <-].
  - unfold evd_dbus_agent_close_proxy. by destruct (evd_dbus_agent_get_proxy a obj proxy_id); intros [= <- <-].
  - unfold evd_dbus_agent_register_object. destruct (_ <=? 0); [by intros [= <- <-]|].
    destruct (evd_dbus_agent_get_connection a obj conn_id) as [[[c|]|]|]; [|by intros [= <- <-]..|done]. run_bind.
    destruct (0 <? reg_id); [|by intros [= <- <-]]. destruct (evd_dbus_agent_get_object_data a obj); [|done]. by intros [= <- <-].
  - unfold evd_dbus_agent_unregister_object. by destruct (evd_dbus_agent_get_registered_object_data a obj reg_id); intros [= <- <-].
  - unfold evd_dbus_agent_method_called. destruct (evd_dbus_agent_get_object_data a obj) as [d|]; [|done]. run_bind.
    destruct (reg_objs d !! _); [|done]. run_bind. destruct (reg_objs_by_id d !! _); [|done]. run_bind.
    by destruct (vtable d); intros [= <- <-].
  - unfold evd_dbus_agent_method_call_return. destruct (evd_dbus_agent_get_registered_object_data a obj reg_id); [|by intros [= <- <-]].
    by destruct (lookup_invocation _ _); intros [= <- <-].
  - unfold evd_dbus_agent_own_name. destruct (evd_dbus_agent_get_connection a obj conn_id) as [[[c|]|]|]; [|by intros [= <- <-]..|done].
    run_bind. destruct (evd_dbus_agent_get_object_data a obj); [|done]. by intros [= <- <-].
  - unfold evd_dbus_agent_unown_name. destruct (_ <=? 0); [by intros [= <- <-]|].
    by destruct (evd_dbus_agent_get_object_data a obj); intros [= <- <-].
Qed.

(** ** Method calls *)

(** A call that was handed over can be answered, once, until the next one comes. *)
Lemma latest_call_answered a obj conn path iface_name name (params : GVariant) inv a1 conn_id reg_id s (result : GVariant) :
  0 < reg_id →
  evd_dbus_agent_method_called a obj conn path iface_name name params inv =
    Some (a1, [MethodCall obj conn_id name reg_id params s]) →
  ∃ a2, evd_dbus_agent_method_call_return a1 obj reg_id s result = (a2, [ReturnValue inv result], true) ∧
    ∀ s' (result' : GVariant), evd_dbus_agent_method_call_return a2 obj reg_id s' result' = (a2, [], false).
Proof.
  intros Hr. unfold evd_dbus_agent_method_called, evd_dbus_agent_get_object_data.
  destruct (objects a !! obj) as [d|] eqn:Hd; [|done]. run_bind. destruct (reg_objs d !! _) as [r|]; [|done]. run_bind.
  destruct (reg_objs_by_id d !! r) as [v|]; [|done]. run_bind. destruct (vtable d); [|done]. intros [= <- _ -> <-].
  unfold evd_dbus_agent_method_call_return, evd_dbus_agent_get_registered_object_data, set_reg_obj, object_data,
    evd_dbus_agent_get_object_data. destruct (Z.leb_spec reg_id 0); [lia|]. cbn [objects with_object]. rewrite lookup_insert_eq.
  cbn [reg_objs_by_id with_reg_objs]. rewrite lookup_insert_eq. unfold lookup_invocation at 1.
  cbn [serial with_invocations invocations]. rewrite Z.eqb_refl, lookup_insert_eq. eexists. split; [done|].
  intros s' result'. cbn [objects with_object default from_option id]. rewrite lookup_insert_eq. cbn [reg_objs_by_id with_reg_objs].
  rewrite lookup_insert_eq. unfold lookup_invocation. cbn [serial with_invocations invocations].
  destruct (Z.eqb_spec (u64 (serial v + 1)) s') as [<-|]; [|done]. by rewrite lookup_delete_eq.
Qed.

End Spec.

(** ** Two peers *)

(** They share a connection; the second has it twice. *)
Definition bus : list Z := codes "unix:path=/bus".

Definition demo_operations : list (operation (GVariant := nat)) :=
  [SetVtable "a"; New "a" bus true; Connected 0 (Some 7%nat); New "b" bus true; New "b" bus true;
   ProxyMade "b" 2 0 7 (Some 3%nat); Close "b" 1].

Definition blank : agent * gset nat := (agent_init, ∅).
Definition demo_state : agent * gset nat := default blank (run demo_operations agent_init ∅).

Lemma agent_demo_runs : run demo_operations agent_init ∅ = Some (demo_state.1, demo_state.2).
Proof.
  assert ((if run demo_operations agent_init ∅ is Some _ then true else false) = true) as E by (vm_compute; reflexivity).
  unfold demo_state. by destruct (run demo_operations agent_init ∅) as [[]|].
Qed.

Lemma open_connections_held_witness :
  7%nat ∈ demo_state.2 ↔ ∃ obj conn_id, evd_dbus_agent_get_connection demo_state.1 obj conn_id = Some (inl (Some 7%nat)).
Proof. exact (open_connections_held demo_operations demo_state.1 demo_state.2 agent_demo_runs 7%nat). Defined.

Lemma demo_holds : evd_dbus_agent_get_connection demo_state.1 "a" 1 = Some (inl (Some 7%nat)).
Proof. vm_compute. reflexivity. Qed.

Lemma closing_leaves_the_others_witness :
  ∃ a' effs, evd_dbus_agent_close_connection demo_state.1 "a" 1 = Some (a', effs, true) ∧
    (∀ o i x, (o, i) ≠ ("a"%string, 1) →
       (evd_dbus_agent_get_connection a' o i = Some (inl (Some x)) ↔
        evd_dbus_agent_get_connection demo_state.1 o i = Some (inl (Some x)))) ∧
    (∀ o, o ≠ "a"%string → objects a' !! o = objects demo_state.1 !! o) ∧
    (7%nat ∈ closed (GVariant := nat) effs ↔
     ∀ o i, (o, i) ≠ ("a"%string, 1) → evd_dbus_agent_get_connection demo_state.1 o i ≠ Some (inl (Some 7%nat))).
Proof.
  exact (closing_leaves_the_others demo_operations demo_state.1 demo_state.2 "a" 1 7%nat agent_demo_runs demo_holds).
Defined.

(** ** Defects *)

Definition final (ops : list (operation (GVariant := nat))) : agent := (default blank (run ops agent_init ∅)).1.

(** Closing one number of a connection takes away the proxies made with another of its numbers. *)
Example proxies_lost_with_another_number :
  (option_map proxies (objects (final (take 6 demo_operations)) !! "b"%string) ≫= lookup 1) ≠ None ∧
  (option_map proxies (objects demo_state.1 !! "b"%string) ≫= lookup 1) = None ∧
  evd_dbus_agent_get_connection demo_state.1 "b" 2 = Some (inl (Some 7%nat)).
Proof. split_and!; [apply (bool_decide_unpack _)|..]; vm_compute; try reflexivity; exact I. Qed.

(** A connection that was not to be shared takes the shared one out of the cache when it is closed: the
    next peer gets a connection of its own. *)
Example private_connection_evicts_shared_one :
  conn_cache (final [SetVtable "a"; New "a" bus true; Connected 0 (Some 7%nat)]) !! bus = Some 0%nat ∧
  conn_cache (final [SetVtable "a"; New "a" bus true; Connected 0 (Some 7%nat);
    New "b" bus false; Connected 1 (Some 8%nat); Close "b" 1]) !! bus = None.
Proof. split; vm_compute; reflexivity. Qed.

(** So does a connection that cannot be made. *)
Example failed_connection_evicts_shared_one :
  conn_cache (final [SetVtable "a"; New "a" bus true; Connected 0 (Some 7%nat); New "b" bus false; Connected 1 None]) !! bus = None.
Proof. vm_compute. reflexivity. Qed.

(** A D-Bus connection that the bus drops stays with its holders. *)
Lemma dropped_connection_kept a obj conn :
  is_Some (objects a !! obj) → evd_dbus_agent_on_object_connection_closed (GVariant := nat) a obj conn = Some (a, []).
Proof. apply hangup_nothing. Qed.

(** Of two calls of an object that wait, the first can no longer be answered. *)
Definition two_calls : agent :=
  final [SetVtable "a"; New "a" bus true; Connected 0 (Some 7%nat); Register "a" 1 (codes "/o") (codes "i") 5;
         Called "a" 7 (codes "/o") (codes "i") (codes "f") 0%nat 1; Called "a" 7 (codes "/o") (codes "i") (codes "g") 0%nat 2].

Example earlier_call_lost :
  (evd_dbus_agent_method_call_return two_calls "a" 5 1 0%nat).2 = false ∧
  (evd_dbus_agent_method_call_return two_calls "a" 5 2 0%nat).2 = true.
Proof. split; vm_compute; reflexivity. Qed.

(** Giving up a name that is not owned succeeds. *)
Example unowned_name_given_up : (evd_dbus_agent_unown_name (GVariant := nat) two_calls "a" 99).2 = true.
Proof. vm_compute. reflexivity. Qed.

End DBusAgentSpec.
