(* ===== verification/DBusBridge.v ===== *)
(** * The D-Bus bridge (src/evd/evd-dbus-bridge.c, src/evd/evd-ipc-mechanism.c): model

    Peers send commands as JSON texts: to open D-Bus connections, own names, register objects, make
    proxies and call methods; the bridge gives them to the D-Bus agent of DBusAgent.v and sends answers,
    signals and calls back.  What waits is kept in closures: for the main loop, for a D-Bus connection,
    for a proxy, or for the return of a method.  Each command received has a number ([slot]) that the
    program does not have, which its closures and answers carry.  JSON-GLib's conversion between JSON and
    GVariant, GDBus and its answers are parameters.  [None] stands for what ends the program. *)
From S2P Require Import Prelude HttpMessage DBusAgent.
Import DBusAgent.

Module DBusBridge.

(** ** Commands and errors *)

Definition EVD_DBUS_BRIDGE_CMD_ERROR : Z := 1.
Definition EVD_DBUS_BRIDGE_CMD_REPLY : Z := 2.
Definition EVD_DBUS_BRIDGE_CMD_NEW_CONNECTION : Z := 3.
Definition EVD_DBUS_BRIDGE_CMD_CLOSE_CONNECTION : Z := 4.
Definition EVD_DBUS_BRIDGE_CMD_OWN_NAME : Z := 5.
Definition EVD_DBUS_BRIDGE_CMD_UNOWN_NAME : Z := 6.
Definition EVD_DBUS_BRIDGE_CMD_NAME_ACQUIRED : Z := 7.
Definition EVD_DBUS_BRIDGE_CMD_NAME_LOST : Z := 8.
Definition EVD_DBUS_BRIDGE_CMD_REGISTER_OBJECT : Z := 9.
Definition EVD_DBUS_BRIDGE_CMD_UNREGISTER_OBJECT : Z := 10.
Definition EVD_DBUS_BRIDGE_CMD_NEW_PROXY : Z := 11.
Definition EVD_DBUS_BRIDGE_CMD_CLOSE_PROXY : Z := 12.
Definition EVD_DBUS_BRIDGE_CMD_CALL_METHOD : Z := 13.
Definition EVD_DBUS_BRIDGE_CMD_CALL_METHOD_RETURN : Z := 14.
Definition EVD_DBUS_BRIDGE_CMD_EMIT_SIGNAL : Z := 15.

Definition EVD_DBUS_BRIDGE_ERR_FAILED : Z := 0.
Definition EVD_DBUS_BRIDGE_ERR_INVALID_MSG : Z := 1.
Definition EVD_DBUS_BRIDGE_ERR_UNKNOW_COMMAND : Z := 2.
Definition EVD_DBUS_BRIDGE_ERR_INVALID_SUBJECT : Z := 3.
Definition EVD_DBUS_BRIDGE_ERR_INVALID_ARGS : Z := 4.
Definition EVD_DBUS_BRIDGE_ERR_CONNECTION_FAILED : Z := 5.
Definition EVD_DBUS_BRIDGE_ERR_ALREADY_REGISTERED : Z := 6.
Definition EVD_DBUS_BRIDGE_ERR_PROXY_FAILED : Z := 7.
Definition EVD_DBUS_BRIDGE_ERR_UNKNOWN_METHOD : Z := 8.

Definition G_DBUS_ERROR_INVALID_ARGS : Z := 16.
Definition G_DBUS_ERROR_UNKNOWN_METHOD : Z := 19.

(** ** What the source uses of JSON-GLib and of GDBus *)
Class JsonGVariant := {
  GVariant : Type;
  json_gvariant_deserialize_data : list Z → list Z → option GVariant;     (* a text, by a signature *)
  json_gvariant_serialize_data : GVariant → list Z;
  g_variant_get_type_string : GVariant → list Z;
  (* g_variant_get, of a value of the signature *)
  get_ytuus : GVariant → Z * Z * Z * Z * list Z;
  get_sb : GVariant → list Z * bool;
  get_su : GVariant → list Z * Z;
  get_ss : GVariant → list Z * list Z;
  get_sss : GVariant → list Z * list Z * list Z;
  get_sssu : GVariant → list Z * list Z * list Z * Z;
  get_ssgui : GVariant → list Z * list Z * list Z * Z * Z;
  get_s : GVariant → list Z;
  (* the name of the first interface of a node *)
  g_dbus_node_info_new_for_xml : list Z → option (option (list Z));
  (* the signatures of the results of the method an invocation is of *)
  out_args : nat → list (list Z)
}.

(** ** Messages *)

Record message := mkMessage {
  m_cmd : Z;
  m_serial : Z;
  m_conn_id : Z;
  m_subject : Z;
  m_args : list Z
}.

Definition quote : list Z := [92; 34].     (* an escaped quotation mark *)

(** The text of a message. *)
Definition message_text (m : message) : list Z :=
  codes "[" ++ HttpMessage.print_d (m_cmd m) ++ codes "," ++ HttpMessage.print_d (m_serial m) ++ codes "," ++
  HttpMessage.print_d (m_conn_id m) ++ codes "," ++ HttpMessage.print_d (m_subject m) ++ codes "," ++
  [34] ++ codes "[" ++ m_args m ++ codes "]" ++ [34] ++ codes "]".

Definition octal (c : Z) : list Z := [92; 48 + Z.shiftr c 6; 48 + Z.land (Z.shiftr c 3) 7; 48 + Z.land c 7].

(** [g_strescape] with the exceptions of the source, on one character. *)
Definition g_strescape_char (c : Z) : list Z :=
  if bool_decide (c ∈ [8; 12; 10; 13; 9; 39]) then [c]
  else if c =? 11 then [92; 118]
  else if (c =? 92) || (c =? 34) then [92; c]
  else if (c <? 32) || (127 <=? c) then octal c
  else [c].

Definition g_strescape (s : list Z) : list Z := flat_map g_strescape_char s.

Definition escape_json_for_args (json : list Z) : list Z := g_strescape (g_strescape json).

(** ** State *)

Record MsgClosure := mkClosure {
  slot : nat;
  c_obj : string;
  cmd : Z;
  c_serial : Z;
  c_conn_id : Z;
  c_subject : Z;
  c_args : option (list Z);
  err_code : Z
}.

(** What the main loop is to do; the last two are results of the agent. *)
Inductive task :=
  | OnIdleSend (c : MsgClosure)
  | OnSendErrorIdle (c : MsgClosure)
  | OnNewConnection (conn_id : Z) (c : MsgClosure)
  | OnNewProxyError (message : list Z) (c : MsgClosure).

(** A proxy that is being made: the number, the flags and the D-Bus connection. *)
Record making := mkMaking { mk_closure : MsgClosure; mk_conn_id : Z; mk_flags : Z; mk_conn : nat }.

Record bridge := mkBridge {
  ag : agent;
  idle : list task;
  connections : gmap nat MsgClosure;      (* by the connection under way *)
  makings : gmap nat making;
  calls : gmap nat MsgClosure;
  next_op : nat;
  next_slot : nat
}.

Section Bridge.
Context `{JsonGVariant}.
Abbreviation effect := (@DBusAgent.effect GVariant).

Inductive action :=
  | Sent (s : option nat) (obj : string) (m : message)
  | OfAgent (e : effect)
  | ProxyNew (op : nat) (conn : nat) (name path iface_name : list Z)
  | ProxyCall (op : nat) (px : nat) (method_name : list Z) (params : GVariant) (flags timeout : Z).

Definition with_ag a b := mkBridge a (idle b) (connections b) (makings b) (calls b) (next_op b) (next_slot b).
Definition with_idle t b := mkBridge (ag b) t (connections b) (makings b) (calls b) (next_op b) (next_slot b).
Definition with_connections m b := mkBridge (ag b) (idle b) m (makings b) (calls b) (next_op b) (next_slot b).
Definition with_makings m n b := mkBridge (ag b) (idle b) (connections b) m (calls b) n (next_slot b).
Definition with_calls m n b := mkBridge (ag b) (idle b) (connections b) (makings b) m n (next_slot b).
Definition with_slot n b := mkBridge (ag b) (idle b) (connections b) (makings b) (calls b) (next_op b) n.

Abbreviation result := (option (bridge * list action)).

Definition bridge_init : bridge := mkBridge agent_init [] ∅ ∅ ∅ 0 0.

(** ** Sending *)

(** The object is used whether it is still there or not. *)
Definition evd_dbus_bridge_send (b : bridge) (s : option nat) (obj : string) (cmd serial conn_id subject : Z)
    (args : list Z) : result :=
  match objects (ag b) !! obj with
  | Some _ => Some (b, [Sent s obj (mkMessage cmd serial conn_id subject args)])
  | None => None
  end.

Definition evd_dbus_bridge_new_msg_closure (s : nat) (obj : string) (cmd serial conn_id subject : Z)
    (args : option (list Z)) (err_code : Z) : MsgClosure := mkClosure s obj cmd serial conn_id subject args err_code.

Definition add_idle (t : task) (b : bridge) : bridge := with_idle (idle b ++ [t]) b.

Definition evd_dbus_bridge_on_idle_send (b : bridge) (c : MsgClosure) : result :=
  evd_dbus_bridge_send b (Some (slot c)) (c_obj c) (cmd c) (c_serial c) (c_conn_id c) (c_subject c)
    (default (codes "(null)") (c_args c)).

Definition evd_dbus_bridge_send_in_idle (b : bridge) (s : nat) (obj : string) (cmd serial conn_id subject : Z)
    (args : list Z) : result :=
  Some (add_idle (OnIdleSend (evd_dbus_bridge_new_msg_closure s obj cmd serial conn_id subject (Some args) 0)) b, []).

Definition error_args (err_code : Z) (err_msg : option (list Z)) : list Z :=
  match err_msg with
  | Some msg => HttpMessage.print_d err_code ++ codes "," ++ quote ++ msg ++ quote
  | None => HttpMessage.print_d err_code
  end.

Definition evd_dbus_bridge_send_error (b : bridge) (s : nat) (obj : string) (serial conn_id subject err_code : Z)
    (err_msg : option (list Z)) : result :=
  evd_dbus_bridge_send b (Some s) obj EVD_DBUS_BRIDGE_CMD_ERROR serial conn_id subject (error_args err_code err_msg).

Definition evd_dbus_bridge_on_send_error_idle (b : bridge) (c : MsgClosure) : result :=
  evd_dbus_bridge_send_error b (slot c) (c_obj c) (c_serial c) (c_conn_id c) (c_subject c) (err_code c) (c_args c).

Definition evd_dbus_bridge_send_error_in_idle (b : bridge) (s : nat) (obj : string)
    (serial conn_id subject err_code : Z) (err_msg : option (list Z)) : result :=
  Some (add_idle (OnSendErrorIdle (evd_dbus_bridge_new_msg_closure s obj EVD_DBUS_BRIDGE_CMD_ERROR serial conn_id
                                     subject err_msg err_code)) b, []).

(** ** What the agent tells *)

Definition call_args (name json_args signature tail : list Z) : list Z :=
  quote ++ name ++ quote ++ codes "," ++ quote ++ json_args ++ quote ++ codes "," ++ quote ++ signature ++ quote ++ tail.

Definition evd_dbus_bridge_on_proxy_signal (b : bridge) (obj : string) (conn_id proxy_id : Z) (signal_name : list Z)
    (params : GVariant) : result :=
  evd_dbus_bridge_send b None obj EVD_DBUS_BRIDGE_CMD_EMIT_SIGNAL 0 conn_id proxy_id
    (call_args signal_name (escape_json_for_args (json_gvariant_serialize_data params))
       (g_variant_get_type_string params) []).

Definition evd_dbus_bridge_on_name_acquired (b : bridge) (obj : string) (conn_id owner_id : Z) : result :=
  evd_dbus_bridge_send b None obj EVD_DBUS_BRIDGE_CMD_NAME_ACQUIRED 0 conn_id owner_id [].
Definition evd_dbus_bridge_on_name_lost (b : bridge) (obj : string) (conn_id owner_id : Z) : result :=
  evd_dbus_bridge_send b None obj EVD_DBUS_BRIDGE_CMD_NAME_LOST 0 conn_id owner_id [].

Definition evd_dbus_bridge_on_reg_obj_call_method (b : bridge) (obj : string) (conn_id : Z) (method_name : list Z)
    (reg_id : Z) (params : GVariant) (serial : Z) : result :=
  evd_dbus_bridge_send b None obj EVD_DBUS_BRIDGE_CMD_CALL_METHOD serial conn_id reg_id
    (call_args method_name (escape_json_for_args (json_gvariant_serialize_data params))
       (g_variant_get_type_string params) (codes ",0,0")).

(** The vtable of the bridge, which all its peers have. *)
Fixpoint tell (b : bridge) (effs : list effect) : result :=
  match effs with
  | [] => Some (b, [])
  | e :: effs =>
      '(b, acts) ←
        match e with
        | ProxySignal obj conn_id proxy_id name params =>
            evd_dbus_bridge_on_proxy_signal b obj conn_id proxy_id name params
        | MethodCall obj conn_id name reg_id params serial =>
            evd_dbus_bridge_on_reg_obj_call_method b obj conn_id name reg_id params serial
        | NameAcquired obj conn_id owner_id => evd_dbus_bridge_on_name_acquired b obj conn_id owner_id
        | NameLost obj conn_id owner_id => evd_dbus_bridge_on_name_lost b obj conn_id owner_id
        | e => Some (b, [OfAgent e])
        end;
      '(b, acts') ← tell b effs;
      Some (b, acts ++ acts')
  end.

(** ** Commands *)

Definition connection_error (e : agent_error) : list Z :=
  match e with
  | ErrInvalidArgument => codes "Object doesn't hold specified connection"
  | _ => codes "Object is invalid"
  end.

Definition evd_dbus_bridge_new_connection (b : bridge) (s : nat) (obj : string) (serial conn_id : Z) (args : list Z)
  : result :=
  match json_gvariant_deserialize_data args (codes "(sb)") with
  | None => evd_dbus_bridge_send_error_in_idle b s obj serial conn_id 0 EVD_DBUS_BRIDGE_ERR_INVALID_ARGS None
  | Some v =>
      let '(address, r) := get_sb v in
      let c := evd_dbus_bridge_new_msg_closure s obj EVD_DBUS_BRIDGE_CMD_NEW_CONNECTION serial conn_id 0 None 0 in
      '(a, st, effs) ← evd_dbus_agent_new_connection (GVariant := GVariant) (ag b) obj address r;
      let b := with_ag a b in
      Some (match st with
            | InIdle id => add_idle (OnNewConnection id c) b
            | Connecting p => with_connections (<[p := c]> (connections b)) b
            end, map OfAgent effs)
  end.

(** With the number the agent gave, or the message of the error. *)
Definition evd_dbus_bridge_on_new_connection (b : bridge) (c : MsgClosure) (r : Z + list Z) : result :=
  match r with
  | inr msg =>
      evd_dbus_bridge_send_error b (slot c) (c_obj c) (c_serial c) 0 (c_subject c)
        EVD_DBUS_BRIDGE_ERR_CONNECTION_FAILED (Some msg)
  | inl id =>
      id ← evd_dbus_agent_new_connection_finish (ag b) (c_obj c) id;
      evd_dbus_bridge_send b (Some (slot c)) (c_obj c) EVD_DBUS_BRIDGE_CMD_REPLY (c_serial c) 0 (c_subject c)
        (HttpMessage.print_d id)
  end.

Definition evd_dbus_bridge_close_connection (b : bridge) (s : nat) (obj : string) (serial conn_id subject : Z) : result :=
  '(a, effs, ok) ← evd_dbus_agent_close_connection (GVariant := GVariant) (ag b) obj conn_id;
  if ok : bool then
    '(b, acts) ← evd_dbus_bridge_send_in_idle (with_ag a b) s obj EVD_DBUS_BRIDGE_CMD_REPLY serial conn_id subject [];
    Some (b, (map OfAgent effs) ++ acts)
  else
    r ← evd_dbus_agent_get_connection (ag b) obj conn_id;
    match r with
    | inr e =>
        evd_dbus_bridge_send_error_in_idle b s obj serial conn_id subject EVD_DBUS_BRIDGE_ERR_INVALID_SUBJECT
          (Some (connection_error e))
    | inl _ => None                                 (* no error was set *)
    end.

(** [owner_id]: the answer of GDBus. *)
Definition evd_dbus_bridge_own_name (b : bridge) (s : nat) (obj : string) (serial conn_id subject : Z)
    (args : list Z) (owner_id : Z) : result :=
  match json_gvariant_deserialize_data args (codes "(su)") with
  | None => evd_dbus_bridge_send_error b s obj serial conn_id 0 EVD_DBUS_BRIDGE_ERR_INVALID_ARGS None
  | Some _ =>
      r ← evd_dbus_agent_get_connection (ag b) obj conn_id;
      match r with
      | inl (Some _) =>
          '(a, id) ← evd_dbus_agent_own_name (ag b) obj conn_id owner_id;
          evd_dbus_bridge_send (with_ag a b) (Some s) obj EVD_DBUS_BRIDGE_CMD_REPLY serial conn_id subject
            (HttpMessage.print_d id)
      | _ => evd_dbus_bridge_send_error b s obj serial conn_id 0 EVD_DBUS_BRIDGE_ERR_INVALID_SUBJECT None
      end
  end.

Definition evd_dbus_bridge_unown_name (b : bridge) (s : nat) (obj : string) (serial conn_id subject : Z) : result :=
  let '(a, effs, ok) := evd_dbus_agent_unown_name (GVariant := GVariant) (ag b) obj subject in
  '(b, acts) ←
    (if ok : bool then
       evd_dbus_bridge_send (with_ag a b) (Some s) obj EVD_DBUS_BRIDGE_CMD_REPLY serial conn_id subject []
     else
       evd_dbus_bridge_send_error (with_ag a b) s obj serial conn_id subject EVD_DBUS_BRIDGE_ERR_INVALID_ARGS None);
  Some (b, (map OfAgent effs) ++ acts).

(** [reg_id]: the answer of GDBus, zero on error. *)
Definition evd_dbus_bridge_register_object (b : bridge) (s : nat) (obj : string) (serial conn_id subject : Z)
    (args : list Z) (reg_id : Z) : result :=
  match json_gvariant_deserialize_data args (codes "(ss)") with
  | None => evd_dbus_bridge_send_error b s obj serial conn_id 0 EVD_DBUS_BRIDGE_ERR_INVALID_ARGS None
  | Some v =>
      let '(path, iface_data) := get_ss v in
      match g_dbus_node_info_new_for_xml (codes "<node>" ++ iface_data ++ codes "</node>") with
      | Some (Some iface_name) =>
          '(a, id) ← evd_dbus_agent_register_object (ag b) obj conn_id path iface_name reg_id;
          let b := with_ag a b in
          if 0 <? id then
            evd_dbus_bridge_send b (Some s) obj EVD_DBUS_BRIDGE_CMD_REPLY serial conn_id subject (HttpMessage.print_d id)
          else
            evd_dbus_bridge_send_error b s obj serial conn_id subject EVD_DBUS_BRIDGE_ERR_ALREADY_REGISTERED None
      | _ => evd_dbus_bridge_send_error b s obj serial conn_id subject EVD_DBUS_BRIDGE_ERR_INVALID_ARGS None
      end
  end.

Definition evd_dbus_bridge_unregister_object (b : bridge) (s : nat) (obj : string) (serial conn_id subject : Z) : result :=
  let '(a, effs, ok) := evd_dbus_agent_unregister_object (GVariant := GVariant) (ag b) obj subject in
  '(b, acts) ←
    (if ok : bool then
       evd_dbus_bridge_send (with_ag a b) (Some s) obj EVD_DBUS_BRIDGE_CMD_REPLY serial conn_id subject []
     else
       evd_dbus_bridge_send_error (with_ag a b) s obj serial conn_id subject EVD_DBUS_BRIDGE_ERR_INVALID_SUBJECT None);
  Some (b, (map OfAgent effs) ++ acts).

Definition evd_dbus_bridge_new_proxy (b : bridge) (s : nat) (obj : string) (serial conn_id subject : Z) (args : list Z)
  : result :=
  match json_gvariant_deserialize_data args (codes "(sssu)") with
  | None => evd_dbus_bridge_send_error b s obj serial conn_id 0 EVD_DBUS_BRIDGE_ERR_INVALID_ARGS None
  | Some v =>
      let '(name, path, iface_name, flags) := get_sssu v in
      let c := evd_dbus_bridge_new_msg_closure s obj EVD_DBUS_BRIDGE_CMD_NEW_PROXY serial conn_id subject None 0 in
      r ← evd_dbus_agent_new_proxy (ag b) obj conn_id;
      match r with
      | inl None => Some (b, [])                    (* the closure is lost *)
      | inl (Some conn) =>
          let op := next_op b in
          Some (with_makings (<[op := mkMaking c conn_id flags conn]> (makings b)) (S op) b,
                [ProxyNew op conn name path iface_name])
      | inr e => Some (add_idle (OnNewProxyError (connection_error e) c) b, [])
      end
  end.

(** With the number the agent gave, or the message of the error. *)
Definition evd_dbus_bridge_on_new_proxy (b : bridge) (c : MsgClosure) (r : Z + list Z) : result :=
  match r with
  | inl id =>
      evd_dbus_bridge_send b (Some (slot c)) (c_obj c) EVD_DBUS_BRIDGE_CMD_REPLY (c_serial c) (c_conn_id c) (c_subject c)
        (HttpMessage.print_d id)
  | inr msg =>
      evd_dbus_bridge_send_error b (slot c) (c_obj c) (c_serial c) (c_conn_id c) (c_subject c)
        EVD_DBUS_BRIDGE_ERR_PROXY_FAILED (Some msg)
  end.

Definition evd_dbus_bridge_close_proxy (b : bridge) (s : nat) (obj : string) (serial conn_id subject : Z) : result :=
  let '(a, ok) := evd_dbus_agent_close_proxy (ag b) obj subject in
  if ok then evd_dbus_bridge_send (with_ag a b) (Some s) obj EVD_DBUS_BRIDGE_CMD_REPLY serial conn_id subject []
  else evd_dbus_bridge_send_error (with_ag a b) s obj serial conn_id subject EVD_DBUS_BRIDGE_ERR_INVALID_SUBJECT None.

(** The parameters are declared in this order. *)
Definition evd_dbus_bridge_call_method (b : bridge) (s : nat) (obj : string) (serial subject conn_id : Z)
    (args : list Z) : result :=
  match json_gvariant_deserialize_data args (codes "(ssgui)") with
  | None => evd_dbus_bridge_send_error b s obj serial conn_id subject EVD_DBUS_BRIDGE_ERR_INVALID_ARGS None
  | Some v =>
      let '(method_name, method_args, signature, flags, timeout) := get_ssgui v in
      match json_gvariant_deserialize_data method_args signature with
      | None => evd_dbus_bridge_send_error b s obj serial conn_id subject EVD_DBUS_BRIDGE_ERR_INVALID_ARGS None
      | Some params =>
          match evd_dbus_agent_get_proxy (ag b) obj subject with
          | inr _ => evd_dbus_bridge_send_error b s obj serial conn_id subject EVD_DBUS_BRIDGE_ERR_INVALID_SUBJECT None
          | inl px =>
              let c := evd_dbus_bridge_new_msg_closure s obj EVD_DBUS_BRIDGE_CMD_CALL_METHOD serial conn_id subject (Some args) 0 in
              let op := next_op b in
              Some (with_calls (<[op := c]> (calls b)) (S op) b,
                    [ProxyCall op (proxy px) method_name params flags timeout])
          end
      end
  end.

(** With what the method returned, or the code and the message of the error. *)
Definition evd_dbus_proxy_on_call_method_return (b : bridge) (c : MsgClosure) (r : GVariant + Z * list Z) : result :=
  match r with
  | inl v =>
      evd_dbus_bridge_send b (Some (slot c)) (c_obj c) EVD_DBUS_BRIDGE_CMD_CALL_METHOD_RETURN (c_serial c) (c_conn_id c)
        (c_subject c) (quote ++ escape_json_for_args (json_gvariant_serialize_data v) ++ quote)
  | inr (code, msg) =>
      let '(err_code, err_msg) :=
        if code =? G_DBUS_ERROR_INVALID_ARGS then (EVD_DBUS_BRIDGE_ERR_INVALID_ARGS, None)
        else if code =? G_DBUS_ERROR_UNKNOWN_METHOD then (EVD_DBUS_BRIDGE_ERR_UNKNOWN_METHOD, None)
        else (EVD_DBUS_BRIDGE_ERR_FAILED, Some msg) in
      evd_dbus_bridge_send_error b (slot c) (c_obj c) (c_serial c) (c_conn_id c) (c_subject c) err_code err_msg
  end.

Definition evd_dbus_bridge_get_method_signature_from_reg_object (a : agent) (obj : string) (reg_id serial : Z)
  : option (list Z) :=
  invocation ← evd_dbus_agent_get_method_invocation a obj reg_id serial;
  Some (codes "(" ++ concat (out_args invocation) ++ codes ")").

Definition evd_dbus_bridge_call_method_return (b : bridge) (s : nat) (obj : string) (serial conn_id subject : Z)
    (args : list Z) : result :=
  match
    (signature ← evd_dbus_bridge_get_method_signature_from_reg_object (ag b) obj subject serial;
     v ← json_gvariant_deserialize_data args (codes "(s)");
     json_gvariant_deserialize_data (get_s v) signature)
  with
  | None => evd_dbus_bridge_send_error b s obj serial conn_id subject EVD_DBUS_BRIDGE_ERR_INVALID_ARGS None
  | Some return_variant =>
      let '(a, effs, ok) := evd_dbus_agent_method_call_return (ag b) obj subject serial return_variant in
      if ok : bool then Some (with_ag a b, map OfAgent effs)
      else evd_dbus_bridge_send_error (with_ag a b) s obj serial conn_id subject EVD_DBUS_BRIDGE_ERR_INVALID_SUBJECT None
  end.

(** [answer]: the code and the message of GDBus's error, if any.  The error of the agent is read whether
    it was set or not. *)
Definition evd_dbus_bridge_emit_signal (b : bridge) (s : nat) (obj : string) (serial conn_id subject : Z)
    (args : list Z) (answer : option (Z * list Z)) : result :=
  match json_gvariant_deserialize_data args (codes "(sss)") with
  | None => evd_dbus_bridge_send_error b s obj serial conn_id 0 EVD_DBUS_BRIDGE_ERR_INVALID_ARGS None
  | Some v =>
      let '(signal_name, signal_args, signature) := get_sss v in
      match json_gvariant_deserialize_data signal_args signature with
      | None => evd_dbus_bridge_send_error b s obj serial conn_id 0 EVD_DBUS_BRIDGE_ERR_INVALID_ARGS None
      | Some params =>
          let '(effs, r) := evd_dbus_agent_emit_signal (ag b) obj subject signal_name params (fst <$> answer) in
          '(b, acts) ←
            match r with
            | inl _ => Some (b, [])
            | inr ErrNotPositive => None
            | inr (ErrGDBus code) =>
                let '(err_code, err_msg) :=
                  if code =? G_DBUS_ERROR_INVALID_ARGS then (EVD_DBUS_BRIDGE_ERR_INVALID_ARGS, None)
                  else (EVD_DBUS_BRIDGE_ERR_FAILED, snd <$> answer) in
                evd_dbus_bridge_send_error b s obj serial conn_id subject err_code err_msg
            | inr ErrInvalidData =>
                evd_dbus_bridge_send_error b s obj serial conn_id subject EVD_DBUS_BRIDGE_ERR_FAILED
                  (Some (codes "Object is invalid"))
            | inr ErrInvalidArgument =>
                evd_dbus_bridge_send_error b s obj serial conn_id subject EVD_DBUS_BRIDGE_ERR_FAILED
                  (Some (codes "Object registration id '" ++ HttpMessage.print_d subject ++ codes "' is invalid"))
            end;
          Some (b, (map OfAgent effs) ++ acts)
      end
  end.

(** ** Messages from peers *)

(** The answers of GDBus to what a command asks at once. *)
Record answers := mkAnswers { a_owner_id : Z; a_reg_id : Z; a_emit : option (Z * list Z) }.

Definition evd_dbus_bridge_process_msg (b : bridge) (obj : string) (msg : list Z) (ans : answers) : result :=
  let s := next_slot b in
  let b := with_slot (S s) b in
  match json_gvariant_deserialize_data msg (codes "(ytuus)") with
  | None => evd_dbus_bridge_send_error_in_idle b s obj 0 0 0 EVD_DBUS_BRIDGE_ERR_INVALID_MSG None
  | Some v =>
      let '(cmd, serial, conn_id, subject, args) := get_ytuus v in
      if cmd =? EVD_DBUS_BRIDGE_CMD_NEW_CONNECTION then evd_dbus_bridge_new_connection b s obj serial conn_id args
      else if cmd =? EVD_DBUS_BRIDGE_CMD_CLOSE_CONNECTION then evd_dbus_bridge_close_connection b s obj serial conn_id subject
      else if cmd =? EVD_DBUS_BRIDGE_CMD_OWN_NAME then
        evd_dbus_bridge_own_name b s obj serial conn_id subject args (a_owner_id ans)
      else if cmd =? EVD_DBUS_BRIDGE_CMD_UNOWN_NAME then evd_dbus_bridge_unown_name b s obj serial conn_id subject
      else if cmd =? EVD_DBUS_BRIDGE_CMD_REGISTER_OBJECT then
        evd_dbus_bridge_register_object b s obj serial conn_id subject args (a_reg_id ans)
      else if cmd =? EVD_DBUS_BRIDGE_CMD_UNREGISTER_OBJECT then evd_dbus_bridge_unregister_object b s obj serial conn_id subject
      else if cmd =? EVD_DBUS_BRIDGE_CMD_NEW_PROXY then evd_dbus_bridge_new_proxy b s obj serial conn_id subject args
      else if cmd =? EVD_DBUS_BRIDGE_CMD_CLOSE_PROXY then evd_dbus_bridge_close_proxy b s obj serial conn_id subject
      else if cmd =? EVD_DBUS_BRIDGE_CMD_CALL_METHOD then evd_dbus_bridge_call_method b s obj serial conn_id subject args
      else if cmd =? EVD_DBUS_BRIDGE_CMD_CALL_METHOD_RETURN then
        evd_dbus_bridge_call_method_return b s obj serial conn_id subject args
      else if cmd =? EVD_DBUS_BRIDGE_CMD_EMIT_SIGNAL then
        evd_dbus_bridge_emit_signal b s obj serial conn_id subject args (a_emit ans)
      else evd_dbus_bridge_send_error_in_idle b s obj serial conn_id 0 EVD_DBUS_BRIDGE_ERR_UNKNOW_COMMAND None
  end.

(** ** The main loop *)

Definition run_task (b : bridge) (t : task) : result :=
  match t with
  | OnIdleSend c => evd_dbus_bridge_on_idle_send b c
  | OnSendErrorIdle c => evd_dbus_bridge_on_send_error_idle b c
  | OnNewConnection id c => evd_dbus_bridge_on_new_connection b c (inl id)
  | OnNewProxyError msg c => evd_dbus_bridge_on_new_proxy b c (inr msg)
  end.

(** GDBus made a D-Bus connection, or tells why not. *)
Definition connection_made (b : bridge) (p : nat) (c : nat + list Z) : result :=
  '(a, obj, r, effs) ← evd_dbus_agent_on_new_dbus_connection (GVariant := GVariant) (ag b) p (match c with inl c => Some c | inr _ => None end);
  closure ← connections b !! p;
  let b := with_connections (delete p (connections b)) (with_ag a b) in
  '(b, acts) ← evd_dbus_bridge_on_new_connection b closure
                 (match r, c with Some id, _ => inl id | None, inr msg => inr msg | None, inl _ => inr [] end);
  Some (b, (map OfAgent effs) ++ acts).

Definition proxy_made (b : bridge) (op : nat) (px : nat + list Z) : result :=
  m ← makings b !! op;
  let c := mk_closure m in
  let b := with_makings (delete op (makings b)) (next_op b) b in
  '(a, r) ← evd_dbus_agent_on_new_dbus_proxy (ag b) (c_obj c) (mk_conn_id m) (mk_flags m) (mk_conn m)
              (match px with inl x => Some x | inr _ => None end);
  evd_dbus_bridge_on_new_proxy (with_ag a b) c
    (match r, px with Some id, _ => inl id | None, inr msg => inr msg | None, inl _ => inr [] end).

Definition call_returned (b : bridge) (op : nat) (r : GVariant + Z * list Z) : result :=
  c ← calls b !! op;
  evd_dbus_proxy_on_call_method_return (with_calls (delete op (calls b)) (next_op b) b) c r.

(** ** The base class *)

(** A peer of a transport that the mechanism uses, and what it sends. *)
Definition transport_on_new_peer (b : bridge) (peer : string) : bridge :=
  with_ag (evd_dbus_agent_set_object_vtable (ag b) peer) b.

Definition transport_on_receive (b : bridge) (peer : string) (data : list Z) (ans : answers) : result :=
  evd_dbus_bridge_process_msg b peer data ans.

End Bridge.

End DBusBridge.
