(* ===== verification/DBusBridgeSpec.v ===== *)
(** * The D-Bus bridge: theorems

    Every command is answered at most once, to the peer that sent it and with its serial, and every
    command but the return of a method and the emission of a signal is answered or still waits; the
    texts the bridge puts in its messages are read back when they are printable ASCII. *)
From S2P Require Import Prelude HttpMessage DBusAgent DBusAgentSpec DBusBridge.
Import DBusAgent DBusAgentSpec DBusBridge.

Module DBusBridgeSpec.

Create HintDb bridge.

Section Spec.
Context `{JsonGVariant}.
Implicit Types (b : bridge) (a : agent).

(** ** What waits and what was answered *)

(** A command by its number, the peer that sent it, and its serial. *)
Definition key : Type := nat * string * Z.

Definition key_of (c : MsgClosure) : key := (slot c, c_obj c, c_serial c).

Definition closure_of (t : task) : MsgClosure :=
  match t with OnIdleSend c | OnSendErrorIdle c | OnNewConnection _ c | OnNewProxyError _ c => c end.

Definition waiting b : list key :=
  (key_of ∘ closure_of <$> idle b) ++ (key_of ∘ snd <$> map_to_list (connections b)) ++
  (key_of ∘ mk_closure ∘ snd <$> map_to_list (makings b)) ++ (key_of ∘ snd <$> map_to_list (calls b)).

Definition answered (acts : list action) : list key :=
  omap (λ x, match x with Sent (Some s) obj m => Some (s, obj, m_serial m) | _ => None end) acts.

Lemma answered_app x y : answered (x ++ y) = answered x ++ answered y.
Proof. apply omap_app. Qed.

Lemma answered_agent effs : answered (map OfAgent effs) = [].
Proof. by induction effs. Qed.

(** The numbers in the tables were given out. *)
Record fresh b : Prop := {
  fresh_connections p : is_Some (connections b !! p) → (p < next_conn_data (ag b))%nat;
  fresh_makings op : is_Some (makings b !! op) → (op < next_op b)%nat;
  fresh_calls op : is_Some (calls b !! op) → (op < next_op b)%nat
}.

(** A step that takes on the commands [new]: they are answered, or wait. *)
Record takes b (new : list key) b' (acts : list action) : Prop := {
  takes_keys : answered acts ++ waiting b' ≡ₚ new ++ waiting b;
  takes_slot : next_slot b' = next_slot b;
  takes_fresh : fresh b'
}.

Lemma takes_nothing b : fresh b → takes b [] b [].
Proof. by split. Qed.

Lemma takes_app b b1 b2 x y e1 e2 : takes b x b1 e1 → takes b1 y b2 e2 → takes b (x ++ y) b2 (e1 ++ e2).
Proof.
  intros [K1 S1 F1] [K2 S2 F2]. split; [|congruence|done]. rewrite answered_app, <-app_assoc, K2.
  rewrite (assoc_L _ (answered e1)), (comm (++) (answered e1) y), <-app_assoc, K1, app_assoc.
  by rewrite (comm (++) y x).
Qed.

(** What the agent does is no answer. *)
Lemma takes_agent a b b' new effs acts :
  (next_conn_data (ag b) <= next_conn_data a)%nat → fresh b →
  (fresh (with_ag a b) → takes (with_ag a b) new b' acts) → takes b new b' (map OfAgent effs ++ acts).
Proof.
  intros Hn [F1 F2 F3] T. destruct T as [K S F]; [|split; [|done..]].
  - split; cbn [connections makings calls next_op ag with_ag]; [|done..]. intros p Hp%F1. lia.
  - rewrite answered_app, answered_agent. done.
Qed.

Lemma send_takes b s obj cmd serial conn_id subject args b' acts :
  fresh b → evd_dbus_bridge_send b (Some s) obj cmd serial conn_id subject args = Some (b', acts) →
  takes b [(s, obj, serial)] b' acts.
Proof. intros F. unfold evd_dbus_bridge_send. destruct (objects (ag b) !! obj); [|done]. by intros [= <- <-]. Qed.

(** What is told without being asked. *)
Lemma tell_takes effs : ∀ b b' acts, fresh b → tell b effs = Some (b', acts) → takes b [] b' acts.
Proof.
  assert (∀ b obj c s i j args b' acts, fresh b → evd_dbus_bridge_send b None obj c s i j args = Some (b', acts) → takes b [] b' acts) as Hnone.
  { intros b obj c s i j args b' acts F. unfold evd_dbus_bridge_send. destruct (objects (ag b) !! obj); [|done]. by intros [= <- <-]. }
  induction effs as [|e effs IH]; intros b b' acts F; cbn [tell]; [intros [= <- <-]; by apply takes_nothing|].
  set (r := match e with ProxySignal _ _ _ _ _ => _ | _ => _ end). destruct r as [[b1 e1]|] eqn:E1; [|done]. run_bind.
  destruct (tell b1 effs) as [[b2 e2]|] eqn:E2; [|done]. run_bind. intros [= <- <-].
  assert (takes b [] b1 e1) as T1.
  { subst r. destruct e; try (injection E1 as <- <-; by split); by eapply Hnone. }
  apply (takes_app b b1 b2 [] [] e1 e2 T1). apply IH; [apply T1|done].
Qed.

Lemma error_takes b s obj serial conn_id subject code msg b' acts :
  fresh b → evd_dbus_bridge_send_error b s obj serial conn_id subject code msg = Some (b', acts) →
  takes b [(s, obj, serial)] b' acts.
Proof. intros F. by apply send_takes. Qed.

(** A closure that is put somewhere. *)
Lemma idle_takes b t x : x = key_of (closure_of t) → fresh b → takes b [x] (add_idle t b) [].
Proof.
  intros -> F. split; [|done|by destruct F]. unfold waiting, add_idle. cbn [idle connections makings calls with_idle].
  rewrite fmap_app. cbn [fmap list_fmap answered omap list_omap].
  solve_Permutation.
Qed.

Lemma table_insert {A} (f : A → key) (m : gmap nat A) i x :
  m !! i = None → (f ∘ snd <$> map_to_list (<[i := x]> m)) ≡ₚ f x :: (f ∘ snd <$> map_to_list m).
Proof. intros Hi. by rewrite map_to_list_insert. Qed.

Lemma table_delete {A} (f : A → key) (m : gmap nat A) i x :
  m !! i = Some x → (f ∘ snd <$> map_to_list m) ≡ₚ f x :: (f ∘ snd <$> map_to_list (delete i m)).
Proof. intros Hi. rewrite <-(map_to_list_delete m i x Hi). done. Qed.

Lemma unused {A} (m : gmap nat A) n : (∀ i, is_Some (m !! i) → (i < n)%nat) → m !! n = None.
Proof. intros Hm. destruct (m !! n) eqn:E; [|done]. pose proof (Hm n (mk_is_Some _ _ E)). lia. Qed.

Lemma connection_takes b p c x :
  x = key_of c → fresh b → connections b !! p = None → (p < next_conn_data (ag b))%nat →
  takes b [x] (with_connections (<[p := c]> (connections b)) b) [].
Proof.
  intros -> [F1 F2 F3] Hp Hlt. split; [|done|].
  - unfold waiting. cbn [idle connections makings calls with_connections]. rewrite (table_insert key_of) by done.
    cbn [answered omap list_omap app]. solve_Permutation.
  - split; cbn [connections makings calls next_op ag with_connections]; [|done..].
    intros q [c' Hq]. apply lookup_insert_Some in Hq as [[<- _]|[_ Hq]]; [done|]. apply F1. eauto.
Qed.

Lemma making_takes b m :
  fresh b → takes b [key_of (mk_closure m)] (with_makings (<[next_op b := m]> (makings b)) (S (next_op b)) b) [].
Proof.
  intros [F1 F2 F3]. split; [|done|].
  - unfold waiting. cbn [idle connections makings calls with_makings].
    rewrite (table_insert (key_of ∘ mk_closure)) by by apply unused.
    cbn [answered omap list_omap app compose]. solve_Permutation.
  - split; cbn [connections makings calls next_op ag with_makings]; [done| |intros op ?%F3; lia].
    intros op [m' Hop]. apply lookup_insert_Some in Hop as [[<- _]|[_ Hop]]; [lia|]. pose proof (F2 op (mk_is_Some _ _ Hop)). lia.
Qed.

Lemma call_takes b c :
  fresh b → takes b [key_of c] (with_calls (<[next_op b := c]> (calls b)) (S (next_op b)) b) [].
Proof.
  intros [F1 F2 F3]. split; [|done|].
  - unfold waiting. cbn [idle connections makings calls with_calls]. rewrite (table_insert key_of) by by apply unused.
    cbn [answered omap list_omap app]. solve_Permutation.
  - split; cbn [connections makings calls next_op ag with_calls]; [done|intros op ?%F2; lia|].
    intros op [m' Hop]. apply lookup_insert_Some in Hop as [[<- _]|[_ Hop]]; [lia|]. pose proof (F3 op (mk_is_Some _ _ Hop)). lia.
Qed.

(** ** The commands *)

(** A command that is answered, or waits. *)
Definition one b (x : key) (r : option (bridge * list action)) : Prop :=
  ∀ b' acts, r = Some (b', acts) → takes b [x] b' acts.

Lemma one_send b s obj cmd serial conn_id subject args :
  fresh b → one b (s, obj, serial) (evd_dbus_bridge_send b (Some s) obj cmd serial conn_id subject args).
Proof. intros F b' acts. by apply send_takes. Qed.

Lemma one_error b s obj serial conn_id subject code msg :
  fresh b → one b (s, obj, serial) (evd_dbus_bridge_send_error b s obj serial conn_id subject code msg).
Proof. intros F b' acts. by apply error_takes. Qed.

Lemma one_error_in_idle b s obj serial conn_id subject code msg :
  fresh b → one b (s, obj, serial) (evd_dbus_bridge_send_error_in_idle b s obj serial conn_id subject code msg).
Proof. intros F b' acts [= <- <-]. by apply idle_takes. Qed.

Lemma one_send_in_idle b s obj cmd serial conn_id subject args :
  fresh b → one b (s, obj, serial) (evd_dbus_bridge_send_in_idle b s obj cmd serial conn_id subject args).
Proof. intros F b' acts [= <- <-]. by apply idle_takes. Qed.

(** After an operation of the agent. *)
Lemma one_agent a b x effs r :
  (next_conn_data (ag b) <= next_conn_data a)%nat → fresh b → (fresh (with_ag a b) → one (with_ag a b) x r) →
  one b x ('(b, acts) ← r; Some (b, map OfAgent effs ++ acts)).
Proof.
  intros Hn F Hr b' acts. destruct r as [[b1 e1]|] eqn:E; [|done]. run_bind. intros [= <- <-].
  apply (takes_agent a b); [done..|]. intros F'. by apply (Hr F').
Qed.

Lemma one_agent_quiet a b x r :
  (next_conn_data (ag b) <= next_conn_data a)%nat → fresh b → (fresh (with_ag a b) → one (with_ag a b) x r) → one b x r.
Proof.
  intros Hn F Hr b' acts E. change acts with (map OfAgent [] ++ acts). apply (takes_agent a b); [done..|].
  intros F'. by apply (Hr F').
Qed.

#[local] Hint Resolve one_send one_error one_error_in_idle one_send_in_idle : bridge.

Lemma new_connection_one b s obj serial conn_id args :
  fresh b → one b (s, obj, serial) (evd_dbus_bridge_new_connection b s obj serial conn_id args).
Proof.
  intros F. unfold evd_dbus_bridge_new_connection. destruct (json_gvariant_deserialize_data args _) as [v|]; [|auto with bridge].
  destruct (get_sb v) as [address r]. cbn zeta.
  destruct (evd_dbus_agent_new_connection (ag b) obj address r) as [[[a st] effs]|] eqn:E; [|done]. run_bind.
  apply new_connection_next in E as [Hn Hp]. intros b' acts [= <- <-]. rewrite <-(app_nil_r (map OfAgent effs)).
  apply (takes_agent a b); [done..|]. intros F'. destruct st as [id|p].
  - by apply idle_takes.
  - destruct (Hp p eq_refl) as [-> Hlt]. apply (connection_takes (with_ag a b)); [done|done| |done].
    cbn [connections with_ag]. apply unused, F.
Qed.

Lemma close_connection_one b s obj serial conn_id subject :
  fresh b → one b (s, obj, serial) (evd_dbus_bridge_close_connection b s obj serial conn_id subject).
Proof.
  intros F. unfold evd_dbus_bridge_close_connection.
  destruct (evd_dbus_agent_close_connection (ag b) obj conn_id) as [[[a effs] ok]|] eqn:E; [|done]. run_bind.
  assert (exec (Close obj conn_id) (ag b) = Some (a, effs)) as En by (cbn [exec]; by rewrite E).
  apply exec_next in En. destruct ok; [apply (one_agent a b); auto with bridge|].
  destruct (evd_dbus_agent_get_connection _ _ _) as [[c|e]|]; [done|run_bind; auto with bridge|done].
Qed.

Lemma own_name_one b s obj serial conn_id subject args owner_id :
  fresh b → one b (s, obj, serial) (evd_dbus_bridge_own_name b s obj serial conn_id subject args owner_id).
Proof.
  intros F. unfold evd_dbus_bridge_own_name. destruct (json_gvariant_deserialize_data args _); [|auto with bridge].
  destruct (evd_dbus_agent_get_connection _ _ _) as [[[c|]|e]|]; run_bind; [|auto with bridge..|done].
  destruct (evd_dbus_agent_own_name (ag b) obj conn_id owner_id) as [[a id]|] eqn:E; [|done]. run_bind.
  assert (exec (GVariant := GVariant) (Own obj conn_id owner_id) (ag b) = Some (a, [])) as En by (cbn [exec]; by rewrite E).
  apply exec_next in En. apply (one_agent_quiet a); auto with bridge.
Qed.

Lemma unown_name_one b s obj serial conn_id subject :
  fresh b → one b (s, obj, serial) (evd_dbus_bridge_unown_name b s obj serial conn_id subject).
Proof.
  intros F. unfold evd_dbus_bridge_unown_name. destruct (evd_dbus_agent_unown_name (ag b) obj subject) as [[a effs] ok] eqn:E.
  assert (exec (Unown obj subject) (ag b) = Some (a, effs)) as En by (cbn [exec]; by rewrite E).
  apply exec_next in En. destruct ok; apply (one_agent a b); auto with bridge.
Qed.

Lemma unregister_object_one b s obj serial conn_id subject :
  fresh b → one b (s, obj, serial) (evd_dbus_bridge_unregister_object b s obj serial conn_id subject).
Proof.
  intros F. unfold evd_dbus_bridge_unregister_object.
  destruct (evd_dbus_agent_unregister_object (ag b) obj subject) as [[a effs] ok] eqn:E.
  assert (exec (Unregister obj subject) (ag b) = Some (a, effs)) as En by (cbn [exec]; by rewrite E).
  apply exec_next in En. destruct ok; apply (one_agent a b); auto with bridge.
Qed.

Lemma register_object_one b s obj serial conn_id subject args reg_id :
  fresh b → one b (s, obj, serial) (evd_dbus_bridge_register_object b s obj serial conn_id subject args reg_id).
Proof.
  intros F. unfold evd_dbus_bridge_register_object. destruct (json_gvariant_deserialize_data args _) as [v|]; [|auto with bridge].
  destruct (get_ss v) as [path iface_data]. destruct (g_dbus_node_info_new_for_xml _) as [[name|]|]; [|auto with bridge..].
  destruct (evd_dbus_agent_register_object (ag b) obj conn_id path name reg_id) as [[a id]|] eqn:E; [|done]. run_bind.
  assert (exec (GVariant := GVariant) (Register obj conn_id path name reg_id) (ag b) = Some (a, [])) as En
    by (cbn [exec]; by rewrite E).
  apply exec_next in En. destruct (0 <? id); apply (one_agent_quiet a); auto with bridge.
Qed.

Lemma close_proxy_one b s obj serial conn_id subject :
  fresh b → one b (s, obj, serial) (evd_dbus_bridge_close_proxy b s obj serial conn_id subject).
Proof.
  intros F. unfold evd_dbus_bridge_close_proxy. destruct (evd_dbus_agent_close_proxy (ag b) obj subject) as [a ok] eqn:E.
  assert (exec (GVariant := GVariant) (CloseProxy obj subject) (ag b) = Some (a, [])) as En by (cbn [exec]; by rewrite E).
  apply exec_next in En. destruct ok; apply (one_agent_quiet a); auto with bridge.
Qed.

(** A proxy over a connection whose number is not positive is the exception. *)
Lemma new_proxy_one b s obj serial conn_id subject args :
  fresh b → (json_gvariant_deserialize_data args (codes "(sssu)") = None ∨ 0 < conn_id) →
  one b (s, obj, serial) (evd_dbus_bridge_new_proxy b s obj serial conn_id subject args).
Proof.
  intros F Hok. unfold evd_dbus_bridge_new_proxy.
  destruct (json_gvariant_deserialize_data args (codes "(sssu)")) as [v|]; [|auto with bridge].
  destruct Hok as [|Hpos]; [done|]. destruct (get_sssu v) as [[[name path] iface_name] flags]. cbn zeta.
  unfold evd_dbus_agent_new_proxy. destruct (Z.leb_spec conn_id 0); [lia|].
  destruct (evd_dbus_agent_get_connection _ _ _) as [[[c|]|e]|]; run_bind; [| | |done]; intros b' acts [= <- <-].
  - pose proof (making_takes b (mkMaking (evd_dbus_bridge_new_msg_closure s obj EVD_DBUS_BRIDGE_CMD_NEW_PROXY serial conn_id
      subject None 0) conn_id flags c) F) as [K S F']. by split.
  - by apply idle_takes.
  - by apply idle_takes.
Qed.

Lemma call_method_one b s obj serial subject conn_id args :
  fresh b → one b (s, obj, serial) (evd_dbus_bridge_call_method b s obj serial subject conn_id args).
Proof.
  intros F. unfold evd_dbus_bridge_call_method. destruct (json_gvariant_deserialize_data args _) as [v|]; [|auto with bridge].
  destruct (get_ssgui v) as [[[[name margs] signature] flags] timeout].
  destruct (json_gvariant_deserialize_data margs signature) as [params|]; [|auto with bridge].
  destruct (evd_dbus_agent_get_proxy (ag b) obj subject) as [px|e]; [|auto with bridge].
  intros b' acts [= <- <-].
  pose proof (call_takes b (evd_dbus_bridge_new_msg_closure s obj EVD_DBUS_BRIDGE_CMD_CALL_METHOD serial conn_id
    subject (Some args) 0) F) as [K S F']. by split.
Qed.

(** ** The two commands that are answered on error only *)

Definition at_most_one b (x : key) (r : option (bridge * list action)) : Prop :=
  ∀ b' acts, r = Some (b', acts) → takes b [x] b' acts ∨ takes b [] b' acts.

Lemma one_at_most b x r : one b x r → at_most_one b x r.
Proof. intros Ho b' acts E. left. by apply Ho. Qed.

Lemma call_method_return_one b s obj serial conn_id subject args :
  fresh b → at_most_one b (s, obj, serial) (evd_dbus_bridge_call_method_return b s obj serial conn_id subject args).
Proof.
  intros F. unfold evd_dbus_bridge_call_method_return.
  match goal with |- at_most_one _ _ (match ?o with _ => _ end) => destruct o as [v|] end; [|by apply one_at_most, one_error].
  destruct (evd_dbus_agent_method_call_return (ag b) obj subject serial v) as [[a effs] ok] eqn:E.
  assert (exec (Return obj subject serial v) (ag b) = Some (a, effs)) as En by (cbn [exec]; by rewrite E).
  apply exec_next in En. destruct ok.
  - intros b' acts [= <- <-]. right. rewrite <-(app_nil_r (map OfAgent effs)). apply (takes_agent a b); [done..|].
    apply takes_nothing.
  - apply one_at_most, (one_agent_quiet a); auto with bridge.
Qed.

Lemma emit_signal_one b s obj serial conn_id subject args answer :
  fresh b → at_most_one b (s, obj, serial) (evd_dbus_bridge_emit_signal b s obj serial conn_id subject args answer).
Proof.
  intros F. unfold evd_dbus_bridge_emit_signal.
  destruct (json_gvariant_deserialize_data args _) as [v|]; [|by apply one_at_most, one_error].
  destruct (get_sss v) as [[name sargs] signature].
  destruct (json_gvariant_deserialize_data sargs signature) as [params|]; [|by apply one_at_most, one_error].
  destruct (evd_dbus_agent_emit_signal (ag b) obj subject name params _) as [effs r].
  assert (∀ r', one b (s, obj, serial) r' →
    at_most_one b (s, obj, serial) ('(b, acts) ← r'; Some (b, map OfAgent effs ++ acts))) as Hagent.
  { intros r' Ho b' acts. destruct r' as [[b1 e1]|] eqn:E; [|done]. run_bind. intros [= <- <-]. left.
    destruct (Ho b1 e1 eq_refl) as [K S F']. split; [|done..]. by rewrite answered_app, answered_agent. }
  destruct r as [[]|[| | |code]].
  - run_bind. intros b' acts [= <- <-]. right. split; [|done..]. by rewrite answered_app, answered_agent.
  - by apply Hagent, one_error.
  - by apply Hagent, one_error.
  - done.
  - destruct (code =? G_DBUS_ERROR_INVALID_ARGS); by apply Hagent, one_error.
Qed.

(** The serial of a message, and whether it has to be answered. *)
Definition serial_of (msg : list Z) : Z :=
  match json_gvariant_deserialize_data msg (codes "(ytuus)") with
  | None => 0
  | Some v => let '(_, serial, _, _, _) := get_ytuus v in serial
  end.

Definition owes (msg : list Z) : bool :=
  match json_gvariant_deserialize_data msg (codes "(ytuus)") with
  | None => true
  | Some v =>
      let '(cmd, _, conn_id, _, args) := get_ytuus v in
      negb ((cmd =? EVD_DBUS_BRIDGE_CMD_CALL_METHOD_RETURN) || (cmd =? EVD_DBUS_BRIDGE_CMD_EMIT_SIGNAL) ||
            ((cmd =? EVD_DBUS_BRIDGE_CMD_NEW_PROXY) && (conn_id <=? 0) &&
             bool_decide (is_Some (json_gvariant_deserialize_data args (codes "(sssu)")))))
  end.

Lemma process_takes b obj msg ans b' acts :
  fresh b → evd_dbus_bridge_process_msg b obj msg ans = Some (b', acts) →
  let b0 := with_slot (S (next_slot b)) b in
  takes b0 [(next_slot b, obj, serial_of msg)] b' acts ∨ (takes b0 [] b' acts ∧ owes msg = false).
Proof.
  intros F0 E. cbn zeta. set (b0 := with_slot (S (next_slot b)) b). assert (fresh b0) as F by (destruct F0; by split).
  revert E. unfold evd_dbus_bridge_process_msg, serial_of, owes. fold b0.
  destruct (json_gvariant_deserialize_data msg _) as [v|]; [|intros E; left; by eapply one_error_in_idle].
  destruct (get_ytuus v) as [[[[cmd serial] conn_id] subject] args].
  assert (∀ P r, one b0 (next_slot b, obj, serial) r → r = Some (b', acts) →
    takes b0 [(next_slot b, obj, serial)] b' acts ∨ P) as Hone by (intros P r Hr Er; left; by apply Hr).
  assert (∀ Q : Prop, ∀ r, Q → at_most_one b0 (next_slot b, obj, serial) r → r = Some (b', acts) →
    takes b0 [(next_slot b, obj, serial)] b' acts ∨ (takes b0 [] b' acts ∧ Q)) as Hmost.
  { intros Q r HQ Hr Er. destruct (Hr b' acts Er); [by left|by right]. }
  destruct (cmd =? EVD_DBUS_BRIDGE_CMD_NEW_CONNECTION); [by apply Hone, new_connection_one|].
  destruct (cmd =? EVD_DBUS_BRIDGE_CMD_CLOSE_CONNECTION); [by apply Hone, close_connection_one|].
  destruct (cmd =? EVD_DBUS_BRIDGE_CMD_OWN_NAME); [by apply Hone, own_name_one|].
  destruct (cmd =? EVD_DBUS_BRIDGE_CMD_UNOWN_NAME); [by apply Hone, unown_name_one|].
  destruct (cmd =? EVD_DBUS_BRIDGE_CMD_REGISTER_OBJECT); [by apply Hone, register_object_one|].
  destruct (cmd =? EVD_DBUS_BRIDGE_CMD_UNREGISTER_OBJECT); [by apply Hone, unregister_object_one|].
  destruct (cmd =? EVD_DBUS_BRIDGE_CMD_NEW_PROXY).
  { destruct (json_gvariant_deserialize_data args (codes "(sssu)")) as [pv|] eqn:Ea.
    - destruct (Z.leb_spec conn_id 0) as [Hle|Hlt]; [|apply Hone, new_proxy_one; [done|by right]].
      rewrite bool_decide_true by done. cbn [andb]. rewrite orb_true_r. unfold evd_dbus_bridge_new_proxy. rewrite Ea.
      destruct (get_sssu pv) as [[[name path] iface_name] flags]. cbn zeta. unfold evd_dbus_agent_new_proxy.
      destruct (Z.leb_spec conn_id 0); [|lia]. run_bind. intros [= <- <-]. right. split; [by apply takes_nothing|done].
    - apply Hone, new_proxy_one; [done|by left]. }
  destruct (cmd =? EVD_DBUS_BRIDGE_CMD_CLOSE_PROXY); [by apply Hone, close_proxy_one|].
  destruct (cmd =? EVD_DBUS_BRIDGE_CMD_CALL_METHOD); [by apply Hone, call_method_one|].
  destruct (cmd =? EVD_DBUS_BRIDGE_CMD_CALL_METHOD_RETURN); [by apply Hmost, call_method_return_one|].
  destruct (cmd =? EVD_DBUS_BRIDGE_CMD_EMIT_SIGNAL); [by apply Hmost, emit_signal_one|].
  by apply Hone, one_error_in_idle.
Qed.

(** ** What waits is answered *)

Lemma new_connection_answered b c r :
  fresh b → one b (key_of c) (evd_dbus_bridge_on_new_connection b c r).
Proof.
  intros F. unfold evd_dbus_bridge_on_new_connection. destruct r as [id|msg]; [|by apply one_error].
  destruct (evd_dbus_agent_new_connection_finish (ag b) (c_obj c) id); [|done]. run_bind. by apply one_send.
Qed.

Lemma new_proxy_answered b c r : fresh b → one b (key_of c) (evd_dbus_bridge_on_new_proxy b c r).
Proof. intros F. destruct r; [by apply one_send|by apply one_error]. Qed.

Lemma call_answered b c r : fresh b → one b (key_of c) (evd_dbus_proxy_on_call_method_return b c r).
Proof.
  intros F. destruct r as [v|[code msg]]; [by apply one_send|]. cbn [evd_dbus_proxy_on_call_method_return].
  repeat (destruct (_ =? _); [by apply one_error|]). by apply one_error.
Qed.

Lemma task_answered b t : fresh b → one b (key_of (closure_of t)) (run_task b t).
Proof.
  intros F. destruct t; cbn [run_task closure_of].
  - by apply one_send.
  - by apply one_error.
  - by apply new_connection_answered.
  - by apply new_proxy_answered.
Qed.

(** A closure that is taken out and answered. *)
Lemma settled b b1 x b' acts :
  waiting b ≡ₚ x :: waiting b1 → next_slot b1 = next_slot b → takes b1 [x] b' acts → takes b [] b' acts.
Proof. intros Hw Hs [K S F]. split; [|congruence|done]. rewrite K, Hw. done. Qed.

Lemma run_idle_takes b i t b' acts :
  fresh b → idle b !! i = Some t → run_task (with_idle (delete i (idle b)) b) t = Some (b', acts) → takes b [] b' acts.
Proof.
  intros F Hi E. set (b1 := with_idle (delete i (idle b)) b). assert (fresh b1) as F1 by (destruct F; by split).
  apply (settled b b1 (key_of (closure_of t))); [|done|by apply task_answered].
  unfold waiting. cbn [b1 idle connections makings calls with_idle].
  rewrite (delete_Permutation (idle b) i t Hi) at 1. done.
Qed.

Lemma connection_made_takes b p c b' acts :
  fresh b → connection_made b p c = Some (b', acts) → takes b [] b' acts.
Proof.
  intros F. unfold connection_made.
  destruct (evd_dbus_agent_on_new_dbus_connection (ag b) p _) as [[[[a obj] r] effs]|] eqn:E; [|done]. run_bind.
  destruct (connections b !! p) as [cl|] eqn:Hc; [|done]. run_bind.
  assert (exec (Connected p (match c with inl c => Some c | inr _ => None end)) (ag b) = Some (a, effs)) as En
    by (cbn [exec]; by rewrite E).
  apply exec_next in En.
  set (b1 := with_connections (delete p (connections b)) (with_ag a b)).
  destruct (evd_dbus_bridge_on_new_connection b1 cl _) as [[b2 e2]|] eqn:E2; [|done]. run_bind. intros [= <- <-].
  assert (fresh b1) as F1.
  { destruct F as [F1 F2 F3]. split; cbn [b1 connections makings calls next_op ag with_connections with_ag]; [|done..].
    intros q [c' Hq]. apply lookup_delete_Some in Hq as [_ Hq]. pose proof (F1 q (mk_is_Some _ _ Hq)). lia. }
  apply new_connection_answered in E2; [|done]. apply (settled b b1 (key_of cl)); [|done|].
  - unfold waiting. cbn [b1 idle connections makings calls with_connections with_ag].
    rewrite (table_delete key_of _ _ _ Hc). solve_Permutation.
  - destruct E2 as [K S F2]. split; [|done..]. by rewrite answered_app, answered_agent.
Qed.

Lemma proxy_made_takes b op px b' acts : fresh b → proxy_made b op px = Some (b', acts) → takes b [] b' acts.
Proof.
  intros F. unfold proxy_made. destruct (makings b !! op) as [m|] eqn:Hm; [|done]. run_bind.
  set (b0 := with_makings (delete op (makings b)) (next_op b) b).
  destruct (evd_dbus_agent_on_new_dbus_proxy _ _ _ _ _ _) as [[a r]|] eqn:E; [|done]. run_bind. intros E2.
  assert (exec (GVariant := GVariant) (ProxyMade (c_obj (mk_closure m)) (mk_conn_id m) (mk_flags m) (mk_conn m)
    (match px with inl x => Some x | inr _ => None end)) (ag b0) = Some (a, [])) as En by (cbn [exec]; by rewrite E).
  apply exec_next in En. change (ag b0) with (ag b) in En. set (b1 := with_ag a b0).
  assert (fresh b1) as F1.
  { destruct F as [F1 F2 F3]. split; cbn [b1 b0 connections makings calls next_op ag with_makings with_ag]; [| |done].
    - intros q Hq%F1. lia.
    - intros q [c' Hq]. apply lookup_delete_Some in Hq as [_ Hq]. apply F2. eauto. }
  apply (settled b b1 (key_of (mk_closure m))); [|done|by apply (new_proxy_answered b1 (mk_closure m)) in E2].
  unfold waiting. cbn [b1 b0 idle connections makings calls with_makings with_ag].
  rewrite (table_delete (key_of ∘ mk_closure) _ _ _ Hm). cbn [compose]. solve_Permutation.
Qed.

Lemma call_returned_takes b op r b' acts : fresh b → call_returned b op r = Some (b', acts) → takes b [] b' acts.
Proof.
  intros F. unfold call_returned. destruct (calls b !! op) as [c|] eqn:Hc; [|done]. run_bind.
  set (b1 := with_calls (delete op (calls b)) (next_op b) b). intros E.
  assert (fresh b1) as F1.
  { destruct F as [F1 F2 F3]. split; cbn [b1 connections makings calls next_op ag with_calls]; [done..|].
    intros q [c' Hq]. apply lookup_delete_Some in Hq as [_ Hq]. apply F3. eauto. }
  apply (settled b b1 (key_of c)); [|done|by apply call_answered in E].
  unfold waiting. cbn [b1 idle connections makings calls with_calls]. rewrite (table_delete key_of _ _ _ Hc). solve_Permutation.
Qed.

(** ** Executions *)

Inductive step :=
  | NewPeer (obj : string)
  | Receive (obj : string) (msg : list Z) (ans : answers)
  | RunIdle (i : nat)
  | OnConnection (p : nat) (c : nat + list Z)
  | OnProxy (op : nat) (px : nat + list Z)
  | OnReturn (op : nat) (r : GVariant + Z * list Z)
  | OnSignal (obj : string) (proxy_id : Z) (signal_name : list Z) (params : GVariant)
  | OnCall (obj : string) (conn : nat) (path iface_name method_name : list Z) (params : GVariant) (invocation : nat)
  | OnAcquired (obj : string) (owner_id : Z)
  | OnLost (obj : string) (owner_id : Z)
  | Gone (obj : string).

Definition do (x : step) b : option (bridge * list action) :=
  match x with
  | NewPeer obj => Some (transport_on_new_peer b obj, [])
  | Receive obj msg ans => transport_on_receive b obj msg ans
  | RunIdle i => t ← idle b !! i; run_task (with_idle (delete i (idle b)) b) t
  | OnConnection p c => connection_made b p c
  | OnProxy op px => proxy_made b op px
  | OnReturn op r => call_returned b op r
  | OnSignal obj proxy_id name params => tell b (evd_dbus_agent_on_proxy_signal (ag b) obj proxy_id name params)
  | OnCall obj conn path iface_name name params inv =>
      '(a, effs) ← evd_dbus_agent_method_called (ag b) obj conn path iface_name name params inv; tell (with_ag a b) effs
  | OnAcquired obj owner_id => tell b (evd_dbus_agent_name_acquired (ag b) obj owner_id)
  | OnLost obj owner_id => tell b (evd_dbus_agent_name_lost (ag b) obj owner_id)
  | Gone obj => '(a, effs) ← evd_dbus_agent_on_object_destroyed (ag b) obj; Some (with_ag a b, map OfAgent effs)
  end.

Fixpoint perform (xs : list step) b : option (bridge * list action) :=
  match xs with
  | [] => Some (b, [])
  | x :: xs => '(b, e1) ← do x b; '(b, e2) ← perform xs b; Some (b, e1 ++ e2)
  end.

(** The messages received, in order: the number of a command is its place. *)
Definition received (xs : list step) : list (string * list Z) :=
  omap (λ x, match x with Receive obj msg _ => Some (obj, msg) | _ => None end) xs.

Lemma do_takes x b b' acts :
  fresh b → do x b = Some (b', acts) →
  match x with
  | Receive obj msg _ =>
      let b0 := with_slot (S (next_slot b)) b in
      takes b0 [(next_slot b, obj, serial_of msg)] b' acts ∨ (takes b0 [] b' acts ∧ owes msg = false)
  | _ => takes b [] b' acts
  end.
Proof.
  intros F. destruct x; cbn [do].
  - intros [= <- <-]. split; [done..|]. by destruct F.
  - by apply process_takes.
  - destruct (idle b !! i) as [t|] eqn:Hi; [|done]. run_bind. by apply run_idle_takes.
  - by apply connection_made_takes.
  - by apply proxy_made_takes.
  - by apply call_returned_takes.
  - by apply tell_takes.
  - destruct (evd_dbus_agent_method_called _ _ _ _ _ _ _ _) as [[a effs]|] eqn:E; [|done]. run_bind. intros Et.
    assert (exec (Called obj conn path iface_name method_name params invocation) (ag b) = Some (a, effs)) as En by done.
    apply exec_next in En. change acts with (map OfAgent [] ++ acts). apply (takes_agent a b); [done..|].
    intros F'. by apply tell_takes in Et.
  - by apply tell_takes.
  - by apply tell_takes.
  - destruct (evd_dbus_agent_on_object_destroyed (ag b) obj) as [[a effs]|] eqn:E; [|done]. run_bind. intros [= <- <-].
    assert (exec (Destroy obj) (ag b) = Some (a, effs)) as En by done. apply exec_next in En.
    rewrite <-(app_nil_r (map OfAgent effs)). apply (takes_agent a b); [done..|]. apply takes_nothing.
Qed.

(** What holds of the commands answered or waiting, for the messages received. *)
Record accounted (log : list (string * list Z)) (ks : list key) : Prop := {
  once : NoDup (ks.*1.*1);
  known s obj z : (s, obj, z) ∈ ks → ∃ msg, log !! s = Some (obj, msg) ∧ z = serial_of msg;
  owed s obj msg : log !! s = Some (obj, msg) → owes msg = true → (s, obj, serial_of msg) ∈ ks
}.

Lemma accounted_perm log ks ks' : ks ≡ₚ ks' → accounted log ks → accounted log ks'.
Proof.
  intros Hp [O K W]. split.
  - by rewrite <-Hp.
  - intros s obj z. rewrite <-Hp. apply K.
  - intros s obj msg. rewrite <-Hp. apply W.
Qed.

Lemma accounted_received log ks obj msg new :
  accounted log ks → new = [(length log, obj, serial_of msg)] ∨ (new = [] ∧ owes msg = false) →
  accounted (log ++ [(obj, msg)]) (new ++ ks).
Proof.
  intros [O K W] Hn.
  assert (∀ s o z, (s, o, z) ∈ ks → ∃ m, (log ++ [(obj, msg)]) !! s = Some (o, m) ∧ z = serial_of m) as K'.
  { intros s o z Hin. destruct (K s o z Hin) as (m & Hm & ?). exists m. split; [|done]. by apply lookup_app_l_Some. }
  assert (∀ s, s ∈ ks.*1.*1 → (s < length log)%nat) as Hlt.
  { intros s Hs. apply list_elem_of_fmap in Hs as ([s' o] & -> & Hs). apply list_elem_of_fmap in Hs as ([[s'' o'] z] & [= -> ->] & Hs).
    destruct (K _ _ _ Hs) as (m & Hm & _). by apply lookup_lt_Some in Hm. }
  split.
  - destruct Hn as [->|[-> _]]; [|done]. cbn. apply NoDup_cons. split; [|done]. intros Hs%Hlt. lia.
  - intros s o z [Hin|Hin]%elem_of_app; [|by apply K']. destruct Hn as [->|[-> _]]; [|by apply not_elem_of_nil in Hin].
    apply list_elem_of_singleton in Hin as [= -> -> ->]. exists msg. split; [|done]. by apply list_lookup_middle.
  - intros s o m Hs Hw. apply elem_of_app. apply lookup_app_Some in Hs as [Hs|[Hge Hs]]; [right; by apply W|left].
    destruct (s - length log)%nat as [|n] eqn:En; [|by destruct n]. injection Hs as <- <-.
    assert (s = length log) as -> by lia. destruct Hn as [->|[_ ?]]; [by apply list_elem_of_singleton|congruence].
Qed.

Lemma perform_accounted xs : ∀ b b' acts pre log,
  fresh b → next_slot b = length log → accounted log (answered pre ++ waiting b) → perform xs b = Some (b', acts) →
  accounted (log ++ received xs) (answered (pre ++ acts) ++ waiting b').
Proof.
  induction xs as [|x xs IH]; intros b b' acts pre log F Hs A; cbn [perform].
  { intros [= <- <-]. cbn. by rewrite !app_nil_r. }
  destruct (do x b) as [[b1 e1]|] eqn:E1; [|done]. run_bind.
  destruct (perform xs b1) as [[b2 e2]|] eqn:E2; [|done]. run_bind. intros [= <- <-].
  rewrite (assoc_L (++) pre). apply do_takes in E1; [|done].
  assert (∀ new b0, takes b0 new b1 e1 → waiting b0 = waiting b →
    answered (pre ++ e1) ++ waiting b1 ≡ₚ new ++ (answered pre ++ waiting b)) as Hkeys.
  { intros new b0 [K _ _] Hw. rewrite answered_app, <-app_assoc, K, Hw. solve_Permutation. }
  destruct x as [obj|obj msg ans| | | | | | | | |];
    try (eapply IH; [by apply E1|by rewrite (takes_slot _ _ _ _ E1)| |exact E2];
         eapply accounted_perm; [symmetry; by apply (Hkeys [] b)|exact A]).
  change (received (Receive obj msg ans :: xs)) with ([(obj, msg)] ++ received xs). rewrite (assoc_L (++) log).
  assert (∃ new, takes (with_slot (S (next_slot b)) b) new b1 e1 ∧
    (new = [(length log, obj, serial_of msg)] ∨ (new = [] ∧ owes msg = false))) as (new & T & Hn).
  { rewrite <-Hs. destruct E1 as [T|[T Hw]]; eexists; (split; [exact T|]); [by left|by right]. }
  eapply IH; [by apply T| | |exact E2].
  - rewrite (takes_slot _ _ _ _ T). cbn [next_slot with_slot]. rewrite length_app. cbn. lia.
  - eapply accounted_perm; [symmetry; by apply (Hkeys new _ T)|]. by apply accounted_received.
Qed.

(** C29. Every command is answered once: over every run of a new bridge, the commands answered and those
    that still wait are together commands received, each at most once, for the peer that sent it and
    with its serial; and every command received is among them, except returns of methods and emissions
    of signals that succeed and proxies over the connection with the number zero. *)
Theorem commands_answered_once xs b acts :
  perform xs bridge_init = Some (b, acts) →
  let all := answered acts ++ waiting b in
  NoDup (all.*1.*1) ∧
  (∀ s obj z, (s, obj, z) ∈ all → ∃ msg, received xs !! s = Some (obj, msg) ∧ z = serial_of msg) ∧
  (∀ s obj msg, received xs !! s = Some (obj, msg) → owes msg = true → (s, obj, serial_of msg) ∈ all).
Proof.
  intros E. destruct (perform_accounted xs bridge_init b acts [] []) as [O K W]; [| | |done|by split_and!].
  - split; cbn [bridge_init connections makings calls]; intros ?; rewrite lookup_empty; by intros [].
  - done.
  - split; [by apply NoDup_nil|by intros ? ? ? ?%not_elem_of_nil|done].
Qed.

End Spec.

(** ** The texts in a message *)

(** What a JSON reader makes of the characters of a string. *)
Fixpoint json_unescape (s : list Z) : option (list Z) :=
  match s with
  | [] => Some []
  | c :: s =>
      if c =? 92 then
        match s with
        | [] => None
        | d :: s =>
            r ← json_unescape s;
            if (d =? 34) || (d =? 92) || (d =? 47) then Some (d :: r)
            else if d =? 98 then Some (8 :: r) else if d =? 102 then Some (12 :: r) else if d =? 110 then Some (10 :: r)
            else if d =? 114 then Some (13 :: r) else if d =? 116 then Some (9 :: r) else None
        end
      else if (c =? 34) || (c <? 32) then None else cons c <$> json_unescape s
  end.

Definition printable (s : list Z) : Prop := Forall (λ c, 32 <= c <= 126) s.

Lemma unescape_plain c s : c ≠ 92 → c ≠ 34 → 32 <= c → json_unescape (c :: s) = cons c <$> json_unescape s.
Proof.
  intros H1 H2 H3. cbn [json_unescape].
  destruct (Z.eqb_spec c 92), (Z.eqb_spec c 34), (Z.ltb_spec c 32); try done; lia.
Qed.

Lemma unescape_pair d s : d = 34 ∨ d = 92 → json_unescape (92 :: d :: s) = cons d <$> json_unescape s.
Proof. cbn [json_unescape]. by destruct (json_unescape s); intros [-> | ->]. Qed.

(** What the bridge escapes is read back, when it is printable ASCII, and stays printable. *)
Lemma unescape_escaped s t : printable s → json_unescape (g_strescape s ++ t) = app s <$> json_unescape t.
Proof.
  induction 1 as [|c s Hc Hs IH]; [change (g_strescape [] ++ t) with t; by destruct (json_unescape t)|].
  change (g_strescape (c :: s)) with (g_strescape_char c ++ g_strescape s).
  rewrite <-app_assoc. unfold g_strescape_char.
  assert (bool_decide (c ∈ [8; 12; 10; 13; 9; 39]) = (c =? 39)) as ->.
  { case_bool_decide as Hin; rewrite !elem_of_cons, elem_of_nil in Hin; lia. }
  destruct (Z.eqb_spec c 39) as [->|H39].
  - cbn [app]. rewrite unescape_plain, IH by lia. by destruct (json_unescape t).
  - destruct (Z.eqb_spec c 11); [lia|]. destruct (Z.eqb_spec c 92) as [->|H92]; cbn [orb].
    + cbn [app]. rewrite unescape_pair, IH by by right. by destruct (json_unescape t).
    + destruct (Z.eqb_spec c 34) as [->|H34]; cbn [orb].
      * cbn [app]. rewrite unescape_pair, IH by by left. by destruct (json_unescape t).
      * destruct (Z.ltb_spec c 32); [lia|]. destruct (Z.leb_spec 127 c); [lia|]. cbn [orb app].
        rewrite unescape_plain, IH by lia. by destruct (json_unescape t).
Qed.

Lemma escaped_printable s : printable s → printable (g_strescape s).
Proof.
  induction 1 as [|c s Hc Hs IH]; [by apply Forall_nil|]. unfold g_strescape. cbn [flat_map]. apply Forall_app. split; [|done].
  unfold g_strescape_char.
  repeat case_match; repeat (apply Forall_cons; split); try apply Forall_nil; try done; try lia;
    match goal with E : (_ || _) = true |- _ => apply orb_true_iff in E end;
    destruct (Z.ltb_spec c 32), (Z.leb_spec 127 c); naive_solver lia.
Qed.

(** A JSON text that the bridge sends within a string of a string is read back. *)
Lemma arguments_read_back json :
  printable json → (json_unescape (escape_json_for_args json) ≫= json_unescape) = Some json.
Proof.
  intros Hp. unfold escape_json_for_args.
  pose proof (unescape_escaped (g_strescape json) [] (escaped_printable json Hp)) as E1. rewrite app_nil_r in E1. rewrite E1.
  cbn [json_unescape fmap option_fmap option_map mbind option_bind]. rewrite app_nil_r.
  pose proof (unescape_escaped json [] Hp) as E2. rewrite app_nil_r in E2. rewrite E2.
  cbn [json_unescape fmap option_fmap option_map]. by rewrite app_nil_r.
Qed.

(** A character that is not ASCII is written in octal, which is no JSON. *)
Example non_ascii_unreadable :
  (json_unescape (escape_json_for_args [195; 169]) ≫= json_unescape) = None.
Proof. vm_compute. reflexivity. Qed.

(** ** A run *)

(** Values as lists of numbers: the fields of a message come first, then its arguments. *)
#[local] Instance demo_json : JsonGVariant := {|
  GVariant := list Z;
  json_gvariant_deserialize_data t _ := if bool_decide (t = []) then None else Some t;
  json_gvariant_serialize_data v := v;
  g_variant_get_type_string _ := codes "(s)";
  get_ytuus v := (nth 0 v 0, nth 1 v 0, nth 2 v 0, nth 3 v 0, drop 4 v);
  get_sb v := (tail v, nth 0 v 0 =? 1);
  get_su v := (tail v, nth 0 v 0);
  get_ss v := (take 1 v, drop 1 v);
  get_sss v := (take 1 v, drop 1 v, []);
  get_sssu v := (take 1 v, drop 1 v, [], 0);
  get_ssgui v := (take 1 v, drop 1 v, [], 0, 0);
  get_s v := v;
  g_dbus_node_info_new_for_xml _ := Some (Some (codes "org.Iface"));
  out_args _ := []
|}.

Definition yes : answers := mkAnswers 5 6 None.

Definition command (cmd serial conn_id subject : Z) (args : list Z) : step :=
  Receive "a" ([cmd; serial; conn_id; subject] ++ args) yes.

(** A connection is opened, a proxy made, a method called; a name is asked for over a connection that
    does not exist; and a text that is no message. *)
Definition demo_steps : list step :=
  [NewPeer "a"; command EVD_DBUS_BRIDGE_CMD_NEW_CONNECTION 10 0 0 [1; 47]; OnConnection 0 (inl 7%nat);
   command EVD_DBUS_BRIDGE_CMD_NEW_PROXY 11 1 0 [49; 50]; OnProxy 0 (inl 9%nat);
   command EVD_DBUS_BRIDGE_CMD_CALL_METHOD 12 1 1 [109; 110]; command EVD_DBUS_BRIDGE_CMD_OWN_NAME 13 4 0 [1; 2];
   Receive "a" [] yes; RunIdle 0].

Definition nothing : bridge * list action := (bridge_init, []).
Definition demo_end : bridge * list action := default nothing (perform demo_steps bridge_init).

Lemma demo_performs : perform demo_steps bridge_init = Some (demo_end.1, demo_end.2).
Proof. vm_compute. reflexivity. Qed.

Example demo_answers :
  answered demo_end.2 = [(0%nat, "a"%string, 10); (1%nat, "a"%string, 11); (3%nat, "a"%string, 13); (4%nat, "a"%string, 0)] ∧
  waiting demo_end.1 = [(2%nat, "a"%string, 12)].
Proof. vm_compute. by split. Qed.

Lemma commands_answered_once_witness :
  let all := answered demo_end.2 ++ waiting demo_end.1 in
  NoDup (all.*1.*1) ∧
  (∀ s obj z, (s, obj, z) ∈ all → ∃ msg, received demo_steps !! s = Some (obj, msg) ∧ z = serial_of msg) ∧
  (∀ s obj msg, received demo_steps !! s = Some (obj, msg) → owes msg = true → (s, obj, serial_of msg) ∈ all).
Proof. exact (commands_answered_once demo_steps demo_end.1 demo_end.2 demo_performs). Defined.

(** ** Defects *)

Definition sent (acts : list action) : list (Z * Z * Z * Z) :=
  omap (λ x, match x with Sent _ _ m => Some (m_cmd m, m_serial m, m_conn_id m, m_subject m) | _ => None end) acts.

Definition outcome (xs : list step) : option (list (Z * Z * Z * Z)) := sent ∘ snd <$> perform xs bridge_init.

(** One connection with the number 1 and, over it, two proxies, 1 and 2. *)
Definition two_proxies : list step :=
  take 5 demo_steps ++ [command EVD_DBUS_BRIDGE_CMD_NEW_PROXY 14 1 0 [49; 50]; OnProxy 1 (inl 11%nat)].

(** A method of the proxy 2 is called on the proxy that has the number of the connection. *)
Example method_called_on_another_proxy :
  (λ r : bridge * list action, omap (λ x, match x with ProxyCall _ px _ _ _ _ => Some px | _ => None end) r.2) <$>
    perform (two_proxies ++ [command EVD_DBUS_BRIDGE_CMD_CALL_METHOD 15 1 2 [109; 110]]) bridge_init =
  Some [9%nat] ∧
  (option_map (fmap proxy ∘ proxies) (objects (ag (default nothing (perform two_proxies bridge_init)).1) !! "a"%string)
     ≫= lookup 2) = Some 11%nat.
Proof. vm_compute. by split. Qed.

(** The return of that method tells the number of the connection as the subject and the other way
    round. *)
Example return_swaps_numbers :
  (outcome (two_proxies ++ [command EVD_DBUS_BRIDGE_CMD_CALL_METHOD 15 1 2 [109; 110]; OnReturn 2 (inl [])]) ≫= last) =
  Some (EVD_DBUS_BRIDGE_CMD_CALL_METHOD_RETURN, 15, 2, 1).
Proof. vm_compute. reflexivity. Qed.

(** A signal of an object with the number zero ends the program. *)
Example signal_of_object_zero_crashes :
  perform (take 1 demo_steps ++ [command EVD_DBUS_BRIDGE_CMD_EMIT_SIGNAL 10 1 0 [1; 2]]) bridge_init = None.
Proof. vm_compute. reflexivity. Qed.

(** A proxy over the connection with the number zero is never answered. *)
Example proxy_of_connection_zero_not_answered :
  (λ r : bridge * list action, (answered r.2, waiting r.1)) <$>
    perform (take 1 demo_steps ++ [command EVD_DBUS_BRIDGE_CMD_NEW_PROXY 10 0 0 [1; 2]]) bridge_init = Some ([], []).
Proof. vm_compute. reflexivity. Qed.

(** A connection found in the cache and closed before the main loop ran ends the program. *)
Example closed_before_answered_crashes :
  let opening := take 3 demo_steps ++ [command EVD_DBUS_BRIDGE_CMD_NEW_CONNECTION 11 0 0 [1; 47];
                                       command EVD_DBUS_BRIDGE_CMD_CLOSE_CONNECTION 12 2 0 []] in
  is_Some (perform opening bridge_init) ∧ perform (opening ++ [RunIdle 0]) bridge_init = None.
Proof. vm_compute. split; [by eexists|done]. Qed.

(** So does the return of a method to a peer that is gone. *)
Example return_to_gone_peer_crashes :
  is_Some (perform (take 6 demo_steps ++ [Gone "a"]) bridge_init) ∧
  perform (take 6 demo_steps ++ [Gone "a"; OnReturn 1 (inl [])]) bridge_init = None.
Proof. vm_compute. split; [by eexists|done]. Qed.

(** The text of an error is not escaped: a quotation mark in it ends the string, and the message is no
    longer an array of five. *)
Example error_text_unescaped :
  codes "1," ++ quote ++ [34] ++ quote = error_args 1 (Some [34]) ∧
  json_unescape (error_args 1 (Some [34])) = None.
Proof. vm_compute. by split. Qed.

End DBusBridgeSpec.
