(* ===== verification/WebsocketClient.v ===== *)
(** * The WebSocket client (src/evd/evd-websocket-client.c): model

    A transport that opens web sockets to servers.  Each call of [open] gets a connection from a pool of
    its own, writes the request of the handshake, reads the response, and makes a peer, which the
    handlers of the transport accept or reject.  The connections are those of HttpConnection.v, with
    the callback of the operation each has under way; the protocol is that of WebSocket.v and the peers
    are those of Peer.v.  What the pool, the network and the main loop do are operations.  References
    on connections are not counted.  [None] stands for a failed assertion, a NULL callback or a
    dangling name. *)
From S2P Require Import Prelude HttpMessage BufferedInput HttpConnection Peer WebService WebSocket Transport WebsocketServer.
Import HttpMessage HttpConnection.

Module WebsocketClient.

Definition DEFAULT_STANDALONE : bool := true.
Definition EVD_WEBSOCKET_CLOSE_POLICY_VIOLATION : Z := 1008.

Section Client.
#[local] Existing Instance WebsocketServer.soup_handshake.
#[local] Existing Instance WebSocket.EvdWebsocketState_eq_dec.

Context `{Soup} `{WebsocketServer.Digest}.

(** ** State *)

(** Its number is that of the result of [open]; [async_pending] tells that [async_result] is not NULL.
    The cancellable is never kept: the test reads the new data, where it is NULL. *)
Record ConnectionData := mkData {
  address : list Z;
  pool : list Z * bool;                    (* the address of the pool and whether it starts TLS *)
  peer : option string;
  last_ref : bool;                         (* the reference on the peer is the last one *)
  async_pending : bool;
  handshake_key : option string;
  res_headers : option SoupMessageHeaders;
  validating_peer : bool
}.

Definition with_peer p r d := mkData (address d) (pool d) p r (async_pending d) (handshake_key d) (res_headers d) (validating_peer d).
Definition with_key k d := mkData (address d) (pool d) (peer d) (last_ref d) (async_pending d) k (res_headers d) (validating_peer d).
Definition with_headers h d := mkData (address d) (pool d) (peer d) (last_ref d) (async_pending d) (handshake_key d) h (validating_peer d).
Definition with_validating v d := mkData (address d) (pool d) (peer d) (last_ref d) (async_pending d) (handshake_key d) (res_headers d) v.
Definition answered d := mkData (address d) (pool d) (peer d) (last_ref d) false None (res_headers d) (validating_peer d).

(** The callbacks given to the asynchronous operations of a connection. *)
Inductive callback := OnHandshakeSent | OnHandshakeResponse.

Record client := mkClient {
  standalone : bool;
  peer_arg : option (nat * option SoupMessageHeaders);     (* peer_arg_conn and peer_arg_headers *)
  peers : Peer.world;
  owned : gset string;                               (* the peers whose transport this is *)
  conns : gmap nat EvdHttpConnection;
  protocols : gmap nat WebSocket.EvdWebsocketData;   (* EVD_WEBSOCKET_DATA_KEY of a connection *)
  group : gset nat;
  close_handlers : gset nat;                         (* the connections with on_connection_closed *)
  datas : list ConnectionData;
  conn_data : gmap nat nat;                          (* CONN_DATA_KEY: the data of a connection *)
  peer_data : gmap string nat;                       (* PEER_DATA_KEY: the connection of a peer *)
  requested : list nat;                              (* the data whose pool is asked for a connection *)
  awaiting : gmap nat callback;                      (* the operation a connection has under way *)
  idle : list (nat * callback * async);              (* operations that completed in idle *)
  next_conn : nat
}.

Inductive open_error :=
  | InvalidURI
  | InvalidScheme
  | HeadersError (e : option http_error)
  | HandshakeError (e : WebSocket.handshake_error).

Inductive effect :=
  | Opened (open : nat) (error : option open_error) (in_idle : bool)
  | GetConnection (open : nat) (pool : list Z * bool)
  | Retry (open : nat)
  | ValidatePeer (peer : string)
  | NewPeer (peer : string)
  | Receive (peer : string) (msg : list Z)
  | Protocol (conn : nat) (evs : list WebSocket.event)
  | PeerEvents (evs : list Peer.event).

Definition with_arg a s := mkClient (standalone s) a (peers s) (owned s) (conns s) (protocols s) (group s) (close_handlers s) (datas s) (conn_data s) (peer_data s) (requested s) (awaiting s) (idle s) (next_conn s).
Definition with_peers p o s := mkClient (standalone s) (peer_arg s) p o (conns s) (protocols s) (group s) (close_handlers s) (datas s) (conn_data s) (peer_data s) (requested s) (awaiting s) (idle s) (next_conn s).
Definition with_conn k c s := mkClient (standalone s) (peer_arg s) (peers s) (owned s) (<[k := c]> (conns s)) (protocols s) (group s) (close_handlers s) (datas s) (conn_data s) (peer_data s) (requested s) (awaiting s) (idle s) (next_conn s).
Definition with_protocol k d s := mkClient (standalone s) (peer_arg s) (peers s) (owned s) (conns s) (<[k := d]> (protocols s)) (group s) (close_handlers s) (datas s) (conn_data s) (peer_data s) (requested s) (awaiting s) (idle s) (next_conn s).
Definition with_group g h s := mkClient (standalone s) (peer_arg s) (peers s) (owned s) (conns s) (protocols s) g h (datas s) (conn_data s) (peer_data s) (requested s) (awaiting s) (idle s) (next_conn s).
Definition with_data n d s := mkClient (standalone s) (peer_arg s) (peers s) (owned s) (conns s) (protocols s) (group s) (close_handlers s) (<[n := d]> (datas s)) (conn_data s) (peer_data s) (requested s) (awaiting s) (idle s) (next_conn s).
Definition with_peer_data m s := mkClient (standalone s) (peer_arg s) (peers s) (owned s) (conns s) (protocols s) (group s) (close_handlers s) (datas s) (conn_data s) m (requested s) (awaiting s) (idle s) (next_conn s).
Definition with_awaiting m i s := mkClient (standalone s) (peer_arg s) (peers s) (owned s) (conns s) (protocols s) (group s) (close_handlers s) (datas s) (conn_data s) (peer_data s) (requested s) m i (next_conn s).

Definition evd_websocket_client_init (w : Peer.world) : client :=
  mkClient DEFAULT_STANDALONE None w ∅ ∅ ∅ ∅ ∅ [] ∅ ∅ [] ∅ [] 0.

Definition evd_websocket_client_get_validate_peer_arguments s : option (nat * option SoupMessageHeaders) := peer_arg s.

(** The number and the data of a connection. *)
Definition data_of s (k : nat) : option (nat * ConnectionData) :=
  n ← conn_data s !! k; d ← datas s !! n; Some (n, d).

(** What the environment answers while an operation runs: the clock, the order of the table of peers,
    the name of a new peer, what the handlers of validate-peer return for the arguments they can ask
    for, and what [g_random_int] gives. *)
Record surroundings := mkSurroundings {
  now : Z;
  order : list string;
  fresh_id : string;
  verdicts : option (nat * option SoupMessageHeaders) → list Z;
  rnd : list Z
}.

(** What [g_random_int] and [g_output_stream_write] answer to the protocol of each connection. *)
Context (random written : nat → nat → Z).

(** ** Sending *)

Definition peer_is_connected s (id : string) : bool :=
  match peer_data s !! id with
  | None => false
  | Some k =>
      match WebSocket.state <$> protocols s !! k with
      | Some WebSocket.STATE_OPENING | Some WebSocket.STATE_OPENED | Some WebSocket.STATE_CLOSING => true
      | _ => false
      end
  end.

Definition evd_websocket_client_send s (id : string) (buffer : list Z) (t : Peer.EvdMessageType)
  : option (client * list effect * bool) :=
  match peer_data s !! id with
  | None => Some (s, [], false)
  | Some k =>
      match protocols s !! k with
      | None => Some (s, [], false)
      | Some d =>
          '(d, evs, ok) ← WebSocket.evd_websocket_protocol_send (random k) (written k) d buffer (WebsocketServer.ws_type t);
          Some (with_protocol k d s, [Protocol k evs], ok)
      end
  end.

(** ** Closing *)

(** [evd_websocket_protocol_close] on a connection. *)
Definition protocol_close s (k : nat) (code : Z) : option (client * list effect) :=
  match protocols s !! k with
  | None => Some (s, [])
  | Some d =>
      '(d, evs, _) ← WebSocket.evd_websocket_protocol_close (random k) (written k) d code;
      Some (with_protocol k d s, [Protocol k evs])
  end.

Definition peer_closed s (id : string) (gracefully : bool) : option (client * list effect) :=
  match peer_data s !! id with
  | None => Some (s, [])
  | Some k =>
      c ← conns s !! k;
      '(s, effs) ← (if closed c then Some (s, [])
                    else protocol_close s k (if gracefully then WebSocket.EVD_WEBSOCKET_CLOSE_NORMAL
                                             else WebsocketServer.EVD_WEBSOCKET_CLOSE_ABNORMAL));
      '(n, d) ← data_of s k;
      Some (with_peer_data (delete id (peer_data s)) (with_data n (with_peer None false d) s), effs)
  end.

(** The calls of the method [peer_closed] among what closing peers did; [self] tells for which peers
    it is the method of this transport. *)
Fixpoint notify_closed (self : string → bool) s (evs : list Peer.event) : option (client * list effect) :=
  match evs with
  | [] => Some (s, [])
  | Peer.IfacePeerClosed id gracefully :: evs =>
      '(s, e1) ← (if self id then peer_closed s id gracefully else Some (s, []));
      '(s, e2) ← notify_closed self s evs;
      Some (s, e1 ++ e2)
  | _ :: evs => notify_closed self s evs
  end.

Definition own s (id : string) : bool := bool_decide (id ∈ owned s).

(** [evd_transport_close_peer] called with this transport. *)
Definition close_peer s (id : string) (gracefully : bool) : option (client * list effect) :=
  '(w, evs) ← Peer.evd_transport_close_peer Peer.close_fuel (peers s) id gracefully;
  '(s, effs) ← notify_closed (λ _, true) (with_peers w (owned s) s) evs;
  Some (s, PeerEvents evs :: effs).

(** The parent's method answers FALSE for a stream that has no group. *)
Definition io_stream_group_remove s (k : nat) : option (client * list effect * bool) :=
  if decide (k ∈ group s) then
    let s := with_group (group s ∖ {[k]}) (close_handlers s ∖ {[k]}) s in
    let s := match protocols s !! k with
             | Some d => with_protocol k (WebSocket.evd_websocket_protocol_unbind d) s
             | None => s
             end in
    match data_of s k with
    | Some (n, d) =>
        match peer d with
        | Some id =>
            let s := with_data n (with_peer None false d) (with_peer_data (delete id (peer_data s)) s) in
            '(s, effs) ← (if own s id then close_peer s id false else Some (s, [])); Some (s, effs, true)
        | None => Some (s, [], true)
        end
    | None => Some (s, [], true)
    end
  else Some (s, [], false).

(** [io_stream_on_close] of evd-io-stream.c: the handlers of the signal, then the stream forgets its
    group, whose method then answers FALSE. *)
Definition on_connection_closed s (k : nat) : option (client * list effect) :=
  '(s, effs) ← (if decide (k ∈ close_handlers s) then '(s, effs, _) ← io_stream_group_remove s k; Some (s, effs)
                else Some (s, []));
  '(s, effs', _) ← io_stream_group_remove (with_group (group s ∖ {[k]}) (close_handlers s) s) k;
  Some (s, effs ++ effs').

(** ** The new peer *)

Definition transport_surroundings (e : surroundings) s : Transport.surroundings :=
  Transport.mkSurroundings (now e) (peer_is_connected s) (order e).

(** [evd_websocket_protocol_bind] *)
Definition bind_protocol s (k : nat) : client * list effect :=
  match protocols s !! k with
  | Some d => let '(d, evs) := WebSocket.evd_websocket_protocol_bind d in (with_protocol k d s, [Protocol k evs])
  | None => (s, [])
  end.

(** The manager takes a reference on the peer, and the one of the handshake is dropped. *)
Definition on_websocket_connection_ready (e : surroundings) s (k : nat) : option (client * list effect) :=
  '(_, d) ← data_of s k;
  id ← peer d;
  '(w, evs) ← Peer.evd_peer_manager_add_peer (now e) (peer_is_connected s) (order e) (peers s) id;
  '(s, e1) ← notify_closed (own s) (with_peers w (owned s) s) evs;
  '(n, d) ← data_of s k;
  id ← peer d;
  let '(s, e2) := bind_protocol (with_data n (with_peer (Some id) false d) s) k in
  Some (s, PeerEvents evs :: e1 ++ NewPeer id :: e2).

(** The peer of a handshake, made when there is none. *)
Definition resolve_peer (e : surroundings) s (k : nat) : option (client * string) :=
  '(n, d) ← data_of s k;
  '(s, id) ←
    match peer d with
    | Some id => Some (with_data n (with_peer (Some id) false d) s, id)
    | None =>
        match Peer.heap (peers s) !! fresh_id e with
        | Some _ => None
        | None =>
            let id := fresh_id e in
            let s := with_peers (Peer.set_peer id (Peer.evd_peer_init (now e)) (peers s)) ({[id]} ∪ owned s) s in
            Some (with_data n (with_peer (Some id) true d) s, id)
        end
    end;
  Some (with_peer_data (<[id := k]> (peer_data s)) s, id).

(** The last reference on a peer: its data go with it. *)
Definition free_peer s (id : string) : client :=
  let w := peers s in
  with_peer_data (delete id (peer_data s))
    (with_peers (Peer.mkWorld (delete id (Peer.heap w)) (Peer.manager w) (Peer.sources w) (Peer.next_src w)) (owned s) s).

Definition reject s (k n : nat) (d : ConnectionData) (id : string) : option (client * list effect) :=
  let s := if last_ref d then free_peer s id else s in
  protocol_close (with_data n (with_peer None false d) s) k EVD_WEBSOCKET_CLOSE_POLICY_VIOLATION.

Definition resolve_peer_and_validate (e : surroundings) s (k : nat) : option (client * list effect) :=
  '(s, id) ← resolve_peer e s k;
  '(n, d) ← data_of s k;
  let s := with_arg (Some (k, res_headers d)) s in
  let verdict := Transport.evd_transport_notify_validate_peer
                   (verdicts e (evd_websocket_client_get_validate_peer_arguments s)) in
  let s := with_arg None s in
  '(s, effs) ←
    (if verdict =? WebService.EVD_VALIDATE_ACCEPT then on_websocket_connection_ready e s k
     else if verdict =? WebService.EVD_VALIDATE_REJECT then reject s k n d id
     else Some (with_data n (with_validating true d) s, []));
  Some (s, ValidatePeer id :: effs).

Definition transport_accept_peer (e : surroundings) s (id : string) : option (client * list effect * bool) :=
  match k ← peer_data s !! id; '(n, d) ← data_of s k; Some (k, n, d) with
  | None => Some (s, [], false)
  | Some (k, n, d) =>
      if validating_peer d then
        '(s, effs) ← on_websocket_connection_ready e (with_data n (with_validating false d) s) k; Some (s, effs, true)
      else Some (s, [], false)
  end.

(** The peer of the data is the one that is rejected. *)
Definition transport_reject_peer s (id : string) : option (client * list effect * bool) :=
  match k ← peer_data s !! id; '(n, d) ← data_of s k; Some (k, n, d) with
  | None => Some (s, [], false)
  | Some (k, n, d) =>
      if validating_peer d then
        id ← peer d;
        '(s, effs) ← reject s k n (with_validating false d) id; Some (s, effs, true)
      else Some (s, [], false)
  end.

(** ** Callbacks of the protocol *)

Definition on_frame_received (t : Z) s (k : nat) (frame : list Z) : option (client * list effect) :=
  '(_, d) ← data_of s k;
  id ← peer d;
  p ← Peer.heap (peers s) !! id;
  Some (with_peers (Peer.set_peer id (Peer.evd_peer_touch t p) (peers s)) (owned s) s, [Receive id frame]).

Definition retry_connection (n : nat) : list effect := [Retry n].

Definition on_close_requested s (k : nat) (gracefully : bool) : option (client * list effect) :=
  '(n, d) ← data_of s k;
  let s := with_group (group s) (close_handlers s ∖ {[k]}) s in
  match peer d with
  | None => Some (s, [])
  | Some id => if gracefully then close_peer s id true else Some (s, retry_connection n)
  end.

(** ** The handshake *)

Definition create_handshake_request (url : list Z) (r : list Z) : EvdHttpRequest * string :=
  let '(request, h) := evd_http_message_get_headers (evd_http_request_new (codes "GET") url) in
  let '(h, key) := WebSocket.evd_websocket_protocol_create_handshake_request h None None r in
  (set_headers h request, key).

(** An operation of the connection was started with a callback: it is under way, or ends in idle. *)
Definition started s (k : nat) (c : EvdHttpConnection) (cb : callback) (evs : list HttpConnection.event) : client :=
  let s := with_conn k c s in
  match evs with
  | Completed a _ :: _ => with_awaiting (awaiting s) (idle s ++ [(k, cb, a)]) s
  | _ => with_awaiting (<[k := cb]> (awaiting s)) (idle s) s
  end.

Definition start_opening_handshake (e : surroundings) s (k : nat) : option client :=
  '(n, d) ← data_of s k;
  let '(request, key) := create_handshake_request (address d) (rnd e) in
  c ← conns s !! k;
  '(c, _, evs) ← evd_http_connection_write_request_headers c request;
  Some (started (with_data n (with_key (Some key) d) s) k c OnHandshakeSent evs).

Definition on_handshake_sent s (k : nat) (a : async) : option (client * list effect) :=
  '(n, _) ← data_of s k;
  if evd_http_connection_write_request_headers_finish a then
    c ← conns s !! k;
    let '(c, evs) := evd_http_connection_read_response_headers c in
    Some (started s k c OnHandshakeResponse evs, [])
  else Some (s, retry_connection n).

(** The answer to [open], when there is none yet. *)
Definition complete_open s (k : nat) (error : option open_error) : option (client * list effect) :=
  '(n, d) ← data_of s k;
  Some (with_data n (answered d) s, if async_pending d then [Opened n error false] else []).

Definition on_handshake_response (e : surroundings) s (k : nat) (a : async) : option (client * list effect) :=
  '(n, d) ← data_of s k;
  match evd_http_connection_read_response_headers_finish a with
  | None => complete_open s k (Some (HeadersError (error a)))
  | Some (h, version, status_code, _) =>
      key ← handshake_key d;
      match WebSocket.evd_websocket_protocol_handle_handshake_response (version =? 1) status_code h key with
      | inr err => complete_open s k (Some (HandshakeError err))
      | inl p =>
          let s := with_data n (with_headers (Some h) d) (with_protocol k p s) in
          '(s, e1) ← resolve_peer_and_validate e s k;
          '(s, e2) ← complete_open s k None;
          Some (s, e1 ++ e2)
      end
  end.

Definition run_callback (e : surroundings) s (k : nat) (cb : callback) (a : async) : option (client * list effect) :=
  match cb with
  | OnHandshakeSent => on_handshake_sent s k a
  | OnHandshakeResponse => on_handshake_response e s k a
  end.

(** What the connection tells: the operation under way has ended. *)
Fixpoint conn_events (e : surroundings) s (k : nat) (evs : list HttpConnection.event) : option (client * list effect) :=
  match evs with
  | [] => Some (s, [])
  | Completed a _ :: evs =>
      match awaiting s !! k with
      | None => conn_events e s k evs
      | Some cb =>
          '(s, e1) ← run_callback e (with_awaiting (delete k (awaiting s)) (idle s) s) k cb a;
          '(s, e2) ← conn_events e s k evs;
          Some (s, e1 ++ e2)
      end
  | _ :: evs => conn_events e s k evs
  end.

(** [g_io_stream_close] *)
Definition io_close (e : surroundings) s (k : nat) : option (client * list effect) :=
  c ← conns s !! k;
  '(c', evs) ← g_io_stream_close c;
  '(s, e1) ← conn_events e (with_conn k c' s) k evs;
  '(s, e2) ← (if closed c' && negb (closed c) then on_connection_closed s k else Some (s, []));
  Some (s, e1 ++ e2).

(** ** Events of the protocol *)

Definition on_event (e : surroundings) s (k : nat) (ev : WebSocket.event) : option (client * list effect) :=
  match ev with
  | WebSocket.FrameCb frame _ => on_frame_received (now e) s k frame
  | WebSocket.CloseCb gracefully => on_close_requested s k gracefully
  | WebSocket.IoClose => io_close e s k
  | _ => Some (s, [Protocol k [ev]])
  end.

Fixpoint on_events (e : surroundings) s (k : nat) (evs : list WebSocket.event) : option (client * list effect) :=
  match evs with
  | [] => Some (s, [])
  | ev :: evs =>
      '(s, e1) ← on_event e s k ev;
      '(s, e2) ← on_events e s k evs;
      Some (s, e1 ++ e2)
  end.

(** The protocol of [k] is now [d], and did [evs]. *)
Definition protocol_did (e : surroundings) s (k : nat) (d : WebSocket.EvdWebsocketData) (evs : list WebSocket.event) :=
  on_events e (with_protocol k d s) k evs.

Definition conn_read (e : surroundings) s (k : nat) (r : WebSocket.read_outcome) : option (client * list effect) :=
  d ← protocols s !! k;
  match WebSocket.on_connection_read (random k) (written k) d r with
  | WebSocket.Done d evs _ => protocol_did e s k d evs
  | _ => None
  end.

Definition conn_flushed (e : surroundings) s (k : nat) : option (client * list effect) :=
  d ← protocols s !! k;
  let '(d, evs) := WebSocket.on_connection_flushed d in protocol_did e s k d evs.

Definition conn_timeout (e : surroundings) s (k : nat) : option (client * list effect) :=
  d ← protocols s !! k;
  '(d, evs) ← WebSocket.close_timeout_cb d; protocol_did e s k d evs.

(** ** Opening *)

(** The connection is not in the group yet. *)
Definition io_stream_group_add (e : surroundings) s (k : nat) : option (client * list effect) :=
  let s := with_group ({[k]} ∪ group s) ({[k]} ∪ close_handlers s) s in
  match protocols s !! k with
  | None => s ← start_opening_handshake e s k; Some (s, [])
  | Some d =>
      if decide (WebSocket.state d = WebSocket.STATE_NONE) then s ← start_opening_handshake e s k; Some (s, [])
      else resolve_peer_and_validate e s k
  end.

Definition with_requested ds r s := mkClient (standalone s) (peer_arg s) (peers s) (owned s) (conns s) (protocols s) (group s) (close_handlers s) ds (conn_data s) (peer_data s) r (awaiting s) (idle s) (next_conn s).

(** A connection of the pool, with data attached. *)
Definition with_new_conn c n s := mkClient (standalone s) (peer_arg s) (peers s) (owned s) (<[next_conn s := c]> (conns s)) (protocols s) (group s) (close_handlers s) (datas s) (<[next_conn s := n]> (conn_data s)) (peer_data s) (filter (.≠ n) (requested s)) (awaiting s) (idle s) (S (next_conn s)).

Definition on_connection (e : surroundings) s (n : nat) (conn : option EvdHttpConnection) : option (client * list effect) :=
  match conn with
  | None => Some (with_requested (datas s) (filter (.≠ n) (requested s)) s, retry_connection n)
  | Some c => io_stream_group_add e (with_new_conn c n s) (next_conn s)
  end.

(** The number of the call is that of its data; one that is refused leaves data that are not used. *)
Definition transport_open s (addr : list Z) : client * list effect :=
  let n := length (datas s) in
  let refused := mkData addr ([], false) None false false None None false in
  match soup_uri_new addr with
  | None => (with_requested (datas s ++ [refused]) (requested s) s, [Opened n (Some InvalidURI) true])
  | Some u =>
      if bool_decide (uri_scheme u = codes "ws" ∨ uri_scheme u = codes "wss") then
        let p := (uri_host u ++ codes ":" ++ print_d (uri_port u), bool_decide (uri_scheme u = codes "wss")) in
        (with_requested (datas s ++ [mkData addr p None false true None None false]) (requested s ++ [n]) s, [GetConnection n p])
      else (with_requested (datas s ++ [refused]) (requested s) s, [Opened n (Some InvalidScheme) true])
  end.

(** ** The main loop *)

(** The write of the request ended. *)
Definition write_done (e : surroundings) s (k : nat) (n : option Z) : option (client * list effect) :=
  c ← conns s !! k;
  let '(c, evs) := evd_http_connection_on_write_request_headers c n in conn_events e (with_conn k c s) k evs.

(** The input of the connection got an answer. *)
Definition input_ready (e : surroundings) s (k : nat) (a : BufferedInput.base_answer) : option (client * list effect) :=
  c ← conns s !! k;
  '(c, evs) ← run_input c a; conn_events e (with_conn k c s) k evs.

Definition run_idle (e : surroundings) s (i : nat) : option (client * list effect) :=
  '(k, cb, a) ← idle s !! i;
  run_callback e (with_awaiting (awaiting s) (delete i (idle s)) s) k cb a.

(** The peer hangs up. *)
Definition hangup (e : surroundings) s (k : nat) : option (client * list effect) :=
  c ← conns s !! k; io_close e (with_conn k (g_io_stream_clear_pending c) s) k.

End Client.

End WebsocketClient.
