(* ===== verification/WebsocketClientSpec.v ===== *)
(** * The WebSocket client: theorems

    Every call of [open] is answered once, or is still under way, or was given up for a retry that does
    not come; over every run the links between peers and connections are inverse of each other, a peer
    is announced at most once, and messages are received only from peers that were announced. *)
From S2P Require Import Prelude HttpMessage BufferedInput HttpConnection Peer PeerSpec WebService WebServiceSpec WebSocket.
From S2P Require Import WebSocketClose Transport WebsocketServer WebsocketServerSpec WebsocketClient.
Import HttpMessage HttpConnection WebsocketClient.

Module WebsocketClientSpec.

(** ** Frames and callbacks of the protocol *)

Definition no_frames (evs : list WebSocket.event) : Prop :=
  Forall (λ ev, match ev with WebSocket.FrameCb _ _ => False | _ => True end) evs.

(** A step of the protocol keeps the callback, and calls it only when there is one. *)
Definition reads (d d' : WebSocket.EvdWebsocketData) (evs : list WebSocket.event) : Prop :=
  WebSocket.frame_cb d' = WebSocket.frame_cb d ∧ (WebSocket.frame_cb d = false → no_frames evs).

Lemma reads_trans d1 d2 d3 e1 e2 : reads d1 d2 e1 → reads d2 d3 e2 → reads d1 d3 (e1 ++ e2).
Proof. intros [E1 N1] [E2 N2]. split; [congruence|]. intros Hf. apply Forall_app_2; [by apply N1|apply N2]. congruence. Qed.

Section Frames.
Context (g_random_int write_result : nat → Z).
Import WebSocket.

Lemma finish_reads d code d' evs : finish_close_handshake d code = (d', evs) → reads d d' evs.
Proof.
  unfold finish_close_handshake. destruct (close_timeout _); intros [= <- <-]; (split; [done|]); intros _;
    destruct (close_cb _); repeat constructor.
Qed.

Lemma close_reads d code d' evs b :
  evd_websocket_protocol_close g_random_int write_result d code = Some (d', evs, b) → reads d d' evs.
Proof.
  unfold evd_websocket_protocol_close. destruct (state d); try (intros [= <- <- _]; by split; [|constructor]);
    (destruct (close_frame_sent _); [done|]); cbn [send_close_frame];
    destruct (close_frame_received _); intros [= <- <- _]; split; try done; repeat constructor.
Qed.

Lemma payload_reads d d' evs b : read_payload g_random_int write_result d = Some (d', evs, b) → reads d d' evs.
Proof.
  unfold read_payload. destruct (_ <? _); [intros [= <- <- _]; by split; [|constructor]|].
  set (d0 := set_frame_data _ d). destruct (OPCODE_CLOSE <=? opcode d0).
  - unfold handle_control_frame, on_close_frame_received. destruct (_ =? _).
    + set (d1 := set_close _ _ _ _ d0). case_decide.
      * destruct (finish_close_handshake d1 _) as [d2 e2] eqn:E. run_bind. intros [= <- <- _]. by apply finish_reads in E.
      * destruct (evd_websocket_protocol_close _ _ d1 _) as [[[d2 e2] b2]|] eqn:E; [|done]. run_bind. intros [= <- <- _].
        by apply close_reads in E.
    + run_bind. intros [= <- <- _]. split; [done|]. repeat constructor.
  - destruct (fin d0); [|run_bind; intros [= <- <- _]; split; [done|repeat constructor]].
    destruct (frame_cb d0) eqn:Ef; [|done]. run_bind. intros [= <- <- _]. split; [done|]. cbn in Ef. congruence.
Qed.

Lemma part_reads d d' evs b : read_part g_random_int write_result d = Some (d', evs, b) → reads d d' evs.
Proof.
  assert (∀ x, reads x x []) as Hr by (by split; [|constructor]).
  unfold read_part. destruct (reading_state d); try (intros [= <- <- _]; apply Hr).
  - destruct (read_payload_len d) as [d1 ok] eqn:E. intros [= <- <- _]. revert E. unfold read_payload_len.
    repeat case_match; intros [= <- _]; split; try done; constructor.
  - unfold read_masking_key. destruct (_ <? _); [intros [= <- <- _]; apply Hr|].
    set (d1 := set_reading_state _ _). destruct (_ =? _).
    + by intros E%payload_reads.
    + intros [= <- <- _]. by split; [|constructor].
  - apply payload_reads.
Qed.

Lemma turn_reads d d' evs b : process_turn g_random_int write_result d = Some (d', evs, b) → reads d d' evs.
Proof.
  unfold process_turn. case_decide; [|apply part_reads]. destruct (read_header d) as [d1 ok] eqn:E.
  assert (frame_cb d1 = frame_cb d) as Hf.
  { revert E. unfold read_header. repeat case_match; by intros [= <- _]. }
  destruct ok; [|intros [= <- <- _]; by split; [|constructor]].
  intros [E1 N1]%part_reads. split; [congruence|]. intros. apply N1. congruence.
Qed.

Lemma loop_reads fuel : ∀ d d' evs b, process_loop g_random_int write_result fuel d = Done d' evs b → reads d d' evs.
Proof.
  induction fuel as [|fuel IH]; intros d d' evs b; cbn [process_loop]; destruct (loop_continues d); try done;
    try (intros [= <- <- _]; by split; [|constructor]).
  destruct (process_turn _ _ d) as [[[d1 e1] [|]]|] eqn:E; [| |done]; apply turn_reads in E; [|by intros [= <- <- _]].
  unfold add_events. destruct (process_loop _ _ fuel d1) as [| |d2 e2 b2] eqn:E2; [done..|]. intros [= <- <- _].
  apply IH in E2. by eapply reads_trans.
Qed.

Lemma read_reads d r d' evs b : on_connection_read g_random_int write_result d r = Done d' evs b → reads d d' evs.
Proof.
  unfold on_connection_read. destruct r as [cl|[|x bytes]]; [|intros [= <- <- _]; by split; [|constructor]|].
  { intros [= <- <- _]. split; [done|]. intros _. destruct cl; repeat constructor. }
  set (d0 := set_buf _ _ _ d). case_decide; [intros [= <- <- _]; by split; [|constructor]|]. unfold process_data.
  destruct (process_loop _ _ _ d0) as [| |d1 e1 b1] eqn:E; [done..|]. apply loop_reads in E.
  destruct b1; [|by intros [= <- <- _]]. unfold read_from_connection. intros [= <- <- _].
  apply (reads_trans d d1); [done|]. split; [by destruct (_ <=? _)|]. intros _. repeat constructor.
Qed.

Lemma send_reads d msg t d' evs b :
  evd_websocket_protocol_send g_random_int write_result d msg t = Some (d', evs, b) → WebSocket.frame_cb d' = frame_cb d.
Proof.
  unfold evd_websocket_protocol_send. destruct (state d); try (by intros [= <- _ _]);
    intros (_ & [? _] & _)%WebSocketClose.send_fragments_keeps; done.
Qed.

End Frames.

Section Client.
Context `{Soup} `{WebsocketServer.Digest} (random written : nat → nat → Z).
Implicit Types s : client.

(** ** Well-formed states *)

Definition peer_of_conn s (k : nat) : option string := '(_, d) ← data_of s k; peer d.

Definition injective s : Prop := ∀ k1 k2 n, conn_data s !! k1 = Some n → conn_data s !! k2 = Some n → k1 = k2.

(** The connection of a peer bears that peer, and the other way round. *)
Definition linked s : Prop := ∀ id k, peer_data s !! id = Some k ↔ peer_of_conn s k = Some id.

(** The connections whose handshake is under way. *)
Definition handshaking s : list nat := (map_to_list (awaiting s)).*1 ++ (idle s).*1.*1.

(** Data whose handshake has not ended. *)
Definition untouched d : Prop := peer d = None ∧ async_pending d = true ∧ validating_peer d = false.

(** [ann]: the peers announced so far. *)
Record wf (ann : gset string) s : Prop := mkWf {
  wf_conn k n : conn_data s !! k = Some n → (n < length (datas s))%nat ∧ (k < next_conn s)%nat;
  wf_inj : injective s;
  wf_link : linked s;
  wf_protocol k : is_Some (protocols s !! k) → is_Some (conn_data s !! k);
  wf_heap k id : peer_of_conn s k = Some id → is_Some (Peer.heap (peers s) !! id);
  wf_ann id : id ∈ ann → is_Some (Peer.heap (peers s) !! id);
  wf_validating k n d id : data_of s k = Some (n, d) → validating_peer d = true → peer d = Some id →
    (id ∉ ann) ∧ last_ref d = true;
  wf_bound k p id : protocols s !! k = Some p → WebSocket.frame_cb p = true → peer_of_conn s k = Some id → id ∈ ann;
  wf_requested n : n ∈ requested s → (∃ d, datas s !! n = Some d ∧ untouched d) ∧ ∀ k, conn_data s !! k ≠ Some n;
  wf_requested_once : NoDup (requested s);
  wf_handshake k : k ∈ handshaking s → protocols s !! k = None ∧ ∃ n d, data_of s k = Some (n, d) ∧ untouched d;
  wf_handshake_once : NoDup (handshaking s)
}.

(** What closing does to the data of a connection. *)
Definition fades (d d' : ConnectionData) : Prop :=
  async_pending d' = async_pending d ∧ validating_peer d' = validating_peer d ∧
  (peer d' = None ∨ (peer d' = peer d ∧ last_ref d' = last_ref d)).

(** What closes a protocol, or sends through it, but gives it no callback. *)
Definition quieter (p p' : option WebSocket.EvdWebsocketData) : Prop :=
  match p, p' with
  | None, None => True
  | Some p, Some p' => WebSocket.frame_cb p' = true → WebSocket.frame_cb p = true
  | _, _ => False
  end.

(** What any operation does but those of the handshake and of the verdict. *)
Record calm s s' : Prop := mkCalm {
  calm_conn : conn_data s' = conn_data s;
  calm_next : next_conn s' = next_conn s;
  calm_requested : requested s' = requested s;
  calm_awaiting : awaiting s' = awaiting s;
  calm_idle : idle s' = idle s;
  calm_datas : Forall2 fades (datas s) (datas s');
  calm_heap id : is_Some (Peer.heap (peers s') !! id) ↔ is_Some (Peer.heap (peers s) !! id);
  calm_protocols k : quieter (protocols s !! k) (protocols s' !! k);
  calm_link : injective s → linked s → linked s'
}.

Lemma fades_refl d : fades d d.
Proof. split_and!; auto. Qed.

Lemma fades_trans d1 d2 d3 : fades d1 d2 → fades d2 d3 → fades d1 d3.
Proof. intros (P1 & V1 & Q1) (P2 & V2 & Q2). split_and!; [congruence..|]. intuition congruence. Qed.

Lemma quieter_refl p : quieter p p.
Proof. destruct p; cbn; auto. Qed.

Lemma quieter_trans p1 p2 p3 : quieter p1 p2 → quieter p2 p3 → quieter p1 p3.
Proof. destruct p1, p2, p3; cbn; intuition. Qed.

Lemma fades_all l : Forall2 fades l l.
Proof. induction l; constructor; auto using fades_refl. Qed.

Hint Resolve fades_refl fades_all quieter_refl : core.

Lemma client_calm_refl s : calm s s.
Proof. split; auto. Qed.

Lemma calm_injective s s' : calm s s' → injective s → injective s'.
Proof. intros C I k1 k2 n. rewrite (calm_conn _ _ C). apply I. Qed.

Lemma client_calm_trans s1 s2 s3 : calm s1 s2 → calm s2 s3 → calm s1 s3.
Proof.
  intros C1 C2. split.
  - by rewrite (calm_conn _ _ C2), (calm_conn _ _ C1).
  - by rewrite (calm_next _ _ C2), (calm_next _ _ C1).
  - by rewrite (calm_requested _ _ C2), (calm_requested _ _ C1).
  - by rewrite (calm_awaiting _ _ C2), (calm_awaiting _ _ C1).
  - by rewrite (calm_idle _ _ C2), (calm_idle _ _ C1).
  - eapply Forall2_trans; [apply fades_trans|apply C1|apply C2].
  - intros id. by rewrite (calm_heap _ _ C2), (calm_heap _ _ C1).
  - intros k. eapply quieter_trans; [apply C1|apply C2].
  - intros I L. apply C2; [by eapply calm_injective|]. by apply C1.
Qed.

(** The data of a connection, before and after. *)
Lemma calm_data s s' k n d' :
  calm s s' → data_of s' k = Some (n, d') → ∃ d, data_of s k = Some (n, d) ∧ fades d d'.
Proof.
  intros C. unfold data_of. rewrite (calm_conn _ _ C). destruct (conn_data s !! k) as [m|]; [|done]. run_bind.
  destruct (datas s' !! m) as [x'|] eqn:Hx; [|done]. run_bind. intros [= <- <-].
  destruct (Forall2_lookup_r _ _ _ _ _ (calm_datas _ _ C) Hx) as (x & -> & F). by exists x.
Qed.

Lemma calm_data_fwd s s' k n d :
  calm s s' → data_of s k = Some (n, d) → ∃ d', data_of s' k = Some (n, d') ∧ fades d d'.
Proof.
  intros C. unfold data_of. rewrite (calm_conn _ _ C). destruct (conn_data s !! k) as [m|]; [|done]. run_bind.
  destruct (datas s !! m) as [x|] eqn:Hx; [|done]. run_bind. intros [= <- <-].
  destruct (Forall2_lookup_l _ _ _ _ _ (calm_datas _ _ C) Hx) as (x' & -> & F). by exists x'.
Qed.

Lemma calm_peer s s' k id : calm s s' → peer_of_conn s' k = Some id → peer_of_conn s k = Some id.
Proof.
  intros C. unfold peer_of_conn. destruct (data_of s' k) as [[n d']|] eqn:E; [|done]. run_bind.
  destruct (calm_data _ _ _ _ _ C E) as (d & -> & (_ & _ & F)). run_bind. naive_solver congruence.
Qed.

Lemma calm_handshaking s s' : calm s s' → handshaking s' = handshaking s.
Proof. intros C. unfold handshaking. by rewrite (calm_awaiting _ _ C), (calm_idle _ _ C). Qed.

Lemma fades_untouched d d' : fades d d' → untouched d → untouched d'.
Proof. intros (P & V & Q) (U1 & U2 & U3). split_and!; [|congruence..]. naive_solver congruence. Qed.

Lemma client_calm_wf ann s s' : wf ann s → calm s s' → wf ann s'.
Proof.
  intros W C. split.
  - intros k n. rewrite (calm_conn _ _ C), (calm_next _ _ C), <-(Forall2_length _ _ _ (calm_datas _ _ C)). apply W.
  - eapply calm_injective; [done|apply W].
  - apply C; apply W.
  - intros k [p Hp]. rewrite (calm_conn _ _ C). apply (wf_protocol _ _ W). pose proof (calm_protocols _ _ C k) as Q.
    rewrite Hp in Q. by destruct (protocols s !! k).
  - intros k id Hp%(calm_peer _ _ _ _ C). apply (calm_heap _ _ C). by eapply wf_heap.
  - intros id Hi. apply (calm_heap _ _ C). by eapply wf_ann.
  - intros k n d' id Hd Hv Hp. destruct (calm_data _ _ _ _ _ C Hd) as (d & Hd0 & (_ & V & [F|[F R]])); [congruence|].
    rewrite R. eapply (wf_validating _ _ W); [done|congruence..].
  - intros k p' id Hp Hf Hi%(calm_peer _ _ _ _ C). pose proof (calm_protocols _ _ C k) as Q. rewrite Hp in Q.
    destruct (protocols s !! k) as [p|] eqn:E; [|done]. by eapply (wf_bound _ _ W); [|apply Q|].
  - intros n. rewrite (calm_requested _ _ C), (calm_conn _ _ C). intros [(d & Hd & U) Hk]%(wf_requested _ _ W). split; [|done].
    destruct (Forall2_lookup_l _ _ _ _ _ (calm_datas _ _ C) Hd) as (d' & Hd' & F). exists d'. split; [done|]. by eapply fades_untouched.
  - rewrite (calm_requested _ _ C). apply W.
  - intros k. rewrite (calm_handshaking _ _ C). intros [Hp (n & d & Hd & U)]%(wf_handshake _ _ W). split.
    + pose proof (calm_protocols _ _ C k) as Q. rewrite Hp in Q. by destruct (protocols s' !! k).
    + destruct (calm_data_fwd _ _ _ _ _ C Hd) as (d' & Hd' & F). exists n, d'. split; [done|]. by eapply fades_untouched.
  - rewrite (calm_handshaking _ _ C). apply W.
Qed.

(** ** What an operation tells *)

Definition opened (effs : list effect) : list nat := omap (λ e, match e with Opened n _ _ => Some n | _ => None end) effs.

(** The peers announced after [effs]; [None] when one is announced twice, or sends before it is. *)
Fixpoint trace (ann : gset string) (effs : list effect) : option (gset string) :=
  match effs with
  | [] => Some ann
  | NewPeer id :: effs => if decide (id ∈ ann) then None else trace ({[id]} ∪ ann) effs
  | Receive id _ :: effs => if decide (id ∈ ann) then trace ann effs else None
  | _ :: effs => trace ann effs
  end.

Lemma opened_app e1 e2 : opened (e1 ++ e2) = opened e1 ++ opened e2.
Proof. apply omap_app. Qed.

Lemma trace_app e1 : ∀ ann e2, trace ann (e1 ++ e2) = (ann ← trace ann e1; trace ann e2).
Proof. induction e1 as [|[] e1 IH]; intros ann e2; cbn [trace app]; try case_decide; rewrite ?IH; done. Qed.

(** Neither announces, nor receives, nor answers [open]. *)
Record quiet (effs : list effect) : Prop := mkQuiet {
  quiet_opened : opened effs = [];
  quiet_trace ann : trace ann effs = Some ann
}.

Lemma quiet_nil : quiet [].
Proof. by split. Qed.
Lemma quiet_app e1 e2 : quiet e1 → quiet e2 → quiet (e1 ++ e2).
Proof. intros [O1 T1] [O2 T2]. split; [by rewrite opened_app, O1, O2|]. intros ann. rewrite trace_app, T1. apply T2. Qed.
Lemma quiet_cons e effs :
  match e with Opened _ _ _ | NewPeer _ | Receive _ _ => False | _ => True end → quiet effs → quiet (e :: effs).
Proof. intros He [O T]. destruct e; try done; by split. Qed.

Hint Resolve quiet_nil quiet_app client_calm_refl : core.

(** ** Closing *)

Lemma same_peers_some w w' id : PeerSpec.same_peers w w' → is_Some (Peer.heap w' !! id) ↔ is_Some (Peer.heap w !! id).
Proof. intros E. specialize (E id). destruct (Peer.heap w' !! id), (Peer.heap w !! id); cbn in E; naive_solver. Qed.

Lemma client_with_peers_calm s w o : PeerSpec.same_peers (peers s) w → calm s (with_peers w o s).
Proof. intros E. split; auto. intros id. by apply same_peers_some. Qed.

Lemma client_with_protocol_calm s k p p' :
  protocols s !! k = Some p → (WebSocket.frame_cb p' = true → WebSocket.frame_cb p = true) → calm s (with_protocol k p' s).
Proof.
  intros Hp Hf. split; auto. intros k'. cbn [protocols with_protocol].
  destruct (decide (k' = k)) as [->|]; [by rewrite lookup_insert_eq, Hp|by rewrite lookup_insert_ne].
Qed.

Lemma with_group_calm s g h : calm s (with_group g h s).
Proof. split; auto. Qed.

Lemma with_conn_calm s k c : calm s (with_conn k c s).
Proof. split; auto. Qed.

(** Updating the data of a connection. *)
Lemma data_of_update s k n d d' k' :
  injective s → data_of s k = Some (n, d) →
  data_of (with_data n d' s) k' = if decide (k' = k) then Some (n, d') else data_of s k'.
Proof.
  intros I. unfold data_of. cbn [conn_data datas with_data]. destruct (conn_data s !! k) as [m|] eqn:Hm; [|done]. run_bind.
  destruct (datas s !! m) as [x|] eqn:Hx; [|done]. run_bind. intros [= -> ->]. case_decide as E.
  - subst. rewrite Hm. run_bind. by rewrite list_lookup_insert_eq by by eapply lookup_lt_Some.
  - destruct (conn_data s !! k') as [m'|] eqn:Hm'; [|done]. run_bind.
    rewrite list_lookup_insert_ne; [done|]. intros <-. apply E. by eapply I.
Qed.

Lemma data_of_datas s k n d : data_of s k = Some (n, d) → conn_data s !! k = Some n ∧ datas s !! n = Some d.
Proof.
  unfold data_of. destruct (conn_data s !! k) as [m|]; [|done]. run_bind.
  destruct (datas s !! m) as [x|] eqn:Hx; [|done]. run_bind. by intros [= <- <-].
Qed.

Lemma with_data_calm s k n d d' :
  data_of s k = Some (n, d) → fades d d' → peer d' = peer d → calm s (with_data n d' s).
Proof.
  intros Hd F Hp. split; auto.
  - destruct (data_of_datas _ _ _ _ Hd) as [_ Hn]. rewrite <-(list_insert_id (datas s) n d) at 1 by done.
    by apply Forall2_insert.
  - intros I L id k'. cbn [peer_data with_data]. rewrite (L id k'). unfold peer_of_conn.
    rewrite (data_of_update s k n d d' k' I Hd). case_decide as E; [|done]. subst. rewrite Hd. run_bind. by rewrite Hp.
Qed.

(** A peer and its connection forget each other. *)
Lemma client_unlink_calm s id k n d r :
  data_of s k = Some (n, d) → (injective s → linked s → peer_data s !! id = Some k) →
  calm s (with_peer_data (delete id (peer_data s)) (with_data n (with_peer None r d) s)).
Proof.
  intros Hd Hk. split; auto.
  - destruct (data_of_datas _ _ _ _ Hd) as [_ Hn]. cbn [datas with_peer_data with_data].
    rewrite <-(list_insert_id (datas s) n d) at 1 by done.
    apply Forall2_insert; [done|]. split_and!; auto.
  - intros I L id' k'. specialize (Hk I L). cbn [peer_data with_peer_data with_data].
    change (peer_of_conn _ k') with (peer_of_conn (with_data n (with_peer None r d) s) k').
    unfold peer_of_conn. rewrite (data_of_update s k n d _ k' I Hd). case_decide as E.
    + subst. run_bind. split; [|done]. intros [Hne Hl]%lookup_delete_Some. apply L in Hk, Hl. congruence.
    + rewrite lookup_delete_Some. change ('(_, d0) ← data_of s k'; peer d0) with (peer_of_conn s k').
      rewrite <-(L id' k'). split; [by intros [_ ?]|]. intros Hl. split; [|done]. intros <-. congruence.
Qed.

Lemma protocol_close_calm s k code s' effs :
  protocol_close random written s k code = Some (s', effs) → calm s s' ∧ quiet effs.
Proof.
  unfold protocol_close. destruct (protocols s !! k) as [p|] eqn:Hp; [|by intros [= <- <-]].
  destruct (WebSocket.evd_websocket_protocol_close _ _ p code) as [[[p' evs] b]|] eqn:E; [|done]. run_bind.
  intros [= <- <-]. apply close_reads in E as [E _]. split; [|by apply quiet_cons].
  eapply client_with_protocol_calm; [done|]. congruence.
Qed.

Lemma client_peer_closed_calm s id g s' effs :
  peer_closed random written s id g = Some (s', effs) → calm s s' ∧ quiet effs.
Proof.
  unfold peer_closed. destruct (peer_data s !! id) as [k|] eqn:Hk; [|by intros [= <- <-]].
  destruct (conns s !! k) as [c|]; [|done]. run_bind.
  set (r := if closed c then Some (s, []) else _). destruct r as [[s1 e1]|] eqn:E1; [|done]. run_bind.
  assert (calm s s1 ∧ quiet e1 ∧ peer_data s1 = peer_data s) as (C & Q & Hpd).
  { subst r. destruct (closed c); [by simplify_eq|]. unfold protocol_close in E1.
    pose proof (protocol_close_calm s k (if g then WebSocket.EVD_WEBSOCKET_CLOSE_NORMAL else WebsocketServer.EVD_WEBSOCKET_CLOSE_ABNORMAL) s1 e1 E1) as [? ?].
    split_and!; [done..|]. destruct (protocols s !! k); [|by simplify_eq].
    destruct (WebSocket.evd_websocket_protocol_close _ _ _ _) as [[[? ?] ?]|]; [|done]. by simplify_eq/=. }
  destruct (data_of s1 k) as [[n d]|] eqn:Hd; [|done]. run_bind. intros [= <- <-]. split; [|done].
  eapply client_calm_trans; [done|]. apply (client_unlink_calm s1 id k n d false Hd). intros _ _. by rewrite Hpd.
Qed.

Lemma client_notify_closed_calm self evs : ∀ s s' effs,
  notify_closed random written self s evs = Some (s', effs) → calm s s' ∧ quiet effs.
Proof.
  induction evs as [|ev evs IH]; intros s s' effs; cbn [notify_closed]; [by intros [= <- <-]|].
  destruct ev; try apply IH.
  destruct (if self id then _ else _) as [[s1 e1]|] eqn:E1; [|done]. run_bind.
  assert (calm s s1 ∧ quiet e1) as [C1 Q1] by (destruct (self id); [by eapply client_peer_closed_calm|by simplify_eq]).
  destruct (notify_closed random written self s1 evs) as [[s2 e2]|] eqn:E2; [|done]. run_bind. intros [= <- <-].
  apply IH in E2 as [C2 Q2]. split; [by eapply client_calm_trans|by apply quiet_app].
Qed.

Lemma client_close_peer_calm s id g s' effs :
  close_peer random written s id g = Some (s', effs) → calm s s' ∧ quiet effs.
Proof.
  unfold close_peer. destruct (Peer.evd_transport_close_peer _ _ _ _) as [[w evs]|] eqn:E; [|done]. run_bind.
  apply (proj1 (proj2 (PeerSpec.closing_same _ _ _ _ _ _))) in E.
  destruct (notify_closed _ _ _ _ evs) as [[s1 e1]|] eqn:E1; [|done]. run_bind. intros [= <- <-].
  apply client_notify_closed_calm in E1 as [C1 Q1]. split; [|by apply quiet_cons].
  eapply client_calm_trans; [|done]. by apply client_with_peers_calm.
Qed.

Lemma client_remove_calm s k s' effs b :
  io_stream_group_remove random written s k = Some (s', effs, b) → calm s s' ∧ quiet effs.
Proof.
  unfold io_stream_group_remove. case_decide; [|by intros [= <- <- _]].
  set (s1 := with_group _ _ s). set (s2 := match protocols s1 !! k with Some d => _ | None => s1 end).
  assert (calm s s2 ∧ data_of s2 k = data_of s k ∧ peer_data s2 = peer_data s) as (C2 & Hd2 & Hp2).
  { subst s2. destruct (protocols s1 !! k) as [p|] eqn:Hp; [|by split_and!; [apply with_group_calm|..]].
    split_and!; [|done..]. eapply client_calm_trans; [apply with_group_calm|]. by eapply (client_with_protocol_calm s1). }
  clearbody s2. rewrite Hd2. destruct (data_of s k) as [[n d]|] eqn:Hd; [|by intros [= <- <- _]].
  destruct (peer d) as [id|] eqn:Hid; [|by intros [= <- <- _]].
  set (s3 := with_data n _ _). destruct (if own s3 id then _ else _) as [[s4 e4]|] eqn:E4; [|done]. run_bind. intros [= <- <- _].
  assert (calm s2 s3) as C3.
  { apply (client_unlink_calm s2 id k n d false Hd2). intros I L. apply L. unfold peer_of_conn. by rewrite Hd2. }
  assert (calm s3 s4 ∧ quiet e4) as [C4 Q4] by (destruct (own s3 id); [by eapply client_close_peer_calm|by simplify_eq]).
  split; [|done]. do 2 (eapply client_calm_trans; [done|]). done.
Qed.

Lemma connection_closed_calm s k s' effs :
  on_connection_closed random written s k = Some (s', effs) → calm s s' ∧ quiet effs.
Proof.
  unfold on_connection_closed. destruct (match decide _ with left _ => _ | right _ => _ end) as [[s1 e1]|] eqn:E1; [|done]. run_bind.
  assert (calm s s1 ∧ quiet e1) as [C1 Q1].
  { case_decide; [|by simplify_eq]. revert E1. destruct (io_stream_group_remove _ _ s k) as [[[s2 e2] b2]|] eqn:E2; [|done].
    run_bind. intros [= <- <-]. by eapply client_remove_calm. }
  set (s0 := with_group _ _ s1). destruct (io_stream_group_remove random written s0 k) as [[[s2 e2] b2]|] eqn:E2; [|done].
  run_bind. intros [= <- <-]. apply client_remove_calm in E2 as [C2 Q2]. split; [|by apply quiet_app].
  eapply client_calm_trans; [done|]. eapply client_calm_trans; [|done]. apply with_group_calm.
Qed.

Lemma close_requested_calm s k g s' effs :
  on_close_requested random written s k g = Some (s', effs) → calm s s' ∧ quiet effs.
Proof.
  unfold on_close_requested. destruct (data_of s k) as [[n d]|]; [|done]. run_bind. set (s1 := with_group _ _ s).
  assert (calm s s1) as C1 by apply with_group_calm. destruct (peer d) as [id|]; [|by intros [= <- <-]]. destruct g.
  - intros [C2 Q2]%client_close_peer_calm. split; [|done]. by eapply client_calm_trans.
  - intros [= <- <-]. split; [done|by apply quiet_cons].
Qed.

Lemma send_calm s id buffer t s' effs b :
  evd_websocket_client_send random written s id buffer t = Some (s', effs, b) → calm s s' ∧ quiet effs.
Proof.
  unfold evd_websocket_client_send. destruct (peer_data s !! id) as [k|]; [|by intros [= <- <- _]].
  destruct (protocols s !! k) as [p|] eqn:Hp; [|by intros [= <- <- _]].
  destruct (WebSocket.evd_websocket_protocol_send _ _ p buffer _) as [[[p' evs] ok]|] eqn:E; [|done]. run_bind.
  intros [= <- <- _]. apply send_reads in E. split; [|by apply quiet_cons].
  eapply client_with_protocol_calm; [done|]. congruence.
Qed.

(** ** A sequence of operations *)

(** The calls of [open] whose handshake is under way. *)
Definition waiting s : list nat := requested s ++ omap (λ k, conn_data s !! k) (handshaking s).

(** Well-formed states lead to well-formed states, no peer is announced twice or sends before it is,
    and what the [new] calls of [open] and those that waited have become. *)
Definition good (new : list nat) s s' (effs : list effect) : Prop :=
  ∀ ann, wf ann s → ∃ ann' lost, wf ann' s' ∧ trace ann effs = Some ann' ∧
    opened effs ++ waiting s' ++ lost ≡ₚ new ++ waiting s ∧ (∀ n, n ∈ lost → Retry n ∈ effs) ∧
    length (datas s') = (length new + length (datas s))%nat.

Lemma calm_waiting s s' : calm s s' → waiting s' = waiting s.
Proof. intros C. unfold waiting. by rewrite (calm_requested _ _ C), (calm_handshaking _ _ C), (calm_conn _ _ C). Qed.

Lemma calm_good s s' effs : calm s s' → quiet effs → good [] s s' effs.
Proof.
  intros C [O T] ann W. exists ann, []. split_and!; [by eapply client_calm_wf|done| |by intros ? ?%not_elem_of_nil|].
  - rewrite O, (calm_waiting _ _ C), app_nil_r. done.
  - symmetry. by apply (Forall2_length _ _ _ (calm_datas _ _ C)).
Qed.

Lemma good_trans x y s1 s2 s3 e1 e2 : good x s1 s2 e1 → good y s2 s3 e2 → good (x ++ y) s1 s3 (e1 ++ e2).
Proof.
  intros G1 G2 ann W. destruct (G1 ann W) as (a1 & l1 & W1 & T1 & P1 & R1 & L1).
  destruct (G2 a1 W1) as (a2 & l2 & W2 & T2 & P2 & R2 & L2). exists a2, (l1 ++ l2). split_and!.
  - done.
  - by rewrite trace_app, T1.
  - rewrite opened_app. transitivity (opened e1 ++ (opened e2 ++ waiting s3 ++ l2) ++ l1); [solve_Permutation|].
    rewrite P2. transitivity (y ++ (opened e1 ++ waiting s2 ++ l1)); [solve_Permutation|]. rewrite P1. solve_Permutation.
  - intros n [?%R1|?%R2]%elem_of_app; apply elem_of_app; auto.
  - rewrite L2, L1, length_app. lia.
Qed.

Lemma good_refl s : good [] s s [].
Proof. by apply calm_good. Qed.

(** ** The new peer *)

(** The connection [k] keeps its data [n], which still wait for an answer or not, and nothing else that
    waits has changed. *)
Record carries (k n : nat) (b : bool) s s' : Prop := mkCarries {
  carries_handshaking : handshaking s' = handshaking s;
  carries_waiting : waiting s' = waiting s;
  carries_length : length (datas s') = length (datas s);
  carries_data : ∃ d, data_of s' k = Some (n, d) ∧ async_pending d = b
}.

Lemma carries_trans k n b c s1 s2 s3 : carries k n b s1 s2 → carries k n c s2 s3 → carries k n c s1 s3.
Proof. intros [H1 W1 L1 _] [H2 W2 L2 D2]. split; [congruence..|done]. Qed.

Lemma calm_carries k n d s s' : data_of s k = Some (n, d) → calm s s' → carries k n (async_pending d) s s'.
Proof.
  intros Hd C. split; [by apply calm_handshaking|by apply calm_waiting| |].
  - symmetry. by apply (Forall2_length _ _ _ (calm_datas _ _ C)).
  - destruct (calm_data_fwd _ _ _ _ _ C Hd) as (d' & Hd' & (P & _)). by exists d'.
Qed.

Lemma update_carries k n d d' s :
  injective s → data_of s k = Some (n, d) → carries k n (async_pending d') s (with_data n d' s).
Proof.
  intros I Hd. split; [done|done|by apply length_insert|].
  exists d'. split; [|done].
  rewrite (data_of_update s k n d d' k I Hd). by rewrite decide_True.
Qed.

(** Data that do not wait for their handshake may change, with the same peer. *)
Lemma update_wf ann s k n d d' :
  wf ann s → data_of s k = Some (n, d) → k ∉ handshaking s → peer d' = peer d →
  (validating_peer d' = true → ∀ id, peer d = Some id → (id ∉ ann) ∧ last_ref d' = true) → wf ann (with_data n d' s).
Proof.
  intros W Hd Hk Hp Hv. destruct (data_of_datas _ _ _ _ Hd) as [Hc Hn]. pose proof (wf_inj _ _ W) as I.
  assert (∀ k', peer_of_conn (with_data n d' s) k' = peer_of_conn s k') as Hpeer.
  { intros k'. unfold peer_of_conn. rewrite (data_of_update s k n d d' k' I Hd). case_decide; [|done].
    subst. rewrite Hd. run_bind. done. }
  split; try apply W.
  - intros k' n'. cbn [conn_data with_data datas next_conn]. rewrite length_insert. apply W.
  - intros id k'. rewrite Hpeer. apply W.
  - intros k' id. rewrite Hpeer. apply W.
  - intros k' n' x id. rewrite (data_of_update s k n d d' k' I Hd). case_decide; [|by apply W].
    intros [= <- <-] Hx Hid. apply Hv; [done|congruence].
  - intros k' p id Hpr Hf. rewrite Hpeer. by eapply wf_bound.
  - intros n' [(x & Hx & U) Hk']%(wf_requested _ _ W). split; [|done]. exists x. split; [|done]. cbn [datas with_data].
    rewrite list_lookup_insert_ne; [done|]. intros ->. by apply (Hk' k).
  - intros k' Hk'. destruct (wf_handshake _ _ W k' Hk') as [Hpr (n' & x & Hx & U)]. split; [done|]. exists n', x. split; [|done].
    rewrite (data_of_update s k n d d' k' I Hd). by rewrite decide_False by by intros ->.
Qed.

Lemma bound_not_handshaking ann s k : wf ann s → is_Some (protocols s !! k) → k ∉ handshaking s.
Proof. intros W [p Hp] [Hn _]%(wf_handshake _ _ W). congruence. Qed.

(** The peer of a connection is announced. *)
Lemma announce_wf ann s k n d id :
  wf ann s → data_of s k = Some (n, d) → peer d = Some id → validating_peer d = false → wf ({[id]} ∪ ann) s.
Proof.
  intros W Hd Hid Hv. assert (peer_of_conn s k = Some id) as Hp by (unfold peer_of_conn; by rewrite Hd).
  split; try apply W.
  - intros i [->%elem_of_singleton|Hi]%elem_of_union; [exact (wf_heap _ _ W k id Hp)|exact (wf_ann _ _ W i Hi)].
  - intros k' n' x i Hx Hvx Hi.
    destruct (wf_validating _ _ W k' n' x i Hx Hvx Hi) as [Hni Hl]. split; [|done].
    apply not_elem_of_union. split; [|done]. intros ->%elem_of_singleton.
    assert (peer_of_conn s k' = Some id) as Hp' by (unfold peer_of_conn; by rewrite Hx).
    apply (wf_link _ _ W) in Hp, Hp'. assert (k' = k) as -> by congruence. congruence.
  - intros k' p' i Hl Hf Hi. apply elem_of_union. right. by eapply (wf_bound _ _ W k').
Qed.

(** The protocol of a connection whose peer, if any, was announced. *)
Lemma protocol_wf ann s k p :
  wf ann s → k ∉ handshaking s → is_Some (conn_data s !! k) → (∀ id, peer_of_conn s k = Some id → id ∈ ann) →
  wf ann (with_protocol k p s).
Proof.
  intros W Hk Hc Hn. split; try apply W.
  - intros k'. cbn [protocols with_protocol]. intros [<-|[_ Hl]]%lookup_insert_is_Some; [done|by apply (wf_protocol _ _ W)].
  - intros k' q id. cbn [protocols with_protocol]. intros Hl Hf Hid. change (peer_of_conn s k' = Some id) in Hid.
    apply lookup_insert_Some in Hl as [[<- _]|[_ Hl]]; [by apply Hn|by eapply (wf_bound _ _ W k')].
  - intros k' Hk'. destruct (wf_handshake _ _ W k' Hk') as [Hpr Hx]. split; [|done]. cbn [protocols with_protocol].
    rewrite lookup_insert_ne; [done|]. by intros <-.
Qed.

Lemma client_ready_spec ann e s k n d id s' effs :
  wf ann s → data_of s k = Some (n, d) → peer d = Some id → validating_peer d = false → id ∉ ann →
  k ∉ handshaking s → on_websocket_connection_ready random written e s k = Some (s', effs) →
  wf ({[id]} ∪ ann) s' ∧ trace ann effs = Some ({[id]} ∪ ann) ∧ opened effs = [] ∧ carries k n (async_pending d) s s'.
Proof.
  intros W Hd Hid Hv Hann Hs. unfold on_websocket_connection_ready. rewrite Hd. run_bind. rewrite Hid. run_bind.
  destruct (Peer.evd_peer_manager_add_peer _ _ _ _ _) as [[w evs]|] eqn:Ea; [|done]. run_bind.
  apply PeerSpec.add_peer_same in Ea.
  destruct (notify_closed _ _ _ _ evs) as [[s1 e1]|] eqn:E1; [|done]. run_bind. apply client_notify_closed_calm in E1 as [C1 Q1].
  assert (calm s s1) as C by (eapply client_calm_trans; [by apply client_with_peers_calm|done]). clear C1.
  destruct (calm_data_fwd _ _ _ _ _ C Hd) as (d1 & Hd1 & F). rewrite Hd1. run_bind.
  destruct (peer d1) as [id1|] eqn:Hid1; [|done]. run_bind.
  assert (id1 = id) as ->. { destruct F as (_ & _ & [|[? _]]); congruence. }
  assert (wf ann s1) as W1 by by eapply client_calm_wf.
  assert (k ∉ handshaking s1) as Hs1 by by rewrite (calm_handshaking _ _ C).
  assert (validating_peer d1 = false) as Hv1 by (destruct F as (_ & V & _); congruence).
  set (d2 := with_peer (Some id) false d1). set (s2 := with_data n d2 s1).
  assert (wf ann s2) as W2.
  { apply (update_wf ann s1 k n d1); [done..|]. cbn. congruence. }
  assert (carries k n (async_pending d) s s2) as K2.
  { eapply carries_trans; [by apply (calm_carries k n d)|]. replace (async_pending d) with (async_pending d2);
      [apply (update_carries k n d1); [apply W1|done]|]. destruct F as (P & _). by cbn. }
  assert (data_of s2 k = Some (n, d2)) as Hd2.
  { unfold s2. rewrite (data_of_update s1 k n d1 d2 k (wf_inj _ _ W1) Hd1). by rewrite decide_True. }
  destruct (bind_protocol s2 k) as [s3 e3] eqn:E3. intros [= <- <-].
  assert (wf ({[id]} ∪ ann) s2) as W2' by by apply (announce_wf ann s2 k n d2).
  assert (wf ({[id]} ∪ ann) s3 ∧ quiet e3 ∧ carries k n (async_pending d) s s3) as (W3 & Q3 & K3).
  { revert E3. unfold bind_protocol. destruct (protocols s2 !! k) as [p|]; [|by intros [= <- <-]].
    destruct (WebSocket.evd_websocket_protocol_bind p) as [p' pevs]. intros [= <- <-]. split_and!.
    - apply protocol_wf; [done|exact Hs1| |].
      + destruct (data_of_datas _ _ _ _ Hd2) as [-> _]. by eexists.
      + unfold peer_of_conn. rewrite Hd2. run_bind. intros i [= <-]. apply elem_of_union. left. by apply elem_of_singleton.
    - by apply quiet_cons.
    - destruct K2 as [K1 K2 K3 K4]. by split. }
  split_and!; [done| | |done].
  - cbn [trace]. rewrite trace_app, (quiet_trace _ Q1). run_bind. cbn [trace]. rewrite decide_False by done. apply Q3.
  - change (opened (e1 ++ NewPeer id :: e3) = []). rewrite opened_app, (quiet_opened _ Q1). apply Q3.
Qed.

(** A connection whose handshake has just succeeded. *)
Definition greeted s (k : nat) : Prop := ∃ p, protocols s !! k = Some p ∧ WebSocket.frame_cb p = false.

Lemma resolve_spec ann e s k n d s' id :
  wf ann s → data_of s k = Some (n, d) → peer d = None → greeted s k → resolve_peer e s k = Some (s', id) →
  wf ann s' ∧ (id ∉ ann) ∧ data_of s' k = Some (n, with_peer (Some id) true d) ∧ protocols s' = protocols s ∧
  carries k n (async_pending d) s s'.
Proof.
  intros W Hd Hnone (p & Hp & Hf). unfold resolve_peer. rewrite Hd. run_bind. rewrite Hnone.
  destruct (Peer.heap (peers s) !! fresh_id e) eqn:Hfresh; [done|]. run_bind. intros [= <- <-].
  set (i := fresh_id e) in *. set (d' := with_peer (Some i) true d). pose proof (wf_inj _ _ W) as I.
  assert (i ∉ ann) as Hann by (intros Hi%(wf_ann _ _ W); rewrite Hfresh in Hi; by destruct Hi).
  assert (∀ k', peer_of_conn s k' ≠ Some i) as Hno by (intros k' Hi%(wf_heap _ _ W); rewrite Hfresh in Hi; by destruct Hi).
  set (s1 := with_data n d' _). set (s2 := with_peer_data _ s1).
  assert (∀ k', data_of s2 k' = if decide (k' = k) then Some (n, d') else data_of s k') as Hdata
    by (intros k'; exact (data_of_update s k n d d' k' I Hd)).
  assert (∀ k', peer_of_conn s2 k' = if decide (k' = k) then Some i else peer_of_conn s k') as Hpeer.
  { intros k'. unfold peer_of_conn. rewrite Hdata. by case_decide. }
  assert (k ∉ handshaking s) as Hk by by eapply bound_not_handshaking.
  destruct (data_of_datas _ _ _ _ Hd) as [Hc Hn].
  assert (∀ j, is_Some (Peer.heap (peers s) !! j) → is_Some (Peer.heap (peers s2) !! j)) as Hheap.
  { intros j Hj. change (is_Some (<[i := Peer.evd_peer_init (now e)]> (Peer.heap (peers s)) !! j)). apply lookup_insert_is_Some.
    destruct (decide (i = j)); auto. }
  split_and!; [split; try apply W|done|rewrite Hdata; by rewrite decide_True|done|].
  - intros k' n'. cbn [conn_data datas next_conn s2 s1 with_peer_data with_data with_peers]. rewrite length_insert. apply W.
  - intros j k'. rewrite Hpeer. change (peer_data s2) with (<[i := k]> (peer_data s)). rewrite lookup_insert_Some. case_decide as E.
    + subst. split; [|intros [= <-]; by left]. intros [[<- _]|[Hne Hl]]; [done|]. exfalso.
      apply (wf_link _ _ W) in Hl. unfold peer_of_conn in Hl. rewrite Hd in Hl. cbn in Hl. congruence.
    + rewrite <-(wf_link _ _ W j k'). split; [by intros [[_ ?]|[_ ?]]|]. intros Hl. right. split; [|done]. intros <-.
      apply (wf_link _ _ W) in Hl. by apply Hno in Hl.
  - intros k' j. rewrite Hpeer. case_decide; [|intros Hj; by eapply Hheap, wf_heap].
    intros [= <-]. change (is_Some (<[i := Peer.evd_peer_init (now e)]> (Peer.heap (peers s)) !! i)). by rewrite lookup_insert_eq.
  - intros j Hj. by eapply Hheap, wf_ann.
  - intros k' n' x j. rewrite Hdata. case_decide; [|by apply W]. intros [= <- <-] _ [= <-]. done.
  - intros k' q j Hq Hfq. rewrite Hpeer. case_decide; [|by eapply (wf_bound _ _ W k')].
    subst. change (protocols s !! k = Some q) in Hq. congruence.
  - intros n' [(x & Hx & U) Hk']%(wf_requested _ _ W). split; [|done]. exists x. split; [|done].
    change (<[n := d']> (datas s) !! n' = Some x). rewrite list_lookup_insert_ne; [done|]. intros ->. by apply (Hk' k).
  - intros k' Hk'. destruct (wf_handshake _ _ W k' Hk') as [Hpr (n' & x & Hx & U)]. split; [done|]. exists n', x.
    rewrite Hdata. by rewrite decide_False by by intros ->.
  - split; [done|done|apply length_insert|]. exists d'. split; [|done]. rewrite Hdata. by rewrite decide_True.
Qed.

Lemma client_reject_spec ann s k n d d' id s' effs :
  wf ann s → data_of s k = Some (n, d) → peer d = Some id → id ∉ ann → k ∉ handshaking s →
  last_ref d' = true → reject random written s k n d' id = Some (s', effs) →
  wf ann s' ∧ quiet effs ∧ carries k n (async_pending d') s s'.
Proof.
  intros W Hd Hid Hann Hk Hl. unfold reject. rewrite Hl. set (x := with_peer None false d'). set (s1 := with_data n x _).
  intros [C Q]%protocol_close_calm. pose proof (wf_inj _ _ W) as I.
  assert (peer_of_conn s k = Some id) as Hpk by (unfold peer_of_conn; by rewrite Hd).
  assert (∀ k', data_of s1 k' = if decide (k' = k) then Some (n, x) else data_of s k') as Hdata
    by (intros k'; exact (data_of_update s k n d x k' I Hd)).
  assert (∀ k', peer_of_conn s1 k' = if decide (k' = k) then None else peer_of_conn s k') as Hpeer.
  { intros k'. unfold peer_of_conn. rewrite Hdata. by case_decide. }
  destruct (data_of_datas _ _ _ _ Hd) as [Hc Hn].
  assert (∀ k' j, k' ≠ k → peer_of_conn s k' = Some j → j ≠ id) as Hother.
  { intros k' j Hne Hj ->. apply (wf_link _ _ W) in Hj, Hpk. congruence. }
  assert (∀ j, j ≠ id → is_Some (Peer.heap (peers s) !! j) → is_Some (Peer.heap (peers s1) !! j)) as Hheap.
  { intros j Hj. change (is_Some (Peer.heap (peers s) !! j) → is_Some (delete id (Peer.heap (peers s)) !! j)).
    by rewrite lookup_delete_ne. }
  assert (wf ann s1) as W1.
  { split; try apply W.
    - intros k' n'. cbn [conn_data datas next_conn s1 with_data free_peer with_peer_data with_peers]. rewrite length_insert. apply W.
    - intros j k'. rewrite Hpeer. change (peer_data s1) with (delete id (peer_data s)). rewrite lookup_delete_Some. case_decide as E.
      + subst. split; [|done]. intros [Hne Hj]. apply (wf_link _ _ W) in Hj. congruence.
      + rewrite (wf_link _ _ W j k'). split; [by intros [_ ?]|]. intros Hj. split; [|done]. by apply not_eq_sym, (Hother k').
    - intros k' j. rewrite Hpeer. case_decide; [done|]. intros Hj. apply Hheap; [by eapply Hother|by eapply wf_heap].
    - intros j Hj. apply Hheap; [by intros ->|by eapply wf_ann].
    - intros k' n' y j. rewrite Hdata. case_decide; [|by apply W]. by intros [= <- <-].
    - intros k' q j Hq Hfq. rewrite Hpeer. case_decide; [done|]. by eapply (wf_bound _ _ W k').
    - intros n' [(y & Hy & U) Hk']%(wf_requested _ _ W). split; [|done]. exists y. split; [|done].
      change (<[n := x]> (datas s) !! n' = Some y). rewrite list_lookup_insert_ne; [done|]. intros ->. by apply (Hk' k).
    - intros k' Hk'. destruct (wf_handshake _ _ W k' Hk') as [Hpr (n' & y & Hy & U)]. split; [done|]. exists n', y.
      rewrite Hdata. by rewrite decide_False by by intros ->. }
  split_and!; [by eapply client_calm_wf|done|]. eapply (carries_trans k n (async_pending x) (async_pending x) s s1).
  - split; [done|done|apply length_insert|]. exists x. rewrite Hdata. by rewrite decide_True.
  - apply (calm_carries k n x); [|done]. rewrite Hdata. by rewrite decide_True.
Qed.

Lemma with_arg_calm s a : calm s (with_arg a s).
Proof. split; auto. Qed.

Lemma validate_spec ann e s k n d s' effs :
  wf ann s → data_of s k = Some (n, d) → peer d = None → validating_peer d = false → greeted s k →
  resolve_peer_and_validate random written e s k = Some (s', effs) →
  ∃ ann', wf ann' s' ∧ trace ann effs = Some ann' ∧ opened effs = [] ∧ carries k n (async_pending d) s s'.
Proof.
  intros W Hd Hnone Hv Hg. unfold resolve_peer_and_validate.
  destruct (resolve_peer e s k) as [[s1 id]|] eqn:E; [|done]. run_bind.
  destruct (resolve_spec ann e s k n d s1 id W Hd Hnone Hg E) as (W1 & Hann & Hd1 & Hp1 & K1). rewrite Hd1. run_bind.
  set (d1 := with_peer (Some id) true d) in *. set (s2 := with_arg None _). set (v := Transport.evd_transport_notify_validate_peer _).
  assert (calm s1 s2) as C2 by (eapply client_calm_trans; apply with_arg_calm). assert (wf ann s2) as W2 by by eapply client_calm_wf.
  assert (k ∉ handshaking s2) as Hs2.
  { change (k ∉ handshaking s1). rewrite (carries_handshaking _ _ _ _ _ K1). eapply bound_not_handshaking; [done|].
    destruct Hg as (p & Hp & _). by exists p. }
  assert (carries k n (async_pending d) s s2) as K2.
  { eapply carries_trans; [done|]. by apply (calm_carries k n d1). }
  clearbody v. destruct (if v =? _ then _ else _) as [[s3 e3]|] eqn:E3; [|done]. run_bind. intros [= <- <-].
  enough (∃ ann', wf ann' s3 ∧ trace ann e3 = Some ann' ∧ opened e3 = [] ∧ carries k n (async_pending d) s2 s3) as
    (ann' & W3 & T3 & O3 & K3).
  { exists ann'. split_and!; [done..|]. by eapply carries_trans. }
  destruct (v =? _).
  { destruct (client_ready_spec ann e s2 k n d1 id s3 e3) as (? & ? & ? & ?); try done. by eexists. }
  destruct (v =? _).
  { destruct (client_reject_spec ann s2 k n d1 d1 id s3 e3) as (? & [? ?] & ?); try done. by exists ann. }
  injection E3 as <- <-. exists ann. split_and!; [|done..|by apply (update_carries k n d1 (with_validating true d1)); [apply W2|]].
  apply (update_wf ann s2 k n d1); [done..|]. by intros _ ? [= <-].
Qed.

(** ** The answer to [open] *)

Lemma complete_spec ann s k n d err s' effs :
  wf ann s → data_of s k = Some (n, d) → async_pending d = true → k ∉ handshaking s →
  complete_open s k err = Some (s', effs) →
  wf ann s' ∧ trace ann effs = Some ann ∧ opened effs = [n] ∧ carries k n false s s'.
Proof.
  intros W Hd Hp Hk. unfold complete_open. rewrite Hd. run_bind. rewrite Hp. intros [= <- <-].
  split_and!; [|done..|by apply (update_carries k n d (answered d)); [apply W|]].
  apply (update_wf ann s k n d); [done..|]. cbn. intros Hv id Hid. by eapply (wf_validating _ _ W).
Qed.

(** The data of the handshake of a connection, which is no more under way. *)
Definition ended s (k n : nat) : Prop :=
  (k ∉ handshaking s) ∧ protocols s !! k = None ∧ ∃ d, data_of s k = Some (n, d) ∧ untouched d.

Lemma response_spec ann e s k n a s' effs :
  wf ann s → ended s k n → on_handshake_response random written e s k a = Some (s', effs) →
  ∃ ann', wf ann' s' ∧ trace ann effs = Some ann' ∧ opened effs = [n] ∧ carries k n false s s'.
Proof.
  intros W (Hk & Hp & d & Hd & U1 & U2 & U3). unfold on_handshake_response. rewrite Hd. run_bind.
  destruct (evd_http_connection_read_response_headers_finish a) as [[[[h v] st] ph]|]; cycle 1.
  { intros E. exists ann. by eapply complete_spec. }
  destruct (handshake_key d) as [key|]; [|done]. run_bind.
  destruct (WebSocket.evd_websocket_protocol_handle_handshake_response _ _ _ _) as [p|err] eqn:Eh; cycle 1.
  { intros E. exists ann. by eapply complete_spec. }
  set (d1 := with_headers (Some h) d). set (s1 := with_data n d1 _).
  assert (wf ann (with_protocol k p s)) as W0.
  { apply protocol_wf; [done..| |]; [by destruct (data_of_datas _ _ _ _ Hd) as [-> _]; eexists|].
    unfold peer_of_conn. rewrite Hd. run_bind. intros ?. congruence. }
  assert (wf ann s1) as W1.
  { apply (update_wf ann (with_protocol k p s) k n d); [done|exact Hd|exact Hk|done|]. cbn. congruence. }
  assert (data_of s1 k = Some (n, d1)) as Hd1.
  { unfold s1. rewrite (data_of_update (with_protocol k p s) k n d d1 k (wf_inj _ _ W) Hd). by rewrite decide_True. }
  assert (greeted s1 k) as Hg.
  { exists p. split; [apply lookup_insert_eq|]. revert Eh. unfold WebSocket.evd_websocket_protocol_handle_handshake_response.
    repeat case_match; try done; by intros [= <-]. }
  destruct (resolve_peer_and_validate _ _ e s1 k) as [[s2 e2]|] eqn:E2; [|done]. run_bind.
  apply (validate_spec ann e s1 k n d1) in E2 as (ann2 & W2 & T2 & O2 & K2); [|done..].
  destruct (complete_open s2 k None) as [[s3 e3]|] eqn:E3; [|done]. run_bind. intros [= <- <-].
  destruct (carries_data _ _ _ _ _ K2) as (d2 & Hd2 & Hpd). change (async_pending d1) with (async_pending d) in Hpd.
  assert (carries k n (async_pending d) s s1) as K1.
  { split; [done|done|apply length_insert|]. by exists d1. }
  destruct (complete_spec ann2 s2 k n d2 None s3 e3) as (W3 & T3 & O3 & K3); [done|done|congruence| |done|].
  { rewrite (carries_handshaking _ _ _ _ _ K2). exact Hk. }
  exists ann2. split_and!; [done|by rewrite trace_app, T2|by rewrite opened_app, O2, O3|].
  eapply carries_trans; [done|]. by eapply carries_trans.
Qed.

(** ** Handshakes that begin and end *)

Lemma waiting_perm s s' ks n k :
  handshaking s ≡ₚ ks ++ handshaking s' → requested s' = requested s → conn_data s' = conn_data s →
  ks = [k] → conn_data s !! k = Some n → waiting s ≡ₚ n :: waiting s'.
Proof.
  intros Hp Hr Hc -> Hk. unfold waiting. rewrite Hr, Hc, Hp. cbn [app]. cbn [omap list_omap]. rewrite Hk. solve_Permutation.
Qed.

(** The operation under way on a connection ends. *)
Lemma take_spec ann s k m i :
  wf ann s → handshaking s ≡ₚ k :: handshaking (with_awaiting m i s) →
  ∃ n, wf ann (with_awaiting m i s) ∧ ended (with_awaiting m i s) k n ∧ waiting s ≡ₚ n :: waiting (with_awaiting m i s).
Proof.
  intros W Hp. pose proof (wf_handshake_once _ _ W) as Hnd. rewrite Hp in Hnd. apply NoDup_cons in Hnd as [Hk Hnd].
  destruct (wf_handshake _ _ W k) as [Hpr (n & d & Hd & U)]; [rewrite Hp; by left|].
  exists n. split_and!.
  - split; try apply W; [|done]. intros k' Hk'. apply (wf_handshake _ _ W). rewrite Hp. by right.
  - split_and!; [done..|by exists d].
  - destruct (data_of_datas _ _ _ _ Hd) as [Hc _]. by eapply (waiting_perm s _ [k]).
Qed.

(** An operation begins. *)
Lemma put_spec ann s k n c m i :
  wf ann s → ended s k n → handshaking (with_awaiting m i s) ≡ₚ k :: handshaking s →
  wf ann (with_awaiting m i (with_conn k c s)) ∧ waiting (with_awaiting m i (with_conn k c s)) ≡ₚ n :: waiting s.
Proof.
  intros W (Hk & Hpr & d & Hd & U) Hp. split.
  - split; try apply W.
    + intros k' Hk'. change (handshaking (with_awaiting m i (with_conn k c s))) with (handshaking (with_awaiting m i s)) in Hk'.
      rewrite Hp in Hk'. apply elem_of_cons in Hk' as [->|Hk']; [|by apply (wf_handshake _ _ W)]. split; [done|]. by exists n, d.
    + change (handshaking (with_awaiting m i (with_conn k c s))) with (handshaking (with_awaiting m i s)).
      rewrite Hp. apply NoDup_cons. split; [done|apply W].
  - destruct (data_of_datas _ _ _ _ Hd) as [Hc _].
    by apply (waiting_perm (with_awaiting m i (with_conn k c s)) s [k] n k).
Qed.

Lemma handshaking_insert s k cb :
  k ∉ handshaking s → handshaking (with_awaiting (<[k := cb]> (awaiting s)) (idle s) s) ≡ₚ k :: handshaking s.
Proof.
  intros Hk. unfold handshaking. cbn [awaiting idle with_awaiting]. rewrite map_to_list_insert; [done|].
  destruct (awaiting s !! k) as [x|] eqn:E; [|done]. exfalso. apply Hk. unfold handshaking. apply elem_of_app. left.
  apply list_elem_of_fmap. exists (k, x). split; [done|]. by apply elem_of_map_to_list.
Qed.

Lemma handshaking_delete s k cb :
  awaiting s !! k = Some cb → handshaking s ≡ₚ k :: handshaking (with_awaiting (delete k (awaiting s)) (idle s) s).
Proof.
  intros E. unfold handshaking. cbn [awaiting idle with_awaiting]. by rewrite <-(map_to_list_delete (awaiting s) k cb E).
Qed.

Lemma handshaking_idle s k cb a : handshaking (with_awaiting (awaiting s) (idle s ++ [(k, cb, a)]) s) ≡ₚ k :: handshaking s.
Proof. unfold handshaking. cbn [awaiting idle with_awaiting]. rewrite !fmap_app. cbn. solve_Permutation. Qed.

Lemma handshaking_run s i k cb a :
  idle s !! i = Some (k, cb, a) → handshaking s ≡ₚ k :: handshaking (with_awaiting (awaiting s) (delete i (idle s)) s).
Proof.
  intros E. unfold handshaking. cbn [awaiting idle with_awaiting]. rewrite (delete_Permutation (idle s) i _ E) at 1. cbn. solve_Permutation.
Qed.

Lemma started_spec ann s k n c cb evs :
  wf ann s → ended s k n → wf ann (started s k c cb evs) ∧ waiting (started s k c cb evs) ≡ₚ n :: waiting s.
Proof.
  intros W E. unfold started. destruct evs as [|[a b|] evs]; cbn [awaiting idle with_conn];
    apply put_spec; try done; try (apply handshaking_insert, E). apply handshaking_idle.
Qed.

(** A callback of the handshake of [k]. *)
Definition settles (n : nat) s s' (effs : list effect) : Prop :=
  ∀ ann, wf ann s → ∃ ann' lost, wf ann' s' ∧ trace ann effs = Some ann' ∧
    opened effs ++ waiting s' ++ lost ≡ₚ n :: waiting s ∧ (∀ n, n ∈ lost → Retry n ∈ effs) ∧
    length (datas s') = length (datas s).

Lemma callback_settles e s k n cb a s' effs :
  ended s k n → run_callback random written e s k cb a = Some (s', effs) → settles n s s' effs.
Proof.
  intros Hend E ann W. destruct cb; cbn [run_callback] in E.
  - revert E. unfold on_handshake_sent. destruct Hend as (Hk & Hp & d & Hd & U). rewrite Hd. run_bind.
    destruct (evd_http_connection_write_request_headers_finish a).
    + destruct (conns s !! k) as [c|]; [|done]. run_bind.
      destruct (evd_http_connection_read_response_headers c) as [c' evs]. intros [= <- <-].
      destruct (started_spec ann s k n c' OnHandshakeResponse evs W) as [W1 P1]; [split_and!; [done..|by exists d]|].
      exists ann, []. split_and!; [done|done|by rewrite app_nil_r|by intros ? ?%not_elem_of_nil|].
      unfold started. by destruct evs as [|[]].
    + intros [= <- <-]. exists ann, [n]. split_and!; [done|done| |intros ? ->%list_elem_of_singleton; by left|done].
      cbn. solve_Permutation.
  - destruct (response_spec ann e s k n a s' effs W Hend E) as (ann' & W' & T & O & K). exists ann', [].
    split_and!; [done|done| |by intros ? ?%not_elem_of_nil|apply K].
    by rewrite O, app_nil_r, (carries_waiting _ _ _ _ _ K).
Qed.

(** One that was under way. *)
Lemma under_way_good e s k cb a m i s' effs :
  handshaking s ≡ₚ k :: handshaking (with_awaiting m i s) →
  run_callback random written e (with_awaiting m i s) k cb a = Some (s', effs) → good [] s s' effs.
Proof.
  intros Hp E ann W. destruct (take_spec ann s k m i W Hp) as (n & W0 & Hend & Hw).
  destruct (callback_settles _ _ _ _ _ _ _ _ Hend E ann W0) as (ann' & lost & W' & T & P & R & L).
  exists ann', lost. split_and!; [done|done| |done|done]. by rewrite P, <-Hw.
Qed.

Lemma conn_events_good e k evs : ∀ s s' effs,
  conn_events random written e s k evs = Some (s', effs) → good [] s s' effs.
Proof.
  induction evs as [|[a b|] evs IH]; intros s s' effs; cbn [conn_events]; [intros [= <- <-]; apply good_refl| |apply IH].
  destruct (awaiting s !! k) as [cb|] eqn:Ha; [|apply IH].
  destruct (run_callback _ _ e _ k cb a) as [[s1 e1]|] eqn:E1; [|done]. run_bind.
  destruct (conn_events _ _ e s1 k evs) as [[s2 e2]|] eqn:E2; [|done]. run_bind. intros [= <- <-].
  apply (good_trans [] [] s s1 s2); [|by apply IH]. eapply under_way_good; [by eapply handshaking_delete|done].
Qed.

Lemma good_calm_l x s1 s2 s3 effs : calm s1 s2 → good x s2 s3 effs → good x s1 s3 effs.
Proof. intros C G. apply (good_trans [] x s1 s2 s3 [] effs); [by apply calm_good|done]. Qed.

Lemma io_close_good e s k s' effs : io_close random written e s k = Some (s', effs) → good [] s s' effs.
Proof.
  unfold io_close. destruct (conns s !! k) as [c|]; [|done]. run_bind.
  destruct (g_io_stream_close c) as [[c' evs]|]; [|done]. run_bind.
  destruct (conn_events _ _ e _ k evs) as [[s1 e1]|] eqn:E1; [|done]. run_bind.
  destruct (if _ && _ then _ else _) as [[s2 e2]|] eqn:E2; [|done]. run_bind. intros [= <- <-].
  apply (good_trans [] [] s s1 s2).
  - eapply good_calm_l; [apply (with_conn_calm s k c')|by eapply conn_events_good].
  - destruct (_ && _); [|simplify_eq; apply good_refl]. apply connection_closed_calm in E2 as [C Q]. by apply calm_good.
Qed.

(** ** Events of the protocol *)

(** With no operation under way the connection tells nothing. *)
Lemma conn_events_idle e k evs : ∀ s, awaiting s !! k = None → conn_events random written e s k evs = Some (s, []).
Proof. induction evs as [|[] evs IH]; intros s Ha; cbn [conn_events]; rewrite ?Ha; auto. Qed.

Lemma not_handshaking_awaiting s k : k ∉ handshaking s → awaiting s !! k = None.
Proof.
  intros Hk. destruct (awaiting s !! k) as [cb|] eqn:E; [|done]. exfalso. apply Hk. unfold handshaking.
  apply elem_of_app. left. apply list_elem_of_fmap. exists (k, cb). split; [done|]. by apply elem_of_map_to_list.
Qed.

Lemma client_io_close_calm e s k s' effs :
  k ∉ handshaking s → io_close random written e s k = Some (s', effs) → calm s s' ∧ quiet effs.
Proof.
  intros Hk. unfold io_close. destruct (conns s !! k) as [c|]; [|done]. run_bind.
  destruct (g_io_stream_close c) as [[c' evs]|]; [|done]. run_bind.
  rewrite (conn_events_idle e k evs (with_conn k c' s)) by by apply not_handshaking_awaiting. run_bind.
  destruct (if _ && _ then _ else _) as [[s2 e2]|] eqn:E2; [|done]. run_bind. intros [= <- <-].
  assert (calm s (with_conn k c' s)) as C0 by apply with_conn_calm.
  destruct (_ && _); [|by simplify_eq]. apply connection_closed_calm in E2 as [C Q]. split; [by eapply client_calm_trans|done].
Qed.

(** What the protocol of a connection does: nothing is received but from a peer that was announced. *)
Lemma event_spec ann e s k ev s' effs :
  k ∉ handshaking s → (no_frames [ev] ∨ ∀ id, peer_of_conn s k = Some id → id ∈ ann) →
  on_event random written e s k ev = Some (s', effs) → calm s s' ∧ opened effs = [] ∧ trace ann effs = Some ann.
Proof.
  assert (∀ effs, calm s s' ∧ quiet effs → calm s s' ∧ opened effs = [] ∧ trace ann effs = Some ann) as Hq
    by (by intros effs' (? & [? ?])).
  intros Hk Hp. destruct ev; cbn [on_event];
    try (intros [= <- <-]; apply Hq; split; [done|by apply quiet_cons]);
    try (intros E; by eapply Hq, client_io_close_calm); try (intros E; by eapply Hq, close_requested_calm).
  destruct Hp as [Hp|Hp]; [by inversion Hp|]. unfold on_frame_received.
  destruct (data_of s k) as [[n d]|] eqn:Hd; [|done]. run_bind. destruct (peer d) as [id|] eqn:Hid; [|done]. run_bind.
  destruct (Peer.heap (peers s) !! id) as [p|] eqn:Hh; [|done]. run_bind. intros [= <- <-].
  split_and!; [by apply client_with_peers_calm, (PeerSpec.set_peer_same _ _ p)|done|].
  cbn [trace]. rewrite decide_True; [done|]. apply Hp. unfold peer_of_conn. by rewrite Hd.
Qed.

Lemma events_spec ann e k evs : ∀ s s' effs,
  k ∉ handshaking s → (no_frames evs ∨ ∀ id, peer_of_conn s k = Some id → id ∈ ann) →
  on_events random written e s k evs = Some (s', effs) → calm s s' ∧ opened effs = [] ∧ trace ann effs = Some ann.
Proof.
  induction evs as [|ev evs IH]; intros s s' effs Hk Hp; cbn [on_events]; [by intros [= <- <-]|].
  destruct (on_event _ _ e s k ev) as [[s1 e1]|] eqn:E1; [|done]. run_bind.
  destruct (on_events _ _ e s1 k evs) as [[s2 e2]|] eqn:E2; [|done]. run_bind. intros [= <- <-].
  apply (event_spec ann) in E1 as (C1 & O1 & T1); [|done|].
  2:{ destruct Hp as [Hp|]; [|by right]. left. apply Forall_cons in Hp as [? _]. by repeat constructor. }
  apply IH in E2 as (C2 & O2 & T2); [|by rewrite (calm_handshaking _ _ C1)|].
  2:{ destruct Hp as [Hp|Hp]; [left; by apply Forall_cons in Hp as [_ ?]|]. right. intros id Hid%(calm_peer _ _ _ _ C1). auto. }
  split_and!; [by eapply client_calm_trans|by rewrite opened_app, O1, O2|by rewrite trace_app, T1].
Qed.

Lemma protocol_did_good e s k d d' evs s' effs :
  protocols s !! k = Some d → reads d d' evs → protocol_did random written e s k d' evs = Some (s', effs) →
  good [] s s' effs.
Proof.
  intros Hd R E ann W. destruct R as [Hf Hn]. assert (calm s (with_protocol k d' s)) as C by (eapply client_with_protocol_calm; [done|congruence]).
  destruct (events_spec ann e k evs (with_protocol k d' s) s' effs) as (C' & O & T); [| |exact E|].
  - change (k ∉ handshaking s). eapply bound_not_handshaking; [done|by exists d].
  - destruct (WebSocket.frame_cb d) eqn:Hfd; [|left; by apply Hn]. right. intros id Hid. by eapply (wf_bound _ _ W k d).
  - exists ann, []. assert (calm s s') as C2 by by eapply client_calm_trans. split_and!; [by eapply client_calm_wf|done| |by intros ? ?%not_elem_of_nil|].
    + by rewrite O, (calm_waiting _ _ C2), app_nil_r.
    + symmetry. by apply (Forall2_length _ _ _ (calm_datas _ _ C2)).
Qed.

Lemma conn_read_good e s k r s' effs : conn_read random written e s k r = Some (s', effs) → good [] s s' effs.
Proof.
  unfold conn_read. destruct (protocols s !! k) as [d|] eqn:Hd; [|done]. run_bind.
  destruct (WebSocket.on_connection_read _ _ d r) as [| |d' evs b] eqn:E; [done..|]. apply read_reads in E.
  by eapply protocol_did_good.
Qed.

Lemma conn_flushed_good e s k s' effs : conn_flushed random written e s k = Some (s', effs) → good [] s s' effs.
Proof.
  unfold conn_flushed. destruct (protocols s !! k) as [d|] eqn:Hd; [|done]. run_bind.
  destruct (WebSocket.on_connection_flushed d) as [d' evs] eqn:E. eapply protocol_did_good; [done|].
  by apply finish_reads in E.
Qed.

Lemma conn_timeout_good e s k s' effs : conn_timeout random written e s k = Some (s', effs) → good [] s s' effs.
Proof.
  unfold conn_timeout. destruct (protocols s !! k) as [d|] eqn:Hd; [|done]. run_bind.
  destruct (WebSocket.close_timeout_cb d) as [[d' evs]|] eqn:E; [|done]. run_bind. eapply protocol_did_good; [done|].
  revert E. unfold WebSocket.close_timeout_cb. cbn. destruct (WebSocket.close_cb d); [|done]. intros [= <- <-].
  split; [done|]. intros _. repeat constructor.
Qed.

(** ** Verdicts given later *)

(** A peer that waits for a verdict, with its connection. *)
Lemma validating_spec ann s id k n d :
  wf ann s → peer_data s !! id = Some k → data_of s k = Some (n, d) → validating_peer d = true →
  peer d = Some id ∧ (id ∉ ann) ∧ last_ref d = true ∧ k ∉ handshaking s.
Proof.
  intros W Hk Hd Hv. apply (wf_link _ _ W) in Hk. unfold peer_of_conn in Hk. rewrite Hd in Hk. cbn in Hk.
  destruct (wf_validating _ _ W k n d id) as [? ?]; [done..|]. split_and!; [done..|].
  intros [_ (n' & d' & Hd' & (_ & _ & U))]%(wf_handshake _ _ W). congruence.
Qed.

(** What a connection that keeps its data does is good, when it announces what it says. *)
Lemma carries_good k n b s s' effs :
  (∀ ann, wf ann s → ∃ ann', wf ann' s' ∧ trace ann effs = Some ann' ∧ opened effs = [] ∧ carries k n b s s') →
  good [] s s' effs.
Proof.
  intros G ann W. destruct (G ann W) as (ann' & W' & T & O & K). exists ann', [].
  split_and!; [done|done| |by intros ? ?%not_elem_of_nil|apply K].
  by rewrite O, (carries_waiting _ _ _ _ _ K), app_nil_r.
Qed.

Lemma accept_good e s id s' effs b :
  transport_accept_peer random written e s id = Some (s', effs, b) → good [] s s' effs.
Proof.
  unfold transport_accept_peer. destruct (peer_data s !! id) as [k|] eqn:Hk; run_bind; [|intros [= <- <- _]; apply good_refl].
  destruct (data_of s k) as [[n d]|] eqn:Hd; run_bind; [|intros [= <- <- _]; apply good_refl].
  destruct (validating_peer d) eqn:Hv; [|intros [= <- <- _]; apply good_refl].
  set (d1 := with_validating false d). set (s1 := with_data n d1 s).
  destruct (on_websocket_connection_ready _ _ e s1 k) as [[s2 e2]|] eqn:E; [|done]. run_bind. intros [= <- <- _].
  apply (carries_good k n (async_pending d)). intros ann W. exists ({[id]} ∪ ann).
  destruct (validating_spec _ _ _ _ _ _ W Hk Hd Hv) as (Hid & Hann & Hl & Hs).
  assert (wf ann s1) as W1 by by apply (update_wf ann s k n d).
  assert (carries k n (async_pending d) s s1) as K1 by (apply (update_carries k n d d1); [apply W|done]).
  destruct (carries_data _ _ _ _ _ K1) as (d' & Hd' & _).
  assert (data_of s1 k = Some (n, d1)) as Hd1.
  { unfold s1. rewrite (data_of_update s k n d d1 k (wf_inj _ _ W) Hd). by rewrite decide_True. }
  destruct (client_ready_spec ann e s1 k n d1 id s2 e2 W1 Hd1) as (W2 & T & O & K2); [done..|].
  split_and!; [done..|]. by eapply carries_trans.
Qed.

Lemma reject_good s id s' effs b :
  transport_reject_peer random written s id = Some (s', effs, b) → good [] s s' effs.
Proof.
  unfold transport_reject_peer. destruct (peer_data s !! id) as [k|] eqn:Hk; run_bind; [|intros [= <- <- _]; apply good_refl].
  destruct (data_of s k) as [[n d]|] eqn:Hd; run_bind; [|intros [= <- <- _]; apply good_refl].
  destruct (validating_peer d) eqn:Hv; [|intros [= <- <- _]; apply good_refl].
  destruct (peer d) as [id'|] eqn:Hid'; [|done]. run_bind.
  destruct (reject _ _ s k n _ id') as [[s2 e2]|] eqn:E; [|done]. run_bind. intros [= <- <- _].
  apply (carries_good k n (async_pending d)). intros ann W. exists ann.
  destruct (validating_spec _ _ _ _ _ _ W Hk Hd Hv) as (Hid & Hann & Hl & Hs).
  assert (id' = id) as -> by congruence.
  destruct (client_reject_spec ann s k n d (with_validating false d) id s2 e2) as (? & [? ?] & ?); done.
Qed.

(** ** Connections of the pool *)

Lemma omap_ext_in {A B} (f g : A → option B) (l : list A) : (∀ x, x ∈ l → f x = g x) → omap f l = omap g l.
Proof.
  induction l as [|x l IH]; intros E; [done|]. cbn. rewrite (E x) by by left. rewrite IH; [done|]. intros y Hy. apply E. by right.
Qed.

Lemma new_conn_spec ann s n c :
  wf ann s → n ∈ requested s →
  let s1 := with_new_conn c n s in
  wf ann s1 ∧ ended s1 (next_conn s) n ∧ waiting s ≡ₚ n :: waiting s1.
Proof.
  intros W Hn. cbn zeta. set (s1 := with_new_conn c n s). set (k0 := next_conn s).
  destruct (wf_requested _ _ W n Hn) as [(d & Hd & U) Hfree].
  assert (conn_data s !! k0 = None) as Hc0.
  { destruct (conn_data s !! k0) as [m|] eqn:E; [|done]. apply (wf_conn _ _ W) in E as [_ E]. unfold k0 in E. lia. }
  assert (∀ k, conn_data s1 !! k = if decide (k = k0) then Some n else conn_data s !! k) as Hc.
  { intros k. cbn [conn_data with_new_conn s1]. case_decide; [subst; by rewrite lookup_insert_eq|by rewrite lookup_insert_ne]. }
  assert (∀ k, data_of s1 k = if decide (k = k0) then Some (n, d) else data_of s k) as Hdata.
  { intros k. unfold data_of. rewrite Hc. case_decide; [|done]. run_bind. change (datas s1) with (datas s). by rewrite Hd. }
  assert (peer_of_conn s k0 = None) as Hp0 by (unfold peer_of_conn, data_of; by rewrite Hc0).
  assert (∀ k, peer_of_conn s1 k = peer_of_conn s k) as Hpeer.
  { intros k. unfold peer_of_conn at 1. rewrite Hdata. case_decide; [|done]. subst. rewrite Hp0. run_bind. apply U. }
  assert (k0 ∉ handshaking s) as Hk0.
  { intros [_ (m & y & Hy & _)]%(wf_handshake _ _ W). unfold data_of in Hy. rewrite Hc0 in Hy. done. }
  assert (∀ m, m ∈ requested s1 ↔ m ≠ n ∧ m ∈ requested s) as Hr
    by (intros m; cbn [requested with_new_conn s1]; by rewrite list_elem_of_filter).
  split_and!; [split; try apply W|split_and!|].
  - intros k m. rewrite Hc. case_decide as E; [|intros Hm%(wf_conn _ _ W); cbn; lia].
    intros [= <-]. subst k. apply lookup_lt_Some in Hd. cbn. lia.
  - intros k1 k2 m. rewrite !Hc. repeat case_decide; subst; try done.
    + intros [= <-] E. by apply Hfree in E.
    + intros E [= <-]. by apply Hfree in E.
    + apply W.
  - intros id k. rewrite Hpeer. apply W.
  - intros k Hp. rewrite Hc. case_decide; [by eexists|]. by apply (wf_protocol _ _ W).
  - intros k id. rewrite Hpeer. apply W.
  - intros k m y id. rewrite Hdata. case_decide; [|by apply W]. intros [= <- <-]. destruct U as (_ & _ & ->). done.
  - intros k p id Hp Hf. rewrite Hpeer. by eapply (wf_bound _ _ W k).
  - intros m [Hne Hm]%Hr. destruct (wf_requested _ _ W m Hm) as [? Hf]. split; [done|]. intros k. rewrite Hc. case_decide; [congruence|done].
  - apply NoDup_filter, W.
  - intros k Hk. destruct (wf_handshake _ _ W k Hk) as [? (m & y & Hy & Uy)]. split; [done|]. exists m, y.
    rewrite Hdata. by rewrite decide_False by by intros ->.
  - done.
  - destruct (protocols s1 !! k0) as [p|] eqn:E; [|done]. destruct (wf_protocol _ _ W k0) as [m Hm]; [by exists p|congruence].
  - exists d. rewrite Hdata. by rewrite decide_True.
  - unfold waiting. rewrite (filter_take_out n (requested s)); [|apply W|done]. cbn. f_equiv. f_equiv.
    apply Permutation_refl', omap_ext_in. intros k Hk. rewrite Hc. rewrite decide_False; [done|]. by intros ->.
Qed.

(** The answer of the pool to a call of [open]. *)
Definition connects (n : nat) s s' (effs : list effect) : Prop :=
  ∀ ann, wf ann s → n ∈ requested s → ∃ ann' lost, wf ann' s' ∧ trace ann effs = Some ann' ∧
    opened effs ++ waiting s' ++ lost ≡ₚ waiting s ∧ (∀ n, n ∈ lost → Retry n ∈ effs) ∧
    length (datas s') = length (datas s).

Lemma opening_spec ann e s k n s' :
  wf ann s → ended s k n → start_opening_handshake e s k = Some s' →
  wf ann s' ∧ waiting s' ≡ₚ n :: waiting s ∧ length (datas s') = length (datas s).
Proof.
  intros W (Hk & Hp & d & Hd & U). unfold start_opening_handshake. rewrite Hd. run_bind.
  destruct (create_handshake_request (address d) (rnd e)) as [request key]. destruct (conns s !! k) as [c|]; [|done]. run_bind.
  destruct (evd_http_connection_write_request_headers c request) as [[[c' q] evs]|]; [|done]. run_bind. intros [= <-].
  set (d1 := with_key (Some key) d). set (s1 := with_data n d1 s).
  assert (wf ann s1) as W1.
  { apply (update_wf ann s k n d); [done..|]. destruct U as (_ & _ & U). cbn. by rewrite U. }
  assert (ended s1 k n) as E1.
  { split_and!; [done..|]. exists d1. split; [|done]. unfold s1.
    rewrite (data_of_update s k n d d1 k (wf_inj _ _ W) Hd). by rewrite decide_True. }
  destruct (started_spec ann s1 k n c' OnHandshakeSent evs W1 E1) as [W2 P2]. split_and!; [done|done|].
  assert (length (datas s1) = length (datas s)) as <- by apply length_insert. unfold started. by destruct evs as [|[]].
Qed.

Lemma on_connection_connects e s n conn s' effs :
  on_connection random written e s n conn = Some (s', effs) → connects n s s' effs.
Proof.
  intros E ann W Hn. unfold on_connection in E. destruct conn as [c|].
  - destruct (new_conn_spec ann s n c W Hn) as (W1 & End & P1). set (s1 := with_new_conn c n s) in *.
    set (k := next_conn s) in *. unfold io_stream_group_add in E. set (s2 := with_group _ _ s1) in E.
    assert (wf ann s2) as W2 by (eapply client_calm_wf; [done|apply with_group_calm]). assert (ended s2 k n) as End2 by exact End.
    assert (protocols s2 !! k = None) as Hp by apply End. rewrite Hp in E.
    destruct (start_opening_handshake e s2 k) as [s3|] eqn:E3; [|done]. injection E as <- <-.
    destruct (opening_spec ann e s2 k n s3 W2 End2 E3) as (W3 & P3 & L3).
    exists ann, []. split_and!; [done|done| |by intros ? ?%not_elem_of_nil|done].
    rewrite app_nil_r. cbn [opened omap list_omap app]. rewrite P3, P1. done.
  - injection E as <- <-. exists ann, [n]. split_and!; [|done| |intros m ->%list_elem_of_singleton; by left|done].
    + split; try apply W; [|by apply NoDup_filter, W]. intros m [_ Hm]%list_elem_of_filter. by apply (wf_requested _ _ W).
    + cbn [opened omap list_omap app]. unfold waiting. cbn [requested with_requested].
      set (r := filter _ (requested s)). assert (requested s ≡ₚ n :: r) as -> by (apply filter_take_out; [apply W|done]).
      change (handshaking (with_requested _ _ s)) with (handshaking s).
      change (conn_data (with_requested _ _ s)) with (conn_data s). solve_Permutation.
Qed.

(** New data, for a call of [open] that is answered at once or whose pool is asked for a connection. *)
Lemma with_requested_wf ann s d r :
  wf ann s → (r = requested s ∨ r = requested s ++ [length (datas s)] ∧ untouched d) →
  wf ann (with_requested (datas s ++ [d]) r s).
Proof.
  intros W Hr. set (s1 := with_requested _ r s).
  assert (∀ n x, datas s !! n = Some x → datas s1 !! n = Some x) as Hdatas by (intros n x Hx; by apply lookup_app_l_Some).
  assert (∀ k, data_of s1 k = data_of s k) as Hdata.
  { intros k. unfold data_of. change (conn_data s1) with (conn_data s). destruct (conn_data s !! k) as [n|] eqn:Hk; [|done].
    run_bind. apply (wf_conn _ _ W) in Hk as [Hn _]. destruct (lookup_lt_is_Some_2 _ _ Hn) as [x Hx].
    by rewrite (Hdatas _ _ Hx), Hx. }
  assert (∀ k, peer_of_conn s1 k = peer_of_conn s k) as Hpeer by (intros k; unfold peer_of_conn; by rewrite Hdata).
  assert (∀ k, conn_data s !! k ≠ Some (length (datas s))) as Hfree by (intros k Hk%(wf_conn _ _ W); lia).
  split; try apply W.
  - intros k n Hk%(wf_conn _ _ W). cbn [datas with_requested s1 next_conn]. rewrite length_app. lia.
  - intros id k. rewrite Hpeer. apply W.
  - intros k id. rewrite Hpeer. apply W.
  - intros k n x id. rewrite Hdata. apply W.
  - intros k p id Hp Hf. rewrite Hpeer. by eapply (wf_bound _ _ W k).
  - intros n Hn. assert (n ∈ requested s ∨ n = length (datas s) ∧ untouched d) as [Hn'|[-> U]].
    { change (requested s1) with r in Hn. destruct Hr as [->|[-> U]]; [by left|].
      apply elem_of_app in Hn as [?|?%list_elem_of_singleton]; auto. }
    + destruct (wf_requested _ _ W n Hn') as [(x & Hx & U) ?]. split; [|done]. exists x. split; [by apply Hdatas|done].
    + split; [|done]. exists d. split; [|done]. cbn [datas with_requested s1]. by rewrite lookup_app_r, Nat.sub_diag by lia.
  - change (requested s1) with r. destruct Hr as [->|[-> _]]; [apply W|]. apply NoDup_app. split_and!; [apply W| |apply NoDup_singleton].
    intros n Hn ->%list_elem_of_singleton. destruct (wf_requested _ _ W _ Hn) as [(x & Hx%lookup_lt_Some & _) _]. lia.
  - intros k Hk. destruct (wf_handshake _ _ W k Hk) as [? (n & x & ? & ?)]. split; [done|]. exists n, x. by rewrite Hdata.
Qed.

Lemma open_good s addr s' effs : transport_open s addr = (s', effs) → good [length (datas s)] s s' effs.
Proof.
  intros E ann W. unfold transport_open in E. set (n := length (datas s)) in *.
  assert (∀ d effs, opened effs = [n] → trace ann effs = Some ann →
    (s', effs) = (with_requested (datas s ++ [d]) (requested s) s, effs) → ∃ ann' lost, wf ann' s' ∧ trace ann effs = Some ann' ∧
    opened effs ++ waiting s' ++ lost ≡ₚ [n] ++ waiting s ∧ (∀ n, n ∈ lost → Retry n ∈ effs) ∧
    length (datas s') = (1 + n)%nat) as Hrefused.
  { intros d effs' O T [= ->]. exists ann, []. split_and!; [by apply with_requested_wf; auto|done| |by intros ? ?%not_elem_of_nil|].
    - rewrite O, app_nil_r. done.
    - cbn [datas with_requested]. rewrite length_app. cbn. lia. }
  destruct (soup_uri_new addr) as [u|]; [|injection E as <- <-; by eapply Hrefused].
  destruct (bool_decide _); injection E as <- <-; [|by eapply Hrefused].
  exists ann, []. split_and!; [apply with_requested_wf; [done|right; split; [done|by split_and!]]|done| |by intros ? ?%not_elem_of_nil|].
  - cbn [opened omap list_omap app]. rewrite app_nil_r. unfold waiting. cbn [requested with_requested].
    change (handshaking (with_requested _ _ s)) with (handshaking s).
    change (conn_data (with_requested _ _ s)) with (conn_data s). solve_Permutation.
  - cbn [datas with_requested]. rewrite length_app. cbn. lia.
Qed.

(** ** The main loop *)

Lemma write_done_good e s k n s' effs : write_done random written e s k n = Some (s', effs) → good [] s s' effs.
Proof.
  unfold write_done. destruct (conns s !! k) as [c|]; [|done]. run_bind.
  destruct (evd_http_connection_on_write_request_headers c n) as [c' evs]. intros E.
  eapply good_calm_l; [apply (with_conn_calm s k c')|by eapply conn_events_good].
Qed.

Lemma input_ready_good e s k a s' effs : input_ready random written e s k a = Some (s', effs) → good [] s s' effs.
Proof.
  unfold input_ready. destruct (conns s !! k) as [c|]; [|done]. run_bind.
  destruct (run_input c a) as [[c' evs]|]; [|done]. run_bind. intros E.
  eapply good_calm_l; [apply (with_conn_calm s k c')|by eapply conn_events_good].
Qed.

Lemma run_idle_good e s i s' effs : run_idle random written e s i = Some (s', effs) → good [] s s' effs.
Proof.
  unfold run_idle. destruct (idle s !! i) as [[[k cb] a]|] eqn:Hi; [|done]. run_bind. intros E.
  eapply under_way_good; [by eapply handshaking_run|done].
Qed.

Lemma hangup_good e s k s' effs : hangup random written e s k = Some (s', effs) → good [] s s' effs.
Proof.
  unfold hangup. destruct (conns s !! k) as [c|]; [|done]. run_bind. intros E.
  eapply good_calm_l; [apply with_conn_calm|by eapply io_close_good].
Qed.

(** ** Runs *)

(** What happens to a client: its methods are called, the pool answers, connections make progress. *)
Inductive operation :=
  | Open (address : list Z)
  | GotConnection (e : surroundings) (open : nat) (conn : option EvdHttpConnection)
  | WriteDone (e : surroundings) (k : nat) (n : option Z)
  | InputReady (e : surroundings) (k : nat) (a : BufferedInput.base_answer)
  | RunIdle (e : surroundings) (i : nat)
  | Read (e : surroundings) (k : nat) (r : WebSocket.read_outcome)
  | Flushed (e : surroundings) (k : nat)
  | CloseTimeout (e : surroundings) (k : nat)
  | Hangup (e : surroundings) (k : nat)
  | Leave (k : nat)
  | Accept (e : surroundings) (peer : string)
  | Reject (peer : string)
  | Send (peer : string) (buffer : list Z) (t : Peer.EvdMessageType)
  | Close (peer : string) (gracefully : bool).

Definition exec (o : operation) s : option (client * list effect) :=
  match o with
  | Open addr => Some (transport_open s addr)
  | GotConnection e n conn => if bool_decide (n ∈ requested s) then on_connection random written e s n conn else None
  | WriteDone e k n => write_done random written e s k n
  | InputReady e k a => input_ready random written e s k a
  | RunIdle e i => run_idle random written e s i
  | Read e k r => conn_read random written e s k r
  | Flushed e k => conn_flushed random written e s k
  | CloseTimeout e k => conn_timeout random written e s k
  | Hangup e k => hangup random written e s k
  | Leave k => '(s, effs, _) ← io_stream_group_remove random written s k; Some (s, effs)
  | Accept e id => '(s, effs, _) ← transport_accept_peer random written e s id; Some (s, effs)
  | Reject id => '(s, effs, _) ← transport_reject_peer random written s id; Some (s, effs)
  | Send id buffer t => '(s, effs, _) ← evd_websocket_client_send random written s id buffer t; Some (s, effs)
  | Close id gracefully => close_peer random written s id gracefully
  end.

Fixpoint run (ops : list operation) s : option (client * list effect) :=
  match ops with
  | [] => Some (s, [])
  | o :: ops => '(s, e1) ← exec o s; '(s, e2) ← run ops s; Some (s, e1 ++ e2)
  end.

(** The calls of [open], in order. *)
Definition opens (ops : list operation) : list (list Z) := omap (λ o, match o with Open addr => Some addr | _ => None end) ops.

(** What an operation does to the calls of [open]. *)
Definition step_good (o : operation) s s' (effs : list effect) : Prop :=
  good (match o with Open _ => [length (datas s)] | _ => [] end) s s' effs.

Lemma exec_good o s s' effs : exec o s = Some (s', effs) → step_good o s s' effs.
Proof.
  destruct o as [addr|e n conn| | | | | | | |k|e id|id|id buffer t|id g]; cbn [exec]; unfold step_good; intros E.
  - apply (inj Some) in E. by eapply open_good.
  - case_bool_decide as Hn; [|done]. intros ann W. by eapply on_connection_connects.
  - by eapply write_done_good.
  - by eapply input_ready_good.
  - by eapply run_idle_good.
  - by eapply conn_read_good.
  - by eapply conn_flushed_good.
  - by eapply conn_timeout_good.
  - by eapply hangup_good.
  - destruct (io_stream_group_remove _ _ s k) as [[[s1 e1] b]|] eqn:E1; [|done]. injection E as <- <-.
    apply client_remove_calm in E1 as [? ?]. by apply calm_good.
  - destruct (transport_accept_peer _ _ e s id) as [[[s1 e1] b]|] eqn:E1; [|done]. injection E as <- <-. by eapply accept_good.
  - destruct (transport_reject_peer _ _ s id) as [[[s1 e1] b]|] eqn:E1; [|done]. injection E as <- <-. by eapply reject_good.
  - destruct (evd_websocket_client_send _ _ s id buffer t) as [[[s1 e1] b]|] eqn:E1; [|done]. injection E as <- <-.
    apply send_calm in E1 as [? ?]. by apply calm_good.
  - apply client_close_peer_calm in E as [? ?]. by apply calm_good.
Qed.

Lemma client_run_good ops : ∀ s s' effs,
  run ops s = Some (s', effs) → good (seq (length (datas s)) (length (opens ops))) s s' effs.
Proof.
  induction ops as [|o ops IH]; intros s s' effs; cbn [run]; [intros [= <- <-]; apply good_refl|].
  destruct (exec o s) as [[s1 e1]|] eqn:E1; [|done]. run_bind.
  destruct (run ops s1) as [[s2 e2]|] eqn:E2; [|done]. run_bind. intros [= <- <-].
  apply exec_good in E1. apply IH in E2. intros ann W.
  assert (length (datas s1) = length (match o with Open _ => [length (datas s)] | _ => [] end) + length (datas s))%nat as L1
    by (destruct (E1 ann W) as (? & ? & _ & _ & _ & _ & L); exact L).
  rewrite L1 in E2. revert ann W. destruct o; apply (good_trans _ _ s s1 s2 _ _ E1 E2).
Qed.

Lemma client_init_wf w : wf ∅ (evd_websocket_client_init w).
Proof.
  assert (∀ k : nat, k ∉ handshaking (evd_websocket_client_init w)) as Hk.
  { intros k. unfold handshaking. cbn. rewrite map_to_list_empty. by intros ?%not_elem_of_nil. }
  assert (∀ k, data_of (evd_websocket_client_init w) k = None) as Hd by done.
  assert (∀ k, peer_of_conn (evd_websocket_client_init w) k = None) as Hp by done.
  split; try done; try apply NoDup_nil_2.
  - by intros k [].
  - by intros n ?%not_elem_of_nil.
  - by intros k ?%Hk.
Qed.

(** The peers announced, in order. *)
Definition announced (effs : list effect) : list string :=
  omap (λ e, match e with NewPeer id => Some id | _ => None end) effs.

Lemma trace_spec effs : ∀ ann ann', trace ann effs = Some ann' →
  NoDup (announced effs) ∧ (∀ id, id ∈ announced effs → id ∉ ann) ∧
  (∀ e1 id msg e2, effs = e1 ++ Receive id msg :: e2 → id ∈ ann ∨ id ∈ announced e1).
Proof.
  assert (∀ eff effs ann, trace ann (eff :: effs) = trace ann effs → announced (eff :: effs) = announced effs →
    (match eff with Receive id _ => id ∈ ann | _ => True end) →
    NoDup (announced effs) ∧ (∀ id, id ∈ announced effs → id ∉ ann) ∧
    (∀ e1 id msg e2, effs = e1 ++ Receive id msg :: e2 → id ∈ ann ∨ id ∈ announced e1) →
    NoDup (announced (eff :: effs)) ∧ (∀ id, id ∈ announced (eff :: effs) → id ∉ ann) ∧
    (∀ e1 id msg e2, eff :: effs = e1 ++ Receive id msg :: e2 → id ∈ ann ∨ id ∈ announced e1)) as Hskip.
  { intros eff effs' ann _ -> Hr (N & D & R). split_and!; [done..|]. intros [|x e1] id msg e2; [by intros [= -> _]; left|].
    intros [= <- E]. destruct (R _ _ _ _ E) as [?|Hi]; [by left|right]. cbn. destruct eff; try done. by right. }
  induction effs as [|eff effs IH]; intros ann ann' E.
  { split_and!; [apply NoDup_nil_2|by intros ? ?%not_elem_of_nil|]. intros [|? ?] ? ? ? [=]. }
  destruct eff; try (apply Hskip; [done..|]; by eapply IH).
  - cbn [trace] in E. case_decide as Hn; [done|]. destruct (IH _ _ E) as (N & D & R). cbn [announced omap list_omap].
    change (list_omap _ _ _ effs) with (announced effs). split_and!.
    + apply NoDup_cons. split; [|done]. intros Hi%D. set_solver.
    + intros id [->|Hi]%elem_of_cons; [done|]. apply D in Hi. set_solver.
    + intros [|x e1] id msg e2; [done|]. intros [= <- E2]. destruct (R _ _ _ _ E2) as [Hi|Hi]; [|right; by right].
      apply elem_of_union in Hi as [->%elem_of_singleton|Hi]; [right; by left|by left].
  - cbn [trace] in E. case_decide as Hn; [|done]. apply Hskip; [cbn; by rewrite decide_True|done..|]. by eapply IH.
Qed.

(** C33. Whatever happens to the connections, each call of the client's [open] gets at most one answer,
    through its callback or its error, and what has none yet is still waiting for the pool or for the
    handshake of its connection, unless it was left to the retry that the program does not do. *)
Theorem opens_answered_once w ops s' effs :
  run ops (evd_websocket_client_init w) = Some (s', effs) →
  ∃ lost, opened effs ++ waiting s' ++ lost ≡ₚ seq 0 (length (opens ops)) ∧ ∀ n, n ∈ lost → Retry n ∈ effs.
Proof.
  intros E. destruct (client_run_good _ _ _ _ E ∅ (client_init_wf w)) as (ann & lost & _ & _ & P & R & _).
  exists lost. split; [|done]. rewrite P. unfold waiting, handshaking. cbn. rewrite map_to_list_empty. by rewrite app_nil_r.
Qed.

(** Over every run of the client a peer is announced at most once, a message is received only from
    a peer that was announced before, and the peer of a connection and the connection of a peer are
    inverse of each other. *)
Example peers_announced_once w ops s' effs :
  run ops (evd_websocket_client_init w) = Some (s', effs) →
  NoDup (announced effs) ∧
  (∀ e1 id msg e2, effs = e1 ++ Receive id msg :: e2 → id ∈ announced e1) ∧
  (∀ id k, peer_data s' !! id = Some k ↔ peer_of_conn s' k = Some id).
Proof.
  intros E. destruct (client_run_good _ _ _ _ E ∅ (client_init_wf w)) as (ann & lost & W & T & _).
  destruct (trace_spec _ _ _ T) as (N & _ & R). split_and!; [done| |apply W].
  intros e1 id msg e2 He. destruct (R _ _ _ _ He) as [Hi|]; [|done]. by apply not_elem_of_empty in Hi.
Qed.

End Client.

(** ** A concrete client *)

#[local] Existing Instance WebServiceSpec.demo_regex.
#[local] Existing Instance WebsocketServerSpec.demo_digest.

(** Its server answers 101 with the key it expects, or refuses. *)
#[local] Instance client_soup : Soup := {|
  SoupMessageHeaders := table;
  soup_message_headers_new := mkTable [] SOUP_ENCODING_EOF 0;
  soup_message_headers_get_one := table_get;
  soup_message_headers_replace := table_replace;
  soup_message_headers_iter := entries;
  soup_message_headers_get_encoding := table_encoding;
  soup_message_headers_get_content_length := table_length;
  soup_message_headers_set_content_length t n := mkTable (entries t) SOUP_ENCODING_CONTENT_LENGTH n;
  SoupURI := demo_uri;
  soup_uri_new s :=
    if bool_decide (take 3 s = codes "ws:") then Some (mkUri (codes "ws") (codes "h") 80 (codes "/") None)
    else if bool_decide (take 3 s = codes "ftp") then Some (mkUri (codes "ftp") (codes "h") 21 (codes "/") None) else None;
  soup_uri_to_string u _ := d_path u;
  uri_scheme := d_scheme;
  uri_host := d_host;
  uri_port := d_port;
  uri_path := d_path;
  uri_query := d_query;
  soup_headers_parse_request _ := (400, (mkTable [] SOUP_ENCODING_EOF 0, None, [], 1));
  soup_headers_parse_response s :=
    Some (mkTable [(codes "Sec-WebSocket-Accept", codes "258EAFA5-E914-47DA-95CA-C5AB0DC85B11")] SOUP_ENCODING_EOF 0,
          1, if bool_decide (take 12 s = codes "HTTP/1.1 101") then 101 else 403, s);
  soup_status_get_phrase _ := codes "OK";
  g_base64_encode s := s;
  g_base64_decode s := s
|}.

Definition demo_conn : EvdHttpConnection :=
  evd_http_connection_init false (BufferedInput.evd_buffered_input_stream_init 4096) [].

Definition demo_client : client := evd_websocket_client_init (Peer.mkWorld ∅ (Peer.evd_peer_manager_init 0) [] 1).

Abbreviation demo_run := (run (λ _ _, 7) (λ _ _, 1)).

Definition around (id : string) (verdict : list Z) : surroundings := mkSurroundings 0 [] id (λ _, verdict) [].
Definition accepting : surroundings := around "p" [0].
Definition switching : list Z := codes "HTTP/1.1 101 S" ++ [13; 10; 13; 10].
Definition refusing : list Z := codes "HTTP/1.1 403 F" ++ [13; 10; 13; 10].
Definition demo_frame : list Z := [130; 2; 104; 105].

Definition handshake (e : surroundings) (n k : nat) (response : list Z) : list operation :=
  [Open (codes "ws://h/"); GotConnection e n (Some demo_conn); WriteDone e k (Some 100); InputReady e k (BufferedInput.Got response)].


(** Three servers: one whose peer is accepted and sends a message, one that refuses the handshake, one
    that is not reached; and an address that is not one of a web socket. *)
Definition demo_operations : list operation :=
  handshake accepting 0 0 switching ++ [Read accepting 0 (WebSocket.ReadBytes demo_frame)] ++
  handshake (around "q" [0]) 1 1 refusing ++
  [Open (codes "ws://g/"); GotConnection accepting 2 None; Open (codes "ftp://h/"); Close "p" true].

Definition demo_end (ops : list operation) : client * list effect := default (demo_client, []) (demo_run ops demo_client).

Definition survives (ops : list operation) : bool := match demo_run ops demo_client with Some _ => true | None => false end.

Lemma client_survives_run ops : survives ops = true → demo_run ops demo_client = Some ((demo_end ops).1, (demo_end ops).2).
Proof. unfold survives, demo_end. by destruct (demo_run ops demo_client) as [[]|]. Qed.

Lemma client_demo_operations_run : survives demo_operations = true.
Proof. vm_compute. reflexivity. Qed.

Definition demo_peers : Peer.world := Peer.mkWorld ∅ (Peer.evd_peer_manager_init 0) [] 1.

Lemma opens_answered_once_witness :
  ∃ lost, opened (demo_end demo_operations).2 ++ waiting (demo_end demo_operations).1 ++ lost ≡ₚ
    seq 0 (length (opens demo_operations)) ∧ ∀ n, n ∈ lost → Retry n ∈ (demo_end demo_operations).2.
Proof.
  exact (opens_answered_once (λ _ _, 7) (λ _ _, 1) demo_peers demo_operations (demo_end demo_operations).1
           (demo_end demo_operations).2 (client_survives_run _ client_demo_operations_run)).
Defined.

Lemma peers_announced_once_witness : NoDup (announced (demo_end demo_operations).2).
Proof.
  exact (proj1 (peers_announced_once (λ _ _, 7) (λ _ _, 1) demo_peers demo_operations (demo_end demo_operations).1
           (demo_end demo_operations).2 (client_survives_run _ client_demo_operations_run))).
Defined.

Example client_demo_answers : opened (demo_end demo_operations).2 = [0; 1; 3]%nat ∧ announced (demo_end demo_operations).2 = ["p"].
Proof. split; vm_compute; reflexivity. Qed.

(** ** Defects *)

(** A server that is not reached, and a request that cannot be written, leave [open] unanswered: there
    is only a note that it should be retried. *)
Example unreached_open_lost :
  let ops := [Open (codes "ws://h/"); GotConnection accepting 0 None] in
  opened (demo_end ops).2 = [] ∧ waiting (demo_end ops).1 = [] ∧ survives ops = true.
Proof. split_and!; vm_compute; reflexivity. Qed.

Example unwritten_open_lost :
  let ops := [Open (codes "ws://h/"); GotConnection accepting 0 (Some demo_conn); WriteDone accepting 0 None] in
  opened (demo_end ops).2 = [] ∧ waiting (demo_end ops).1 = [] ∧ survives ops = true.
Proof. split_and!; vm_compute; reflexivity. Qed.

(** A message that arrives after the peer was closed, before the server answered, ends the program. *)
Example late_message_ends_program :
  let ops := handshake accepting 0 0 switching ++ [Close "p" true] in
  survives ops = true ∧ survives (ops ++ [Read accepting 0 (WebSocket.ReadBytes demo_frame)]) = false.
Proof. split; vm_compute; reflexivity. Qed.

(** A refused handshake leaves its connection open and in the group. *)
Example refused_connection_kept :
  let s := (demo_end (handshake accepting 0 0 refusing)).1 in
  bool_decide (0%nat ∈ group s) = true ∧ closed <$> conns s !! 0%nat = Some false.
Proof. split; vm_compute; reflexivity. Qed.

(** The call of [open] whose peer is rejected succeeds. *)
Example rejected_open_succeeds :
  let effs := (demo_end (handshake (around "p" [1]) 0 0 switching)).2 in
  existsb (λ e, match e with Opened 0 None _ => true | _ => false end) effs = true ∧ announced effs = [].
Proof. split; vm_compute; reflexivity. Qed.

End WebsocketClientSpec.
