(* ===== verification/JsonrpcHttp.v ===== *)
(** * JSON-RPC over HTTP (src/evd/evd-jsonrpc-http-client.c, evd-jsonrpc-http-server.c): model

    The client makes one HTTP request for each call of a method, over the connections of the pool it
    is, and gives its JSON-RPC endpoint what the responses bring; the server gives its endpoint what
    the requests bring, and answers a request when the call it made is answered.  The endpoints are
    those of Jsonrpc.v, the connections those of HttpConnection.v and the responses those of
    WebService.v.  The answers of the pool, of the network and of the main loop are operations;
    references on connections are not counted.  A call that fails completes in idle in the code, and at
    once here: its exchange has ended, and nothing of it is used in between.  [None] stands for a failed assertion, a NULL pointer
    that is read, or data that were freed. *)
From S2P Require Import Prelude HttpMessage BufferedInput HttpConnection WebService Jsonrpc.
Import HttpMessage HttpConnection Jsonrpc.

Module JsonrpcHttp.

Definition SOUP_STATUS_OK : Z := 200.
Definition SOUP_STATUS_INTERNAL_SERVER_ERROR : Z := 500.

(** The send callback of the endpoints, [jsonrpc_on_send], and that of the server for methods. *)
Definition send_callback : nat := 0.
Definition method_callback : nat := 1.

Section Client.
Context `{Soup} `{JsonGlib}.

(** What ends an operation of a connection, with the callback it was given. *)
Definition ending (evs : list HttpConnection.event) : option async :=
  match evs with HttpConnection.Completed a _ :: _ => Some a | _ => None end.

(** ** The client *)

(** Its number is that of the call, of its result and of its context; the data go with the result
    once the call has completed. *)
Record CallData := mkData { buf : option (list Z); invocation_id : Z }.

Inductive callback := OnRequestSent | OnResponseHeaders | OnContentRead.

Record client := mkClient {
  rpc : EvdJsonrpcPrivate;
  http_request : EvdHttpRequest;
  calls : gmap nat CallData;
  next_call : nat;
  requested : list nat;                              (* the calls the pool is asked a connection for *)
  conns : gmap nat EvdHttpConnection;
  locked : gset nat;                                 (* the connections whose close is locked *)
  awaiting : gmap nat (callback * nat);              (* the operation under way on a connection *)
  idle : list (nat * callback * nat * async);        (* operations that completed in idle *)
  recycled : list nat;                               (* connections given back to the pool *)
  next_conn : nat
}.

Inductive effect :=
  | CallCompleted (call : nat) (how : completion)
  | GetConnection (call : nat)
  | Content (call : nat) (content : list Z).

Definition with_rpc r s := mkClient r (http_request s) (calls s) (next_call s) (requested s) (conns s) (locked s) (awaiting s) (idle s) (recycled s) (next_conn s).
Definition with_http_request q s := mkClient (rpc s) q (calls s) (next_call s) (requested s) (conns s) (locked s) (awaiting s) (idle s) (recycled s) (next_conn s).
Definition with_calls m n s := mkClient (rpc s) (http_request s) m n (requested s) (conns s) (locked s) (awaiting s) (idle s) (recycled s) (next_conn s).
Definition with_requested r s := mkClient (rpc s) (http_request s) (calls s) (next_call s) r (conns s) (locked s) (awaiting s) (idle s) (recycled s) (next_conn s).
Definition with_conn k c s := mkClient (rpc s) (http_request s) (calls s) (next_call s) (requested s) (<[k := c]> (conns s)) (locked s) (awaiting s) (idle s) (recycled s) (next_conn s).
Definition with_locked l s := mkClient (rpc s) (http_request s) (calls s) (next_call s) (requested s) (conns s) l (awaiting s) (idle s) (recycled s) (next_conn s).
Definition with_awaiting m i s := mkClient (rpc s) (http_request s) (calls s) (next_call s) (requested s) (conns s) (locked s) m i (recycled s) (next_conn s).
Definition with_recycled l s := mkClient (rpc s) (http_request s) (calls s) (next_call s) (requested s) (conns s) (locked s) (awaiting s) (idle s) l (next_conn s).

(** The address of the pool goes with the client; [None] for a URL that is not one. *)
Definition evd_jsonrpc_http_client_new (url : list Z) : option (client * list Z) :=
  r ← evd_jsonrpc_init;
  let r := evd_jsonrpc_transport_set_send_callback r (Some send_callback) in
  let request := evd_http_request_new (codes "POST") url in
  u ← uri request;
  Some (mkClient r request ∅ 0 [] ∅ ∅ ∅ [] [] 0, uri_host u ++ codes ":" ++ print_d (u32 (uri_port u))).

Definition evd_jsonrpc_http_client_get_http_request s : EvdHttpRequest := http_request s.

Definition jsonrpc_on_send s (message : list Z) (n : nat) (id : Z) : option (client * list effect) :=
  d ← calls s !! n;
  Some (with_requested (requested s ++ [n]) (with_calls (<[n := mkData (Some (c_string message)) id]> (calls s)) (next_call s) s),
        [GetConnection n]).

(** The result and its data are freed. *)
Definition jsonrpc_on_method_call_result s (n : nat) (how : completion) : client * list effect :=
  (with_calls (delete n (calls s)) (next_call s) s, [CallCompleted n how]).

(** The calls the endpoint makes. *)
Fixpoint rpc_effects s (effs : list Jsonrpc.effect) : option (client * list effect) :=
  match effs with
  | [] => Some (s, [])
  | SendCb _ message ctx id :: effs =>
      match ctx with
      | Some (Other n) =>
          '(s, e1) ← jsonrpc_on_send s message n id; '(s, e2) ← rpc_effects s effs; Some (s, e1 ++ e2)
      | _ => None
      end
  | CallDone n how :: effs =>
      let '(s, e1) := jsonrpc_on_method_call_result s n how in
      '(s, e2) ← rpc_effects s effs; Some (s, e1 ++ e2)
  | _ :: effs => rpc_effects s effs
  end.

Definition evd_jsonrpc_http_client_call_method s (method : string) (params : option JsonNode)
  : option (client * list effect) :=
  let n := next_call s in
  let s := with_calls (<[n := mkData None 0]> (calls s)) (S n) s in
  let '(r, effs) := evd_jsonrpc_call_method (rpc s) method params (Some (Other n)) n true in
  rpc_effects (with_rpc r s) effs.

Definition transport_error s (n : nat) : option (client * list effect) :=
  d ← calls s !! n;
  let '(r, effs) := evd_jsonrpc_transport_error (rpc s) (invocation_id d) in
  rpc_effects (with_rpc r s) effs.

(** An operation of the connection was started for a call: it is under way, or ends in idle. *)
Definition started s (k : nat) (c : EvdHttpConnection) (cb : callback) (n : nat) (evs : list HttpConnection.event) : client :=
  let s := with_conn k c s in
  match ending evs with
  | Some a => with_awaiting (awaiting s) (idle s ++ [(k, cb, n, a)]) s
  | None => with_awaiting (<[k := (cb, n)]> (awaiting s)) (idle s) s
  end.

Definition do_request s (k n : nat) : option client :=
  d ← calls s !! n;
  b ← buf d;
  c ← conns s !! k;
  let '(request, h) := evd_http_message_get_headers (http_request s) in
  let request := set_headers (soup_message_headers_set_content_length h (len b)) request in
  '(c, request, evs) ← evd_http_connection_write_request_headers c request;
  Some (started (with_locked ({[k]} ∪ locked s) (with_http_request request s)) k c OnRequestSent n evs).

(** A connection of the pool, a new one or one that was given back. *)
Definition take_conn s (conn : EvdHttpConnection + nat) : client * nat :=
  match conn with
  | inl c =>
      let k := next_conn s in
      (mkClient (rpc s) (http_request s) (calls s) (next_call s) (requested s) (<[k := c]> (conns s)) (locked s)
         (awaiting s) (idle s) (recycled s) (S k), k)
  | inr k => (with_recycled (filter (.≠ k) (recycled s)) s, k)
  end.

Definition on_connection s (n : nat) (conn : option (EvdHttpConnection + nat)) : option (client * list effect) :=
  let s := with_requested (filter (.≠ n) (requested s)) s in
  match conn with
  | None => transport_error s n
  | Some conn => let '(s, k) := take_conn s conn in s ← do_request s k n; Some (s, [])
  end.

Definition on_request_sent s (k n : nat) (a : async) : option (client * list effect) :=
  d ← calls s !! n;
  if evd_http_connection_write_request_headers_finish a then
    c ← conns s !! k;
    b ← buf d;
    match evd_http_connection_write_content c b false with
    | (c, inr _) => transport_error (with_conn k c s) n
    | (c, inl _) =>
        let '(c, evs) := evd_http_connection_read_response_headers c in
        Some (started s k c OnResponseHeaders n evs, [])
    end
  else transport_error s n.

Definition evd_connection_unlock_close s (k : nat) : client := with_locked (locked s ∖ {[k]}) s.

Definition on_response_headers s (k n : nat) (a : async) : option (client * list effect) :=
  _ ← calls s !! n;
  '(s, effs) ←
    match evd_http_connection_read_response_headers_finish a with
    | None => transport_error s n
    | Some (_, _, status_code, _) =>
        if status_code =? SOUP_STATUS_OK then
          c ← conns s !! k;
          let '(c, evs) := evd_http_connection_read_all_content c in
          Some (started s k c OnContentRead n evs, [])
        else transport_error s n
    end;
  Some (evd_connection_unlock_close s k, effs).

(** [room] is whether the pool has room for the connection. *)
Definition evd_connection_pool_recycle (room : bool) s (k : nat) (c : EvdHttpConnection) : client :=
  if negb (closed c) && room then with_recycled (recycled s ++ [k]) s else s.

Definition on_content_read (room : bool) s (k n : nat) (a : async) : option (client * list effect) :=
  d ← calls s !! n;
  c ← conns s !! k;
  let '(c, content) := evd_http_connection_read_all_content_finish c a in
  let s := with_conn k c s in
  let s := if evd_http_connection_get_keepalive c then evd_connection_pool_recycle room s k c else s in
  match content with
  | None => transport_error s n
  | Some (content, _) =>
      '(r, effs, _) ← evd_jsonrpc_transport_receive (rpc s) content (Some (Other n)) (invocation_id d);
      '(s, e) ← rpc_effects (with_rpc r s) effs;
      Some (s, Content n content :: e)
  end.

Definition run_callback (room : bool) s (k : nat) (cb : callback) (n : nat) (a : async) : option (client * list effect) :=
  match cb with
  | OnRequestSent => on_request_sent s k n a
  | OnResponseHeaders => on_response_headers s k n a
  | OnContentRead => on_content_read room s k n a
  end.

(** What the connection tells: the operation under way has ended. *)
Definition conn_events (room : bool) s (k : nat) (evs : list HttpConnection.event) : option (client * list effect) :=
  match ending evs with
  | None => Some (s, [])
  | Some a =>
      match awaiting s !! k with
      | None => Some (s, [])
      | Some (cb, n) => run_callback room (with_awaiting (delete k (awaiting s)) (idle s) s) k cb n a
      end
  end.

(** The write of the headers of a request ended. *)
Definition write_done (room : bool) s (k : nat) (n : option Z) : option (client * list effect) :=
  c ← conns s !! k;
  let '(c, evs) := evd_http_connection_on_write_request_headers c n in conn_events room (with_conn k c s) k evs.

(** The input of the connection got an answer. *)
Definition input_ready (room : bool) s (k : nat) (a : BufferedInput.base_answer) : option (client * list effect) :=
  c ← conns s !! k;
  '(c, evs) ← run_input c a; conn_events room (with_conn k c s) k evs.

(** The server hangs up. *)
Definition hangup (room : bool) s (k : nat) : option (client * list effect) :=
  c ← conns s !! k;
  '(c, evs) ← g_io_stream_close (g_io_stream_clear_pending c); conn_events room (with_conn k c s) k evs.

Definition run_idle (room : bool) s (i : nat) : option (client * list effect) :=
  '(k, cb, n, a) ← idle s !! i;
  run_callback room (with_awaiting (awaiting s) (delete i (idle s)) s) k cb n a.

End Client.

Section Server.
Context `{Soup} `{WebService.Regex} `{JsonGlib}.

(** ** The server *)

(** [has_callback] is whether the user gave a callback for methods; the response headers are kept from
    one response to the next. *)
Record server := mkServer {
  s_rpc : EvdJsonrpcPrivate;
  web : WebService.EvdWebServicePrivate;
  has_callback : bool;
  response_headers : SoupMessageHeaders;
  s_conns : gmap nat EvdHttpConnection;
  s_awaiting : gset nat;                             (* the connections whose content is read *)
  s_idle : list (nat * async);
  returning : list nat                               (* flushed, then given back *)
}.

Inductive server_effect :=
  | MethodCallCb (name : string) (params : JsonNode) (id : Z) (conn : nat)
  | Answered (conn : nat) (status_code : Z) (content : list Z).

Definition with_s_rpc r s := mkServer r (web s) (has_callback s) (response_headers s) (s_conns s) (s_awaiting s) (s_idle s) (returning s).
Definition with_callback b s := mkServer (s_rpc s) (web s) b (response_headers s) (s_conns s) (s_awaiting s) (s_idle s) (returning s).
Definition with_response_headers h s := mkServer (s_rpc s) (web s) (has_callback s) h (s_conns s) (s_awaiting s) (s_idle s) (returning s).
Definition with_s_conn k c s := mkServer (s_rpc s) (web s) (has_callback s) (response_headers s) (<[k := c]> (s_conns s)) (s_awaiting s) (s_idle s) (returning s).
Definition with_s_awaiting m i s := mkServer (s_rpc s) (web s) (has_callback s) (response_headers s) (s_conns s) m i (returning s).
Definition with_returning l s := mkServer (s_rpc s) (web s) (has_callback s) (response_headers s) (s_conns s) (s_awaiting s) (s_idle s) l.

Definition evd_jsonrpc_http_server_init : option server :=
  r ← evd_jsonrpc_init;
  let r := evd_jsonrpc_set_callbacks r (Some method_callback) None in
  let r := evd_jsonrpc_transport_set_send_callback r (Some send_callback) in
  let h := soup_message_headers_replace soup_message_headers_new (codes "Content-type") (codes "application/json; charset=utf-8") in
  let h := soup_message_headers_replace h (codes "Pragma") (codes "no-cache") in
  let h := soup_message_headers_replace h (codes "Cache-Control") (codes "no-cache, private, no-store") in
  Some (mkServer r WebService.evd_web_service_init false h ∅ ∅ [] []).

Definition evd_jsonrpc_http_server_get_response_headers s : SoupMessageHeaders := response_headers s.
Definition evd_jsonrpc_http_server_set_method_call_callback s (callback : bool) : server := with_callback callback s.

(** [evd_web_service_respond] *)
Definition respond s (k : nat) (status_code : Z) (content : list Z) : option (server * list server_effect * bool) :=
  c ← s_conns s !! k;
  '(w, ok) ← WebService.evd_web_service_respond_internal (web s)
               (WebService.mkWorld ∅ c None None false None None []) status_code (Some (response_headers s)) (Some content)
               (len content);
  let s := with_s_conn k (WebService.conn w) s in
  Some (if ok : bool then with_returning (returning s ++ [k]) s else s, [Answered k status_code content], ok).

(** [dates] are the texts of a day before now and of now. *)
Definition server_on_send (dates : list Z * list Z) s (message : list Z) (k : nat) (id : Z)
  : option (server * list server_effect) :=
  let h := soup_message_headers_replace (response_headers s) (codes "Expires") dates.1 in
  let h := soup_message_headers_replace h (codes "Date") dates.2 in
  '(s, effs, ok) ← respond (with_response_headers h s) k SOUP_STATUS_OK (c_string message);
  if ok : bool then Some (s, effs) else Some (with_s_rpc (evd_jsonrpc_transport_error (s_rpc s) id).1 s, effs).

Definition no_handler : list Z := codes "No handler for method calls".

Definition jsonrpc_on_method_call s (name : string) (params : JsonNode) (id : Z) (k : nat)
  : option (server * list server_effect) :=
  if has_callback s then Some (s, [MethodCallCb name params id k])
  else '(s, effs, _) ← respond s k SOUP_STATUS_INTERNAL_SERVER_ERROR no_handler; Some (s, effs).

(** What the endpoint does; the context of an invocation is its connection. *)
Definition server_effect_of (dates : list Z * list Z) s (eff : Jsonrpc.effect) : option (server * list server_effect) :=
  match eff with
  | SendCb _ message (Some (Other k)) id => server_on_send dates s message k id
  | MethodCall _ name params id (Some (Other k)) => jsonrpc_on_method_call s name params id k
  | SendCb _ _ _ _ | MethodCall _ _ _ _ _ => None
  | _ => Some (s, [])
  end.

Fixpoint server_effects (dates : list Z * list Z) s (effs : list Jsonrpc.effect) : option (server * list server_effect) :=
  match effs with
  | [] => Some (s, [])
  | eff :: effs =>
      '(s, e1) ← server_effect_of dates s eff;
      '(s, e2) ← server_effects dates s effs;
      Some (s, e1 ++ e2)
  end.

(** [err] is the text of the error of a content that is not JSON. *)
Definition server_on_content_read (dates : list Z * list Z) (err : list Z) s (k : nat) (a : async)
  : option (server * list server_effect) :=
  c ← s_conns s !! k;
  let '(c, content) := evd_http_connection_read_all_content_finish c a in
  let s := with_s_conn k c s in
  match content with
  | None => Some (s, [])
  | Some (content, _) =>
      '(r, effs, ok) ← evd_jsonrpc_transport_receive (s_rpc s) content (Some (Other k)) 0;
      '(s, e1) ← server_effects dates (with_s_rpc r s) effs;
      if ok : bool then Some (s, e1)
      else '(s, e2, _) ← respond s k SOUP_STATUS_INTERNAL_SERVER_ERROR err; Some (s, e1 ++ e2)
  end.

Definition must_be_post : list Z := codes "Method must be POST".

(** The request handler of the web service. *)
Definition on_request_headers s (k : nat) (request : EvdHttpRequest) : option (server * list server_effect) :=
  if bool_decide (method request = codes "POST") then
    c ← s_conns s !! k;
    let '(c, evs) := evd_http_connection_read_all_content c in
    let s := with_s_conn k c s in
    Some (match ending evs with
          | Some a => with_s_awaiting (s_awaiting s) (s_idle s ++ [(k, a)]) s
          | None => with_s_awaiting ({[k]} ∪ s_awaiting s) (s_idle s) s
          end, [])
  else '(s, effs, _) ← respond s k SOUP_STATUS_INTERNAL_SERVER_ERROR must_be_post; Some (s, effs).

(** The input of the connection got an answer. *)
Definition server_input_ready (dates : list Z * list Z) (err : list Z) s (k : nat) (a : BufferedInput.base_answer)
  : option (server * list server_effect) :=
  c ← s_conns s !! k;
  '(c, evs) ← run_input c a;
  let s := with_s_conn k c s in
  match ending evs with
  | None => Some (s, [])
  | Some a =>
      if decide (k ∈ s_awaiting s) then
        server_on_content_read dates err (with_s_awaiting (s_awaiting s ∖ {[k]}) (s_idle s) s) k a
      else Some (s, [])
  end.

Definition server_run_idle (dates : list Z * list Z) (err : list Z) s (i : nat) : option (server * list server_effect) :=
  '(k, a) ← s_idle s !! i;
  server_on_content_read dates err (with_s_awaiting (s_awaiting s) (delete i (s_idle s)) s) k a.

Definition server_answer (dates : list Z * list Z) s
    (r : EvdJsonrpcPrivate * list Jsonrpc.effect * (bool * option GIOError)) : option (server * list server_effect * bool) :=
  let '(r, effs, (ok, _)) := r in
  '(s, e) ← server_effects dates (with_s_rpc r s) effs; Some (s, e, ok).

Definition evd_jsonrpc_http_server_respond (dates : list Z * list Z) s (id : Z) (result : JsonNode) :=
  server_answer dates s (evd_jsonrpc_respond (s_rpc s) id (Some result) true).

Definition evd_jsonrpc_http_server_respond_error (dates : list Z * list Z) s (id : Z) (json_error : JsonNode) :=
  server_answer dates s (evd_jsonrpc_respond_error (s_rpc s) id (Some json_error) true).

End Server.

End JsonrpcHttp.
