(* ===== verification/JsonrpcHttpSpec.v ===== *)
(** * JSON-RPC over HTTP: theorems

    Every call made through the HTTP client is completed at most once, and one that is not completed
    waits for the pool or for an HTTP exchange, or got a response that does not answer it; the server
    answers each call at most once, on the connection it came from; and a call goes through both and
    back.  The identifiers of invocations are 32-bit numbers: the theorems on runs are about those that
    use fewer, counting one for each call and each byte received. *)
From stdpp Require Import pretty.
From S2P Require Import Prelude JsonFilter JsonFilterSpec JsonGrammar Jsonrpc JsonrpcSpec.
From S2P Require Import HttpMessage BufferedInput HttpConnection WebService WebServiceSpec JsonrpcHttp.
Import HttpMessage HttpConnection Jsonrpc JsonrpcSpec JsonrpcHttp.

Module JsonrpcHttpSpec.

Definition ID_RANGE : Z := 2 ^ 32.

(** ** What an endpoint does with its invocations *)

Section Endpoint.
Context `{JsonGlib}.
Implicit Types r : EvdJsonrpcPrivate.

(** The calls that wait for an answer. *)
Definition pending_of (m : gmap string InvocationData) : list nat := omap (λ kd, result kd.2) (map_to_list m).
Abbreviation pending r := (pending_of (invocations r)).

Lemma pending_insert m k d : m !! k = None → pending_of (<[k := d]> m) ≡ₚ option_list (result d) ++ pending_of m.
Proof.
  intros Hk. unfold pending_of. rewrite map_to_list_insert by done. cbn. by destruct (result d).
Qed.

Lemma pending_delete m k d : m !! k = Some d → pending_of m ≡ₚ option_list (result d) ++ pending_of (delete k m).
Proof.
  intros Hk. rewrite <-pending_insert by apply lookup_delete_eq. by rewrite insert_delete_id.
Qed.

Lemma elem_of_pending m n : n ∈ pending_of m ↔ ∃ k d, m !! k = Some d ∧ result d = Some n.
Proof.
  unfold pending_of. rewrite list_elem_of_omap. split.
  - intros ([k d] & Hk%elem_of_map_to_list & Hd). by exists k, d.
  - intros (k & d & Hk & Hd). exists (k, d). split; [by apply elem_of_map_to_list|done].
Qed.

(** The keys of the table are the numbers given so far. *)
Definition keyed r : Prop :=
  0 <= invocation_counter r ∧
  ∀ k d, invocations r !! k = Some d → ∃ i, k = id_string i ∧ 1 <= i <= invocation_counter r.

Lemma id_string_inj i j : 0 <= i → 0 <= j → id_string i = id_string j → i = j.
Proof. unfold id_string. intros Hi Hj E%(inj pretty). lia. Qed.

Lemma keyed_fresh r i : keyed r → invocation_counter r < i → invocations r !! id_string i = None.
Proof.
  intros [H0 Hk] Hi. destruct (invocations r !! id_string i) as [d|] eqn:E; [|done].
  destruct (Hk _ _ E) as (j & Hj & ?). apply id_string_inj in Hj; lia.
Qed.

(** An operation that spends at most [b] numbers: the calls it completes and those that wait are those
    that waited and the [new] ones, and what waits has the entry it had. *)
Definition spends (b : Z) (new : list nat) r r' (effs : list Jsonrpc.effect) : Prop :=
  keyed r → invocation_counter r + b < ID_RANGE →
  keyed r' ∧ invocation_counter r <= invocation_counter r' <= invocation_counter r + b ∧
  send_cb r' = send_cb r ∧ method_call_cb r' = method_call_cb r ∧
  completions effs ++ pending r' ≡ₚ new ++ pending r ∧
  (∀ k d n, invocations r' !! k = Some d → result d = Some n → n ∈ new ∨ invocations r !! k = Some d).

Lemma spends_trans b1 b2 n1 n2 r1 r2 r3 e1 e2 :
  0 <= b2 → spends b1 n1 r1 r2 e1 → spends b2 n2 r2 r3 e2 → spends (b1 + b2) (n1 ++ n2) r1 r3 (e1 ++ e2).
Proof.
  intros Hb S1 S2 K Hc. destruct S1 as (K1 & C1 & A1 & M1 & P1 & E1); [done|lia|].
  destruct S2 as (K2 & C2 & A2 & M2 & P2 & E2); [done|lia|]. split_and!; [done|lia|lia|congruence|congruence| |].
  - rewrite completions_app. transitivity (completions e1 ++ n2 ++ pending r2); [rewrite <-P2; solve_Permutation|].
    transitivity (n2 ++ (completions e1 ++ pending r2)); [solve_Permutation|]. rewrite P1. solve_Permutation.
  - intros k d n Hk Hn. destruct (E2 _ _ _ Hk Hn) as [?|Hk2]; [left; apply elem_of_app; by right|].
    destruct (E1 _ _ _ Hk2 Hn) as [?|?]; [left; apply elem_of_app; by left|by right].
Qed.

(** An operation that leaves the table and the counter alone. *)
Lemma spends_nothing r r' effs :
  completions effs = [] → invocations r' = invocations r → invocation_counter r' = invocation_counter r →
  send_cb r' = send_cb r → method_call_cb r' = method_call_cb r → spends 0 [] r r' effs.
Proof.
  intros He Hi Hc Hs Hm [K0 K1] _. unfold keyed. rewrite He, Hi, Hc. split_and!; try done; try lia. by right.
Qed.

Lemma spends_more b b' n r r' effs : 0 <= b <= b' → spends b n r r' effs → spends b' n r r' effs.
Proof. intros Hb S1 K Hc. destruct S1 as (? & [? ?] & ? & ? & ? & ?); [done|lia|]. split_and!; done || lia. Qed.

(** An entry is taken out, and its call completed if it has one. *)
Lemma spends_delete r k d effs :
  invocations r !! k = Some d → completions effs = option_list (result d) →
  spends 0 [] r (set_invocations (delete k (invocations r)) r) effs.
Proof.
  intros Hk He [K0 K1] _. unfold keyed. cbn [invocation_counter set_invocations invocations send_cb method_call_cb].
  split_and!; try done; try lia.
  - intros k' d' [_ Hk']%lookup_delete_Some. by eapply K1.
  - rewrite He. symmetry. by apply pending_delete.
  - intros k' d' n [_ ?]%lookup_delete_Some _. by right.
Qed.

(** A number is given and an entry is made for it. *)
Lemma spends_insert r d effs :
  completions effs = [] →
  spends 1 (option_list (result d)) r
    (set_invocations (<[id_string (u32 (invocation_counter r + 1)) := d]> (invocations r))
       (set_counter (u32 (invocation_counter r + 1)) r)) effs.
Proof.
  intros He K Hc. pose proof K as [K0 K1]. unfold ID_RANGE in Hc.
  assert (u32 (invocation_counter r + 1) = invocation_counter r + 1) as -> by (unfold u32; by apply Z.mod_small; lia).
  pose proof (keyed_fresh r (invocation_counter r + 1) K) as Hf.
  unfold keyed. cbn [invocation_counter set_invocations invocations set_counter send_cb method_call_cb].
  split_and!; try done; try lia.
  - intros k d' [[<- <-]|[_ Hk]]%lookup_insert_Some.
    + exists (invocation_counter r + 1). split; [done|lia].
    + destruct (K1 _ _ Hk) as (i & -> & ?). exists i. split; [done|lia].
  - rewrite He, pending_insert by (apply Hf; lia). done.
  - intros k d' n [[<- <-]|[_ Hk]]%lookup_insert_Some Hn; [left; rewrite Hn; by left|by right].
Qed.

Lemma transport_error_spends r id r' effs :
  evd_jsonrpc_transport_error r id = (r', effs) → spends 0 [] r r' effs.
Proof.
  unfold evd_jsonrpc_transport_error. destruct (invocations r !! id_string id) as [d|] eqn:Hd;
    intros [= <- <-]; [|by apply spends_nothing].
  apply (spends_delete _ _ d); [done|]. by destruct (result d).
Qed.

Lemma on_json_packet_spends r packet r' effs :
  evd_jsonrpc_on_json_packet r packet = Some (r', effs) → spends 1 [] r r' effs.
Proof.
  assert (∀ effs, completions effs = [] → spends 1 [] r r effs) as Hnothing.
  { intros e He. apply (spends_more 0); [lia|]. by apply spends_nothing. }
  unfold evd_jsonrpc_on_json_packet. destruct (json_parser_load_from_data packet) as [root|]; [|done].
  run_bind. destruct root as [| | | |obj]; try (intros [= <- <-]; by apply Hnothing).
  destruct (json_object_get_member obj "id") as [id|] eqn:Hid; [|intros [= <- <-]; by apply Hnothing].
  destruct (_ && _).
  { unfold evd_jsonrpc_on_method_result. destruct (json_object_get_member obj "id" ≫= json_node_get_string) as [i|]; [|done].
    run_bind. destruct (invocations r !! i) as [d|] eqn:Hd; [|intros [= <- <-]; by apply Hnothing].
    destruct (json_object_get_member obj "result") as [rn|]; [|done].
    destruct (json_object_get_member obj "error") as [en|]; [|done]. run_bind. intros [= <- <-].
    apply (spends_more 0); [lia|]. apply (spends_delete _ _ d); [done|]. by destruct (result d). }
  destruct (_ && _); [|intros [= <- <-]; by apply Hnothing].
  destruct (negb _).
  - intros [= E]. revert E. unfold evd_jsonrpc_on_method_called.
    destruct (json_object_get_member obj "method") as [node|]; [|intros [= <- <-]; by apply Hnothing].
    destruct (json_object_get_member obj "params") as [args|]; [|intros [= <- <-]; by apply Hnothing].
    destruct (json_node_get_string node); [|intros [= <- <-]; by apply Hnothing].
    do 2 (destruct (negb _); [intros [= <- <-]; by apply Hnothing|]). intros [= <- <-].
    apply (spends_insert r (mkInvocation None (json_object_get_member obj "id") (context r))). by destruct (method_call_cb _).
  - intros [= <- <-]. apply Hnothing. unfold evd_jsonrpc_on_notification. by destruct (notification_cb r).
Qed.

Definition packets (evs : list JsonFilter.event) : Z :=
  Z.of_nat (length (filter (λ ev, match ev with JsonFilter.PacketCb _ _ _ => true | _ => false end = true) evs)).

Lemma on_packets_spends evs : ∀ r r' effs, on_packets r evs = Some (r', effs) → spends (packets evs) [] r r' effs.
Proof.
  induction evs as [|[cb packet d|f d] evs IH]; intros r r' effs; cbn [on_packets].
  - intros [= <- <-]. by apply spends_nothing.
  - destruct (evd_jsonrpc_on_json_packet r packet) as [[r1 e1]|] eqn:E1; [|done]. run_bind.
    destruct (on_packets r1 evs) as [[r2 e2]|] eqn:E2; [|done]. run_bind. intros [= <- <-].
    replace (packets _) with (1 + packets evs) by (unfold packets; rewrite filter_cons_True by done; cbn; lia).
    apply (spends_trans _ _ [] [] r r1 r2); [unfold packets; lia|by eapply on_json_packet_spends|by apply IH].
  - unfold packets. rewrite filter_cons_False by done. apply IH.
Qed.

Lemma deliver_packets p buffer i p' evs :
  JsonFilter.deliver_if_done p buffer i = Some (p', evs) → packets evs <= 1.
Proof.
  assert (∀ p l, packets (JsonFilter.evd_json_filter_notify_packet p l) <= 1) as Hn.
  { intros q l. unfold JsonFilter.evd_json_filter_notify_packet. by repeat case_match. }
  unfold JsonFilter.deliver_if_done. destruct (_ <? 0); [intros [= <- <-]; done|].
  destruct (JsonFilter.stack_top p) as [m|]; [|done]. run_bind. case_decide; [|intros [= <- <-]; done].
  destruct (_ <? _); destruct (JsonFilter.evd_json_filter_reset _); try done; run_bind; intros [= <- <-]; apply Hn.
Qed.

Lemma packets_app e1 e2 : packets (e1 ++ e2) = packets e1 + packets e2.
Proof. unfold packets. rewrite filter_app, length_app. lia. Qed.

Lemma feed_packets p buffer p' evs err :
  JsonFilter.evd_json_filter_feed_len p buffer = Some (p', evs, err) → packets evs <= Z.of_nat (length buffer).
Proof.
  unfold JsonFilter.evd_json_filter_feed_len.
  destruct (JsonFilter.feed_loop p buffer buffer 0) as [[[p1 e1] err1]|] eqn:E; [|done]. run_bind.
  assert (∀ rest p i p' evs err, JsonFilter.feed_loop p buffer rest i = Some (p', evs, err) →
    packets evs <= Z.of_nat (length rest)) as Hl.
  { clear. induction rest as [|c rest IH]; intros p i p' evs err; cbn [JsonFilter.feed_loop]; [by intros [= <- <- <-]|].
    destruct (JsonFilter.evd_json_filter_process p (s8 c) i) as [[p1 ok]|]; [|done]. run_bind.
    destruct ok; [|intros [= <- <- <-]; unfold packets; cbn [filter list_filter length]; lia].
    destruct (JsonFilter.deliver_if_done p1 buffer i) as [[p2 e2]|] eqn:E2; [|done]. run_bind.
    destruct (JsonFilter.feed_loop p2 buffer rest (i + 1)) as [[[p3 e3] err3]|] eqn:E3; [|done]. run_bind.
    intros [= <- <- <-]. apply deliver_packets in E2. apply IH in E3. rewrite packets_app. cbn [length]. lia. }
  apply Hl in E. destruct err1; [by intros [= <- <- <-]|]. by destruct (_ <=? _); intros [= <- <- <-].
Qed.

Lemma length_c_string msg : (length (c_string msg) <= length msg)%nat.
Proof. induction msg as [|c msg IH]; cbn; [done|]. destruct (c =? 0); cbn; lia. Qed.

Lemma receive_spends r msg ctx id r' effs ok :
  evd_jsonrpc_transport_receive r msg ctx id = Some (r', effs, ok) → spends (Z.of_nat (length msg)) [] r r' effs.
Proof.
  unfold evd_jsonrpc_transport_receive. pose proof (length_c_string msg) as Hl.
  destruct (_ =? 0); [intros [= <- <- <-]; apply (spends_more 0); [lia|by apply spends_nothing]|].
  destruct (JsonFilter.evd_json_filter_feed_len _ _) as [[[f evs] err]|] eqn:Ef; [|done]. run_bind.
  apply feed_packets in Ef. destruct (on_packets _ evs) as [[r1 e1]|] eqn:E1; [|done]. run_bind.
  apply on_packets_spends in E1.
  destruct (match err with Some _ => _ | None => _ end) as [[r2 e2] ok2] eqn:E2. intros [= <- <- <-].
  apply (spends_more (0 + (packets evs + (0 + (0 + 0))))); [unfold packets in *; lia|].
  apply (spends_trans _ _ [] [] _ (set_context ctx r) _ []); [unfold packets; lia|by apply spends_nothing|].
  apply (spends_trans _ _ [] [] _ r1 _ e1); [lia|done|].
  assert (spends (0 + 0) ([] ++ []) (set_filter f r1) (set_context None r2) (e2 ++ [])) as S2.
  { apply (spends_trans _ _ _ _ _ r2); [lia| |by apply spends_nothing]. destruct err; [|simplify_eq; by apply spends_nothing].
    destruct (evd_jsonrpc_transport_error (set_filter f r1) id) as [r3 e3] eqn:E3. simplify_eq. by eapply transport_error_spends. }
  rewrite !app_nil_r in S2. apply (spends_trans _ _ [] [] _ (set_filter f r1) _ [] e2); [lia|by apply spends_nothing|exact S2].
Qed.

(** A call: it waits, or fails at once when there is nothing to send it with. *)
Lemma call_spends r name params n cb r' effs :
  send_cb r = Some cb → evd_jsonrpc_call_method r name params (Some (Other n)) n true = (r', effs) →
  spends 1 [n] r r' effs ∧
  ∃ msg, effs = [SendCb cb msg (Some (Other n)) (u32 (invocation_counter r + 1))] ∧
    invocations r' = <[id_string (u32 (invocation_counter r + 1)) := mkInvocation (Some n) None (Some (Other n))]> (invocations r).
Proof.
  intros Hs. unfold evd_jsonrpc_call_method, evd_jsonrpc_transport_write. rewrite Hs. cbn [is_peer is_null negb andb].
  cbn [send_cb set_invocations set_counter]. rewrite Hs. intros [= <- <-]. split; [|by eexists].
  by apply (spends_insert r (mkInvocation (Some n) None (Some (Other n)))).
Qed.

(** Receiving sends nothing. *)
Definition sends_nothing (effs : list Jsonrpc.effect) : Prop :=
  Forall (λ eff, match eff with SendCb _ _ _ _ | SendText _ _ => False | _ => True end) effs.

Lemma transport_error_sends r id r' effs : evd_jsonrpc_transport_error r id = (r', effs) → sends_nothing effs.
Proof.
  unfold evd_jsonrpc_transport_error. destruct (_ !! _) as [d|]; intros [= <- <-]; [|constructor].
  destruct (result d); repeat constructor.
Qed.

Lemma packet_sends r packet r' effs : evd_jsonrpc_on_json_packet r packet = Some (r', effs) → sends_nothing effs.
Proof.
  unfold evd_jsonrpc_on_json_packet. destruct (json_parser_load_from_data packet) as [root|]; [|done].
  run_bind. destruct root as [| | | |obj]; try (intros [= <- <-]; constructor).
  destruct (json_object_get_member obj "id") as [id|] eqn:Hid; [|intros [= <- <-]; constructor].
  destruct (_ && _).
  { unfold evd_jsonrpc_on_method_result. destruct (json_object_get_member obj "id" ≫= json_node_get_string) as [i|]; [|done].
    run_bind. destruct (invocations r !! i) as [d|]; [|intros [= <- <-]; constructor].
    destruct (json_object_get_member obj "result"); [|done]. destruct (json_object_get_member obj "error"); [|done].
    run_bind. intros [= <- <-]. destruct (result d); repeat constructor. }
  destruct (_ && _); [|intros [= <- <-]; constructor].
  destruct (negb _).
  - intros [= E]. revert E. unfold evd_jsonrpc_on_method_called.
    destruct (json_object_get_member obj "method"); [|intros [= <- <-]; constructor].
    destruct (json_object_get_member obj "params"); [|intros [= <- <-]; constructor].
    destruct (json_node_get_string _); [|intros [= <- <-]; constructor].
    do 2 (destruct (negb _); [intros [= <- <-]; constructor|]). intros [= <- <-].
    destruct (method_call_cb _); repeat constructor.
  - intros [= <- <-]. unfold evd_jsonrpc_on_notification. destruct (notification_cb r); repeat constructor.
Qed.

Lemma on_packets_sends evs : ∀ r r' effs, on_packets r evs = Some (r', effs) → sends_nothing effs.
Proof.
  induction evs as [|[cb packet d|f d] evs IH]; intros r r' effs; cbn [on_packets]; [intros [= <- <-]; constructor| |apply IH].
  destruct (evd_jsonrpc_on_json_packet r packet) as [[r1 e1]|] eqn:E1; [|done]. run_bind.
  destruct (on_packets r1 evs) as [[r2 e2]|] eqn:E2; [|done]. run_bind. intros [= <- <-].
  apply Forall_app_2; [by eapply packet_sends|by eapply IH].
Qed.

Lemma receive_sends r msg ctx id r' effs ok :
  evd_jsonrpc_transport_receive r msg ctx id = Some (r', effs, ok) → sends_nothing effs.
Proof.
  unfold evd_jsonrpc_transport_receive. destruct (_ =? 0); [intros [= <- <- <-]; constructor|].
  destruct (JsonFilter.evd_json_filter_feed_len _ _) as [[[f evs] err]|]; [|done]. run_bind.
  destruct (on_packets _ evs) as [[r1 e1]|] eqn:E1; [|done]. run_bind. apply on_packets_sends in E1.
  destruct (match err with Some _ => _ | None => _ end) as [[r2 e2] ok2] eqn:E2. intros [= <- <- <-].
  apply Forall_app_2; [done|]. destruct err; [|simplify_eq; constructor].
  destruct (evd_jsonrpc_transport_error _ id) as [r3 e3] eqn:E3. simplify_eq. by eapply transport_error_sends.
Qed.

End Endpoint.

Abbreviation pending r := (pending_of (invocations r)).

(** ** The client *)

Section Client.
Context `{Soup} `{JsonGlib}.
Implicit Types s : client.

Definition completed (effs : list effect) : list nat := omap (λ e, match e with CallCompleted n _ => Some n | _ => None end) effs.
Definition responses (effs : list effect) : list nat := omap (λ e, match e with Content n _ => Some n | _ => None end) effs.

(** The bytes the responses brought. *)
Definition bytes (effs : list effect) : Z :=
  Z.of_nat (length (concat (omap (λ e, match e with Content _ c => Some c | _ => None end) effs))).

(** The connections in use, with their calls. *)
Definition users s : list (nat * nat) :=
  ((λ '(k, (_, n)), (k, n)) <$> map_to_list (awaiting s)) ++ ((λ '(k, _, n, _), (k, n)) <$> idle s).

(** The calls that wait for the pool or for an HTTP exchange. *)
Definition active s : list nat := requested s ++ (users s).*2.

Definition done_or_pending (don : list nat) (r : EvdJsonrpcPrivate) : list nat := don ++ pending r.

Record wf (don seen : list nat) s : Prop := mkWf {
  wf_keyed : keyed (rpc s);
  wf_send : send_cb (rpc s) = Some send_callback;
  wf_all : don ++ pending (rpc s) ≡ₚ seq 0 (next_call s);
  wf_pending k d n : invocations (rpc s) !! k = Some d → result d = Some n →
    (∃ cd, calls s !! n = Some cd ∧ k = id_string (invocation_id cd)) ∧ (n ∈ active s ∨ n ∈ seen);
  wf_users : NoDup ((users s).*1 ++ recycled s);
  wf_conns k : k ∈ (users s).*1 ++ recycled s → (k < next_conn s)%nat
}.

Lemma completed_app e1 e2 : completed (e1 ++ e2) = completed e1 ++ completed e2.
Proof. apply omap_app. Qed.
Lemma responses_app e1 e2 : responses (e1 ++ e2) = responses e1 ++ responses e2.
Proof. apply omap_app. Qed.
Lemma bytes_app e1 e2 : bytes (e1 ++ e2) = bytes e1 + bytes e2.
Proof. unfold bytes. rewrite omap_app, concat_app, length_app. lia. Qed.

(** What the endpoint completes: only the data of the calls change. *)
Lemma done_effects effs : ∀ s s' e,
  sends_nothing effs → rpc_effects s effs = Some (s', e) →
  ∃ m, s' = with_calls m (next_call s) s ∧ (∀ n, n ∉ completions effs → m !! n = calls s !! n) ∧
    completed e = completions effs ∧ responses e = [] ∧ bytes e = 0.
Proof.
  induction effs as [|eff effs IH]; intros s s' e Hs; cbn [rpc_effects].
  { intros [= <- <-]. exists (calls s). split_and!; done || by destruct s. }
  apply Forall_cons in Hs as [He Hs].
  assert (completions [eff] = [] → rpc_effects s effs = Some (s', e) → ∃ m, s' = with_calls m (next_call s) s ∧
    (∀ n, n ∉ completions (eff :: effs) → m !! n = calls s !! n) ∧
    completed e = completions (eff :: effs) ∧ responses e = [] ∧ bytes e = 0) as Hskip.
  { intros H1 E. change (eff :: effs) with ([eff] ++ effs). rewrite completions_app, H1. by apply IH. }
  destruct eff as [| | | |n how]; try done; try (intros E; by apply Hskip). cbn [jsonrpc_on_method_call_result].
  set (s1 := with_calls (delete n (calls s)) _ s). clear Hskip.
  destruct (rpc_effects s1 effs) as [[s2 e2]|] eqn:E2; [|done]. run_bind. intros [= <- <-].
  destruct (IH _ _ _ Hs E2) as (m & -> & Hm & Hc & Hr & Hb). exists m. split_and!; [done| |change (n :: completed e2 = n :: completions effs); by rewrite Hc|done|done].
  intros n' Hn'. cbn in Hn'. rewrite not_elem_of_cons in Hn'. destruct Hn' as [Hne Hn']. rewrite Hm by done.
  change (delete n (calls s) !! n' = calls s !! n'). by rewrite lookup_delete_ne.
Qed.

(** An operation of the endpoint that sends nothing. *)
Lemma settle_wf don seen s b r' effs s' e :
  wf don seen s → invocation_counter (rpc s) + b < ID_RANGE → spends b [] (rpc s) r' effs → sends_nothing effs →
  rpc_effects (with_rpc r' s) effs = Some (s', e) →
  wf (don ++ completed e) seen s' ∧ rpc s' = r' ∧ responses e = [] ∧ bytes e = 0 ∧
  invocation_counter (rpc s) <= invocation_counter (rpc s') <= invocation_counter (rpc s) + b ∧
  users s' = users s ∧ recycled s' = recycled s ∧ next_conn s' = next_conn s ∧ next_call s' = next_call s.
Proof.
  intros W Hb Hsp Hs E. destruct Hsp as (K' & C' & A' & _ & P' & E'); [apply W|done|].
  destruct (done_effects _ _ _ _ Hs E) as (m & -> & Hm & Hc & Hr & Hby).
  assert ((don ++ completions effs) ++ pending r' ≡ₚ seq 0 (next_call s)) as Hall
    by (rewrite <-app_assoc, P'; apply W).
  split_and!; try done; try (cbn; lia). split; try apply W; [done|cbn; rewrite A'; apply W|by rewrite Hc|].
  intros k d n Hk Hn. change (invocations r' !! k = Some d) in Hk.
  destruct (E' _ _ _ Hk Hn) as [?%not_elem_of_nil|Hk0]; [done|].
  destruct (wf_pending _ _ _ W k d n Hk0 Hn) as [(cd & Hcd & Hkey) Hact]. split; [|exact Hact].
  exists cd. split; [|done]. cbn [calls with_calls]. rewrite Hm; [done|]. intros Hdone.
  assert (NoDup ((don ++ completions effs) ++ pending r')) as Hnd by (rewrite Hall; apply NoDup_seq).
  apply NoDup_app in Hnd as (_ & Hdis & _). apply (Hdis n); [apply elem_of_app; by right|].
  apply elem_of_pending. by exists k, d.
Qed.

(** What is known of the calls whose exchange has just ended. *)
Lemma wf_seen don seen seen' s :
  wf don seen s → (∀ n, n ∈ pending (rpc s) → n ∈ seen → n ∈ active s ∨ n ∈ seen') → wf don seen' s.
Proof.
  intros W Hn. split; try apply W. intros k d n Hk Hd. destruct (wf_pending _ _ _ W k d n Hk Hd) as [? [?|Hs]]; [by auto|].
  split; [done|]. apply Hn; [|done]. apply elem_of_pending. by exists k, d.
Qed.

Lemma error_wf don seen s n s' effs :
  wf don (n :: seen) s → invocation_counter (rpc s) < ID_RANGE → transport_error s n = Some (s', effs) →
  wf (don ++ completed effs) (seen ++ responses effs) s' ∧ bytes effs = 0 ∧
  invocation_counter (rpc s') = invocation_counter (rpc s) ∧
  users s' = users s ∧ recycled s' = recycled s ∧ next_conn s' = next_conn s ∧ next_call s' = next_call s.
Proof.
  intros W Hb. unfold transport_error. destruct (calls s !! n) as [d|] eqn:Hd; [|done]. run_bind.
  destruct (evd_jsonrpc_transport_error (rpc s) (invocation_id d)) as [r' e] eqn:Er. intros E.
  destruct (settle_wf _ _ _ 0 _ _ _ _ W ltac:(lia) (transport_error_spends _ _ _ _ Er) (transport_error_sends _ _ _ _ Er) E)
    as (W' & Hr & Hre & Hby & Hc & U & R & X & Y).
  rewrite Hre, app_nil_r. split_and!; try done; try lia. apply (wf_seen _ (n :: seen)); [done|].
  intros n' (k & d' & Hk & Hd')%elem_of_pending [->|]%elem_of_cons; [|by right]. exfalso. rewrite Hr in Hk.
  destruct (transport_error_spends _ _ _ _ Er) as (_ & _ & _ & _ & _ & Hold); [apply W|lia|].
  destruct (Hold _ _ _ Hk Hd') as [?%not_elem_of_nil|Hk0]; [done|].
  destruct (wf_pending _ _ _ W _ _ _ Hk0 Hd') as [(cd & Hcd & ->) _]. assert (cd = d) as -> by congruence.
  revert Er. unfold evd_jsonrpc_transport_error. rewrite Hk0. intros [= <- _]. cbn in Hk. by rewrite lookup_delete_eq in Hk.
Qed.

(** ** Exchanges *)

(** A connection nobody uses. *)
Definition free s (k : nat) : Prop := (k ∉ (users s).*1 ++ recycled s) ∧ (k < next_conn s)%nat.

(** What the callbacks of an exchange of [n], which has just ended on [k], do. *)
Definition exchanges (n k : nat) s s' (effs : list effect) : Prop :=
  ∀ don seen, wf don (n :: seen) s → free s k → invocation_counter (rpc s) + bytes effs < ID_RANGE →
  wf (don ++ completed effs) (seen ++ responses effs) s' ∧ next_call s' = next_call s ∧
  invocation_counter (rpc s) <= invocation_counter (rpc s') <= invocation_counter (rpc s) + bytes effs.

Lemma users_awaiting s k cb n :
  awaiting s !! k = Some (cb, n) →
  users s ≡ₚ (k, n) :: users (with_awaiting (delete k (awaiting s)) (idle s) s).
Proof.
  intros E. unfold users. cbn [awaiting idle with_awaiting]. by rewrite <-(map_to_list_delete (awaiting s) k (cb, n) E).
Qed.

Lemma users_idle s i k cb n a :
  idle s !! i = Some (k, cb, n, a) →
  users s ≡ₚ (k, n) :: users (with_awaiting (awaiting s) (delete i (idle s)) s).
Proof.
  intros E. unfold users. cbn [awaiting idle with_awaiting]. rewrite (delete_Permutation (idle s) i _ E) at 1. cbn. solve_Permutation.
Qed.

Lemma take_wf don seen s m i k n :
  wf don seen s → users s ≡ₚ (k, n) :: users (with_awaiting m i s) →
  wf don (n :: seen) (with_awaiting m i s) ∧ free (with_awaiting m i s) k.
Proof.
  intros W Hu. set (s0 := with_awaiting m i s) in *.
  assert ((users s).*1 ++ recycled s ≡ₚ k :: (users s0).*1 ++ recycled s0) as Hk by (by rewrite Hu).
  pose proof (wf_users _ _ _ W) as Hnd. rewrite Hk in Hnd. apply NoDup_cons in Hnd as [Hn Hnd].
  assert (∀ j, j ∈ (users s0).*1 ++ recycled s0 → (j < next_conn s0)%nat) as Hc.
  { intros j Hj. apply (wf_conns _ _ _ W). rewrite Hk. by right. }
  split; [split; try apply W; try done|split; [done|]].
  - intros key d n' Hkey Hd. destruct (wf_pending _ _ _ W key d n' Hkey Hd) as [? [Ha|?]]; split; try done; [|right; by right].
    unfold active in Ha. rewrite Hu in Ha. cbn [fmap list_fmap snd] in Ha. apply elem_of_app in Ha as [Ha|[->|Ha]%elem_of_cons].
    + left. apply elem_of_app. by left.
    + right. by left.
    + left. apply elem_of_app. by right.
  - apply (wf_conns _ _ _ W). rewrite Hk. by left.
Qed.

Lemma started_users s k c cb n evs :
  free s k → users (started s k c cb n evs) ≡ₚ (k, n) :: users s.
Proof.
  intros [Hk _]. unfold started, users. destruct (ending evs); cbn [awaiting idle with_awaiting with_conn].
  - rewrite fmap_app. cbn. solve_Permutation.
  - rewrite map_to_list_insert; [done|]. destruct (awaiting s !! k) as [[cb' n']|] eqn:E; [|done]. exfalso. apply Hk.
    apply elem_of_app. left. unfold users. rewrite fmap_app. apply elem_of_app. left. rewrite <-list_fmap_compose.
    apply list_elem_of_fmap. exists (k, (cb', n')). split; [done|]. by apply elem_of_map_to_list.
Qed.

Lemma started_wf don seen s k c cb n evs :
  wf don (n :: seen) s → free s k → wf don seen (started s k c cb n evs).
Proof.
  intros W Hk. pose proof (started_users s k c cb n evs Hk) as Hu. destruct Hk as [Hk Hlt].
  set (s' := started s k c cb n evs) in *.
  assert (rpc s' = rpc s ∧ calls s' = calls s ∧ next_call s' = next_call s ∧ requested s' = requested s ∧
    recycled s' = recycled s ∧ next_conn s' = next_conn s) as (E1 & E2 & E3 & E4 & E5 & E6)
    by (unfold s', started; by destruct (ending evs)).
  apply (wf_seen _ (n :: seen)).
  - split; rewrite ?E1, ?E2, ?E3, ?E5, ?E6; try apply W.
    + intros key d n' Hkey Hd. destruct (wf_pending _ _ _ W key d n' Hkey Hd) as [? [Ha|?]]; split; try done; [|by right].
      left. unfold active. rewrite E4, Hu. unfold active in Ha. cbn. apply elem_of_app in Ha as [?|?]; apply elem_of_app; [by left|right; by right].
    + rewrite Hu. cbn. apply NoDup_cons. split; [done|apply W].
    + intros j. rewrite Hu. cbn. intros [->|Hj]%elem_of_cons; [done|]. by apply (wf_conns _ _ _ W).
  - intros n' _ [->|?]%elem_of_cons; [left|by right]. unfold active. rewrite Hu. apply elem_of_app. right. by left.
Qed.

(** An exchange that goes on. *)
Lemma started_exchanges n k s c cb evs : exchanges n k s (started s k c cb n evs) [].
Proof.
  intros don seen W Hk Hb. cbn [completed responses omap list_omap]. rewrite !app_nil_r.
  split; [by apply started_wf|]. unfold started. destruct (ending evs); cbn; (split; [done|]); unfold bytes; cbn; lia.
Qed.

(** One that ends with an error. *)
Lemma error_exchanges n k s s' effs : transport_error s n = Some (s', effs) → exchanges n k s s' effs.
Proof.
  intros E don seen W Hk Hb.
  destruct (error_wf _ _ _ _ _ _ W ltac:(unfold bytes in Hb; lia) E) as (W' & Hby & Hc & _ & _ & _ & Hn).
  split_and!; [done|done|lia..].
Qed.

Lemma on_request_sent_exchanges s k n a s' effs :
  on_request_sent s k n a = Some (s', effs) → exchanges n k s s' effs.
Proof.
  unfold on_request_sent. destruct (calls s !! n) as [d|]; [|done]. run_bind.
  destruct (evd_http_connection_write_request_headers_finish a); [|apply error_exchanges].
  destruct (conns s !! k) as [c|]; [|done]. run_bind. destruct (buf d) as [b|]; [|done]. run_bind.
  destruct (evd_http_connection_write_content c b false) as [c' [u|err]].
  - destruct (evd_http_connection_read_response_headers c') as [c2 evs]. intros [= <- <-]. apply started_exchanges.
  - intros E don seen W Hk Hb. apply (error_exchanges n k (with_conn k c' s) s' effs E); [|done|done]. by destruct W.
Qed.

Lemma on_response_headers_exchanges s k n a s' effs :
  on_response_headers s k n a = Some (s', effs) → exchanges n k s s' effs.
Proof.
  unfold on_response_headers. destruct (calls s !! n) as [d|]; [|done]. run_bind.
  destruct (match evd_http_connection_read_response_headers_finish a with Some _ => _ | None => _ end)
    as [[s1 e1]|] eqn:E; [|done]. run_bind. intros [= <- <-].
  assert (exchanges n k s s1 e1) as G.
  { revert E. destruct (evd_http_connection_read_response_headers_finish a) as [[[[h v] st] ph]|]; [|apply error_exchanges].
    destruct (st =? SOUP_STATUS_OK); [|apply error_exchanges]. destruct (conns s !! k) as [c|]; [|done]. run_bind.
    destruct (evd_http_connection_read_all_content c) as [c' evs]. intros [= <- <-]. apply started_exchanges. }
  intros don seen W Hk Hb. destruct (G don seen W Hk Hb) as (W' & Hn & Hc). split_and!; [split; apply W'|done|apply Hc..].
Qed.

Lemma recycle_wf don seen room s k c :
  wf don seen s → free s k → wf don seen (evd_connection_pool_recycle room s k c).
Proof.
  intros W [Hk Hlt]. unfold evd_connection_pool_recycle. destruct (_ && _); [|done].
  assert (∀ l, l ++ recycled s ++ [k] ≡ₚ k :: l ++ recycled s) as Hp by (intros l; solve_Permutation).
  split; try apply W; cbn [users recycled with_recycled].
  - change (users (with_recycled _ s)) with (users s). rewrite Hp. apply NoDup_cons. split; [done|apply W].
  - intros j. change (users (with_recycled _ s)) with (users s). rewrite Hp. intros [->|Hj]%elem_of_cons; [done|].
    by apply (wf_conns _ _ _ W).
Qed.

Lemma on_content_read_exchanges room s k n a s' effs :
  on_content_read room s k n a = Some (s', effs) → exchanges n k s s' effs.
Proof.
  unfold on_content_read. destruct (calls s !! n) as [d|] eqn:Hd; [|done]. run_bind.
  destruct (conns s !! k) as [c|]; [|done]. run_bind.
  destruct (evd_http_connection_read_all_content_finish c a) as [c' content]. cbn zeta.
  set (s1 := if evd_http_connection_get_keepalive c' then _ else _).
  intros E don seen W Hk Hb.
  assert (wf don (n :: seen) s1 ∧ rpc s1 = rpc s ∧ next_call s1 = next_call s) as (W1 & Hr1 & Hn1).
  { assert (wf don (n :: seen) (with_conn k c' s)) as W0 by by destruct W. subst s1.
    destruct (evd_http_connection_get_keepalive c'); [|done]. split; [by apply recycle_wf|].
    unfold evd_connection_pool_recycle. by destruct (_ && _). }
  clearbody s1. revert E. destruct content as [[b sz]|].
  - destruct (evd_jsonrpc_transport_receive (rpc s1) b (Some (Other n)) (invocation_id d)) as [[[r' es] ok]|] eqn:Er; [|done].
    run_bind. destruct (rpc_effects (with_rpc r' s1) es) as [[s2 e2]|] eqn:E2; [|done]. run_bind. intros [= <- <-].
    assert (bytes (Content n b :: e2) = Z.of_nat (length b) + bytes e2) as Hbs.
    { unfold bytes. cbn [omap list_omap concat]. rewrite length_app. lia. }
    assert (0 <= bytes e2) by (unfold bytes; lia).
    assert (invocation_counter (rpc s1) + Z.of_nat (length b) < ID_RANGE) as Hb1 by (rewrite Hr1; lia).
    destruct (settle_wf _ _ _ _ _ _ _ _ W1 Hb1 (receive_spends _ _ _ _ _ _ _ Er) (receive_sends _ _ _ _ _ _ _ Er) E2)
      as (W2 & _ & Hre & Hby & Hc & _ & _ & _ & Hn2).
    split_and!; [|congruence|rewrite <-Hr1; lia|rewrite <-Hr1; lia].
    change (completed (Content n b :: e2)) with (completed e2). change (responses (Content n b :: e2)) with (n :: responses e2).
    rewrite Hre. apply (wf_seen _ (n :: seen)); [done|]. intros n' _ [->|Hs]%elem_of_cons; right; apply elem_of_app; [right; by left|by left].
  - intros E. destruct (error_wf _ _ _ _ _ _ W1 ltac:(rewrite Hr1; unfold bytes in Hb; lia) E) as (W' & Hby & Hc & _ & _ & _ & Hn).
    split_and!; [done|congruence|rewrite <-Hr1; lia|rewrite <-Hr1; lia].
Qed.

Lemma run_callback_exchanges room s k cb n a s' effs :
  run_callback room s k cb n a = Some (s', effs) → exchanges n k s s' effs.
Proof.
  destruct cb; [apply on_request_sent_exchanges|apply on_response_headers_exchanges|apply on_content_read_exchanges].
Qed.

(** ** Runs *)

(** [new] calls are made. *)
Definition good (new : nat) s s' (effs : list effect) : Prop :=
  ∀ don seen, wf don seen s → invocation_counter (rpc s) + Z.of_nat new + bytes effs < ID_RANGE →
  wf (don ++ completed effs) (seen ++ responses effs) s' ∧ next_call s' = (next_call s + new)%nat ∧
  invocation_counter (rpc s) <= invocation_counter (rpc s') <= invocation_counter (rpc s) + Z.of_nat new + bytes effs.

Lemma http_good_refl s : good 0 s s [].
Proof. intros don seen W _. cbn. rewrite !app_nil_r. split_and!; try done; unfold bytes; cbn; lia. Qed.

Lemma http_good_trans n1 n2 s1 s2 s3 e1 e2 : good n1 s1 s2 e1 → good n2 s2 s3 e2 → good (n1 + n2) s1 s3 (e1 ++ e2).
Proof.
  intros G1 G2 don seen W Hb. rewrite bytes_app in Hb |- *. assert (0 <= bytes e1 ∧ 0 <= bytes e2) as [? ?] by (unfold bytes; lia).
  destruct (G1 don seen W) as (W1 & N1 & C1); [lia|]. destruct (G2 _ _ W1) as (W2 & N2 & C2); [lia|].
  rewrite completed_app, responses_app, !app_assoc. split_and!; [done|lia..].
Qed.

Lemma exchange_good room s m i k cb n a s' effs :
  users s ≡ₚ (k, n) :: users (with_awaiting m i s) →
  run_callback room (with_awaiting m i s) k cb n a = Some (s', effs) → good 0 s s' effs.
Proof.
  intros Hu E don seen W Hb. destruct (take_wf _ _ _ _ _ _ _ W Hu) as [W0 Hk].
  destruct (run_callback_exchanges _ _ _ _ _ _ _ _ E don seen W0 Hk) as (W' & Hn & Hc); [cbn; lia|].
  split_and!; [done|cbn in Hn; lia|cbn in Hc; lia..].
Qed.

Lemma http_conn_events_good room s k evs s' effs : conn_events room s k evs = Some (s', effs) → good 0 s s' effs.
Proof.
  unfold conn_events. destruct (ending evs) as [a|]; [|intros [= <- <-]; apply http_good_refl].
  destruct (awaiting s !! k) as [[cb n]|] eqn:E; [|intros [= <- <-]; apply http_good_refl].
  apply exchange_good. by eapply users_awaiting.
Qed.

Lemma good_conn room s k c evs s' effs : conn_events room (with_conn k c s) k evs = Some (s', effs) → good 0 s s' effs.
Proof. intros G%http_conn_events_good don seen W. apply G. split; apply W. Qed.

Lemma call_good s method params s' effs :
  evd_jsonrpc_http_client_call_method s method params = Some (s', effs) → good 1 s s' effs.
Proof.
  unfold evd_jsonrpc_http_client_call_method. set (n := next_call s).
  destruct (evd_jsonrpc_call_method (rpc _) method params (Some (Other n)) n true) as [r' e] eqn:Er.
  intros E don seen W Hb. cbn [rpc with_calls] in Er.
  destruct (call_spends (rpc s) method params n send_callback r' e) as [Hsp (msg & -> & Hinv)]; [apply W|done|].
  set (id := u32 (invocation_counter (rpc s) + 1)) in *.
  revert E. cbn [rpc_effects]. unfold jsonrpc_on_send.
  change (calls (with_rpc r' _)) with (<[n := mkData None 0]> (calls s)). rewrite lookup_insert_eq. run_bind. intros [= <- <-].
  destruct Hsp as (K' & C' & A' & _ & P' & E'); [apply W|unfold bytes in Hb; cbn in Hb; lia|].
  cbn [completed responses omap list_omap]. rewrite !app_nil_r.
  assert (∀ k d m, invocations r' !! k = Some d → result d = Some m → m = n ∧ k = id_string id ∨ m ≠ n ∧ invocations (rpc s) !! k = Some d) as Hpend.
  { rewrite Hinv. intros k d m [[<- <-]|[_ Hk]]%lookup_insert_Some Hd; [left; by injection Hd as <-|right]. split; [|done].
    destruct (wf_pending _ _ _ W _ _ _ Hk Hd) as [_ _]. intros ->.
    assert (n ∈ done_or_pending don (rpc s)) as Hin.
    { apply elem_of_app. right. apply elem_of_pending. by exists k, d. }
    unfold done_or_pending in Hin. rewrite (wf_all _ _ _ W) in Hin. apply elem_of_seq in Hin. unfold n in Hin. lia. }
  split_and!; [|cbn; lia|cbn; unfold bytes; cbn; lia..]. split; try apply W; [done|cbn; rewrite A'; apply W| |].
  - cbn [rpc with_requested with_calls with_rpc next_call]. transitivity (n :: done_or_pending don (rpc s)).
    + unfold done_or_pending. cbn [app] in P'. cbn [completions mbind list_bind JsonrpcSpec.completed app] in P'. rewrite P'. solve_Permutation.
    + unfold done_or_pending. rewrite (wf_all _ _ _ W), seq_S. fold n. solve_Permutation.
  - cbn [rpc with_requested with_calls with_rpc calls]. intros k d m Hk Hd.
    change (active _) with ((requested s ++ [n]) ++ (users s).*2).
    destruct (Hpend _ _ _ Hk Hd) as [[-> ->]|[Hne Hk0]].
    + split; [|left; apply elem_of_app; left; apply elem_of_app; right; by left].
      eexists. split; [apply lookup_insert_eq|done].
    + destruct (wf_pending _ _ _ W _ _ _ Hk0 Hd) as [(cd & Hcd & Hkey) Ha]. split.
      * exists cd. split; [|done]. by rewrite !lookup_insert_ne.
      * destruct Ha as [[Ha|Ha]%elem_of_app|Ha]; [left|left|by right]; apply elem_of_app; [left; apply elem_of_app; by left|by right].
Qed.

Lemma request_good s k n s' :
  do_request s k n = Some s' → exchanges n k s s' [].
Proof.
  unfold do_request. destruct (calls s !! n) as [d|]; [|done]. run_bind. destruct (buf d) as [b|]; [|done]. run_bind.
  destruct (conns s !! k) as [c|]; [|done]. run_bind. destruct (evd_http_message_get_headers (http_request s)) as [q h].
  destruct (evd_http_connection_write_request_headers c _) as [[[c' q'] evs]|]; [|done]. run_bind. intros [= <-].
  set (s1 := with_locked _ _). intros don seen W Hk Hb.
  apply (started_exchanges n k s1 c' OnRequestSent evs don seen); [split; apply W|exact Hk|exact Hb].
Qed.

Lemma on_connection_good s n conn s' effs :
  (match conn with Some (inr k) => k ∈ recycled s | _ => True end) →
  on_connection s n conn = Some (s', effs) → good 0 s s' effs.
Proof.
  intros Hc E don seen W Hb. unfold on_connection in E. set (s1 := with_requested _ s) in E.
  assert (wf don (n :: seen) s1) as W1.
  { split; try apply W. intros key d n' Hk Hd. destruct (wf_pending _ _ _ W key d n' Hk Hd) as [? Ha]. split; [done|].
    destruct (decide (n' = n)) as [->|Hne]; [right; by left|]. destruct Ha as [[Ha|Ha]%elem_of_app|Ha]; [left|left|right; by right].
    - apply elem_of_app. left. by apply list_elem_of_filter.
    - apply elem_of_app. by right. }
  destruct conn as [conn|].
  - destruct (take_conn s1 conn) as [s2 k] eqn:Et. destruct (do_request s2 k n) as [s3|] eqn:E3; [|done].
    injection E as <- <-.
    assert (wf don (n :: seen) s2 ∧ free s2 k ∧ rpc s2 = rpc s ∧ next_call s2 = next_call s) as (W2 & Hk & Hr & Hn).
    { destruct conn as [c|j]; cbn [take_conn] in Et; injection Et as <- <-.
      - split_and!; [|split; [|cbn; lia]|done|done].
        + split; try apply W1. intros j Hj. apply (wf_conns _ _ _ W) in Hj. cbn. lia.
        + intros Hk%(wf_conns _ _ _ W). lia.
      - split_and!; [| |done|done].
        + split; try apply W1.
          * pose proof (wf_users _ _ _ W) as Hnd. apply NoDup_app in Hnd as (H1 & H2 & H3). apply NoDup_app.
            split_and!; [done| |by apply NoDup_filter]. intros x Hx [_ Hx']%list_elem_of_filter. by apply (H2 x).
          * intros x Hx. apply (wf_conns _ _ _ W). apply elem_of_app in Hx as [Hx|[_ Hx]%list_elem_of_filter]; apply elem_of_app; auto.
        + split; [|apply (wf_conns _ _ _ W), elem_of_app; by right].
          intros [Hx|[? _]%list_elem_of_filter]%elem_of_app; [|done].
          pose proof (wf_users _ _ _ W) as Hnd. apply NoDup_app in Hnd as (_ & H2 & _). by apply (H2 j). }
    destruct (request_good _ _ _ _ E3 don seen W2 Hk) as (W3 & Hn3 & Hc3); [rewrite Hr; lia|].
    rewrite Hr in Hc3. split_and!; [done|lia|lia..].
  - destruct (error_wf _ _ _ _ _ _ W1 ltac:(cbn; unfold bytes in Hb; lia) E) as (W' & Hby & Hc' & _ & _ & _ & Hn).
    split_and!; [done|cbn in Hn; lia|cbn in Hc'; lia..].
Qed.

(** What happens to a client: methods are called, the pool answers, the HTTP exchanges go on.  [room]
    is whether the pool has room for a connection that is given back. *)
Inductive operation :=
  | Call (method : string) (params : option JsonNode)
  | GotConnection (call : nat) (conn : option (EvdHttpConnection + nat))
  | WriteDone (room : bool) (k : nat) (n : option Z)
  | InputReady (room : bool) (k : nat) (a : BufferedInput.base_answer)
  | RunIdle (room : bool) (i : nat)
  | Hangup (room : bool) (k : nat).

Definition exec (o : operation) s : option (client * list effect) :=
  match o with
  | Call method params => evd_jsonrpc_http_client_call_method s method params
  | GotConnection n conn =>
      if bool_decide (n ∈ requested s) &&
         (match conn with Some (inr k) => bool_decide (k ∈ recycled s) | _ => true end)
      then on_connection s n conn else None
  | WriteDone room k n => write_done room s k n
  | InputReady room k a => input_ready room s k a
  | RunIdle room i => run_idle room s i
  | Hangup room k => hangup room s k
  end.

Fixpoint run (ops : list operation) s : option (client * list effect) :=
  match ops with
  | [] => Some (s, [])
  | o :: ops => '(s, e1) ← exec o s; '(s, e2) ← run ops s; Some (s, e1 ++ e2)
  end.

Definition calls_made (ops : list operation) : nat := length (omap (λ o, match o with Call m _ => Some m | _ => None end) ops).

Lemma http_exec_good o s s' effs :
  exec o s = Some (s', effs) → good (match o with Call _ _ => 1 | _ => 0 end) s s' effs.
Proof.
  destruct o as [m ps|n conn|room k n|room k a|room i|room k]; cbn [exec].
  - apply call_good.
  - destruct (bool_decide (n ∈ requested s)); cbn [andb]; [|done]. destruct conn as [[c|k]|]; try by apply on_connection_good.
    case_bool_decide; [|done]. by apply on_connection_good.
  - unfold write_done. destruct (conns s !! k) as [c|]; [|done]. run_bind.
    destruct (evd_http_connection_on_write_request_headers c n) as [c' evs]. apply good_conn.
  - unfold input_ready. destruct (conns s !! k) as [c|]; [|done]. run_bind.
    destruct (run_input c a) as [[c' evs]|]; [|done]. run_bind. apply good_conn.
  - unfold run_idle. destruct (idle s !! i) as [[[[k cb] n] a]|] eqn:Hi; [|done]. run_bind.
    apply exchange_good. by eapply users_idle.
  - unfold hangup. destruct (conns s !! k) as [c|]; [|done]. run_bind.
    destruct (g_io_stream_close _) as [[c' evs]|]; [|done]. run_bind. apply good_conn.
Qed.

Lemma run_exec_good ops : ∀ s s' effs, run ops s = Some (s', effs) → good (calls_made ops) s s' effs.
Proof.
  induction ops as [|o ops IH]; intros s s' effs; cbn [run]; [intros [= <- <-]; apply http_good_refl|].
  destruct (exec o s) as [[s1 e1]|] eqn:E1; [|done]. run_bind.
  destruct (run ops s1) as [[s2 e2]|] eqn:E2; [|done]. run_bind. intros [= <- <-].
  apply http_exec_good in E1. apply IH in E2. replace (calls_made (o :: ops)) with (match o with Call _ _ => 1 | _ => 0 end + calls_made ops)%nat
    by by destruct o. by eapply http_good_trans.
Qed.

Lemma new_client_wf url s addr : evd_jsonrpc_http_client_new url = Some (s, addr) → wf [] [] s ∧ invocation_counter (rpc s) = 0 ∧ next_call s = 0%nat.
Proof.
  unfold evd_jsonrpc_http_client_new, evd_jsonrpc_init. destruct JsonFilter.evd_json_filter_init as [f|]; [|done]. run_bind.
  destruct (uri _) as [u|]; [|done]. run_bind. intros [= <- _]. split; [|done].
  set (s := mkClient _ _ _ _ _ _ _ _ _ _ _).
  assert ((users s).*1 ++ recycled s = []) as Hu by (unfold users; cbn [awaiting s]; by rewrite map_to_list_empty).
  assert (∀ k d, invocations (rpc s) !! k = Some d → False) as Hi by (intros k d; change (invocations (rpc s)) with (∅ : gmap string InvocationData); by rewrite lookup_empty).
  split; [split; [done|by intros k d ?%Hi]|done| |by intros k d n ?%Hi|rewrite Hu; apply NoDup_nil_2|].
  - unfold pending_of. change (invocations (rpc s)) with (∅ : gmap string InvocationData). by rewrite map_to_list_empty.
  - intros k. rewrite Hu. by intros ?%not_elem_of_nil.
Qed.

(** Over every run of the HTTP client each call of a method is completed at most once; one that is
    not completed waits for the pool or for an HTTP exchange, or its response came and did not answer
    it. *)
Example http_calls_accounted url s addr ops s' effs :
  evd_jsonrpc_http_client_new url = Some (s, addr) → run ops s = Some (s', effs) →
  Z.of_nat (calls_made ops) + bytes effs < ID_RANGE →
  completed effs ++ pending (rpc s') ≡ₚ seq 0 (calls_made ops) ∧
  ∀ n, n ∈ pending (rpc s') → n ∈ active s' ∨ n ∈ responses effs.
Proof.
  intros (W & Hc & Hn)%new_client_wf E Hb. destruct (run_exec_good _ _ _ _ E [] [] W) as (W' & Hn' & _); [lia|].
  rewrite Hn in Hn'. cbn in Hn'. split; [rewrite <-Hn'; apply W'|].
  intros n (k & d & Hk & Hd)%elem_of_pending. by destruct (wf_pending _ _ _ W' k d n Hk Hd) as [_ ?].
Qed.

End Client.

(** ** The server *)

Section Server.
Context `{Soup} `{WebService.Regex} `{JsonGlib}.
Implicit Types s : server.

(** The invocations made, with their connections. *)
Definition called (effs : list server_effect) : list (Z * nat) :=
  omap (λ e, match e with MethodCallCb _ _ id k => Some (id, k) | _ => None end) effs.

Definition calls_in (effs : list Jsonrpc.effect) : list (Z * option context_t) :=
  omap (λ e, match e with MethodCall _ _ _ id ctx => Some (id, ctx) | _ => None end) effs.

(** What an endpoint with a callback does with the messages of a context: it gives numbers to the calls
    it passes on, and the entries it makes are theirs. *)
Definition serves (ctx : option context_t) (r r' : EvdJsonrpcPrivate) (effs : list Jsonrpc.effect) : Prop :=
  keyed r → invocation_counter r + Z.of_nat (length (calls_in effs)) < ID_RANGE → context r = ctx →
  is_Some (method_call_cb r) →
  keyed r' ∧ invocation_counter r' = invocation_counter r + Z.of_nat (length (calls_in effs)) ∧ context r' = ctx ∧
  method_call_cb r' = method_call_cb r ∧ send_cb r' = send_cb r ∧
  (∀ k d, invocations r' !! k = Some d → invocations r !! k = Some d ∨
     ∃ id, k = id_string id ∧ inv_context d = ctx ∧ (id, ctx) ∈ calls_in effs) ∧
  calls_in effs = (λ i, (i, ctx)) <$> seqZ (invocation_counter r + 1) (Z.of_nat (length (calls_in effs))).

Lemma calls_in_app e1 e2 : calls_in (e1 ++ e2) = calls_in e1 ++ calls_in e2.
Proof. apply omap_app. Qed.

Lemma serves_trans ctx r1 r2 r3 e1 e2 : serves ctx r1 r2 e1 → serves ctx r2 r3 e2 → serves ctx r1 r3 (e1 ++ e2).
Proof.
  intros S1 S2 K Hc Hx Hm. rewrite calls_in_app, length_app in Hc |- *.
  destruct S1 as (K1 & C1 & X1 & M1 & A1 & I1 & O1); [done|lia|done..|].
  destruct S2 as (K2 & C2 & X2 & M2 & A2 & I2 & O2); [done|lia|done|congruence|].
  split_and!; [done|lia|done|congruence|congruence| |].
  - intros k d [Hk|(id & ? & ? & ?)]%I2.
    + apply I1 in Hk as [?|(id & ? & ? & ?)]; [by left|right]. exists id. split_and!; try done. apply elem_of_app. by left.
    + right. exists id. split_and!; try done. apply elem_of_app. by right.
  - rewrite Nat2Z.inj_add, seqZ_app, fmap_app by lia. rewrite <-O1. f_equal. rewrite O2 at 1. rewrite C1. by do 2 f_equal; lia.
Qed.

Lemma serves_nothing ctx r r' effs :
  calls_in effs = [] → invocation_counter r' = invocation_counter r → context r' = context r →
  method_call_cb r' = method_call_cb r → send_cb r' = send_cb r →
  (∀ k d, invocations r' !! k = Some d → invocations r !! k = Some d) → serves ctx r r' effs.
Proof.
  intros He Hc Hx Hm Ha Hi [K0 K1] _ E Hcb. rewrite He. unfold keyed. rewrite Hc. split_and!; try done; try (cbn; lia).
  - intros k d Hk%Hi. by eapply K1.
  - congruence.
  - intros k d Hk%Hi. by left.
Qed.

Lemma packet_serves ctx r packet r' effs : evd_jsonrpc_on_json_packet r packet = Some (r', effs) → serves ctx r r' effs.
Proof.
  unfold evd_jsonrpc_on_json_packet. destruct (json_parser_load_from_data packet) as [root|]; [|done].
  run_bind. destruct root as [| | | |obj]; try (intros [= <- <-]; by apply serves_nothing).
  destruct (json_object_get_member obj "id") as [id|] eqn:Hid; [|intros [= <- <-]; by apply serves_nothing].
  destruct (_ && _).
  { unfold evd_jsonrpc_on_method_result. destruct (json_object_get_member obj "id" ≫= json_node_get_string) as [i|]; [|done].
    run_bind. destruct (invocations r !! i) as [d|] eqn:Hd; [|intros [= <- <-]; by apply serves_nothing].
    destruct (json_object_get_member obj "result"); [|done]. destruct (json_object_get_member obj "error"); [|done].
    run_bind. intros [= <- <-]. apply serves_nothing; try done; [by destruct (result d)|].
    cbn. by intros k d' [_ ?]%lookup_delete_Some. }
  destruct (_ && _); [|intros [= <- <-]; by apply serves_nothing].
  destruct (negb _).
  - intros [= E]. revert E. unfold evd_jsonrpc_on_method_called.
    destruct (json_object_get_member obj "method"); [|intros [= <- <-]; by apply serves_nothing].
    destruct (json_object_get_member obj "params"); [|intros [= <- <-]; by apply serves_nothing].
    destruct (json_node_get_string _); [|intros [= <- <-]; by apply serves_nothing].
    do 2 (destruct (negb _); [intros [= <- <-]; by apply serves_nothing|]). intros [= <- <-] K Hc Hx [cb Hcb].
    revert Hc. cbn [method_call_cb set_invocations set_counter invocation_counter]. rewrite Hcb. cbn [calls_in omap list_omap length].
    intros Hc. set (d := mkInvocation None _ _).
    destruct (spends_insert r d [] eq_refl K ltac:(lia)) as (K' & C' & A' & M' & _).
    assert (u32 (invocation_counter r + 1) = invocation_counter r + 1) as Hu.
    { destruct K as [K0 _]. unfold ID_RANGE in Hc. unfold u32. apply Z.mod_small. lia. }
    split_and!; [exact K'|cbn; rewrite Hu; lia|done|cbn; congruence|done| |by cbn; rewrite Hu, Hx].
    cbn. intros k d' [[<- <-]|[_ Hk]]%lookup_insert_Some; [right|by left]. exists (invocation_counter r + 1). rewrite Hu.
    split_and!; [done|exact Hx|subst ctx; by left].
  - intros [= <- <-]. apply serves_nothing; try done. unfold evd_jsonrpc_on_notification. by destruct (notification_cb r).
Qed.

Lemma on_packets_serves ctx evs : ∀ r r' effs, on_packets r evs = Some (r', effs) → serves ctx r r' effs.
Proof.
  induction evs as [|[cb packet d|f d] evs IH]; intros r r' effs; cbn [on_packets];
    [intros [= <- <-]; by apply serves_nothing| |apply IH].
  destruct (evd_jsonrpc_on_json_packet r packet) as [[r1 e1]|] eqn:E1; [|done]. run_bind.
  destruct (on_packets r1 evs) as [[r2 e2]|] eqn:E2; [|done]. run_bind. intros [= <- <-].
  eapply serves_trans; [by eapply packet_serves|by apply IH].
Qed.

Lemma receive_serves r msg ctx r' effs ok :
  evd_jsonrpc_transport_receive r msg ctx 0 = Some (r', effs, ok) →
  keyed r → invocation_counter r + Z.of_nat (length (calls_in effs)) < ID_RANGE → is_Some (method_call_cb r) →
  keyed r' ∧ invocation_counter r' = invocation_counter r + Z.of_nat (length (calls_in effs)) ∧
  method_call_cb r' = method_call_cb r ∧ send_cb r' = send_cb r ∧
  (∀ k d, invocations r' !! k = Some d → invocations r !! k = Some d ∨
     ∃ id, k = id_string id ∧ inv_context d = ctx ∧ (id, ctx) ∈ calls_in effs) ∧
  calls_in effs = (λ i, (i, ctx)) <$> seqZ (invocation_counter r + 1) (Z.of_nat (length (calls_in effs))).
Proof.
  intros E K Hc Hm. revert E Hc. unfold evd_jsonrpc_transport_receive.
  destruct (_ =? 0).
  { intros [= <- <- <-] _. cbn [calls_in omap list_omap length]. split_and!; try done; [lia|by left]. }
  destruct (JsonFilter.evd_json_filter_feed_len _ _) as [[[f evs] err]|]; [|done]. run_bind.
  destruct (on_packets _ evs) as [[r1 e1]|] eqn:E1; [|done]. run_bind.
  destruct (match err with Some _ => _ | None => _ end) as [[r2 e2] ok2] eqn:E2. intros [= <- <- <-] Hc.
  rewrite calls_in_app, length_app in Hc |- *.
  destruct (on_packets_serves ctx _ _ _ _ E1) as (K1 & C1 & X1 & M1 & A1 & I1 & O1); [exact K|cbn; lia|done|done|].
  assert (keyed r2 ∧ invocation_counter r2 = invocation_counter r1 ∧ method_call_cb r2 = method_call_cb r1 ∧ send_cb r2 = send_cb r1 ∧
    (∀ k d, invocations r2 !! k = Some d → invocations r1 !! k = Some d) ∧ calls_in e2 = []) as (K2 & C2 & M2 & A2 & I2 & Z2).
  { destruct err; [|by simplify_eq/=]. revert E2. unfold evd_jsonrpc_transport_error. cbn [invocations set_filter].
    destruct (invocations r1 !! id_string 0) as [d|]; intros; simplify_eq/=; [|by split_and!].
    cbn. split_and!; try done; [|by intros k d' [_ ?]%lookup_delete_Some|by destruct (result d)].
    destruct K1 as [? K1]. split; [done|]. cbn. intros k d' [_ Hk]%lookup_delete_Some. by eapply K1. }
  rewrite Z2. cbn [length set_context invocation_counter] in *. rewrite app_nil_r.
  split_and!; [exact K2|lia|exact (eq_trans M2 M1)|exact (eq_trans A2 A1)| |by rewrite Nat.add_0_r]. cbn. intros k d [Hk|?]%I2%I1; [by left|by right].
Qed.

(** What the network, the main loop and the user do, with the texts of the dates and of the error. *)
Inductive server_op :=
  | NewConn (k : nat) (c : EvdHttpConnection)
  | RequestHeaders (k : nat) (request : EvdHttpRequest)
  | ServerInput (dates : list Z * list Z) (err : list Z) (k : nat) (a : BufferedInput.base_answer)
  | ServerIdle (dates : list Z * list Z) (err : list Z) (i : nat)
  | Respond (dates : list Z * list Z) (id : Z) (result : JsonNode)
  | RespondError (dates : list Z * list Z) (id : Z) (json_error : JsonNode).

Definition server_exec (o : server_op) s : option (server * list server_effect) :=
  match o with
  | NewConn k c => Some (with_s_conn k c s, [])
  | RequestHeaders k request => on_request_headers s k request
  | ServerInput dates err k a => server_input_ready dates err s k a
  | ServerIdle dates err i => server_run_idle dates err s i
  | Respond dates id v => fst <$> evd_jsonrpc_http_server_respond dates s id v
  | RespondError dates id e => fst <$> evd_jsonrpc_http_server_respond_error dates s id e
  end.

(** A run, with what each operation did. *)
Fixpoint server_run (ops : list server_op) s : option (server * list (server_op * list server_effect)) :=
  match ops with
  | [] => Some (s, [])
  | o :: ops => '(s, e) ← server_exec o s; '(s, tr) ← server_run ops s; Some (s, (o, e) :: tr)
  end.

(** The answers the user gave that went out, with their connections. *)
Definition answers_of (o : server_op) (effs : list server_effect) : list (Z * nat) :=
  match o with
  | Respond _ id _ | RespondError _ id _ =>
      omap (λ e, match e with Answered k _ _ => Some (id, k) | _ => None end) effs
  | _ => []
  end.
Definition answers (tr : list (server_op * list server_effect)) : list (Z * nat) := tr ≫= λ '(o, e), answers_of o e.
Definition all_effects (tr : list (server_op * list server_effect)) : list server_effect := tr ≫= snd.

Record server_wf (cal ans : list (Z * nat)) s : Prop := mkServerWf {
  swf_keyed : keyed (s_rpc s);
  swf_send : send_cb (s_rpc s) = Some send_callback;
  swf_method : is_Some (method_call_cb (s_rpc s));
  swf_callback : has_callback s = true;
  swf_calls : cal.*1 = seqZ 1 (invocation_counter (s_rpc s));
  swf_answers : NoDup ans.*1;
  swf_sub : ans ⊆ cal;
  swf_entries key d : invocations (s_rpc s) !! key = Some d →
    ∃ id k, key = id_string id ∧ inv_context d = Some (Other k) ∧ (id, k) ∈ cal ∧ (id ∉ ans.*1)
}.

Lemma http_called_app e1 e2 : called (e1 ++ e2) = called e1 ++ called e2.
Proof. apply omap_app. Qed.

Lemma swf_rpc cal ans s s' :
  server_wf cal ans s → s_rpc s' = s_rpc s → has_callback s' = has_callback s → server_wf cal ans s'.
Proof. intros [] E1 E2. split; rewrite ?E1, ?E2; done. Qed.

Lemma respond_rpc s k code content s' e ok :
  respond s k code content = Some (s', e, ok) →
  s_rpc s' = s_rpc s ∧ has_callback s' = has_callback s ∧ e = [Answered k code content].
Proof.
  unfold respond. destruct (s_conns s !! k) as [c|]; [|done]. run_bind.
  destruct (WebService.evd_web_service_respond_internal _ _ _ _ _ _) as [[w [|]]|]; try done; run_bind; by intros [= <- <- <-].
Qed.

(** The calls go to the user. *)
Lemma server_effects_calls dates effs : ∀ s s' e,
  sends_nothing effs → has_callback s = true → server_effects dates s effs = Some (s', e) →
  s' = s ∧ calls_in effs = (λ p, (p.1, Some (Other p.2))) <$> called e ∧ length e = length (called e).
Proof.
  induction effs as [|eff effs IH]; intros s s' e Hs Hh; cbn [server_effects]; [by intros [= <- <-]|].
  apply Forall_cons in Hs as [He Hs]. destruct (server_effect_of dates s eff) as [[s1 e1]|] eqn:E1; [|done]. run_bind.
  destruct (server_effects dates s1 effs) as [[s2 e2]|] eqn:E2; [|done]. run_bind. intros [= <- <-].
  assert (s1 = s ∧ calls_in [eff] = (λ p, (p.1, Some (Other p.2))) <$> called e1 ∧ length e1 = length (called e1)) as (-> & C1 & L1).
  { destruct eff as [| |cb name params id [[|k]|]| |]; try done; try by injection E1 as <- <-.
    revert E1. cbn [server_effect_of]. unfold jsonrpc_on_method_call. rewrite Hh. by intros [= <- <-]. }
  destruct (IH _ _ _ Hs Hh E2) as (-> & C2 & L2). change (eff :: effs) with ([eff] ++ effs).
  rewrite calls_in_app, http_called_app, !length_app, fmap_app, C1, C2. split_and!; done || lia.
Qed.

Lemma server_content_wf dates err s k a s' e cal ans :
  server_on_content_read dates err s k a = Some (s', e) → server_wf cal ans s →
  invocation_counter (s_rpc s) + Z.of_nat (length e) < ID_RANGE →
  server_wf (cal ++ called e) ans s' ∧ invocation_counter (s_rpc s') <= invocation_counter (s_rpc s) + Z.of_nat (length e).
Proof.
  unfold server_on_content_read. intros E W Hb. revert E. destruct (s_conns s !! k) as [c|]; [|done]. run_bind.
  destruct (evd_http_connection_read_all_content_finish c a) as [c' content]. set (s0 := with_s_conn k c' s).
  destruct content as [[content z]|].
  2:{ intros [= <- <-]. rewrite app_nil_r. split; [by apply (swf_rpc _ _ s)|cbn; lia]. }
  destruct (evd_jsonrpc_transport_receive (s_rpc s0) content (Some (Other k)) 0) as [[[r effs] ok]|] eqn:E1; [|done]. run_bind.
  destruct (server_effects dates (with_s_rpc r s0) effs) as [[s1 e1]|] eqn:E2; [|done]. run_bind. intros E3.
  destruct (server_effects_calls _ _ (with_s_rpc r s0) _ _ (receive_sends _ _ _ _ _ _ _ E1) (swf_callback _ _ _ W) E2) as (-> & Hc & Hl).
  assert (∃ e2, e = e1 ++ e2 ∧ called e2 = [] ∧ s_rpc s' = r ∧ has_callback s' = has_callback s) as (e2 & -> & He2 & Hr & Hh).
  { destruct ok; [injection E3 as <- <-; exists []; by rewrite app_nil_r|].
    destruct (respond (with_s_rpc r s0) k _ err) as [[[s2 e2] ok2]|] eqn:E4; [|done]. revert E3. run_bind. intros [= <- <-].
    apply respond_rpc in E4 as (-> & -> & ->). by eexists. }
  clear E3. rewrite length_app in Hb |- *. rewrite http_called_app, He2, app_nil_r.
  destruct (receive_serves _ _ _ _ _ _ E1) as (K & C & M & A & I & O); [apply W| |apply W|].
  { rewrite Hc, length_fmap. change (s_rpc s0) with (s_rpc s). lia. }
  change (s_rpc s0) with (s_rpc s) in *. rewrite Hc, length_fmap in C, O. rewrite Hr. split; [|lia].
  assert ((called e1).*1 = seqZ (invocation_counter (s_rpc s) + 1) (Z.of_nat (length (called e1)))) as Hn.
  { apply (f_equal (fmap fst)) in O. rewrite <-!list_fmap_compose in O. exact (eq_trans O (list_fmap_id _)). }
  split; rewrite ?Hr, ?Hh; try apply W; try done.
  - by rewrite A; apply W.
  - rewrite M. apply W.
  - destruct W as [[K0 _] _ _ _ Wc _ _ _]. rewrite fmap_app, Wc, Hn, C, seqZ_app by lia. by rewrite Z.add_comm.
  - intros x Hx. apply elem_of_app. left. by apply W.
  - intros key d [Hk|(id & -> & Hd & Hin)]%I.
    + destruct (swf_entries _ _ _ W _ _ Hk) as (id & k' & ? & ? & ? & ?). exists id, k'. split_and!; try done. apply elem_of_app. by left.
    + rewrite Hc in Hin. apply list_elem_of_fmap in Hin as ([id' k'] & [= -> ->] & Hin). exists id', k'.
      split_and!; [done|done|apply elem_of_app; by right|]. intros Ha.
      assert (id' ∈ cal.*1) as Hcal. { apply list_elem_of_fmap in Ha as ([i j] & -> & Ha). apply list_elem_of_fmap. exists (i, j). split; [done|by apply W]. }
      rewrite (swf_calls _ _ _ W), elem_of_seqZ in Hcal.
      apply (list_elem_of_fmap_2 fst) in Hin. rewrite Hn, elem_of_seqZ in Hin. cbn in Hin. lia.
Qed.

(** The answer to an invocation: its entry goes, and the message to its connection. *)
Lemma respond_full_takes r id res err r' effs ok :
  send_cb r = Some send_callback → evd_jsonrpc_respond_full r id res err true = (r', effs, ok) →
  (r' = r ∧ effs = []) ∨
  ∃ d ctx msg, 0 < id ∧ invocations r !! id_string id = Some d ∧ inv_context d = Some ctx ∧
    r' = set_invocations (delete (id_string id) (invocations r)) r ∧
    effs = [match ctx with Peer p => SendText p msg | _ => SendCb send_callback msg (Some ctx) id end].
Proof.
  intros Hs. unfold evd_jsonrpc_respond_full. destruct (Z.ltb_spec 0 id); cbn [negb]; [|intros [= <- <- <-]; by left].
  destruct (invocations r !! id_string id) as [d|] eqn:Hd; [|intros [= <- <- <-]; by left].
  destruct (inv_context d) as [ctx|] eqn:Hc; [|intros [= <- <- <-]; by left].
  unfold evd_jsonrpc_transport_write. cbn [send_cb set_invocations]. rewrite Hs.
  intros E. right. exists d, ctx. destruct ctx; injection E as <- <- _; by eexists.
Qed.

Lemma transport_error_deletes r id :
  (evd_jsonrpc_transport_error r id).1 = r ∨
  (evd_jsonrpc_transport_error r id).1 = set_invocations (delete (id_string id) (invocations r)) r.
Proof. unfold evd_jsonrpc_transport_error. destruct (invocations r !! id_string id); [by right|by left]. Qed.

Lemma server_on_send_rpc dates s msg k id s' e :
  server_on_send dates s msg k id = Some (s', e) →
  e = [Answered k SOUP_STATUS_OK (c_string msg)] ∧ has_callback s' = has_callback s ∧
  (s_rpc s' = s_rpc s ∨ s_rpc s' = set_invocations (delete (id_string id) (invocations (s_rpc s))) (s_rpc s)).
Proof.
  unfold server_on_send.
  destruct (respond _ k SOUP_STATUS_OK (c_string msg)) as [[[s2 e2] ok2]|] eqn:E2; [|done]. run_bind.
  apply respond_rpc in E2 as (R2 & H2 & ->).
  destruct ok2; intros [= <- <-]; (split; [done|]); (split; [exact H2|]); [by left|].
  cbn [s_rpc with_s_rpc]. rewrite R2. apply transport_error_deletes.
Qed.

(** Entries may go. *)
Lemma swf_delete cal ans s s' key :
  server_wf cal ans s → has_callback s' = has_callback s →
  s_rpc s' = set_invocations (delete key (invocations (s_rpc s))) (s_rpc s) → server_wf cal ans s'.
Proof.
  intros W Hh Hr. split; rewrite ?Hr, ?Hh; try apply W.
  - destruct (swf_keyed _ _ _ W) as [K0 K1]. split; [done|]. cbn. intros k d [_ Hk]%lookup_delete_Some. by eapply K1.
  - cbn. intros k d [_ Hk]%lookup_delete_Some. by eapply W.
Qed.

(** What goes out with an answer: once, to the connection of its call. *)
Lemma answer_wf dates s id res err s' e ok cal ans :
  server_answer dates s (evd_jsonrpc_respond_full (s_rpc s) id res err true) = Some (s', e, ok) → server_wf cal ans s →
  ∃ sent, omap (λ e, match e with Answered k _ _ => Some (id, k) | _ => None end) e = sent ∧ called e = [] ∧
    server_wf cal (ans ++ sent) s' ∧ invocation_counter (s_rpc s') = invocation_counter (s_rpc s).
Proof.
  intros E W. revert E. destruct (evd_jsonrpc_respond_full (s_rpc s) id res err true) as [[r effs] [ok' x]] eqn:Er. cbn [server_answer].
  destruct (server_effects dates (with_s_rpc r s) effs) as [[s1 e1]|] eqn:E1; [|done]. run_bind. intros [= <- <- _].
  apply respond_full_takes in Er as [[-> ->]|(d & ctx & msg & Hpos & Hd & Hc & -> & ->)]; [| |apply W].
  { injection E1 as <- <-. exists []. rewrite app_nil_r. split_and!; try done. by apply (swf_rpc _ _ s). }
  destruct (swf_entries _ _ _ W _ _ Hd) as (id' & k & Hkey & Hctx & Hin & Hna). assert (ctx = Other k) as -> by congruence.
  assert (1 <= id' ∧ id = id') as [_ <-].
  { assert (id' ∈ cal.*1) as Hcal by (apply list_elem_of_fmap; by exists (id', k)).
    rewrite (swf_calls _ _ _ W), elem_of_seqZ in Hcal. split; [lia|]. by apply id_string_inj; [lia..|]. }
  set (s0 := with_s_rpc _ s) in E1. revert E1. cbn [server_effects server_effect_of].
  destruct (server_on_send dates s0 msg k id) as [[s2 e2]|] eqn:E2; [|done]. run_bind. intros [= <- <-].
  apply server_on_send_rpc in E2 as (-> & H2 & R2).
  exists [(id, k)]. split_and!; [done|done| |by destruct R2 as [->| ->]].
  assert (server_wf cal (ans ++ [(id, k)]) s0) as W0.
  { split; try apply W.
    - destruct (swf_keyed _ _ _ W) as [K0 K1]. split; [done|]. cbn. intros k' d' [_ Hk]%lookup_delete_Some. by eapply K1.
    - rewrite fmap_app. apply NoDup_app. split_and!; [apply W|by intros y Hy ->%list_elem_of_singleton|apply NoDup_singleton].
    - intros y [Hy| ->%list_elem_of_singleton]%elem_of_app; [by apply W|done].
    - cbn. intros k' d' [Hne Hk]%lookup_delete_Some. destruct (swf_entries _ _ _ W _ _ Hk) as (i & j & -> & ? & ? & Hi).
      exists i, j. split_and!; try done. rewrite fmap_app. intros [?| ->%list_elem_of_singleton]%elem_of_app; done. }
  destruct R2 as [R2|R2]; [by apply (swf_rpc _ _ s0)|by apply (swf_delete _ _ s0 _ (id_string id))].
Qed.

Lemma headers_wf s k request s' e cal ans :
  on_request_headers s k request = Some (s', e) → server_wf cal ans s →
  server_wf cal ans s' ∧ called e = [] ∧ s_rpc s' = s_rpc s.
Proof.
  unfold on_request_headers. intros E W. revert E. case_bool_decide.
  - destruct (s_conns s !! k) as [c|]; [|done]. run_bind.
    destruct (evd_http_connection_read_all_content c) as [c' evs]. intros [= <- <-].
    split_and!; [|done|by destruct (ending evs)]. by apply (swf_rpc _ _ s); [|by destruct (ending evs)..].
  - destruct (respond s k _ must_be_post) as [[[s1 e1] ok]|] eqn:E1; [|done]. run_bind. intros [= <- <-].
    apply respond_rpc in E1 as (R & Hh & ->). split_and!; try done. by apply (swf_rpc _ _ s).
Qed.

Lemma server_exec_wf o s s' e cal ans :
  server_exec o s = Some (s', e) → server_wf cal ans s →
  invocation_counter (s_rpc s) + Z.of_nat (length e) < ID_RANGE →
  server_wf (cal ++ called e) (ans ++ answers_of o e) s' ∧
  invocation_counter (s_rpc s') <= invocation_counter (s_rpc s) + Z.of_nat (length e).
Proof.
  intros E W Hb. destruct o as [k c|k request|dates err k a|dates err i|dates id v|dates id v]; cbn [server_exec answers_of] in E |- *;
    rewrite ?(app_nil_r ans).
  - injection E as <- <-. rewrite app_nil_r. split; [by apply (swf_rpc _ _ s)|cbn; lia].
  - destruct (headers_wf _ _ _ _ _ _ _ E W) as (W' & -> & ->). rewrite app_nil_r. split; [done|lia].
  - revert E. unfold server_input_ready. destruct (s_conns s !! k) as [c|]; [|done]. run_bind.
    destruct (run_input c a) as [[c' evs]|]; [|done]. run_bind. set (s0 := with_s_conn k c' s).
    assert (server_wf cal ans s0) as W0 by by apply (swf_rpc _ _ s).
    destruct (ending evs) as [x|]; [|intros [= <- <-]; rewrite app_nil_r; split; [done|cbn; lia]].
    destruct (decide _); [|intros [= <- <-]; rewrite app_nil_r; split; [done|cbn; lia]].
    intros E. apply (server_content_wf _ _ _ _ _ _ _ _ _ E); [by apply (swf_rpc _ _ s0)|done].
  - revert E. unfold server_run_idle. destruct (s_idle s !! i) as [[k a]|]; [|done]. run_bind.
    intros E. apply (server_content_wf _ _ _ _ _ _ _ _ _ E); [by apply (swf_rpc _ _ s)|done].
  - unfold evd_jsonrpc_http_server_respond in E.
    destruct (server_answer _ _ _) as [[[s1 e1] ok]|] eqn:E1; [|done]. injection E as <- <-.
    destruct (answer_wf _ _ _ _ _ _ _ _ _ _ E1 W) as (sent & -> & -> & W' & ->). rewrite app_nil_r. split; [done|lia].
  - unfold evd_jsonrpc_http_server_respond_error in E.
    destruct (server_answer _ _ _) as [[[s1 e1] ok]|] eqn:E1; [|done]. injection E as <- <-.
    destruct (answer_wf _ _ _ _ _ _ _ _ _ _ E1 W) as (sent & -> & -> & W' & ->). rewrite app_nil_r. split; [done|lia].
Qed.

Lemma server_run_wf ops : ∀ s s' tr cal ans,
  server_run ops s = Some (s', tr) → server_wf cal ans s →
  invocation_counter (s_rpc s) + Z.of_nat (length (all_effects tr)) < ID_RANGE →
  server_wf (cal ++ called (all_effects tr)) (ans ++ answers tr) s'.
Proof.
  induction ops as [|o ops IH]; intros s s' tr cal ans; cbn [server_run].
  { intros [= <- <-] W _. by rewrite !app_nil_r. }
  destruct (server_exec o s) as [[s1 e]|] eqn:E1; [|done]. run_bind.
  destruct (server_run ops s1) as [[s2 tr2]|] eqn:E2; [|done]. run_bind. intros [= <- <-] W.
  change (all_effects ((o, e) :: tr2)) with (e ++ all_effects tr2). change (answers ((o, e) :: tr2)) with (answers_of o e ++ answers tr2).
  rewrite length_app, http_called_app, !app_assoc. intros Hb.
  destruct (server_exec_wf _ _ _ _ _ _ E1 W) as [W1 Hc]; [lia|]. apply (IH _ _ _ _ _ E2 W1). lia.
Qed.

(** A server as [evd_jsonrpc_http_server_new] and a callback for methods leave it. *)
Lemma server_init_wf s0 :
  evd_jsonrpc_http_server_init = Some s0 →
  let s := evd_jsonrpc_http_server_set_method_call_callback s0 true in
  server_wf [] [] s ∧ invocation_counter (s_rpc s) = 0.
Proof.
  unfold evd_jsonrpc_http_server_init, evd_jsonrpc_init. destruct JsonFilter.evd_json_filter_init as [f|]; [|done].
  run_bind. intros [= <-]. cbn zeta. split; [|done].
  split; [split; [done|]|done|by eexists|done|done|apply NoDup_nil_2|done|]; intros k d; cbn; by rewrite lookup_empty.
Qed.

(** Over every run of the HTTP server with a callback for methods, the calls it gives the user are
    numbered 1, 2, 3 and on; of the answers the user gives, each goes out at most once for its call, and
    on the connection the call came from. *)
Example http_calls_answered_once s0 ops s' tr :
  evd_jsonrpc_http_server_init = Some s0 →
  server_run ops (evd_jsonrpc_http_server_set_method_call_callback s0 true) = Some (s', tr) →
  Z.of_nat (length (all_effects tr)) < ID_RANGE →
  (called (all_effects tr)).*1 = seqZ 1 (Z.of_nat (length (called (all_effects tr)))) ∧
  NoDup (answers tr).*1 ∧ answers tr ⊆ called (all_effects tr).
Proof.
  intros [W Hc]%server_init_wf E Hb. apply (server_run_wf _ _ _ _ _ _ E) in W as W'; [|lia]. cbn [app] in W'.
  split_and!; [|apply W'..]. rewrite (swf_calls _ _ _ W'). f_equal.
  pose proof (f_equal length (swf_calls _ _ _ W')) as Hl. rewrite length_fmap, length_seqZ in Hl.
  destruct (swf_keyed _ _ _ W') as [K0 _]. lia.
Qed.

End Server.

(** ** A call through both *)

Section RoundTrip.
Context `{Soup} `{WebService.Regex} `{JsonGlib}.
Implicit Types (s : client) (t : server).

Definition request_node s (name : string) (params : option JsonNode) : JsonNode :=
  message_node true name (Some (JsonString (id_string (next_id (rpc s))))) params None.
Definition answer_node s (answer : JsonNode + JsonNode) : JsonNode :=
  response_node (id_string (next_id (rpc s))) answer.
Abbreviation text := json_generator_to_data.

Definition server_reply (dates : list Z * list Z) t (id : Z) (answer : JsonNode + JsonNode) :=
  match answer with
  | inl v => evd_jsonrpc_http_server_respond dates t id v
  | inr e => evd_jsonrpc_http_server_respond_error dates t id e
  end.

(** The call: its request waits for a connection. *)
Lemma client_call s name params :
  send_cb (rpc s) = Some send_callback → wire_ok (request_node s name params) →
  ∃ s1, evd_jsonrpc_http_client_call_method s name params = Some (s1, [GetConnection (next_call s)]) ∧
    calls s1 !! next_call s = Some (mkData (Some (text (request_node s name params))) (next_id (rpc s))) ∧
    rpc s1 = set_invocations (<[id_string (next_id (rpc s)) := mkInvocation (Some (next_call s)) None (Some (Other (next_call s)))]>
               (invocations (rpc s))) (set_counter (next_id (rpc s)) (rpc s)).
Proof.
  intros Hs (_ & Hz & _). unfold evd_jsonrpc_http_client_call_method. cbn zeta.
  destruct (evd_jsonrpc_call_method _ _ _ _ _ _) as [r effs] eqn:E. revert E.
  unfold evd_jsonrpc_call_method, evd_jsonrpc_transport_write. cbn [rpc with_calls is_peer negb andb].
  rewrite Hs. cbn [is_null]. cbn [send_cb set_invocations set_counter]. rewrite Hs. intros [= <- <-].
  cbn [rpc_effects]. unfold jsonrpc_on_send. cbn [calls with_rpc with_calls]. rewrite lookup_insert_eq. run_bind.
  eexists. split; [done|]. split; [|done]. cbn [calls with_requested with_calls]. rewrite lookup_insert_eq.
  change (evd_jsonrpc_build_message _ _ _ _ _) with (text (request_node s name params)). by rewrite c_string_id.
Qed.

(** The server gives the call to the user. *)
Lemma server_receives dates err t k c a c' z s name params :
  ready (s_rpc t) → method_call_cb (s_rpc t) = Some method_callback → has_callback t = true →
  JSON_NODE_HOLDS_ARRAY (default (JsonArray []) params) = true → wire_ok (request_node s name params) →
  s_conns t !! k = Some c →
  evd_http_connection_read_all_content_finish c a = (c', Some (text (request_node s name params), z)) →
  ∃ t1 f, server_on_content_read dates err t k a =
      Some (t1, [MethodCallCb name (default (JsonArray []) params) (next_id (s_rpc t)) k]) ∧
    t1 = with_s_rpc (set_context None (set_filter f (set_invocations
      (<[id_string (next_id (s_rpc t)) := mkInvocation None (Some (JsonString (id_string (next_id (rpc s))))) (Some (Other k))]>
         (invocations (s_rpc t))) (set_counter (next_id (s_rpc t)) (set_context (Some (Other k)) (s_rpc t)))))) (with_s_conn k c' t).
Proof.
  intros Hr Hm Hh Hp Hw Hk Hread.
  destruct (receive_message (s_rpc t) _ (Some (Other k)) _ _ Hr Hw (dispatch_request (s_rpc t) _ _ _ _ _ Hw Hp Hm)) as (f & Hrec & _).
  eexists _, f. split; [|reflexivity]. unfold server_on_content_read. rewrite Hk. run_bind. rewrite Hread.
  cbn [s_rpc with_s_conn]. rewrite Hrec. run_bind. cbn [server_effects server_effect_of].
  unfold jsonrpc_on_method_call. cbn [has_callback with_s_rpc with_s_conn]. by rewrite Hh.
Qed.

(** Its answer goes out on the connection. *)
Lemma server_replies dates t id d k c answer rid :
  send_cb (s_rpc t) = Some send_callback → 0 < id → invocations (s_rpc t) !! id_string id = Some d →
  inv_context d = Some (Other k) → remote_id d = Some (JsonString rid) → wire_ok (response_node rid answer) →
  s_conns t !! k = Some c → (∀ r, current_request c = Some r → is_Some (uri r)) →
  ∃ t2, server_reply dates t id answer = Some (t2, [Answered k SOUP_STATUS_OK (text (response_node rid answer))], true).
Proof.
  intros Hs Hid Hd Hctx Hrid (_ & Hz & _) Hk Hu.
  assert (∀ t0 h, s_conns t0 = s_conns t → ∃ t1 ok, respond (with_response_headers h t0) k SOUP_STATUS_OK (text (response_node rid answer)) =
    Some (t1, [Answered k SOUP_STATUS_OK (text (response_node rid answer))], ok)) as Hresp.
  { intros t0 h Ht. unfold respond. cbn [s_conns with_response_headers]. rewrite Ht, Hk. run_bind.
    set (w := WebService.mkWorld _ _ _ _ _ _ _ _).
    destruct (WebServiceSpec.respond_internal_ends (web (with_response_headers h t0)) w SOUP_STATUS_OK
                (Some (response_headers (with_response_headers h t0))) (Some (text (response_node rid answer)))
                (len (text (response_node rid answer))) Hu) as ([w' ok] & E & _).
    rewrite E. run_bind. by do 2 eexists. }
  assert (∀ r n, ∃ t1, server_effects dates (with_s_rpc r t)
      [SendCb send_callback (text (response_node rid answer)) (Some (Other k)) n] =
      Some (t1, [Answered k SOUP_STATUS_OK (text (response_node rid answer))])) as Hsend.
  { intros r n. cbn [server_effects server_effect_of]. unfold server_on_send. rewrite c_string_id by done.
    set (h := soup_message_headers_replace _ (codes "Date") _).
    destruct (Hresp (with_s_rpc r t) h eq_refl) as (t1 & ok & ->). run_bind. destruct ok; run_bind; by eexists. }
  assert ((0 <? id) = true) as Hpos by by apply Z.ltb_lt.
  destruct answer as [v|e]; cbn [server_reply];
    unfold evd_jsonrpc_http_server_respond, evd_jsonrpc_http_server_respond_error, evd_jsonrpc_respond, evd_jsonrpc_respond_error,
      evd_jsonrpc_respond_full; rewrite Hpos, Hd, Hctx; cbn [negb]; unfold evd_jsonrpc_transport_write;
    cbn [send_cb set_invocations]; rewrite Hs, Hrid; cbn [server_answer];
    [change (evd_jsonrpc_build_message _ _ _ _ _) with (text (response_node rid (inl v)))
    |change (evd_jsonrpc_build_message _ _ _ _ _) with (text (response_node rid (inr e)))];
    match goal with |- context [with_s_rpc ?r t] => destruct (Hsend r id) as (t2 & ->) end; run_bind; by eexists.
Qed.

(** The response completes the call. *)
Lemma client_completes room s k n c a c' z cd i d answer :
  ready (rpc s) → invocations (rpc s) !! i = Some d → result d = Some n → calls s !! n = Some cd →
  wire_ok (response_node i answer) → (∀ v, answer = inl v → v ≠ JsonNull) → conns s !! k = Some c →
  evd_http_connection_read_all_content_finish c a = (c', Some (text (response_node i answer), z)) →
  ∃ s', on_content_read room s k n a =
      Some (s', [Content n (text (response_node i answer)); CallCompleted n (completion_of answer)]) ∧
    invocations (rpc s') = delete i (invocations (rpc s)) ∧ calls s' !! n = None.
Proof.
  intros Hr Hd Hn Hcd Hw Hv Hk Hread.
  destruct (receive_message_eq (rpc s) _ (Some (Other n)) (invocation_id cd) Hr Hw) as (f & _ & _ & Hrec).
  rewrite (dispatch_response (rpc s) _ _ _ _ _ Hw Hv Hd Hn) in Hrec.
  unfold on_content_read. rewrite Hcd. run_bind. rewrite Hk. run_bind. rewrite Hread.
  set (s0 := if evd_http_connection_get_keepalive c' then _ else _).
  assert (rpc s0 = rpc s ∧ calls s0 = calls s) as [-> Hc0]
    by (unfold s0, evd_connection_pool_recycle; repeat case_match; done).
  rewrite Hrec. run_bind. cbn [rpc_effects jsonrpc_on_method_call_result]. run_bind.
  eexists. split; [done|]. split; [done|]. cbn. by rewrite lookup_delete_eq.
Qed.

(** C34. A call with its parameters in an array goes through: the request a client with a ready endpoint
    makes of it, read by a server with a ready endpoint as the content of a request, calls the callback
    of the server with the method and the parameters; the answer given to it, an error or a result other
    than null, goes out with status 200 on the connection the request came on; and, read by the client as
    the content of the response to its request, it completes that call with what was given, and frees its
    data.  Both messages are ones that JSON-GLib writes and reads back and the filter takes
    ([wire_ok]), so they are in ASCII. *)
Theorem http_call_roundtrip s t name params answer dates dates' err k c a c' z :
  ready (rpc s) → send_cb (rpc s) = Some send_callback → invocations (rpc s) !! id_string (next_id (rpc s)) = None →
  ready (s_rpc t) → send_cb (s_rpc t) = Some send_callback → method_call_cb (s_rpc t) = Some method_callback →
  has_callback t = true → 0 < next_id (s_rpc t) →
  JSON_NODE_HOLDS_ARRAY (default (JsonArray []) params) = true → (∀ v, answer = inl v → v ≠ JsonNull) →
  wire_ok (request_node s name params) → wire_ok (answer_node s answer) →
  s_conns t !! k = Some c → (∀ r, current_request c' = Some r → is_Some (uri r)) →
  evd_http_connection_read_all_content_finish c a = (c', Some (text (request_node s name params), z)) →
  ∃ s1 t1 t2,
    evd_jsonrpc_http_client_call_method s name params = Some (s1, [GetConnection (next_call s)]) ∧
    buf <$> calls s1 !! next_call s = Some (Some (text (request_node s name params))) ∧
    server_on_content_read dates err t k a =
      Some (t1, [MethodCallCb name (default (JsonArray []) params) (next_id (s_rpc t)) k]) ∧
    server_reply dates' t1 (next_id (s_rpc t)) answer =
      Some (t2, [Answered k SOUP_STATUS_OK (text (answer_node s answer))], true) ∧
    ∀ room s2 kc cc ac cc' zc,
      rpc s2 = rpc s1 → calls s2 !! next_call s = calls s1 !! next_call s → conns s2 !! kc = Some cc →
      evd_http_connection_read_all_content_finish cc ac = (cc', Some (text (answer_node s answer), zc)) →
      ∃ s3, on_content_read room s2 kc (next_call s) ac =
          Some (s3, [Content (next_call s) (text (answer_node s answer)); CallCompleted (next_call s) (completion_of answer)]) ∧
        invocations (rpc s3) = invocations (rpc s) ∧ calls s3 !! next_call s = None.
Proof.
  intros Hr Hs Hi Hrt Hst Hm Hh Hid Hp Hv Hw1 Hw2 Hk Hu Hread.
  destruct (client_call s name params Hs Hw1) as (s1 & E1 & D1 & R1).
  destruct (server_receives dates err t k c a c' z s name params) as (t1 & f & E2 & Ht1); try done.
  destruct (server_replies dates' t1 (next_id (s_rpc t)) (mkInvocation None (Some (JsonString (id_string (next_id (rpc s))))) (Some (Other k)))
              k c' answer (id_string (next_id (rpc s)))) as (t2 & E3);
    [by rewrite Ht1|exact Hid|rewrite Ht1; apply lookup_insert_eq|done|done|exact Hw2|rewrite Ht1; apply lookup_insert_eq|exact Hu|].
  exists s1, t1, t2. split_and!; [done|by rewrite D1|exact E2|exact E3|].
  intros room s2 kc cc ac cc' zc R2 D2 Hkc Hrc. rewrite D1 in D2.
  destruct (client_completes room s2 kc (next_call s) cc ac cc' zc (mkData (Some (text (request_node s name params))) (next_id (rpc s))) (id_string (next_id (rpc s)))
              (mkInvocation (Some (next_call s)) None (Some (Other (next_call s)))) answer) as (s3 & E4 & I4 & C4); try done.
  - rewrite R2, R1. exact Hr.
  - rewrite R2, R1. apply lookup_insert_eq.
  - exists s3. split; [done|]. split; [|done]. rewrite I4, R2, R1. cbn. by apply delete_insert_id.
Qed.

End RoundTrip.

(** ** A concrete client and a concrete server *)

Abbreviation text := json_generator_to_data.

#[local] Existing Instance JsonrpcSpec.tiny_json.
#[local] Existing Instance HttpMessage.demo_soup.
#[local] Existing Instance WebServiceSpec.demo_regex.

Definition demo_conn : EvdHttpConnection :=
  evd_http_connection_init false (BufferedInput.evd_buffered_input_stream_init 4096) [].

Definition hex_digit (n : Z) : Z := if n <? 10 then 48 + n else 87 + n.
Definition chunked (b : list Z) : list Z :=
  (match b with [] => [] | _ => [hex_digit (len b / 16); hex_digit (len b mod 16)] ++ CRLF ++ b ++ CRLF end) ++
  codes "0" ++ CRLF ++ CRLF.

(** The exchange of a call on a connection: a response with the given content. *)
Definition exchange (n k : nat) (content : list Z) : list operation :=
  [GotConnection n (Some (inl demo_conn)); WriteDone true k (Some 1000);
   InputReady true k (BufferedInput.Got (codes "HTTP/1.1 200 OK" ++ CRLF ++ CRLF));
   InputReady true k (BufferedInput.Got (chunked content)); InputReady true k (BufferedInput.Got [])].
Definition call_ping : operation := Call "ping" (Some (JsonArray [JsonNull])).
Definition demo_url : list Z := codes "http://example.com/".

Definition demo_client : client * list Z :=
  default (mkClient endpoint (mkRequest 1 None [] None) ∅ 0 [] ∅ ∅ ∅ [] [] 0, []) (evd_jsonrpc_http_client_new demo_url).
Definition demo_end (ops : list operation) : client * list effect := default (demo_client.1, []) (run ops demo_client.1).
Definition client_survives (ops : list operation) : bool := match run ops demo_client.1 with Some _ => true | None => false end.

Lemma client_runs ops : client_survives ops = true → run ops demo_client.1 = Some ((demo_end ops).1, (demo_end ops).2).
Proof. unfold client_survives, demo_end. by destruct (run ops demo_client.1) as [[]|]. Qed.

(** Two calls: the first is answered, the second fails as no connection is had. *)
Definition demo_calls : list operation := [call_ping; call_ping] ++ exchange 0 0 (print pong) ++ [GotConnection 1 None].

Lemma http_calls_accounted_witness :
  completed (demo_end demo_calls).2 ++ pending (rpc (demo_end demo_calls).1) ≡ₚ seq 0 (calls_made demo_calls) ∧
  ∀ n, n ∈ pending (rpc (demo_end demo_calls).1) → n ∈ active (demo_end demo_calls).1 ∨ n ∈ responses (demo_end demo_calls).2.
Proof.
  apply (http_calls_accounted demo_url demo_client.1 demo_client.2 demo_calls (demo_end demo_calls).1 (demo_end demo_calls).2).
  - vm_compute. reflexivity.
  - apply client_runs. vm_compute. reflexivity.
  - vm_compute. reflexivity.
Defined.

Example demo_calls_completed : completed (demo_end demo_calls).2 = [0; 1]%nat.
Proof. vm_compute. reflexivity. Qed.

Definition demo_server : server :=
  evd_jsonrpc_http_server_set_method_call_callback
    (default (mkServer endpoint WebService.evd_web_service_init true soup_message_headers_new ∅ ∅ [] []) evd_jsonrpc_http_server_init) true.
Definition post : EvdHttpRequest := mkRequest 1 None (codes "POST") (soup_uri_new (codes "/rpc")).
Definition body_conn (b : list Z) : EvdHttpConnection := with_body SOUP_ENCODING_CONTENT_LENGTH (len b) demo_conn.
Definition demo_dates : list Z * list Z := (codes "yesterday", codes "now").

(** A connection brings a request with the given content. *)
Definition take_request (k : nat) (b : list Z) : list server_op :=
  [NewConn k (body_conn b); RequestHeaders k post; ServerInput demo_dates (codes "error") k (BufferedInput.Got b);
   ServerInput demo_dates (codes "error") k (BufferedInput.Got [])].
Definition server_end (ops : list server_op) : server * list (server_op * list server_effect) :=
  default (demo_server, []) (server_run ops demo_server).

(** A call answered twice by the user. *)
Definition demo_requests : list server_op :=
  take_request 0 (print ping) ++ [Respond demo_dates 1 (JsonString "pong"); Respond demo_dates 1 (JsonString "pong")].

Lemma demo_requests_run : server_run demo_requests demo_server = Some ((server_end demo_requests).1, (server_end demo_requests).2).
Proof. vm_compute. reflexivity. Qed.

Lemma http_calls_answered_once_witness :
  let tr := (server_end demo_requests).2 in
  (called (all_effects tr)).*1 = seqZ 1 (Z.of_nat (length (called (all_effects tr)))) ∧
  NoDup (answers tr).*1 ∧ answers tr ⊆ called (all_effects tr).
Proof.
  refine (http_calls_answered_once _ demo_requests (server_end demo_requests).1 (server_end demo_requests).2 eq_refl demo_requests_run _).
  vm_compute. reflexivity.
Defined.

Example demo_requests_answered : answers (server_end demo_requests).2 = [(1, 0%nat)].
Proof. vm_compute. reflexivity. Qed.

(** The request of the first call, as the server has read it. *)
Definition demo_read : async := mkAsync read_all_content_tag None ResNone.
Definition read_conn : EvdHttpConnection := with_buf (print ping) demo_conn.
Definition waiting_server : server := with_s_conn 0 read_conn demo_server.

Lemma demo_client_ready : ready (rpc demo_client.1).
Proof. unfold demo_client, evd_jsonrpc_http_client_new. by destruct init_ready as (r & -> & [] & _). Qed.

Lemma demo_server_ready : ready (s_rpc waiting_server).
Proof.
  unfold waiting_server, demo_server, evd_jsonrpc_http_server_init. destruct init_ready as (r & -> & [] & _). by split.
Qed.

Lemma demo_request_node : request_node demo_client.1 "ping" (Some (JsonArray [JsonNull])) = ping.
Proof. vm_compute. reflexivity. Qed.
Lemma demo_answer_node : answer_node demo_client.1 (inl (JsonString "pong")) = pong.
Proof. vm_compute. reflexivity. Qed.
Lemma demo_request_text : text (request_node demo_client.1 "ping" (Some (JsonArray [JsonNull]))) = print ping.
Proof. by rewrite demo_request_node. Qed.
Lemma demo_answer_text : text (answer_node demo_client.1 (inl (JsonString "pong"))) = print pong.
Proof. by rewrite demo_answer_node. Qed.
Lemma demo_request_ok : wire_ok (request_node demo_client.1 "ping" (Some (JsonArray [JsonNull]))).
Proof. rewrite demo_request_node. exact ping_ok. Qed.
Lemma demo_answer_ok : wire_ok (answer_node demo_client.1 (inl (JsonString "pong"))).
Proof. rewrite demo_answer_node. exact pong_ok. Qed.
Lemma demo_next_call : next_call demo_client.1 = 0%nat.
Proof. vm_compute. reflexivity. Qed.
Lemma demo_next_id : next_id (s_rpc waiting_server) = 1.
Proof. vm_compute. reflexivity. Qed.

Lemma http_call_roundtrip_witness :
  ∃ s1 t1 t2,
    evd_jsonrpc_http_client_call_method demo_client.1 "ping" (Some (JsonArray [JsonNull])) = Some (s1, [GetConnection 0]) ∧
    buf <$> calls s1 !! 0%nat = Some (Some (print ping)) ∧
    server_on_content_read demo_dates (codes "error") waiting_server 0 demo_read =
      Some (t1, [MethodCallCb "ping" (JsonArray [JsonNull]) 1 0]) ∧
    server_reply demo_dates t1 1 (inl (JsonString "pong")) = Some (t2, [Answered 0 200 (print pong)], true) ∧
    ∀ room s2 kc cc ac cc' zc,
      rpc s2 = rpc s1 → calls s2 !! 0%nat = calls s1 !! 0%nat → conns s2 !! kc = Some cc →
      evd_http_connection_read_all_content_finish cc ac = (cc', Some (print pong, zc)) →
      ∃ s3, on_content_read room s2 kc 0 ac =
          Some (s3, [Content 0 (print pong); CallCompleted 0 (MethodResponse (Some (JsonString "pong")) None)]) ∧
        invocations (rpc s3) = invocations (rpc demo_client.1) ∧ calls s3 !! 0%nat = None.
Proof.
  pose proof (http_call_roundtrip demo_client.1 waiting_server "ping" (Some (JsonArray [JsonNull])) (inl (JsonString "pong"))
                demo_dates demo_dates (codes "error") 0 read_conn demo_read (with_buf [] read_conn) 0) as T.
  rewrite demo_request_text, demo_answer_text, demo_next_call, demo_next_id in T.
  apply T; [exact demo_client_ready|reflexivity|vm_compute; reflexivity|exact demo_server_ready|reflexivity|reflexivity|reflexivity
    |done|reflexivity|intros v [= <-]; discriminate|exact demo_request_ok|exact demo_answer_ok|reflexivity
    |discriminate|reflexivity].
Defined.

(** ** Defects *)

(** A response without content leaves its call for ever: nothing waits for anything any more. *)
Example empty_response_forgotten :
  let s := (demo_end (call_ping :: exchange 0 0 [])).1 in
  responses (demo_end (call_ping :: exchange 0 0 [])).2 = [0%nat] ∧ pending (rpc s) = [0%nat] ∧ active s = [].
Proof. split_and!; vm_compute; reflexivity. Qed.

(** A response is not matched with the request it comes for: here it completes another call, whose
    exchange then uses data that were freed, and its own call is left for ever. *)
Example crossed_response_ends_program :
  let ops := [call_ping; call_ping] ++ exchange 1 0 (print pong) in
  completed (demo_end ops).2 = [0%nat] ∧ pending (rpc (demo_end ops).1) = [1%nat] ∧ active (demo_end ops).1 = [0%nat] ∧
  client_survives ops = true ∧ client_survives (ops ++ [GotConnection 0 (Some (inl demo_conn))]) = false.
Proof. split_and!; vm_compute; reflexivity. Qed.

(** Without a callback for methods a call is answered with an error and keeps its entry. *)
Example unhandled_call_kept :
  let r := server_run (take_request 0 (print ping)) (evd_jsonrpc_http_server_set_method_call_callback demo_server false) in
  (λ '(s, tr), (all_effects tr, map_to_list (invocations (s_rpc s)))) <$> r =
  Some ([Answered 0 500 no_handler], [("1", mkInvocation None (Some (JsonString "1")) (Some (Other 0%nat)))]).
Proof. vm_compute. reflexivity. Qed.

(** A request whose content is a response takes away the call of another connection, which can then not
    be answered; and it gets no answer itself. *)
Example response_as_request_takes_call :
  let tr := (server_end (take_request 0 (print ping) ++ take_request 1 (print pong) ++ [Respond demo_dates 1 (JsonString "pong")])).2 in
  called (all_effects tr) = [(1, 0%nat)] ∧ length (all_effects tr) = 1%nat ∧ length tr = 9%nat.
Proof. split_and!; vm_compute; reflexivity. Qed.

(** A request without content gets no answer. *)
Example empty_request_unanswered :
  all_effects (server_end (take_request 0 [])).2 = [] ∧ length (server_end (take_request 0 [])).2 = 4%nat.
Proof. split; vm_compute; reflexivity. Qed.

End JsonrpcHttpSpec.
