(* ===== verification/Reproxy.v ===== *)
(** * The reverse proxy (src/evd/evd-reproxy.c): model

    A service that gives each connection it accepts a connection of one of its backends, and relays
    what comes in on either to the other, block by block.  A backend is a connection pool, seen
    through the interface [BackendPool]; ReproxySpec.v makes one of ConnectionPool.v.  The input of a
    connection is that of BufferedInput.v over the bytes its remote side will ever send; how much an
    output takes, how much it could take, and the turns of the main loop are arguments and operations.
    References are not counted.  [None] stands for data that are read and are not there, or were
    freed. *)
From S2P Require Import Prelude BufferedInput.
Import BufferedInput.

Module Reproxy.

Definition BRIDGE_BLOCK_SIZE : Z := 8193.

(** What the proxy uses of a connection pool: [request] asks for a connection, and [answer] takes the
    oldest completed request, whose answer is a connection or an error. *)
Class BackendPool := {
  backend : Type;
  evd_connection_pool_new : backend;
  evd_connection_pool_has_free_connections : backend → bool;
  evd_connection_pool_get_connection : backend → option backend;
  answer : backend → option (bool * backend);
  pool_event : Type;
  pool_step : backend → pool_event → option backend
}.

(** What a pool promises, with the number of requests that are not answered: it takes every request,
    and answers only those made. *)
Class BackendPoolLaws `{BackendPool} := {
  owes : backend → nat → Prop;
  new_owes : owes evd_connection_pool_new 0;
  request_owes b n : owes b n → ∃ b', evd_connection_pool_get_connection b = Some b' ∧ owes b' (S n);
  answer_owes b n ok b' : owes b n → answer b = Some (ok, b') → ∃ n', n = S n' ∧ owes b' n';
  step_owes b n e : owes b n → ∃ b', pool_step b e = Some b' ∧ owes b' n
}.

(** ** Connections *)

Record EvdReproxyBridge := mkBridge { target : nat; buf : list Z }.

(** The data under [BRIDGE_DATA_KEY], which [on_flush] frees and leaves there. *)
Inductive bridge_slot := NoBridge | Live (b : EvdReproxyBridge) | Freed.

Record EvdConnection := mkConn {
  stream : BufferedInput.world;
  closed : bool;
  close_locked : bool;
  delayed_close : bool;
  bridge : bridge_slot;
  write_handler : option nat;        (* the user data of [evd_reproxy_bridge_on_write] *)
  close_handler : bool               (* whether [evd_reproxy_connection_on_close] is connected *)
}.

Definition set_stream w c := mkConn w (closed c) (close_locked c) (delayed_close c) (bridge c) (write_handler c) (close_handler c).
Definition set_input i c := set_stream (mkWorld i (source (stream c))) c.
Definition set_closed c := mkConn (stream c) true (close_locked c) (delayed_close c) (bridge c) (write_handler c) (close_handler c).
Definition set_locked b c := mkConn (stream c) (closed c) b (delayed_close c) (bridge c) (write_handler c) (close_handler c).
Definition set_delayed b c := mkConn (stream c) (closed c) (close_locked c) b (bridge c) (write_handler c) (close_handler c).
Definition set_bridge b c := mkConn (stream c) (closed c) (close_locked c) (delayed_close c) b (write_handler c) (close_handler c).
Definition set_write_handler k c := mkConn (stream c) (closed c) (close_locked c) (delayed_close c) (bridge c) (Some k) (close_handler c).
Definition set_close_handler c := mkConn (stream c) (closed c) (close_locked c) (delayed_close c) (bridge c) (write_handler c) true.

(** A new connection, whose remote side will send [src]. *)
Definition new_connection (src : list Z) : EvdConnection :=
  mkConn (mkWorld (evd_buffered_input_stream_init 4096) src) false false false NoBridge None false.

Definition input c : EvdBufferedInputStreamPrivate := BufferedInput.stream (stream c).

(** Why a block, or its end, goes no further. *)
Inductive loss := WriteFailed | NotUnread.

Inductive effect :=
  | Accepted (client : nat) (src : list Z)
  | Connected (server : nat) (src : list Z)
  | Moved (from to : nat) (data : list Z)           (* taken by the output *)
  | Lost (from : nat) (data : list Z) (why : loss)
  | Paired (client server : nat).

Section Proxy.
Context `{BackendPool}.

(** ** The proxy *)

(** A node of the list of backends is its position; [flushing] are the connections whose closing has
    started a flush of the other side, [closing] those that close in idle. *)
Record EvdReproxy := mkReproxy {
  backends : list backend;
  next_backend_node : option nat;
  conns : list nat;
  table : gmap nat EvdConnection;
  next_conn : nat;
  flushing : list nat;
  closing : list nat
}.

Definition with_backends l s := mkReproxy l (next_backend_node s) (conns s) (table s) (next_conn s) (flushing s) (closing s).
Definition with_next n s := mkReproxy (backends s) n (conns s) (table s) (next_conn s) (flushing s) (closing s).
Definition with_conns l s := mkReproxy (backends s) (next_backend_node s) l (table s) (next_conn s) (flushing s) (closing s).
Definition with_conn k c s := mkReproxy (backends s) (next_backend_node s) (conns s) (<[k := c]> (table s)) (next_conn s) (flushing s) (closing s).
Definition with_flushing l s := mkReproxy (backends s) (next_backend_node s) (conns s) (table s) (next_conn s) l (closing s).
Definition with_closing l s := mkReproxy (backends s) (next_backend_node s) (conns s) (table s) (next_conn s) (flushing s) l.

Definition evd_reproxy_init : EvdReproxy := mkReproxy [] None [] ∅ 0 [] [].

(** A connection nobody had before. *)
Definition add_conn (src : list Z) s : EvdReproxy * nat :=
  let k := next_conn s in
  (mkReproxy (backends s) (next_backend_node s) (conns s) (<[k := new_connection src]> (table s)) (S k) (flushing s) (closing s), k).

(** ** Backends *)

Definition evd_reproxy_get_backend_from_node s (backend_node : option nat) : option (option backend) :=
  match backend_node with
  | Some i => b ← backends s !! i; Some (Some b)
  | None => Some None
  end.

(** The node after the last one is the first. *)
Definition evd_reproxy_get_next_backend_node s (backend_node : option nat) : option nat :=
  match backend_node with
  | Some i =>
      if (S i <? length (backends s))%nat then Some (S i)
      else match backends s with [] => None | _ => Some O end
  | None => None
  end.

Definition evd_reproxy_hop_backend s : EvdReproxy :=
  with_next (evd_reproxy_get_next_backend_node s (next_backend_node s)) s.

(** The loop; its result is the node of the backend, if it finds one. *)
Fixpoint free_backend_loop (fuel : nat) s (orig_node : option nat) : option (EvdReproxy * option nat) :=
  match fuel with
  | O => None
  | S fuel =>
      b ← evd_reproxy_get_backend_from_node s (next_backend_node s);
      b ← b;
      if evd_connection_pool_has_free_connections b then Some (s, next_backend_node s)
      else
        let s := evd_reproxy_hop_backend s in
        if bool_decide (next_backend_node s = orig_node) then Some (s, None)
        else free_backend_loop fuel s orig_node
  end.

Definition evd_reproxy_get_backend_with_free_connections s : option (EvdReproxy * option nat) :=
  match next_backend_node s with
  | None => Some (s, None)
  | Some i => free_backend_loop (length (backends s)) s (Some i)
  end.

Definition evd_reproxy_add_backend s : EvdReproxy :=
  let s := with_backends (backends s ++ [evd_connection_pool_new]) s in
  match next_backend_node s with
  | None => with_next (Some O) s
  | Some _ => s
  end.

(** Whether the proxy itself is a connection pool, which is what the function tests. *)
Definition EVD_IS_CONNECTION_POOL (_ : EvdReproxy) : bool := false.

Definition evd_reproxy_remove_backend s (i : nat) : EvdReproxy :=
  if negb (EVD_IS_CONNECTION_POOL s) then s else with_backends (delete i (backends s)) s.

(** ** The relay *)

Definition get_bridge s (k : nat) : option EvdReproxyBridge :=
  c ← table s !! k;
  match bridge c with Live b => Some b | _ => None end.

(** [writable] is what the output could take now. *)
Definition evd_connection_get_max_writable s (k : nat) (writable : Z) : option Z :=
  c ← table s !! k; Some (if closed c then 0 else writable).

Definition evd_reproxy_bridge_read s (k : nat) (writable : Z) : option EvdReproxy :=
  b ← get_bridge s k;
  c ← table s !! k;
  n ← evd_connection_get_max_writable s (target b) writable;
  Some (if 0 <? n then
          (* a stream that is closed ends the read with an error, which is only printed *)
          if async_result (input c) || closed c then s
          else with_conn k (set_input (evd_buffered_input_stream_read_async (input c) BRIDGE_BLOCK_SIZE) c) s
        else with_conn k (set_locked true c) s).

(** [taken] is how many bytes the output takes; [None] for an error. *)
Definition g_output_stream_write s (k : nat) (data : list Z) (taken : option nat) : option (option nat) :=
  c ← table s !! k; Some (if closed c then None else (λ n, n `min` length data)%nat <$> taken).

Definition evd_reproxy_bridge_write s (k : nat) (taken : option nat) (writable : Z)
  : option (EvdReproxy * list effect) :=
  b ← get_bridge s k;
  c ← table s !! k;
  r ← g_output_stream_write s (target b) (buf b) taken;
  match r with
  | Some out_size =>
      if (out_size <? length (buf b))%nat then
        let rest := drop out_size (buf b) in
        let '(i, _, u) := evd_buffered_input_stream_unread (input c) rest in
        Some (with_conn k (set_input i c) s,
              Moved k (target b) (take out_size (buf b)) :: match u with inl _ => [] | inr _ => [Lost k rest NotUnread] end)
      else s ← evd_reproxy_bridge_read s k writable; Some (s, [Moved k (target b) (buf b)])
  | None => Some (s, [Lost k (buf b) WriteFailed])
  end.

(** [size] is what the end of the read answers, and [data] what it stored. *)
Definition evd_reproxy_bridge_on_read s (k : nat) (data : list Z) (size : Z + io_error) (taken : option nat) (writable : Z)
  : option (EvdReproxy * list effect) :=
  match size with
  | inl size =>
      if 0 <? size then
        b ← get_bridge s k;
        c ← table s !! k;
        evd_reproxy_bridge_write (with_conn k (set_bridge (Live (mkBridge (target b) data)) c) s) k taken writable
      else Some (s, [])
  | inr _ => Some (s, [])
  end.

Definition evd_connection_unlock_close s (k : nat) : option EvdReproxy :=
  c ← table s !! k;
  let s := with_conn k (set_locked false c) s in
  Some (if delayed_close c then with_closing (closing s ++ [k]) s else s).

(** The signal "write" of connection [k]. *)
Definition evd_reproxy_bridge_on_write s (k : nat) (writable : Z) : option EvdReproxy :=
  c ← table s !! k;
  if closed c then Some s
  else match write_handler c with
       | Some k0 => s ← evd_connection_unlock_close s k0; evd_reproxy_bridge_read s k0 writable
       | None => Some s
       end.

Definition evd_reproxy_connection_setup_bridge s (k0 k1 : nat) (writable : Z) : option EvdReproxy :=
  c0 ← table s !! k0;
  let s := with_conn k0 (set_bridge (Live (mkBridge k1 [])) c0) s in
  c1 ← table s !! k1;
  evd_reproxy_bridge_read (with_conn k1 (set_write_handler k0 c1) s) k0 writable.

(** The signal "close" of connection [k]: the other side is flushed. *)
Definition evd_reproxy_connection_on_close s (k : nat) : option EvdReproxy :=
  b ← get_bridge s k;
  _ ← table s !! target b;
  Some (with_flushing (flushing s ++ [k]) s).

Definition g_io_stream_close s (k : nat) : option EvdReproxy :=
  c ← table s !! k;
  if closed c then Some s
  else
    let s := with_closing (filter (.≠ k) (closing s)) s in
    let s := with_conn k (set_closed (set_input (evd_buffered_input_stream_close (input c)).1 c)) s in
    if close_handler c then evd_reproxy_connection_on_close s k else Some s.

(** The flush the closing of connection [k] started has ended. *)
Definition evd_reproxy_connection_on_flush s (k : nat) : option EvdReproxy :=
  b ← get_bridge s k;
  s ← g_io_stream_close s (target b);
  c ← table s !! k;
  Some (with_conn k (set_bridge Freed c) s).

(** ** Accepting *)

Definition evd_reproxy_enqueue_connection s (k : nat) : EvdReproxy := with_conns (conns s ++ [k]) s.

(** The backend whose pool is asked; with no backend none is. *)
Definition choose_backend s : option (EvdReproxy * option nat) :=
  '(s, node) ← evd_reproxy_get_backend_with_free_connections s;
  Some (match node with
        | Some i => (s, Some i)
        | None => (evd_reproxy_hop_backend s, next_backend_node s)
        end).

Definition evd_reproxy_connection_accepted s (k : nat) : option EvdReproxy :=
  '(s, node) ← choose_backend s;
  backend ← evd_reproxy_get_backend_from_node s node;
  s ← match node, backend with
      | Some i, Some b =>
          b ← evd_connection_pool_get_connection b; Some (with_backends (<[i := b]> (backends s)) s)
      | _, _ => Some s
      end;
  Some (evd_reproxy_enqueue_connection s k).

(** [server] is the connection the pool gives; [w0] and [w1] are what the outputs of both could take. *)
Definition evd_reproxy_backend_on_connection s (server : option nat) (w0 w1 : Z) : option (EvdReproxy * list effect) :=
  match server with
  | Some k1 =>
      c1 ← table s !! k1;
      let s := with_conn k1 (set_close_handler c1) s in
      match conns s with
      | [] => None
      | k0 :: rest =>
          let s := with_conns rest s in
          c0 ← table s !! k0;
          let s := with_conn k0 (set_close_handler c0) s in
          s ← evd_reproxy_connection_setup_bridge s k0 k1 w1;
          s ← evd_reproxy_connection_setup_bridge s k1 k0 w0;
          Some (s, [Paired k0 k1])
      end
  | None => Some (s, [])
  end.

(** ** What happens

    An operation that cannot happen leaves the proxy as it is. *)

(** What a read of the base stream gives: at most so many bytes of what is left, nothing yet, or an
    error. *)
Inductive supply := Bytes (n : nat) | Nothing | Broken.

(** The idle source of the input of [k]. *)
Definition read_source s (k : nat) (r : supply) (taken : option nat) (writable : Z) : option (EvdReproxy * list effect) :=
  match table s !! k with
  | None => Some (s, [])
  | Some c =>
      if negb (read_src (input c)) then Some (s, [])
      else
        let src := source (stream c) in
        let want := wants (input c) (requested_size (input c)) in
        let n := match r with Bytes n => (n `min` (Z.to_nat want `min` length src))%nat | _ => O end in
        let a := match r with Bytes _ => Got (take n src) | Nothing => WouldBlock | Broken => Failed end in
        let '(i, evs) := do_read (input c) a in
        let src := if async_result (input c) && (0 <? want) then drop n src else src in
        let s := with_conn k (set_stream (mkWorld i src) c) s in
        match evs with
        | [Delivered data; AsyncDone size] => evd_reproxy_bridge_on_read s k data size taken writable
        | [AsyncDone size] => evd_reproxy_bridge_on_read s k [] size taken writable
        | _ => Some (s, [])
        end
  end.

Inductive operation :=
  | AddBackend
  | RemoveBackend (i : nat)
  | PoolEvent (i : nat) (e : pool_event)
  | Accept (src : list Z)                       (* a client, and all it will send *)
  | Answer (i : nat) (src : list Z) (w0 w1 : Z) (* a backend answers its oldest request *)
  | Readable (k : nat)
  | RunRead (k : nat) (r : supply) (taken : option nat) (writable : Z)
  | WriteSignal (k : nat) (writable : Z)
  | Hangup (k : nat)
  | RunClose (k : nat)
  | Close (k : nat)
  | Flushed (k : nat).

Definition quiet (r : option EvdReproxy) : option (EvdReproxy * list effect) := s ← r; Some (s, []).

Definition exec (o : operation) s : option (EvdReproxy * list effect) :=
  match o with
  | AddBackend => Some (evd_reproxy_add_backend s, [])
  | RemoveBackend i => Some (evd_reproxy_remove_backend s i, [])
  | PoolEvent i e =>
      match backends s !! i with
      | Some b => b ← pool_step b e; Some (with_backends (<[i := b]> (backends s)) s, [])
      | None => Some (s, [])
      end
  | Accept src =>
      let '(s, k) := add_conn src s in s ← evd_reproxy_connection_accepted s k; Some (s, [Accepted k src])
  | Answer i src w0 w1 =>
      match (backends s !! i) ≫= answer with
      | Some (ok, b) =>
          let s := with_backends (<[i := b]> (backends s)) s in
          if ok : bool then
            let '(s, k) := add_conn src s in
            '(s, e) ← evd_reproxy_backend_on_connection s (Some k) w0 w1; Some (s, Connected k src :: e)
          else evd_reproxy_backend_on_connection s None w0 w1
      | None => Some (s, [])
      end
  | Readable k =>
      match table s !! k with
      | Some c => Some (with_conn k (set_input (evd_buffered_input_stream_thaw (input c)) c) s, [])
      | None => Some (s, [])
      end
  | RunRead k r taken writable => read_source s k r taken writable
  | WriteSignal k writable =>
      match table s !! k with Some _ => quiet (evd_reproxy_bridge_on_write s k writable) | None => Some (s, []) end
  | Hangup k =>
      match table s !! k with
      | Some c =>
          Some (if closed c then s
                else if close_locked c then with_conn k (set_delayed true c) s
                else with_closing (closing s ++ [k]) s, [])
      | None => Some (s, [])
      end
  | RunClose k => if decide (k ∈ closing s) then quiet (g_io_stream_close s k) else Some (s, [])
  | Close k => match table s !! k with Some _ => quiet (g_io_stream_close s k) | None => Some (s, []) end
  | Flushed k =>
      if decide (k ∈ flushing s) then
        quiet (evd_reproxy_connection_on_flush (with_flushing (filter (.≠ k) (flushing s)) s) k)
      else Some (s, [])
  end.

Fixpoint run (ops : list operation) s : option (EvdReproxy * list effect) :=
  match ops with
  | [] => Some (s, [])
  | o :: ops => '(s, e1) ← exec o s; '(s, e2) ← run ops s; Some (s, e1 ++ e2)
  end.

End Proxy.

End Reproxy.
