(* ===== verification/ReproxySpec.v ===== *)
(** * The reverse proxy: theorems

    The choice of a backend is the first of the rotation that has a free connection, or else the next
    one; a proxy over pools that keep their promises never uses data that are not there, and serves its
    clients in the order they came; what it relays is what came, in order, without a gap that is not an
    error.  ConnectionPool.v keeps the promises. *)
From S2P Require Import Prelude BufferedInput ConnectionPool ConnectionPoolSpec Reproxy.
Import BufferedInput Reproxy.

Module ReproxySpec.

(** ** The connection pool keeps the promises of a backend *)

(** A pool and the number of its answers that were taken. *)
Definition pool_backend : Type := ConnectionPool.world * nat.

Definition new_pool : pool_backend :=
  (default (ConnectionPool.mkWorld ConnectionPool.evd_connection_pool_init ∅ 0 [] [] 1 [])
     (ConnectionPool.start ConnectionPool.evd_connection_pool_init), 0%nat).

(** The requests are numbered in order. *)
Definition requests_made (b : pool_backend) : nat :=
  (length (ConnectionPool.answers b.1) + length (ConnectionPool.requests (ConnectionPool.pool b.1)))%nat.

#[export] Instance pool_is_backend : BackendPool := {|
  backend := pool_backend;
  evd_connection_pool_new := new_pool;
  evd_connection_pool_has_free_connections b := ConnectionPool.evd_connection_pool_has_free_connections b.1;
  evd_connection_pool_get_connection b :=
    w ← ConnectionPool.evd_connection_pool_get_connection b.1 (requests_made b); Some (w, b.2);
  answer b := a ← ConnectionPool.answers b.1 !! b.2; Some (bool_decide (is_Some a.2), (b.1, S b.2));
  pool_event := ConnectionPool.event;
  pool_step b e :=
    match e with
    | ConnectionPool.GetConnection _ => Some b            (* only the proxy asks *)
    | _ => w ← ConnectionPool.step b.1 e; Some (w, b.2)
    end
|}.

Definition pool_owes (b : pool_backend) (n : nat) : Prop :=
  ∃ issued, ConnectionPoolSpec.good true issued b.1 ∧ (b.2 + n = length issued)%nat.

Lemma new_pool_good : ConnectionPoolSpec.good true [] new_pool.1.
Proof.
  destruct (ConnectionPoolSpec.execution_good true []) as (w & E & Hg); [done|].
  unfold ConnectionPoolSpec.execution in E. unfold new_pool.
  destruct (ConnectionPool.start _) as [w0|]; [|done]. by injection E as ->.
Qed.

#[export] Instance pool_keeps_promises : BackendPoolLaws.
Proof.
  refine {| owes := pool_owes |}.
  - exists []. split; [exact new_pool_good|done].
  - intros b n (issued & Hg & Hn).
    destruct (ConnectionPoolSpec.step_good true issued b.1 (ConnectionPool.GetConnection (requests_made b))) as (w' & E & Hg'); [done..|].
    exists (w', b.2). change (ConnectionPool.evd_connection_pool_get_connection b.1 (requests_made b) = Some w') in E.
    cbn [evd_connection_pool_get_connection pool_is_backend]. rewrite E. split; [done|].
    eexists. split; [exact Hg'|]. cbn. rewrite length_app. cbn. lia.
  - intros b n ok b' (issued & Hg & Hn). cbn [answer pool_is_backend].
    destruct (ConnectionPool.answers b.1 !! b.2) as [a|] eqn:Ea; [|done]. run_bind. intros [= _ <-].
    apply lookup_lt_Some in Ea. pose proof (ConnectionPoolSpec.inv_fifo _ _ (ConnectionPoolSpec.good_inv _ _ _ Hg)) as Hf.
    apply (f_equal length) in Hf. rewrite length_app, length_fmap in Hf.
    exists (n - 1)%nat. split; [lia|]. exists issued. split; [done|]. cbn. lia.
  - intros b n e (issued & Hg & Hn).
    destruct (ConnectionPoolSpec.step_good true issued b.1 e) as (w' & E & Hg'); [done..|].
    assert (ConnectionPoolSpec.issued_by e = [] → ∃ b', (w ← ConnectionPool.step b.1 e; Some (w, b.2)) = Some b' ∧ pool_owes b' n) as Hdone.
    { intros Hi. rewrite Hi, app_nil_r in Hg'. rewrite E. exists (w', b.2). split; [done|]. by exists issued. }
    destruct e; cbn [pool_step pool_is_backend]; try by apply Hdone. exists b. split; [done|]. by exists issued.
Defined.

Section Spec.
Context `{BackendPoolLaws}.
Implicit Types s : EvdReproxy.

(** ** The choice of a backend *)

(** The nodes in the order they are tried from node [i]. *)
Definition turn (n i k : nat) : nat := ((i + k) mod n)%nat.
Definition rotation (n i : nat) : list nat := turn n i <$> seq 0 n.

Definition is_free s (j : nat) : bool :=
  match backends s !! j with Some b => evd_connection_pool_has_free_connections b | None => false end.

Lemma next_node_turn s i k :
  (i < length (backends s))%nat →
  evd_reproxy_get_next_backend_node s (Some (turn (length (backends s)) i k)) = Some (turn (length (backends s)) i (S k)).
Proof.
  intros Hi. set (n := length (backends s)). assert (n ≠ 0)%nat as Hn by (subst n; lia).
  assert (turn n i (S k) = (S (turn n i k)) mod n)%nat as ->.
  { unfold turn. rewrite Nat.add_succ_r. change (S (i + k)) with (1 + (i + k))%nat. by rewrite <-Nat.Div0.add_mod_idemp_r. }
  pose proof (Nat.mod_upper_bound (i + k) n Hn) as Hb. fold (turn n i k) in Hb.
  unfold evd_reproxy_get_next_backend_node. fold n. destruct (Nat.ltb_spec (S (turn n i k)) n) as [Hlt|Hge].
  - by rewrite Nat.mod_small.
  - replace (S (turn n i k)) with n by lia. rewrite Nat.Div0.mod_same. subst n. by destruct (backends s).
Qed.

Lemma free_loop_finds i k : ∀ fuel s,
  (i < length (backends s))%nat → (k + fuel = length (backends s))%nat → (0 < fuel)%nat →
  next_backend_node s = Some (turn (length (backends s)) i k) →
  free_backend_loop fuel s (Some i) =
    Some (match list_find (λ j, is_free s j = true) (turn (length (backends s)) i <$> seq k fuel) with
          | Some (_, j) => (with_next (Some j) s, Some j)
          | None => (with_next (Some i) s, None)
          end).
Proof.
  intros fuel. revert k. induction fuel as [|fuel IH]; intros k s Hi Hk Hf Hn; [lia|].
  set (n := length (backends s)) in *. assert (turn n i k < n)%nat as Ht by (apply Nat.mod_upper_bound; lia).
  cbn [free_backend_loop]. rewrite Hn. unfold evd_reproxy_get_backend_from_node.
  destruct (lookup_lt_is_Some_2 _ _ Ht) as [b Hb]. rewrite Hb. run_bind.
  cbn [seq fmap list_fmap list_find].
  assert (is_free s (turn n i k) = evd_connection_pool_has_free_connections b) as Hfb by (unfold is_free; by rewrite Hb).
  destruct (evd_connection_pool_has_free_connections b) eqn:Hfree.
  { rewrite decide_True by done. by destruct s; cbn in *; subst. }
  rewrite decide_False by congruence. unfold evd_reproxy_hop_backend. rewrite Hn, next_node_turn by done. fold n.
  set (s1 := with_next (Some (turn n i (S k))) s). cbn [next_backend_node s1 with_next].
  destruct fuel as [|fuel].
  - assert (turn n i (S k) = i) as Hback.
    { unfold turn. replace (i + S k)%nat with (i + 1 * n)%nat by lia. by rewrite Nat.Div0.mod_add, Nat.mod_small. }
    unfold s1. rewrite Hback. by rewrite bool_decide_eq_true_2.
  - rewrite bool_decide_eq_false_2.
    2:{ intros [= E]. unfold turn in E. destruct (decide (i + S k < n)%nat) as [Hlt|Hge].
      - rewrite Nat.mod_small in E by done. lia.
      - replace (i + S k)%nat with ((i + S k - n) + 1 * n)%nat in E by lia.
        rewrite Nat.Div0.mod_add, Nat.mod_small in E; lia. }
    rewrite (IH (S k) s1) by (done || (cbn; lia)). change (is_free s1) with (is_free s).
    change (length (backends s1)) with n. destruct (list_find _ _) as [[]|]; done.
Qed.

Lemma choose_backend_eq s i :
  next_backend_node s = Some i → (i < length (backends s))%nat →
  choose_backend s =
    Some (match list_find (λ j, is_free s j = true) (rotation (length (backends s)) i) with
          | Some (_, j) => (with_next (Some j) s, Some j)
          | None => (with_next (Some ((i + 1) mod length (backends s))%nat) s, Some i)
          end).
Proof.
  intros Hn Hi. unfold choose_backend, evd_reproxy_get_backend_with_free_connections. rewrite Hn.
  rewrite (free_loop_finds i 0) by (done || lia || (rewrite Hn; unfold turn; by rewrite Nat.add_0_r, Nat.mod_small)).
  fold (rotation (length (backends s)) i). destruct (list_find _ _) as [[k j]|]; [done|]. run_bind.
  unfold evd_reproxy_hop_backend. cbn [next_backend_node with_next].
  pose proof (next_node_turn s i 0 Hi) as E. unfold turn in E. rewrite Nat.add_0_r, Nat.mod_small in E by done.
  change (evd_reproxy_get_next_backend_node (with_next (Some i) s)) with (evd_reproxy_get_next_backend_node s). by rewrite E.
Qed.

(** ** Well-formed proxies *)

Definition input_ok (i : EvdBufferedInputStreamPrivate) : Prop :=
  max_buffer i = 4096 ∧ Z.of_nat (length (buffer i)) <= 4096 ∧
  (async_result i = true → requested_size i = BRIDGE_BLOCK_SIZE ∧ actual_size i = 0).

(** A connection [k]: one without handlers has no bridge; one with handlers has the other side in its
    bridge, and the bridge is freed only when both are closed. *)
Record conn_ok s (k : nat) (c : EvdConnection) : Prop := mkConnOk {
  co_input : input_ok (input c);
  co_reading : async_result (input c) = true → closed c = false ∧ ∃ b, bridge c = Live b;
  co_alone : write_handler c = None → bridge c = NoBridge ∧ close_handler c = false;
  co_pair k' : write_handler c = Some k' → close_handler c = true ∧ k' ≠ k ∧
    ∃ c', table s !! k' = Some c' ∧ write_handler c' = Some k ∧
      match bridge c with
      | NoBridge => False
      | Live b => target b = k'
      | Freed => closed c = true ∧ closed c' = true
      end
}.

Record wf s : Prop := mkWf {
  wf_conn k c : table s !! k = Some c → conn_ok s k c;
  wf_next k : is_Some (table s !! k) → (k < next_conn s)%nat;
  wf_queue k : k ∈ conns s → ∃ c, table s !! k = Some c ∧ write_handler c = None;
  wf_nodup : NoDup (conns s);
  wf_flushing k : k ∈ flushing s → ∃ c b, table s !! k = Some c ∧ bridge c = Live b ∧ closed c = true;
  wf_closing k : k ∈ closing s → is_Some (table s !! k);
  wf_node : match next_backend_node s with Some i => (i < length (backends s))%nat | None => backends s = [] end;
  wf_owes : ∃ ns, Forall2 owes (backends s) ns ∧ (sum_list ns <= length (conns s))%nat
}.

(** ** What an operation does *)

(** What came in on [k] and went on, or was lost. *)
Definition gone (k : nat) (effs : list effect) : list Z :=
  concat (omap (λ e, match e with
                     | Moved k' _ d | Lost k' d _ => if decide (k' = k) then Some d else None
                     | _ => None
                     end) effs).
Definition accepted (effs : list effect) : list nat := omap (λ e, match e with Accepted k _ => Some k | _ => None end) effs.
Definition paired (effs : list effect) : list nat := omap (λ e, match e with Paired k _ => Some k | _ => None end) effs.
Definition arrives (k : nat) (src : list Z) (effs : list effect) : Prop := Accepted k src ∈ effs ∨ Connected k src ∈ effs.
Definition bound (k k' : nat) (effs : list effect) : Prop := Paired k k' ∈ effs ∨ Paired k' k ∈ effs.

Record does s s' (effs : list effect) : Prop := mkDoes {
  d_keep k c : table s !! k = Some c → ∃ c', table s' !! k = Some c' ∧
    logical (stream c) = gone k effs ++ logical (stream c');
  d_new k src : arrives k src effs → (next_conn s <= k)%nat ∧
    ∃ c', table s' !! k = Some c' ∧ src = gone k effs ++ logical (stream c');
  d_next : (next_conn s <= next_conn s')%nat;
  d_gone k : (next_conn s' <= k)%nat → gone k effs = [];
  d_queue : conns s ++ accepted effs = paired effs ++ conns s';
  d_handler k c' k' : table s' !! k = Some c' → write_handler c' = Some k' →
    (∃ c, table s !! k = Some c ∧ write_handler c = Some k') ∨ bound k k' effs;
  d_moved k t d : Moved k t d ∈ effs →
    (∃ c, table s !! k = Some c ∧ write_handler c = Some t) ∨ bound k t effs;
  d_lost k d : Lost k d NotUnread ∈ effs → 4096 < Z.of_nat (length d)
}.

Lemma gone_app k e1 e2 : gone k (e1 ++ e2) = gone k e1 ++ gone k e2.
Proof. unfold gone. by rewrite omap_app, concat_app. Qed.

Lemma gone_moved k t d effs : gone k (Moved k t d :: effs) = d ++ gone k effs.
Proof. unfold gone. cbn. by rewrite decide_True. Qed.

Lemma gone_lost k d why effs : gone k (Lost k d why :: effs) = d ++ gone k effs.
Proof. unfold gone. cbn. by rewrite decide_True. Qed.

Lemma gone_nil k : gone k [] = [].
Proof. done. Qed.

Lemma does_refl s : does s s [].
Proof.
  split; try done; try (by intros ? ? [?%not_elem_of_nil|?%not_elem_of_nil]); try (by intros ? ? ?%not_elem_of_nil);
    try (by intros ? ? ? ?%not_elem_of_nil).
  - intros k c Hc. by exists c.
  - cbn. by rewrite app_nil_r.
  - intros k c' k' Hc Hw. left. by exists c'.
Qed.

Lemma bound_app k k' e1 e2 : bound k k' (e1 ++ e2) ↔ bound k k' e1 ∨ bound k k' e2.
Proof. unfold bound. rewrite !elem_of_app. tauto. Qed.

Lemma does_trans s1 s2 s3 e1 e2 : does s1 s2 e1 → does s2 s3 e2 → does s1 s3 (e1 ++ e2).
Proof.
  intros [K1 N1 X1 G1 Q1 H1 M1 L1] [K2 N2 X2 G2 Q2 H2 M2 L2]. split.
  - intros k c (c1 & Hc1 & ->)%K1. destruct (K2 _ _ Hc1) as (c2 & Hc2 & ->). exists c2. by rewrite gone_app, app_assoc.
  - intros k src Ha. unfold arrives in Ha. rewrite !elem_of_app in Ha.
    assert (arrives k src e1 ∨ arrives k src e2) as [(Hk & c1 & Hc1 & ->)%N1|(Hk & c2 & Hc2 & ->)%N2]
      by (unfold arrives; tauto); (split; [lia|]).
    + destruct (K2 _ _ Hc1) as (c2 & Hc2 & ->). exists c2. by rewrite gone_app, app_assoc.
    + exists c2. rewrite gone_app, (G1 k) by lia. by split.
  - lia.
  - intros k Hk. rewrite gone_app, G1, G2 by lia. done.
  - unfold accepted, paired in *. rewrite !omap_app, app_assoc, Q1, <-!app_assoc. by rewrite Q2.
  - intros k c' k' Hc Hw. rewrite bound_app. destruct (H2 _ _ _ Hc Hw) as [(c1 & Hc1 & Hw1)|?]; [|by auto].
    destruct (H1 _ _ _ Hc1 Hw1) as [?|?]; by auto.
  - intros k t d. rewrite bound_app, elem_of_app. intros [?%M1|[(c1 & Hc1 & Hw1)|?]%M2]; [tauto| |tauto].
    destruct (H1 _ _ _ Hc1 Hw1) as [?|?]; by auto.
  - intros k d. rewrite elem_of_app. intros [?%L1|?%L2]; done.
Qed.

(** ** Connections that change *)

(** A connection keeps its handlers and its bridge, but for the block in it. *)
Record similar (c c2 : EvdConnection) : Prop := mkSimilar {
  sim_write : write_handler c2 = write_handler c;
  sim_close : close_handler c2 = close_handler c;
  sim_closed : closed c = true → closed c2 = true;
  sim_input : input_ok (input c2);
  sim_reading : async_result (input c2) = true → closed c2 = false ∧ ∃ b, bridge c2 = Live b;
  sim_bridge : bridge c2 = bridge c ∨ ∃ b b2, bridge c = Live b ∧ bridge c2 = Live b2 ∧ target b2 = target b
}.

Lemma similar_trans c1 c2 c3 : similar c1 c2 → similar c2 c3 → similar c1 c3.
Proof.
  intros [W1 C1 D1 _ _ B1] [W2 C2 D2 I2 R2 B2]. split; try congruence; auto.
  destruct B1 as [B1|(b & b2 & B1 & B1' & T1)], B2 as [B2|(b3 & b4 & B2 & B2' & T2)].
  - left. congruence.
  - right. exists b3, b4. rewrite <-B1. auto.
  - right. exists b, b2. rewrite B2. auto.
  - right. exists b, b4. split_and!; try done. rewrite T2. congruence.
Qed.

Lemma proxy_update_wf s k c c2 : wf s → table s !! k = Some c → similar c c2 → wf (with_conn k c2 s).
Proof.
  intros W Hk [SW SC SD SI SR SB]. destruct W as [Wc Wn Wq Wd Wf Wx Wb Wo].
  assert (∀ j x, table (with_conn k c2 s) !! j = Some x → ∃ y, table s !! j = Some y ∧ write_handler x = write_handler y ∧
    (x = y ∨ j = k ∧ x = c2 ∧ y = c)) as Hback.
  { intros j x. cbn. intros [[<- <-]|[Hne Hj]]%lookup_insert_Some; [exists c; split_and!; auto|exists x; split_and!; auto]. }
  assert (∀ j y, table s !! j = Some y → ∃ x, table (with_conn k c2 s) !! j = Some x ∧ write_handler x = write_handler y ∧
    (closed y = true → closed x = true)) as Hfwd.
  { intros j y Hj. cbn. destruct (decide (j = k)) as [->|].
    - exists c2. rewrite lookup_insert_eq. split; [done|]. assert (y = c) as -> by congruence. auto.
    - exists y. by rewrite lookup_insert_ne by done. }
  split; try done.
  - intros j x Hj. destruct (Hback _ _ Hj) as (y & Hy & _ & Hxy). destruct (Wc _ _ Hy) as [I R A P].
    destruct Hxy as [->|(-> & -> & ->)]; split; auto.
    + intros k' Hk'. destruct (P _ Hk') as (? & ? & c' & Hc' & Hw' & Hb). split; [done|]. split; [done|].
      destruct (Hfwd _ _ Hc') as (x' & Hx' & Hwx & Hcl). exists x'. split; [done|]. split; [congruence|].
      destruct (bridge y); try done. destruct Hb. auto.
    + rewrite SW, SC. intros Hn. destruct (A Hn) as [Hb Hcl]. split; [|done].
      destruct SB as [SB|(b & b2 & SB & _)]; congruence.
    + rewrite SW, SC. intros k' Hk'. destruct (P _ Hk') as (? & ? & c' & Hc' & Hw' & Hb). split; [done|]. split; [done|].
      destruct (Hfwd _ _ Hc') as (x' & Hx' & Hwx & Hcl). exists x'. split; [done|]. split; [congruence|].
      destruct SB as [->|(b & b2 & SB & -> & ->)]; [destruct (bridge c); try done; destruct Hb; auto|by rewrite SB in Hb].
  - intros j [x Hj]. destruct (Hback _ _ Hj) as (y & Hy & _). apply Wn. by eexists.
  - intros j Hj. destruct (Wq _ Hj) as (y & Hy & Hw). destruct (Hfwd _ _ Hy) as (x & Hx & Hwx & _). exists x. split; [done|congruence].
  - intros j Hj. destruct (Wf _ Hj) as (y & b & Hy & Hb & Hcl). cbn. destruct (decide (j = k)) as [->|].
    + assert (y = c) as -> by congruence. exists c2. rewrite lookup_insert_eq.
      destruct SB as [SB|(b1 & b2 & _ & SB & _)]; rewrite SB; eauto.
    + exists y, b. by rewrite lookup_insert_ne by done.
  - intros j Hj. destruct (Wx _ Hj) as [y Hy]. destruct (Hfwd _ _ Hy) as (x & Hx & _). by exists x.
Qed.

(** The effects of relaying from [k] to [t]. *)
Definition relays (k t : nat) (effs : list effect) : Prop :=
  Forall (λ e, match e with
               | Moved a b _ => a = k ∧ b = t
               | Lost a d why => a = k ∧ (why = NotUnread → 4096 < Z.of_nat (length d))
               | _ => False
               end) effs.

Lemma relays_gone k t effs j : relays k t effs → j ≠ k → gone j effs = [].
Proof.
  intros Hr Hj. unfold gone. induction Hr as [|e effs He _ IH]; [done|]. cbn.
  destruct e as [| |a b d|a d why|]; try done; destruct He as [-> _]; by rewrite decide_False by congruence.
Qed.

Lemma update_does s k c c2 t effs :
  wf s → table s !! k = Some c → write_handler c2 = write_handler c →
  logical (stream c) = gone k effs ++ logical (stream c2) → relays k t effs →
  (effs ≠ [] → write_handler c = Some t) → does s (with_conn k c2 s) effs.
Proof.
  intros W Hk Hw Hl Hr Ht. unfold relays in Hr. rewrite Forall_forall in Hr.
  assert ((∀ a src, Accepted a src ∉ effs) ∧ (∀ a src, Connected a src ∉ effs) ∧ ∀ a b, Paired a b ∉ effs) as (Ha & Hc & Hp)
    by (split_and!; by intros a b ?%Hr).
  assert (accepted effs = [] ∧ paired effs = []) as [Ea Ep].
  { unfold accepted, paired. split; apply elem_of_nil_inv; intros x ([] & Hin & [= ->])%list_elem_of_omap; by apply Hr in Hin. }
  split; cbn [table with_conn next_conn conns].
  - intros j y Hy. destruct (decide (j = k)) as [->|Hne].
    + exists c2. rewrite lookup_insert_eq. split; [done|]. by assert (y = c) as -> by congruence.
    + exists y. rewrite lookup_insert_ne by done. split; [done|]. by rewrite (relays_gone k t) by (done || by apply Forall_forall).
  - intros a src [?|?]; [by destruct (Ha a src)|by destruct (Hc a src)].
  - done.
  - intros j Hj. apply (relays_gone k t); [by apply Forall_forall|]. intros ->.
    assert (k < next_conn s)%nat by (eapply wf_next; [done|by eexists]). lia.
  - by rewrite Ea, Ep, app_nil_r.
  - intros j x k' [[<- <-]|[Hne Hj]]%lookup_insert_Some Hx; left; [exists c; split; [done|congruence]|by exists x].
  - intros j t' d Hin. left. destruct (Hr _ Hin) as [-> ->]. exists c. split; [done|]. apply Ht. by intros ->; apply not_elem_of_nil in Hin.
  - intros j d Hin. by apply Hr in Hin as [_ ?]; auto.
Qed.

(** ** Reading and writing *)

Lemma with_conn_id s k c : table s !! k = Some c → with_conn k c s = s.
Proof. intros Hk. unfold with_conn. rewrite insert_id by done. by destruct s. Qed.

Lemma with_conn_twice s k c1 c2 : with_conn k c2 (with_conn k c1 s) = with_conn k c2 s.
Proof. unfold with_conn. cbn. by rewrite insert_insert_eq. Qed.

Lemma similar_refl s k c : wf s → table s !! k = Some c → similar c c.
Proof. intros W Hk. destruct (wf_conn _ W _ _ Hk) as [I R _ _]. split; auto. Qed.

Lemma live_target s k c b :
  wf s → table s !! k = Some c → bridge c = Live b →
  target b ≠ k ∧ write_handler c = Some (target b) ∧ close_handler c = true ∧
  ∃ c', table s !! target b = Some c' ∧ write_handler c' = Some k.
Proof.
  intros W Hk Hb. destruct (wf_conn _ W _ _ Hk) as [_ _ A P]. destruct (write_handler c) as [k'|].
  - destruct (P _ eq_refl) as (Hcl & Hne & c' & Hc' & Hw' & Hx). rewrite Hb in Hx. subst k'. eauto 10.
  - destruct (A eq_refl). congruence.
Qed.

(** A read that is asked for is pending, unless the other side takes nothing. *)
Definition reads (c c2 : EvdConnection) : Prop :=
  c2 = c ∨ c2 = set_locked true c ∨
  async_result (input c) = false ∧ closed c = false ∧
  c2 = set_input (evd_buffered_input_stream_read_async (input c) BRIDGE_BLOCK_SIZE) c.

Lemma bridge_read_eq s k c b c' writable :
  table s !! k = Some c → bridge c = Live b → table s !! target b = Some c' →
  ∃ c2, evd_reproxy_bridge_read s k writable = Some (with_conn k c2 s) ∧ reads c c2.
Proof.
  intros Hk Hb Hc'. unfold evd_reproxy_bridge_read, get_bridge, evd_connection_get_max_writable.
  rewrite Hk. run_bind. rewrite Hb. run_bind. rewrite Hc'. run_bind.
  destruct (0 <? (if closed c' then 0 else writable)); [|eexists; split; [done|by right; left]].
  destruct (async_result (input c) || closed c) eqn:Ha.
  { exists c. rewrite with_conn_id by done. split; [done|by left]. }
  apply orb_false_iff in Ha as [Ha Hcl]. eexists. split; [done|]. by right; right.
Qed.

Lemma bridge_read_ok s k c b writable :
  wf s → table s !! k = Some c → bridge c = Live b →
  ∃ c2, evd_reproxy_bridge_read s k writable = Some (with_conn k c2 s) ∧ similar c c2 ∧
    logical (stream c2) = logical (stream c).
Proof.
  intros W Hk Hb. destruct (live_target _ _ _ _ W Hk Hb) as (_ & _ & _ & c' & Hc' & _).
  pose proof (similar_refl _ _ _ W Hk) as Hs. destruct (bridge_read_eq s k c b c' writable Hk Hb Hc') as (c2 & -> & Hr).
  exists c2. split; [done|]. destruct Hr as [->|[->|(Ha & Hcl & ->)]]; [done|split; [by destruct Hs|done]|].
  split; [|done]. destruct Hs as [? ? ? (Hm & Hl & _) ? ?]. split; try done. intros _. split; [exact Hcl|]. by exists b.
Qed.

(** The block of a read that has just ended goes on; what does not is given back, or lost. *)
Lemma bridge_write_ok s k c b taken writable :
  wf s → table s !! k = Some c → bridge c = Live b → async_result (input c) = false → buffer (input c) = [] →
  ∃ c2 effs, evd_reproxy_bridge_write s k taken writable = Some (with_conn k c2 s, effs) ∧ similar c c2 ∧
    relays k (target b) effs ∧ buf b ++ logical (stream c) = gone k effs ++ logical (stream c2).
Proof.
  intros W Hk Hb Ha Hnil. destruct (live_target _ _ _ _ W Hk Hb) as (_ & _ & _ & c' & Hc' & _).
  unfold evd_reproxy_bridge_write, get_bridge, g_output_stream_write. rewrite Hk. run_bind. rewrite Hb. run_bind. rewrite Hc'. run_bind.
  destruct (if closed c' then None else _) as [n|].
  2:{ exists c, [Lost k (buf b) WriteFailed]. rewrite with_conn_id by done. split; [done|]. split; [by eapply similar_refl|].
      split; [by repeat constructor|]. by rewrite gone_lost, gone_nil, app_nil_r. }
  destruct (Nat.ltb_spec n (length (buf b))) as [Hn|Hn].
  2:{ destruct (bridge_read_ok s k c b writable W Hk Hb) as (c2 & -> & Hsim & Hl). run_bind. exists c2, [Moved k (target b) (buf b)].
      split; [done|]. split; [done|]. split; [by repeat constructor|]. by rewrite gone_moved, gone_nil, app_nil_r, Hl. }
  unfold evd_buffered_input_stream_unread. set (rest := drop n (buf b)).
  assert (0 < length rest)%nat as Hr by (unfold rest; rewrite length_drop; lia).
  pose proof (similar_refl _ _ _ W Hk) as Hs. destruct (sim_input _ _ Hs) as (Hm & Hl & _).
  rewrite (proj2 (Z.eqb_neq _ _)) by lia. rewrite Hm, Hnil. cbn [length]. rewrite Z.add_0_l.
  destruct (Z.ltb_spec 4096 (Z.of_nat (length rest))) as [Hbig|Hsmall].
  - eexists (set_input (input c) c), _. split; [done|]. split; [by destruct Hs|].
    split; [by repeat constructor|]. rewrite gone_moved, gone_lost, gone_nil. unfold rest. by rewrite app_nil_r, take_drop.
  - set (i := if frozen _ then _ else _). assert (buffer i = rest ∧ max_buffer i = 4096 ∧ async_result i = false) as (Hbi & Hmi & Hai).
    { unfold i, evd_buffered_input_stream_thaw. cbn. rewrite Ha. destruct (frozen (input c)); cbn; by rewrite ?app_nil_r, ?Ha, ?Hnil, ?app_nil_r. }
    eexists (set_input i c), _. split; [done|]. split.
    { destruct Hs. split; try done; cbn; [split_and!; [done|rewrite Hbi; lia|by rewrite Hai]|by rewrite Hai]. }
    split; [by repeat constructor|]. rewrite gone_moved, gone_nil. unfold logical. cbn.
    rewrite app_nil_r, Hbi. unfold rest. change (buffer (input c)) with (buffer (BufferedInput.stream (stream c))) in Hnil.
    rewrite Hnil. cbn. by rewrite app_assoc, take_drop.
Qed.

(** A read of more than the buffer holds empties it. *)
Lemma read_block i size a i1 r :
  evd_buffered_input_stream_read i size a = (i1, r) → Z.of_nat (length (buffer i)) < size →
  max_buffer i1 = max_buffer i ∧ async_result i1 = async_result i ∧ actual_size i1 = actual_size i ∧
  requested_size i1 = requested_size i ∧ (if r is inl _ then frozen i = false ∧ buffer i1 = [] else True).
Proof.
  unfold evd_buffered_input_stream_read. intros E Hl. destruct (frozen i); [by injection E as <- <-|].
  rewrite Z.min_l in E by lia. rewrite (proj2 (Z.ltb_lt 0 (size - Z.of_nat (length (buffer i))))) in E by lia.
  assert (∀ q, q = (if 0 <? Z.of_nat (length (buffer i)) then set_buffer (drop (Z.to_nat (Z.of_nat (length (buffer i)))) (buffer i)) i else i) →
    max_buffer q = max_buffer i ∧ async_result q = async_result i ∧ actual_size q = actual_size i ∧
    requested_size q = requested_size i ∧ buffer q = []) as Hq.
  { intros q ->. destruct (Z.ltb_spec 0 (Z.of_nat (length (buffer i)))); cbn; split_and!; try done.
    - by rewrite Nat2Z.id, drop_all.
    - by destruct (buffer i); [|cbn in *; lia]. }
  destruct (Hq _ eq_refl) as (? & ? & ? & ? & ?).
  destruct a; [injection E as <- <-; by split_and!| |];
    (destruct (0 <? _); injection E as <- <-; by split_and!).
Qed.

(** What a run of the idle source of an input does. *)
Lemma do_read_ok i src a src' i' evs :
  input_ok i → answers src (wants i (requested_size i)) a src' → do_read i a = (i', evs) →
  let left := if async_result i && (0 <? wants i (requested_size i)) then src' else src in
  input_ok i' ∧
  ((evs = [] ∧ async_result i' = async_result i ∧ buffer i ++ src = buffer i' ++ left) ∨
   (∃ e, evs = [AsyncDone (inr e)] ∧ async_result i' = false ∧ buffer i ++ src = buffer i' ++ left) ∨
   ∃ data, evs = [Delivered data; AsyncDone (inl (Z.of_nat (length data)))] ∧ data ≠ [] ∧ async_result i = true ∧
     async_result i' = false ∧ buffer i' = [] ∧ buffer i ++ src = data ++ left).
Proof.
  intros (Hm & Hl & Hreq) Ha E left. assert (async_result i = true → 0 <= requested_size i) as Hnn by (intros ?; by destruct Hreq as [-> _]).
  revert E. unfold do_read. cbn [async_result set_source]. destruct (async_result i) eqn:Hasync; cbn [negb].
  2:{ intros [= <- <-]. split; [split_and!; cbn; [done|done|congruence]|]. left. split_and!; [done|by cbn|done]. }
  pose proof (idle_pushback i src a src' i' evs (Hnn eq_refl) Ha) as Hp. unfold do_read in Hp. cbn [async_result set_source] in Hp.
  rewrite Hasync in Hp. cbn [negb andb] in Hp. destruct (Hreq eq_refl) as [Hr8 Hz].
  change (requested_size (set_source false i)) with (requested_size i) in *.
  destruct (evd_buffered_input_stream_read _ _ a) as [i1 r] eqn:Er.
  destruct (read_block (set_source false i) (requested_size i) a i1 r Er) as (Hm1 & Ha1 & Hz1 & Hq1 & Hb1); [by rewrite Hr8; cbn; unfold BRIDGE_BLOCK_SIZE; lia|].
  cbn in Hm1, Ha1, Hz1, Hq1. destruct r as [data|e].
  - destruct Hb1 as [_ Hb1]. destruct (Z.eqb_spec (Z.of_nat (length data)) 0) as [E0|E0]; cbn [negb]; intros [= <- <-]; cbn [negb] in Hp.
    + split; [split_and!; cbn; [congruence|by rewrite Hb1|intros _; split; congruence]|].
      left. split_and!; [done|by cbn; congruence|]. specialize (Hp eq_refl). cbn in Hp. injection Hp as Hp. exact Hp.
    + split; [split_and!; cbn; [congruence|by rewrite Hb1|done]|]. right. right. exists data.
      specialize (Hp eq_refl). cbn in Hp. destruct (decide _) as [Ht|]; [|done]. injection Hp as Hp. cbn.
      rewrite Hz1, Hz. split_and!; try done; [by intros ->|]. rewrite Hb1 in Hp. cbn in Hp.
      rewrite <-(take_drop (length data) (buffer i ++ src)), Ht. f_equal. exact Hp.
  - pose proof (read_error_same _ _ _ _ _ Er) as ->.
    destruct e; intros [= <- <-]; specialize (Hp eq_refl); cbn in Hp; injection Hp as Hp;
      (split; [split_and!; cbn; done || congruence|]); [left; done|right; left; eauto..].
Qed.

(** The proxy goes on, and does so much. *)
Definition goes_on s (r : option (EvdReproxy * list effect)) : Prop :=
  ∃ s' effs, r = Some (s', effs) ∧ wf s' ∧ does s s' effs.

Lemma stays s : wf s → goes_on s (Some (s, [])).
Proof. intros W. exists s, []. split_and!; [done..|apply does_refl]. Qed.

(** A connection without effects changes, seen as such. *)
Lemma update_goes_on s k c c2 :
  wf s → table s !! k = Some c → similar c c2 → logical (stream c2) = logical (stream c) →
  goes_on s (Some (with_conn k c2 s, [])).
Proof.
  intros W Hk Hs Hl. exists (with_conn k c2 s), []. split; [done|]. split; [by apply (proxy_update_wf s k c)|].
  apply (update_does s k c c2 k); try done; [apply Hs|constructor].
Qed.

Lemma supply_answers i src r :
  let want := wants i (requested_size i) in
  let n := match r with Bytes n => (n `min` (Z.to_nat want `min` length src))%nat | _ => O end in
  answers src want (match r with Bytes _ => Got (take n src) | Nothing => WouldBlock | Broken => Failed end) (drop n src).
Proof.
  cbn zeta. assert (0 <= wants i (requested_size i)) as Hw by (unfold wants; destruct (frozen i); lia).
  destruct r as [n| |]; [|constructor..]. set (m := (n `min` _)%nat).
  rewrite <-(Nat2Z.id m). constructor; lia.
Qed.

Lemma read_source_goes_on s k r taken writable : wf s → goes_on s (read_source s k r taken writable).
Proof.
  intros W. unfold read_source. destruct (table s !! k) as [c|] eqn:Hk; [|by apply stays].
  destruct (negb (read_src (input c))); [by apply stays|].
  pose proof (supply_answers (input c) (source (stream c)) r) as Ha. cbn zeta in Ha |- *.
  set (n := match r with Bytes n => _ | _ => O end) in *. set (a := match r with Bytes _ => Got (take n (source (stream c))) | Nothing => WouldBlock | Broken => Failed end) in *.
  destruct (do_read (input c) a) as [i' evs] eqn:Er. pose proof (similar_refl _ _ _ W Hk) as Hs.
  destruct (do_read_ok _ _ _ _ _ _ (sim_input _ _ Hs) Ha Er) as [Hi' Hcase].
  set (left := if async_result (input c) && _ then _ else _) in *.
  set (c1 := set_stream (BufferedInput.mkWorld i' left) c).
  assert ((async_result i' = true → async_result (input c) = true) → similar c c1) as Hsim.
  { intros Hmono. destruct Hs as [? ? ? ? Hrd ?]. split; try done. intros Ht%Hmono%Hrd. exact Ht. }
  destruct Hcase as [(-> & Hasync & Hl)|[(e & -> & Hasync & Hl)|(data & -> & Hne & Hasync & Hasync' & Hb' & Hl)]].
  - apply (update_goes_on s k c c1); [done|done|apply Hsim; congruence|by symmetry].
  - apply (update_goes_on s k c c1); [done|done|apply Hsim; congruence|by symmetry].
  - unfold evd_reproxy_bridge_on_read. rewrite (proj2 (Z.ltb_lt _ _)) by (destruct data; [done|cbn; lia]).
    destruct (sim_reading _ _ Hs Hasync) as [Hcl [b Hb]].
    assert (similar c c1) as Hs1 by (apply Hsim; congruence).
    unfold get_bridge. cbn [table with_conn]. rewrite !lookup_insert_eq. run_bind. cbn [bridge c1 set_stream]. rewrite Hb. run_bind.
    rewrite with_conn_twice. set (c2 := set_bridge (Live (mkBridge (target b) data)) c1).
    assert (similar c c2) as Hs2.
    { destruct Hs1. split; try done; [intros Ht; cbn in Ht; congruence|]. right. exists b, (mkBridge (target b) data). by split_and!. }
    destruct (bridge_write_ok (with_conn k c2 s) k c2 (mkBridge (target b) data) taken writable) as (c3 & effs & -> & Hs3 & Hr & Hlog);
      [by apply (proxy_update_wf s k c)|apply lookup_insert_eq|done..|].
    rewrite with_conn_twice. exists (with_conn k c3 s), effs. split; [done|].
    assert (similar c c3) as Hs03 by by eapply similar_trans.
    split; [by apply (proxy_update_wf s k c)|]. apply (update_does s k c c3 (target b)); try done; [apply Hs03| |].
    + rewrite <-Hlog. cbn [buf]. unfold logical at 1. change (BufferedInput.stream (stream c)) with (input c). rewrite Hl.
      f_equal. unfold logical. cbn. by rewrite Hb'.
    + intros _. by destruct (live_target _ _ _ _ W Hk Hb) as (_ & ? & _).
Qed.

(** ** The signals *)

Definition quietly s (r : option EvdReproxy) : Prop := ∃ s', r = Some s' ∧ wf s' ∧ does s s' [].

Lemma quietly_goes_on s r : quietly s r → goes_on s (quiet r).
Proof. intros (s' & -> & W & D). by exists s', []. Qed.

Lemma quietly_trans s1 s2 r : does s1 s2 [] → quietly s2 r → quietly s1 r.
Proof. intros D (s' & -> & W & D'). exists s'. split_and!; [done..|]. by apply (does_trans s1 s2 s' [] []). Qed.

Lemma update_quietly s k c c2 :
  wf s → table s !! k = Some c → similar c c2 → logical (stream c2) = logical (stream c) → quietly s (Some (with_conn k c2 s)).
Proof. intros W Hk Hs Hl. destruct (update_goes_on s k c c2 W Hk Hs Hl) as (s' & e & [= <- <-] & W' & D). by exists (with_conn k c2 s). Qed.

(** Only lists of pending work change. *)
Lemma does_same s s' : table s' = table s → next_conn s' = next_conn s → conns s' = conns s → does s s' [].
Proof.
  intros Ht Hn Hc. pose proof (does_refl s) as [K N X G Q Hh M L]. split; rewrite ?Ht, ?Hn, ?Hc; done.
Qed.

Lemma closing_wf s l : wf s → (∀ j, j ∈ l → is_Some (table s !! j)) → wf (with_closing l s).
Proof. intros [] Hl. split; try done. intros k c Hk. destruct (wf_conn0 k c Hk). by split. Qed.

Lemma flushing_wf s l :
  wf s → (∀ k, k ∈ l → ∃ c b, table s !! k = Some c ∧ bridge c = Live b ∧ closed c = true) → wf (with_flushing l s).
Proof. intros [] Hl. split; try done. intros k c Hk. destruct (wf_conn0 k c Hk). by split. Qed.

Lemma on_write_quietly s k writable : wf s → is_Some (table s !! k) → quietly s (evd_reproxy_bridge_on_write s k writable).
Proof.
  intros W [c Hk]. unfold evd_reproxy_bridge_on_write. rewrite Hk. run_bind.
  destruct (closed c) eqn:Hcl; [by exists s; split_and!; [..|apply does_refl]|].
  destruct (write_handler c) as [k0|] eqn:Hw; [|by exists s; split_and!; [..|apply does_refl]].
  destruct (co_pair _ _ _ (wf_conn _ W _ _ Hk) _ Hw) as (_ & Hne & c0 & Hk0 & Hw0 & _).
  destruct (co_pair _ _ _ (wf_conn _ W _ _ Hk0) _ Hw0) as (_ & _ & c' & Hk' & _ & Hb). assert (c' = c) as -> by congruence.
  destruct (bridge c0) as [|b|] eqn:Hb0; [done| |destruct Hb; congruence].
  unfold evd_connection_unlock_close. rewrite Hk0. run_bind.
  destruct (update_quietly s k0 c0 (set_locked false c0) W Hk0) as (s1 & [= <-] & W1 & D1); [|done|].
  { destruct (similar_refl _ _ _ W Hk0). by split. }
  set (s1 := with_conn k0 (set_locked false c0) s) in *.
  assert (table s1 !! k0 = Some (set_locked false c0)) as Hs1 by apply lookup_insert_eq.
  assert (∀ s2, table s2 = table s1 → does s s2 [] → wf s2 → quietly s (evd_reproxy_bridge_read s2 k0 writable)) as Hread.
  { intros s2 Ht2 D2 W2. rewrite <-Ht2 in Hs1. apply (quietly_trans s s2); [done|].
    destruct (bridge_read_ok s2 k0 _ b writable W2 Hs1 Hb0) as (c2 & -> & Hsim & Hl). by apply (update_quietly _ _ _ _ W2 Hs1). }
  destruct (delayed_close c0); [|by apply Hread].
  apply Hread; [done| |].
  - by apply (does_trans s s1 _ [] []); [|apply does_same].
  - apply closing_wf; [done|]. intros j [Hj| ->%list_elem_of_singleton]%elem_of_app; [by apply (wf_closing _ W1)|by eexists].
Qed.

(** A connection that closes starts the flush of the other side. *)
Lemma close_quietly s k :
  wf s → is_Some (table s !! k) →
  ∃ s', g_io_stream_close s k = Some s' ∧ wf s' ∧ does s s' [] ∧ (∀ j, j ≠ k → table s' !! j = table s !! j) ∧
    (∃ c, table s' !! k = Some c ∧ closed c = true) ∧ (∀ j, j ∈ flushing s' → j = k ∨ j ∈ flushing s).
Proof.
  intros W [c Hk]. unfold g_io_stream_close. rewrite Hk. run_bind. destruct (closed c) eqn:Hcl.
  { exists s. split_and!; try done; [apply does_refl|by exists c|by right]. }
  set (s1 := with_closing _ s). assert (wf s1) as W1.
  { apply closing_wf; [done|]. intros j [_ Hj]%list_elem_of_filter. by apply (wf_closing _ W). }
  set (c2 := set_closed _).
  assert (async_result (evd_buffered_input_stream_close (input c)).1 = false ∧
    buffer (evd_buffered_input_stream_close (input c)).1 = buffer (input c) ∧
    max_buffer (evd_buffered_input_stream_close (input c)).1 = max_buffer (input c)) as (Ha & Hbu & Hm).
  { unfold evd_buffered_input_stream_close. cbn. by destruct (async_result (input c)) eqn:Ea. }
  assert (similar c c2) as Hs.
  { destruct (similar_refl _ _ _ W Hk) as [? ? ? (Hm0 & Hl0 & _) ? ?]. split; [done|done|done| |cbn; by rewrite Ha|by left].
    cbn. split_and!; [by rewrite Hm|by rewrite Hbu|by rewrite Ha]. }
  destruct (update_quietly s1 k c c2 W1 Hk Hs) as (s2 & [= <-] & W2 & D2).
  { unfold logical. cbn. change (BufferedInput.stream (stream c)) with (input c). by rewrite Hbu. }
  set (s2 := with_conn k c2 s1) in *.
  assert (does s s2 []) as D by (apply (does_trans s s1 s2 [] []); [by apply does_same|done]).
  assert (∀ j, j ≠ k → table s2 !! j = table s !! j) as Hj by (intros; by apply lookup_insert_ne).
  assert (table s2 !! k = Some c2) as Hk2 by apply lookup_insert_eq.
  destruct (close_handler c) eqn:Hh; [|exists s2; split_and!; try done; [by exists c2|by right]].
  assert (∃ b, bridge c = Live b) as [b Hb].
  { destruct (wf_conn _ W _ _ Hk) as [_ _ A P]. destruct (write_handler c) as [k'|]; [|by destruct (A eq_refl); congruence].
    destruct (P _ eq_refl) as (_ & _ & c' & _ & _ & Hb). destruct (bridge c) as [|b|]; [done|by exists b|by destruct Hb; congruence]. }
  destruct (live_target s2 k c2 b W2 Hk2 Hb) as (_ & _ & _ & c' & Hc' & _).
  unfold evd_reproxy_connection_on_close, get_bridge. rewrite Hk2. run_bind. cbn [bridge c2 set_closed set_input set_stream]. rewrite Hb. run_bind.
  rewrite Hc'. run_bind. exists (with_flushing (flushing s2 ++ [k]) s2). split; [done|]. split.
  { apply flushing_wf; [done|]. intros j [Hin| ->%list_elem_of_singleton]%elem_of_app; [by apply (wf_flushing _ W2)|].
    exists c2, b. split_and!; done. }
  split; [by apply (does_trans s s2 _ [] []); [|apply does_same]|]. split; [done|]. split; [by exists c2|].
  cbn. intros j [?| ->%list_elem_of_singleton]%elem_of_app; auto.
Qed.

(** Both sides are closed: the bridge of one is freed. *)
Lemma freed_wf s k c b c' :
  wf s → table s !! k = Some c → bridge c = Live b → closed c = true → table s !! target b = Some c' → closed c' = true →
  k ∉ flushing s → wf (with_conn k (set_bridge Freed c) s).
Proof.
  intros W Hk Hb Hcl Hc' Hcl' Hfl. destruct (live_target _ _ _ _ W Hk Hb) as (Hne & Hw & Hh & c1 & Hc1 & Hw1).
  assert (c1 = c') as -> by congruence. set (c2 := set_bridge Freed c).
  assert (∀ j y, j ≠ k → table s !! j = Some y → ∃ x, table (with_conn k c2 s) !! j = Some x ∧ x = y) as Hoth.
  { intros j y Hj Hy. exists y. cbn. by rewrite lookup_insert_ne. }
  destruct W as [Wc Wn Wq Wd Wf Wx Wb Wo]. split; try done.
  - cbn. intros j x [[<- <-]|[Hj Hx]]%lookup_insert_Some.
    + destruct (Wc _ _ Hk) as [I R A P]. split.
      * done.
      * cbn. intros Ha. destruct (R Ha). congruence.
      * cbn. intros Hn. congruence.
      * intros k' Hk'. cbn in Hk'. assert (k' = target b) as -> by congruence. split_and!; [done..|].
        exists c'. cbn. rewrite lookup_insert_ne by done. by split_and!.
    + destruct (Wc _ _ Hx) as [I R A P]. split; [done..|]. intros k' Hk'. destruct (P _ Hk') as (? & ? & y & Hy & Hwy & Hby).
      split; [done|]. split; [done|]. cbn. destruct (decide (k' = k)) as [->|].
      * assert (y = c) as -> by congruence. exists c2. rewrite lookup_insert_eq. by split_and!.
      * exists y. by rewrite lookup_insert_ne.
  - cbn. intros j [<-|[_ Hj]]%lookup_insert_is_Some; apply Wn; [by eexists|done].
  - intros j Hj. destruct (Wq _ Hj) as (y & Hy & Hwy). assert (j ≠ k) by (intros ->; congruence). exists y. cbn. by rewrite lookup_insert_ne.
  - intros j Hj. assert (j ≠ k) by (intros ->; done). cbn. rewrite lookup_insert_ne by done. by apply Wf.
  - intros j Hj. cbn. apply lookup_insert_is_Some. destruct (decide (k = j)); [by left|right]. split; [done|]. by apply Wx.
Qed.

Lemma on_flush_quietly s k : wf s → k ∈ flushing s →
  quietly s (evd_reproxy_connection_on_flush (with_flushing (filter (.≠ k) (flushing s)) s) k).
Proof.
  intros W Hin. destruct (wf_flushing _ W _ Hin) as (c & b & Hk & Hb & Hcl).
  set (s1 := with_flushing _ s). assert (wf s1) as W1.
  { apply flushing_wf; [done|]. intros j [_ Hj]%list_elem_of_filter. by apply (wf_flushing _ W). }
  destruct (live_target s1 k c b W1 Hk Hb) as (Hne & _ & _ & c' & Hc' & _).
  destruct (close_quietly s1 (target b) W1) as (s2 & E & W2 & D2 & Hoth & (c2 & Hc2 & Hcl2) & Hfl); [by eexists|].
  unfold evd_reproxy_connection_on_flush, get_bridge. change (table s1 !! k) with (table s !! k). rewrite Hk. run_bind. rewrite Hb. run_bind.
  rewrite E. run_bind. rewrite Hoth by done. change (table s1 !! k) with (table s !! k). rewrite Hk. run_bind.
  assert (table s2 !! k = Some c) as Hk2 by by rewrite Hoth.
  exists (with_conn k (set_bridge Freed c) s2). split; [done|]. split.
  { apply (freed_wf s2 k c b c2); try done. intros [->|Hf]%Hfl; [done|]. by apply list_elem_of_filter in Hf as [? _]. }
  apply (does_trans s s1 _ [] []); [by apply does_same|]. apply (does_trans s1 s2 _ [] []); [done|].
  apply (update_does s2 k c _ k); try done; [constructor].
Qed.

(** ** Clients and backends *)

Lemma choose_backend_ok s : wf s →
  ∃ nx node, choose_backend s = Some (with_next nx s, node) ∧
    (match nx with Some i => (i < length (backends s))%nat | None => backends s = [] end) ∧
    match node with Some i => (i < length (backends s))%nat | None => True end.
Proof.
  intros W. pose proof (wf_node _ W) as Hn. destruct (next_backend_node s) as [i|] eqn:Ei.
  - rewrite (choose_backend_eq s i) by done. destruct (list_find _ _) as [[k j]|] eqn:Ef.
    + apply list_find_Some in Ef as (_ & Hfree & _). unfold is_free in Hfree.
      destruct (backends s !! j) as [b|] eqn:Hb; [|done]. apply lookup_lt_Some in Hb. exists (Some j), (Some j). by split_and!.
    + eexists (Some _), (Some i). split_and!; [done| |done]. apply Nat.mod_upper_bound. lia.
  - exists None, None. split_and!; try done. unfold choose_backend, evd_reproxy_get_backend_with_free_connections. rewrite Ei.
    run_bind. unfold evd_reproxy_hop_backend. rewrite Ei. by destruct s; cbn in *; subst.
Qed.

(** A connection nobody uses yet. *)
Lemma fresh_none s : wf s → table s !! next_conn s = None.
Proof.
  intros W. destruct (table s !! next_conn s) eqn:E; [|done]. assert (next_conn s < next_conn s)%nat; [|lia].
  apply (wf_next _ W). by eexists.
Qed.

Lemma new_conn_ok s k src : conn_ok s k (new_connection src).
Proof. by split. Qed.

Lemma conn_ok_insert s s' k c j x :
  conn_ok s j x → table s !! k = None → table s' = <[k := c]> (table s) → conn_ok s' j x.
Proof.
  intros [I R A P] Hk Ht. split; [done..|]. intros k' Hk'. destruct (P _ Hk') as (? & ? & y & Hy & Hwy & Hby). split; [done|]. split; [done|].
  exists y. rewrite Ht, lookup_insert_ne by congruence. by split_and!.
Qed.

Lemma sum_list_insert (ns : list nat) i n m : ns !! i = Some n → (sum_list (<[i := m]> ns) + n = sum_list ns + m)%nat.
Proof.
  revert i. induction ns as [|x ns IH]; intros [|i] Hi; try done.
  - injection Hi as ->. change (sum_list (<[0%nat := m]> (n :: ns))) with (m + sum_list ns)%nat.
    change (sum_list (n :: ns)) with (n + sum_list ns)%nat. lia.
  - change (sum_list (<[S i := m]> (x :: ns))) with (x + sum_list (<[i := m]> ns))%nat.
    change (sum_list (x :: ns)) with (x + sum_list ns)%nat. specialize (IH i Hi). lia.
Qed.

Lemma accept_goes_on s src : wf s → goes_on s (exec (Accept src) s).
Proof.
  intros W. cbn [exec add_conn]. set (k := next_conn s). set (s1 := mkReproxy _ _ _ _ _ _ _).
  pose proof (fresh_none _ W) as Hf. fold k in Hf.
  assert (∃ bs nx, evd_reproxy_connection_accepted s1 k =
      Some (mkReproxy bs nx (conns s ++ [k]) (<[k := new_connection src]> (table s)) (S k) (flushing s) (closing s)) ∧
    length bs = length (backends s) ∧ (match nx with Some i => (i < length (backends s))%nat | None => backends s = [] end) ∧
    ∃ ns, Forall2 owes bs ns ∧ (sum_list ns <= S (length (conns s)))%nat) as (bs & nx & E & Hbs & Hnx & Howes).
  { destruct (choose_backend_ok s W) as (nx & node & E & Hnx & Hnode). destruct (wf_owes _ W) as (ns & Hns & Hsum).
    assert (choose_backend s1 = Some (with_next nx s1, node)) as E1.
    { pose proof (wf_node _ W) as Hn. destruct (next_backend_node s) as [i|] eqn:Ei.
      - rewrite (choose_backend_eq s i) in E by done. rewrite (choose_backend_eq s1 i) by done.
        change (is_free s1) with (is_free s). change (backends s1) with (backends s).
        destruct (list_find _ _) as [[]|]; by simplify_eq/=.
      - revert E. unfold choose_backend, evd_reproxy_get_backend_with_free_connections. cbn. rewrite Ei. run_bind.
        unfold evd_reproxy_hop_backend. cbn. rewrite Ei. cbn. intros [= E1 <-]. rewrite <-E1. done. }
    unfold evd_reproxy_connection_accepted. rewrite E1. run_bind. unfold evd_reproxy_get_backend_from_node. cbn [backends with_next s1].
    destruct node as [i|]; run_bind.
    - destruct (lookup_lt_is_Some_2 _ _ Hnode) as [b Hb]. rewrite Hb. run_bind.
      destruct (Forall2_lookup_l _ _ _ _ _ Hns Hb) as (n & Hni & Ho). destruct (request_owes b n Ho) as (b' & -> & Ho'). run_bind.
      do 2 eexists. split; [reflexivity|]. split; [apply length_insert|]. split; [done|]. exists (<[i := S n]> ns).
      split; [by apply Forall2_insert|]. pose proof (sum_list_insert ns i n (S n) Hni). lia.
    - do 2 eexists. split; [reflexivity|]. split; [done|]. split; [done|]. exists ns. split; [done|lia]. }
  rewrite E. run_bind. set (s2 := mkReproxy bs nx _ _ _ _ _). exists s2, [Accepted k src]. split; [done|].
  destruct W as [Wc Wn Wq Wd Wf Wx Wb Wo]. split.
  - split; cbn.
    + intros j x [[<- <-]|[_ Hj]]%lookup_insert_Some; [apply new_conn_ok|]. by apply (conn_ok_insert s s2 k (new_connection src)); [apply Wc|..].
    + intros j [<-|[_ Hj]]%lookup_insert_is_Some; [lia|]. apply Wn in Hj. fold k in Hj. lia.
    + intros j [Hj| ->%list_elem_of_singleton]%elem_of_app; [|exists (new_connection src); by rewrite lookup_insert_eq].
      destruct (Wq _ Hj) as (x & Hx & Hw). exists x. rewrite lookup_insert_ne by congruence. done.
    + apply NoDup_app. split_and!; [done| |apply NoDup_singleton]. intros j Hj ->%list_elem_of_singleton.
      destruct (Wq _ Hj) as (x & Hx & _). congruence.
    + intros j Hj. destruct (Wf _ Hj) as (x & b & Hx & ?). exists x, b. rewrite lookup_insert_ne by congruence. done.
    + intros j Hj. apply lookup_insert_is_Some'. right. by apply Wx.
    + destruct nx; [by rewrite Hbs|]. apply nil_length_inv. by rewrite Hbs, Hnx.
    + destruct Howes as (ns & ? & ?). exists ns. split; [done|]. rewrite length_app. cbn. lia.
  - split; cbn.
    + intros j x Hj. exists x. rewrite lookup_insert_ne by congruence. done.
    + intros j src' [Hin|Hin]; apply list_elem_of_singleton in Hin; [|done]. injection Hin as -> ->. split; [done|].
      exists (new_connection src). by rewrite lookup_insert_eq.
    + lia.
    + done.
    + done.
    + intros j x k' [[<- <-]|[_ Hj]]%lookup_insert_Some Hw; [done|]. left. by exists x.
    + by intros j t d ?%list_elem_of_singleton.
    + by intros j d ?%list_elem_of_singleton.
Qed.

(** What a connection is once it has got its other side [t]. *)
Record joined (t : nat) (c c' : EvdConnection) : Prop := mkJoined {
  j_write : write_handler c' = Some t;
  j_close : close_handler c' = true;
  j_bridge : ∃ b, bridge c' = Live b ∧ target b = t;
  j_input : input_ok (input c');
  j_reading : async_result (input c') = true → closed c' = false;
  j_closed : closed c' = closed c;
  j_logical : logical (stream c') = logical (stream c)
}.

Lemma reads_joined t c c1 c2 : joined t c c1 → reads c1 c2 → joined t c c2.
Proof.
  intros [] [->|[->|(Ha & Hcl & ->)]]; [done|done|]. destruct j_input0 as (? & ? & ?). by split.
Qed.

Lemma pair_good s s' k0 k1 c0 src c0' c1' :
  wf s → table s !! k0 = Some c0 → write_handler c0 = None → k1 = next_conn s →
  conns s = k0 :: conns s' → next_conn s' = S k1 → flushing s' = flushing s → closing s' = closing s →
  next_backend_node s' = next_backend_node s → length (backends s') = length (backends s) →
  (∃ ns, Forall2 owes (backends s') ns ∧ (sum_list ns <= length (conns s'))%nat) →
  table s' = <[k1 := c1']> (<[k0 := c0']> (table s)) → joined k1 c0 c0' → joined k0 (new_connection src) c1' →
  wf s' ∧ does s s' [Connected k1 src; Paired k0 k1].
Proof.
  intros W Hk0 Hw0 -> Hq Hn Hfl Hcl Hnode Hlen Howes Ht J0 J1. set (k1 := next_conn s) in *.
  pose proof (fresh_none _ W) as Hfresh. fold k1 in Hfresh. assert (k0 ≠ k1) as Hne by congruence.
  assert (table s' !! k0 = Some c0') as T0 by (by rewrite Ht, lookup_insert_ne, lookup_insert_eq by done).
  assert (table s' !! k1 = Some c1') as T1 by (by rewrite Ht, lookup_insert_eq).
  assert (∀ j, j ≠ k0 → j ≠ k1 → table s' !! j = table s !! j) as To by (intros; by rewrite Ht, !lookup_insert_ne by done).
  assert (∀ j x, table s' !! j = Some x → (j = k0 ∧ x = c0') ∨ (j = k1 ∧ x = c1') ∨ (j ≠ k0 ∧ j ≠ k1 ∧ table s !! j = Some x)) as Hcase.
  { intros j x Hj. destruct (decide (j = k0)) as [->|]; [left; split; congruence|].
    destruct (decide (j = k1)) as [->|]; [right; left; split; congruence|]. right; right. by rewrite <-To. }
  destruct W as [Wc Wn Wq Wd Wf Wx Wb Wo].
  assert (∀ j x, j ≠ k0 → j ≠ k1 → table s !! j = Some x → ∀ k', write_handler x = Some k' → k' ≠ k0 ∧ k' ≠ k1) as Hfar.
  { intros j x _ _ Hj k' Hk'. destruct (co_pair _ _ _ (Wc _ _ Hj) _ Hk') as (_ & _ & y & Hy & Hwy & _). split; intros ->; congruence. }
  split.
  - split; rewrite ?Hn, ?Hfl, ?Hcl, ?Hnode, ?Hlen.
    + intros j x [[-> ->]|[[-> ->]|(Hj0 & Hj1 & Hj)]]%Hcase.
      * destruct J0 as [Jw Jc (b & Jb & Jt) Ji Jr Jcl _]. split; [done|by eauto|congruence|]. intros k' Hk'. assert (k' = k1) as -> by congruence.
        split_and!; [done|done|]. exists c1'. split_and!; [done|apply J1|by rewrite Jb].
      * destruct J1 as [Jw Jc (b & Jb & Jt) Ji Jr Jcl _]. split; [done|by eauto|congruence|]. intros k' Hk'. assert (k' = k0) as -> by congruence.
        split_and!; [done|done|]. exists c0'. split_and!; [done|apply J0|by rewrite Jb].
      * destruct (Wc _ _ Hj) as [I R A P]. split; [done..|]. intros k' Hk'. destruct (P _ Hk') as (? & ? & y & Hy & Hwy & Hby).
        destruct (Hfar _ _ Hj0 Hj1 Hj _ Hk'). split_and!; [done..|]. exists y. by rewrite To.
    + intros j [x Hj]. apply Hcase in Hj as [[-> _]|[[-> _]|(_ & _ & Hj)]]; [|lia|]; assert (j < k1)%nat || assert (k0 < k1)%nat; try lia; apply Wn; by eexists.
    + intros j Hj. rewrite Hq in Wd, Wq. apply NoDup_cons in Wd as [Hni _]. destruct (Wq j) as (x & Hx & Hw); [by right|].
      exists x. rewrite To by congruence. done.
    + rewrite Hq in Wd. by apply NoDup_cons in Wd as [_ ?].
    + intros j Hj. destruct (Wf _ Hj) as (x & b & Hx & Hb & Hc). destruct (co_alone _ _ _ (Wc _ _ Hk0) Hw0) as [Hnb _].
      exists x, b. rewrite To by congruence. done.
    + intros j Hj. destruct (Wx _ Hj) as [x Hx]. rewrite Ht. apply lookup_insert_is_Some'. right. apply lookup_insert_is_Some'. by right.
    + destruct (next_backend_node s); [done|]. apply nil_length_inv. by rewrite Hlen, Wb.
    + done.
  - split.
    + intros j x Hj. assert (j ≠ k1) as Hj1 by congruence. change (gone j _) with (@nil Z). cbn.
      destruct (decide (j = k0)) as [->|]; [|exists x; by rewrite To]. assert (x = c0) as -> by congruence.
      exists c0'. split; [done|]. by rewrite (j_logical _ _ _ J0).
    + intros j src' [Hin|Hin]; rewrite elem_of_cons, list_elem_of_singleton in Hin; destruct Hin as [Hin|Hin]; try done.
      injection Hin as -> ->. split; [done|]. exists c1'. split; [done|]. by rewrite (j_logical _ _ _ J1).
    + lia.
    + done.
    + cbn. by rewrite app_nil_r.
    + intros j x k' [[-> ->]|[[-> ->]|(Hj0 & Hj1 & Hj)]]%Hcase Hw; [right|right|left; by exists x].
      * rewrite (j_write _ _ _ J0) in Hw. injection Hw as <-. left. by right; left.
      * rewrite (j_write _ _ _ J1) in Hw. injection Hw as <-. right. by right; left.
    + intros j t d Hin. rewrite elem_of_cons, list_elem_of_singleton in Hin. by destruct Hin.
    + intros j d Hin. rewrite elem_of_cons, list_elem_of_singleton in Hin. by destruct Hin.
Qed.

Lemma table_with_conn k c s : table (with_conn k c s) = <[k := c]> (table s).
Proof. done. Qed.

(** The two bridges of a client and the connection of a backend. *)
Lemma on_connection_eq s k0 rest k1 c0 src w0 w1 :
  conns s = k0 :: rest → k0 ≠ k1 → table s !! k0 = Some c0 → write_handler c0 = None → close_handler c0 = false →
  input_ok (input c0) → async_result (input c0) = false → table s !! k1 = Some (new_connection src) →
  ∃ s' c0' c1', evd_reproxy_backend_on_connection s (Some k1) w0 w1 = Some (s', [Paired k0 k1]) ∧
    s' = mkReproxy (backends s) (next_backend_node s) rest (<[k1 := c1']> (<[k0 := c0']> (table s))) (next_conn s) (flushing s) (closing s) ∧
    joined k1 c0 c0' ∧ joined k0 (new_connection src) c1'.
Proof.
  intros Hq Hne Hk0 Hw0 Hh0 Hi0 Ha0 Hk1. unfold evd_reproxy_backend_on_connection, evd_reproxy_connection_setup_bridge.
  rewrite Hk1. run_bind. cbn [conns with_conn with_conns table]. rewrite Hq. rewrite lookup_insert_ne by done. rewrite Hk0. run_bind.
  cbn [table with_conn with_conns]. rewrite lookup_insert_eq. run_bind.
  rewrite !lookup_insert_ne, lookup_insert_eq by done. run_bind.
  set (c0a := set_bridge (Live (mkBridge k1 [])) (set_close_handler c0)).
  set (c1a := set_write_handler k0 (set_close_handler (new_connection src))).
  match goal with |- context [evd_reproxy_bridge_read ?x k0 w1] => set (sa := x) end. assert (table sa = <[k1 := c1a]> (<[k0 := c0a]> (table s))) as Ta.
  { apply map_eq. intros j. cbn. destruct (decide (j = k1)) as [->|]; [by rewrite !lookup_insert_eq|].
    rewrite !(lookup_insert_ne _ k1) by done. destruct (decide (j = k0)) as [->|]; [by rewrite !lookup_insert_eq|].
    by rewrite !lookup_insert_ne by done. }
  assert (table sa !! k0 = Some c0a) as Ta0 by (by rewrite Ta, lookup_insert_ne, lookup_insert_eq by done).
  assert (table sa !! k1 = Some c1a) as Ta1 by (by rewrite Ta, lookup_insert_eq).
  destruct (bridge_read_eq sa k0 c0a (mkBridge k1 []) c1a w1 Ta0 eq_refl Ta1) as (c0b & E0 & R0).
  rewrite E0. run_bind. rewrite table_with_conn, lookup_insert_ne, Ta1 by done. run_bind.
  rewrite (lookup_insert_ne _ k1 k0), lookup_insert_eq by done. run_bind.
  set (c1b := set_bridge (Live (mkBridge k0 [])) c1a). set (c0c := set_write_handler k1 c0b).
  match goal with |- context [evd_reproxy_bridge_read ?x k1 w0] => set (sb := x) end. assert (table sb = <[k1 := c1b]> (<[k0 := c0c]> (table s))) as Tb.
  { apply map_eq. intros j. unfold sb. rewrite !table_with_conn, Ta. destruct (decide (j = k0)) as [->|].
    - by rewrite lookup_insert_eq, lookup_insert_ne, lookup_insert_eq by done.
    - rewrite (lookup_insert_ne _ k0) by done. destruct (decide (j = k1)) as [->|]; [by rewrite !lookup_insert_eq|].
      by rewrite !lookup_insert_ne by done. }
  assert (table sb !! k1 = Some c1b) as Tb1 by (by rewrite Tb, lookup_insert_eq).
  assert (table sb !! k0 = Some c0c) as Tb0 by (by rewrite Tb, lookup_insert_ne, lookup_insert_eq by done).
  destruct (bridge_read_eq sb k1 c1b (mkBridge k0 []) c0c w0 Tb1 eq_refl Tb0) as (c1c & E1 & R1). rewrite E1. run_bind.
  do 3 eexists. split; [done|]. split; [unfold with_conn; rewrite Tb, insert_insert_eq; reflexivity|]. split.
  - destruct Hi0 as (Hm & Hl & Hr).
    destruct R0 as [->|[->|(Ha & Hcl & ->)]]; split; try done; try (by eexists); try (by split_and!).
    all: intros Ht; change (async_result (input c0) = true) in Ht; congruence.
  - apply (reads_joined k0 _ c1b); [|done]. split; try done. by eexists.
Qed.

Lemma sum_list_lookup (ns : list nat) i n : ns !! i = Some n → (n <= sum_list ns)%nat.
Proof. intros Hi. pose proof (sum_list_insert ns i n 0 Hi). lia. Qed.

Lemma answer_goes_on s i src w0 w1 : wf s → goes_on s (exec (Answer i src w0 w1) s).
Proof.
  intros W. cbn [exec]. destruct (backends s !! i) as [b|] eqn:Hb; [|by apply stays]. run_bind.
  destruct (answer b) as [[ok b']|] eqn:Ea; [|by apply stays].
  destruct (wf_owes _ W) as (ns & Hns & Hsum). destruct (Forall2_lookup_l _ _ _ _ _ Hns Hb) as (n & Hni & Ho).
  destruct (answer_owes b n ok b' Ho Ea) as (n' & -> & Ho'). pose proof (sum_list_insert ns i (S n') n' Hni) as Hs.
  assert (Forall2 owes (<[i := b']> (backends s)) (<[i := n']> ns)) as Hns' by by apply Forall2_insert.
  destruct ok.
  2:{ cbn [evd_reproxy_backend_on_connection]. set (s1 := with_backends _ s). exists s1, []. split; [done|].
      split; [|by apply does_same]. destruct W. split; try done; [|cbn; rewrite length_insert; destruct (next_backend_node s); [done|by rewrite wf_node0]|].
      - intros k c Hk. destruct (wf_conn0 _ _ Hk). by split.
      - exists (<[i := n']> ns). split; [done|]. cbn. lia. }
  cbn [add_conn next_conn with_backends]. set (k1 := next_conn s). set (s1 := mkReproxy _ _ _ _ _ _ _).
  pose proof (sum_list_lookup ns i (S n') Hni). destruct (conns s) as [|k0 rest] eqn:Hq; [cbn in *; lia|].
  destruct (wf_queue _ W k0) as (c0 & Hk0 & Hw0); [rewrite Hq; by left|].
  pose proof (fresh_none _ W) as Hf. fold k1 in Hf. assert (k0 ≠ k1) as Hne by congruence.
  destruct (wf_conn _ W _ _ Hk0) as [Hi0 Hr0 Ha0 _]. destruct (Ha0 Hw0) as [Hb0 Hh0].
  assert (async_result (input c0) = false) as Has.
  { destruct (async_result (input c0)) eqn:Hx; [|done]. destruct (Hr0 eq_refl) as (_ & b0 & ?). congruence. }
  destruct (on_connection_eq s1 k0 rest k1 c0 src w0 w1) as (s' & c0' & c1' & E & -> & J0 & J1); try done.
  { cbn. by rewrite lookup_insert_ne. }
  { cbn. by rewrite lookup_insert_eq. }
  rewrite E. run_bind. do 2 eexists. split; [done|].
  apply (pair_good s _ k0 k1 c0 src c0' c1'); try done.
  - cbn. by rewrite length_insert.
  - exists (<[i := n']> ns). split; [done|]. cbn in *. lia.
  - cbn. apply map_eq. intros j. destruct (decide (j = k1)) as [->|]; [by rewrite !lookup_insert_eq|].
    rewrite !(lookup_insert_ne _ k1) by done. destruct (decide (j = k0)) as [->|]; [by rewrite !lookup_insert_eq|].
    by rewrite !lookup_insert_ne by done.
Qed.

(** ** Runs *)

Lemma exec_goes_on o s : wf s → goes_on s (exec o s).
Proof.
  intros W. destruct o as [|i|i e|src|i src w0 w1|k|k r taken writable|k writable|k|k|k|k];
    [..|by apply accept_goes_on|by apply answer_goes_on| |by apply read_source_goes_on| | | | |]; cbn [exec].
  - set (s1 := evd_reproxy_add_backend s). exists s1, []. split; [done|].
    assert (s1 = with_next (Some (default 0%nat (next_backend_node s))) (with_backends (backends s ++ [evd_connection_pool_new]) s)) as ->.
    { unfold s1, evd_reproxy_add_backend. cbn. destruct (next_backend_node s) eqn:E; [|done]. by destruct s; cbn in *; subst. }
    split; [|by apply does_same]. destruct W. split; try done.
    + intros k c Hk. destruct (wf_conn0 _ _ Hk). by split.
    + cbn. rewrite length_app. cbn. destruct (next_backend_node s); cbn; lia.
    + destruct wf_owes0 as (ns & Hns & Hsum). exists (ns ++ [0%nat]). split; [apply Forall2_app; [done|]; constructor; [apply new_owes|constructor]|].
      cbn. rewrite sum_list_with_app. cbn. lia.
  - by apply stays.
  - destruct (backends s !! i) as [b|] eqn:Hb; [|by apply stays]. destruct (wf_owes _ W) as (ns & Hns & Hsum).
    destruct (Forall2_lookup_l _ _ _ _ _ Hns Hb) as (n & Hni & Ho). destruct (step_owes b n e Ho) as (b' & -> & Ho'). run_bind.
    eexists _, []. split; [done|]. split; [|by apply does_same]. destruct W. split; try done.
    + intros k c Hk. destruct (wf_conn0 _ _ Hk). by split.
    + cbn. rewrite length_insert. destruct (next_backend_node s); [done|by rewrite wf_node0].
    + exists ns. split; [|done]. cbn. rewrite <-(list_insert_id ns i n) by done. by apply Forall2_insert.
  - destruct (table s !! k) as [c|] eqn:Hk; [|by apply stays]. apply (update_goes_on s k c); [done|done| |].
    + destruct (similar_refl _ _ _ W Hk) as [? ? ? (? & ? & ?) ? ?].
      assert (async_result (evd_buffered_input_stream_thaw (input c)) = async_result (input c) ∧
        buffer (evd_buffered_input_stream_thaw (input c)) = buffer (input c) ∧
        max_buffer (evd_buffered_input_stream_thaw (input c)) = max_buffer (input c) ∧
        requested_size (evd_buffered_input_stream_thaw (input c)) = requested_size (input c) ∧
        actual_size (evd_buffered_input_stream_thaw (input c)) = actual_size (input c)) as (Ea & Eb & Em & Er & Ez).
      { unfold evd_buffered_input_stream_thaw. by destruct (_ && _). }
      split; try done; cbn [input set_input set_stream stream BufferedInput.stream]; [|by rewrite Ea].
      unfold input_ok. by rewrite Ea, Eb, Em, Er, Ez.
    + unfold logical. cbn. by rewrite thaw_buffer.
  - destruct (table s !! k) eqn:Hk; [|by apply stays]. by apply quietly_goes_on, on_write_quietly.
  - destruct (table s !! k) as [c|] eqn:Hk; [|by apply stays]. destruct (closed c); [by apply stays|].
    destruct (close_locked c).
    + apply (update_goes_on s k c); try done. destruct (similar_refl _ _ _ W Hk). by split.
    + eexists _, []. split; [done|]. split; [|by apply does_same]. apply closing_wf; [done|].
      intros j [?| ->%list_elem_of_singleton]%elem_of_app; [by apply (wf_closing _ W)|by eexists].
  - destruct (decide _) as [Hin|]; [|by apply stays]. apply quietly_goes_on.
    destruct (close_quietly s k W (wf_closing _ W _ Hin)) as (s' & E & W' & D & _). by exists s'.
  - destruct (table s !! k) eqn:Hk; [|by apply stays]. apply quietly_goes_on.
    destruct (close_quietly s k W) as (s' & E & W' & D & _); [by eexists|]. by exists s'.
  - destruct (decide _) as [Hin|]; [|by apply stays]. apply quietly_goes_on. by apply on_flush_quietly.
Qed.

Lemma run_goes_on ops : ∀ s, wf s → goes_on s (run ops s).
Proof.
  induction ops as [|o ops IH]; intros s W; cbn [run]; [by apply stays|].
  destruct (exec_goes_on o s W) as (s1 & e1 & -> & W1 & D1). run_bind.
  destruct (IH s1 W1) as (s2 & e2 & -> & W2 & D2). run_bind. exists s2, (e1 ++ e2). split_and!; [done..|]. by eapply does_trans.
Qed.

Lemma proxy_init_wf : wf evd_reproxy_init.
Proof.
  split; cbn; try (by intros k ?%not_elem_of_nil); try apply NoDup_nil_2; try done.
  - intros k [c Hk]. by rewrite lookup_empty in Hk.
  - exists []. split; [constructor|done].
Qed.

(** C32. A client is given to the first backend, in the rotation from the current one, that has a free
    connection, which becomes the current one; when none has, to the current one, and the next of the
    list, or the first after the last, becomes current. *)
Theorem backend_choice s i :
  next_backend_node s = Some i → (i < length (backends s))%nat →
  choose_backend s =
    Some (match list_find (λ j, is_free s j = true) (rotation (length (backends s)) i) with
          | Some (_, j) => (with_next (Some j) s, Some j)
          | None => (with_next (Some ((i + 1) mod length (backends s))%nat) s, Some i)
          end).
Proof. apply choose_backend_eq. Qed.

(** Whatever happens to the backends, the connections and the flushes, in any order, a proxy never
    reads data that are not there or were freed; and the clients it accepted are, in the order they
    came, those that got a connection of a backend followed by those that wait. *)
Example clients_served_in_order (ops : list operation) :
  ∃ s effs, run ops evd_reproxy_init = Some (s, effs) ∧ accepted effs = paired effs ++ conns s.
Proof.
  destruct (run_goes_on ops _ proxy_init_wf) as (s & effs & E & _ & D). exists s, effs. split; [done|]. apply D.
Qed.

(** C31. At every moment of a run, what the remote side of a connection sent is, in order and without
    repetition, what went on to the other side or was lost to an error, what is kept in its input, and
    what was not read yet; it went only to the connection it was paired with; and the end of a block
    that could not be given back is longer than the 4096 bytes the input keeps. *)
Theorem relayed_in_order (ops : list operation) s effs :
  run ops evd_reproxy_init = Some (s, effs) →
  (∀ k src, arrives k src effs → ∃ c, table s !! k = Some c ∧
     src = gone k effs ++ buffer (input c) ++ source (stream c)) ∧
  (∀ from to data, Moved from to data ∈ effs → Paired from to ∈ effs ∨ Paired to from ∈ effs) ∧
  (∀ from data, Lost from data NotUnread ∈ effs → 4096 < Z.of_nat (length data)).
Proof.
  intros E. destruct (run_goes_on ops _ proxy_init_wf) as (s' & effs' & E' & _ & D). rewrite E in E'. injection E' as <- <-.
  split_and!.
  - intros k src (_ & c & Hc & Hs)%(d_new _ _ _ D). by exists c.
  - intros from to data [(c & Hc & _)|Hb]%(d_moved _ _ _ D); [cbn in Hc; by rewrite lookup_empty in Hc|exact Hb].
  - apply D.
Qed.

End Spec.

(** ** A proxy over connection pools *)

Definition demo_end (ops : list operation) : EvdReproxy * list effect := default (evd_reproxy_init, []) (run ops evd_reproxy_init).

(** A client and the connection of a backend. *)
Definition demo_pair (client server : list Z) : list operation :=
  [AddBackend; Accept client; PoolEvent 0 ConnectionPool.Connected; Answer 0 server 100 100].

(** A block that goes in two pieces, and one that comes back. *)
Definition demo_relay : list operation :=
  demo_pair [1; 2; 3] [9; 8] ++
  [RunRead 0 (Bytes 3) (Some 2%nat) 100; WriteSignal 1 100; RunRead 0 Nothing (Some 5%nat) 100; RunRead 1 (Bytes 9) (Some 9%nat) 100].

Lemma demo_relay_run : run demo_relay evd_reproxy_init = Some ((demo_end demo_relay).1, (demo_end demo_relay).2).
Proof.
  destruct (run_goes_on demo_relay _ proxy_init_wf) as (s & effs & E & _). unfold demo_end. by rewrite E.
Qed.

Lemma relayed_in_order_witness :
  (∀ k src, arrives k src (demo_end demo_relay).2 → ∃ c, table (demo_end demo_relay).1 !! k = Some c ∧
     src = gone k (demo_end demo_relay).2 ++ buffer (input c) ++ source (stream c)) ∧
  (∀ from to data, Moved from to data ∈ (demo_end demo_relay).2 →
     Paired from to ∈ (demo_end demo_relay).2 ∨ Paired to from ∈ (demo_end demo_relay).2) ∧
  (∀ from data, Lost from data NotUnread ∈ (demo_end demo_relay).2 → 4096 < Z.of_nat (length data)).
Proof. exact (relayed_in_order demo_relay (demo_end demo_relay).1 (demo_end demo_relay).2 demo_relay_run). Defined.

Example demo_relay_effects : (demo_end demo_relay).2 =
  [Accepted 0 [1; 2; 3]; Connected 1 [9; 8]; Paired 0 1; Moved 0 1 [1; 2]; Moved 0 1 [3]; Moved 1 0 [9; 8]].
Proof. vm_compute. reflexivity. Qed.

(** Two backends; the second has a connection to spare. *)
Definition demo_backends : EvdReproxy := (demo_end [AddBackend; AddBackend; PoolEvent 1 ConnectionPool.Connected]).1.

Lemma backend_choice_witness : choose_backend demo_backends =
  Some (match list_find (λ j, is_free demo_backends j = true) (rotation (length (backends demo_backends)) 0) with
        | Some (_, j) => (with_next (Some j) demo_backends, Some j)
        | None => (with_next (Some ((0 + 1) mod length (backends demo_backends))%nat) demo_backends, Some 0%nat)
        end).
Proof. apply (backend_choice demo_backends 0); [vm_compute; reflexivity|apply Nat.ltb_lt; vm_compute; reflexivity]. Defined.

Example demo_choice : snd <$> choose_backend demo_backends = Some (Some 1%nat).
Proof. vm_compute. reflexivity. Qed.

(** ** Defects *)

(** What is left of a block is lost when it is longer than the 4096 bytes the input keeps: a block has
    up to 8193. *)
Example short_write_loses_block :
  let src := replicate 5000 7 in
  drop 3 (demo_end (demo_pair src [] ++ [RunRead 0 (Bytes 5000) (Some 10%nat) 100])).2 =
    [Moved 0 1 (replicate 10 7); Lost 0 (replicate 4990 7) NotUnread].
Proof. vm_compute. reflexivity. Qed.

(** A write that fails loses the block, and no read is started: the relay stops with both sides open. *)
Example failed_write_stops_relay :
  let '(s, effs) := demo_end (demo_pair [1; 2; 3] [] ++ [RunRead 0 (Bytes 2) None 100]) in
  drop 3 effs = [Lost 0 [1; 2] WriteFailed] ∧
  (λ c, (closed c, async_result (input c), source (stream c))) <$> table s !! 0%nat = Some (false, false, [3]).
Proof. vm_compute. split; reflexivity. Qed.

(** What waits in the input for the other side to take more is dropped when the connection hangs up. *)
Example hangup_drops_waiting_block :
  let '(s, effs) := demo_end (demo_pair [1; 2; 3] [] ++ [RunRead 0 (Bytes 3) (Some 1%nat) 100; Hangup 0; RunClose 0; Flushed 0]) in
  drop 3 effs = [Moved 0 1 [1]] ∧
  (λ c, (closed c, buffer (input c))) <$> table s !! 0%nat = Some (true, [2; 3]) ∧ closed <$> table s !! 1%nat = Some true.
Proof. vm_compute. split_and!; reflexivity. Qed.

(** A client that closes before it is served locks the connection of the backend it is given, which
    does not close any more when its remote side hangs up. *)
Example closed_client_locks_server :
  let s := (demo_end [AddBackend; Accept []; Close 0; PoolEvent 0 ConnectionPool.Connected; Answer 0 [] 100 100; Hangup 1]).1 in
  (λ c, (closed c, close_locked c, delayed_close c)) <$> table s !! 1%nat = Some (false, true, true) ∧
  closing s = [] ∧ flushing s = [].
Proof. vm_compute. split_and!; reflexivity. Qed.

(** A client accepted before there is a backend takes the connection asked for the next one, which waits
    though nothing was asked for it. *)
Example client_without_request_waits :
  let s := (demo_end [Accept []; AddBackend; Accept []; PoolEvent 0 ConnectionPool.Connected; Answer 0 [] 100 100;
                      PoolEvent 0 ConnectionPool.Connected; Answer 0 [] 100 100]).1 in
  conns s = [1%nat] ∧ next_conn s = 3%nat.
Proof. vm_compute. split; reflexivity. Qed.

(** Removing a backend removes nothing: the test is on the proxy, which is not a pool. *)
Example backend_never_removed s i : evd_reproxy_remove_backend s i = s.
Proof. done. Qed.

End ReproxySpec.
