(* ===== verification/TlsDhGenerator.v ===== *)
(** * Diffie-Hellman parameters (src/evd/evd-tls-dh-generator.c): model and theorems

    Parameters take long to generate: a thread does it, requests for the same length wait in the queue
    of one source, and a cache keeps the source for later requests.  A region that holds a mutex is one
    step of its thread, and what comes before it is another, so that the main thread and the workers
    interleave.  Parameters, sources and results have names; the cancellation of a request is not
    modelled.  [None] stands for memory that is read after it was freed. *)
From S2P Require Import Prelude.

Module TlsDhGenerator.

(** The mutex is [true] when a thread holds it from a step to another. *)
Record EvdTlsDhParamsSource := mkSource {
  dh_bits : Z;
  dh_params : option nat;
  queue : option (list nat);      (* [None] when it was freed *)
  mutex : bool
}.

(** What is set in a result. *)
Inductive outcome := Params (p : nat) | Error.

(** The main thread in [evd_tls_dh_generator_generate], with the source it has found. *)
Record call := mkCall { bit_length : Z; regenerate : bool; found : nat }.

Record EvdTlsDhGenerator := mkGenerator {
  cache : gmap Z nat;
  sources : gmap nat EvdTlsDhParamsSource;
  params : gmap nat Z;                       (* the parameters that exist, with their length *)
  results : gmap nat outcome;
  caller : option call;
  workers : list (nat * nat);                (* the threads, with their result and their source *)
  hung : list (nat * nat);                   (* those that wait for the mutex they hold *)
  idle : list nat;                           (* the results that complete in idle *)
  next_source : nat;
  next_params : nat;
  next_result : nat
}.

Inductive event :=
  | Requested (r : nat) (bits : Z)
  | Generated (p : nat) (bits : Z)
  | Answered (r : nat) (o : option outcome).

Definition with_cache m g := mkGenerator m (sources g) (params g) (results g) (caller g) (workers g) (hung g) (idle g) (next_source g) (next_params g) (next_result g).
Definition with_sources m g := mkGenerator (cache g) m (params g) (results g) (caller g) (workers g) (hung g) (idle g) (next_source g) (next_params g) (next_result g).
Definition with_params m g := mkGenerator (cache g) (sources g) m (results g) (caller g) (workers g) (hung g) (idle g) (next_source g) (next_params g) (next_result g).
Definition with_results m g := mkGenerator (cache g) (sources g) (params g) m (caller g) (workers g) (hung g) (idle g) (next_source g) (next_params g) (next_result g).
Definition with_caller c g := mkGenerator (cache g) (sources g) (params g) (results g) c (workers g) (hung g) (idle g) (next_source g) (next_params g) (next_result g).
Definition with_workers l g := mkGenerator (cache g) (sources g) (params g) (results g) (caller g) l (hung g) (idle g) (next_source g) (next_params g) (next_result g).
Definition with_hung l g := mkGenerator (cache g) (sources g) (params g) (results g) (caller g) (workers g) l (idle g) (next_source g) (next_params g) (next_result g).
Definition with_idle l g := mkGenerator (cache g) (sources g) (params g) (results g) (caller g) (workers g) (hung g) l (next_source g) (next_params g) (next_result g).

Definition evd_tls_dh_generator_init : EvdTlsDhGenerator := mkGenerator ∅ ∅ ∅ ∅ None [] [] [] 0 0 0.

Definition new_result g : EvdTlsDhGenerator * nat :=
  (mkGenerator (cache g) (sources g) (params g) (results g) (caller g) (workers g) (hung g) (idle g) (next_source g) (next_params g) (S (next_result g)), next_result g).

Definition new_params (bits : Z) g : EvdTlsDhGenerator * nat :=
  (mkGenerator (cache g) (sources g) (<[next_params g := bits]> (params g)) (results g) (caller g) (workers g) (hung g) (idle g) (next_source g) (S (next_params g)) (next_result g), next_params g).

Definition new_source (s : EvdTlsDhParamsSource) g : EvdTlsDhGenerator * nat :=
  (mkGenerator (cache g) (<[next_source g := s]> (sources g)) (params g) (results g) (caller g) (workers g) (hung g) (idle g) (S (next_source g)) (next_params g) (next_result g), next_source g).

(** ** Operations *)

(** [Some None] when it waits for the mutex. *)
Definition evd_tls_dh_generator_free_source (k : nat) g : option (option EvdTlsDhGenerator) :=
  source ← sources g !! k;
  if mutex source then Some None
  else
    let g := match dh_params source with Some p => with_params (delete p (params g)) g | None => g end in
    Some (Some (with_sources (delete k (sources g)) g)).

(** A new source, with the thread that generates its parameters; its result is in the queue too. *)
Definition start_source (bits : Z) g : EvdTlsDhGenerator * list event :=
  let '(g, result) := new_result g in
  let '(g, source) := new_source (mkSource bits None (Some [result]) false) g in
  let g := with_cache (<[bits := source]> (cache g)) g in
  (with_workers (workers g ++ [(result, source)]) g, [Requested result bits]).

(** The look up in the cache; what follows it holds the mutex of the source. *)
Definition evd_tls_dh_generator_generate (bits : Z) (regenerate : bool) g
  : EvdTlsDhGenerator * list event :=
  if bits <=? 0 then (g, [])
  else
    match cache g !! bits with
    | Some k => (with_caller (Some (mkCall bits regenerate k)) g, [])
    | None => start_source bits g
    end.

(** The rest of a call that has found a source; it stays when the mutex is held. *)
Definition generate_locked (c : call) g : option (EvdTlsDhGenerator * list event) :=
  source ← sources g !! found c;
  if mutex source then Some (g, [])
  else
    let g := with_caller None g in
    match dh_params source with
    | Some p =>
        if regenerate c then
          let g := with_cache (delete (dh_bits source) (cache g)) g in
          freed ← evd_tls_dh_generator_free_source (found c) g;
          match freed with
          | Some g => Some (start_source (bit_length c) g)
          | None => Some (g, [])
          end
        else
          let '(g, result) := new_result g in
          let g := with_results (<[result := Params p]> (results g)) g in
          Some (with_idle (idle g ++ [result]) g, [Requested result (bit_length c)])
    | None =>
        let '(g, result) := new_result g in
        let source := mkSource (dh_bits source) None ((λ q, q ++ [result]) <$> queue source) false in
        Some (with_sources (<[found c := source]> (sources g)) g, [Requested result (bit_length c)])
    end.

(** The items of the queue get their outcome; all but the result of the thread complete in idle. *)
Fixpoint answer_queue (items : list nat) (res : nat) (o : outcome) g : EvdTlsDhGenerator :=
  match items with
  | [] => g
  | item :: items =>
      let g := with_results (<[item := o]> (results g)) g in
      answer_queue items res o
        (if bool_decide (item = res) then g else with_idle (idle g ++ [item]) g)
  end.

(** How the region of a thread that holds the mutex ends. *)
Inductive thread_end := Ended | Hangs.

(** [generated] is what GnuTLS answers. *)
Definition evd_tls_dh_generator_generate_func (res k : nat) (generated : bool) g
  : option (EvdTlsDhGenerator * list event * thread_end) :=
  source ← sources g !! k;
  if generated then
    let '(g, p) := new_params (dh_bits source) g in
    let g := answer_queue (default [] (queue source)) res (Params p) g in
    let g := with_sources (<[k := mkSource (dh_bits source) (Some p) None false]> (sources g)) g in
    Some (g, [Generated p (dh_bits source)], Ended)
  else
    let g := answer_queue (default [] (queue source)) res Error g in
    let g := with_sources (<[k := mkSource (dh_bits source) (dh_params source) None true]> (sources g)) g in
    let g := with_cache (delete (dh_bits source) (cache g)) g in
    freed ← evd_tls_dh_generator_free_source k g;
    match freed with
    | None => Some (g, [], Hangs)
    | Some g => None       (* the mutex that is given back was freed *)
    end.

Definition evd_tls_dh_generator_generate_finish (result : nat) g : option outcome :=
  results g !! result.

(** ** Threads *)

Inductive operation :=
  | OpGenerate (bits : Z) (regenerate : bool)
  | OpLocked                                     (* the main thread gets the mutex, or waits *)
  | OpWorker (i : nat) (generated : bool)        (* the [i]-th thread, when GnuTLS has ended *)
  | OpIdle (i : nat).                            (* the [i]-th result completes *)

Definition remove_nth {A} (i : nat) (l : list A) : list A := take i l ++ drop (S i) l.

(** A thread that is not there, or the main thread while it is in a call, does nothing. *)
Definition step (o : operation) g : option (EvdTlsDhGenerator * list event) :=
  match o with
  | OpGenerate bits r =>
      match caller g with Some _ => Some (g, []) | None => Some (evd_tls_dh_generator_generate bits r g) end
  | OpLocked =>
      match caller g with Some c => generate_locked c g | None => Some (g, []) end
  | OpWorker i generated =>
      match workers g !! i with
      | None => Some (g, [])
      | Some (res, k) =>
          source ← sources g !! k;
          if mutex source then Some (g, [])
          else
            '(g, evs, e) ← evd_tls_dh_generator_generate_func res k generated g;
            let g := with_workers (remove_nth i (workers g)) g in
            match e with
            | Ended => Some (with_idle (idle g ++ [res]) g, evs)
            | Hangs => Some (with_hung (hung g ++ [(res, k)]) g, evs)
            end
      end
  | OpIdle i =>
      match caller g, idle g !! i with
      | None, Some r =>
          Some (with_idle (remove_nth i (idle g)) g,
                [Answered r (evd_tls_dh_generator_generate_finish r g)])
      | _, _ => Some (g, [])
      end
  end.

Fixpoint exec (ops : list operation) g : option (EvdTlsDhGenerator * list event) :=
  match ops with
  | [] => Some (g, [])
  | o :: ops =>
      '(g, e1) ← step o g;
      '(g, e2) ← exec ops g;
      Some (g, e1 ++ e2)
  end.

(** Every source is freed, whatever the threads do; [Some None] when it waits for a mutex. *)
Fixpoint free_cache_items (items : list (Z * nat)) g : option (option EvdTlsDhGenerator) :=
  match items with
  | [] => Some (Some g)
  | (_, k) :: items =>
      freed ← evd_tls_dh_generator_free_source k g;
      match freed with
      | Some g => free_cache_items items g
      | None => Some None
      end
  end.

Definition evd_tls_dh_generator_finalize g : option (option EvdTlsDhGenerator) :=
  free_cache_items (map_to_list (cache g)) g.

End TlsDhGenerator.
