(* ===== verification/TlsDhGeneratorSpec.v ===== *)
(** * Diffie-Hellman parameters: theorems

    The main thread and the workers interleave in any order.  Every request waits for an answer in one
    place until it gets it, the answers have the length that was asked, and a length is generated by one
    thread at a time.  The examples show what happens when a generation fails. *)
From S2P Require Import Prelude TlsDhGenerator.

Module TlsDhGeneratorSpec.
Import TlsDhGenerator.

Definition requested (evs : list event) : list nat :=
  omap (λ e, match e with Requested r _ => Some r | _ => None end) evs.
Definition answered (evs : list event) : list nat :=
  omap (λ e, match e with Answered r _ => Some r | _ => None end) evs.

Definition queued (m : gmap nat EvdTlsDhParamsSource) : list nat :=
  map_to_list m ≫= λ '(_, s), default [] (queue s).

Lemma queued_insert k s m :
  m !! k = None → queued (<[k := s]> m) ≡ₚ default [] (queue s) ++ queued m.
Proof. intros H. unfold queued. by rewrite map_to_list_insert. Qed.

Lemma queued_delete k s m :
  m !! k = Some s → queued m ≡ₚ default [] (queue s) ++ queued (delete k m).
Proof.
  intros H. rewrite <-(insert_delete_id m k s H) at 1. apply queued_insert, lookup_delete_eq.
Qed.

Lemma queued_update k s s' m :
  m !! k = Some s → queued (<[k := s']> m) ≡ₚ default [] (queue s') ++ queued (delete k m).
Proof.
  intros H. rewrite <-insert_delete_eq. apply queued_insert, lookup_delete_eq.
Qed.

(** ** What the queue of a source becomes *)

Lemma answer_queue_idle items res o g :
  idle (answer_queue items res o g) = idle g ++ filter (.≠ res) items.
Proof.
  revert g; induction items as [|r items IH]; intros g; simpl; [by rewrite app_nil_r|].
  rewrite IH, filter_cons. case_bool_decide as H; destruct (decide (r ≠ res)); try done; simpl;
    by rewrite <-?app_assoc.
Qed.

Lemma answer_queue_results items res o g r :
  results (answer_queue items res o g) !! r = if decide (r ∈ items) then Some o else results g !! r.
Proof.
  revert g; induction items as [|x items IH]; intros g; cbn [answer_queue]; [done|].
  rewrite IH. clear IH.
  assert (results (if bool_decide (x = res) then with_results (<[x := o]> (results g)) g
                   else with_idle (idle (with_results (<[x := o]> (results g)) g) ++ [x])
                          (with_results (<[x := o]> (results g)) g)) = <[x := o]> (results g)) as ->
    by (by case_bool_decide).
  destruct (decide (r = x)) as [->|Hn].
  - rewrite lookup_insert_eq. destruct (decide (x ∈ x :: items)); [by destruct (decide _)|set_solver].
  - rewrite lookup_insert_ne by done.
    destruct (decide (r ∈ items)), (decide (r ∈ x :: items)); (done || set_solver).
Qed.

(** Nothing else changes. *)
Lemma answer_queue_frame items res o g :
  let g' := answer_queue items res o g in
  cache g' = cache g ∧ sources g' = sources g ∧ caller g' = caller g ∧ workers g' = workers g ∧
  hung g' = hung g ∧ next_source g' = next_source g ∧ next_result g' = next_result g.
Proof.
  revert g; induction items as [|r items IH]; intros g; [done|]. cbn [answer_queue].
  case_bool_decide;
    match goal with |- context [answer_queue items res o ?x] => apply (IH x) end.
Qed.

Lemma remove_nth_perm {A} (i : nat) (l : list A) x : l !! i = Some x → l ≡ₚ x :: remove_nth i l.
Proof.
  intros H. unfold remove_nth. rewrite <-(take_drop_middle l i x H) at 1.
  by rewrite Permutation_middle.
Qed.

(** ** The invariant *)

Definition right_answer (evs : list event) (r p : nat) : Prop :=
  ∃ b, Requested r b ∈ evs ∧ Generated p b ∈ evs.

(** What holds of a source, whose mutex is free unless its thread hangs. *)
Definition source_ok (evs : list event) g (k : nat) (s : EvdTlsDhParamsSource) : Prop :=
  (∀ r, r ∈ default [] (queue s) → Requested r (dh_bits s) ∈ evs) ∧
  (if mutex s then queue s = None ∧ k ∈ (hung g).*2
   else cache g !! dh_bits s = Some k ∧
        match dh_params s with
        | Some p => queue s = None ∧ Generated p (dh_bits s) ∈ evs
        | None => ∃ r q, queue s = Some q ∧ r ∈ q ∧ (r, k) ∈ workers g
        end).

Record inv evs g : Prop := {
  inv_cache b k : cache g !! b = Some k →
    ∃ s, sources g !! k = Some s ∧ dh_bits s = b ∧ mutex s = false;
  inv_source k s : sources g !! k = Some s → source_ok evs g k s;
  inv_worker r k : (r, k) ∈ workers g →
    ∃ s q, sources g !! k = Some s ∧ mutex s = false ∧ dh_params s = None ∧ queue s = Some q ∧ r ∈ q;
  inv_workers : NoDup (snd <$> workers g);
  inv_caller c : caller g = Some c → ∃ s, sources g !! found c = Some s ∧ dh_bits s = bit_length c;
  inv_fresh k s : sources g !! k = Some s → (k < next_source g)%nat;
  inv_results r p : results g !! r = Some (Params p) → right_answer evs r p;
  inv_answers r p : Answered r (Some (Params p)) ∈ evs → right_answer evs r p;
  inv_idle r : r ∈ idle g → is_Some (results g !! r);
  inv_answered r : Answered r None ∉ evs;
  inv_requests : requested evs = seq 0 (next_result g);
  inv_account : requested evs ≡ₚ answered evs ++ idle g ++ (hung g).*1 ++ queued (sources g)
}.

Lemma inv_init : inv [] evd_tls_dh_generator_init.
Proof.
  split; simpl; try (intros; set_solver); try done; try (intros; simplify_map_eq). apply NoDup_nil_2.
Qed.

(** ** Every step keeps it *)

Lemma right_answer_app evs e r p : right_answer evs r p → right_answer (evs ++ e) r p.
Proof. intros (b & H1 & H2). exists b. set_solver. Qed.

Lemma source_ok_app evs e g k s : source_ok evs g k s → source_ok (evs ++ e) g k s.
Proof.
  intros [H1 H2]. split; [set_solver|]. destruct (mutex s); [done|].
  destruct H2 as [Hc H2]. split; [done|]. destruct (dh_params s); [set_solver|done].
Qed.

Lemma requested_app l1 l2 : requested (l1 ++ l2) = requested l1 ++ requested l2.
Proof. apply omap_app. Qed.
Lemma dh_answered_app l1 l2 : answered (l1 ++ l2) = answered l1 ++ answered l2.
Proof. apply omap_app. Qed.

#[local] Hint Resolve right_answer_app source_ok_app : evd.
#[local] Hint Resolve elem_of_app : evd.

(** A new source for a length that has none. *)
Lemma start_source_inv evs g bits :
  inv evs g → caller g = None → cache g !! bits = None →
  inv (evs ++ (start_source bits g).2) (start_source bits g).1.
Proof.
  intros [Hc Hs Hw Hn Hcall Hf Hr Ha Hi Hna Hq Hacc] Ec Eb.
  assert (sources g !! next_source g = None) as Efresh.
  { destruct (sources g !! next_source g) as [s|] eqn:E; [|done]. apply Hf in E. lia. }
  unfold start_source. cbn. split; cbn.
  - intros b k [[-> <-]|[Hb E]]%lookup_insert_Some.
    + eexists. by rewrite lookup_insert_eq.
    + destruct (Hc b k E) as (s & Ek & ?). exists s. rewrite lookup_insert_ne; [done|congruence].
  - intros k s [[<- <-]|[Hk E]]%lookup_insert_Some.
    + split; [set_solver|]. cbn. rewrite lookup_insert_eq. split; [done|].
      exists (next_result g), [next_result g]. set_solver.
    + destruct (source_ok_app _ [Requested (next_result g) bits] _ _ _ (Hs k s E)) as [H1 H2].
      split; [done|]. destruct (mutex s); [done|]. cbn. destruct H2 as [H2 H3]. split.
      { rewrite lookup_insert_ne; [done|congruence]. }
      destruct (dh_params s); [done|]. destruct H3 as (r & q & ? & ? & ?). exists r, q. set_solver.
  - intros r k [H|H]%elem_of_app.
    + destruct (Hw r k H) as (s & q & Ek & ?). exists s, q. rewrite lookup_insert_ne; [done|congruence].
    + apply list_elem_of_singleton in H. simplify_eq. eexists _, _. rewrite lookup_insert_eq.
      repeat (split; [done|]). set_solver.
  - rewrite fmap_app. apply NoDup_app. split; [done|]. split; [|apply NoDup_singleton].
    intros k ((r, k') & -> & H)%list_elem_of_fmap [= E]%list_elem_of_singleton. cbn in E.
    destruct (Hw r k' H) as (s & q & Ek & _). congruence.
  - by rewrite Ec.
  - intros k s [[<- <-]|[Hk E]]%lookup_insert_Some; [lia|]. apply Hf in E. lia.
  - eauto with evd.
  - intros r p [H|H]%elem_of_app; [eauto with evd|set_solver].
  - done.
  - set_solver.
  - rewrite requested_app, Hq. symmetry. apply (seq_S _ 0).
  - rewrite requested_app, dh_answered_app, Hacc, queued_insert by done. cbn. rewrite app_nil_r.
    solve_Permutation.
Qed.

Lemma caller_inv evs g c :
  inv evs g → (∀ x, c = Some x → ∃ s, sources g !! found x = Some s ∧ dh_bits s = bit_length x) →
  inv evs (with_caller c g).
Proof. intros [] H. by split. Qed.

(** A source with parameters is taken out and freed. *)
Lemma freed_source_inv evs g k s p :
  inv evs g → caller g = None → sources g !! k = Some s → mutex s = false → dh_params s = Some p →
  ∃ g', evd_tls_dh_generator_free_source k (with_cache (delete (dh_bits s) (cache g)) g) = Some (Some g') ∧
    inv evs g' ∧ caller g' = None ∧ cache g' !! dh_bits s = None.
Proof.
  intros [Hc Hs Hw Hn Hcall Hf Hr Ha Hi Hna Hq Hacc] Ec Ek Em Ep.
  unfold evd_tls_dh_generator_free_source. cbn [sources with_cache]. rewrite Ek. run_bind. rewrite Em, Ep.
  eexists; split; [done|]. cbn. split; [|by rewrite lookup_delete_eq].
  destruct (Hs k s Ek) as [_ Hk]. rewrite Em, Ep in Hk. destruct Hk as (Hk & Hnone & _).
  split; cbn; try done.
  - intros b k' [Hb E]%lookup_delete_Some. destruct (Hc b k' E) as (s' & E' & <- & ?).
    exists s'. rewrite lookup_delete_ne; [done|congruence].
  - intros k' s' [Hk' E]%lookup_delete_Some. destruct (Hs k' s' E) as [H1 H2]. split; [done|].
    destruct (mutex s'); [done|]. destruct H2 as [H2 H3]. split; [|done]. cbn.
    rewrite lookup_delete_ne; [done|congruence].
  - intros r k' H. destruct (Hw r k' H) as (s' & q & E & Hm & E' & ?). exists s', q.
    rewrite lookup_delete_ne; [done|congruence].
  - by rewrite Ec.
  - intros k' s' [_ E]%lookup_delete_Some. eauto.
  - rewrite Hacc, (queued_delete k s) by done. by rewrite Hnone.
Qed.

(** The parameters are there: the answer follows in idle. *)
Lemma ready_inv evs g s k p (bits : Z) :
  inv evs g → sources g !! k = Some s → mutex s = false → dh_params s = Some p → dh_bits s = bits →
  let '(g', result) := new_result g in
  inv (evs ++ [Requested result bits])
    (with_idle (idle g ++ [result]) (with_results (<[result := Params p]> (results g)) g')).
Proof.
  intros [Hc Hs Hw Hn Hcall Hf Hr Ha Hi Hna Hq Hacc] Ek Em Ep <-. cbn.
  destruct (Hs k s Ek) as [_ Hk]. rewrite Em, Ep in Hk. destruct Hk as (_ & _ & Hgen).
  split; cbn; eauto with evd.
  - intros r p' [[<- [= ->]]|[_ E]]%lookup_insert_Some; [|eauto with evd].
    exists (dh_bits s). set_solver.
  - intros r p' [H|H]%elem_of_app; [eauto with evd|set_solver].
  - intros r [H|H]%elem_of_app.
    + destruct (decide (r = next_result g)) as [->|]; [by rewrite lookup_insert_eq|].
      rewrite lookup_insert_ne by done. eauto.
    + apply list_elem_of_singleton in H as ->. by rewrite lookup_insert_eq.
  - set_solver.
  - rewrite requested_app, Hq. symmetry. apply (seq_S _ 0).
  - rewrite requested_app, dh_answered_app, Hacc. cbn. rewrite app_nil_r. solve_Permutation.
Qed.

(** They are not: the result waits in the queue. *)
Lemma waiting_inv evs g s k :
  inv evs g → sources g !! k = Some s → mutex s = false → dh_params s = None →
  let '(g', result) := new_result g in
  inv (evs ++ [Requested result (dh_bits s)])
    (with_sources (<[k := mkSource (dh_bits s) None ((λ q, q ++ [result]) <$> queue s) false]> (sources g)) g').
Proof.
  intros [Hc Hs Hw Hn Hcall Hf Hr Ha Hi Hna Hq Hacc] Ek Em Ep. cbn.
  destruct (Hs k s Ek) as [Hreq Hk]. rewrite Em, Ep in Hk. destruct Hk as (Hk & r0 & q0 & Eq & Hr0 & Hw0).
  rewrite Eq in *. cbn in Hreq. cbn.
  split; cbn; eauto with evd.
  - intros b k' E. destruct (Hc b k' E) as (s' & E' & ?). destruct (decide (k' = k)) as [->|].
    + rewrite lookup_insert_eq. eexists. split; [done|]. cbn. split; [|done].
      replace s with s' by congruence. tauto.
    + exists s'. by rewrite lookup_insert_ne.
  - intros k' s' [[<- <-]|[Hk' E]]%lookup_insert_Some.
    + split; [set_solver|]. split; [done|]. cbn. exists r0, (q0 ++ [next_result g]). set_solver.
    + apply source_ok_app. by apply Hs.
  - intros r k' H. destruct (Hw r k' H) as (s' & q & E & Hm & Ep' & Eq' & Hr').
    destruct (decide (k' = k)) as [->|].
    + rewrite lookup_insert_eq. eexists _, _. split; [done|]. cbn. repeat (split; [done|]). simplify_eq. set_solver.
    + exists s', q. by rewrite lookup_insert_ne.
  - intros c E. destruct (Hcall c E) as (s' & E' & ?). destruct (decide (found c = k)) as [Ef|].
    + rewrite Ef in *. rewrite lookup_insert_eq. eexists. split; [done|]. cbn. congruence.
    + exists s'. by rewrite lookup_insert_ne.
  - intros k' s' [[<- <-]|[_ E]]%lookup_insert_Some; eauto.
  - intros r p' [H|H]%elem_of_app; [eauto with evd|set_solver].
  - set_solver.
  - rewrite requested_app, Hq. symmetry. apply (seq_S _ 0).
  - rewrite requested_app, dh_answered_app, Hacc, (queued_update k s), (queued_delete k s) by done.
    rewrite Eq. cbn. rewrite app_nil_r. solve_Permutation.
Qed.

Lemma generate_inv evs g bits r :
  inv evs g → caller g = None →
  inv (evs ++ (evd_tls_dh_generator_generate bits r g).2) (evd_tls_dh_generator_generate bits r g).1.
Proof.
  intros H Ec. unfold evd_tls_dh_generator_generate. destruct (bits <=? 0); [by rewrite app_nil_r|].
  destruct (cache g !! bits) as [k|] eqn:Eb; [|by apply start_source_inv].
  cbn. rewrite app_nil_r. apply caller_inv; [done|]. intros c [= <-]. cbn.
  destruct (inv_cache _ _ H _ _ Eb) as (s & ? & ? & _). eauto.
Qed.

Lemma locked_inv evs g c :
  inv evs g → caller g = Some c → ∃ g' e, generate_locked c g = Some (g', e) ∧ inv (evs ++ e) g'.
Proof.
  intros H Ec. destruct (inv_caller _ _ H c Ec) as (s & Ek & Eb). unfold generate_locked.
  rewrite Ek. run_bind. destruct (mutex s) eqn:Em.
  { eexists _, _. split; [done|]. by rewrite app_nil_r. }
  assert (inv evs (with_caller None g)) as H' by by apply caller_inv.
  destruct (dh_params s) as [p|] eqn:Ep; [destruct (regenerate c)|].
  - destruct (freed_source_inv evs (with_caller None g) (found c) s p) as (g' & E & Hg & Ecg & Eg); try done.
    rewrite E. run_bind. rewrite <-Eb. destruct (start_source (dh_bits s) g') as [g2 e] eqn:Es. eexists _, _. split; [done|].
    pose proof (start_source_inv evs g' (dh_bits s) Hg Ecg Eg) as Hs. by rewrite Es in Hs.
  - eexists _, _. split; [done|]. by apply (ready_inv evs (with_caller None g) s (found c) p).
  - eexists _, _. split; [done|]. rewrite <-Eb. by apply (waiting_inv evs (with_caller None g) s (found c)).
Qed.

(** What a thread takes with it. *)
Lemma remove_worker evs g i r k :
  inv evs g → workers g !! i = Some (r, k) →
  (∀ r' k', (r', k') ∈ remove_nth i (workers g) → (r', k') ∈ workers g ∧ k' ≠ k) ∧
  (∀ r' k', (r', k') ∈ workers g → k' ≠ k → (r', k') ∈ remove_nth i (workers g)) ∧
  NoDup (remove_nth i (workers g)).*2.
Proof.
  intros H E. pose proof (remove_nth_perm i _ _ E) as P. pose proof (inv_workers _ _ H) as Hn.
  rewrite P in Hn. cbn in Hn. apply NoDup_cons in Hn as [Hk Hn]. split; [|split; [|done]].
  - intros r' k' Hin. split; [rewrite P; by right|]. intros ->. apply Hk. apply list_elem_of_fmap. by exists (r', k).
  - intros r' k' Hin Hne. rewrite P in Hin. apply elem_of_cons in Hin as [[= -> ->]|]; [done|done].
Qed.

(** The names in the queue of a source are different. *)
Lemma queue_nodup evs g k s q :
  inv evs g → sources g !! k = Some s → queue s = Some q → NoDup q.
Proof.
  intros H Ek Eq. pose proof (inv_account _ _ H) as P. rewrite (inv_requests _ _ H) in P.
  rewrite (queued_delete k s) in P by done. rewrite Eq in P. cbn in P.
  pose proof (NoDup_seq 0 (next_result g)) as Hn. rewrite P in Hn. rewrite !NoDup_app in Hn. tauto.
Qed.

(** What the region of a thread leaves, in the same form whether the generation has failed or not. *)
Record after_worker g (i r k : nat) s (q : list nat) s' o (e : list event) (hangs : bool) g' : Prop := {
  after_sources : sources g' = <[k := s']> (sources g);
  after_queue : queue s' = None;
  after_bits : dh_bits s' = dh_bits s;
  after_workers : workers g' = remove_nth i (workers g);
  after_caller : caller g' = caller g;
  after_next : next_source g' = next_source g ∧ next_result g' = next_result g;
  after_results x : results g' !! x = if decide (x ∈ q) then Some o else results g !! x;
  after_idle : idle g' = idle g ++ filter (.≠ r) q ++ (if hangs then [] else [r]);
  after_hung : hung g' = hung g ++ (if hangs then [(r, k)] else []);
  after_end : if hangs then mutex s' = true ∧ cache g' = delete (dh_bits s) (cache g) ∧ o = Error ∧ e = []
              else mutex s' = false ∧ cache g' = cache g ∧
                   ∃ p, dh_params s' = Some p ∧ o = Params p ∧ e = [Generated p (dh_bits s)]
}.

(** Results for which [o] is the right answer. *)
Lemma outcome_right evs g i r k s q s' o e (hangs : bool) g' x p :
  after_worker g i r k s q s' o e hangs g' → (∀ r, r ∈ q → Requested r (dh_bits s) ∈ evs) →
  x ∈ q → o = Params p → right_answer (evs ++ e) x p.
Proof.
  intros [_ _ _ _ _ _ _ _ _ He] Hreq Hx ->. destruct hangs; [by destruct He as (_ & _ & [=] & _)|].
  destruct He as (_ & _ & p' & _ & [= <-] & ->). exists (dh_bits s). specialize (Hreq x Hx). set_solver.
Qed.

Lemma source_after evs g i r k s q s' o e (hangs : bool) g' k' s0 :
  inv evs g → workers g !! i = Some (r, k) → sources g !! k = Some s → mutex s = false →
  after_worker g i r k s q s' o e hangs g' → sources g' !! k' = Some s0 → source_ok (evs ++ e) g' k' s0.
Proof.
  intros H E Ek Em [Asrc Aq Ab Aw _ _ _ _ Ah Ae]. rewrite Asrc.
  destruct (remove_worker _ _ _ _ _ H E) as (_ & Hkeep & _).
  destruct (inv_source _ _ H k s Ek) as [_ Hk]. rewrite Em in Hk. destruct Hk as [Hk _].
  intros [[<- <-]|[Hne E0]]%lookup_insert_Some.
  - split; [rewrite Aq; set_solver|]. rewrite Ab. destruct hangs.
    + destruct Ae as (-> & _). split; [done|]. rewrite Ah, fmap_app. set_solver.
    + destruct Ae as (-> & -> & p & -> & _ & ->). split; [done|]. split; [done|]. set_solver.
  - destruct (source_ok_app _ e _ _ _ (inv_source _ _ H k' s0 E0)) as [H1 H2]. split; [done|].
    destruct (mutex s0); [rewrite Ah, fmap_app; set_solver|]. destruct H2 as [H2 H3]. split.
    { destruct hangs; [destruct Ae as (_ & -> & _)|destruct Ae as (_ & -> & _); done].
      rewrite lookup_delete_ne; [done|congruence]. }
    destruct (dh_params s0); [done|]. destruct H3 as (x & l & ? & ? & Hx). exists x, l. split; [done|]. split; [done|].
    rewrite Aw. by apply Hkeep.
Qed.

Lemma cache_after evs g i r k s q s' o e (hangs : bool) g' b k' :
  inv evs g → sources g !! k = Some s → after_worker g i r k s q s' o e hangs g' →
  cache g' !! b = Some k' → ∃ s0, sources g' !! k' = Some s0 ∧ dh_bits s0 = b ∧ mutex s0 = false.
Proof.
  intros H Ek [Asrc Aq Ab Aw _ _ _ _ _ Ae]. rewrite Asrc. intros Eb.
  assert (cache g !! b = Some k' ∧ (hangs = true → b ≠ dh_bits s)) as [Eb' Hb].
  { destruct hangs; destruct Ae as (_ & Ec & _); rewrite Ec in Eb; [|done].
    apply lookup_delete_Some in Eb as [? ?]. split; [done|]. congruence. }
  destruct (inv_cache _ _ H b k' Eb') as (s0 & E0 & Hb0 & Hm). destruct (decide (k' = k)) as [->|].
  - rewrite lookup_insert_eq. eexists; split; [done|]. rewrite Ab. simplify_eq. split; [done|].
    destruct hangs; [|by destruct Ae]. by destruct (Hb eq_refl).
  - exists s0. by rewrite lookup_insert_ne.
Qed.

Lemma after_worker_inv evs g i r k s q s' o e (hangs : bool) g' :
  inv evs g → workers g !! i = Some (r, k) → sources g !! k = Some s → mutex s = false → queue s = Some q → r ∈ q →
  after_worker g i r k s q s' o e hangs g' → inv (evs ++ e) g'.
Proof.
  intros H E Ek Em Eq Hin A. pose proof A as [Asrc Aq Ab Aw Acall [An1 An2] Ar Ai Ah Ae].
  destruct (remove_worker _ _ _ _ _ H E) as (Hrem & Hkeep & Hnod).
  pose proof (filter_take_out r q (queue_nodup _ _ _ _ _ H Ek Eq) Hin) as Hq'.
  destruct (inv_source _ _ H k s Ek) as [Hreq _]. rewrite Eq in Hreq. cbn in Hreq.
  assert (requested e = [] ∧ answered e = [] ∧ ∀ x y, Answered x y ∉ e) as (Er & Ea & Hna).
  { destruct hangs; [by destruct Ae as (_ & _ & _ & ->); set_solver|].
    destruct Ae as (_ & _ & p & _ & _ & ->). set_solver. }
  split.
  - intros b k'. by eapply cache_after.
  - intros k' s0. by eapply source_after.
  - intros r' k'. rewrite Aw, Asrc. intros [Hw Hne]%Hrem. rewrite lookup_insert_ne by done. by apply (inv_worker _ _ H).
  - by rewrite Aw.
  - rewrite Acall, Asrc. intros c Ec. destruct (inv_caller _ _ H c Ec) as (s0 & E0 & Hb).
    destruct (decide (found c = k)) as [Ef|].
    + rewrite Ef in *. rewrite lookup_insert_eq. eexists; split; [done|]. rewrite Ab. congruence.
    + exists s0. by rewrite lookup_insert_ne.
  - rewrite An1, Asrc. intros k' s0 [[<- _]|[_ E0]]%lookup_insert_Some; by eapply (inv_fresh _ _ H).
  - intros x p. rewrite Ar. destruct (decide (x ∈ q)).
    + intros [= Eo]. by eapply outcome_right.
    + intros Ex. by apply right_answer_app, (inv_results _ _ H).
  - intros x p [Hx|Hx]%elem_of_app; [by apply right_answer_app, (inv_answers _ _ H)|]. by apply Hna in Hx.
  - intros x. rewrite Ar, Ai. destruct (decide (x ∈ q)) as [|Hx]; [eauto|]. rewrite !elem_of_app.
    intros [Hi|[Hi|Hi]]; [by apply (inv_idle _ _ H)| |].
    + by apply list_elem_of_filter in Hi as [_ Hi].
    + destruct hangs; [set_solver|]. by apply list_elem_of_singleton in Hi as ->.
  - intros x [Hx|Hx]%elem_of_app; [by apply (inv_answered _ _ H) in Hx|]. by apply Hna in Hx.
  - rewrite requested_app, Er, app_nil_r, An2. apply (inv_requests _ _ H).
  - rewrite requested_app, dh_answered_app, Er, Ea, !app_nil_r, (inv_account _ _ H), Asrc, Ai, Ah.
    rewrite (queued_update k s), (queued_delete k s) by done. rewrite Eq, Aq, fmap_app. cbn. rewrite Hq' at 1.
    destruct hangs; cbn; solve_Permutation.
Qed.

Lemma worker_inv evs g i generated :
  inv evs g → ∃ g' e, step (OpWorker i generated) g = Some (g', e) ∧ inv (evs ++ e) g'.
Proof.
  intros H. unfold step. destruct (workers g !! i) as [[r k]|] eqn:E; [|eexists _, _; split; [done|by rewrite app_nil_r]].
  destruct (inv_worker _ _ H r k) as (s & q & Ek & Em & Ep & Eq & Hin); [by apply list_elem_of_lookup; eauto|].
  rewrite Ek. run_bind. rewrite Em. unfold evd_tls_dh_generator_generate_func. rewrite Ek. run_bind. rewrite Eq.
  destruct generated.
  - eexists _, _. split; [done|].
    destruct (answer_queue_frame q r (Params (next_params g)) (new_params (dh_bits s) g).1) as (A1 & A2 & A3 & A4 & A5 & A6 & A7).
    cbn in A1, A2, A3, A4, A5, A6, A7.
    eapply (after_worker_inv _ _ i r k s q (mkSource (dh_bits s) (Some (next_params g)) None false)
              (Params (next_params g)) _ false); [done..|].
    split; cbn; rewrite ?A2, ?A4, ?A5, ?answer_queue_idle; try done.
    + intros x. by rewrite answer_queue_results.
    + cbn. by rewrite <-app_assoc.
    + by rewrite app_nil_r.
    + rewrite A1. split; [done|]. split; [done|]. by exists (next_params g).
  - unfold evd_tls_dh_generator_free_source. cbn [sources with_cache with_sources]. rewrite lookup_insert_eq. run_bind.
    cbn [mutex]. eexists _, _. split; [done|].
    destruct (answer_queue_frame q r Error g) as (A1 & A2 & A3 & A4 & A5 & A6 & A7).
    eapply (after_worker_inv _ _ i r k s q (mkSource (dh_bits s) (dh_params s) None true) Error _ true); [done..|].
    split; cbn; rewrite ?A2, ?A4, ?A5, ?answer_queue_idle; try done.
    + intros x. by rewrite answer_queue_results.
    + by rewrite app_nil_r.
    + by rewrite A1.
Qed.

Lemma step_inv evs g o : inv evs g → ∃ g' e, step o g = Some (g', e) ∧ inv (evs ++ e) g'.
Proof.
  intros H. destruct o as [bits r| |i generated|i]; [| |by apply worker_inv|]; unfold step.
  - destruct (caller g) eqn:Ec; [eexists _, _; split; [done|by rewrite app_nil_r]|].
    destruct (evd_tls_dh_generator_generate bits r g) as [g' e] eqn:E. eexists _, _. split; [done|].
    pose proof (generate_inv evs g bits r H Ec) as Hg. by rewrite E in Hg.
  - destruct (caller g) eqn:Ec; [by apply locked_inv|]. eexists _, _; split; [done|by rewrite app_nil_r].
  - destruct (caller g) eqn:Ec; [eexists _, _; split; [done|by rewrite app_nil_r]|].
    destruct (idle g !! i) as [r|] eqn:Ei; [|eexists _, _; split; [done|by rewrite app_nil_r]].
    eexists _, _. split; [done|]. pose proof (remove_nth_perm i _ _ Ei) as P.
    destruct (H) as [Hc Hs Hw Hn Hcall Hf Hr Ha Hi Hna Hq Hacc].
    destruct (Hi r) as [o Eo]; [rewrite P; by left|].
    unfold evd_tls_dh_generator_generate_finish. rewrite Eo. split; cbn; eauto with evd.
    + intros r' p [Hx|[= -> <-]%list_elem_of_singleton]%elem_of_app; eauto with evd.
    + intros x Hx. apply Hi. rewrite P. by right.
    + set_solver.
    + by rewrite requested_app, app_nil_r.
    + rewrite requested_app, dh_answered_app, Hacc. rewrite P at 1. cbn. rewrite app_nil_r. solve_Permutation.
Qed.

Lemma exec_inv ops evs g : inv evs g → ∃ g' e, exec ops g = Some (g', e) ∧ inv (evs ++ e) g'.
Proof.
  revert evs g; induction ops as [|o ops IH]; intros evs g H; cbn [exec].
  { eexists _, _. split; [done|]. by rewrite app_nil_r. }
  destruct (step_inv evs g o H) as (g1 & e1 & E1 & H1). destruct (IH _ _ H1) as (g2 & e2 & E2 & H2).
  rewrite E1. run_bind. rewrite E2. run_bind. eexists _, _. split; [done|]. by rewrite app_assoc.
Qed.

(** Without a thread, nothing waits in a queue. *)
Lemma queued_nil evs g : inv evs g → workers g = [] → queued (sources g) = [].
Proof.
  intros H Ew. destruct (queued (sources g)) as [|r l] eqn:E; [done|]. exfalso.
  assert (r ∈ queued (sources g)) as Hr by (rewrite E; by left). clear E. unfold queued in Hr.
  apply list_elem_of_bind in Hr as ((k, s) & Hr & Hk%elem_of_map_to_list).
  assert (queue s ≠ None) as Hn by (intros Hn; rewrite Hn in Hr; by apply elem_of_nil in Hr).
  destruct (inv_source _ _ H k s Hk) as [_ Hs]. destruct (mutex s); [by destruct Hs as [Hs _]|].
  destruct Hs as [_ Hs]. destruct (dh_params s).
  - by destruct Hs as [Hs _].
  - destruct Hs as (r' & q & _ & _ & Hw). rewrite Ew in Hw. by apply elem_of_nil in Hw.
Qed.

(** ** For those who call the generator *)

(** The results that have no answer yet. *)
Definition outstanding g : list nat := idle g ++ (hung g).*1 ++ queued (sources g).

Lemma outstanding_step evs e g g' :
  inv evs g → inv (evs ++ e) g' → answered e = [] → outstanding g' ≡ₚ requested e ++ outstanding g.
Proof.
  intros H H' He. pose proof (inv_account _ _ H) as P. pose proof (inv_account _ _ H') as P'. fold (outstanding g) in P. fold (outstanding g') in P'.
  rewrite requested_app, dh_answered_app, He, app_nil_r, P in P'. apply (Permutation_app_inv_l (answered evs)).
  rewrite <-P'. solve_Permutation.
Qed.

(** No generation has failed. *)
Definition no_error g : Prop := hung g = [] ∧ ∀ r, results g !! r ≠ Some Error.

Lemma no_error_insert r p g m : no_error g → m = <[r := Params p]> (results g) → ∀ r', m !! r' ≠ Some Error.
Proof. intros [_ Hg] -> r'. destruct (decide (r' = r)) as [->|]; [by rewrite lookup_insert_eq|by rewrite lookup_insert_ne]. Qed.

Lemma locked_no_error c g g' e : generate_locked c g = Some (g', e) → no_error g → no_error g'.
Proof.
  unfold generate_locked. destruct (sources g !! found c) as [s|] eqn:Ek; [|done]. run_bind.
  destruct (mutex s) eqn:Em; [by intros [= <- <-]|]. destruct (dh_params s) as [p|] eqn:Ep; [|by intros [= <- <-]].
  destruct (regenerate c).
  - unfold evd_tls_dh_generator_free_source. cbn. rewrite Ek. cbn. rewrite Em, Ep. cbn. by intros [= <- <-].
  - intros [= <- <-] Hg. split; [apply Hg|]. intros x. by eapply (no_error_insert _ _ g).
Qed.

Lemma generated_no_error r k g g' e t :
  evd_tls_dh_generator_generate_func r k true g = Some (g', e, t) → no_error g → no_error g' ∧ t = Ended.
Proof.
  unfold evd_tls_dh_generator_generate_func. destruct (sources g !! k) as [s|]; [|done]. cbn. intros [= <- <- <-] [Hh Hg]. cbn.
  split; [|done]. split.
  { destruct (answer_queue_frame (default [] (queue s)) r (Params (next_params g)) (new_params (dh_bits s) g).1)
      as (_ & _ & _ & _ & Ah & _). cbn in Ah. cbn. by rewrite Ah. }
  intros x. cbn. rewrite answer_queue_results. destruct (decide _); [done|]. apply Hg.
Qed.

(** A request that the main thread makes without an interruption. *)
Lemma request_now evs g bits :
  inv evs g → caller g = None → 0 < bits →
  ∃ g1 e1 g2 e2 r, evd_tls_dh_generator_generate bits false g = (g1, e1) ∧
    (match caller g1 with Some c => generate_locked c g1 | None => Some (g1, []) end) = Some (g2, e2) ∧
    caller g2 = None ∧ e1 ++ e2 = [Requested r bits] ∧ inv (evs ++ [Requested r bits]) g2 ∧
    outstanding g2 ≡ₚ (r :: outstanding g) ∧ ¬ (r ∈ outstanding g) ∧ (no_error g → no_error g2).
Proof.
  intros H Ec Hb. pose proof (generate_inv evs g bits false H Ec) as H1.
  destruct (evd_tls_dh_generator_generate bits false g) as [g1 e1] eqn:E1. cbn in H1.
  assert (∃ g2 e2 r, (match caller g1 with Some c => generate_locked c g1 | None => Some (g1, []) end) = Some (g2, e2) ∧
    caller g2 = None ∧ e1 ++ e2 = [Requested r bits] ∧ inv (evs ++ [Requested r bits]) g2) as (g2 & e2 & r & E2 & Ec2 & Ee & H2).
  { unfold evd_tls_dh_generator_generate in E1. destruct (Z.leb_spec bits 0) as [|_]; [lia|].
    destruct (cache g !! bits) as [k|] eqn:Eb.
    - injection E1 as <- <-. rewrite app_nil_r in H1. cbn [caller with_caller].
      destruct (locked_inv _ _ (mkCall bits false k) H1 eq_refl) as (g2 & e2 & E2 & H2). rewrite E2.
      destruct (inv_cache _ _ H _ _ Eb) as (s & Ek & <- & Em).
      unfold generate_locked in E2. cbn in E2. rewrite Ek in E2. cbn in E2. rewrite Em in E2.
      destruct (dh_params s) as [p|]; cbn in E2; injection E2 as <- <-; eexists _, _, _; (split; [reflexivity|]; split; [reflexivity|]; split; [reflexivity|exact H2]).
    - injection E1 as <- <-. cbn in *. rewrite Ec in *. eexists _, _, _. (split; [reflexivity|]; split; [reflexivity|]; split; [reflexivity|exact H1]). }
  exists g1, e1, g2, e2, r. split_and!; try done.
  - by apply (outstanding_step _ _ _ _ H H2).
  - pose proof (inv_requests _ _ H2) as Hq. rewrite requested_app in Hq. cbn in Hq.
    pose proof (NoDup_seq 0 (next_result g2)) as Hn. rewrite <-Hq in Hn. apply NoDup_app in Hn as (_ & Hn & _).
    intros Hr. apply (Hn r); [|by left]. rewrite (inv_account _ _ H). fold (outstanding g). set_solver.
  - intros Hg. assert (no_error g1) as Hg1.
    { unfold evd_tls_dh_generator_generate in E1. destruct (bits <=? 0); [by simplify_eq|].
      destruct (cache g !! bits); by injection E1 as <- _. }
    destruct (caller g1); [by eapply locked_no_error|by simplify_eq].
Qed.

(** The threads take no request and give no answer. *)
Lemma worker_now evs g i ok :
  inv evs g → ∃ g' e, step (OpWorker i ok) g = Some (g', e) ∧ inv (evs ++ e) g' ∧ caller g' = caller g ∧
    outstanding g' ≡ₚ outstanding g ∧ (ok = true → no_error g → no_error g').
Proof.
  intros H. destruct (worker_inv evs g i ok H) as (g' & e & E & H'). exists g', e.
  assert (caller g' = caller g ∧ requested e = [] ∧ answered e = []) as (Hc & Hr & Ha).
  { unfold step in E. destruct (workers g !! i) as [[res k]|]; [|by simplify_eq].
    destruct (sources g !! k) as [s|] eqn:Ek; [|done]. cbn in E. destruct (mutex s); [by simplify_eq|].
    unfold evd_tls_dh_generator_generate_func in E. rewrite Ek in E. cbn in E. destruct ok.
    - cbn in E. simplify_eq. cbn. split; [|done].
      apply (answer_queue_frame (default [] (queue s)) res (Params (next_params g)) (new_params (dh_bits s) g).1).
    - unfold evd_tls_dh_generator_free_source in E. cbn in E. rewrite lookup_insert_eq in E. cbn in E. simplify_eq. cbn.
      split; [|done]. apply (answer_queue_frame (default [] (queue s)) res Error g). }
  split_and!; try done; [rewrite (outstanding_step _ _ _ _ H H' Ha); by rewrite Hr|]. intros -> Hg.
  unfold step in E. destruct (workers g !! i) as [[res k]|]; [|by simplify_eq].
  destruct (sources g !! k) as [s|] eqn:Ek; [|done]. cbn -[evd_tls_dh_generator_generate_func] in E. destruct (mutex s); [by simplify_eq|].
  destruct (evd_tls_dh_generator_generate_func res k true g) as [[[g1 e1] t]|] eqn:Ef; [|done]. cbn in E.
  pose proof (generated_no_error _ _ _ _ _ _ Ef Hg) as [Hg1 ->]. by simplify_eq.
Qed.

(** A result completes, with an outcome. *)
Lemma idle_now evs g i :
  inv evs g → caller g = None →
  ∃ g' e, step (OpIdle i) g = Some (g', e) ∧ inv (evs ++ e) g' ∧ caller g' = None ∧ results g' = results g ∧ hung g' = hung g ∧
    match idle g !! i with
    | None => g' = g ∧ e = []
    | Some r => ∃ o, e = [Answered r (Some o)] ∧ results g !! r = Some o ∧ outstanding g ≡ₚ r :: outstanding g'
    end.
Proof.
  intros H Ec. destruct (step_inv evs g (OpIdle i) H) as (g' & e & E & H'). exists g', e. split_and!; try done.
  - unfold step in E. rewrite Ec in E. destruct (idle g !! i); simplify_eq; done.
  - unfold step in E. rewrite Ec in E. destruct (idle g !! i); simplify_eq; done.
  - unfold step in E. rewrite Ec in E. destruct (idle g !! i); simplify_eq; done.
  - unfold step in E. rewrite Ec in E. destruct (idle g !! i) as [r|] eqn:Ei; simplify_eq; [|done].
    destruct (inv_idle _ _ H r) as [o Eo]; [by eapply list_elem_of_lookup_2|].
    unfold evd_tls_dh_generator_generate_finish. rewrite Eo. exists o. split_and!; try done.
    unfold outstanding. cbn. by rewrite (remove_nth_perm i _ _ Ei) at 1.
Qed.

(** ** Completion *)

Definition succeeds (o : operation) : bool := match o with OpWorker _ ok => ok | _ => true end.

Lemma start_source_fields bits g :
  let g' := (start_source bits g).1 in hung g' = hung g ∧ caller g' = caller g ∧ idle g' = idle g.
Proof. done. Qed.

(** The threads that hang are those whose generation failed. *)
Lemma step_hung o g g' e : step o g = Some (g', e) → succeeds o → hung g' = hung g.
Proof.
  destruct o as [bits r| |i ok|i]; unfold step; cbn; intros Es Hok.
  - destruct (caller g); [congruence|]. unfold evd_tls_dh_generator_generate in Es.
    destruct (bits <=? 0); [congruence|].
    destruct (cache g !! bits); cbn in Es; by simplify_eq.
  - destruct (caller g) as [c|]; [|congruence]. unfold generate_locked in Es.
    destruct (sources g !! found c) as [s|] eqn:Ek; [|done]. cbn in Es. destruct (mutex s) eqn:Em; [congruence|].
    destruct (dh_params s) as [p|] eqn:Ep; [|by simplify_eq]. destruct (regenerate c); [|by simplify_eq].
    unfold evd_tls_dh_generator_free_source in Es. cbn in Es. rewrite Ek in Es. cbn in Es. rewrite Em, Ep in Es.
    cbn in Es. by simplify_eq.
  - destruct (workers g !! i) as [[res k]|]; [|congruence].
    destruct (sources g !! k) as [s|] eqn:Ek; [|done]. cbn in Es. destruct (mutex s); [congruence|].
    unfold evd_tls_dh_generator_generate_func in Es. rewrite Ek in Es. destruct ok; [|done]. cbn in Es. simplify_eq. cbn.
    apply (answer_queue_frame (default [] (queue s)) res (Params (next_params g)) (new_params (dh_bits s) g).1).
  - destruct (caller g); [congruence|]. destruct (idle g !! i); by simplify_eq.
Qed.

Lemma exec_hung ops g g' e : exec ops g = Some (g', e) → Forall succeeds ops → hung g' = hung g.
Proof.
  revert g e; induction ops as [|o ops IH]; intros g e; cbn [exec]; [congruence|].
  destruct (step o g) as [[g1 e1]|] eqn:E1; [|done]. run_bind.
  destruct (exec ops g1) as [[g2 e2]|] eqn:E2; [|done]. run_bind. intros [= <- <-] [H1 H2]%Forall_cons.
  rewrite (IH _ _ E2 H2). by apply (step_hung o _ _ e1).
Qed.

Lemma dh_exec_app l1 l2 g :
  exec (l1 ++ l2) g = '(g1, e1) ← exec l1 g; '(g2, e2) ← exec l2 g1; Some (g2, e1 ++ e2).
Proof.
  revert g; induction l1 as [|o l1 IH]; intros g; cbn [exec app].
  { run_bind. by destruct (exec l2 g) as [[]|]. }
  destruct (step o g) as [[g1 e1]|]; [|done]. run_bind. rewrite IH. destruct (exec l1 g1) as [[g2 e2]|]; [|done].
  run_bind. destruct (exec l2 g2) as [[g3 e3]|]; [|done]. run_bind. by rewrite app_assoc.
Qed.

(** The call under way, the threads and the results complete. *)
Definition settle (n : nat) : list operation :=
  OpLocked :: replicate n (OpWorker 0 true) ++ replicate n (OpIdle 0).

Lemma settle_workers n evs g :
  inv evs g → (length (workers g) <= n)%nat →
  ∃ g' e, exec (replicate n (OpWorker 0 true)) g = Some (g', e) ∧ inv (evs ++ e) g' ∧
    workers g' = [] ∧ caller g' = caller g ∧ next_result g' = next_result g.
Proof.
  revert evs g; induction n as [|n IH]; intros evs g H Hn.
  { destruct (workers g) eqn:E; [|cbn in Hn; lia]. eexists _, _. split; [done|]. by rewrite app_nil_r. }
  cbn [replicate exec]. destruct (worker_inv evs g 0 true H) as (g1 & e1 & E1 & H1). rewrite E1. run_bind.
  assert (workers g1 = drop 1 (workers g) ∧ caller g1 = caller g ∧ next_result g1 = next_result g) as (Ew & Ec & En).
  { unfold step in E1. destruct (workers g) as [|[r k] l] eqn:Ew; [by injection E1 as <- _|]. cbn in E1.
    destruct (sources g !! k) as [s|] eqn:Ek; [|done]. cbn in E1.
    destruct (inv_worker _ _ H r k) as (s' & q & Ek' & Em & _); [rewrite Ew; by left|]. simplify_eq. rewrite Em in E1.
    unfold evd_tls_dh_generator_generate_func in E1. rewrite Ek in E1. cbn in E1. simplify_eq. cbn.
    destruct (answer_queue_frame (default [] (queue s)) r (Params (next_params g)) (new_params (dh_bits s) g).1)
      as (_ & _ & Ac & Aw & _ & _ & An). cbn in Ac, Aw, An. by rewrite Ac, Aw, An, Ew. }
  destruct (IH _ _ H1) as (g2 & e2 & E2 & H2 & Hw & Hc & Hr).
  { rewrite Ew, length_drop. lia. }
  rewrite E2. run_bind. eexists _, _. split; [done|]. rewrite app_assoc. split; [done|]. split; [done|]. by rewrite Hc, Hr.
Qed.

Lemma settle_idle n g :
  caller g = None → (length (idle g) <= n)%nat →
  ∃ e, exec (replicate n (OpIdle 0)) g = Some (with_idle [] g, e).
Proof.
  revert g; induction n as [|n IH]; intros g Ec Hn.
  { destruct g as [? ? ? ? ? ? ? l]. cbn in *. destruct l; [|cbn in Hn; lia]. by eexists. }
  cbn [replicate exec]. unfold step. rewrite Ec. destruct (idle g) as [|r l] eqn:Ei; cbn [lookup list_lookup].
  - run_bind. destruct (IH g Ec) as [e E]; [rewrite Ei; cbn; lia|]. rewrite E. run_bind. by eexists.
  - run_bind. destruct (IH (with_idle (remove_nth 0 (r :: l)) g) Ec) as [e E]; [cbn in *; rewrite drop_0; lia|]. rewrite E. run_bind. by eexists.
Qed.

(** The main thread is not kept waiting when no thread hangs. *)
Lemma locked_ends evs g g' e :
  inv evs g → hung g = [] → step OpLocked g = Some (g', e) → caller g' = None.
Proof.
  intros H Eh. unfold step. destruct (caller g) as [c|] eqn:Ec; [|congruence].
  destruct (inv_caller _ _ H c Ec) as (s & Ek & _). unfold generate_locked. rewrite Ek. run_bind.
  destruct (inv_source _ _ H _ _ Ek) as [_ Hs]. destruct (mutex s) eqn:Em.
  { destruct Hs as [_ Hs]. rewrite Eh in Hs. by apply elem_of_nil in Hs. }
  destruct (dh_params s) eqn:Ep; [|by intros [= <- <-]]. destruct (regenerate c); [|by intros [= <- <-]].
  unfold evd_tls_dh_generator_free_source. cbn. rewrite Ek. cbn. rewrite Em, Ep. cbn. by intros [= <- <-].
Qed.

(** C35. Every request for parameters is answered once, whatever the threads do, as long as the
    generations succeed: from any state the program can reach, when the call under way, the threads and
    the results that wait complete, the requests that were answered are the requests that were made. *)
Theorem dh_requests_answered (ops : list operation) :
  Forall succeeds ops →
  ∃ g evs n g' e, exec ops evd_tls_dh_generator_init = Some (g, evs) ∧ exec (settle n) g = Some (g', e) ∧
    NoDup (answered (evs ++ e)) ∧ answered (evs ++ e) ≡ₚ requested (evs ++ e).
Proof.
  intros Hok. destruct (exec_inv ops [] _ inv_init) as (g & evs & E & H). cbn in H.
  pose proof (exec_hung _ _ _ _ E Hok) as Eh. cbn in Eh.
  destruct (step_inv evs g OpLocked H) as (g1 & e1 & E1 & H1).
  pose proof (locked_ends _ _ _ _ H Eh E1) as Ec. pose proof (step_hung _ _ _ _ E1 I) as Eh1.
  set (n := (length (workers g1) + next_result g1)%nat).
  destruct (settle_workers n _ _ H1) as (g2 & e2 & E2 & H2 & Hw2 & Hc2 & Hn2); [lia|].
  assert (hung g2 = []) as Eh2.
  { rewrite (exec_hung _ _ _ _ E2), Eh1, Eh; [done|]. by apply Forall_replicate. }
  assert (length (idle g2) <= n)%nat as Hlen.
  { pose proof (Permutation_length (inv_account _ _ H2)) as P. rewrite (inv_requests _ _ H2) in P.
    rewrite length_seq, !length_app in P. lia. }
  destruct (settle_idle n g2) as [e3 E3]; [by rewrite Hc2|done|].
  destruct (exec_inv (replicate n (OpIdle 0)) _ _ H2) as (g3 & e3' & E3' & H3). rewrite E3 in E3'. simplify_eq.
  exists g, evs, n, (with_idle [] g2), (e1 ++ e2 ++ e3'). split; [done|]. unfold settle. cbn [exec].
  rewrite E1. run_bind. rewrite dh_exec_app, E2. run_bind. rewrite E3. run_bind. split; [done|].
  rewrite !app_assoc. pose proof (inv_account _ _ H3) as P. cbn in P. rewrite Eh2 in P. cbn in P.
  pose proof (queued_nil _ _ H3 Hw2) as Q. cbn in Q. rewrite Q in P. rewrite app_nil_r in P. split; [|done].
  rewrite <-P, (inv_requests _ _ H3). apply NoDup_seq.
Qed.

Lemma dh_requests_answered_witness :
  Forall succeeds [OpGenerate 512 false; OpGenerate 512 false; OpLocked] ∧
  ∃ g evs n g' e, exec [OpGenerate 512 false; OpGenerate 512 false; OpLocked] evd_tls_dh_generator_init = Some (g, evs) ∧
    exec (settle n) g = Some (g', e) ∧
    NoDup (answered (evs ++ e)) ∧ answered (evs ++ e) ≡ₚ requested (evs ++ e).
Proof.
  split; [repeat constructor|]. apply (dh_requests_answered [OpGenerate 512 false; OpGenerate 512 false; OpLocked]).
  repeat constructor.
Defined.

(** A thread for each length. *)
Lemma workers_lengths evs g :
  inv evs g → NoDup ((λ '(_, k), dh_bits <$> sources g !! k) <$> workers g).
Proof.
  intros H. pose proof (inv_workers _ _ H) as Hn. pose proof (inv_worker _ _ H) as Hw.
  induction (workers g) as [|[r k] l IH]; [apply NoDup_nil_2|]. cbn in *. apply NoDup_cons in Hn as [Hk Hn].
  apply NoDup_cons. split; [|apply IH; [done|]; intros; apply Hw; by right].
  intros ((r', k') & E & Hin)%list_elem_of_fmap. apply Hk. apply list_elem_of_fmap. exists (r', k'). split; [|done]. cbn.
  destruct (Hw r k) as (s & q & Ek & Em & _); [by left|]. destruct (Hw r' k') as (s' & q' & Ek' & Em' & _); [by right|].
  rewrite Ek, Ek' in E. cbn in E. injection E as E.
  destruct (inv_source _ _ H _ _ Ek) as [_ Hs]. rewrite Em in Hs. destruct (inv_source _ _ H _ _ Ek') as [_ Hs'].
  rewrite Em' in Hs'. destruct Hs as [Hs _], Hs' as [Hs' _]. congruence.
Qed.

(** C36. Whatever the threads and GnuTLS do, no freed memory is read, and a request is in one place only:
    it has its answer, is in idle for it or in the queue of a source, or is with a thread that hangs after
    a failed generation and will never answer it.  An answer is an error or has parameters of the length
    that was asked for, and no two threads generate parameters of the same length. *)
Theorem dh_answers_right (ops : list operation) :
  ∃ g evs, exec ops evd_tls_dh_generator_init = Some (g, evs) ∧
    NoDup (answered evs ++ idle g ++ (hung g).*1 ++ queued (sources g)) ∧
    (∀ r, r ∈ requested evs ↔ r ∈ answered evs ++ idle g ++ (hung g).*1 ++ queued (sources g)) ∧
    (∀ r o, Answered r o ∈ evs → o = Some Error ∨ ∃ p, o = Some (Params p) ∧ right_answer evs r p) ∧
    NoDup ((λ '(_, k), dh_bits <$> sources g !! k) <$> workers g).
Proof.
  destruct (exec_inv ops [] _ inv_init) as (g & evs & E & H). cbn in H. exists g, evs.
  split; [done|]. split; [|split; [|split; [|by apply workers_lengths with evs]]].
  - rewrite <-(inv_account _ _ H), (inv_requests _ _ H). apply NoDup_seq.
  - intros r. by rewrite (inv_account _ _ H).
  - intros r [[p|]|] Hr; [right; exists p; split; [done|]|by left|].
    + by apply (inv_answers _ _ H).
    + by apply (inv_answered _ _ H) in Hr.
Qed.

(** ** What the code does not do *)

(** When a generation fails, its thread frees the source while it holds the mutex of it, and waits for
    ever: the request that has started it is never answered, the others get the error. *)
Example failed_generation_hangs :
  ∃ g evs, exec [OpGenerate 512 false; OpGenerate 512 false; OpLocked; OpWorker 0 false; OpIdle 0; OpIdle 0]
             evd_tls_dh_generator_init = Some (g, evs) ∧
    requested evs = [0; 1]%nat ∧ answered evs = [1]%nat ∧ hung g = [(0, 0)]%nat ∧ workers g = [] ∧ idle g = [].
Proof. vm_compute. by eexists _, _. Qed.

(** A call that has found the source before waits for its mutex too: the main thread hangs. *)
Example failed_generation_hangs_main :
  ∃ g evs, exec [OpGenerate 512 false; OpGenerate 512 false; OpWorker 0 false] evd_tls_dh_generator_init = Some (g, evs) ∧
    ∀ ops, ∃ g' e, exec ops g = Some (g', e) ∧ caller g' ≠ None ∧ e = [].
Proof.
  eexists _, _. split; [vm_compute; reflexivity|]. induction ops as [|o ops IH]; [by eexists _, _|].
  cbn [exec]. destruct IH as (g' & e & E & ? & ->).
  match goal with |- context [step o ?g] => assert (step o g = Some (g, [])) as Es end.
  { by destruct o. }
  rewrite Es. run_bind. rewrite E. run_bind. by eexists _, _.
Qed.

(** Parameters that are generated again are freed, those of an answer too, while it waits in idle. *)
Example regenerated_params_dangle :
  ∃ g evs, exec [OpGenerate 512 false; OpWorker 0 true; OpGenerate 512 true; OpLocked; OpIdle 0]
             evd_tls_dh_generator_init = Some (g, evs) ∧
    Answered 0 (Some (Params 0)) ∈ evs ∧ params g !! 0%nat = None.
Proof. vm_compute. eexists _, _. split; [reflexivity|]. split; [set_solver|done]. Qed.

(** The generator frees its sources under the threads. *)
Example finalized_generator_crashes :
  ∃ g evs g', exec [OpGenerate 512 false] evd_tls_dh_generator_init = Some (g, evs) ∧
    evd_tls_dh_generator_finalize g = Some (Some g') ∧ step (OpWorker 0 true) g' = None.
Proof. by eexists _, _, _. Qed.

End TlsDhGeneratorSpec.
