(* ===== verification/TlsCertificate.v ===== *)
(** * Certificates and private keys (src/evd/evd-tls-certificate.c, src/evd/evd-tls-privkey.c): model

    Objects that hold a certificate or a private key of GnuTLS.  What GnuTLS makes of the data is a
    parameter; its objects have names, under which the store keeps those that were initialised and not
    freed.  Data are the memory at the pointer, of which the import is given a size.  [None] stands for
    an object or memory that is not there. *)
From S2P Require Import Prelude.

Module TlsCertificate.

Inductive EvdTlsCertificateType :=
  | EVD_TLS_CERTIFICATE_TYPE_UNKNOWN
  | EVD_TLS_CERTIFICATE_TYPE_X509
  | EVD_TLS_CERTIFICATE_TYPE_OPENPGP.

#[export] Instance certificate_type_eq_dec : EqDecision EvdTlsCertificateType.
Proof. solve_decision. Defined.

Inductive x509_crt_fmt := GNUTLS_X509_FMT_DER | GNUTLS_X509_FMT_PEM.

(** The [EvdTlsVerifyState] flags. *)
Definition EVD_TLS_VERIFY_STATE_OK : Z := 0.
Definition EVD_TLS_VERIFY_STATE_NO_CERT : Z := 1.
Definition EVD_TLS_VERIFY_STATE_INVALID : Z := 2.
Definition EVD_TLS_VERIFY_STATE_REVOKED : Z := 4.
Definition EVD_TLS_VERIFY_STATE_SIGNER_NOT_FOUND : Z := 8.
Definition EVD_TLS_VERIFY_STATE_SIGNER_NOT_CA : Z := 16.
Definition EVD_TLS_VERIFY_STATE_INSECURE_ALG : Z := 32.
Definition EVD_TLS_VERIFY_STATE_EXPIRED : Z := 64.
Definition EVD_TLS_VERIFY_STATE_NOT_ACTIVE : Z := 128.

Inductive tls_error :=
  | GnutlsError (code : Z)
  | ErrInvalidData
  | ErrInvalidArgument
  | ErrNotInitialized
  | ErrTooManyLinks.

#[export] Instance tls_error_eq_dec : EqDecision tls_error.
Proof. solve_decision. Defined.

(** What GnuTLS makes of the data of a certificate or a key, or its error code, and what it says of a
    certificate; a time is -1 when there is none. *)
Class GnutlsPki := {
  crt : Type;
  privkey : Type;
  gnutls_x509_crt_import : list Z → x509_crt_fmt → crt + Z;
  gnutls_openpgp_crt_import : list Z → crt + Z;
  gnutls_x509_privkey_import : list Z → x509_crt_fmt → privkey + Z;
  gnutls_openpgp_privkey_import : list Z → privkey + Z;
  gnutls_x509_crt_get_expiration_time : crt → Z;
  gnutls_openpgp_crt_get_expiration_time : crt → Z;
  gnutls_x509_crt_get_activation_time : crt → Z;
  gnutls_openpgp_crt_get_creation_time : crt → Z
}.

(** ** The search for a header *)

(** [g_strstr_len]: whether the needle is at the beginning of the memory, and at one of the first places
    before a NUL. *)
Fixpoint starts_with (mem needle : list Z) {struct needle} : option bool :=
  match needle with
  | [] => Some true
  | c :: needle =>
      match mem with
      | [] => None
      | m :: mem => if m =? c then starts_with mem needle else Some false
      end
  end.

Fixpoint strstr_places (places : nat) (mem needle : list Z) : option bool :=
  match places with
  | O => Some false
  | S places =>
      match mem with
      | [] => None
      | m :: rest =>
          if m =? 0 then Some false
          else
            found ← starts_with mem needle;
            if found : bool then Some true else strstr_places places rest needle
      end
  end.

Definition g_strstr_len (mem : list Z) (len : nat) (needle : list Z) : option bool :=
  if (len <? length needle)%nat then Some false else strstr_places (S (len - length needle)) mem needle.

Definition evd_tls_certificate_detect_type (raw_data : list Z) : option EvdTlsCertificateType :=
  x509 ← g_strstr_len raw_data 22 (codes "BEGIN CERTIFICATE");
  if x509 : bool then Some EVD_TLS_CERTIFICATE_TYPE_X509
  else
    pgp ← g_strstr_len raw_data 22 (codes "BEGIN PGP ");
    Some (if pgp : bool then EVD_TLS_CERTIFICATE_TYPE_OPENPGP else EVD_TLS_CERTIFICATE_TYPE_UNKNOWN).

Definition evd_tls_privkey_detect_type (raw_data : list Z) : option EvdTlsCertificateType :=
  x509 ← g_strstr_len raw_data 26 (codes "BEGIN RSA PRIVATE KEY");
  if x509 : bool then Some EVD_TLS_CERTIFICATE_TYPE_X509
  else
    pgp ← g_strstr_len raw_data 32 (codes "BEGIN PGP PRIVATE KEY BLOCK");
    Some (if pgp : bool then EVD_TLS_CERTIFICATE_TYPE_OPENPGP else EVD_TLS_CERTIFICATE_TYPE_UNKNOWN).

Section Objects.
Context `{GnutlsPki}.

(** ** The objects of GnuTLS *)

(** A certificate or a key into which nothing was imported is [Blank]. *)
Inductive native :=
  | Blank
  | Crt (c : crt)
  | Key (k : privkey).

Record store := mkStore { natives : gmap nat native; next_native : nat }.

Definition no_natives : store := mkStore ∅ 0.

Definition native_init (st : store) : store * nat :=
  (mkStore (<[next_native st := Blank]> (natives st)) (S (next_native st)), next_native st).
Definition native_set (h : nat) (n : native) (st : store) : store :=
  mkStore (<[h := n]> (natives st)) (next_native st).
Definition native_deinit (h : nat) (st : store) : option store :=
  _ ← natives st !! h;
  Some (mkStore (delete h (natives st)) (next_native st)).
Definition native_crt (st : store) (h : nat) : option crt :=
  n ← natives st !! h;
  match n with Crt c => Some c | _ => None end.

Definition deinit_option (o : option nat) (stolen : bool) (st : store) : option store :=
  match o with
  | Some h => if stolen then Some st else native_deinit h st
  | None => Some st
  end.

(** ** Certificates *)

Record EvdTlsCertificate := mkCertificate {
  x509_cert : option nat;
  openpgp_cert : option nat;
  type : EvdTlsCertificateType;
  native_stolen : bool
}.

Definition evd_tls_certificate_init : EvdTlsCertificate :=
  mkCertificate None None EVD_TLS_CERTIFICATE_TYPE_UNKNOWN false.

Definition evd_tls_certificate_cleanup (self : EvdTlsCertificate) (st : store)
  : option (EvdTlsCertificate * store) :=
  st ← deinit_option (x509_cert self) (native_stolen self) st;
  st ← deinit_option (openpgp_cert self) (native_stolen self) st;
  Some (mkCertificate None None EVD_TLS_CERTIFICATE_TYPE_UNKNOWN false, st).

Definition evd_tls_certificate_finalize (self : EvdTlsCertificate) (st : store) : option store :=
  '(_, st) ← evd_tls_certificate_cleanup self st; Some st.

Definition evd_tls_certificate_import_x509 (self : EvdTlsCertificate) (raw_data : list Z) (format : x509_crt_fmt)
    (st : store) : option (EvdTlsCertificate * store * option tls_error) :=
  let '(st, cert) := native_init st in
  match gnutls_x509_crt_import raw_data format with
  | inl c =>
      '(self, st) ← evd_tls_certificate_cleanup self (native_set cert (Crt c) st);
      Some (mkCertificate (Some cert) (openpgp_cert self) EVD_TLS_CERTIFICATE_TYPE_X509 (native_stolen self), st, None)
  | inr e => Some (self, st, Some (GnutlsError e))
  end.

(** GnuTLS is given [size] bytes. *)
Definition evd_tls_certificate_import (self : EvdTlsCertificate) (raw_data : list Z) (size : nat) (st : store)
  : option (EvdTlsCertificate * store * option tls_error) :=
  t ← evd_tls_certificate_detect_type raw_data;
  match t with
  | EVD_TLS_CERTIFICATE_TYPE_X509 => evd_tls_certificate_import_x509 self (take size raw_data) GNUTLS_X509_FMT_PEM st
  | EVD_TLS_CERTIFICATE_TYPE_OPENPGP =>
      let '(st, cert) := native_init st in
      match gnutls_openpgp_crt_import (take size raw_data) with
      | inl c =>
          '(self, st) ← evd_tls_certificate_cleanup self (native_set cert (Crt c) st);
          Some (mkCertificate (x509_cert self) (Some cert) EVD_TLS_CERTIFICATE_TYPE_OPENPGP (native_stolen self), st, None)
      | inr e => Some (self, st, Some (GnutlsError e))
      end
  | EVD_TLS_CERTIFICATE_TYPE_UNKNOWN =>
      '(self, st, e) ← evd_tls_certificate_import_x509 self (take size raw_data) GNUTLS_X509_FMT_DER st;
      match e with
      | None => Some (self, st, None)
      | Some _ => Some (self, st, Some ErrInvalidData)
      end
  end.

(** What [g_file_get_contents] gives ends with a NUL; a file that cannot be read is an error. *)
Definition evd_tls_certificate_import_from_file_thread (self : EvdTlsCertificate) (file : list Z + tls_error) (st : store)
  : option (EvdTlsCertificate * store * option tls_error) :=
  match file with
  | inl content => evd_tls_certificate_import self (content ++ [0]) (length content) st
  | inr e => Some (self, st, Some e)
  end.

Definition evd_tls_certificate_get_native (self : EvdTlsCertificate) : option nat :=
  match type self with
  | EVD_TLS_CERTIFICATE_TYPE_X509 => x509_cert self
  | EVD_TLS_CERTIFICATE_TYPE_OPENPGP => openpgp_cert self
  | EVD_TLS_CERTIFICATE_TYPE_UNKNOWN => None
  end.

Definition evd_tls_certificate_steal_native (self : EvdTlsCertificate) : EvdTlsCertificate * option nat :=
  let native := evd_tls_certificate_get_native self in
  (match native with
   | Some _ => mkCertificate (x509_cert self) (openpgp_cert self) (type self) true
   | None => self
   end, native).

(** ** Validity *)

(** A time, or -1 and an error. *)
Definition time_or_error (time : Z) : Z * option tls_error :=
  (time, if time =? -1 then Some ErrInvalidData else None).

Definition evd_tls_certificate_get_expiration_time (self : EvdTlsCertificate) (st : store)
  : option (Z * option tls_error) :=
  match type self with
  | EVD_TLS_CERTIFICATE_TYPE_X509 =>
      h ← x509_cert self; c ← native_crt st h; Some (time_or_error (gnutls_x509_crt_get_expiration_time c))
  | EVD_TLS_CERTIFICATE_TYPE_OPENPGP =>
      h ← openpgp_cert self; c ← native_crt st h; Some (time_or_error (gnutls_openpgp_crt_get_expiration_time c))
  | EVD_TLS_CERTIFICATE_TYPE_UNKNOWN => Some (-1, Some ErrNotInitialized)
  end.

Definition evd_tls_certificate_get_activation_time (self : EvdTlsCertificate) (st : store)
  : option (Z * option tls_error) :=
  match type self with
  | EVD_TLS_CERTIFICATE_TYPE_X509 =>
      h ← x509_cert self; c ← native_crt st h; Some (time_or_error (gnutls_x509_crt_get_activation_time c))
  | EVD_TLS_CERTIFICATE_TYPE_OPENPGP =>
      h ← openpgp_cert self; c ← native_crt st h; Some (time_or_error (gnutls_openpgp_crt_get_creation_time c))
  | EVD_TLS_CERTIFICATE_TYPE_UNKNOWN => Some (-1, Some ErrNotInitialized)
  end.

(** [now] is the clock; the result is -1 with an error, or flags. *)
Definition evd_tls_certificate_verify_validity (self : EvdTlsCertificate) (now : Z) (st : store)
  : option (Z * option tls_error) :=
  '(time_from, e) ← evd_tls_certificate_get_expiration_time self st;
  if time_from =? -1 then Some (-1, e)
  else
    '(time_to, e) ← evd_tls_certificate_get_activation_time self st;
    if time_to =? -1 then Some (-1, e)
    else
      let result := EVD_TLS_VERIFY_STATE_OK in
      let result := if time_from <? now then Z.lor result EVD_TLS_VERIFY_STATE_EXPIRED else result in
      let result := if now <? time_to then Z.lor result EVD_TLS_VERIFY_STATE_NOT_ACTIVE else result in
      Some (result, None).

(** ** Private keys *)

Record EvdTlsPrivkey := mkPrivkey {
  x509_privkey : option nat;
  openpgp_privkey : option nat;
  key_type : EvdTlsCertificateType;
  key_stolen : bool
}.

Definition evd_tls_privkey_init : EvdTlsPrivkey := mkPrivkey None None EVD_TLS_CERTIFICATE_TYPE_UNKNOWN false.

Definition evd_tls_privkey_cleanup (self : EvdTlsPrivkey) (st : store) : option (EvdTlsPrivkey * store) :=
  st ← deinit_option (x509_privkey self) (key_stolen self) st;
  st ← deinit_option (openpgp_privkey self) (key_stolen self) st;
  Some (mkPrivkey None None EVD_TLS_CERTIFICATE_TYPE_UNKNOWN false, st).

Definition evd_tls_privkey_finalize (self : EvdTlsPrivkey) (st : store) : option store :=
  '(_, st) ← evd_tls_privkey_cleanup self st; Some st.

Definition evd_tls_privkey_import_x509 (self : EvdTlsPrivkey) (raw_data : list Z) (format : x509_crt_fmt)
    (st : store) : option (EvdTlsPrivkey * store * option tls_error) :=
  let '(st, key) := native_init st in
  match gnutls_x509_privkey_import raw_data format with
  | inl k =>
      '(self, st) ← evd_tls_privkey_cleanup self (native_set key (Key k) st);
      Some (mkPrivkey (Some key) (openpgp_privkey self) EVD_TLS_CERTIFICATE_TYPE_X509 (key_stolen self), st, None)
  | inr e => Some (self, st, Some (GnutlsError e))
  end.

Definition evd_tls_privkey_import (self : EvdTlsPrivkey) (raw_data : list Z) (size : nat) (st : store)
  : option (EvdTlsPrivkey * store * option tls_error) :=
  t ← evd_tls_privkey_detect_type raw_data;
  match t with
  | EVD_TLS_CERTIFICATE_TYPE_X509 => evd_tls_privkey_import_x509 self (take size raw_data) GNUTLS_X509_FMT_PEM st
  | EVD_TLS_CERTIFICATE_TYPE_OPENPGP =>
      let '(st, key) := native_init st in
      match gnutls_openpgp_privkey_import (take size raw_data) with
      | inl k =>
          '(self, st) ← evd_tls_privkey_cleanup self (native_set key (Key k) st);
          Some (mkPrivkey (x509_privkey self) (Some key) EVD_TLS_CERTIFICATE_TYPE_OPENPGP (key_stolen self), st, None)
      | inr e => Some (self, st, Some (GnutlsError e))
      end
  | EVD_TLS_CERTIFICATE_TYPE_UNKNOWN =>
      '(self, st, e) ← evd_tls_privkey_import_x509 self (take size raw_data) GNUTLS_X509_FMT_DER st;
      match e with
      | None => Some (self, st, None)
      | Some _ => Some (self, st, Some ErrInvalidData)
      end
  end.

Definition evd_tls_privkey_import_from_file_thread (self : EvdTlsPrivkey) (file : list Z + tls_error) (st : store)
  : option (EvdTlsPrivkey * store * option tls_error) :=
  match file with
  | inl content => evd_tls_privkey_import self (content ++ [0]) (length content) st
  | inr e => Some (self, st, Some e)
  end.

Definition evd_tls_privkey_get_native (self : EvdTlsPrivkey) : option nat :=
  match key_type self with
  | EVD_TLS_CERTIFICATE_TYPE_X509 => x509_privkey self
  | EVD_TLS_CERTIFICATE_TYPE_OPENPGP => openpgp_privkey self
  | EVD_TLS_CERTIFICATE_TYPE_UNKNOWN => None
  end.

Definition evd_tls_privkey_steal_native (self : EvdTlsPrivkey) : EvdTlsPrivkey * option nat :=
  let native := evd_tls_privkey_get_native self in
  (match native with
   | Some _ => mkPrivkey (x509_privkey self) (openpgp_privkey self) (key_type self) true
   | None => self
   end, native).

End Objects.

End TlsCertificate.
