(* ===== verification/TlsSession.v ===== *)
(** * TLS credentials and sessions (src/evd/evd-tls-credentials.c, src/evd/evd-tls-session.c): model

    The credentials are prepared with Diffie-Hellman parameters of the generator and tell when they are
    ready; a session waits for its credentials before it shakes hands, and reads and writes through
    GnuTLS.  GnuTLS is a parameter.  A call of it that moves data is a tree of the calls it makes back,
    to the functions of the transport and to the certificate callback, and [run] follows it through the
    program.  The world has the objects by name, and a log of what happens.  References are not counted.
    [None] stands for a NULL or freed pointer that is used, or a failed assertion. *)
From S2P Require Import Prelude TlsDhGenerator TlsCertificate.
Import TlsCertificate.

Module TlsSession.

Inductive EvdTlsMode := EVD_TLS_MODE_SERVER | EVD_TLS_MODE_CLIENT.

#[export] Instance tls_mode_eq_dec : EqDecision EvdTlsMode.
Proof. solve_decision. Defined.

Inductive close_request := GNUTLS_SHUT_RDWR | GNUTLS_SHUT_WR.

Definition GNUTLS_E_SUCCESS : Z := 0.
Definition GNUTLS_E_NO_CERTIFICATE_FOUND : Z := -49.
Definition GNUTLS_E_SHORT_MEMORY_BUFFER : Z := -51.
Definition GNUTLS_E_REQUESTED_DATA_NOT_AVAILABLE : Z := -56.
Definition GNUTLS_NAME_DNS : Z := 1.

Definition GNUTLS_CERT_INVALID : Z := 2.
Definition GNUTLS_CERT_REVOKED : Z := 32.
Definition GNUTLS_CERT_SIGNER_NOT_FOUND : Z := 64.
Definition GNUTLS_CERT_SIGNER_NOT_CA : Z := 128.
Definition GNUTLS_CERT_INSECURE_ALGORITHM : Z := 256.

Definition MAX_DYNAMIC_CERTS : nat := 8.

(** What a function of the transport answers, and what GnuTLS is told of it: a read that would block
    sets EAGAIN, and any other failure is -1. *)
Inductive io_error := WouldBlock | Closed | OtherError.
Inductive pulled := Data (l : list Z) | Again | Broken.

(** What the certificate callback leaves for GnuTLS. *)
Record retr2_st := mkRetr {
  retr_type : option EvdTlsCertificateType;
  retr_certs : list nat;
  retr_key : option nat
}.

(** A call of GnuTLS: it ends, pushes or pulls data, calls the callback of a credentials object, or reads
    the credentials that were set. *)
Inductive io {C A : Type} :=
  | Ret (a : A)
  | Push (data : list Z) (k : Z → io)
  | Pull (size : Z) (k : pulled → io)
  | Retrieve (k : Z * retr2_st → io)
  | Lookup (c : nat) (k : option C → io).
Arguments io : clear implicits.

(** The functions of GnuTLS that the code calls; a credentials object and parameters are given by name. *)
Class Gnutls := {
  pki :: GnutlsPki;
  cred_t : Type;
  session_t : Type;
  gnutls_certificate_allocate_credentials : cred_t;
  gnutls_certificate_set_retrieve_function : cred_t → cred_t;
  gnutls_certificate_set_dh_params : cred_t → option nat → cred_t;
  gnutls_certificate_set_x509_key : cred_t → nat → nat → cred_t * Z;
  gnutls_certificate_set_openpgp_key : cred_t → nat → nat → cred_t * Z;
  gnutls_certificate_set_x509_key_file : cred_t → string → string → cred_t * Z;
  gnutls_init : EvdTlsMode → session_t + Z;
  gnutls_server_name_set : session_t → list Z → session_t * Z;
  gnutls_priority_set_direct : session_t → string → session_t * Z;
  gnutls_certificate_server_set_request : session_t → session_t;
  gnutls_credentials_set : session_t → nat → session_t * Z;
  gnutls_handshake : session_t → io cred_t (session_t * Z);
  gnutls_record_recv : session_t → Z → io cred_t (session_t * (Z * list Z));
  gnutls_record_send : session_t → list Z → io cred_t (session_t * Z);
  gnutls_bye : session_t → close_request → io cred_t (session_t * Z);
  gnutls_error_is_fatal : Z → Z;
  gnutls_record_get_direction : session_t → Z;
  gnutls_certificate_get_peers : session_t → option (list (list Z));
  gnutls_certificate_verify_peers2 : session_t → Z * Z;
  (** the code, the length, the type and what is written in the buffer *)
  gnutls_server_name_get : session_t → Z → Z → Z * Z * Z * list Z
}.

(** The functions of a transport, over its state. *)
Class Transport := {
  wire : Type;
  pull_func : wire → Z → wire * (list Z + io_error);
  push_func : wire → list Z → wire * (Z + io_error)
}.

(** What the certificate callback of the user does: it adds certificates, and answers. *)
Record cert_callback := mkCallback { adds : list (nat * nat); answers : bool }.

Inductive event :=
  | Created (s : nat)                              (* its GnuTLS session *)
  | Bound (s c : nat)
  | Handshake (s : nat) (code : Z)
  | HandshakeFails (s : nat) (e : tls_error)       (* where nobody sees the result *)
  | Ready (c : nat)
  | NotReady (c : nat).                            (* the generation has failed *)

Section Tls.
Context `{Gnutls, Transport}.

Record EvdTlsCredentials := mkCredentials {
  cred : option cred_t;
  dh_bits : Z;
  dh_params : option nat;
  ready : bool;
  preparing : bool;
  cert_cb : option cert_callback;
  cert_cb_ret_st : retr2_st;
  inside_cert_cb : bool;
  cert_cb_result : Z;
  async_ops_count : Z;
  x509_privkeys : list nat;
  openpgp_privkeys : list nat;
  ready_handlers : list nat        (* the sessions connected to "ready" *)
}.

Record EvdTlsSession := mkSession {
  session : option session_t;
  credentials : option nat;
  mode : EvdTlsMode;
  transport : wire;
  pull_set : bool;                 (* whether the functions of the transport are set *)
  push_set : bool;
  priority : string;
  cred_ready_sig_id : bool;
  cred_bound : bool;
  require_peer_cert : bool;
  write_shutdown : bool;
  server_name : option (list Z)
}.

Record world := mkWorld {
  gen : TlsDhGenerator.EvdTlsDhGenerator;
  asked : gmap nat nat;                      (* the credentials of each request for parameters *)
  objects : store;
  certs : gmap nat EvdTlsCertificate;
  keys : gmap nat EvdTlsPrivkey;
  creds : gmap nat EvdTlsCredentials;
  next_cred : nat;
  sessions : gmap nat EvdTlsSession;
  log : list event
}.

Definition set_cred x c := mkCredentials x (dh_bits c) (dh_params c) (ready c) (preparing c) (cert_cb c) (cert_cb_ret_st c) (inside_cert_cb c) (cert_cb_result c) (async_ops_count c) (x509_privkeys c) (openpgp_privkeys c) (ready_handlers c).
Definition set_dh b p c := mkCredentials (cred c) b p (ready c) (preparing c) (cert_cb c) (cert_cb_ret_st c) (inside_cert_cb c) (cert_cb_result c) (async_ops_count c) (x509_privkeys c) (openpgp_privkeys c) (ready_handlers c).
Definition set_ready r p c := mkCredentials (cred c) (dh_bits c) (dh_params c) r p (cert_cb c) (cert_cb_ret_st c) (inside_cert_cb c) (cert_cb_result c) (async_ops_count c) (x509_privkeys c) (openpgp_privkeys c) (ready_handlers c).
Definition set_cert_cb x c := mkCredentials (cred c) (dh_bits c) (dh_params c) (ready c) (preparing c) x (cert_cb_ret_st c) (inside_cert_cb c) (cert_cb_result c) (async_ops_count c) (x509_privkeys c) (openpgp_privkeys c) (ready_handlers c).
Definition set_inside st i r c := mkCredentials (cred c) (dh_bits c) (dh_params c) (ready c) (preparing c) (cert_cb c) st i r (async_ops_count c) (x509_privkeys c) (openpgp_privkeys c) (ready_handlers c).
Definition set_privkeys x o c := mkCredentials (cred c) (dh_bits c) (dh_params c) (ready c) (preparing c) (cert_cb c) (cert_cb_ret_st c) (inside_cert_cb c) (cert_cb_result c) (async_ops_count c) x o (ready_handlers c).
Definition set_handlers l c := mkCredentials (cred c) (dh_bits c) (dh_params c) (ready c) (preparing c) (cert_cb c) (cert_cb_ret_st c) (inside_cert_cb c) (cert_cb_result c) (async_ops_count c) (x509_privkeys c) (openpgp_privkeys c) l.

Definition set_session x s := mkSession x (credentials s) (mode s) (transport s) (pull_set s) (push_set s) (priority s) (cred_ready_sig_id s) (cred_bound s) (require_peer_cert s) (write_shutdown s) (server_name s).
Definition set_credentials x s := mkSession (session s) x (mode s) (transport s) (pull_set s) (push_set s) (priority s) (cred_ready_sig_id s) (cred_bound s) (require_peer_cert s) (write_shutdown s) (server_name s).
Definition set_transport x s := mkSession (session s) (credentials s) (mode s) x (pull_set s) (push_set s) (priority s) (cred_ready_sig_id s) (cred_bound s) (require_peer_cert s) (write_shutdown s) (server_name s).
Definition set_functions x pl ps s := mkSession (session s) (credentials s) (mode s) x pl ps (priority s) (cred_ready_sig_id s) (cred_bound s) (require_peer_cert s) (write_shutdown s) (server_name s).
Definition set_options m p r s := mkSession (session s) (credentials s) m (transport s) (pull_set s) (push_set s) p (cred_ready_sig_id s) (cred_bound s) r (write_shutdown s) (server_name s).
Definition set_sig_id x s := mkSession (session s) (credentials s) (mode s) (transport s) (pull_set s) (push_set s) (priority s) x (cred_bound s) (require_peer_cert s) (write_shutdown s) (server_name s).
Definition set_bound x s := mkSession (session s) (credentials s) (mode s) (transport s) (pull_set s) (push_set s) (priority s) (cred_ready_sig_id s) x (require_peer_cert s) (write_shutdown s) (server_name s).
Definition set_shutdown x s := mkSession (session s) (credentials s) (mode s) (transport s) (pull_set s) (push_set s) (priority s) (cred_ready_sig_id s) (cred_bound s) (require_peer_cert s) x (server_name s).
Definition set_name x s := mkSession (session s) (credentials s) (mode s) (transport s) (pull_set s) (push_set s) (priority s) (cred_ready_sig_id s) (cred_bound s) (require_peer_cert s) (write_shutdown s) x.

Definition with_gen g w := mkWorld g (asked w) (objects w) (certs w) (keys w) (creds w) (next_cred w) (sessions w) (log w).
Definition with_asked m w := mkWorld (gen w) m (objects w) (certs w) (keys w) (creds w) (next_cred w) (sessions w) (log w).
Definition with_objects st w := mkWorld (gen w) (asked w) st (certs w) (keys w) (creds w) (next_cred w) (sessions w) (log w).
Definition with_key k x w := mkWorld (gen w) (asked w) (objects w) (certs w) (<[k := x]> (keys w)) (creds w) (next_cred w) (sessions w) (log w).
Definition with_cred c x w := mkWorld (gen w) (asked w) (objects w) (certs w) (keys w) (<[c := x]> (creds w)) (next_cred w) (sessions w) (log w).
Definition with_session k x w := mkWorld (gen w) (asked w) (objects w) (certs w) (keys w) (creds w) (next_cred w) (<[k := x]> (sessions w)) (log w).
Definition log_event e w := mkWorld (gen w) (asked w) (objects w) (certs w) (keys w) (creds w) (next_cred w) (sessions w) (log w ++ [e]).

Definition evd_tls_credentials_init : EvdTlsCredentials :=
  mkCredentials None 0 None false false None (mkRetr None [] None) false 0 0 [] [] [].

Definition evd_tls_session_init (t : wire) : EvdTlsSession :=
  mkSession None None EVD_TLS_MODE_SERVER t false false "NORMAL" false false false false None.

Definition evd_tls_credentials_new w : world * nat :=
  (mkWorld (gen w) (asked w) (objects w) (certs w) (keys w) (<[next_cred w := evd_tls_credentials_init]> (creds w))
     (S (next_cred w)) (sessions w) (log w), next_cred w).

(** ** Certificates of a credentials object *)

(** Outside the certificate callback the key is set in GnuTLS; inside, it is what the callback leaves. *)
Definition evd_tls_credentials_add_certificate (self cert privkey : nat) w : option (world * option tls_error) :=
  c ← creds w !! self;
  crt ← certs w !! cert;
  key ← keys w !! privkey;
  let cert_type := type crt in
  if bool_decide (cert_type = EVD_TLS_CERTIFICATE_TYPE_UNKNOWN) || bool_decide (key_type key = EVD_TLS_CERTIFICATE_TYPE_UNKNOWN)
     || negb (bool_decide (cert_type = key_type key))
  then Some (w, Some ErrInvalidArgument)
  else
    let _cert := evd_tls_certificate_get_native crt in
    let '(key, _privkey) := evd_tls_privkey_steal_native key in
    let w := with_key privkey key w in
    let added := match _privkey with Some h => [h] | None => [] end in
    let c := if bool_decide (cert_type = EVD_TLS_CERTIFICATE_TYPE_X509)
             then set_privkeys (x509_privkeys c ++ added) (openpgp_privkeys c) c
             else set_privkeys (x509_privkeys c) (openpgp_privkeys c ++ added) c in
    let w := with_cred self c w in
    match _cert, _privkey with
    | Some _cert, Some _privkey =>
        if inside_cert_cb c then
          let st := cert_cb_ret_st c in
          if (MAX_DYNAMIC_CERTS <=? length (retr_certs st))%nat then Some (w, Some ErrTooManyLinks)
          else
            let st := mkRetr (Some cert_type) (retr_certs st ++ [_cert]) (Some _privkey) in
            Some (with_cred self (set_inside st true (cert_cb_result c) c) w, None)
        else
          let native := default gnutls_certificate_allocate_credentials (cred c) in
          let '(native, err_code) :=
            if bool_decide (cert_type = EVD_TLS_CERTIFICATE_TYPE_X509)
            then gnutls_certificate_set_x509_key native _cert _privkey
            else gnutls_certificate_set_openpgp_key native _cert _privkey in
          Some (with_cred self (set_cred (Some native) c) w,
                if err_code =? GNUTLS_E_SUCCESS then None else Some (GnutlsError err_code))
    | _, _ => Some (w, Some ErrInvalidArgument)
    end.

Definition add_certificate_from_file_thread (self : nat) (cert_file key_file : string) w : option (world * option tls_error) :=
  c ← creds w !! self;
  let native := default gnutls_certificate_allocate_credentials (cred c) in
  let '(native, err_code) := gnutls_certificate_set_x509_key_file native cert_file key_file in
  Some (with_cred self (set_cred (Some native) c) w,
        if err_code =? GNUTLS_E_SUCCESS then None else Some (GnutlsError err_code)).

(** The retrieve function is set whatever the callback is. *)
Definition evd_tls_credentials_set_cert_callback (self : nat) (callback : option cert_callback) w : option world :=
  c ← creds w !! self;
  let native := default gnutls_certificate_allocate_credentials (cred c) in
  Some (with_cred self (set_cred (Some (gnutls_certificate_set_retrieve_function native)) (set_cert_cb callback c)) w).

(** What the callback of the user does; it does not look at what goes wrong. *)
Fixpoint run_cert_cb (self : nat) (l : list (nat * nat)) w : option world :=
  match l with
  | [] => Some w
  | (cert, privkey) :: l =>
      '(w, _) ← evd_tls_credentials_add_certificate self cert privkey w;
      run_cert_cb self l w
  end.

(** The credentials of the session, which are made when there are none. *)
Definition evd_tls_session_get_credentials (k : nat) w : option (world * nat) :=
  s ← sessions w !! k;
  match credentials s with
  | Some c => Some (w, c)
  | None =>
      let '(w, c) := evd_tls_credentials_new w in
      Some (with_session k (set_credentials (Some c) s) w, c)
  end.

Definition evd_tls_credentials_server_cert_cb (tls_session : nat) w : option (world * (Z * retr2_st)) :=
  '(w, self) ← evd_tls_session_get_credentials tls_session w;
  c ← creds w !! self;
  cb ← cert_cb c;
  let w := with_cred self (set_inside (mkRetr None [] None) true 0 c) w in
  w ← run_cert_cb self (adds cb) w;
  c ← creds w !! self;
  let result := if answers cb then cert_cb_result c else -1 in
  Some (with_cred self (set_inside (cert_cb_ret_st c) false result c) w, (result, cert_cb_ret_st c)).

(** ** The transport of a session, and the calls of GnuTLS *)

Definition evd_tls_session_push (k : nat) (buf : list Z) w : option (world * Z) :=
  s ← sessions w !! k;
  if push_set s then
    let '(t, r) := push_func (transport s) buf in
    Some (with_session k (set_transport t s) w, match r with inl n => n | inr _ => -1 end)
  else None.

Definition evd_tls_session_pull (k : nat) (size : Z) w : option (world * pulled) :=
  s ← sessions w !! k;
  if pull_set s then
    let '(t, r) := pull_func (transport s) size in
    Some (with_session k (set_transport t s) w,
          match r with inl l => Data l | inr WouldBlock => Again | inr _ => Broken end)
  else None.

Fixpoint run {A} (k : nat) (m : io cred_t A) w : option (world * A) :=
  match m with
  | Ret a => Some (w, a)
  | Push data f => '(w, r) ← evd_tls_session_push k data w; run k (f r) w
  | Pull size f => '(w, r) ← evd_tls_session_pull k size w; run k (f r) w
  | Retrieve f => '(w, r) ← evd_tls_credentials_server_cert_cb k w; run k (f r) w
  | Lookup c f => x ← creds w !! c; run k (f (cred x)) w
  end.

(** A call on the GnuTLS session of [k], which must be there. *)
Definition call_gnutls {A} (k : nat) (f : session_t → io cred_t (session_t * A)) w : option (world * A) :=
  s ← sessions w !! k;
  g ← session s;
  '(w, (g, a)) ← run k (f g) w;
  s ← sessions w !! k;
  Some (with_session k (set_session (Some g) s) w, a).

(** ** The handshake *)

Definition evd_tls_session_handshake_internal (k : nat) w : option (world * (Z * option tls_error)) :=
  '(w, err_code) ← call_gnutls k gnutls_handshake w;
  let w := log_event (Handshake k err_code) w in
  Some (w, if err_code =? GNUTLS_E_SUCCESS then (1, None)
           else if gnutls_error_is_fatal err_code =? 1 then (-1, Some (GnutlsError err_code))
           else (0, None)).

Definition evd_tls_session_bind_credentials (k c : nat) w : option (world * option tls_error) :=
  s ← sessions w !! k;
  x ← creds w !! c;
  match cred x with
  | None => Some (w, Some ErrNotInitialized)
  | Some _ =>
      g ← session s;
      let '(g, err_code) := gnutls_credentials_set g c in
      let s := set_session (Some g) s in
      if err_code =? GNUTLS_E_SUCCESS
      then Some (log_event (Bound k c) (with_session k (set_bound true s) w), None)
      else Some (with_session k s w, Some (GnutlsError err_code))
  end.

Definition evd_tls_session_on_credentials_ready (c k : nat) w : option world :=
  '(w, e) ← evd_tls_session_bind_credentials k c w;
  match e with
  | Some e => Some (log_event (HandshakeFails k e) w)
  | None =>
      '(w, (_, e)) ← evd_tls_session_handshake_internal k w;
      Some (match e with Some e => log_event (HandshakeFails k e) w | None => w end)
  end.

(** The handlers of "ready", in the order in which they were connected. *)
Fixpoint emit_ready (c : nat) (handlers : list nat) w : option world :=
  match handlers with
  | [] => Some w
  | k :: handlers => w ← evd_tls_session_on_credentials_ready c k w; emit_ready c handlers w
  end.

(** ** Preparing the credentials *)

Definition evd_tls_credentials_prepare_finish (self : nat) w : option world :=
  c ← creds w !! self;
  if preparing c then Some w
  else
    let native := default gnutls_certificate_allocate_credentials (cred c) in
    let native := match cert_cb c with Some _ => gnutls_certificate_set_retrieve_function native | None => native end in
    let native := if dh_bits c =? 0 then native else gnutls_certificate_set_dh_params native (dh_params c) in
    let c := set_cred (Some native) c in
    let w := with_cred self c w in
    if async_ops_count c =? 0 then
      emit_ready self (ready_handlers c) (log_event (Ready self) (with_cred self (set_ready true false c) w))
    else Some w.

Definition evd_tls_credentials_dh_params_ready (self : nat) (res : option TlsDhGenerator.outcome) w : option world :=
  c ← creds w !! self;
  match res with
  | Some (TlsDhGenerator.Params p) =>
      evd_tls_credentials_prepare_finish self (with_cred self (set_dh (dh_bits c) (Some p) c) w)
  | _ => Some (log_event (NotReady self) (with_cred self (set_dh (dh_bits c) None c) w))
  end.

(** The requests that the generator has taken are those of [self]. *)
Definition note_requests (self : nat) (evs : list TlsDhGenerator.event) (m : gmap nat nat) : gmap nat nat :=
  foldl (λ m e, match e with TlsDhGenerator.Requested r _ => <[r := self]> m | _ => m end) m evs.

(** The call of the main thread as a whole; it would wait for ever for a mutex that is not given back. *)
Definition evd_tls_generate_dh_params (bit_length : Z) (regenerate : bool) (self : nat) w : option world :=
  let '(g, e1) := TlsDhGenerator.evd_tls_dh_generator_generate bit_length regenerate (gen w) in
  '(g, e2) ← match TlsDhGenerator.caller g with
             | Some c => TlsDhGenerator.generate_locked c g
             | None => Some (g, [])
             end;
  match TlsDhGenerator.caller g with
  | Some _ => None
  | None => Some (with_asked (note_requests self (e1 ++ e2) (asked w)) (with_gen g w))
  end.

Definition evd_tls_credentials_prepare (self : nat) w : option world :=
  c ← creds w !! self;
  if preparing c then Some w
  else if negb (dh_bits c =? 0) && bool_decide (dh_params c = None)
  then evd_tls_generate_dh_params (dh_bits c) false self w
  else evd_tls_credentials_prepare_finish self w.

(** Parameters that the credentials have are freed, once. *)
Definition dh_params_deinit (p : option nat) w : option world :=
  match p with
  | None => Some w
  | Some p =>
      _ ← TlsDhGenerator.params (gen w) !! p;
      Some (with_gen (TlsDhGenerator.with_params (delete p (TlsDhGenerator.params (gen w))) (gen w)) w)
  end.

(** The property "dh-bits". *)
Definition evd_tls_credentials_set_property_dh_bits (self : nat) (bits : Z) w : option world :=
  c ← creds w !! self;
  if bits =? dh_bits c then Some w
  else
    w ← dh_params_deinit (dh_params c) w;
    Some (with_cred self (set_ready false (preparing c) (set_dh bits None c)) w).

Fixpoint deinit_all (l : list nat) (st : store) : option store :=
  match l with
  | [] => Some st
  | h :: l => st ← native_deinit h st; deinit_all l st
  end.

Definition evd_tls_credentials_finalize (self : nat) w : option world :=
  c ← creds w !! self;
  w ← dh_params_deinit (dh_params c) w;
  st ← deinit_all (x509_privkeys c) (objects w);
  st ← deinit_all (openpgp_privkeys c) st;
  Some (mkWorld (gen w) (asked w) st (certs w) (keys w) (delete self (creds w)) (next_cred w) (sessions w) (log w)).

(** ** Setting a session up *)

Definition evd_tls_session_set_credentials (k c : nat) w : option world :=
  s ← sessions w !! k;
  _ ← creds w !! c;
  match credentials s with
  | Some old =>
      if cred_ready_sig_id s then
        x ← creds w !! old;
        let w := with_cred old (set_handlers (filter (.≠ k) (ready_handlers x)) x) w in
        Some (with_session k (set_credentials (Some c) (set_sig_id false s)) w)
      else Some (with_session k (set_credentials (Some c) s) w)
  | None => Some (with_session k (set_credentials (Some c) s) w)
  end.

Definition evd_tls_session_set_transport_pull_func (k : nat) (t : wire) w : option world :=
  s ← sessions w !! k; Some (with_session k (set_functions t true (push_set s) s) w).
Definition evd_tls_session_set_transport_push_func (k : nat) (t : wire) w : option world :=
  s ← sessions w !! k; Some (with_session k (set_functions t (pull_set s) true s) w).

(** The properties "mode", "priority" and "require-peer-cert". *)
Definition evd_tls_session_set_property (k : nat) (m : EvdTlsMode) (p : string) (require : bool) w : option world :=
  s ← sessions w !! k; Some (with_session k (set_options m p require s) w).

Definition evd_tls_session_set_server_name_internal (s : EvdTlsSession) : EvdTlsSession * option tls_error :=
  match session s, server_name s, mode s with
  | Some g, Some name, EVD_TLS_MODE_CLIENT =>
      let '(g, err_code) := gnutls_server_name_set g name in
      (set_session (Some g) s, if err_code =? GNUTLS_E_SUCCESS then None else Some (GnutlsError err_code))
  | _, _, _ => (s, None)
  end.

Definition evd_tls_session_set_server_name (k : nat) (name : option (list Z)) w : option (world * option tls_error) :=
  s ← sessions w !! k;
  let '(s, e) := evd_tls_session_set_server_name_internal (set_name name s) in
  Some (with_session k s w, e).

Definition evd_tls_session_copy_properties (k target : nat) w : option world :=
  if bool_decide (k = target) then Some w
  else
    '(w, c) ← evd_tls_session_get_credentials k w;
    s ← sessions w !! k;
    w ← evd_tls_session_set_credentials target c w;
    t ← sessions w !! target;
    Some (with_session target (set_options (mode t) (priority s) (require_peer_cert s) t) w).

(** ** The handshake of the user *)

(** What precedes the credentials, once the GnuTLS session is there. *)
Definition configure_session (s : EvdTlsSession) : EvdTlsSession * option tls_error :=
  let '(s, e) := evd_tls_session_set_server_name_internal s in
  match e, session s with
  | Some e, _ => (s, Some e)
  | None, None => (s, None)
  | None, Some g =>
      let '(g, err_code) := gnutls_priority_set_direct g (priority s) in
      let s := set_session (Some g) s in
      if err_code =? GNUTLS_E_SUCCESS then
        (if require_peer_cert s && bool_decide (mode s = EVD_TLS_MODE_SERVER)
         then set_session (Some (gnutls_certificate_server_set_request g)) s else s, None)
      else (s, Some (GnutlsError err_code))
  end.

Definition evd_tls_session_handshake (k : nat) w : option (world * (Z * option tls_error)) :=
  s ← sessions w !! k;
  match session s with
  | None =>
      match gnutls_init (mode s) with
      | inr err_code => Some (w, (-1, Some (GnutlsError err_code)))
      | inl g =>
          let '(s, e) := configure_session (set_session (Some g) s) in
          let w := log_event (Created k) (with_session k s w) in
          match e with
          | Some e => Some (w, (-1, Some e))
          | None =>
              '(w, c) ← evd_tls_session_get_credentials k w;
              x ← creds w !! c;
              if ready x then
                '(w, e) ← evd_tls_session_bind_credentials k c w;
                match e with
                | Some e => Some (w, (-1, Some e))
                | None => evd_tls_session_handshake_internal k w
                end
              else
                s ← sessions w !! k;
                let w := if cred_ready_sig_id s then w
                         else with_session k (set_sig_id true s) (with_cred c (set_handlers (ready_handlers x ++ [k]) x) w) in
                w ← evd_tls_credentials_prepare c w;
                Some (w, (0, None))
          end
      end
  | Some _ => if cred_bound s then evd_tls_session_handshake_internal k w else Some (w, (0, None))
  end.

(** ** Data *)

Definition read_result (code : Z) : Z * option tls_error :=
  if code <? 0 then
    if negb (gnutls_error_is_fatal code =? 0) then (-1, Some (GnutlsError code)) else (0, None)
  else (code, None).

(** The result, and the bytes it counts. *)
Definition evd_tls_session_read (k : nat) (size : Z) w : option (world * (Z * option tls_error * list Z)) :=
  if size <=? 0 then Some (w, (-1, None, []))
  else
    '(w, (code, data)) ← call_gnutls k (λ g, gnutls_record_recv g size) w;
    Some (w, (read_result code, data)).

Definition evd_tls_session_write (k : nat) (buffer : list Z) w : option (world * (Z * option tls_error)) :=
  if bool_decide (buffer = []) then Some (w, (-1, None))
  else
    '(w, code) ← call_gnutls k (λ g, gnutls_record_send g buffer) w;
    Some (w, read_result code).

Inductive direction := NoDirection | G_IO_IN | G_IO_OUT.

Definition evd_tls_session_get_direction (s : EvdTlsSession) : direction :=
  match session s with
  | None => NoDirection
  | Some g => if gnutls_record_get_direction g =? 0 then G_IO_IN else G_IO_OUT
  end.

(** [None] is the result TRUE. *)
Definition evd_tls_session_shutdown (k : nat) (how : close_request) w : option (world * option tls_error) :=
  s ← sessions w !! k;
  match session s with
  | None => Some (w, None)
  | Some _ =>
      '(w, err_code) ← call_gnutls k (λ g, gnutls_bye g how) w;
      if (err_code <? 0) && negb (gnutls_error_is_fatal err_code =? 0) then Some (w, Some (GnutlsError err_code))
      else s ← sessions w !! k; Some (with_session k (set_shutdown true s) w, None)
  end.

Definition evd_tls_session_close (k : nat) w := evd_tls_session_shutdown k GNUTLS_SHUT_RDWR w.
Definition evd_tls_session_shutdown_write (k : nat) w := evd_tls_session_shutdown k GNUTLS_SHUT_WR w.

Definition evd_tls_session_reset (k : nat) w : option world :=
  s ← sessions w !! k;
  match session s with
  | None => Some (with_session k (set_name None s) w)
  | Some _ =>
      w ← (if cred_ready_sig_id s then
             c ← credentials s; x ← creds w !! c;
             Some (with_cred c (set_handlers (filter (.≠ k) (ready_handlers x)) x) w)
           else Some w);
      Some (with_session k (set_name None (set_session None (set_bound false (set_sig_id false s)))) w)
  end.

Definition evd_tls_session_dispose (k : nat) w : option world :=
  s ← sessions w !! k;
  match credentials s with
  | None => Some w
  | Some c =>
      w ← (if cred_ready_sig_id s then
             x ← creds w !! c;
             Some (with_cred c (set_handlers (filter (.≠ k) (ready_handlers x)) x) w)
           else Some w);
      Some (with_session k (set_credentials None s) w)
  end.

(** The GnuTLS session goes with its object. *)
Definition evd_tls_session_finalize (k : nat) w : option world :=
  _ ← sessions w !! k;
  Some (mkWorld (gen w) (asked w) (objects w) (certs w) (keys w) (creds w) (next_cred w) (delete k (sessions w)) (log w)).

(** ** The peer *)

(** The certificates of the peer, each in a new object. *)
Fixpoint import_certificates (l : list (list Z)) (st : store) : option (list EvdTlsCertificate * store * option tls_error) :=
  match l with
  | [] => Some ([], st, None)
  | data :: l =>
      '(cert, st, e) ← evd_tls_certificate_import evd_tls_certificate_init data (length data) st;
      match e with
      | Some e => Some ([], st, Some e)
      | None =>
          '(certs, st, e) ← import_certificates l st;
          Some (cert :: certs, st, e)
      end
  end.

(** [evd_tls_free_certificates], of which nothing else keeps a reference. *)
Fixpoint evd_tls_free_certificates (l : list EvdTlsCertificate) (st : store) : option store :=
  match l with
  | [] => Some st
  | cert :: l => st ← evd_tls_certificate_finalize cert st; evd_tls_free_certificates l st
  end.

(** The certificates, none if one cannot be imported; those before it are freed. *)
Definition evd_tls_session_get_peer_certificates (s : EvdTlsSession) (st : store)
  : option (list EvdTlsCertificate * store * option tls_error) :=
  match session s with
  | None => Some ([], st, Some ErrNotInitialized)
  | Some g =>
      match gnutls_certificate_get_peers g with
      | None => Some ([], st, None)
      | Some l =>
          '(certs, st, e) ← import_certificates l st;
          match e with
          | None => Some (certs, st, None)
          | Some e => st ← evd_tls_free_certificates certs st; Some ([], st, Some e)
          end
      end
  end.

(** The loop over the certificates ends at one whose times are not known. *)
Fixpoint verify_certificates (l : list EvdTlsCertificate) (now result : Z) (st : store) : option (Z * option tls_error) :=
  match l with
  | [] => Some (result, None)
  | cert :: l =>
      '(cert_result, e) ← evd_tls_certificate_verify_validity cert now st;
      if cert_result <? 0 then Some (result, e) else verify_certificates l now (Z.lor result cert_result) st
  end.

Definition flag (status bit flag : Z) : Z := if negb (Z.land status bit =? 0) then flag else 0.

(** The result and the error that is set. *)
Definition evd_tls_session_verify_peer (s : EvdTlsSession) (now : Z) (st : store)
  : option (Z * option tls_error * store) :=
  match session s with
  | None => Some (-1, Some ErrNotInitialized, st)
  | Some g =>
      let '(err_code, status) := gnutls_certificate_verify_peers2 g in
      let result := EVD_TLS_VERIFY_STATE_OK in
      if negb (err_code =? GNUTLS_E_SUCCESS) && negb (err_code =? GNUTLS_E_NO_CERTIFICATE_FOUND)
      then Some (-1, Some (GnutlsError err_code), st)
      else
        let result :=
          if negb (err_code =? GNUTLS_E_SUCCESS) then Z.lor result EVD_TLS_VERIFY_STATE_NO_CERT
          else
            let result := Z.lor result (flag status GNUTLS_CERT_INVALID EVD_TLS_VERIFY_STATE_INVALID) in
            let result := Z.lor result (flag status GNUTLS_CERT_REVOKED EVD_TLS_VERIFY_STATE_REVOKED) in
            let result := Z.lor result (flag status GNUTLS_CERT_SIGNER_NOT_FOUND EVD_TLS_VERIFY_STATE_SIGNER_NOT_FOUND) in
            let result := Z.lor result (flag status GNUTLS_CERT_SIGNER_NOT_CA EVD_TLS_VERIFY_STATE_SIGNER_NOT_CA) in
            Z.lor result (flag status GNUTLS_CERT_INSECURE_ALGORITHM EVD_TLS_VERIFY_STATE_INSECURE_ALG) in
        '(peer_certs, st, e) ← evd_tls_session_get_peer_certificates s st;
        match peer_certs with
        | [] => Some (result, e, st)
        | _ =>
            '(result, e) ← verify_certificates peer_certs now result st;
            st ← evd_tls_free_certificates peer_certs st;
            Some (result, e, st)
        end
  end.

(** The loop over the names the client has sent; the buffer has sixteen bytes, [len] is what GnuTLS is
    told of it, and a longer name overruns it. *)
Fixpoint server_name_loop (fuel : nat) (g : session_t) (len index : Z) : option (option (list Z)) :=
  match fuel with
  | O => None
  | S fuel =>
      let '(err, len, type, written) := gnutls_server_name_get g len index in
      if 16 <? Z.of_nat (length written) then None
      else if (err =? GNUTLS_E_SUCCESS) && (type =? GNUTLS_NAME_DNS)
      then Some (Some (take (Z.to_nat len) written))
      else if err =? GNUTLS_E_REQUESTED_DATA_NOT_AVAILABLE then Some None
      else server_name_loop fuel g len (u32 (index + 1))
  end.

Definition evd_tls_session_get_server_name (fuel : nat) (k : nat) w : option (world * option (list Z)) :=
  s ← sessions w !! k;
  match mode s, server_name s, session s with
  | EVD_TLS_MODE_SERVER, None, Some g =>
      name ← server_name_loop fuel g 16 0;
      Some (with_session k (set_name name s) w, name)
  | _, name, _ => Some (w, name)
  end.

(** ** The main loop *)

(** A result of the generator is for the credentials that have asked. *)
Fixpoint deliver_answers (evs : list TlsDhGenerator.event) w : option world :=
  match evs with
  | [] => Some w
  | TlsDhGenerator.Answered r o :: evs =>
      w ← match asked w !! r with
          | Some c => evd_tls_credentials_dh_params_ready c o w
          | None => Some w
          end;
      deliver_answers evs w
  | _ :: evs => deliver_answers evs w
  end.

Inductive operation :=
  | OpHandshake (k : nat)
  | OpRead (k : nat) (size : Z)
  | OpWrite (k : nat) (data : list Z)
  | OpShutdown (k : nat) (how : close_request)
  | OpReset (k : nat)
  | OpSetCredentials (k c : nat)
  | OpSetServerName (k : nat) (name : option (list Z))
  | OpPrepare (c : nat)
  | OpSetDhBits (c : nat) (bits : Z)
  | OpSetCertCallback (c : nat) (cb : option cert_callback)
  | OpAddCertificate (c cert privkey : nat)
  | OpWorker (i : nat) (generated : bool)
  | OpIdle (i : nat).

Definition step (o : operation) w : option world :=
  match o with
  | OpHandshake k => '(w, _) ← evd_tls_session_handshake k w; Some w
  | OpRead k size => '(w, _) ← evd_tls_session_read k size w; Some w
  | OpWrite k data => '(w, _) ← evd_tls_session_write k data w; Some w
  | OpShutdown k how => '(w, _) ← evd_tls_session_shutdown k how w; Some w
  | OpReset k => evd_tls_session_reset k w
  | OpSetCredentials k c => evd_tls_session_set_credentials k c w
  | OpSetServerName k name => '(w, _) ← evd_tls_session_set_server_name k name w; Some w
  | OpPrepare c => evd_tls_credentials_prepare c w
  | OpSetDhBits c bits => evd_tls_credentials_set_property_dh_bits c bits w
  | OpSetCertCallback c cb => evd_tls_credentials_set_cert_callback c cb w
  | OpAddCertificate c cert privkey => '(w, _) ← evd_tls_credentials_add_certificate c cert privkey w; Some w
  | OpWorker i ok => '(g, _) ← TlsDhGenerator.step (TlsDhGenerator.OpWorker i ok) (gen w); Some (with_gen g w)
  | OpIdle i =>
      '(g, evs) ← TlsDhGenerator.step (TlsDhGenerator.OpIdle i) (gen w);
      deliver_answers evs (with_gen g w)
  end.

Fixpoint exec (ops : list operation) w : option world :=
  match ops with
  | [] => Some w
  | o :: ops => w ← step o w; exec ops w
  end.

End Tls.

End TlsSession.
