(* ===== verification/TlsSessionSpec.v ===== *)
(** * TLS credentials and sessions: theorems

    The laws of GnuTLS that are relied on are stated in [GnutlsLaws]: it looks only at the credentials
    that were set in a session, and calls the certificate callback only of credentials in which a
    retrieve function was set.  A program that sets the credentials of a session before its handshake,
    and reads and writes after it, never uses a pointer that is not there; a session whose handshake waits
    for its credentials goes on when they are ready. *)
From S2P Require Import Prelude TlsDhGenerator TlsDhGeneratorSpec TlsCertificate TlsSession.
Import TlsCertificate TlsSession.

Module TlsSessionSpec.

Abbreviation dh_inv := TlsDhGeneratorSpec.inv.
Abbreviation no_error := TlsDhGeneratorSpec.no_error.

(** ** What is relied on *)

Section Laws.
Context `{Gnutls, Transport}.

(** The calls back that GnuTLS makes, when it has been given the credentials [bound], and [callback] says
    whether it knows of a retrieve function. *)
Fixpoint io_ok {A} (retrieves : cred_t → bool) (Q : A → Prop) (bound : option nat) (callback : bool)
    (m : io cred_t A) : Prop :=
  match m with
  | Ret a => Q a
  | Push _ k => ∀ n, io_ok retrieves Q bound callback (k n)
  | Pull _ k => ∀ p, io_ok retrieves Q bound callback (k p)
  | Retrieve k => callback = true ∧ ∀ r, io_ok retrieves Q bound callback (k r)
  | Lookup c k =>
      bound = Some c ∧ ∀ o, io_ok retrieves Q bound (callback || default false (retrieves <$> o)) (k o)
  end.

Class GnutlsLaws := {
  retrieves : cred_t → bool;
  bound_of : session_t → option nat;
  allocate_retrieves : retrieves gnutls_certificate_allocate_credentials = false;
  set_dh_params_retrieves n p : retrieves (gnutls_certificate_set_dh_params n p) = retrieves n;
  set_x509_key_retrieves n c k : retrieves (gnutls_certificate_set_x509_key n c k).1 = retrieves n;
  set_openpgp_key_retrieves n c k : retrieves (gnutls_certificate_set_openpgp_key n c k).1 = retrieves n;
  init_bound m g : gnutls_init m = inl g → bound_of g = None;
  server_name_set_bound g l : bound_of (gnutls_server_name_set g l).1 = bound_of g;
  priority_set_bound g p : bound_of (gnutls_priority_set_direct g p).1 = bound_of g;
  set_request_bound g : bound_of (gnutls_certificate_server_set_request g) = bound_of g;
  credentials_set_bound g c :
    bound_of (gnutls_credentials_set g c).1 =
      if (gnutls_credentials_set g c).2 =? GNUTLS_E_SUCCESS then Some c else bound_of g;
  handshake_ok g : io_ok retrieves (λ r, bound_of r.1 = bound_of g) (bound_of g) false (gnutls_handshake g);
  recv_ok g n : io_ok retrieves (λ r, bound_of r.1 = bound_of g) (bound_of g) false (gnutls_record_recv g n);
  send_ok g l : io_ok retrieves (λ r, bound_of r.1 = bound_of g) (bound_of g) false (gnutls_record_send g l);
  bye_ok g h : io_ok retrieves (λ r, bound_of r.1 = bound_of g) (bound_of g) false (gnutls_bye g h)
}.

Context `{GnutlsLaws}.

(** ** What a call of GnuTLS leaves as it was *)

Definition known_callback w (cb : cert_callback) : Prop :=
  Forall (λ '(cert, key), is_Some (certs w !! cert) ∧ is_Some (keys w !! key)) (adds cb).

(** The certificate callback changes the certificates of credentials only. *)
Record cred_same (x x' : EvdTlsCredentials) : Prop := {
  same_cred : cred x' = cred x;
  same_dh : dh_bits x' = dh_bits x ∧ dh_params x' = dh_params x;
  same_ready : ready x' = ready x ∧ preparing x' = preparing x ∧ async_ops_count x' = async_ops_count x;
  same_cert_cb : cert_cb x' = cert_cb x;
  same_handlers : ready_handlers x' = ready_handlers x
}.

#[local] Instance cred_same_pre : PreOrder cred_same.
Proof.
  split; [by split|]. intros x y z [? [] (? & ? & ?) ? ?] [? [] (? & ? & ?) ? ?].
  split; split_and?; congruence.
Qed.

Record frame (w w' : world) : Prop := {
  frame_gen : gen w' = gen w;
  frame_asked : asked w' = asked w;
  frame_log : log w' = log w;
  frame_next : next_cred w' = next_cred w;
  frame_certs : certs w' = certs w;
  frame_keys k : is_Some (keys w !! k) → is_Some (keys w' !! k);
  frame_creds c : option_Forall2 cred_same (creds w !! c) (creds w' !! c);
  frame_sessions k : option_Forall2 (λ s s', s' = set_transport (transport s') s) (sessions w !! k) (sessions w' !! k)
}.

#[local] Instance frame_refl : Reflexive frame.
Proof.
  intros w. split; try done. intros k. destruct (sessions w !! k) as [[]|]; by constructor.
Qed.

#[local] Instance frame_trans : Transitive frame.
Proof.
  intros w1 w2 w3 F1 F2. destruct F1 as [? ? ? ? ? Hk1 Hc1 Hs1], F2 as [? ? ? ? ? Hk2 Hc2 Hs2].
  split; try congruence; [by eauto|..].
  - intros c. specialize (Hc1 c). specialize (Hc2 c). destruct Hc1; inversion Hc2; subst; constructor. by etrans.
  - intros k. specialize (Hs1 k). specialize (Hs2 k). destruct Hs1 as [s s' E|]; inversion Hs2 as [? s'' E2|]; subst; constructor.
    rewrite E2, E at 1. done.
Qed.

Lemma frame_cred w w' c x :
  frame w w' → creds w !! c = Some x → ∃ x', creds w' !! c = Some x' ∧ cred_same x x'.
Proof.
  intros F E. pose proof (frame_creds _ _ F c) as Hc. rewrite E in Hc. inversion Hc; subst. eauto.
Qed.
Lemma frame_cred_back w w' c x' :
  frame w w' → creds w' !! c = Some x' → ∃ x, creds w !! c = Some x ∧ cred_same x x'.
Proof.
  intros F E. pose proof (frame_creds _ _ F c) as Hc. rewrite E in Hc. inversion Hc; subst. eauto.
Qed.
Lemma frame_session w w' k s :
  frame w w' → sessions w !! k = Some s → ∃ t, sessions w' !! k = Some (set_transport t s).
Proof.
  intros F E. pose proof (frame_sessions _ _ F k) as Hc. rewrite E in Hc. inversion Hc as [? s' E'|]; subst.
  rewrite E'. eauto.
Qed.
Lemma frame_session_back w w' k s' :
  frame w w' → sessions w' !! k = Some s' → ∃ s, sessions w !! k = Some s ∧ s' = set_transport (transport s') s.
Proof.
  intros F E. pose proof (frame_sessions _ _ F k) as Hc. rewrite E in Hc. inversion Hc; subst. eauto.
Qed.

Lemma frame_with_cred w c x x' : creds w !! c = Some x → cred_same x x' → frame w (with_cred c x' w).
Proof.
  intros E Hx. split; try done; cbn.
  - intros c'. destruct (decide (c' = c)) as [->|]; [rewrite lookup_insert_eq, E; by constructor|by rewrite lookup_insert_ne].
  - intros k. destruct (sessions w !! k) as [[]|]; by constructor.
Qed.

Lemma frame_with_key w k x : frame w (with_key k x w).
Proof.
  split; try done; cbn.
  - intros k' [y Hy]. destruct (decide (k' = k)) as [->|]; [by rewrite lookup_insert_eq|].
    rewrite lookup_insert_ne by done. by exists y.
  - intros k'. destruct (sessions w !! k') as [[]|]; by constructor.
Qed.

Lemma frame_with_transport w k s t : sessions w !! k = Some s → frame w (with_session k (set_transport t s) w).
Proof.
  intros E. split; try done; cbn. intros k'. destruct (decide (k' = k)) as [->|].
  - rewrite lookup_insert_eq, E. by constructor.
  - rewrite lookup_insert_ne by done. destruct (sessions w !! k') as [[]|]; by constructor.
Qed.

Lemma known_callback_frame w w' cb : frame w w' → known_callback w cb → known_callback w' cb.
Proof.
  intros F. unfold known_callback. rewrite (frame_certs _ _ F). intros Hall.
  eapply Forall_impl; [exact Hall|]. intros [cert key] [? ?]. split; [done|]. by apply (frame_keys _ _ F).
Qed.

(** ** The log *)

(** The credentials of a session were bound after its GnuTLS session was made. *)
Definition bound_in (k : nat) (l : list event) : Prop :=
  ∃ l0 c l1, l = l0 ++ Bound k c :: l1 ∧ Created k ∉ l1.

(** Every handshake comes after its credentials. *)
Definition handshakes_bound (l : list event) : Prop :=
  ∀ l1 k code l2, l = l1 ++ Handshake k code :: l2 → bound_in k l1.

Lemma bound_in_snoc k l e : e ≠ Created k → bound_in k l → bound_in k (l ++ [e]).
Proof.
  intros He (l0 & c & l1 & -> & Hn). exists l0, c, (l1 ++ [e]). rewrite <-app_assoc. split; [done|].
  intros [?|E%list_elem_of_singleton]%elem_of_app; congruence.
Qed.

(** An event of [P] since the last GnuTLS session of [k] was made. *)
Definition since (k : nat) (P : event → Prop) (l : list event) : Prop :=
  ∃ l0 e l1, l = l0 ++ e :: l1 ∧ P e ∧ Created k ∉ l1.

(** A call of gnutls_handshake, and a failure where nobody sees it. *)
Definition tried (k : nat) (e : event) : Prop := ∃ code, e = Handshake k code.
Definition failed (k : nat) (e : event) : Prop := ∃ x, e = HandshakeFails k x.

Lemma since_app k P l l' : Created k ∉ l' → since k P l → since k P (l ++ l').
Proof.
  intros Hn (l0 & e & l1 & -> & He & Hn1). exists l0, e, (l1 ++ l'). rewrite <-app_assoc.
  split_and!; [done..|]. by intros [?|?]%elem_of_app.
Qed.

Lemma since_now k (P : event → Prop) l e : P e → since k P (l ++ [e]).
Proof. intros He. exists l, e, []. split_and!; [done..|apply not_elem_of_nil]. Qed.

Lemma handshakes_bound_snoc l e :
  handshakes_bound l → (∀ k code, e = Handshake k code → bound_in k l) → handshakes_bound (l ++ [e]).
Proof.
  intros Hl He l1 k code l2 E. destruct (decide (l2 = [])) as [->|Hne].
  - apply app_inj_tail in E as [-> ->]. by eapply He.
  - destruct (exists_last Hne) as (l2' & e' & ->). rewrite app_comm_cons, app_assoc in E.
    apply app_inj_tail in E as [-> _]. by eapply Hl.
Qed.

(** ** The invariant of the objects *)

Definition cred_ok w (c : nat) (x : EvdTlsCredentials) : Prop :=
  preparing x = false ∧ async_ops_count x = 0 ∧
  (∀ n, cred x = Some n → retrieves n → cert_cb x ≠ None) ∧
  (∀ cb, cert_cb x = Some cb → known_callback w cb) ∧
  (ready x → cred x ≠ None) ∧
  (∀ k, k ∈ ready_handlers x → ∃ s, sessions w !! k = Some s ∧ credentials s = Some c ∧ session s ≠ None ∧ cred_ready_sig_id s).

Definition session_ok w (k : nat) (s : EvdTlsSession) : Prop :=
  pull_set s ∧ push_set s ∧
  (∀ c, credentials s = Some c → is_Some (creds w !! c)) ∧
  (cred_bound s → session s ≠ None ∧ bound_in k (log w)) ∧
  (∀ g c, session s = Some g → bound_of g = Some c → credentials s = Some c) ∧
  (cred_ready_sig_id s → session s ≠ None ∧
     ∃ c x, credentials s = Some c ∧ creds w !! c = Some x ∧ k ∈ ready_handlers x).

Record wf w : Prop := {
  wf_gen : ∃ evs, dh_inv evs (gen w);
  wf_caller : TlsDhGenerator.caller (gen w) = None;
  wf_asked r c : asked w !! r = Some c → is_Some (creds w !! c);
  wf_creds c x : creds w !! c = Some x → cred_ok w c x;
  wf_sessions k s : sessions w !! k = Some s → session_ok w k s;
  wf_fresh c x : creds w !! c = Some x → (c < next_cred w)%nat;
  wf_bits c x : creds w !! c = Some x → 0 <= dh_bits x;
  wf_handshakes : handshakes_bound (log w)
}.

Lemma frame_wf w w' : wf w → frame w w' → wf w'.
Proof.
  intros W F. split.
  - rewrite (frame_gen _ _ F). apply W.
  - rewrite (frame_gen _ _ F). apply W.
  - rewrite (frame_asked _ _ F). intros r c E. destruct (wf_asked _ W r c E) as [x Ex].
    destruct (frame_cred _ _ _ _ F Ex) as (x' & ? & _). eauto.
  - intros c x' E. destruct (frame_cred_back _ _ _ _ F E) as (x & Ex & Hs).
    destruct (wf_creds _ W c x Ex) as (H1' & H2' & H3' & H4' & H5' & H6'). destruct Hs as [Hc _ (Hr & Hp & Ha) Hcb Hh].
    unfold cred_ok. rewrite Hc, Hr, Hp, Ha, Hcb, Hh. split_and!; try done.
    + intros cb Ecb. apply known_callback_frame with w; [done|]. by apply H4'.
    + intros k Hk. destruct (H6' k Hk) as (s & Es & Ec & Eg & Hsig). destruct (frame_session _ _ _ _ F Es) as [t Et]. eauto 10.
  - intros k s' E. destruct (frame_session_back _ _ _ _ F E) as (s & Es & ->).
    destruct (wf_sessions _ W k s Es) as (? & ? & H3' & H4' & ? & H6'). split_and!; try done.
    + intros c Ec. destruct (H3' c Ec) as [x Ex]. destruct (frame_cred _ _ _ _ F Ex) as (x' & ? & _). eauto.
    + rewrite (frame_log _ _ F). exact H4'.
    + intros Hsig. destruct (H6' Hsig) as (? & c & x & Ec & Ex & Hk). split; [done|].
      destruct (frame_cred _ _ _ _ F Ex) as (x' & Ex' & Hs). exists c, x'. by rewrite (same_handlers _ _ Hs).
  - rewrite (frame_next _ _ F). intros c x' E. destruct (frame_cred_back _ _ _ _ F E) as (x & Ex & _). by apply (wf_fresh _ W c x).
  - intros c x' E. destruct (frame_cred_back _ _ _ _ F E) as (x & Ex & Hs). destruct (same_dh _ _ Hs) as [-> _]. by apply (wf_bits _ W c).
  - rewrite (frame_log _ _ F). apply W.
Qed.

(** ** Calls back *)

(** A certificate that the callback adds. *)
Lemma add_certificate_inside self cert privkey w x :
  creds w !! self = Some x → inside_cert_cb x = true → is_Some (certs w !! cert) → is_Some (keys w !! privkey) →
  ∃ w' e x', evd_tls_credentials_add_certificate self cert privkey w = Some (w', e) ∧ frame w w' ∧
    creds w' !! self = Some x' ∧ inside_cert_cb x' = true.
Proof.
  intros Ex Hin [crt Ec] [key Ek]. unfold evd_tls_credentials_add_certificate. rewrite Ex, Ec, Ek. run_bind.
  destruct (_ || _ || _); [by eexists _, _, x|]. destruct (evd_tls_privkey_steal_native key) as [key' privk].
  set (added := match privk with Some h => [h] | None => [] end).
  set (x1 := if bool_decide _ then set_privkeys (x509_privkeys x ++ added) _ x else _).
  assert (cred_same x x1 ∧ inside_cert_cb x1 = true) as [S1 I1] by (unfold x1; by destruct (bool_decide _)).
  set (w1 := with_cred self x1 (with_key privkey key' w)).
  assert (frame w w1) as F1.
  { etrans; [apply (frame_with_key w privkey key')|]. by eapply frame_with_cred. }
  assert (creds w1 !! self = Some x1) as E1 by apply lookup_insert_eq.
  destruct (evd_tls_certificate_get_native crt) as [h|], privk as [h'|]; try by (eexists _, _, x1).
  rewrite I1. destruct (_ <=? _)%nat; [by eexists _, _, x1|]. eexists _, _, _. split; [done|]. split; [|split].
  - etrans; [exact F1|]. eapply frame_with_cred; [exact E1|]. by split.
  - apply lookup_insert_eq.
  - done.
Qed.

Lemma run_cert_cb_spec self l w x :
  creds w !! self = Some x → inside_cert_cb x = true →
  Forall (λ '(cert, key), is_Some (certs w !! cert) ∧ is_Some (keys w !! key)) l →
  ∃ w' x', run_cert_cb self l w = Some w' ∧ frame w w' ∧ creds w' !! self = Some x' ∧ inside_cert_cb x' = true.
Proof.
  revert w x; induction l as [|[cert key] l IH]; intros w x Ex Hin Hl; cbn [run_cert_cb].
  { eexists _, _. split_and!; done. }
  apply Forall_cons in Hl as [[Hc Hk] Hl].
  destruct (add_certificate_inside self cert key w x Ex Hin Hc Hk) as (w1 & e & x1 & E1 & F1 & Ex1 & I1).
  rewrite E1. run_bind. destruct (IH w1 x1 Ex1 I1) as (w2 & x2 & E2 & F2 & Ex2 & I2).
  { apply (known_callback_frame w w1 (mkCallback l true) F1 Hl). }
  exists w2, x2. split_and!; try done. by etrans.
Qed.

Lemma server_cert_cb_spec k w s c x :
  wf w → sessions w !! k = Some s → credentials s = Some c → creds w !! c = Some x → cert_cb x ≠ None →
  ∃ w' r, evd_tls_credentials_server_cert_cb k w = Some (w', r) ∧ frame w w'.
Proof.
  intros W Es Ec Ex Hcb. destruct (cert_cb x) as [cb|] eqn:Ecb; [|done]. clear Hcb.
  unfold evd_tls_credentials_server_cert_cb, evd_tls_session_get_credentials.
  rewrite Es. run_bind. rewrite Ec. run_bind. rewrite Ex. run_bind. rewrite Ecb. run_bind.
  set (w1 := with_cred c _ w). assert (frame w w1) as F1 by (eapply frame_with_cred; [exact Ex|by split]).
  destruct (run_cert_cb_spec c (adds cb) w1 (set_inside (mkRetr None [] None) true 0 x)) as (w2 & x2 & E2 & F2 & Ex2 & I2); try done.
  { apply lookup_insert_eq. }
  { destruct (wf_creds _ W c x Ex) as (_ & _ & _ & Hcb & _). by apply Hcb. }
  rewrite E2. run_bind. rewrite Ex2. run_bind. eexists _, _. split; [done|].
  etrans; [exact F1|]. etrans; [exact F2|]. eapply frame_with_cred; [exact Ex2|]. by split.
Qed.

(** A call that keeps the laws comes to its end. *)
Lemma run_io_spec {A} (Q : A → Prop) k (m : io cred_t A) bound callback w s :
  wf w → sessions w !! k = Some s → (∀ c, bound = Some c → credentials s = Some c) →
  (callback = true → ∃ c x, credentials s = Some c ∧ creds w !! c = Some x ∧ cert_cb x ≠ None) →
  io_ok retrieves Q bound callback m → ∃ w' a, run k m w = Some (w', a) ∧ frame w w' ∧ Q a.
Proof.
  revert callback w s. induction m as [a|data f IH|size f IH|f IH|c f IH]; intros callback w s W Es Hb Hcb Hm;
    cbn [run]; cbn [io_ok] in Hm.
  - by eexists _, _.
  - destruct (wf_sessions _ W k s Es) as (Hpull & Hpush & _). unfold evd_tls_session_push. rewrite Es. run_bind.
    destruct (push_set s); [|done]. destruct (push_func (transport s) data) as [t r]. run_bind.
    pose proof (frame_with_transport w k s t Es) as F1.
    destruct (IH (match r with inl n => n | inr _ => -1 end) callback
                (with_session k (set_transport t s) w) (set_transport t s) (frame_wf _ _ W F1)) as (w' & a & E & F & HQ).
    + apply lookup_insert_eq.
    + done.
    + done.
    + apply Hm.
    + exists w', a. split; [exact E|]. split; [by etrans|done].
  - destruct (wf_sessions _ W k s Es) as (Hpull & Hpush & _). unfold evd_tls_session_pull. rewrite Es. run_bind.
    destruct (pull_set s); [|done]. destruct (pull_func (transport s) size) as [t r]. run_bind.
    pose proof (frame_with_transport w k s t Es) as F1.
    destruct (IH (match r with inl l => Data l | inr WouldBlock => Again | inr _ => Broken end) callback
                (with_session k (set_transport t s) w) (set_transport t s) (frame_wf _ _ W F1)) as (w' & a & E & F & HQ).
    + apply lookup_insert_eq.
    + done.
    + done.
    + apply Hm.
    + exists w', a. split; [exact E|]. split; [by etrans|done].
  - destruct Hm as [-> Hm]. destruct (Hcb eq_refl) as (c & x & Ec & Ex & Hx).
    destruct (server_cert_cb_spec k w s c x W Es Ec Ex Hx) as (w1 & r & E1 & F1). rewrite E1. run_bind.
    destruct (frame_session _ _ _ _ F1 Es) as [t Et]. destruct (frame_cred _ _ _ _ F1 Ex) as (x' & Ex' & Hs).
    destruct (IH r true w1 (set_transport t s) (frame_wf _ _ W F1) Et Hb) as (w' & a & E & F & HQ).
    + intros _. exists c, x'. by rewrite (same_cert_cb _ _ Hs).
    + apply Hm.
    + exists w', a. split; [exact E|]. split; [by etrans|done].
  - destruct Hm as [-> Hm]. pose proof (Hb c eq_refl) as Ec. destruct (wf_sessions _ W k s Es) as (_ & _ & Hc & _).
    destruct (Hc c Ec) as [x Ex]. rewrite Ex. run_bind. eapply (IH (cred x)); [done|done|done| |apply Hm].
    destruct (wf_creds _ W c x Ex) as (_ & _ & Hret & _). intros Hor. destruct callback; [by apply Hcb|]. cbn in Hor.
    exists c, x. split_and!; try done. destruct (cred x) as [n|]; [|done]. apply (Hret n eq_refl). cbn in Hor. by rewrite Hor.
Qed.

(** A session that is stored again. *)
Lemma wf_with_session w k s s' :
  wf w → sessions w !! k = Some s → session_ok w k s' →
  (credentials s = credentials s' ∧ (session s ≠ None → session s' ≠ None) ∧ cred_ready_sig_id s' = cred_ready_sig_id s ∨
   ∀ c x, creds w !! c = Some x → k ∉ ready_handlers x) → wf (with_session k s' w).
Proof.
  intros W Es Hs' Hh. destruct W as [Wg Wc Wa Wcr Ws Wf Wb Wl]. split; cbn; try done.
  - intros c x Ex. destruct (Wcr c x Ex) as (? & ? & ? & ? & ? & Hhan). split_and!; try done.
    intros k' Hk'. cbn. destruct (decide (k' = k)) as [->|].
    + rewrite lookup_insert_eq. eexists; split; [done|]. destruct (Hhan k Hk') as (s0 & Es0 & Ec0 & Eg0 & Hsig). simplify_eq.
      destruct Hh as [(Ec & Eg & Es')|Hn]; [split_and!; [congruence|auto|by rewrite Es']|]. by destruct (Hn c x Ex).
    + rewrite lookup_insert_ne by done. by apply Hhan.
  - intros k' s0 [[<- <-]|[_ E0]]%lookup_insert_Some; [done|]. by apply (Ws k' s0).
Qed.

(** A call on the session of GnuTLS. *)
Lemma call_gnutls_spec {A} k (f : session_t → io cred_t (session_t * A)) w s g :
  wf w → sessions w !! k = Some s → session s = Some g →
  io_ok retrieves (λ r, bound_of r.1 = bound_of g) (bound_of g) false (f g) →
  ∃ w' t g' a, call_gnutls k f w = Some (w', a) ∧ wf w' ∧ bound_of g' = bound_of g ∧
    sessions w' !! k = Some (set_session (Some g') (set_transport t s)) ∧
    (∃ w1, frame w w1 ∧ w' = with_session k (set_session (Some g') (set_transport t s)) w1).
Proof.
  intros W Es Eg Hf. unfold call_gnutls. rewrite Es. run_bind. rewrite Eg. run_bind.
  destruct (run_io_spec (λ r, bound_of r.1 = bound_of g) k (f g) (bound_of g) false w s W Es) as (w1 & [g' a] & E1 & F1 & HQ); [|done|done|].
  { intros c. apply (wf_sessions _ W k s Es). done. }
  rewrite E1. run_bind. destruct (frame_session _ _ _ _ F1 Es) as [t Et]. rewrite Et. run_bind.
  cbn in HQ. exists (with_session k (set_session (Some g') (set_transport t s)) w1), t, g', a. split; [done|].
  split; [|split; [done|split; [apply lookup_insert_eq|by exists w1]]].
  pose proof (frame_wf _ _ W F1) as W1. eapply wf_with_session; [done|exact Et| |by left].
  destruct (wf_sessions _ W1 k _ Et) as (H1' & H2' & H3' & H4' & H5' & H6'). split_and!; try done.
  - intros Hb. split; [done|]. by apply H4'.
  - intros g0 c [= <-]. rewrite HQ. intros Eb. by apply (H5' g).
  - intros Hsig. destruct (H6' Hsig) as [_ Hk]. by split.
Qed.


(** ** Operations keep the invariant *)

Lemma wf_log w e :
  wf w → (∀ k code, e = Handshake k code → bound_in k (log w)) →
  (∀ k s, e = Created k → sessions w !! k = Some s → cred_bound s = false) → wf (log_event e w).
Proof.
  intros W Hh Hc. destruct (W) as [? ? ? ? Ws ? ? Wl]. split; try done; cbn.
  - intros k s Es. destruct (Ws k s Es) as (? & ? & ? & H4' & ? & ?). split_and!; try done. intros Hb. destruct (H4' Hb) as [? Hin].
    split; [done|]. apply bound_in_snoc; [|done]. intros ->. by rewrite (Hc k s) in Hb.
  - by apply handshakes_bound_snoc.
Qed.

Lemma handshake_internal_spec k w s g :
  wf w → sessions w !! k = Some s → session s = Some g → bound_in k (log w) →
  ∃ w' g' t code r, evd_tls_session_handshake_internal k w = Some (w', r) ∧ wf w' ∧
    ∃ w1, frame w w1 ∧ w' = log_event (Handshake k code) (with_session k (set_session (Some g') (set_transport t s)) w1).
Proof.
  intros W Es Eg Hbound. unfold evd_tls_session_handshake_internal.
  destruct (call_gnutls_spec k gnutls_handshake w s g W Es Eg (handshake_ok g)) as (w' & t & g' & code & E & W' & Hb & Es' & w1 & F1 & ->).
  rewrite E. run_bind. eexists _, g', t, code, _. split; [done|]. split; [|by exists w1].
  apply wf_log; [done| |done]. intros k0 code0 [= <- _]. cbn. by rewrite (frame_log _ _ F1).
Qed.

Lemma bind_credentials_spec k c w s g x n :
  wf w → sessions w !! k = Some s → session s = Some g → credentials s = Some c → creds w !! c = Some x → cred x = Some n →
  ∃ w' e, evd_tls_session_bind_credentials k c w = Some (w', e) ∧ wf w' ∧
    ∃ g', match e with
          | None => w' = log_event (Bound k c) (with_session k (set_bound true (set_session (Some g') s)) w)
          | Some _ => w' = with_session k (set_session (Some g') s) w
          end.
Proof.
  intros W Es Eg Ec Ex En. unfold evd_tls_session_bind_credentials. rewrite Es. run_bind. rewrite Ex. run_bind. rewrite En, Eg. run_bind.
  pose proof (credentials_set_bound g c) as Hb. destruct (gnutls_credentials_set g c) as [g' code]. cbn in Hb.
  destruct (wf_sessions _ W k s Es) as (H1' & H2' & H3' & H4' & H5' & H6').
  assert (∀ g0 c0, Some g' = Some g0 → bound_of g0 = Some c0 → credentials s = Some c0) as H5''.
  { intros g0 c0 [= <-] E. destruct (code =? GNUTLS_E_SUCCESS); [congruence|]. apply (H5' g c0 Eg). congruence. }
  destruct (code =? GNUTLS_E_SUCCESS).
  - eexists _, None. split; [done|]. split; [|by exists g']. 
    assert (wf (log_event (Bound k c) w)) as W1 by (by apply wf_log).
    apply (wf_with_session (log_event (Bound k c) w) k s); [done|exact Es| |by left].
    split_and!; try done.
    + intros _. split; [done|]. exists (log w), c, []. split; [done|set_solver].
    + intros Hsig. destruct (H6' Hsig) as [_ Hk]. by split.
  - eexists _, (Some _). split; [done|]. split; [|by exists g']. eapply wf_with_session; [done|exact Es| |by left].
    split_and!; try done.
    + intros Hbd. split; [done|]. by apply H4'.
    + intros Hsig. destruct (H6' Hsig) as [_ Hk]. by split.
Qed.

(** ** What "ready" does *)

(** A session keeps its handler, with its credentials, and its GnuTLS session, and stays bound. *)
Record session_later (s s' : EvdTlsSession) : Prop := {
  later_credentials : cred_ready_sig_id s → credentials s' = credentials s;
  later_sig_id : cred_ready_sig_id s' = cred_ready_sig_id s;
  later_session : session s ≠ None → session s' ≠ None;
  later_bound : cred_bound s → cred_bound s'
}.

Record later (w w' : world) : Prop := {
  later_log : ∃ l, log w' = log w ++ l ∧ ∀ k, Created k ∉ l;
  later_gen : gen w' = gen w;
  later_asked : asked w' = asked w;
  later_creds c : option_Forall2 cred_same (creds w !! c) (creds w' !! c);
  later_sessions k : option_Forall2 session_later (sessions w !! k) (sessions w' !! k)
}.

#[local] Instance session_later_pre : PreOrder session_later.
Proof.
  split; [by split|]. intros x y z [Hc1 Hs1 Hg1 Hb1] [Hc2 Hs2 Hg2 Hb2]. split; [|congruence|auto|auto].
  intros Hx. rewrite Hc2 by (by rewrite Hs1). by apply Hc1.
Qed.

#[local] Instance later_pre : PreOrder later.
Proof.
  split.
  - intros w. split; try done. exists []. rewrite app_nil_r. split; [done|]. intros k. apply not_elem_of_nil.
  - intros w1 w2 w3 [(l1 & L1 & N1) ? ? Hc1 Hs1] [(l2 & L2 & N2) ? ? Hc2 Hs2]. split; try congruence.
    + exists (l1 ++ l2). rewrite L2, L1, app_assoc. split; [done|]. intros k [?|?]%elem_of_app; [by apply (N1 k)|by apply (N2 k)].
    + intros c. etrans; [apply Hc1|apply Hc2].
    + intros k. etrans; [apply Hs1|apply Hs2].
Qed.

Lemma frame_later w w' : frame w w' → later w w'.
Proof.
  intros F. split; try apply F.
  - exists []. rewrite (frame_log _ _ F), app_nil_r. split; [done|]. intros k. apply not_elem_of_nil.
  - intros k. pose proof (frame_sessions _ _ F k) as Hk. destruct Hk as [s s' ->|]; constructor. by split.
Qed.

Lemma later_with_session w k s s' :
  sessions w !! k = Some s → session_later s s' → later w (with_session k s' w).
Proof.
  intros Es Hs. split; try done; cbn; [exists []; rewrite app_nil_r; split; [done|]; intros ?; apply not_elem_of_nil|].
  intros k'. destruct (decide (k' = k)) as [->|].
  - rewrite lookup_insert_eq, Es. by constructor.
  - by rewrite lookup_insert_ne.
Qed.

Lemma later_log_event w e : (∀ k, e ≠ Created k) → later w (log_event e w).
Proof. intros He. split; try done. exists [e]. split; [done|]. intros k E%list_elem_of_singleton. by apply (He k). Qed.

Lemma later_session_of w w' k s :
  later w w' → sessions w !! k = Some s → ∃ s', sessions w' !! k = Some s' ∧ session_later s s'.
Proof. intros L E. pose proof (later_sessions _ _ L k) as Hk. rewrite E in Hk. inversion Hk; subst. eauto. Qed.

Lemma later_cred_of w w' c x :
  later w w' → creds w !! c = Some x → ∃ x', creds w' !! c = Some x' ∧ cred_same x x'.
Proof. intros L E. pose proof (later_creds _ _ L c) as Hk. rewrite E in Hk. inversion Hk; subst. eauto. Qed.

(** The session is bound and has tried to shake hands, or its failure is in the log. *)
Definition settled (k : nat) w : Prop :=
  ∃ s, sessions w !! k = Some s ∧ session s ≠ None ∧
    (cred_bound s ∧ since k (tried k) (log w) ∨ since k (failed k) (log w)).

(** The session shakes hands, or waits for its credentials. *)
Definition begun (k : nat) w : Prop :=
  ∃ s, sessions w !! k = Some s ∧ session s ≠ None ∧
    (cred_ready_sig_id s ∨ cred_bound s ∧ since k (tried k) (log w)).

(** A GnuTLS session that is there is not made again. *)
Record after (w w' : world) : Prop := {
  after_log : ∃ l, log w' = log w ++ l ∧ ∀ k s, sessions w !! k = Some s → session s ≠ None → Created k ∉ l;
  after_sessions k : option_Forall2 session_later (sessions w !! k) (sessions w' !! k)
}.

Lemma later_after w w' : later w w' → after w w'.
Proof. intros [(l & E & N) ? ? ? ?]. split; [by exists l|done]. Qed.

Lemma after_session_of w w' k s :
  after w w' → sessions w !! k = Some s → ∃ s', sessions w' !! k = Some s' ∧ session_later s s'.
Proof. intros A E. pose proof (after_sessions _ _ A k) as Hk. rewrite E in Hk. inversion Hk; subst. eauto. Qed.

Lemma after_trans w1 w2 w3 : after w1 w2 → after w2 w3 → after w1 w3.
Proof.
  intros A1 A2. destruct (after_log _ _ A1) as (l1 & L1 & N1), (after_log _ _ A2) as (l2 & L2 & N2).
  split; [exists (l1 ++ l2); rewrite L2, L1, app_assoc; split; [done|]|].
  - intros k s Es Eg [?|?]%elem_of_app; [by eapply N1|]. destruct (after_session_of _ _ _ _ A1 Es) as (s' & Es' & Hs).
    eapply N2; [exact Es'| |done]. by apply (later_session _ _ Hs).
  - intros k. etrans; [apply (after_sessions _ _ A1)|apply (after_sessions _ _ A2)].
Qed.

Lemma since_after k P w w' s :
  after w w' → sessions w !! k = Some s → session s ≠ None → since k P (log w) → since k P (log w').
Proof. intros A Es Eg. destruct (after_log _ _ A) as (l & -> & N). apply since_app. by eapply N. Qed.

Lemma settled_after k w w' : after w w' → settled k w → settled k w'.
Proof.
  intros A (s & Es & Eg & Hor). destruct (after_session_of _ _ _ _ A Es) as (s' & Es' & Hs). exists s'.
  split; [done|]. split; [by apply (later_session _ _ Hs)|].
  destruct Hor as [[Hb Ht]|Hf]; [left|right]; [split; [by apply (later_bound _ _ Hs)|]|]; by eapply since_after.
Qed.

Lemma begun_after k w w' : after w w' → begun k w → begun k w'.
Proof.
  intros A (s & Es & Eg & Hor). destruct (after_session_of _ _ _ _ A Es) as (s' & Es' & Hs). exists s'.
  split; [done|]. split; [by apply (later_session _ _ Hs)|]. destruct Hor as [Hsig|[Hb Ht]]; [left; by rewrite (later_sig_id _ _ Hs)|right].
  split; [by apply (later_bound _ _ Hs)|by eapply since_after].
Qed.

Lemma settled_later k w w' : later w w' → settled k w → settled k w'.
Proof. intros L. by apply settled_after, later_after. Qed.

Lemma handshake_internal_later k w s g :
  wf w → sessions w !! k = Some s → session s = Some g → bound_in k (log w) →
  ∃ w' r, evd_tls_session_handshake_internal k w = Some (w', r) ∧ wf w' ∧ later w w' ∧ since k (tried k) (log w').
Proof.
  intros W Es Eg Hbound. destruct (handshake_internal_spec k w s g W Es Eg Hbound) as (w' & g' & t & code & r & E & W' & w1 & F1 & ->).
  eexists _, r. split; [done|]. split; [done|]. split; [|apply since_now; by eexists].
  etrans; [by apply frame_later|]. destruct (frame_session _ _ _ _ F1 Es) as [t' Et].
  etrans; [|by apply later_log_event]. eapply later_with_session; [done|]. by split.
Qed.

Lemma on_credentials_ready_spec c k w x n :
  wf w → creds w !! c = Some x → cred x = Some n → k ∈ ready_handlers x →
  ∃ w', evd_tls_session_on_credentials_ready c k w = Some w' ∧ wf w' ∧ later w w' ∧ settled k w'.
Proof.
  intros W Ex En Hk. destruct (wf_creds _ W c x Ex) as (_ & _ & _ & _ & _ & Hh). destruct (Hh k Hk) as (s & Es & Ec & Eg & _).
  destruct (session s) as [g|] eqn:Eg'; [|done]. clear Eg. unfold evd_tls_session_on_credentials_ready.
  destruct (bind_credentials_spec k c w s g x n W Es Eg' Ec Ex En) as (w1 & e & E1 & W1 & g1 & Hw1).
  rewrite E1. run_bind. destruct e as [e|].
  - subst w1. eexists. split; [done|]. split; [by apply wf_log|]. split.
    + etrans; [|by apply later_log_event]. eapply later_with_session; [done|]. by split.
    + eexists. split; [apply lookup_insert_eq|]. split; [done|]. right. apply since_now. by eexists.
  - assert (later w w1) as L1.
    { subst w1. etrans; [|by apply later_log_event]. eapply later_with_session; [done|]. by split. }
    assert (sessions w1 !! k = Some (set_bound true (set_session (Some g1) s))) as Es1 by (subst w1; apply lookup_insert_eq).
    clear Hw1.
    destruct (handshake_internal_later k w1 _ g1 W1 Es1 eq_refl (proj2 (proj1 (proj2 (proj2 (proj2 (wf_sessions _ W1 _ _ Es1)))) I))) as (w2 & [code e2] & E2 & W2 & L2 & Ht).
    assert (settled k w2) as S2.
    { destruct (later_session_of _ _ _ _ L2 Es1) as (s2 & Es2 & Hs2). exists s2. split; [done|].
      split; [by apply (later_session _ _ Hs2)|]. left. split; [by apply (later_bound _ _ Hs2)|done]. }
    rewrite E2. run_bind. eexists. split; [done|].
    assert (later w w2) as L by by etrans. destruct e2 as [e2|]; [|done].
    split; [by apply wf_log|]. split; [etrans; [done|by apply later_log_event]|]. eapply settled_later; [by apply later_log_event|done].
Qed.

Lemma emit_ready_spec c handlers w x n :
  wf w → creds w !! c = Some x → cred x = Some n → (∀ k, k ∈ handlers → k ∈ ready_handlers x) →
  ∃ w', emit_ready c handlers w = Some w' ∧ wf w' ∧ later w w' ∧ ∀ k, k ∈ handlers → settled k w'.
Proof.
  revert w x; induction handlers as [|k handlers IH]; intros w x W Ex En Hk; cbn [emit_ready].
  { eexists. split_and!; try done. set_solver. }
  destruct (on_credentials_ready_spec c k w x n W Ex En) as (w1 & E1 & W1 & L1 & S1); [apply Hk; by left|].
  rewrite E1. run_bind. destruct (later_cred_of _ _ _ _ L1 Ex) as (x1 & Ex1 & Hs).
  destruct (IH w1 x1 W1 Ex1) as (w2 & E2 & W2 & L2 & S2).
  { by rewrite (same_cred _ _ Hs). }
  { intros k' Hk'. rewrite (same_handlers _ _ Hs). apply Hk. by right. }
  exists w2. split_and!; try done; [by etrans|]. intros k' [->|Hk']%elem_of_cons; [by eapply settled_later|by apply S2].
Qed.

(** Credentials that are allocated have no retrieve function. *)
Lemma default_retrieves w c x :
  cred_ok w c x → retrieves (default gnutls_certificate_allocate_credentials (cred x)) → cert_cb x ≠ None.
Proof.
  intros (_ & _ & Hr & _) H'. destruct (cred x) as [n|]; cbn in H'; [by apply (Hr n)|]. by rewrite allocate_retrieves in H'.
Qed.

(** ** Preparing *)

Lemma wf_with_cred w c x x' :
  wf w → creds w !! c = Some x → cred_ok w c x' → ready_handlers x' = ready_handlers x → 0 <= dh_bits x' →
  wf (with_cred c x' w).
Proof.
  intros [Wg Wc Wa Wcr Ws Wf Wb Wl] Ex Hx' Eh Hbits. split; cbn; try done.
  - intros r c' E. destruct (Wa r c' E) as [y Ey]. destruct (decide (c' = c)) as [->|]; [by rewrite lookup_insert_eq|].
    rewrite lookup_insert_ne by done. eauto.
  - intros c' y [[<- <-]|[_ E]]%lookup_insert_Some; [done|]. by apply (Wcr c' y).
  - intros k s Es. destruct (Ws k s Es) as (H1' & H2' & H3' & H4' & H5' & H6'). split_and!; try done.
    + intros c' Ec. destruct (H3' c' Ec) as [y Ey]. cbn. destruct (decide (c' = c)) as [->|]; [by rewrite lookup_insert_eq|].
      rewrite lookup_insert_ne by done. eauto.
    + intros Hsig. destruct (H6' Hsig) as (? & c' & y & Ec & Ey & Hk). split; [done|]. cbn.
      destruct (decide (c' = c)) as [->|]; [|exists c', y; by rewrite lookup_insert_ne].
      exists c, x'. rewrite lookup_insert_eq, Eh. split_and!; try done. congruence.
  - intros c' y [[<- <-]|[_ E]]%lookup_insert_Some; by eapply Wf.
  - intros c' y [[<- <-]|[_ E]]%lookup_insert_Some; [done|by eapply Wb].
Qed.

Lemma after_creds w w' : log w' = log w → sessions w' = sessions w → after w w'.
Proof.
  intros El Es. split; [exists []; rewrite app_nil_r; split; [done|]; intros; apply not_elem_of_nil|]. intros k. rewrite Es.
  by destruct (sessions w !! k); constructor.
Qed.

(** The log alone, and what is not in a session. *)
Lemma after_event w e w' :
  (∀ k, e ≠ Created k) → log w' = log w ++ [e] → sessions w' = sessions w → after w w'.
Proof.
  intros He El Es. split; [exists [e]; split; [done|]; intros k s _ _ E%list_elem_of_singleton; by apply (He k)|].
  intros k. rewrite Es. by destruct (sessions w !! k); constructor.
Qed.

#[local] Instance after_refl : Reflexive after.
Proof. intros w. by apply after_creds. Qed.

Lemma prepare_finish_spec c w x :
  wf w → creds w !! c = Some x →
  ∃ w', evd_tls_credentials_prepare_finish c w = Some w' ∧ wf w' ∧ after w w' ∧
    gen w' = gen w ∧ asked w' = asked w ∧ ∀ k, k ∈ ready_handlers x → settled k w'.
Proof.
  intros W Ex. destruct (wf_creds _ W c x Ex) as (Hp & Ha & Hr & Hcb & Hrdy & Hh).
  unfold evd_tls_credentials_prepare_finish. rewrite Ex. run_bind. rewrite Hp. cbn [async_ops_count set_cred]. rewrite Ha.
  change (0 =? 0) with true. cbn iota.
  set (n := if dh_bits x =? 0 then _ else _). set (x1 := set_ready true false (set_cred (Some n) x)).
  assert (cred_ok w c x1) as Hx1.
  { split_and!; try done. intros n' [= <-] Hn'. change (cert_cb x1) with (cert_cb x). destruct (cert_cb x) eqn:Ecb; [done|].
    assert (retrieves n = retrieves (default gnutls_certificate_allocate_credentials (cred x))) as En.
    { unfold n. destruct (dh_bits x =? 0); by rewrite ?set_dh_params_retrieves. }
    rewrite En in Hn'. by destruct (default_retrieves w c x (wf_creds _ W c x Ex) Hn'). }
  assert (wf (log_event (Ready c) (with_cred c x1 (with_cred c (set_cred (Some n) x) w)))) as W1.
  { apply wf_log; [|done|done]. unfold with_cred. cbn. rewrite insert_insert_eq. apply wf_with_cred with x; try done. exact (wf_bits _ W c x Ex). }
  destruct (emit_ready_spec c (ready_handlers x) _ x1 n W1) as (w2 & E2 & W2 & L2 & S2); try done.
  { apply lookup_insert_eq. }
  exists w2. split; [exact E2|]. split; [done|]. split; [|split; [by rewrite (later_gen _ _ L2)|split; [by rewrite (later_asked _ _ L2)|done]]].
  eapply after_trans; [|by apply later_after]. by apply (after_event w (Ready c)).
Qed.

(** A request of the credentials has no answer yet. *)
Definition pending (c : nat) w : Prop := ∃ r, asked w !! r = Some c ∧ r ∈ TlsDhGeneratorSpec.outstanding (gen w).

(** A session that is connected to its credentials is settled, or they wait for their parameters. *)
Definition waiting_ok w : Prop :=
  ∀ k s c, sessions w !! k = Some s → cred_ready_sig_id s → credentials s = Some c → settled k w ∨ pending c w.

Lemma waiting_after w w' :
  waiting_ok w → after w w' → (∀ c, pending c w → pending c w') → waiting_ok w'.
Proof.
  intros HW A Hp k s' c Es' Hsig Ec. pose proof (after_sessions _ _ A k) as Hk. rewrite Es' in Hk.
  inversion Hk as [s ? Hs E1 E2|]; subst. rewrite (later_sig_id _ _ Hs) in Hsig. rewrite (later_credentials _ _ Hs Hsig) in Ec.
  destruct (HW k s c (eq_sym E1) Hsig Ec); [left; by eapply settled_after|right; auto].
Qed.

(** A request for parameters. *)
Lemma generate_dh_params_spec bits c w :
  wf w → 0 < bits → is_Some (creds w !! c) →
  ∃ w', evd_tls_generate_dh_params bits false c w = Some w' ∧ wf w' ∧ after w w' ∧ creds w' = creds w ∧
    (∀ c', pending c' w → pending c' w') ∧ pending c w' ∧ (no_error (gen w) → no_error (gen w')).
Proof.
  intros W Hb Hc. destruct (wf_gen _ W) as [evs Hg].
  destruct (TlsDhGeneratorSpec.request_now evs (gen w) bits Hg (wf_caller _ W) Hb)
    as (g1 & e1 & g2 & e2 & r & E1 & E2 & Ec & Ee & H2 & Ho & Hr & Hne).
  unfold evd_tls_generate_dh_params. rewrite E1, E2. run_bind. rewrite Ec, Ee. cbn.
  eexists. split; [done|]. split; [|split; [by apply after_creds|split; [done|split; [|split; [|done]]]]].
  - destruct W as [? ? Wa ? ? ? ? ?]. split; cbn; try done; [by eexists|].
    intros r' c' [[<- <-]|[_ E]]%lookup_insert_Some; [done|]. by apply (Wa r').
  - intros c' (r' & E & Hr'). exists r'. cbn. rewrite Ho. split; [|by right].
    rewrite lookup_insert_ne; [done|]. by intros ->.
  - exists r. cbn. rewrite lookup_insert_eq, Ho. split; [done|by left].
Qed.

(** What the preparation leaves: the handlers are settled, or a request is under way. *)
Lemma prepare_spec c w x :
  wf w → creds w !! c = Some x →
  ∃ w', evd_tls_credentials_prepare c w = Some w' ∧ wf w' ∧ after w w' ∧ (∀ c', pending c' w → pending c' w') ∧
    ((∀ k, k ∈ ready_handlers x → settled k w') ∨ pending c w') ∧ (no_error (gen w) → no_error (gen w')).
Proof.
  intros W Ex. pose proof (wf_bits _ W c x Ex) as Hb. unfold evd_tls_credentials_prepare. rewrite Ex. run_bind.
  destruct (wf_creds _ W c x Ex) as (-> & _). destruct (negb (dh_bits x =? 0) && bool_decide (dh_params x = None)) eqn:Eb.
  - apply andb_true_iff in Eb as [Eb _]. apply negb_true_iff, Z.eqb_neq in Eb.
    destruct (generate_dh_params_spec (dh_bits x) c w W) as (w' & E & W' & A & _ & Hp & Hc & Hne); [lia|by eexists|].
    exists w'. split_and!; try done. by right.
  - destruct (prepare_finish_spec c w x W Ex) as (w' & E & W' & A & Eg & Ea & S). exists w'. split_and!; try done.
    + intros c' (r & Er & Ho). exists r. by rewrite Ea, Eg.
    + by left.
    + by rewrite Eg.
Qed.

(** The parameters are there. *)
Lemma dh_params_ready_spec c w x p :
  wf w → creds w !! c = Some x →
  ∃ w', evd_tls_credentials_dh_params_ready c (Some (TlsDhGenerator.Params p)) w = Some w' ∧ wf w' ∧ after w w' ∧
    gen w' = gen w ∧ asked w' = asked w ∧ ∀ k, k ∈ ready_handlers x → settled k w'.
Proof.
  intros W Ex. unfold evd_tls_credentials_dh_params_ready. rewrite Ex. run_bind.
  set (x1 := set_dh (dh_bits x) (Some p) x). set (w1 := with_cred c x1 w).
  assert (wf w1) as W1 by (eapply wf_with_cred; [done|exact Ex|exact (wf_creds _ W c x Ex)|done|exact (wf_bits _ W c x Ex)]).
  destruct (prepare_finish_spec c w1 x1 W1) as (w' & E & W' & A & Eg & Ea & S); [by apply lookup_insert_eq|].
  exists w'. split_and!; try done. apply (after_trans w w1 w'); [by apply after_creds|done].
Qed.

(** They could not be generated. *)
Lemma dh_params_fail_spec c w x :
  wf w → creds w !! c = Some x →
  ∃ w', evd_tls_credentials_dh_params_ready c (Some TlsDhGenerator.Error) w = Some w' ∧ wf w' ∧ after w w' ∧
    gen w' = gen w ∧ asked w' = asked w.
Proof.
  intros W Ex. unfold evd_tls_credentials_dh_params_ready. rewrite Ex. run_bind. eexists. split; [done|]. split_and!; try done.
  - apply wf_log; [|done|done]. eapply wf_with_cred; [done|exact Ex|exact (wf_creds _ W c x Ex)|done|exact (wf_bits _ W c x Ex)].
  - by apply (after_event w (NotReady c)).
Qed.

(** ** The operations *)

(** How the sessions are to be used: a session has its credentials before its handshake, and reads and
    writes after it has begun; the parameters of credentials that have them stay. *)
Definition allowed (o : operation) w : Prop :=
  match o with
  | OpHandshake k | OpShutdown k _ | OpReset k | OpSetServerName k _ => is_Some (sessions w !! k)
  | OpRead k _ | OpWrite k _ => ∃ s, sessions w !! k = Some s ∧ session s ≠ None
  | OpSetCredentials k c => (∃ s, sessions w !! k = Some s ∧ session s = None) ∧ is_Some (creds w !! c)
  | OpPrepare c => is_Some (creds w !! c)
  | OpSetDhBits c bits => (∃ x, creds w !! c = Some x ∧ dh_params x = None) ∧ 0 <= bits
  | OpSetCertCallback c cb => is_Some (creds w !! c) ∧ ∃ f, cb = Some f ∧ known_callback w f
  | OpAddCertificate c cert key => is_Some (creds w !! c) ∧ is_Some (certs w !! cert) ∧ is_Some (keys w !! key)
  | OpWorker _ _ | OpIdle _ => True
  end.

(** What has begun goes on, unless the session is reset. *)
Definition keeps (o : operation) w w' : Prop := ∀ k, o ≠ OpReset k → begun k w → begun k w'.

(** What an operation gives: the invariant, and, while no generation fails, nothing is forgotten. *)
Definition step_good (o : operation) w w' : Prop :=
  wf w' ∧ (no_error (gen w) → waiting_ok w → no_error (gen w') ∧ waiting_ok w') ∧ keeps o w w'.

Lemma after_keeps o w w' : after w w' → keeps o w w'.
Proof. intros A k _. by apply begun_after. Qed.

(** Another session changes. *)
Lemma begun_other k k' s' w w' :
  begun k w → log w' = log w → sessions w' = <[k' := s']> (sessions w) → k ≠ k' → begun k w'.
Proof.
  intros (s & E & Eg & Hor) El Es Hne. exists s. rewrite Es, El. split; [by rewrite lookup_insert_ne|done].
Qed.

Lemma settled_other k k' s' w w' :
  settled k w → log w' = log w → sessions w' = <[k' := s']> (sessions w) → k ≠ k' → settled k w'.
Proof.
  intros (s & E & Eg & Hor) El Es Hne. exists s. rewrite Es, El. split; [by rewrite lookup_insert_ne|done].
Qed.

Lemma step_good_quiet o w w' :
  wf w' → after w w' → gen w' = gen w → asked w' = asked w → step_good o w w'.
Proof.
  intros W A Eg Ea. split; [done|]. split; [|by apply after_keeps]. rewrite Eg. intros Hne Hw. split; [done|].
  eapply waiting_after; [done..|]. intros c (r & Er & Ho). exists r. by rewrite Ea, Eg.
Qed.

Lemma step_good_trans o w1 w2 w3 : step_good o w1 w2 → step_good o w2 w3 → step_good o w1 w3.
Proof.
  intros (W1 & G1 & K1) (W2 & G2 & K2). split; [done|]. split; [intros Hn Hw; by apply G2; apply G1|].
  intros k Ho Hk. by apply K2, K1.
Qed.

Lemma call_gnutls_quiet {A} o k (f : session_t → io cred_t (session_t * A)) w s g :
  wf w → sessions w !! k = Some s → session s = Some g →
  io_ok retrieves (λ r, bound_of r.1 = bound_of g) (bound_of g) false (f g) →
  ∃ w' a s', call_gnutls k f w = Some (w', a) ∧ step_good o w w' ∧ sessions w' !! k = Some s' ∧ session s' ≠ None ∧
    after w w' ∧ gen w' = gen w ∧ asked w' = asked w.
Proof.
  intros W Es Eg Hf. destruct (call_gnutls_spec k f w s g W Es Eg Hf) as (w' & t & g' & a & E & W' & _ & Es' & w1 & F1 & ->).
  exists (with_session k (set_session (Some g') (set_transport t s)) w1), a, (set_session (Some g') (set_transport t s)).
  assert (after w (with_session k (set_session (Some g') (set_transport t s)) w1)) as A1.
  { destruct (frame_session _ _ _ _ F1 Es) as [t' Et]. eapply after_trans; [by apply later_after, frame_later|].
    apply later_after. eapply later_with_session; [exact Et|]. by split. }
  split_and!; try done; try apply F1. apply step_good_quiet; try done; apply F1.
Qed.

Lemma read_good k size w :
  wf w → allowed (OpRead k size) w → ∃ w', step (OpRead k size) w = Some w' ∧ step_good (OpRead k size) w w'.
Proof.
  intros W (s & Es & Eg). destruct (session s) as [g|] eqn:Eg'; [|done]. unfold step, evd_tls_session_read.
  destruct (size <=? 0); [eexists; split; [done|]; by apply step_good_quiet|].
  destruct (call_gnutls_quiet (OpRead k size) k (λ g, gnutls_record_recv g size) w s g W Es Eg') as (w' & [code l] & s' & E & G & _); [apply recv_ok|].
  rewrite E. run_bind. by eexists.
Qed.

Lemma write_good k data w :
  wf w → allowed (OpWrite k data) w → ∃ w', step (OpWrite k data) w = Some w' ∧ step_good (OpWrite k data) w w'.
Proof.
  intros W (s & Es & Eg). destruct (session s) as [g|] eqn:Eg'; [|done]. unfold step, evd_tls_session_write.
  case_bool_decide; [eexists; split; [done|]; by apply step_good_quiet|].
  destruct (call_gnutls_quiet (OpWrite k data) k (λ g, gnutls_record_send g data) w s g W Es Eg') as (w' & code & s' & E & G & _); [apply send_ok|].
  rewrite E. run_bind. by eexists.
Qed.

(** A session that keeps its credentials, its handler and its GnuTLS session. *)
Lemma session_quiet o k w s s' :
  wf w → sessions w !! k = Some s → session_ok w k s' → session_later s s' → credentials s' = credentials s →
  step_good o w (with_session k s' w).
Proof.
  intros W Es Hs' L Ec. apply step_good_quiet; try done.
  - eapply wf_with_session; [done|exact Es|done|left]. by destruct L.
  - by eapply later_after, later_with_session.
Qed.

Lemma shutdown_good k how w :
  wf w → allowed (OpShutdown k how) w → ∃ w', step (OpShutdown k how) w = Some w' ∧ step_good (OpShutdown k how) w w'.
Proof.
  intros W [s Es]. unfold step, evd_tls_session_shutdown. rewrite Es. run_bind.
  destruct (session s) as [g|] eqn:Eg; [|eexists; split; [done|]; by apply step_good_quiet].
  destruct (call_gnutls_quiet (OpShutdown k how) k (λ g, gnutls_bye g how) w s g W Es Eg) as (w1 & code & s1 & E & G1 & Es1 & Eg1 & A1 & Eq1 & Ea1); [apply bye_ok|].
  rewrite E. run_bind. destruct (_ && _); [by eexists|]. pose proof (proj1 G1) as W1. rewrite Es1. run_bind. eexists. split; [done|].
  eapply step_good_trans; [exact G1|]. apply (session_quiet (OpShutdown k how) k w1 s1); try done.
  destruct (wf_sessions _ W1 k s1 Es1) as (? & ? & ? & ? & ? & ?). by split_and!.
Qed.

Lemma session_ok_update w k s g g' :
  session s = Some g → bound_of g' = bound_of g → session_ok w k s → session_ok w k (set_session (Some g') s).
Proof.
  intros Eg Eb (H1' & H2' & H3' & H4' & H5' & H6'). split_and!; try done.
  - intros Hbd. split; [done|]. by apply H4'.
  - intros g0 c [= <-]. rewrite Eb. by apply H5'.
  - intros Hsig. destruct (H6' Hsig) as [_ Hk]. by split.
Qed.

Lemma server_name_internal_spec w k s :
  session_ok w k s →
  session_ok w k (evd_tls_session_set_server_name_internal s).1 ∧
    session_later s (evd_tls_session_set_server_name_internal s).1 ∧
    credentials (evd_tls_session_set_server_name_internal s).1 = credentials s.
Proof.
  intros Hs. unfold evd_tls_session_set_server_name_internal.
  destruct (session s) as [g|] eqn:Eg; [|done]. destruct (server_name s) as [name|]; [|done]. destruct (mode s); [done|].
  pose proof (server_name_set_bound g name) as Hb. destruct (gnutls_server_name_set g name) as [g' code]. cbn in *.
  split; [by eapply session_ok_update|]. split; [|done]. by split.
Qed.

Lemma set_server_name_good k name w :
  wf w → allowed (OpSetServerName k name) w →
  ∃ w', step (OpSetServerName k name) w = Some w' ∧ step_good (OpSetServerName k name) w w'.
Proof.
  intros W [s Es]. unfold step, evd_tls_session_set_server_name. rewrite Es. run_bind.
  assert (session_ok w k (set_name name s)) as Hs.
  { destruct (wf_sessions _ W k s Es) as (? & ? & ? & ? & ? & ?). by split_and!. }
  destruct (server_name_internal_spec w k _ Hs) as (Hs' & L & Ec).
  destruct (evd_tls_session_set_server_name_internal (set_name name s)) as [s' e]. run_bind. eexists. split; [done|].
  eapply session_quiet; [done|exact Es|done| |exact Ec]. etrans; [|exact L]. by split.
Qed.

(** The credentials alone change. *)
Lemma cred_quiet o c w x x' :
  wf w → creds w !! c = Some x → cred_ok w c x' → ready_handlers x' = ready_handlers x → 0 <= dh_bits x' →
  step_good o w (with_cred c x' w).
Proof.
  intros W Ex Hx' Eh Hb. apply step_good_quiet; try done; [by eapply wf_with_cred|by apply after_creds].
Qed.

Lemma set_dh_bits_good c bits w :
  wf w → allowed (OpSetDhBits c bits) w → ∃ w', step (OpSetDhBits c bits) w = Some w' ∧ step_good (OpSetDhBits c bits) w w'.
Proof.
  intros W [(x & Ex & Ep) Hb]. unfold step, evd_tls_credentials_set_property_dh_bits. rewrite Ex. run_bind.
  destruct (bits =? dh_bits x); [eexists; split; [done|]; by apply step_good_quiet|]. rewrite Ep. run_bind.
  eexists. split; [done|]. destruct (wf_creds _ W c x Ex) as (? & ? & ? & ? & ? & ?).
  eapply cred_quiet; [done|exact Ex| |done|done]. by split_and!.
Qed.

Lemma set_cert_callback_good c cb w :
  wf w → allowed (OpSetCertCallback c cb) w →
  ∃ w', step (OpSetCertCallback c cb) w = Some w' ∧ step_good (OpSetCertCallback c cb) w w'.
Proof.
  intros W [[x Ex] (f & -> & Hf)]. unfold step, evd_tls_credentials_set_cert_callback. rewrite Ex. run_bind.
  eexists. split; [done|]. destruct (wf_creds _ W c x Ex) as (? & ? & ? & ? & ? & ?).
  eapply cred_quiet; [done|exact Ex| |done|exact (wf_bits _ W c x Ex)]. split_and!; try done. intros cb [= <-]. done.
Qed.

Lemma set_credentials_good k c w :
  wf w → allowed (OpSetCredentials k c) w →
  ∃ w', step (OpSetCredentials k c) w = Some w' ∧ step_good (OpSetCredentials k c) w w'.
Proof.
  intros W [(s & Es & Eg) [x Ex]]. destruct (wf_sessions _ W k s Es) as (H1' & H2' & H3' & H4' & H5' & H6').
  assert (cred_ready_sig_id s = false) as Esig.
  { destruct (cred_ready_sig_id s); [|done]. by destruct (H6' I). }
  assert (step (OpSetCredentials k c) w = Some (with_session k (set_credentials (Some c) s) w)) as E.
  { unfold step, evd_tls_session_set_credentials. rewrite Es. run_bind. rewrite Ex. run_bind.
    destruct (credentials s); [by rewrite Esig|done]. }
  eexists. split; [exact E|].
  assert (∀ c0 x0, creds w !! c0 = Some x0 → k ∉ ready_handlers x0) as Hn.
  { intros c0 x0 E0 Hk. destruct (wf_creds _ W c0 x0 E0) as (_ & _ & _ & _ & _ & Hh).
    destruct (Hh k Hk) as (s0 & Es0 & _ & Hg & _). congruence. }
  split.
  - eapply wf_with_session; [done|exact Es| |by right]. split_and!; try done.
    + intros c0 [= <-]. by exists x.
    + intros g c0 E0. cbn in E0. congruence.
    + cbn. by rewrite Esig.
  - split.
    + intros Hne Hw. split; [done|]. intros k0 s0 c0. cbn. intros [[<- <-]|[Hk E0]]%lookup_insert_Some Hsig Ec.
      * cbn in Hsig. by rewrite Esig in Hsig.
      * destruct (Hw k0 s0 c0 E0 Hsig Ec) as [Hset|Hp]; [left|by right]. by eapply (settled_other k0 k); [exact Hset|..].
    + intros k0 _ Hk0. eapply (begun_other k0 k); [exact Hk0|done..|]. intros ->. destruct Hk0 as (s0 & E0 & Eg0 & _). congruence.
Qed.

Lemma frame_quiet o w w' : wf w → frame w w' → step_good o w w'.
Proof.
  intros W F. apply step_good_quiet; [by eapply frame_wf|by apply later_after, frame_later|apply F|apply F].
Qed.

Lemma add_certificate_good c cert privkey w :
  wf w → allowed (OpAddCertificate c cert privkey) w →
  ∃ w', step (OpAddCertificate c cert privkey) w = Some w' ∧ step_good (OpAddCertificate c cert privkey) w w'.
Proof.
  intros W ([x Ex] & [crt Ec] & [key Ek]). unfold step, evd_tls_credentials_add_certificate. rewrite Ex, Ec, Ek. run_bind.
  destruct (_ || _ || _); [eexists; split; [done|]; by apply step_good_quiet|].
  destruct (evd_tls_privkey_steal_native key) as [key' privk].
  set (added := match privk with Some h => [h] | None => [] end).
  set (x1 := if bool_decide _ then set_privkeys (x509_privkeys x ++ added) _ x else _).
  assert (cred_same x x1) as S1 by (unfold x1; by destruct (bool_decide _)).
  set (w1 := with_cred c x1 (with_key privkey key' w)).
  assert (frame w w1) as F1.
  { etrans; [apply (frame_with_key w privkey key')|]. by eapply frame_with_cred. }
  assert (creds w1 !! c = Some x1) as E1 by apply lookup_insert_eq.
  pose proof (frame_wf _ _ W F1) as W1.
  destruct (evd_tls_certificate_get_native crt) as [h|], privk as [h'|]; try (eexists; split; [done|]; by apply frame_quiet).
  destruct (inside_cert_cb x1).
  { destruct (_ <=? _)%nat; eexists; (split; [done|]); apply frame_quiet; try done.
    etrans; [exact F1|]. eapply frame_with_cred; [exact E1|]. by split. }
  set (n := default gnutls_certificate_allocate_credentials (cred x1)).
  pose proof (set_x509_key_retrieves n h h') as R1. pose proof (set_openpgp_key_retrieves n h h') as R2.
  set (r := if bool_decide _ then gnutls_certificate_set_x509_key n h h' else _).
  assert (retrieves r.1 = retrieves n) as Hr by (unfold r; by destruct (bool_decide _)).
  destruct r as [n' code]. cbn in Hr. eexists. split; [done|].
  eapply step_good_trans; [by apply frame_quiet|]. pose proof (wf_creds _ W1 c x1 E1) as Hok.
  eapply cred_quiet; [done|exact E1| |done|exact (wf_bits _ W1 c x1 E1)].
  destruct (Hok) as (? & ? & ? & ? & ? & ?). split_and!; try done. intros n0 [= <-]. rewrite Hr.
  exact (default_retrieves w1 c x1 Hok).
Qed.

Lemma prepare_good c w :
  wf w → allowed (OpPrepare c) w → ∃ w', step (OpPrepare c) w = Some w' ∧ step_good (OpPrepare c) w w'.
Proof.
  intros W [x Ex]. destruct (prepare_spec c w x W Ex) as (w' & E & W' & A & Hp & _ & Hne). exists w'. split; [done|].
  split; [done|]. split; [|by apply after_keeps]. intros Hn Hw. split; [auto|]. by eapply waiting_after.
Qed.

Lemma worker_good i ok w :
  wf w → ∃ w', step (OpWorker i ok) w = Some w' ∧ wf w' ∧
    (ok = true → no_error (gen w) → waiting_ok w → no_error (gen w') ∧ waiting_ok w') ∧ keeps (OpWorker i ok) w w'.
Proof.
  intros W. destruct (wf_gen _ W) as [evs Hg]. destruct (TlsDhGeneratorSpec.worker_now evs (gen w) i ok Hg) as (g & e & E & Hg' & Ec & Ho & Hne).
  unfold step. rewrite E. run_bind. eexists. split; [done|]. split.
  - destruct W. split; cbn; try done; [by eexists|congruence].
  - split; [|by apply after_keeps, after_creds]. intros Hok Hn Hw. split; [by apply Hne|].
    eapply waiting_after; [done|by apply after_creds|]. intros c (r & Er & Hr). exists r. cbn. by rewrite Ho.
Qed.

(** The answer of the generator reaches the credentials that have asked. *)
Lemma idle_good i w :
  wf w → ∃ w', step (OpIdle i) w = Some w' ∧ step_good (OpIdle i) w w' ∧
    ∃ e, TlsDhGenerator.step (TlsDhGenerator.OpIdle i) (gen w) = Some (gen w', e).
Proof.
  intros W. destruct (wf_gen _ W) as [evs Hg].
  destruct (TlsDhGeneratorSpec.idle_now evs (gen w) i Hg (wf_caller _ W)) as (g & e & E & Hg' & Ec & Eres & Ehung & Hi).
  unfold step. rewrite E. run_bind. set (w1 := with_gen g w).
  assert (wf w1) as W1 by (destruct W; split; cbn; try done; by eexists).
  assert (no_error (gen w) → no_error g) as Hne by (intros [? Hn]; split; [congruence|]; intros r; rewrite Eres; apply Hn).
  destruct (TlsDhGenerator.idle (gen w) !! i) as [r|].
  2:{ destruct Hi as [-> ->]. cbn. eexists. split; [done|]. split; [|by eexists]. split; [done|].
      split; [|by apply after_keeps, after_creds]. intros Hn Hw. split; [done|]. eapply waiting_after; [done|by apply after_creds|done]. }
  destruct Hi as (o & -> & Eo & Ho). cbn [deliver_answers]. change (asked w1) with (asked w).
  assert (∀ c, pending c w → asked w !! r ≠ Some c → pending c w1) as Hkeep.
  { intros c (r' & Er & Hr') Hn. exists r'. split; [done|]. cbn. rewrite Ho in Hr'. apply elem_of_cons in Hr' as [->|]; done. }
  destruct (asked w !! r) as [c|] eqn:Er.
  2:{ run_bind. eexists. split; [done|]. split; [|by eexists]. split; [done|].
      split; [|by apply after_keeps, after_creds]. intros Hn Hw. split; [by apply Hne|].
      eapply waiting_after; [done|by apply after_creds|]. intros c Hp. by apply Hkeep. }
  destruct (wf_asked _ W r c Er) as [x Ex]. destruct o as [p|].
  - destruct (dh_params_ready_spec c w1 x p W1 Ex) as (w' & E' & W' & A & Eg & Ea & S). rewrite E'. run_bind.
    assert (after w w') as A' by (apply (after_trans w w1 w'); [by apply after_creds|done]).
    eexists. split; [done|]. split; [|by rewrite Eg; eexists]. split; [done|]. split; [|by apply after_keeps].
    intros Hn Hw. split; [rewrite Eg; by apply Hne|].
    intros k s' c' Es' Hsig Ec'. pose proof (after_sessions _ _ A' k) as Hk. rewrite Es' in Hk.
    inversion Hk as [s ? Hs E1 E2|]; subst. rewrite (later_sig_id _ _ Hs) in Hsig. rewrite (later_credentials _ _ Hs Hsig) in Ec'.
    symmetry in E1. destruct (decide (c' = c)) as [->|Hcc].
    + left. apply S. destruct (wf_sessions _ W k s E1) as (_ & _ & _ & _ & _ & Hh). destruct (Hh Hsig) as (_ & c0 & x0 & Ec0 & Ex0 & Hk0).
      congruence.
    + destruct (Hw k s c' E1 Hsig Ec') as [Hset|Hp]; [left; by eapply settled_after|right].
      destruct (Hkeep c' Hp) as (r' & ? & ?); [congruence|]. exists r'. by rewrite Ea, Eg.
  - destruct (dh_params_fail_spec c w1 x W1 Ex) as (w' & E' & W' & A & Eg & Ea). rewrite E'. run_bind.
    eexists. split; [done|]. split; [|by rewrite Eg; eexists]. split; [done|]. split; [intros [_ Hn]; by destruct (Hn r)|].
    apply after_keeps, (after_trans w w1 w'); [by apply after_creds|done].
Qed.

(** ** A session that is reset *)

Lemma reset_good k w :
  wf w → allowed (OpReset k) w → ∃ w', step (OpReset k) w = Some w' ∧ step_good (OpReset k) w w'.
Proof.
  intros W [s Es]. unfold step, evd_tls_session_reset. rewrite Es. run_bind.
  destruct (wf_sessions _ W k s Es) as (H1' & H2' & H3' & H4' & H5' & H6').
  destruct (session s) as [g|] eqn:Eg.
  2:{ eexists. split; [done|]. eapply session_quiet; [done|exact Es| |by split|done].
      split_and!; try done; cbn; by rewrite Eg. }
  set (s' := set_name None (set_session None (set_bound false (set_sig_id false s)))).
  assert (∃ m, (if cred_ready_sig_id s then
             c ← credentials s; x ← creds w !! c;
             Some (with_cred c (set_handlers (filter (.≠ k) (ready_handlers x)) x) w)
           else Some w) = Some (mkWorld (gen w) (asked w) (objects w) (certs w) (keys w) m (next_cred w) (sessions w) (log w)) ∧
    ∀ c, option_Forall2 (λ x x', x' = set_handlers (ready_handlers x') x ∧
            ∀ k', k' ∈ ready_handlers x' ↔ k' ∈ ready_handlers x ∧ k' ≠ k) (creds w !! c) (m !! c)) as (m & -> & Hm).
  { assert (∀ c x, creds w !! c = Some x → k ∈ ready_handlers x → credentials s = Some c ∧ cred_ready_sig_id s) as Hk.
    { intros c x Ex Hin. destruct (wf_creds _ W c x Ex) as (_ & _ & _ & _ & _ & Hh). destruct (Hh k Hin) as (s0 & E0 & ? & _ & ?).
      by simplify_eq. }
    assert (∀ x : EvdTlsCredentials, k ∉ ready_handlers x → x = set_handlers (ready_handlers x) x ∧
              ∀ k', k' ∈ ready_handlers x ↔ k' ∈ ready_handlers x ∧ k' ≠ k) as Hid.
    { intros [] Hn. split; [done|]. intros k'. split; [|tauto]. intros ?. split; [done|]. by intros ->. }
    destruct (cred_ready_sig_id s).
    - destruct (H6' I) as (_ & c & x & Ec & Ex & Hin). rewrite Ec. run_bind. rewrite Ex. run_bind.
      eexists. split; [done|]. intros c'. destruct (decide (c' = c)) as [->|Hne].
      + rewrite lookup_insert_eq, Ex. constructor. split; [done|]. intros k'. cbn. rewrite list_elem_of_filter. tauto.
      + rewrite lookup_insert_ne by done. destruct (creds w !! c') as [x'|] eqn:Ex'; constructor. apply Hid.
        intros Hin'. destruct (Hk c' x' Ex' Hin') as [? _]. congruence.
    - exists (creds w). split; [by destruct w|]. intros c'. destruct (creds w !! c') as [x'|] eqn:Ex'; constructor. apply Hid.
      intros Hin'. by destruct (Hk c' x' Ex' Hin') as [_ ?]. }
  run_bind. eexists. split; [done|].
  assert (∀ c x', m !! c = Some x' → ∃ x, creds w !! c = Some x ∧ x' = set_handlers (ready_handlers x') x ∧
            ∀ k', k' ∈ ready_handlers x' ↔ k' ∈ ready_handlers x ∧ k' ≠ k) as Hback.
  { intros c x' E'. specialize (Hm c). rewrite E' in Hm. inversion Hm as [x ? [? ?]|]; subst. eauto. }
  assert (∀ c, is_Some (creds w !! c) → is_Some (m !! c)) as Hdom.
  { intros c [x Ex]. specialize (Hm c). rewrite Ex in Hm. inversion Hm; subst. by eexists. }
  split.
  - split; cbn; try apply W.
    + intros r c Er. apply Hdom. by apply (wf_asked _ W r).
    + intros c x' E'. destruct (Hback c x' E') as (x & Ex & -> & Hk'). destruct (wf_creds _ W c x Ex) as (? & ? & ? & ? & ? & Hh).
      split_and!; try done. cbn. intros k' Hin. apply Hk' in Hin as [Hin Hne]. rewrite lookup_insert_ne by done. by apply Hh.
    + intros k0 s0 [[<- <-]|[Hne E0]]%lookup_insert_Some.
      * split_and!; try done. intros c Ec. apply Hdom. by apply H3'.
      * destruct (wf_sessions _ W k0 s0 E0) as (? & ? & H3'' & ? & ? & H6''). split_and!; try done.
        -- intros c Ec. apply Hdom. by apply H3''.
        -- intros Hsig. destruct (H6'' Hsig) as (? & c & x & Ec & Ex & Hin). split; [done|].
           destruct (Hdom c) as [x' Ex']; [by eexists|]. destruct (Hback c x' Ex') as (x0 & Ex0 & _ & Hk'). simplify_eq.
           exists c, x'. split_and!; try done. by apply Hk'.
    + intros c x' E'. destruct (Hback c x' E') as (x & Ex & _). by eapply (wf_fresh _ W).
    + intros c x' E'. destruct (Hback c x' E') as (x & Ex & -> & _). by eapply (wf_bits _ W c x).
  - split.
    + intros Hn Hw. split; [done|]. intros k0 s0 c0. cbn. intros [[<- <-]|[Hne E0]]%lookup_insert_Some Hsig Ec; [done|].
      destruct (Hw k0 s0 c0 E0 Hsig Ec) as [Hset|Hp]; [left|by right]. by eapply (settled_other k0 k); [exact Hset|..].
    + intros k0 Hne Hk0. eapply (begun_other k0 k); [exact Hk0|done..|]. by intros ->.
Qed.

(** ** The handshake *)

(** The configuration of a session that was just made. *)
Lemma configure_spec w k s g :
  session s = Some g → bound_of g = None → cred_bound s = false → cred_ready_sig_id s = false →
  (pull_set s ∧ push_set s ∧ ∀ c, credentials s = Some c → is_Some (creds w !! c)) →
  let s' := (configure_session s).1 in
  session_ok w k s' ∧ session s' ≠ None ∧ credentials s' = credentials s ∧ cred_bound s' = false ∧ cred_ready_sig_id s' = false ∧
  ∃ g', session s' = Some g' ∧ bound_of g' = None.
Proof.
  intros Eg Eb Ebound Esig (Hpl & Hps & Hc).
  assert (session_ok w k s) as Hok.
  { split_and!; try done; [by rewrite Ebound|intros g0 c E0; congruence|by rewrite Esig]. }
  destruct (server_name_internal_spec w k s Hok) as (Hok1 & L1 & Ec1). unfold configure_session.
  assert (cred_bound (evd_tls_session_set_server_name_internal s).1 = false ∧
          ∃ g1, session (evd_tls_session_set_server_name_internal s).1 = Some g1 ∧ bound_of g1 = None) as (Eb1 & g1 & Eg1 & Hb1).
  { unfold evd_tls_session_set_server_name_internal. rewrite Eg. destruct (server_name s) as [name|]; [|by eauto].
    destruct (mode s); [by eauto|]. pose proof (server_name_set_bound g name) as Hb.
    destruct (gnutls_server_name_set g name) as [g1 code]. cbn in *. split; [done|]. exists g1. split; [done|congruence]. }
  pose proof (later_sig_id _ _ L1) as Es1. rewrite Esig in Es1.
  destruct (evd_tls_session_set_server_name_internal s) as [s1 e]. cbn in *.
  destruct e as [e|]; [cbn; split_and!; try done; [by rewrite Eg1|by eauto]|]. rewrite Eg1.
  pose proof (priority_set_bound g1 (priority s1)) as Hb2. destruct (gnutls_priority_set_direct g1 (priority s1)) as [g2 code]. cbn in Hb2.
  destruct (code =? GNUTLS_E_SUCCESS); cbn.
  - destruct (require_peer_cert s1 && _); cbn.
    + split_and!; try done; [|by eexists; split; [done|]; rewrite set_request_bound; congruence].
      apply (session_ok_update w k (set_session (Some g2) s1) g2); [done|by rewrite set_request_bound|].
      by apply (session_ok_update w k s1 g1).
    + split_and!; try done; [|by eexists; split; [done|congruence]]. by apply (session_ok_update w k s1 g1).
  - split_and!; try done; [|by eexists; split; [done|congruence]]. by apply (session_ok_update w k s1 g1).
Qed.

(** The credentials of a session, which may be new. *)
Lemma get_credentials_spec k w s :
  wf w → sessions w !! k = Some s → cred_ready_sig_id s = false →
  ∃ w' c x, evd_tls_session_get_credentials k w = Some (w', c) ∧ wf w' ∧ after w w' ∧ gen w' = gen w ∧ asked w' = asked w ∧
    creds w' !! c = Some x ∧ sessions w' !! k = Some (set_credentials (Some c) s).
Proof.
  intros W Es Esig. unfold evd_tls_session_get_credentials. rewrite Es. run_bind.
  destruct (wf_sessions _ W k s Es) as (H1' & H2' & H3' & H4' & H5' & H6').
  destruct (credentials s) as [c|] eqn:Ec.
  { destruct (H3' c eq_refl) as [x Ex]. exists w, c, x. split_and!; try done. rewrite <-Ec, Es. by destruct s. }
  cbn. set (w1 := mkWorld _ _ _ _ _ (<[next_cred w := _]> _) _ _ _).
  assert (creds w !! next_cred w = None) as Efresh.
  { destruct (creds w !! next_cred w) as [x|] eqn:E; [|done]. apply (wf_fresh _ W) in E. lia. }
  assert (wf w1) as W1.
  { destruct W as [Wg Wc Wa Wcr Ws Wf Wb Wl]. split; cbn; try done.
    - intros r c Er. destruct (Wa r c Er) as [x Ex]. exists x. rewrite lookup_insert_ne; [done|congruence].
    - intros c x [[<- <-]|[Hne E]]%lookup_insert_Some; [|by apply (Wcr c x)]. split_and!; try done. cbn. set_solver.
    - intros k0 s0 E0. destruct (Ws k0 s0 E0) as (? & ? & H3'' & ? & ? & H6''). split_and!; try done; cbn.
      + intros c E. destruct (H3'' c E) as [x Ex]. exists x. rewrite lookup_insert_ne; [done|congruence].
      + intros Hsig. destruct (H6'' Hsig) as (? & c & x & E & Ex & Hin). split; [done|]. exists c, x.
        rewrite lookup_insert_ne; [done|congruence].
    - intros c x [[<- <-]|[Hne E]]%lookup_insert_Some; [lia|]. apply Wf in E. lia.
    - intros c x [[<- <-]|[Hne E]]%lookup_insert_Some; [done|by eapply Wb]. }
  eexists _, (next_cred w), _. split; [done|]. split; [|split; [|split; [done|split; [done|split; [by apply lookup_insert_eq|by apply lookup_insert_eq]]]]].
  - eapply (wf_with_session w1 k s); [done|exact Es| |right].
    + split_and!; try done.
      * intros c [= <-]. cbn. by rewrite lookup_insert_eq.
      * intros g c Eg Eb. discriminate (H5' g c Eg Eb).
      * cbn. by rewrite Esig.
    + intros c x. cbn. intros [[<- <-]|[Hne E]]%lookup_insert_Some; [set_solver|]. intros Hin.
      destruct (wf_creds _ W c x E) as (_ & _ & _ & _ & _ & Hh). destruct (Hh k Hin) as (s0 & E0 & _ & _ & Hs). simplify_eq. by rewrite Esig in Hs.
  - apply (after_trans w w1); [by apply after_creds|]. apply later_after. eapply later_with_session; [exact Es|].
    split; try done. by rewrite Esig.
Qed.

(** The handler of a session. *)
Lemma connect_spec k c w s x :
  wf w → sessions w !! k = Some s → session s ≠ None → credentials s = Some c → cred_ready_sig_id s = false → creds w !! c = Some x →
  wf (with_session k (set_sig_id true s) (with_cred c (set_handlers (ready_handlers x ++ [k]) x) w)).
Proof.
  intros W Es Eg Ec Esig Ex. destruct W as [Wg Wc Wa Wcr Ws Wf Wb Wl]. split; cbn; try done.
  - intros r c0 Er. destruct (decide (c0 = c)) as [->|]; [by rewrite lookup_insert_eq|]. rewrite lookup_insert_ne by done. by apply (Wa r).
  - intros c0 x0 [[<- <-]|[Hne E]]%lookup_insert_Some.
    + destruct (Wcr c x Ex) as (? & ? & ? & ? & ? & Hh). split_and!; try done. cbn. intros k0 Hin.
      destruct (decide (k0 = k)) as [->|Hk]; [rewrite lookup_insert_eq; by eexists|]. rewrite lookup_insert_ne by done. apply Hh. set_solver.
    + destruct (Wcr c0 x0 E) as (? & ? & ? & ? & ? & Hh). split_and!; try done. cbn. intros k0 Hin.
      destruct (decide (k0 = k)) as [->|Hk]; [|rewrite lookup_insert_ne by done; by apply Hh].
      destruct (Hh k Hin) as (s0 & E0 & Ec0 & _). congruence.
  - intros k0 s0 [[<- <-]|[Hne E]]%lookup_insert_Some.
    + destruct (Ws k s Es) as (? & ? & H3' & ? & ? & ?). split_and!; try done; cbn.
      * intros c0 E0. destruct (decide (c0 = c)) as [->|]; [by rewrite lookup_insert_eq|]. rewrite lookup_insert_ne by done. by apply H3'.
      * intros _. split; [done|]. exists c. eexists. rewrite lookup_insert_eq. split_and!; try done. cbn. set_solver.
    + destruct (Ws k0 s0 E) as (? & ? & H3' & ? & ? & H6'). split_and!; try done; cbn.
      * intros c0 E0. destruct (decide (c0 = c)) as [->|]; [by rewrite lookup_insert_eq|]. rewrite lookup_insert_ne by done. by apply H3'.
      * intros Hsig. destruct (H6' Hsig) as (? & c0 & x0 & Ec0 & Ex0 & Hin). split; [done|]. exists c0.
        destruct (decide (c0 = c)) as [->|]; [|exists x0; by rewrite lookup_insert_ne]. eexists. rewrite lookup_insert_eq.
        split_and!; try done. cbn. simplify_eq. set_solver.
  - intros c0 x0 [[<- <-]|[Hne E]]%lookup_insert_Some; by eapply Wf.
  - intros c0 x0 [[<- <-]|[Hne E]]%lookup_insert_Some; [exact (Wb c x Ex)|by eapply Wb].
Qed.

Lemma quiet_waiting w w' :
  after w w' → gen w' = gen w → asked w' = asked w → waiting_ok w → waiting_ok w'.
Proof.
  intros A Eg Ea Hw. eapply waiting_after; [done..|]. intros c (r & Er & Ho). exists r. by rewrite Ea, Eg.
Qed.

Lemma handshake_bound k w s g :
  wf w → sessions w !! k = Some s → session s = Some g → cred_bound s →
  ∃ w' r, evd_tls_session_handshake_internal k w = Some (w', r) ∧ step_good (OpHandshake k) w w' ∧ begun k w'.
Proof.
  intros W Es Eg Hb. destruct (wf_sessions _ W k s Es) as (_ & _ & _ & H4' & _). destruct (H4' Hb) as [_ Hin].
  destruct (handshake_internal_later k w s g W Es Eg Hin) as (w' & r & E & W' & L & Ht). exists w', r.
  split; [done|]. split; [apply step_good_quiet; [done|by apply later_after|apply L|apply L]|].
  destruct (later_session_of _ _ _ _ L Es) as (s' & Es' & Hs). exists s'. split; [done|].
  split; [apply (later_session _ _ Hs); congruence|]. right. split; [by apply (later_bound _ _ Hs)|done].
Qed.

(** The credentials are not ready: the session waits for them. *)
Lemma handshake_waits k c w s x :
  wf w → sessions w !! k = Some s → session s ≠ None → credentials s = Some c → cred_ready_sig_id s = false → creds w !! c = Some x →
  let w1 := with_session k (set_sig_id true s) (with_cred c (set_handlers (ready_handlers x ++ [k]) x) w) in
  ∃ w', evd_tls_credentials_prepare c w1 = Some w' ∧ step_good (OpHandshake k) w w' ∧ begun k w'.
Proof.
  intros W Es Eg Ec Esig Ex w1. pose proof (connect_spec k c w s x W Es Eg Ec Esig Ex) as W1. fold w1 in W1.
  assert (creds w1 !! c = Some (set_handlers (ready_handlers x ++ [k]) x)) as Ex1 by apply lookup_insert_eq.
  destruct (prepare_spec c w1 _ W1 Ex1) as (w' & E & W' & A & Hp & Hor & Hne). exists w'. split; [done|].
  assert (begun k w1) as Hk1 by (eexists; split; [apply lookup_insert_eq|]; split; [done|by left]).
  split; [|by eapply begun_after]. split; [done|]. split.
  2:{ intros k0 _ Hk0. eapply begun_after; [exact A|]. destruct (decide (k0 = k)) as [->|Hne0]; [done|]. by eapply (begun_other k0 k); [exact Hk0|..]. }
  intros Hn Hw. split; [by apply Hne|]. intros k0 s0 c0 E0 Hsig Ec0. pose proof (after_sessions _ _ A k0) as Hk. rewrite E0 in Hk.
  inversion Hk as [s1 ? Hs E1 E2|]; subst. rewrite (later_sig_id _ _ Hs) in Hsig. rewrite (later_credentials _ _ Hs Hsig) in Ec0.
  symmetry in E1. destruct (decide (k0 = k)) as [->|Hne0].
  - cbn in E1. rewrite lookup_insert_eq in E1. injection E1 as <-. cbn in Ec0. replace c0 with c by congruence.
    destruct Hor as [Hset|Hpc]; [left; apply Hset; cbn; set_solver|by right].
  - cbn in E1. rewrite lookup_insert_ne in E1 by done. destruct (Hw k0 s1 c0 E1 Hsig Ec0) as [Hset|(r & Er & Ho)].
    + left. apply (settled_after k0 w1); [done|]. by eapply (settled_other k0 k); [exact Hset|..].
    + right. apply Hp. by exists r.
Qed.

(** A first handshake that tells no error has begun. *)
Lemma first_handshake_spec k w s :
  wf w → sessions w !! k = Some s →
  ∃ w' r e, evd_tls_session_handshake k w = Some (w', (r, e)) ∧ step_good (OpHandshake k) w w' ∧
    (session s = None → e = None → begun k w').
Proof.
  intros W Es. unfold evd_tls_session_handshake. rewrite Es. run_bind.
  destruct (wf_sessions _ W k s Es) as (H1' & H2' & H3' & H4' & H5' & H6'). destruct (session s) as [g|] eqn:Eg.
  { destruct (cred_bound s) eqn:Ebd; [|eexists _, _, _; split; [done|]; split; [by apply step_good_quiet|done]].
    destruct (handshake_bound k w s g W Es Eg (Is_true_true_2 _ Ebd)) as (w' & [r e] & E & G & _). rewrite E. run_bind. by eexists _, _, _. }
  destruct (gnutls_init (mode s)) as [g|code] eqn:Ei; [|eexists _, _, _; split; [done|]; split; [by apply step_good_quiet|done]].
  assert (cred_bound s = false) as Eb by (destruct (cred_bound s); [by destruct (H4' I)|done]).
  assert (cred_ready_sig_id s = false) as Esig by (destruct (cred_ready_sig_id s); [by destruct (H6' I)|done]).
  destruct (configure_spec w k (set_session (Some g) s) g eq_refl (init_bound _ _ Ei) Eb Esig)
    as (Hok & Hg1 & Ec1 & Eb1 & Es1 & g1 & Eg1 & Hb1); [done|].
  destruct (configure_session (set_session (Some g) s)) as [s1 e]. cbn in *. set (w1 := log_event (Created k) (with_session k s1 w)).
  assert (wf w1) as W1.
  { apply wf_log; [|done|].
    2:{ intros k0 s0 [= <-] E0. cbn in E0. rewrite lookup_insert_eq in E0. by injection E0 as <-. }
    eapply wf_with_session; [done|exact Es|done|left]. split_and!; [by rewrite Ec1|by rewrite Eg|by rewrite Es1, Esig]. }
  assert (after w w1) as A1.
  { split; [|intros k0; cbn; destruct (decide (k0 = k)) as [->|Hk0]].
    - exists [Created k]. split; [done|]. intros k0 s0 E0 Eg0 [= ->]%list_elem_of_singleton. congruence.
    - rewrite lookup_insert_eq, Es. constructor. split; [by rewrite Esig|by rewrite Es1, Esig|by rewrite Eg|by rewrite Eb].
    - by rewrite lookup_insert_ne. }
  destruct e as [e|]; [eexists _, _, _; split; [done|]; split; [by apply step_good_quiet|done]|].
  destruct (get_credentials_spec k w1 s1 W1) as (w2 & c & x & E2 & W2 & A2 & Eg2 & Ea2 & Ex2 & Es2); [by apply lookup_insert_eq|done|].
  rewrite E2. run_bind. rewrite Ex2. run_bind.
  assert (step_good (OpHandshake k) w w2) as G2.
  { apply step_good_quiet; [done|by eapply after_trans|by rewrite Eg2|by rewrite Ea2]. }
  destruct (ready x) eqn:Er.
  - destruct (wf_creds _ W2 c x Ex2) as (_ & _ & _ & _ & Hr & _). rewrite Er in Hr. destruct (cred x) as [n|] eqn:En; [|by destruct Hr].
    destruct (bind_credentials_spec k c w2 (set_credentials (Some c) s1) g1 x n W2 Es2 Eg1 eq_refl Ex2 En) as (w3 & e & E3 & W3 & g3 & Hw3).
    rewrite E3. run_bind.
    assert (step_good (OpHandshake k) w2 w3) as G3.
    { apply step_good_quiet; try done; destruct e; subst w3; try done; apply later_after;
        [|etrans; [|by apply later_log_event]]; (eapply later_with_session; [exact Es2|]); by split. }
    destruct e as [e|]; [eexists _, _, _; split; [done|]; split; [by eapply step_good_trans|done]|].
    destruct (handshake_bound k w3 (set_bound true (set_session (Some g3) (set_credentials (Some c) s1))) g3) as (w4 & [r e] & E4 & G4 & K4); try done.
    { subst w3. apply lookup_insert_eq. }
    rewrite E4. run_bind. eexists _, _, _. split; [done|]. split; [|done]. eapply step_good_trans; [|exact G4]. by eapply step_good_trans.
  - rewrite Es2. run_bind. cbn [cred_ready_sig_id set_credentials]. rewrite Es1.
    destruct (handshake_waits k c w2 (set_credentials (Some c) s1) x W2 Es2) as (w3 & E3 & G3 & K3); try done.
    rewrite E3. run_bind. eexists _, _, _. split; [done|]. split; [by eapply step_good_trans|done].
Qed.

Lemma handshake_good k w :
  wf w → allowed (OpHandshake k) w → ∃ w', step (OpHandshake k) w = Some w' ∧ step_good (OpHandshake k) w w'.
Proof.
  intros W [s Es]. destruct (first_handshake_spec k w s W Es) as (w' & r & e & E & G & _). unfold step. rewrite E. run_bind. by eexists.
Qed.

(** ** Programs *)

Definition succeeds (o : operation) : bool := match o with OpWorker _ ok => ok | _ => true end.

Lemma step_spec o w :
  wf w → allowed o w →
  ∃ w', step o w = Some w' ∧ wf w' ∧ (succeeds o → no_error (gen w) → waiting_ok w → no_error (gen w') ∧ waiting_ok w') ∧ keeps o w w'.
Proof.
  intros W Ho.
  assert ((∃ w', step o w = Some w' ∧ step_good o w w') →
    ∃ w', step o w = Some w' ∧ wf w' ∧ (succeeds o → no_error (gen w) → waiting_ok w → no_error (gen w') ∧ waiting_ok w') ∧ keeps o w w') as Hgood.
  { intros (w' & E & W' & G & K). exists w'. by split_and!. }
  destruct o; match goal with |- context [OpWorker _ _] => idtac | _ => apply Hgood end.
  - by apply handshake_good.
  - by apply read_good.
  - by apply write_good.
  - by apply shutdown_good.
  - by apply reset_good.
  - by apply set_credentials_good.
  - by apply set_server_name_good.
  - by apply prepare_good.
  - by apply set_dh_bits_good.
  - by apply set_cert_callback_good.
  - by apply add_certificate_good.
  - destruct (worker_good i generated w W) as (w' & E & W' & G & K). exists w'. split; [done|]. split; [done|]. split; [|done].
    intros Hok Hn Hw. apply G; try done. by destruct generated.
  - destruct (idle_good i w W) as (w' & E & (W' & G & K) & _). exists w'. by split_and!.
Qed.

(** Every operation is allowed in the state in which it runs. *)
Fixpoint disciplined (ops : list operation) w : Prop :=
  match ops with
  | [] => True
  | o :: ops => allowed o w ∧ ∀ w', step o w = Some w' → disciplined ops w'
  end.

Lemma disciplined_cons o ops w w' : allowed o w → step o w = Some w' → disciplined ops w' → disciplined (o :: ops) w.
Proof. intros Ho E D. split; [done|]. intros w1 E1. rewrite E in E1. by injection E1 as <-. Qed.

Lemma tls_exec_wf ops w :
  wf w → disciplined ops w →
  ∃ w', exec ops w = Some w' ∧ wf w' ∧
    (Forall succeeds ops → no_error (gen w) → waiting_ok w → no_error (gen w') ∧ waiting_ok w') ∧
    ∀ k, OpReset k ∉ ops → begun k w → begun k w'.
Proof.
  revert w; induction ops as [|o ops IH]; intros w W D; cbn [exec].
  { exists w. split_and!; done. }
  destruct D as [Ho D]. destruct (step_spec o w W Ho) as (w1 & E1 & W1 & G1 & K1). rewrite E1. run_bind.
  destruct (IH w1 W1 (D _ E1)) as (w2 & E2 & W2 & G2 & K2). exists w2. split; [done|]. split; [done|]. split.
  - intros [Hs Hss]%Forall_cons Hn Hw. destruct (G1 Hs Hn Hw). by apply G2.
  - intros k [Ho' Hk]%not_elem_of_cons Hb. apply K2; [done|]. by apply K1; [congruence|].
Qed.

(** The world in which a program starts: objects that are just made, with the functions of the transport. *)
Definition initial (n : nat) (ts : list wire) (m : gmap nat EvdTlsCertificate) (ks : gmap nat EvdTlsPrivkey) (st : store) : world :=
  mkWorld TlsDhGenerator.evd_tls_dh_generator_init ∅ st m ks
    (list_to_map ((λ c, (c, evd_tls_credentials_init)) <$> seq 0 n)) n
    (map_seq 0 ((λ t, set_functions t true true (evd_tls_session_init t)) <$> ts)) [].

Lemma initial_wf n ts m ks st : wf (initial n ts m ks st) ∧ no_error (gen (initial n ts m ks st)) ∧ waiting_ok (initial n ts m ks st).
Proof.
  assert (∀ c x, creds (initial n ts m ks st) !! c = Some x → x = evd_tls_credentials_init ∧ (c < n)%nat) as Hc.
  { intros c x E. apply elem_of_list_to_map_2, list_elem_of_fmap in E as (c' & [= -> ->] & Hin%elem_of_seq). lia || (split; [done|lia]). }
  assert (∀ k s, sessions (initial n ts m ks st) !! k = Some s → ∃ t, s = set_functions t true true (evd_tls_session_init t)) as Hs.
  { intros k s E. apply lookup_map_seq_Some in E as [_ E]. apply list_lookup_fmap_Some in E as (t & -> & _). by exists t. }
  split; [|split].
  - split; try done.
    + exists []. apply TlsDhGeneratorSpec.inv_init.
    + intros c x E. destruct (Hc c x E) as [-> _]. split_and!; try done. cbn. set_solver.
    + intros k s E. destruct (Hs k s E) as [t ->]. by split_and!.
    + intros c x E. exact (proj2 (Hc c x E)).
    + intros c x E. by destruct (Hc c x E) as [-> _].
    + cbn. intros l1 k code l2 E. by destruct l1.
  - done.
  - intros k s c E Hsig. destruct (Hs k s E) as [t ->]. done.
Qed.

(** The generator and what waits complete. *)
Definition settle (n : nat) : list operation := replicate n (OpWorker 0 true) ++ replicate n (OpIdle 0).

Lemma exec_operations_app l1 l2 w : exec (l1 ++ l2) w = w1 ← exec l1 w; exec l2 w1.
Proof.
  revert w; induction l1 as [|o l1 IH]; intros w; cbn [exec app]; [done|]. destruct (step o w); [|done]. run_bind. apply IH.
Qed.

Lemma free_disciplined n o w : (∀ w, allowed o w) → disciplined (replicate n o) w.
Proof. intros Ho. revert w. induction n as [|n IH]; intros w; [done|]. split; [done|]. intros w' _. apply IH. Qed.

Lemma exec_workers_gen n w w' :
  exec (replicate n (OpWorker 0 true)) w = Some w' →
  ∃ e, TlsDhGenerator.exec (replicate n (TlsDhGenerator.OpWorker 0 true)) (gen w) = Some (gen w', e).
Proof.
  revert w; induction n as [|n IH]; intros w; cbn [replicate exec TlsDhGenerator.exec]; [intros [= <-]; by eexists|].
  unfold step at 1. destruct (TlsDhGenerator.step (TlsDhGenerator.OpWorker 0 true) (gen w)) as [[g e1]|]; [|done].
  run_bind. intros E. destruct (IH _ E) as [e2 E2]. cbn [gen with_gen] in E2. rewrite E2. run_bind. by eexists.
Qed.

Lemma exec_idle_gen n w :
  wf w → ∃ w' e, exec (replicate n (OpIdle 0)) w = Some w' ∧
    TlsDhGenerator.exec (replicate n (TlsDhGenerator.OpIdle 0)) (gen w) = Some (gen w', e).
Proof.
  revert w; induction n as [|n IH]; intros w W; cbn [replicate exec TlsDhGenerator.exec]; [by eexists _, _|].
  destruct (idle_good 0 w W) as (w1 & E1 & [W1 _] & e1 & G1). rewrite E1, G1. run_bind.
  destruct (IH w1 W1) as (w2 & e2 & E2 & G2). rewrite E2, G2. run_bind. by eexists _, _.
Qed.

(** C37. Sessions that are used as [allowed] says never use a pointer that is not there, and every call of
    gnutls_handshake comes after credentials were set in the GnuTLS session it is for. *)
Theorem handshakes_have_credentials n ts m ks st (ops : list operation) :
  disciplined ops (initial n ts m ks st) →
  ∃ w, exec ops (initial n ts m ks st) = Some w ∧
    (∀ l1 k code l2, log w = l1 ++ Handshake k code :: l2 →
       ∃ l0 c l3, l1 = l0 ++ Bound k c :: l3 ∧ Created k ∉ l3) ∧
    (∀ k s, sessions w !! k = Some s → cred_bound s → session s ≠ None).
Proof.
  intros D. destruct (tls_exec_wf ops _ (proj1 (initial_wf n ts m ks st)) D) as (w & E & W & _ & _).
  exists w. split; [done|]. split; [apply (wf_handshakes _ W)|]. intros k s Es Hb.
  destruct (wf_sessions _ W k s Es) as (_ & _ & _ & Hb' & _). by apply Hb'.
Qed.

(** When the threads and what is in idle complete, what has begun is settled. *)
Lemma settle_spec w :
  wf w → no_error (gen w) → waiting_ok w →
  ∃ turns w', exec (settle turns) w = Some w' ∧ ∀ k, begun k w → settled k w'.
Proof.
  intros W Hn Hw. destruct (wf_gen _ W) as [evs Hg]. set (g := gen w) in *.
  set (turns := (length (TlsDhGenerator.workers g) + TlsDhGenerator.next_result g)%nat).
  destruct (tls_exec_wf (replicate turns (OpWorker 0 true)) w W) as (w1 & E1 & W1 & G1 & K1); [by apply free_disciplined|].
  destruct (G1 ltac:(by apply Forall_replicate) Hn Hw) as [Hn1 Hw1].
  destruct (exec_workers_gen _ _ _ E1) as [e1 Eg1].
  destruct (TlsDhGeneratorSpec.settle_workers turns evs g Hg) as (g1 & e1' & Eg1' & Hg1 & Hwk & Hc & Hr); [lia|].
  fold g in Eg1. rewrite Eg1' in Eg1. injection Eg1 as -> ->.
  destruct (exec_idle_gen turns w1 W1) as (w2 & e2 & E2 & Eg2).
  assert (length (TlsDhGenerator.idle (gen w1)) <= turns)%nat as Hlen.
  { pose proof (Permutation_length (TlsDhGeneratorSpec.inv_account _ _ Hg1)) as P. rewrite (TlsDhGeneratorSpec.inv_requests _ _ Hg1) in P.
    rewrite length_seq, !length_app in P. lia. }
  destruct (TlsDhGeneratorSpec.settle_idle turns (gen w1) (wf_caller _ W1) Hlen) as [e3 Eg3].
  rewrite Eg3 in Eg2. injection Eg2 as Eg2 ->.
  destruct (tls_exec_wf (replicate turns (OpIdle 0)) w1 W1) as (w2' & E2' & W2 & G2 & K2); [by apply free_disciplined|].
  rewrite E2 in E2'. injection E2' as <-. destruct (G2 ltac:(by apply Forall_replicate) Hn1 Hw1) as [[Hh2 _] Hw2].
  exists turns, w2. split; [unfold settle; rewrite exec_operations_app, E1; run_bind; done|].
  intros k Hk. apply K1 in Hk; [|by intros [? _]%elem_of_replicate]. apply K2 in Hk; [|by intros [? _]%elem_of_replicate].
  destruct Hk as (s & Es & Eg & [Hsig|[Hb Ht]]); [|exists s; split_and!; [done..|by left]].
  destruct (wf_sessions _ W2 k s Es) as (_ & _ & _ & _ & _ & Hh). destruct (Hh Hsig) as (_ & c & x & Ec & _).
  destruct (Hw2 k s c Es Hsig Ec) as [Hset|(r & _ & Ho)]; [done|]. exfalso.
  unfold TlsDhGeneratorSpec.outstanding in Ho. rewrite Hh2, <-Eg2 in Ho. cbn in Ho.
  rewrite (TlsDhGeneratorSpec.queued_nil _ _ Hg1 Hwk) in Ho. by apply elem_of_nil in Ho.
Qed.

Lemma disciplined_app l1 l2 w w' : disciplined (l1 ++ l2) w → exec l1 w = Some w' → disciplined l1 w ∧ disciplined l2 w'.
Proof.
  revert w; induction l1 as [|o l1 IH]; intros w; cbn [app exec]; [by intros D [= <-]|]. intros [Ho D].
  destruct (step o w) as [w1|] eqn:E; [|done]. run_bind. intros E1. destruct (IH w1 (D _ eq_refl) E1) as [D1 D2].
  split; [|done]. split; [done|]. intros w2 E2. rewrite E in E2. by injection E2 as <-.
Qed.

(** C38. A session that waits for its credentials is served.  In a program that uses the sessions as
    [allowed] says, and while the generations of parameters succeed, take a first call of the handshake
    of a session, one that makes its GnuTLS session, and that tells no error.  Whatever operations follow
    it, resets of that session apart, when the threads and what is in idle complete, the session is
    bound to credentials and has called gnutls_handshake on that GnuTLS session, or its failure has been
    logged since that GnuTLS session was made. *)
Theorem waiting_sessions_served n ts m ks st (before next : list operation) k w s w1 r :
  disciplined (before ++ OpHandshake k :: next) (initial n ts m ks st) →
  Forall succeeds (before ++ next) → OpReset k ∉ next →
  exec before (initial n ts m ks st) = Some w → sessions w !! k = Some s → session s = None →
  evd_tls_session_handshake k w = Some (w1, (r, None)) →
  ∃ w2 turns w', exec next w1 = Some w2 ∧ exec (settle turns) w2 = Some w' ∧
    ∃ s', sessions w' !! k = Some s' ∧ session s' ≠ None ∧
      (cred_bound s' ∧ since k (tried k) (log w') ∨ since k (failed k) (log w')).
Proof.
  intros D [Hs1 Hs2]%Forall_app Hreset Ew Es Eg Eh. destruct (disciplined_app _ _ _ _ D Ew) as [D1 [_ D2]].
  destruct (initial_wf n ts m ks st) as (W0 & Hn0 & Hw0).
  destruct (tls_exec_wf before _ W0 D1) as (w0 & E0 & W & G & _). rewrite Ew in E0. injection E0 as <-.
  destruct (G Hs1 Hn0 Hw0) as [Hn Hw].
  destruct (first_handshake_spec k w s W Es) as (w1' & r' & e & E1 & (W1 & G1 & _) & Hbegun). rewrite Eh in E1. injection E1 as <- <- <-.
  destruct (G1 Hn Hw) as [Hn1 Hw1].
  destruct (tls_exec_wf next w1 W1) as (w2 & E2 & W2 & G2 & K2); [apply D2; unfold step; by rewrite Eh|].
  destruct (G2 Hs2 Hn1 Hw1) as [Hn2 Hw2]. destruct (settle_spec w2 W2 Hn2 Hw2) as (turns & w' & E & Hset).
  exists w2, turns, w'. split; [done|]. split; [done|]. apply Hset, K2; [done|]. by apply Hbegun.
Qed.
End Laws.

(** ** A concrete GnuTLS *)

(** A handshake that asks for a certificate when it can, and exchanges a byte; data go as they are, and
    certificates in DER are refused. *)
Module Toy.

#[local] Instance toy_pki : GnutlsPki := {|
  crt := list Z; privkey := list Z;
  gnutls_x509_crt_import l f := match f with GNUTLS_X509_FMT_PEM => inl l | GNUTLS_X509_FMT_DER => inr (-43) end; gnutls_openpgp_crt_import l := inl l;
  gnutls_x509_privkey_import l _ := inl l; gnutls_openpgp_privkey_import l := inl l;
  gnutls_x509_crt_get_expiration_time _ := 2000; gnutls_openpgp_crt_get_expiration_time _ := 2000;
  gnutls_x509_crt_get_activation_time _ := 1000; gnutls_openpgp_crt_get_creation_time _ := 1000
|}.

Definition toy_handshake (g : option nat) : io bool (option nat * Z) :=
  match g with
  | None => Ret (g, -32)
  | Some c => Lookup c (λ o,
      let exchange := Push [22] (λ _, Pull 1 (λ p,
        Ret (g, match p with Data [22] => 0 | Again => -28 | _ => -9 end))) in
      if default false o then Retrieve (λ r, if r.1 <? 0 then Ret (g, -1) else exchange) else exchange)
  end.

#[export] Instance toy : Gnutls := {|
  pki := toy_pki;
  cred_t := bool; session_t := option nat;
  gnutls_certificate_allocate_credentials := false;
  gnutls_certificate_set_retrieve_function _ := true;
  gnutls_certificate_set_dh_params n _ := n;
  gnutls_certificate_set_x509_key n _ _ := (n, 0); gnutls_certificate_set_openpgp_key n _ _ := (n, 0);
  gnutls_certificate_set_x509_key_file n _ _ := (n, 0);
  gnutls_init _ := inl None;
  gnutls_server_name_set g _ := (g, 0); gnutls_priority_set_direct g _ := (g, 0);
  gnutls_certificate_server_set_request g := g;
  gnutls_credentials_set _ c := (Some c, 0);
  gnutls_handshake := toy_handshake;
  gnutls_record_recv g n := Pull n (λ p, Ret (g, match p with Data l => (Z.of_nat (length l), l) | Again => (-28, []) | Broken => (-9, []) end));
  gnutls_record_send g l := Push l (λ n, Ret (g, n));
  gnutls_bye g _ := Push [21] (λ _, Ret (g, 0));
  gnutls_error_is_fatal code := if code =? -28 then 0 else 1;
  gnutls_record_get_direction _ := 0;
  (* what follows the certificate cannot be imported, with other credentials than the first *)
  gnutls_certificate_get_peers g :=
    Some (codes "-----BEGIN CERTIFICATE-----" :: if decide (g = Some 0%nat) then [] else [replicate 30 1]);
  gnutls_certificate_verify_peers2 _ := (0, 0);
  (* the client has sent two names *)
  gnutls_server_name_get _ len i :=
    match nth_error [codes "www.long-name.example.org"; codes "short-name.example"] (Z.to_nat i) with
    | None => (GNUTLS_E_REQUESTED_DATA_NOT_AVAILABLE, len, 0, [])
    | Some name =>
        if Z.of_nat (length name) <? len then (0, Z.of_nat (length name), GNUTLS_NAME_DNS, name)
        else (GNUTLS_E_SHORT_MEMORY_BUFFER, Z.of_nat (length name), GNUTLS_NAME_DNS, [])
    end
|}.

(** The bytes that come in, and those that went out. *)
#[export] Instance toy_transport : Transport := {|
  wire := list Z * list Z;
  pull_func t n :=
    match t.1 with
    | [] => (t, inr WouldBlock)
    | _ => ((drop (Z.to_nat n) t.1, t.2), inl (take (Z.to_nat n) t.1))
    end;
  push_func t l := ((t.1, t.2 ++ l), inl (Z.of_nat (length l)))
|}.

#[export] Instance toy_laws : GnutlsLaws.
Proof.
  refine {| retrieves n := n; bound_of g := g |}; try done.
  - by intros m g [= <-].
  - intros [c|]; cbn; [|done]. split; [done|]. intros [[]|]; cbn; [|by intros _ p..].
    split; [done|]. intros [n st]. cbn. destruct (n <? 0); [done|]. by intros _ p.
Defined.

(** A server whose credentials need parameters: the session waits, and its client is already there. *)
Definition program : list operation :=
  [OpSetCredentials 0 0; OpSetDhBits 0 512; OpSetCertCallback 0 (Some (mkCallback [] true)); OpHandshake 0; OpHandshake 0].

Definition start : world := initial 1 [([22; 5; 6], [])] ∅ ∅ no_natives.

Lemma program_disciplined : disciplined program start.
Proof.
  unfold program.
  eapply disciplined_cons; [split; [by eexists|by eexists]|vm_compute; reflexivity|].
  eapply disciplined_cons; [split; [by eexists|done]|vm_compute; reflexivity|].
  eapply disciplined_cons; [split; [by eexists|eexists; split; [reflexivity|constructor]]|vm_compute; reflexivity|].
  eapply disciplined_cons; [by eexists|vm_compute; reflexivity|].
  eapply disciplined_cons; [by eexists|vm_compute; reflexivity|]. done.
Qed.

End Toy.
Import Toy.

Lemma handshakes_have_credentials_witness :
  disciplined program start ∧
  ∃ w, exec program start = Some w ∧
    (∀ l1 k code l2, log w = l1 ++ Handshake k code :: l2 →
       ∃ l0 c l3, l1 = l0 ++ Bound k c :: l3 ∧ Created k ∉ l3) ∧
    (∀ k s, sessions w !! k = Some s → cred_bound s → session s ≠ None).
Proof.
  split; [apply program_disciplined|].
  apply (@handshakes_have_credentials toy toy_transport toy_laws 1 [([22; 5; 6], [])] ∅ ∅ no_natives program). apply program_disciplined.
Defined.

(** The same server: its parameters are generated after the second call. *)
Lemma waiting_sessions_served_witness :
  let before := [OpSetCredentials 0 0; OpSetDhBits 0 512; OpSetCertCallback 0 (Some (mkCallback [] true))] in
  let next := [OpHandshake 0; OpRead 0 1] in
  ∃ w s w1,
    (disciplined (before ++ OpHandshake 0 :: next) start ∧ Forall succeeds (before ++ next) ∧ (OpReset 0 ∉ next) ∧
     exec before start = Some w ∧ sessions w !! 0%nat = Some s ∧ session s = None ∧
     evd_tls_session_handshake 0 w = Some (w1, (0, None))) ∧
    ∃ w2 turns w', exec next w1 = Some w2 ∧ exec (settle turns) w2 = Some w' ∧
      ∃ s', sessions w' !! 0%nat = Some s' ∧ session s' ≠ None ∧
        (cred_bound s' ∧ since 0 (tried 0) (log w') ∨ since 0 (failed 0) (log w')).
Proof.
  intros before next.
  assert (disciplined (before ++ OpHandshake 0 :: next) start) as D.
  { eapply disciplined_cons; [split; [by eexists|by eexists]|vm_compute; reflexivity|].
    eapply disciplined_cons; [split; [by eexists|done]|vm_compute; reflexivity|].
    eapply disciplined_cons; [split; [by eexists|eexists; split; [reflexivity|constructor]]|vm_compute; reflexivity|].
    eapply disciplined_cons; [by eexists|vm_compute; reflexivity|].
    eapply disciplined_cons; [by eexists|vm_compute; reflexivity|].
    eapply disciplined_cons; [eexists; split; [reflexivity|done]|vm_compute; reflexivity|]. done. }
  assert (Forall succeeds (before ++ next)) as Hs by repeat constructor.
  assert (OpReset 0 ∉ next) as Hr by (by repeat (apply not_elem_of_cons; split; [done|]); apply not_elem_of_nil).
  assert (∃ w s w1, exec before start = Some w ∧ sessions w !! 0%nat = Some s ∧ session s = None ∧
     evd_tls_session_handshake 0 w = Some (w1, (0, None))) as (w & s & w1 & Ew & Es & Eg & Eh).
  { eexists _, _, _. split; [vm_compute; reflexivity|]. split; [vm_compute; reflexivity|].
    split; [vm_compute; reflexivity|]. vm_compute; reflexivity. }
  exists w, s, w1. split; [done|].
  exact (@waiting_sessions_served toy toy_transport toy_laws 1 [([22; 5; 6], [])] ∅ ∅ no_natives before next 0 w s w1 0 D Hs Hr Ew Es Eg Eh).
Defined.

End TlsSessionSpec.
