(* ===== verification/TlsStream.v ===== *)
(** * TLS streams (src/evd/evd-tls-input-stream.c, src/evd/evd-tls-output-stream.c): model and theorems

    The two streams of a connection through which a TLS session moves its data: the input stream reads
    the stream below it, the output stream is a buffered output stream.  They are a transport of
    TlsSession.v.  The state has the bytes that the stream below will give and the answers of the streams
    below, which are any; what GnuTLS was given and what it was told was taken are kept beside them.  The
    theorems: nothing is lost, repeated or moved, whatever calls GnuTLS makes. *)
From S2P Require Import Prelude BufferedOutput TlsDhGenerator TlsCertificate TlsSession TlsSessionSpec.
Import TlsCertificate TlsSession TlsSessionSpec.

Module TlsStream.

(** How many bytes the stream below gives or takes, if any. *)
Inductive answer := Moves (n : nat) | Blocks | Fails.

Record EvdTlsStreams := mkStreams {
  base_input : list Z;                 (* what the stream below has to give *)
  input_answers : list answer;
  input_pending : bool;
  input_closed : bool;
  output : BufferedOutput.EvdBufferedOutputStreamPrivate;
  output_answers : list answer;
  output_closed : bool;
  sent : list Z;                       (* to the stream below *)
  given : list Z;                      (* to GnuTLS *)
  taken : list Z                       (* from GnuTLS *)
}.

Definition with_input b a p t := mkStreams b a p (input_closed t) (output t) (output_answers t) (output_closed t) (sent t) (given t) (taken t).
Definition with_given l t := mkStreams (base_input t) (input_answers t) (input_pending t) (input_closed t) (output t) (output_answers t) (output_closed t) (sent t) l (taken t).
Definition with_closed_input t := mkStreams (base_input t) (input_answers t) false true (output t) (output_answers t) (output_closed t) (sent t) (given t) (taken t).
Definition with_output o a s l t := mkStreams (base_input t) (input_answers t) (input_pending t) (input_closed t) o a (output_closed t) s (given t) l.

(** [g_input_stream_read] on the stream below, which blocks when its answers are over. *)
Definition base_read (t : EvdTlsStreams) (size : nat) : EvdTlsStreams * (list Z + io_error) :=
  match input_answers t with
  | Moves n :: a =>
      let n := (n `min` size)%nat in
      (with_input (drop n (base_input t)) a (input_pending t) t, inl (take n (base_input t)))
  | Fails :: a => (with_input (base_input t) a (input_pending t) t, inr OtherError)
  | Blocks :: a => (with_input (base_input t) a (input_pending t) t, inr WouldBlock)
  | [] => (t, inr WouldBlock)
  end.

(** A short read leaves the stream pending, which a closed one cannot be. *)
Definition evd_tls_input_stream_pull (t : EvdTlsStreams) (size : Z) : EvdTlsStreams * (list Z + io_error) :=
  let '(t, r) := base_read t (Z.to_nat size) in
  match r with
  | inr e => (t, inr e)
  | inl data =>
      if Z.of_nat (length data) <? size then
        if input_pending t then (with_given (given t ++ data) t, inl data)
        else if input_closed t then (t, inr Closed)
        else (with_given (given t ++ data) (with_input (base_input t) (input_answers t) true t), inl data)
      else (with_given (given t ++ data) (with_input (base_input t) (input_answers t) false t), inl data)
  end.

(** The answer of the stream below to a write of [size] bytes. *)
Definition base_answer (t : EvdTlsStreams) (size : nat) : BufferedOutput.base_answer * list answer :=
  match output_answers t with
  | Moves n :: a => (BufferedOutput.Wrote (Z.of_nat (n `min` size)), a)
  | Fails :: a => (BufferedOutput.Failed, a)
  | Blocks :: a => (BufferedOutput.WouldBlock, a)
  | [] => (BufferedOutput.WouldBlock, [])
  end.

(** The write of the parent class. *)
Definition evd_tls_output_stream_push (t : EvdTlsStreams) (buffer : list Z) : EvdTlsStreams * (Z + io_error) :=
  if output_closed t then (t, inr Closed)
  else
    let '(a, answers) := base_answer t (length buffer) in
    let '(o, evs, r) := BufferedOutput.evd_buffered_output_stream_write (output t) buffer a in
    match r with
    | inl n => (with_output o answers (sent t ++ BufferedOutput.to_base evs) (taken t ++ take (Z.to_nat n) buffer) t, inl n)
    | inr _ => (with_output o answers (sent t ++ BufferedOutput.to_base evs) (taken t) t, inr OtherError)
    end.

#[export] Instance tls_streams : Transport := {|
  wire := EvdTlsStreams;
  pull_func := evd_tls_input_stream_pull;
  push_func := evd_tls_output_stream_push
|}.

(** The connection can write: the buffer goes out. *)
Definition notify_write (t : EvdTlsStreams) : EvdTlsStreams :=
  let '(a, answers) := base_answer t (length (BufferedOutput.buffer (output t))) in
  let '(o, evs) := BufferedOutput.evd_buffered_output_stream_notify_write (output t) a in
  with_output o answers (sent t ++ BufferedOutput.to_base evs) (taken t) t.

Definition GNUTLS_E_UNEXPECTED_PACKET_LENGTH : Z := -9.

Section Streams.
Context `{Gnutls}.

Definition close_input (k : nat) w : option world :=
  s ← sessions w !! k; Some (with_session k (set_transport (with_closed_input (transport s)) s) w).

(** A peer that closes its connection without a farewell is at its end. *)
Definition evd_tls_input_stream_read (k : nat) (size : Z) w : option (world * (Z * option tls_error * list Z)) :=
  '(w, (actual_size, e, data)) ← evd_tls_session_read k size w;
  if actual_size <? 0 then
    if bool_decide (e = Some (GnutlsError GNUTLS_E_UNEXPECTED_PACKET_LENGTH))
    then w ← close_input k w; Some (w, (0, None, []))
    else Some (w, (actual_size, e, data))
  else Some (w, (actual_size, e, data)).

Definition evd_tls_output_stream_write (k : nat) (buffer : list Z) w := evd_tls_session_write k buffer w.

(** ** Nothing is lost, repeated or moved *)

(** [total] is all the stream below has ever had to give. *)
Record in_order (total : list Z) (t : EvdTlsStreams) : Prop := {
  order_grow : BufferedOutput.auto_grow (output t) = true;
  order_open : input_closed t = false;
  order_input : given t ++ base_input t = total;
  order_output : sent t ++ BufferedOutput.buffer (output t) = taken t
}.

Lemma pull_in_order total t size :
  in_order total t → in_order total (evd_tls_input_stream_pull t size).1.
Proof.
  intros [Hg Ho Hi Hs]. unfold evd_tls_input_stream_pull, base_read.
  destruct (input_answers t) as [|[n| |] a]; [done| |done|done]. cbn.
  destruct (_ <? size); [destruct (input_pending t); [|rewrite Ho]|]; split; cbn; try done; by rewrite <-app_assoc, take_drop.
Qed.

Lemma base_answer_ok t size : BufferedOutput.answer_ok size (base_answer t size).1.
Proof. unfold base_answer. destruct (output_answers t) as [|[n| |] a]; cbn; lia || done. Qed.

Lemma push_in_order total t data :
  in_order total t → in_order total (evd_tls_output_stream_push t data).1.
Proof.
  intros [Hg Ho Hi Hs]. unfold evd_tls_output_stream_push. destruct (output_closed t); [done|].
  pose proof (base_answer_ok t (length data)) as Ha. destruct (base_answer t (length data)) as [a answers]. cbn in Ha.
  destruct (BufferedOutput.evd_buffered_output_stream_write (output t) data a) as [[o evs] r] eqn:E.
  apply BufferedOutput.write_fifo in E; [|done..]. destruct r as [n|e].
  - destruct E as [-> [Hf Hg']]. rewrite Nat2Z.id, take_ge by done. split; cbn; try done; [by rewrite Hg'|].
    by rewrite <-app_assoc, Hf, app_assoc, Hs.
  - destruct E as [-> ->]. split; cbn; try done. by rewrite app_nil_r.
Qed.

Lemma notify_in_order total t : in_order total t → in_order total (notify_write t).
Proof.
  intros [Hg Ho Hi Hs]. unfold notify_write.
  pose proof (base_answer_ok t (length (BufferedOutput.buffer (output t)))) as Ha.
  destruct (base_answer t _) as [a answers]. cbn in Ha.
  destruct (BufferedOutput.evd_buffered_output_stream_notify_write (output t) a) as [o evs] eqn:E.
  apply BufferedOutput.notify_write_fifo in E as [Hf Hg']; [|done]. rewrite app_nil_r in Hf.
  split; cbn; try done; [by rewrite Hg'|]. by rewrite <-app_assoc, Hf.
Qed.

(** GnuTLS is never told to push less than it has: a push takes everything, or fails. *)
Lemma push_takes_all total t data n t' :
  in_order total t → evd_tls_output_stream_push t data = (t', inl n) → n = Z.of_nat (length data).
Proof.
  intros [Hg _ _ _]. unfold evd_tls_output_stream_push. destruct (output_closed t); [done|].
  pose proof (base_answer_ok t (length data)) as Ha. destruct (base_answer t (length data)) as [a answers]. cbn in Ha.
  destruct (BufferedOutput.evd_buffered_output_stream_write (output t) data a) as [[o evs] r] eqn:E.
  apply BufferedOutput.write_fifo in E; [|done..]. destruct r as [m|]; [|done]. intros [= _ <-]. by destruct E.
Qed.

End Streams.

(** ** What the sessions do with their transports *)

Section Transports.
Context `{Gnutls, Transport} (P : nat → wire → Prop).
Context (P_pull : ∀ k t n, P k t → P k (pull_func t n).1) (P_push : ∀ k t l, P k t → P k (push_func t l).1).

Definition transports w : Prop := ∀ k s, sessions w !! k = Some s → P k (transport s).

Lemma transports_same w w' : sessions w' = sessions w → transports w → transports w'.
Proof. intros E T k s. rewrite E. apply T. Qed.

Lemma transports_session w k s : transports w → P k (transport s) → transports (with_session k s w).
Proof. intros T Hs k' s'. cbn. intros [[<- <-]|[_ E]]%lookup_insert_Some; [done|by apply (T k')]. Qed.

(** Takes a computation of the option monad apart. *)
Ltac steps :=
  repeat match goal with
  | E : mbind _ ?o = Some _ |- _ => destruct o as [?|] eqn:?; [cbn [mbind option_bind] in E|discriminate E]
  | E : (let '(_, _) := ?p in _) = Some _ |- _ => destruct p eqn:?
  | E : match ?x with _ => _ end = Some _ |- _ => destruct x eqn:?; try discriminate E
  | E : Some _ = Some _ |- _ => injection E as E; try subst
  end.

Lemma get_credentials_transports k w w' c :
  evd_tls_session_get_credentials k w = Some (w', c) → transports w → transports w'.
Proof.
  unfold evd_tls_session_get_credentials. destruct (sessions w !! k) as [s|] eqn:Es; [|done]. run_bind.
  destruct (credentials s); [by intros [= -> _]|]. cbn. intros [= <- _] T.
  apply (transports_session (evd_tls_credentials_new w).1); [by apply (transports_same w)|exact (T k s Es)].
Qed.

Lemma add_certificate_sessions self cert key w w' e :
  evd_tls_credentials_add_certificate self cert key w = Some (w', e) → sessions w' = sessions w.
Proof. unfold evd_tls_credentials_add_certificate. intros E. steps; try done; by simplify_eq. Qed.

Lemma run_cert_cb_sessions self l w w' : run_cert_cb self l w = Some w' → sessions w' = sessions w.
Proof.
  revert w; induction l as [|[cert key] l IH]; intros w; cbn [run_cert_cb]; [by intros [= ->]|].
  destruct (evd_tls_credentials_add_certificate self cert key w) as [[w1 e]|] eqn:E1; [|done]. run_bind.
  intros E. rewrite (IH _ E). by eapply add_certificate_sessions.
Qed.

Lemma server_cert_cb_transports k w w' r :
  evd_tls_credentials_server_cert_cb k w = Some (w', r) → transports w → transports w'.
Proof.
  unfold evd_tls_credentials_server_cert_cb.
  destruct (evd_tls_session_get_credentials k w) as [[w1 c]|] eqn:E1; [|done]. run_bind.
  destruct (creds w1 !! c) as [x|]; [|done]. run_bind. destruct (cert_cb x) as [cb|]; [|done]. run_bind.
  destruct (run_cert_cb _ _ _) as [w2|] eqn:E2; [|done]. run_bind. destruct (creds w2 !! c); [|done]. run_bind.
  intros [= <- _] T. apply (transports_same w2); [done|]. apply run_cert_cb_sessions in E2. eapply transports_same; [exact E2|].
  apply (transports_same w1); [done|]. by eapply get_credentials_transports.
Qed.

Lemma run_transports {A} k (m : io cred_t A) w w' a : run k m w = Some (w', a) → transports w → transports w'.
Proof.
  revert w. induction m as [a'|data f IH|size f IH|f IH|c f IH]; intros w; cbn [run].
  - by intros [= -> _].
  - unfold evd_tls_session_push. destruct (sessions w !! k) as [s|] eqn:Es; [|done]. run_bind. destruct (push_set s); [|done].
    destruct (push_func (transport s) data) as [t r] eqn:E. run_bind. intros Hr T. apply (IH _ _ Hr).
    apply transports_session; [done|]. cbn. change t with (t, r).1. rewrite <-E. by apply P_push, (T k).
  - unfold evd_tls_session_pull. destruct (sessions w !! k) as [s|] eqn:Es; [|done]. run_bind. destruct (pull_set s); [|done].
    destruct (pull_func (transport s) size) as [t r] eqn:E. run_bind. intros Hr T. apply (IH _ _ Hr).
    apply transports_session; [done|]. cbn. change t with (t, r).1. rewrite <-E. by apply P_pull, (T k).
  - destruct (evd_tls_credentials_server_cert_cb k w) as [[w1 r]|] eqn:E; [|done]. run_bind. intros Hr T. apply (IH _ _ Hr).
    by eapply server_cert_cb_transports.
  - destruct (creds w !! c); [|done]. run_bind. apply IH.
Qed.

Lemma call_gnutls_transports {A} k (f : session_t → io cred_t (session_t * A)) w w' a :
  call_gnutls k f w = Some (w', a) → transports w → transports w'.
Proof.
  unfold call_gnutls. destruct (sessions w !! k) as [s|]; [|done]. run_bind. destruct (session s) as [g|]; [|done]. run_bind.
  destruct (run k (f g) w) as [[w1 [g' a']]|] eqn:E; [|done]. run_bind. destruct (sessions w1 !! k) as [s1|] eqn:E1; [|done]. run_bind.
  intros [= <- _] T. apply run_transports in E; [|done]. apply transports_session; [done|]. exact (E k s1 E1).
Qed.

Lemma handshake_internal_transports k w w' r :
  evd_tls_session_handshake_internal k w = Some (w', r) → transports w → transports w'.
Proof.
  unfold evd_tls_session_handshake_internal. destruct (call_gnutls k gnutls_handshake w) as [[w1 code]|] eqn:E; [|done]. run_bind.
  intros [= <- _] T. apply (transports_same w1); [done|]. by eapply call_gnutls_transports.
Qed.

Lemma bind_credentials_transports k c w w' e :
  evd_tls_session_bind_credentials k c w = Some (w', e) → transports w → transports w'.
Proof.
  unfold evd_tls_session_bind_credentials. intros E T. destruct (sessions w !! k) as [s|] eqn:Es; [|done]. cbn in E.
  pose proof (T k s Es) as Hs. destruct (creds w !! c) as [x|]; [|done]. cbn in E. destruct (cred x); [|by simplify_eq].
  destruct (session s) as [g|]; [|done]. cbn in E. destruct (gnutls_credentials_set g c) as [g' code].
  destruct (code =? GNUTLS_E_SUCCESS); injection E as <- _; [eapply transports_same; [done|]|]; by apply transports_session.
Qed.

Lemma emit_ready_transports c l w w' : emit_ready c l w = Some w' → transports w → transports w'.
Proof.
  revert w; induction l as [|k l IH]; intros w; cbn [emit_ready]; [by intros [= ->]|].
  unfold evd_tls_session_on_credentials_ready.
  destruct (evd_tls_session_bind_credentials k c w) as [[w1 e]|] eqn:E1; [|done]. run_bind. destruct e as [e|].
  - run_bind. intros E T. apply (IH _ E). apply (transports_same w1); [done|]. by eapply bind_credentials_transports.
  - destruct (evd_tls_session_handshake_internal k w1) as [[w2 [code e2]]|] eqn:E2; [|done]. run_bind. intros E T. apply (IH _ E).
    assert (transports w2) as T2 by (eapply handshake_internal_transports; [done|]; by eapply bind_credentials_transports).
    by destruct e2.
Qed.

Lemma prepare_finish_transports c w w' : evd_tls_credentials_prepare_finish c w = Some w' → transports w → transports w'.
Proof.
  unfold evd_tls_credentials_prepare_finish. destruct (creds w !! c) as [x|]; [|done]. run_bind. destruct (preparing x); [by intros [= ->]|].
  destruct (async_ops_count _ =? 0).
  - intros E T. by eapply emit_ready_transports.
  - by intros [= <-].
Qed.

Lemma prepare_transports c w w' : evd_tls_credentials_prepare c w = Some w' → transports w → transports w'.
Proof.
  unfold evd_tls_credentials_prepare. destruct (creds w !! c) as [x|]; [|done]. run_bind. destruct (preparing x); [by intros [= ->]|].
  destruct (_ && _); [|apply prepare_finish_transports]. unfold evd_tls_generate_dh_params. intros E T. steps; by eapply transports_same.
Qed.

Lemma deliver_answers_transports evs w w' : deliver_answers evs w = Some w' → transports w → transports w'.
Proof.
  revert w; induction evs as [|e evs IH]; intros w; cbn [deliver_answers]; [by intros [= ->]|].
  destruct e as [r b|p b|r o]; [by apply IH..|]. destruct (asked w !! r) as [c|]; [|run_bind; by apply IH].
  unfold evd_tls_credentials_dh_params_ready. destruct (creds w !! c) as [x|]; [|done]. run_bind. destruct o as [[p|]|].
  - destruct (evd_tls_credentials_prepare_finish c _) as [w1|] eqn:E; [|done]. run_bind. intros Hd T. apply (IH _ Hd).
    eapply prepare_finish_transports; [exact E|]. by eapply transports_same.
  - intros Hd T. apply (IH _ Hd). by eapply transports_same.
  - intros Hd T. apply (IH _ Hd). by eapply transports_same.
Qed.

Lemma server_name_internal_transport s : transport (evd_tls_session_set_server_name_internal s).1 = transport s.
Proof.
  unfold evd_tls_session_set_server_name_internal. destruct (session s) as [g|]; [|done].
  destruct (server_name s) as [n|]; [|done]. destruct (mode s); [done|]. by destruct (gnutls_server_name_set g n).
Qed.

Lemma configure_transport s : transport (configure_session s).1 = transport s.
Proof.
  unfold configure_session. pose proof (server_name_internal_transport s) as Hs.
  destruct (evd_tls_session_set_server_name_internal s) as [s1 e]. cbn in Hs. destruct e as [e|]; [done|].
  destruct (session s1) as [g|]; [|done]. destruct (gnutls_priority_set_direct g (priority s1)) as [g1 code].
  destruct (code =? GNUTLS_E_SUCCESS); [|done]. cbn. by destruct (require_peer_cert s1 && _).
Qed.

Lemma handshake_transports k w w' r : evd_tls_session_handshake k w = Some (w', r) → transports w → transports w'.
Proof.
  unfold evd_tls_session_handshake. destruct (sessions w !! k) as [s|] eqn:Es; [|done]. run_bind. intros E T. pose proof (T k s Es) as Hs.
  destruct (session s) as [g|].
  { destruct (cred_bound s); [by eapply handshake_internal_transports|by simplify_eq]. }
  destruct (gnutls_init (mode s)) as [g|code]; [|by simplify_eq].
  pose proof (configure_transport (set_session (Some g) s)) as Hc. destruct (configure_session (set_session (Some g) s)) as [s1 e].
  set (w1 := log_event (Created k) (with_session k s1 w)) in *.
  assert (transports w1) as T1.
  { apply (transports_same (with_session k s1 w)); [done|]. apply transports_session; [done|]. cbn in Hc. by rewrite Hc. }
  clearbody w1. destruct e as [e|]; [by simplify_eq|].
  destruct (evd_tls_session_get_credentials k w1) as [[w2 c]|] eqn:E2; [|done]. cbn [mbind option_bind] in E.
  assert (transports w2) as T2 by by eapply get_credentials_transports.
  destruct (creds w2 !! c) as [x|]; [|done]. cbn [mbind option_bind] in E. destruct (ready x).
  - destruct (evd_tls_session_bind_credentials k c w2) as [[w3 e3]|] eqn:E3; [|done]. cbn [mbind option_bind] in E.
    assert (transports w3) as T3 by by eapply bind_credentials_transports.
    destruct e3 as [e3|]; [by simplify_eq|by eapply handshake_internal_transports].
  - destruct (sessions w2 !! k) as [s2|] eqn:Es2; [|done]. cbn [mbind option_bind] in E.
    set (w3 := if cred_ready_sig_id s2 then _ else _) in E.
    assert (transports w3) as T3.
    { unfold w3. destruct (cred_ready_sig_id s2); [done|]. apply transports_session; [by apply (transports_same w2)|exact (T2 k s2 Es2)]. }
    destruct (evd_tls_credentials_prepare c w3) as [w4|] eqn:E4; [|done]. cbn [mbind option_bind] in E. simplify_eq.
    by eapply prepare_transports.
Qed.

Lemma shutdown_transports k how w w' r : evd_tls_session_shutdown k how w = Some (w', r) → transports w → transports w'.
Proof.
  unfold evd_tls_session_shutdown. destruct (sessions w !! k) as [s|]; [|done]. run_bind. destruct (session s); [|by intros [= -> _]].
  destruct (call_gnutls k (λ g, gnutls_bye g how) w) as [[w1 code]|] eqn:E1; [|done]. run_bind. intros E T.
  assert (transports w1) as T1 by by eapply call_gnutls_transports. destruct (_ && _); [by simplify_eq|].
  destruct (sessions w1 !! k) as [s1|] eqn:Es1; [|done]. cbn [mbind option_bind] in E. simplify_eq.
  apply transports_session; [done|exact (T1 k s1 Es1)].
Qed.

Lemma reset_transports k w w' : evd_tls_session_reset k w = Some w' → transports w → transports w'.
Proof.
  unfold evd_tls_session_reset. destruct (sessions w !! k) as [s|] eqn:Es; [|done]. run_bind. intros E T. pose proof (T k s Es) as Hs.
  destruct (session s); [|simplify_eq; by apply transports_session]. destruct (cred_ready_sig_id s).
  - destruct (credentials s) as [c|]; [|done]. cbn [mbind option_bind] in E. destruct (creds w !! c) as [x|]; [|done].
    cbn [mbind option_bind] in E. simplify_eq. apply transports_session; [by apply (transports_same w)|done].
  - cbn [mbind option_bind] in E. simplify_eq. by apply transports_session.
Qed.

Lemma step_transports o w w' : step o w = Some w' → transports w → transports w'.
Proof.
  intros E T. destruct o; unfold step in E.
  - destruct (evd_tls_session_handshake k w) as [[w1 r]|] eqn:E1; [|done]. simplify_eq/=. by eapply handshake_transports.
  - destruct (evd_tls_session_read k size w) as [[w1 r]|] eqn:E1; [|done]. simplify_eq/=. unfold evd_tls_session_read in E1.
    destruct (size <=? 0); [by simplify_eq|]. destruct (call_gnutls k _ w) as [[w2 [c d]]|] eqn:E2; [|done]. simplify_eq/=.
    by eapply call_gnutls_transports.
  - destruct (evd_tls_session_write k data w) as [[w1 r]|] eqn:E1; [|done]. simplify_eq/=. unfold evd_tls_session_write in E1.
    case_bool_decide; [by simplify_eq|]. destruct (call_gnutls k _ w) as [[w2 c]|] eqn:E2; [|done]. simplify_eq/=.
    by eapply call_gnutls_transports.
  - destruct (evd_tls_session_shutdown k how w) as [[w1 r]|] eqn:E1; [|done]. simplify_eq/=. by eapply shutdown_transports.
  - by eapply reset_transports.
  - unfold evd_tls_session_set_credentials in E. destruct (sessions w !! k) as [s|] eqn:Es; [|done]. pose proof (T k s Es) as Hs.
    cbn in E. steps; apply transports_session; try done; by apply (transports_same w).
  - unfold evd_tls_session_set_server_name in E. destruct (sessions w !! k) as [s|] eqn:Es; [|done]. pose proof (T k s Es) as Hs. cbn in E.
    pose proof (server_name_internal_transport (set_name name s)) as Ht.
    destruct (evd_tls_session_set_server_name_internal (set_name name s)) as [s1 e]. cbn in *. simplify_eq.
    apply transports_session; [done|by rewrite Ht].
  - by eapply prepare_transports.
  - unfold evd_tls_credentials_set_property_dh_bits, dh_params_deinit in E. steps; by eapply transports_same.
  - unfold evd_tls_credentials_set_cert_callback in E. steps; by eapply transports_same.
  - destruct (evd_tls_credentials_add_certificate _ _ _ w) as [[w1 r]|] eqn:E1; [|done]. simplify_eq/=.
    apply add_certificate_sessions in E1. by eapply transports_same.
  - steps; by eapply transports_same.
  - destruct (TlsDhGenerator.step _ _) as [[g evs]|]; [|done]. cbn [mbind option_bind] in E. eapply deliver_answers_transports; [exact E|].
    by eapply transports_same.
Qed.

Lemma exec_transports ops w w' : exec ops w = Some w' → transports w → transports w'.
Proof.
  revert w; induction ops as [|o ops IH]; intros w; cbn [exec]; [by intros [= ->]|].
  destruct (step o w) as [w1|] eqn:E; [|done]. run_bind. intros E1 T. apply (IH _ E1). by eapply step_transports.
Qed.

End Transports.

(** ** Sessions over TLS streams *)

Section Programs.
Context `{GnutlsLaws}.

(** An operation of a session, or the connection below that can write. *)
Inductive act := Do (o : operation) | Writable (k : nat).

Definition perform (a : act) w : option world :=
  match a with
  | Do o => step o w
  | Writable k => s ← sessions w !! k; Some (with_session k (set_transport (notify_write (transport s)) s) w)
  end.

Fixpoint perform_all (acts : list act) w : option world :=
  match acts with
  | [] => Some w
  | a :: acts => w ← perform a w; perform_all acts w
  end.

Definition act_allowed (a : act) w : Prop :=
  match a with Do o => allowed o w | Writable k => is_Some (sessions w !! k) end.

Fixpoint acts_disciplined (acts : list act) w : Prop :=
  match acts with
  | [] => True
  | a :: acts => act_allowed a w ∧ ∀ w', perform a w = Some w' → acts_disciplined acts w'
  end.

Lemma perform_all_spec (total : nat → list Z) acts w :
  wf w → transports (λ k, in_order (total k)) w → acts_disciplined acts w →
  ∃ w', perform_all acts w = Some w' ∧ transports (λ k, in_order (total k)) w'.
Proof.
  revert w; induction acts as [|a acts IH]; intros w W T D; cbn [perform_all]; [by eexists|].
  destruct D as [Ha D]. assert (∃ w1, perform a w = Some w1 ∧ wf w1 ∧ transports (λ k, in_order (total k)) w1) as (w1 & E1 & W1 & T1).
  { destruct a as [o|k].
    - destruct (step_spec o w W Ha) as (w1 & E1 & W1 & _). exists w1. split; [done|]. split; [done|].
      eapply step_transports; [| |exact E1|done]; intros; [by apply pull_in_order|by apply push_in_order].
    - destruct Ha as [s Es]. cbn. rewrite Es. run_bind. eexists. split; [done|]. split.
      + eapply frame_wf; [done|]. by apply frame_with_transport.
      + apply transports_session; [done|]. apply notify_in_order. by apply (T k s). }
  rewrite E1. run_bind. apply (IH w1 W1 T1). by apply D.
Qed.

(** New streams over a stream that gives [input]. *)
Definition new_streams (input : list Z) (a b : list answer) : EvdTlsStreams :=
  mkStreams input a false false BufferedOutput.evd_buffered_output_stream_init b false [] [] [].

(** C40. TLS streams, while the input is not closed, keep the order of the bytes: whatever GnuTLS pulls and
    pushes, and whatever the streams below answer, the sessions that are used as [allowed] says go on; what GnuTLS was given is the
    beginning of what the stream below has to give, and what it was told was taken is what was sent,
    followed by what waits in the buffer. *)
Theorem tls_streams_in_order n (l : list (list Z * list answer * list answer)) m ks st (acts : list act) :
  let w := initial n ((λ '(input, a, b), new_streams input a b) <$> l) m ks st in
  acts_disciplined acts w →
  ∃ w', perform_all acts w = Some w' ∧
    ∀ k input a b s, l !! k = Some (input, a, b) → sessions w' !! k = Some s →
      given (transport s) ++ base_input (transport s) = input ∧
      sent (transport s) ++ BufferedOutput.buffer (output (transport s)) = taken (transport s).
Proof.
  intros w D. set (total := λ k, match l !! k with Some (input, _, _) => input | None => [] end).
  destruct (perform_all_spec total acts w) as (w' & E & T); [apply initial_wf| |done|].
  { intros k s Es. unfold w, initial in Es. cbn [sessions] in Es. rewrite lookup_map_seq_0, !list_lookup_fmap in Es.
    unfold total. destruct (l !! k) as [[[input a] b]|]; [|done]. cbn in Es. injection Es as <-. by split. }
  exists w'. split; [done|]. intros k input a b s El Es. destruct (T k s Es) as [_ _ Hi Ho]. split; [|done].
  unfold total in Hi. by rewrite El in Hi.
Qed.

End Programs.

Import Toy.
#[local] Existing Instance tls_streams.

(** A handshake over a stream that blocks first, then data that go out in two parts. *)
Definition demo : list act :=
  [Do (OpHandshake 0); Do (OpHandshake 0); Do (OpWrite 0 [1; 2; 3]); Do (OpRead 0 2); Writable 0].

Definition demo_streams : list (list Z * list answer * list answer) :=
  [([22; 7; 8; 9], [Blocks; Moves 1; Moves 5], [Moves 1; Moves 1; Moves 2; Moves 9])].
Definition demo_world : world :=
  @initial toy tls_streams 1 ((λ '(input, a, b), new_streams input a b) <$> demo_streams) ∅ ∅ no_natives.

(** Whether the data operations of a program are allowed where they run. *)
Definition act_allowedb (a : act) (w : world) : bool :=
  match a with
  | Do (OpHandshake k) | Writable k => bool_decide (is_Some (sessions w !! k))
  | Do (OpRead k _) | Do (OpWrite k _) => match sessions w !! k with Some s => bool_decide (is_Some (session s)) | None => false end
  | Do _ => false
  end.

Fixpoint acts_disciplinedb (acts : list act) (w : world) : bool :=
  match acts with
  | [] => true
  | a :: acts => act_allowedb a w && match perform a w with Some w' => acts_disciplinedb acts w' | None => true end
  end.

Lemma act_allowedb_ok a w : act_allowedb a w = true → act_allowed a w.
Proof.
  destruct a as [[]|]; cbn; try done; try by intros ?%bool_decide_eq_true.
  all: destruct (sessions w !! k) as [s|]; [|done]; intros [g Eg]%bool_decide_eq_true; exists s; by rewrite Eg.
Qed.

Lemma acts_disciplinedb_ok acts w : acts_disciplinedb acts w = true → acts_disciplined acts w.
Proof.
  revert w; induction acts as [|a acts IH]; intros w; cbn [acts_disciplinedb]; [done|]. intros [Ha E]%andb_true_iff.
  split; [by apply act_allowedb_ok|]. intros w' Ew. rewrite Ew in E. by apply IH.
Qed.

Lemma demo_disciplined : acts_disciplined demo demo_world.
Proof. apply acts_disciplinedb_ok. vm_compute. reflexivity. Qed.

Lemma tls_streams_in_order_witness :
  acts_disciplined demo demo_world ∧
  ∃ w', perform_all demo demo_world = Some w' ∧
    ∀ k input a b s, demo_streams !! k = Some (input, a, b) →
      sessions w' !! k = Some s →
      given (transport s) ++ base_input (transport s) = input ∧
      sent (transport s) ++ BufferedOutput.buffer (output (transport s)) = taken (transport s).
Proof.
  split; [apply demo_disciplined|].
  apply (@tls_streams_in_order toy toy_laws 1 demo_streams ∅ ∅ no_natives demo). apply demo_disciplined.
Defined.

(** What the demonstration has moved. *)
Example demo_moves :
  (w ← perform_all demo demo_world; s ← sessions w !! 0%nat;
   Some (given (transport s), taken (transport s), sent (transport s))) =
  Some ([22; 7; 8], [22; 22; 1; 2; 3], [22; 22; 1; 2; 3]).
Proof. vm_compute. reflexivity. Qed.

End TlsStream.
